(* ===== verification/_CoqProject ===== *)
-Q . S2P
Prelude.v
Text.v
Protocol.v
Net.v
IpText.v
ClientIp.v
Window.v
RateLimit.v
ProxyProtocol.v
Shield.v
Http.v
Framing.v
Upstream.v
Budget.v
Connection.v
Route.v
Inspection.v
Grpc.v
Spool.v
Json.v
Dlp.v
GraphqlParser.v
Graphql.v
Origin.v
Waf.v
Behavioral.v
Abuse.v
Jwks.v
Jwt.v
Authz.v
Schema.v
OpenApi.v
WafEngine.v
Config.v
Policy.v
Stage.v
Pipeline.v
Mediation.v
Headers.v
Egress.v
Logbook.v
AdminText.v
Oidc.v
Admin.v
Dashboard.v
Operators.v
Cidrs.v
Metrics.v
Otel.v
Commands.v
Init.v
Accounts.v
Boot.v
