(* ===== verification/Prelude.v ===== *)
(** * Ferroada: a verification development

    Ferroada is a reverse proxy with a web application firewall: it accepts connections,
    decides which address a request comes from, applies limits and per-route policies,
    inspects the request, rewrites it and sends it to an origin.  This library models the
    parts of it that decide, in the order a request meets them, and proves what each
    promises.  The sources are the Rust files under [src/].

    ** Files

    - [Prelude] (this file): bytes and strings with the operations of [str] and [\[u8\]] the
      code uses, fixed-width integers with their saturating, checked and wrapping operations,
      number parsing and printing, UTF-8, the [result] monad, time, the environment, sums over
      finite maps; the shared lemmas, tactics and the hint database [ferroada].
    - [Net]: [std::net] addresses and their text parser; the events recorded in metrics.
    - [Window]: sliding windows, tables of windows and their sweep, stable sorting, the class
      [MapOrder] for the iteration order of a [DashMap].
    - [Http]: the class [HeaderMap], what the code relies on from [http::HeaderMap].
    - [Connection] ([src/connection.rs]): admission of TCP connections.
    - [ProxyProtocol] ([src/proxy_protocol.rs]): PROXY protocol v2 headers.
    - [ClientIp] ([src/client_ip.rs]): attribution of a request to an address, risk identity.
    - [RateLimit] ([src/rate_limit.rs]): the sliding window limiter.
    - [Shield] ([src/shield.rs]): limits on methods, URIs, headers, hosts, bodies and framing.
    - [Framing] ([src/proxy.rs]): framing headers of the raw request, chunked bodies, the
      reading of origin responses.
    - [Route] ([src/config.rs]): canonical paths and route prefixes.
    - [Protocol] ([src/protocol.rs]): the matrix of protocol features.
    - [Inspection] ([src/waf.rs], [src/config.rs], [src/proxy.rs]): outcomes of inspection and
      the policies that refuse incomplete ones.
    - [Grpc] ([src/grpc.rs]): methods, frames and deadlines of gRPC calls.
    - [Budget] ([src/proxy.rs]): body buffers, memory and concurrency budgets.
    - [Spool] ([src/spool.rs]): bodies held in memory or on disk and replayed.
    - [Upstream] ([src/proxy.rs]): the request sent to the origin.
    - [Dlp] ([src/dlp.rs]): masking of personal data and cards in responses.
    - [Json]: JSON values and the class of their codec.
    - [GraphqlParser] and [Graphql] ([src/graphql.rs]): the parser of GraphQL documents; the
      analysis, limits and quota of GraphQL requests.
    - [Origin] ([src/origin.rs], [src/proxy.rs]): origin pools, circuit breakers and retries.
    - [Waf] ([src/waf.rs]): percent-decoding, signatures, bodies and content encodings.
    - [Behavioral] ([src/behavioral.rs]): behaviour scores, throttling and bans.
    - [Abuse] ([src/abuse.rs]): quotas against abuse, rotations and challenges.
    - [Jwks] and [Jwt] ([src/jwt.rs]): key sets and their cache; tokens, claims and bindings.
    - [Authz] ([src/authz.rs], [src/proxy.rs], [src/config.rs]): the authorization callback.
    - [Schema] and [OpenApi] ([src/openapi.rs], [src/proxy.rs]): checking of JSON against schemas;
      specifications, the choice of operations, envelopes and bodies.
    - [Text]: lossy decoding of UTF-8.
    - [WafEngine] ([src/waf_l1.rs], [src/waf_engine.rs], [src/proxy.rs]): the rule engine beside the
      proxy: settings, exclusions, exchange and verdicts.
    - [Config] ([src/config.rs]): the assembly of backends from the file, the table of hosts, what
      the route of a request asks.
    - [Policy] ([src/policy.rs]): versioned snapshots, signatures, and the store with its reloads.
    - [IpText]: the text of addresses ([Display] of [std::net]), the inverse of its parser.
    - [Stage], [Pipeline] and [Mediation] ([src/proxy.rs]): the answers of the proxy and the monad of
      stages; the request filter, which composes the components above over the state requests
      share; what holds of every request that goes on.
    - [Headers] ([src/headers.rs]): the headers removed from and set on answers.
    - [Egress] ([src/proxy.rs]): the way back: choosing and shedding origins, committed exchanges,
      decoration and inspection of answers, body chunks, failures.
    - [Logbook] ([src/proxy.rs]): what is logged of a request.
    - [AdminText] ([src/dashboard_auth.rs], [src/dashboard_oidc.rs]): forms, cookies, bearer tokens and
      settings of the operators' interface.
    - [Oidc] ([src/dashboard_oidc.rs]): sign-in through an identity provider.
    - [Admin] ([src/dashboard_auth.rs]): sessions, pending sign-ins, CSRF, certificates, the API rate.
    - [Dashboard] ([src/dashboard.rs], [src/dashboard_audit.rs]): the handlers and the audit log.
    - [Operators]: who holds a session and who can reload the policy, over the requests of a process.
    - [Cidrs] ([src/cidrs.rs]): the command that updates the lists of trusted edges.
    - [Metrics] ([src/metrics.rs]): counters, rings of recent events, exports.
    - [Otel] ([src/otel.rs]): the export to a collector: address, payloads, the queue and its worker.
    - [Commands] ([src/policy.rs], [src/healthcheck.rs], [src/listen.rs], [src/main.rs]): the commands that
      compile and sign a policy and ask for a reload, the health probe, listener addresses.
    - [Init] ([src/init/mod.rs], [src/init/templates.rs]): the wizard that writes deployment packs.
    - [Boot] ([src/main.rs], [src/tls_fingerprint.rs]): the dispatch on the arguments and the assembly of the server.
    - [Accounts]: what the marks of the stages become in the metrics; no refusal goes unseen.
    ** Correspondence

    A definition that models code is preceded by a comment naming the Rust item.  Functions of
    the code are functions here; methods take the state and return the new one with their
    result.  Rust strings and slices are lists of byte values, machine integers are [Z] with
    their bounds written out, [Result] is [result] with one constructor per error message,
    a panic is [None] (or [Panics]) where it can happen, durations and instants are
    nanoseconds.  Clock readings, I/O outcomes and environment variables are arguments.
    Calls to [metrics] are returned as events.  Logging is left out.

    Code outside the repository is abstract: [DashMap] iteration ([MapOrder]), the default
    hasher ([StrHash]), Unicode case tables ([UnicodeCase]), header maps ([HeaderMap]),
    protobuf descriptors ([Descriptors]), regular expressions and
    compression of response bodies ([DlpEngine]), JSON ([SerdeJson]), SHA-256 ([Sha256]),
    regular expressions of the detectors ([Regexes]), decompression ([Inflate]),
    decimal text of [f32] ([F32Text]),
    the ASN database ([Mmdb]), the hash of header names ([NameHash]),
    cryptography and deserialization of tokens ([JwtCrypto], [JwtText], [JwksText]),
    the answer of the decision service ([AuthzText]),
    YAML and the numbers of JSON ([YamlText], [JsonNumbers]),
    the answer of the rule engine ([EngineText]),
    TOML and PEM files ([TomlText], [PemText]),
    Ed25519 ([PolicyCrypto]),
    the documents of an identity provider ([OidcText]), indented JSON ([PrettyJson]),
    the JSON of a feed ([FeedText]),
    signing ([SignerCrypto]).  Each class has an instance to evaluate
    with, used by the witnesses.

    Shared atomic counters ([Budget], [Connection]) and the session table ([Admin]) are given
    twice: the calls as functions, and the atomic operations as a step relation over all
    interleavings of concurrent requests; the accounting theorems hold in every reachable
    state.  The other shared state is used by one request at a time.

    ** What the theorems show

    - Identity: headers of untrusted peers are ignored, and what a client writes before the
      hops recorded by trusted proxies does not matter ([ClientIp]); the origin sees only the
      proxy's forwarding headers ([Upstream]); PROXY v2 headers round-trip and are read
      without touching what follows ([ProxyProtocol]).
    - Limits: sliding windows are respected in every interval ([RateLimit], [Connection]),
      tables are bounded, counters equal what is held and return to zero ([Budget],
      [Connection], [Spool]).
    - Fail-closed inspection: canonical paths are unique and invariant under encoding
      ([Route]), strict routes refuse every incomplete inspection, combining outcomes never
      hides one ([Inspection]), the matrix blocks exactly on its blocking lines ([Protocol]).
    - Message integrity: at most one framing header passes, chunked decoding is total and
      inverts encoding ([Framing]), gRPC frames and deadlines ([Grpc]), spooled bodies are
      replayed exactly ([Spool]).
    - Responses: card masking terminates and masks only valid cards, and no action but
      redaction changes a body ([Dlp]).
    - GraphQL: every document parses back from its text, the analysis gives the costs of the
      document with fragments expanded, and what is allowed is within the limits
      ([GraphqlParser], [Graphql]).
    - Origins: circuit breakers keep their promise, the pick is the first usable origin of
      the rotation, and the attempts of a request are bounded ([Origin]).
    - Detectors: layers of percent-encoding in paths, queries and headers hide nothing, a request or body passes exactly when no
      signature matches it, and how complete the inspection was is told exactly ([Waf]).
    - Behaviour: bans hold and profiles stay small, with scores in binary32 ([Behavioral]).
    - Abuse: quotas hold in every window, and challenge pages are well formed ([Abuse]).
    - Identity: an accepted token is verified and current, is accepted once, and its bindings
      hold ([Jwt]).
    - Authorization: no guarded route is reached unasked, and answers are read whole ([Authz]).
    - OpenAPI: bodies of closed object schemas hold declared members only, the operation is the most literal one, and what
      passes carries what the operation asks ([Schema], [OpenApi]).
    - The second layer refuses exactly when the engine does, or cannot answer where inspection must be
      complete, and its settings stay in range ([WafEngine]).
    - Configuration: what loads is well formed, and every host reaches its own site ([Config]).
    - Policies: a failed reload changes nothing, and what is in force was verified ([Policy]).
    - The whole filter: what goes on passed every stage, with the bytes that are sent where the stage reads the body, who is not
      identified is not counted, and what a request held is given back ([Mediation]).
    - Answers: under the blocking action nothing sensitive or uninspected of a kind that can be inspected
      leaves, in one piece or in chunks, and the log says what happened ([Egress], [Logbook]).
    - Operators, over requests taken one after another: every session traces back to a credential, the reloads
      among them were asked for by the holder of a session or of the token, a sign-in is used once and is bound to
      the identity token it asked for ([Oidc], [Operators]).  Concurrent requests test the capacity of the session
      table before they insert: the section [TableStep] of [Admin] bounds what the table can then hold.
    - Trusted edges: an update that lacks a list or the consent leaves the disk as it was; what it writes otherwise
      are whole files, the lists that were fetched and the environment with what the operator added ([Cidrs]).
    - What operators see: the recent events are exact, site by site ([Metrics]).
    - Telemetry: no span is lost uncounted, posted twice or out of order, and the worker empties its queue
      whatever the collector answers ([Otel]).
    - Commands: a policy that was compiled and signed loads under the other half of its key, and a reload
      reaches the process that wrote the pid file ([Commands]).
    - The wizard overwrites nothing, and its pack boots the proxy that was asked for ([Init]).
    - A server that started: its entrances are guarded as configured, and where others can reach the operators'
      interface nobody is anonymous ([Boot]).
    - Every request that the filter answers itself leaves an event operators see ([Accounts]).
    Theorems that show a flaw of the code have [spoof] or [panics] in their name.

    ** Fuel

    Recursion follows the data where the code does.  Loops that advance by a computed amount
    take fuel equal to the length of their input plus one, and are proved never to exhaust it
    ([decode_chunked_correct], [iter_frames_spec], the replay loop in [spool_roundtrip]).  The
    white space and number printing helpers use the length of the string and the binary
    logarithm of the number.

    ** Not modelled

    Pingora, the threads that wait for signals and probe origins, the branches for Windows, the texts of the
    templates of the wizard, tests and their helpers, and the web console are not modelled. *)

From Stdlib Require Import Ascii String ZArith Lia.
From stdpp Require Export strings gmap sorting.
From stdpp Require Export prelude.

#[export] Set Default Goal Selector "!".
#[export] Set Warnings "-clear-no-such-hyp,-register-all".

Open Scope string_scope.
Open Scope list_scope.
Open Scope Z_scope.

(** ** Bytes and strings

    A Rust [&str] or [&[u8]] is its sequence of bytes; a byte is an integer in
    [0, 255].  A literal of the source is written as a Rocq string and read as its
    UTF-8 bytes by the coercion [lit]. *)

Abbreviation bytes := (list Z) (only parsing).

Definition lit (s : string) : bytes :=
  map (fun a => Z.of_N (N_of_ascii a)) (list_ascii_of_string s).
Coercion lit : string >-> list.

Definition bytes_eqb (a b : bytes) : bool := bool_decide (a = b).
Infix "=s" := bytes_eqb (at level 35, no associativity).

(** Membership of a byte string in a list of literals: the [matches!] and
    [match s { "a" | "b" => .. }] forms. *)
Definition one_of (s : bytes) (l : list string) : bool :=
  existsb (fun x : string => s =s x) l.

Definition is_empty {A} (l : list A) : bool :=
  match l with [] => true | _ => false end.

(** Length of a slice, as the [usize] it is in Rust. *)
Definition len {A} (l : list A) : Z := Z.of_nat (length l).

(** *** ASCII classes (the [u8::is_ascii_*] and [to_ascii_*] methods) *)

Definition in_range (lo hi b : Z) : bool := (lo <=? b) && (b <=? hi).
Definition is_ascii_digit (b : Z) : bool := in_range 48 57 b.
Definition is_ascii_uppercase (b : Z) : bool := in_range 65 90 b.
Definition is_ascii_lowercase (b : Z) : bool := in_range 97 122 b.
Definition is_ascii_alphabetic (b : Z) : bool :=
  is_ascii_uppercase b || is_ascii_lowercase b.
Definition is_ascii_alphanumeric (b : Z) : bool :=
  is_ascii_alphabetic b || is_ascii_digit b.
Definition is_ascii_hexdigit (b : Z) : bool :=
  is_ascii_digit b || in_range 65 70 b || in_range 97 102 b.
Definition is_ascii (b : Z) : bool := in_range 0 127 b.

Definition ascii_lower (b : Z) : Z := if is_ascii_uppercase b then b + 32 else b.
Definition ascii_upper (b : Z) : Z := if is_ascii_lowercase b then b - 32 else b.
Definition to_ascii_lowercase (s : bytes) : bytes := map ascii_lower s.
Definition to_ascii_uppercase (s : bytes) : bytes := map ascii_upper s.
Definition eq_ignore_ascii_case (a b : bytes) : bool :=
  to_ascii_lowercase a =s to_ascii_lowercase b.

(** *** UTF-8

    [std::str::from_utf8(s).is_ok()]: the well-formed sequences of the Unicode standard. *)

Definition is_cont (b : Z) : bool := in_range 128 191 b.

Fixpoint is_utf8 (s : bytes) : bool :=
  match s with
  | [] => true
  | a :: r =>
      if in_range 0 127 a then is_utf8 r
      else match r with
      | [] => false
      | b :: r =>
          if in_range 194 223 a then is_cont b && is_utf8 r
          else match r with
          | [] => false
          | c :: r =>
              if in_range 224 239 a then
                (if a =? 224 then in_range 160 191 b
                 else if a =? 237 then in_range 128 159 b else is_cont b)
                && is_cont c && is_utf8 r
              else match r with
              | [] => false
              | d :: r =>
                  in_range 240 244 a
                  && (if a =? 240 then in_range 144 191 b
                      else if a =? 244 then in_range 128 143 b else is_cont b)
                  && is_cont c && is_cont d && is_utf8 r
              end
          end
      end
  end.

(** *** White space and [trim]

    [str::trim] removes the characters of the Unicode property [White_Space]; they
    are recognised here on their UTF-8 encodings, from the front ([ws_head]) and,
    on the reversed bytes, from the back ([ws_tail]). *)

Definition ws1 (c : Z) : bool := in_range 9 13 c || (c =? 32).
Definition ws2 (c d : Z) : bool := (c =? 194) && ((d =? 133) || (d =? 160)).
Definition ws3 (c d e : Z) : bool :=
  ((c =? 225) && (d =? 154) && (e =? 128))
  || ((c =? 226) && (d =? 128)
      && (in_range 128 138 e || (e =? 168) || (e =? 169) || (e =? 175)))
  || ((c =? 226) && (d =? 129) && (e =? 159))
  || ((c =? 227) && (d =? 128) && (e =? 128)).

Definition ws_head (s : bytes) : option bytes :=
  match s with
  | c :: r =>
      if ws1 c then Some r else
      match r with
      | d :: r' =>
          if ws2 c d then Some r' else
          match r' with
          | e :: r'' => if ws3 c d e then Some r'' else None
          | [] => None
          end
      | [] => None
      end
  | [] => None
  end.

Definition ws_tail (s : bytes) : option bytes :=
  match s with
  | e :: r =>
      if ws1 e then Some r else
      match r with
      | d :: r' =>
          if ws2 d e then Some r' else
          match r' with
          | c :: r'' => if ws3 c d e then Some r'' else None
          | [] => None
          end
      | [] => None
      end
  | [] => None
  end.

Fixpoint strip_while (step : bytes -> option bytes) (fuel : nat) (s : bytes) : bytes :=
  match fuel with
  | O => s
  | S n => match step s with Some r => strip_while step n r | None => s end
  end.

Definition trim_start (s : bytes) : bytes := strip_while ws_head (length s) s.
Definition trim_end (s : bytes) : bytes :=
  rev (strip_while ws_tail (length s) (rev s)).
Definition trim (s : bytes) : bytes := trim_end (trim_start s).

(** [s.split_whitespace()] *)
Fixpoint split_ws_loop (fuel : nat) (word : bytes) (s : bytes) : list bytes :=
  let flush l := if is_empty word then l else word :: l in
  match fuel with
  | O => flush []
  | S fuel =>
      match s with
      | [] => flush []
      | c :: r =>
          match ws_head s with
          | Some rest => flush (split_ws_loop fuel [] rest)
          | None => split_ws_loop fuel (word ++ [c]) r
          end
      end
  end.
Definition split_whitespace (s : bytes) : list bytes := split_ws_loop (S (length s)) [] s.

(** *** Searching and splitting *)

Fixpoint strip_prefix (p s : bytes) : option bytes :=
  match p, s with
  | [], _ => Some s
  | a :: p', b :: s' => if a =? b then strip_prefix p' s' else None
  | _ :: _, [] => None
  end.

Definition starts_with (s p : bytes) : bool := bool_decide (is_Some (strip_prefix p s)).
Definition strip_suffix (p s : bytes) : option bytes :=
  match strip_prefix (rev p) (rev s) with Some r => Some (rev r) | None => None end.
Definition ends_with (s p : bytes) : bool := bool_decide (is_Some (strip_suffix p s)).

Fixpoint contains (s p : bytes) : bool :=
  starts_with s p || match s with [] => false | _ :: s' => contains s' p end.

(** [s.split(c)]: always at least one piece. *)
Fixpoint split_on (c : Z) (s : bytes) : list bytes :=
  match s with
  | [] => [[]]
  | x :: r =>
      if x =? c then [] :: split_on c r
      else match split_on c r with
           | p :: ps => (x :: p) :: ps
           | [] => [[x]]
           end
  end.

(** [s.split(c).next().unwrap_or(s)] *)
Definition before (c : Z) (s : bytes) : bytes :=
  match split_on c s with p :: _ => p | [] => s end.

Fixpoint split_once (c : Z) (s : bytes) : option (bytes * bytes) :=
  match s with
  | [] => None
  | x :: r =>
      if x =? c then Some ([], r)
      else match split_once c r with
           | Some (a, b) => Some (x :: a, b)
           | None => None
           end
  end.

(** [s.split(sep)] for a non-empty string [sep]; the fuel bounds the number of pieces. *)
Fixpoint split_str_loop (fuel : nat) (sep piece s : bytes) : list bytes :=
  match fuel with
  | O => [piece]
  | S fuel =>
      match strip_prefix sep s, s with
      | Some rest, _ => piece :: split_str_loop fuel sep [] rest
      | None, c :: r => split_str_loop fuel sep (piece ++ [c]) r
      | None, [] => [piece]
      end
  end.
Definition split_str (sep s : bytes) : list bytes := split_str_loop (S (length s)) sep [] s.

Definition rsplit_once (c : Z) (s : bytes) : option (bytes * bytes) :=
  match split_once c (rev s) with
  | Some (a, b) => Some (rev b, rev a)
  | None => None
  end.

(** The longest prefix of bytes of a class, and the rest: the loops that advance an index
    while the byte there is in the class. *)
Fixpoint span (f : Z -> bool) (s : bytes) : bytes * bytes :=
  match s with
  | b :: r => if f b then let '(p, rest) := span f r in (b :: p, rest) else ([], s)
  | [] => ([], [])
  end.

Fixpoint trim_start_matches (c : Z) (s : bytes) : bytes :=
  match s with
  | x :: r => if x =? c then trim_start_matches c r else s
  | [] => []
  end.

(** [v.join(sep)] *)
Fixpoint join (sep : bytes) (l : list bytes) : bytes :=
  match l with
  | [] => []
  | [x] => x
  | x :: r => x ++ sep ++ join sep r
  end.

(** ** Machine integers

    Fixed-width values are integers with their bounds; [usize] is 64 bits wide. *)

Definition u8_max : Z := 2 ^ 8 - 1.
Definition u16_max : Z := 2 ^ 16 - 1.
Definition u32_max : Z := 2 ^ 32 - 1.
Definition u64_max : Z := 2 ^ 64 - 1.
Definition usize_max : Z := u64_max.
Definition i64_min : Z := - 2 ^ 63.
Definition i64_max : Z := 2 ^ 63 - 1.

Definition saturating_add (max a b : Z) : Z := Z.min max (a + b).
Definition saturating_mul (max a b : Z) : Z := Z.min max (a * b).
Definition saturating_sub (a b : Z) : Z := Z.max 0 (a - b).
Definition checked_add (max a b : Z) : option Z :=
  if a + b <=? max then Some (a + b) else None.
Definition checked_mul (max a b : Z) : option Z :=
  if a * b <=? max then Some (a * b) else None.

(** [AtomicUsize::fetch_sub], and unchecked subtraction in a release build. *)
Definition wrapping_sub (a b : Z) : Z := (a - b) mod 2 ^ 64.

(** [str::parse::<uN>()]: an optional [+], then at least one ASCII digit, in range. *)
Fixpoint digits_value (acc : Z) (s : bytes) : option Z :=
  match s with
  | [] => Some acc
  | d :: r => if is_ascii_digit d then digits_value (10 * acc + (d - 48)) r else None
  end.

Definition parse_digits (max : Z) (s : bytes) : option Z :=
  match s with
  | [] => None
  | _ => match digits_value 0 s with
         | Some v => if v <=? max then Some v else None
         | None => None
         end
  end.

Definition parse_uint (max : Z) (s : bytes) : option Z :=
  match s with
  | 43 :: r => parse_digits max r
  | _ => parse_digits max s
  end.

(** [str::parse::<i64>()] *)
Definition parse_i64 (s : bytes) : option Z :=
  match s with
  | 45 :: r => match parse_digits (- i64_min) r with Some v => Some (- v) | None => None end
  | _ => parse_uint i64_max s
  end.

(** Decimal printing of a non-negative integer ([to_string], [format!("{n}")]). *)
Fixpoint dec_fuel (fuel : nat) (n : Z) (acc : bytes) : bytes :=
  match fuel with
  | O => acc
  | S k => let acc' := (48 + n mod 10) :: acc in
           if n <? 10 then acc' else dec_fuel k (n / 10) acc'
  end.
Definition show_dec (n : Z) : bytes := dec_fuel (S (Z.to_nat (Z.log2 n))) n [].

(** Big-endian value and octets of an address ([Ipv4Addr::new], [Ipv6Addr::from],
    [octets]). *)
Definition be_value (l : bytes) : Z := fold_left (fun acc b => acc * 256 + b) l 0.
Fixpoint be_octets (n : nat) (v : Z) : bytes :=
  match n with O => [] | S k => be_octets k (v / 256) ++ [v mod 256] end.
Definition is_byte (b : Z) : Prop := 0 <= b < 256.

(** ** Results *)

Inductive result (E A : Type) : Type :=
| Ok (a : A)
| Err (e : E).
Arguments Ok {E A} a.
Arguments Err {E A} e.

#[export] Instance result_ret E : MRet (result E) := fun A a => Ok a.
#[export] Instance result_bind E : MBind (result E) :=
  fun A B f m => match m with Ok a => f a | Err e => Err e end.
#[export] Instance result_fmap E : FMap (result E) :=
  fun A B f m => match m with Ok a => Ok (f a) | Err e => Err e end.

Definition ok_or {E A} (e : E) (o : option A) : result E A :=
  match o with Some a => Ok a | None => Err e end.
Definition map_err {E F A} (f : E -> F) (m : result E A) : result F A :=
  match m with Ok a => Ok a | Err e => Err (f e) end.
Definition is_ok {E A} (m : result E A) : bool :=
  match m with Ok _ => true | Err _ => false end.

(** [iter.map(f).collect::<Result<Vec<_>, _>>()] *)
Fixpoint collect {E A B} (f : A -> result E B) (l : list A) : result E (list B) :=
  match l with
  | [] => Ok []
  | x :: r => y ← f x; ys ← collect f r; Ok (y :: ys)
  end.

(** ** Recursion with fuel

    What a function that recurses on fuel gives: a value, an error of the code, or nothing
    because the fuel ran out.  [wp m Q]: the fuel did not run out, and a value satisfies [Q];
    [post m Q]: a value, if any, satisfies [Q]. *)

Inductive fueled (E A : Type) : Type :=
| Done (a : A)
| Failed (e : E)
| NoFuel.
Arguments Done {E A} a.
Arguments Failed {E A} e.
Arguments NoFuel {E A}.

#[export] Instance fueled_bind E : MBind (fueled E) :=
  fun A B f m => match m with Done a => f a | Failed e => Failed e | NoFuel => NoFuel end.

Definition wp {E A} (m : fueled E A) (Q : A -> Prop) : Prop :=
  match m with Done a => Q a | Failed _ => True | NoFuel => False end.
Definition post {E A} (m : fueled E A) (Q : A -> Prop) : Prop := forall a, m = Done a -> Q a.

Lemma wp_bind {E A B} (m : fueled E A) (f : A -> fueled E B) (Q : B -> Prop) :
  wp m (fun a => wp (f a) Q) -> wp (m ≫= f) Q.
Proof. by destruct m. Qed.

Lemma wp_mono {E A} (m : fueled E A) (Q R : A -> Prop) : wp m Q -> (forall a, Q a -> R a) -> wp m R.
Proof. destruct m; simpl; auto. Qed.

Lemma post_bind {E A B} (m : fueled E A) (f : A -> fueled E B) Q : (forall a, post (f a) Q) -> post (m ≫= f) Q.
Proof. intros H b. destruct m; [apply H|done..]. Qed.

Lemma post_bind_with {E A B} (m : fueled E A) (f : A -> fueled E B) (P : A -> Prop) Q :
  post m P -> (forall a, P a -> post (f a) Q) -> post (m ≫= f) Q.
Proof. intros Hm H b. destruct m; [apply H; by apply Hm|done..]. Qed.

(** One call under [wp], by the lemma on the function called. *)
Ltac wp_step L := apply wp_bind; eapply wp_mono; [apply L|cbv beta].

(** ** Time

    An [Instant] is a reading of the monotonic clock in nanoseconds; a [Duration] is
    a number of nanoseconds.  [duration_since] saturates at zero. *)

Abbreviation Instant := Z (only parsing).
Abbreviation Duration := Z (only parsing).
Definition from_secs (n : Z) : Duration := n * 1000000000.
Definition from_millis (n : Z) : Duration := n * 1000000.
Definition duration_since (now t : Instant) : Duration := Z.max 0 (now - t).

(** ** The process environment

    [std::env::var(name).ok()] is a function of the name.  [env_positive] is the idiom
    [.and_then(|v| v.parse().ok()).filter(|v| *v > 0).unwrap_or(default)]. *)

Definition Env : Type := string -> option bytes.

Definition filter_positive (o : option Z) : option Z :=
  match o with Some v => if 0 <? v then Some v else None | None => None end.

Definition env_positive (env : Env) (name : string) (max dflt : Z) : Z :=
  default dflt (filter_positive (env name ≫= parse_uint max)).

(** ** Sums over finite maps *)

Definition map_sum {K V} `{Countable K} (f : V -> Z) (m : gmap K V) : Z :=
  map_fold (fun _ v acc => f v + acc) 0 m.

(** ** Shared lemmas and automation *)

Create HintDb ferroada.

(** Boolean guards of the source as propositions. *)
Ltac bool_to_prop :=
  repeat match goal with
  | H : bool_decide _ = true |- _ => apply bool_decide_eq_true in H
  | H : bool_decide _ = false |- _ => apply bool_decide_eq_false in H
  | H : (_ && _) = true |- _ => apply andb_true_iff in H as [? ?]
  | H : (_ || _) = false |- _ => apply orb_false_iff in H as [? ?]
  | H : negb _ = true |- _ => apply negb_true_iff in H
  | H : negb _ = false |- _ => apply negb_false_iff in H
  | H : (_ <=? _) = true |- _ => apply Z.leb_le in H
  | H : (_ <=? _) = false |- _ => apply Z.leb_gt in H
  | H : (_ <? _) = true |- _ => apply Z.ltb_lt in H
  | H : (_ <? _) = false |- _ => apply Z.ltb_ge in H
  | H : (_ =? _) = true |- _ => apply Z.eqb_eq in H
  | H : (_ =? _) = false |- _ => apply Z.eqb_neq in H
  end.

(** A decidable closed goal, by evaluating its decision procedure. *)
Ltac decide_now := refine (bool_decide_eq_true_1 _ _); vm_compute; reflexivity.

Lemma bytes_eqb_eq (a b : bytes) : a =s b = true <-> a = b.
Proof. unfold bytes_eqb. apply bool_decide_eq_true. Qed.
Lemma bytes_eqb_refl (a : bytes) : a =s a = true.
Proof. by apply bytes_eqb_eq. Qed.

Lemma len_nonneg {A} (l : list A) : 0 <= len l.
Proof. unfold len. lia. Qed.
Lemma len_app {A} (l k : list A) : len (l ++ k) = len l + len k.
Proof. unfold len. rewrite length_app. lia. Qed.
Lemma len_cons {A} (x : A) (l : list A) : len (x :: l) = 1 + len l.
Proof. unfold len. simpl. lia. Qed.
Lemma len_nil {A} : len (@nil A) = 0.
Proof. done. Qed.

Lemma is_empty_true {A} (l : list A) : is_empty l = true <-> l = [].
Proof. by destruct l. Qed.
Lemma is_empty_false {A} (l : list A) : is_empty l = false <-> l <> [].
Proof. by destruct l. Qed.

(** *** Splitting *)

Lemma split_on_not_nil c s : split_on c s <> [].
Proof. destruct s as [|x s]; simpl; [done|]. case_match; [done|]. by case_match. Qed.

Lemma split_on_app c a b : split_on c (a ++ c :: b) = split_on c a ++ split_on c b.
Proof.
  induction a as [|x a IH]; simpl; [by rewrite Z.eqb_refl|].
  rewrite IH. destruct (x =? c); [done|].
  destruct (split_on c a) eqn:E; [by apply split_on_not_nil in E|done].
Qed.

Lemma split_on_none c s : c ∉ s -> split_on c s = [s].
Proof.
  induction s as [|x s IH]; intros Hc; simpl; [done|].
  apply not_elem_of_cons in Hc as [Hx Hc].
  rewrite (proj2 (Z.eqb_neq x c)) by done. by rewrite IH.
Qed.

(** Joining the pieces with the separator gives the string back. *)
Lemma join_split_on c s : join [c] (split_on c s) = s.
Proof.
  induction s as [|x s IH]; simpl; [done|].
  destruct (split_on c s) as [|p ps] eqn:E; [by apply split_on_not_nil in E|].
  destruct (Z.eqb_spec x c) as [->|Hne].
  - cbn [join app] in *. by rewrite IH.
  - cbn [join app] in *. destruct ps; simpl in *; by rewrite IH.
Qed.

(** Joining pieces that do not have the separator and splitting gives them back. *)
Lemma split_on_join c l : l <> [] -> Forall (fun x => c ∉ x) l -> split_on c (join [c] l) = l.
Proof.
  induction l as [|x l IH]; [done|]. intros _ Hl. apply Forall_cons in Hl as [Hx Hl]. destruct l as [|y l]; [by apply split_on_none|].
  change (join [c] (x :: y :: l)) with (x ++ c :: join [c] (y :: l)). rewrite split_on_app, split_on_none, IH by done. done.
Qed.

Lemma split_on_no_sep c s p : p ∈ split_on c s -> c ∉ p.
Proof.
  revert p. induction s as [|x s IH]; simpl; intros p.
  - intros ->%list_elem_of_singleton. apply not_elem_of_nil.
  - destruct (Z.eqb_spec x c) as [->|Hne].
    + intros [->|?]%elem_of_cons; [apply not_elem_of_nil|auto].
    + destruct (split_on c s) as [|q qs] eqn:E; [by apply split_on_not_nil in E|].
      intros [->|Hp]%elem_of_cons.
      * apply not_elem_of_cons. split; [done|]. apply IH. by left.
      * apply IH. by right.
Qed.

(** *** [span] *)

(** No byte of the class at the front. *)
Definition stops (f : Z -> bool) (s : bytes) : Prop :=
  match s with [] => True | b :: _ => f b = false end.

Lemma span_app f p rest : forallb f p = true -> stops f rest -> span f (p ++ rest) = (p, rest).
Proof.
  induction p as [|b p IH]; cbn [app span forallb].
  - intros _. destruct rest as [|b rest]; [done|]. intros Hb. cbn [span]. by rewrite Hb.
  - intros [-> Hp]%andb_true_iff Hr. by rewrite IH.
Qed.

Lemma span_spec f s p rest : span f s = (p, rest) ->
  s = p ++ rest /\ forallb f p = true /\ stops f rest.
Proof.
  revert p rest. induction s as [|b s IH]; intros p rest; cbn [span]; [by intros [= <- <-]|].
  destruct (f b) eqn:Eb; [|by intros [= <- <-]].
  destruct (span f s) as [p' rest']. intros [= <- <-]. destruct (IH _ _ eq_refl) as (-> & ? & ?).
  cbn [forallb]. by rewrite Eb.
Qed.

Lemma span_shrinks f s : (length (span f s).2 <= length s)%nat.
Proof.
  destruct (span f s) as [p rest] eqn:E. apply span_spec in E as (-> & _). rewrite length_app. simpl. lia.
Qed.

Lemma split_once_spec c s a b : split_once c s = Some (a, b) <-> s = a ++ c :: b /\ c ∉ a.
Proof.
  revert a b. induction s as [|x s IH]; intros a b; simpl.
  - split; [done|]. by intros [? _]; destruct a.
  - destruct (Z.eqb_spec x c) as [->|Hne].
    + split; [intros [= <- <-]; split; [done|apply not_elem_of_nil]|].
      intros [Heq Ha]. destruct a as [|y a]; simplify_eq/=; [done|].
      by apply not_elem_of_cons in Ha as [? _].
    + destruct (split_once c s) as [[a' b']|].
      * destruct (proj1 (IH a' b') eq_refl) as [-> Ha']. split.
        -- intros [= <- <-]. split; [done|]. by apply not_elem_of_cons.
        -- intros [Heq Ha]. destruct a as [|y a]; injection Heq as ? Heq; [done|].
           apply not_elem_of_cons in Ha as [_ Ha].
           injection (proj2 (IH a b) (conj Heq Ha)) as -> ->. by subst.
      * split; [done|]. intros [Heq Ha]. destruct a as [|y a]; injection Heq as ? Heq; [done|].
        apply not_elem_of_cons in Ha as [_ Ha].
        by pose proof (proj2 (IH a b) (conj Heq Ha)).
Qed.

Lemma elem_of_rev {A} (x : A) l : x ∈ rev l <-> x ∈ l.
Proof. by rewrite !list_elem_of_In, <- in_rev. Qed.

Lemma split_once_none c s : split_once c s = None <-> c ∉ s.
Proof.
  destruct (split_once c s) as [[a b]|] eqn:E.
  - apply split_once_spec in E as [-> _]. split; [done|]. intros []. apply elem_of_app. right. left.
  - split; [intros _|done]. induction s as [|x s IH]; [apply not_elem_of_nil|]. simpl in E.
    destruct (Z.eqb_spec x c); [done|]. destruct (split_once c s) as [[]|]; [done|].
    apply not_elem_of_cons. split; [done|by apply IH].
Qed.

Lemma rsplit_once_spec c s a b : rsplit_once c s = Some (a, b) <-> s = a ++ c :: b /\ c ∉ b.
Proof.
  unfold rsplit_once. destruct (split_once c (rev s)) as [[x y]|] eqn:E.
  - apply split_once_spec in E as [Hs Hx]. apply (f_equal (@rev Z)) in Hs.
    rewrite rev_involutive, rev_app_distr in Hs. simpl in Hs. rewrite <- app_assoc in Hs.
    simpl in Hs. subst s. split.
    + intros [= <- <-]. split; [done|]. by rewrite elem_of_rev in *.
    + intros [Heq Hb]. apply (f_equal (@rev Z)) in Heq.
      rewrite !rev_app_distr in Heq. simpl in Heq. rewrite !rev_involutive, <- !app_assoc in Heq.
      simpl in Heq.
      assert (H1 : split_once c (x ++ c :: y) = Some (x, y)) by by apply split_once_spec.
      rewrite Heq in H1.
      assert (H2 : split_once c (rev b ++ c :: rev a) = Some (rev b, rev a)).
      { apply split_once_spec. split; [done|]. by rewrite elem_of_rev. }
      rewrite H2 in H1. injection H1 as <- <-. by rewrite !rev_involutive.
  - split; [done|]. intros [-> Hb]. exfalso.
    assert (H2 : split_once c (rev (a ++ c :: b)) = Some (rev b, rev a)); [|congruence].
    apply split_once_spec. rewrite rev_app_distr. simpl. rewrite <- app_assoc. split; [done|].
    by rewrite elem_of_rev in *.
Qed.

Lemma rsplit_once_none c s : c ∉ s -> rsplit_once c s = None.
Proof.
  destruct (rsplit_once c s) as [[a b]|] eqn:E; [|done].
  apply rsplit_once_spec in E as [-> _]. intros []. apply elem_of_app. right. left.
Qed.

Lemma strip_prefix_spec p s r : strip_prefix p s = Some r <-> s = p ++ r.
Proof.
  revert s. induction p as [|a p IH]; intros [|b s]; simpl; try (split; congruence).
  destruct (Z.eqb_spec a b) as [->|Hne]; [|split; congruence].
  rewrite IH. split; congruence.
Qed.

Lemma starts_with_spec s p : starts_with s p = true <-> exists r, s = p ++ r.
Proof.
  unfold starts_with. rewrite bool_decide_eq_true. unfold is_Some.
  by setoid_rewrite strip_prefix_spec.
Qed.

Lemma strip_suffix_spec p s r : strip_suffix p s = Some r <-> s = r ++ p.
Proof.
  unfold strip_suffix. destruct (strip_prefix (rev p) (rev s)) as [q|] eqn:E.
  - apply strip_prefix_spec in E. apply (f_equal (@rev Z)) in E.
    rewrite rev_involutive, rev_app_distr, rev_involutive in E. subst s. split.
    + by intros [= <-].
    + by intros ->%app_inv_tail.
  - split; [done|]. intros ->.
    assert (strip_prefix (rev p) (rev (r ++ p)) = Some (rev r)) by
      (apply strip_prefix_spec; apply rev_app_distr). congruence.
Qed.

Lemma ends_with_spec s p : ends_with s p = true <-> exists r, s = r ++ p.
Proof.
  unfold ends_with. rewrite bool_decide_eq_true. unfold is_Some.
  by setoid_rewrite strip_suffix_spec.
Qed.

Lemma contains_spec s p : contains s p = true <-> exists a b, s = a ++ p ++ b.
Proof.
  induction s as [|x s IH]; cbn [contains]; rewrite orb_true_iff, starts_with_spec.
  - split; [intros [[r Hr]|?]; [by exists [], r|done]|].
    intros (a & b & H). destruct a; [left; by exists b|done].
  - rewrite IH. split.
    + intros [[r Hr]|(a & b & ->)]; [by exists [], r|by exists (x :: a), b].
    + intros ([|y a] & b & H); [left; by exists b|].
      right. exists a, b. simpl in H. congruence.
Qed.

(** *** Results *)

Lemma bind_ok {E A B} (m : result E A) (f : A -> result E B) b : m ≫= f = Ok b <-> exists a, m = Ok a /\ f a = Ok b.
Proof.
  destruct m as [a|e]; cbn [mbind result_bind]; split; [eauto | by intros (? & [= <-] & ?) | done | by intros (? & ? & _)].
Qed.

Lemma collect_ok {E A B} (f : A -> result E B) l ys :
  collect f l = Ok ys <-> Forall2 (fun x y => f x = Ok y) l ys.
Proof.
  revert ys. induction l as [|x l IH]; intros ys; simpl.
  - split; [intros [= <-]; constructor|intros H; by inversion H].
  - destruct (f x) as [y|e] eqn:Ef; simpl.
    + destruct (collect f l) as [ys'|e] eqn:Ec; simpl.
      * split; [intros [= <-]; constructor; [done|by apply IH]|].
        intros H. inversion H as [|? y' ? ys'' H1 H2]; subst.
        apply IH in H2. congruence.
      * split; [done|]. intros H. inversion H as [|? y' ? ys'' H1 H2]; subst.
        apply IH in H2. congruence.
    + split; [done|]. intros H. inversion H; congruence.
Qed.

(** *** Numbers in text *)

Lemma digits_value_mono s : forall acc v, 0 <= acc -> digits_value acc s = Some v -> acc <= v.
Proof.
  induction s as [|d s IH]; intros acc v Ha; simpl; [intros [= <-]; lia|].
  unfold is_ascii_digit, in_range. destruct ((48 <=? d) && (d <=? 57)) eqn:E; [|done].
  bool_to_prop. intros ?%IH; lia.
Qed.

Lemma parse_digits_range max s v : parse_digits max s = Some v -> 0 <= v <= max.
Proof.
  unfold parse_digits. destruct s as [|d s]; [done|].
  destruct (digits_value 0 (d :: s)) as [w|] eqn:E; [|done].
  apply digits_value_mono in E; [|lia].
  destruct (w <=? max) eqn:El; [|done]. intros [= <-]. bool_to_prop. lia.
Qed.

Lemma parse_uint_range max s v : parse_uint max s = Some v -> 0 <= v <= max.
Proof. unfold parse_uint. repeat case_match; apply parse_digits_range. Qed.

Lemma parse_uint_nonneg max s v : parse_uint max s = Some v -> 0 <= v.
Proof. intros ?%parse_uint_range. lia. Qed.

Lemma env_positive_range env name max dflt : 0 < dflt <= max ->
  0 < env_positive env name max dflt <= max.
Proof.
  intros Hd. unfold env_positive. destruct (env name) as [v|]; simpl; [|done].
  destruct (parse_uint max v) as [n|] eqn:E; simpl; [|done].
  apply parse_uint_range in E. destruct (Z.ltb_spec 0 n); simpl; lia.
Qed.

Lemma before_split_once c s :
  before c s = match split_once c s with Some (a, _) => a | None => s end.
Proof.
  unfold before. induction s as [|x s IH]; simpl; [done|].
  destruct (x =? c); [done|].
  destruct (split_on c s) as [|p ps] eqn:E; [by apply split_on_not_nil in E|].
  destruct (split_once c s) as [[a b]|]; by rewrite IH.
Qed.

(** *** Lists *)

Lemma filter_sublist_impl {A} (P Q : A -> Prop) `{forall x, Decision (P x)}
    `{forall x, Decision (Q x)} (l : list A) :
  (forall x, x ∈ l -> P x -> Q x) -> base.filter P l `sublist_of` base.filter Q l.
Proof.
  induction l as [|x l IH]; intros HPQ; [done|]. rewrite !filter_cons.
  assert (base.filter P l `sublist_of` base.filter Q l).
  { apply IH. intros y Hy. apply HPQ. by right. }
  destruct (decide (P x)), (decide (Q x)); [by constructor| |by constructor|done].
  exfalso. eauto using list_elem_of_here.
Qed.

Lemma sublist_len {A} (l k : list A) : l `sublist_of` k -> len l <= len k.
Proof. intros ?%sublist_length. unfold len. lia. Qed.

(** *** Big-endian integers *)

Lemma be_octets_length n v : length (be_octets n v) = n.
Proof. revert v. induction n; intros v; simpl; [done|]. rewrite length_app, IHn. simpl. lia. Qed.

Lemma be_value_snoc l b : be_value (l ++ [b]) = be_value l * 256 + b.
Proof. unfold be_value. by rewrite fold_left_app. Qed.

Lemma be_value_octets n v : 0 <= v < 2 ^ (8 * Z.of_nat n) -> be_value (be_octets n v) = v.
Proof.
  revert v. induction n as [|n IH]; intros v Hv; cbn [be_octets].
  - simpl in *. unfold be_value. simpl. lia.
  - rewrite be_value_snoc, IH; [rewrite Z.mul_comm; symmetry; apply Z.div_mod; lia|].
    replace (8 * Z.of_nat (S n)) with (8 * Z.of_nat n + 8) in Hv by lia.
    rewrite Z.pow_add_r in Hv by lia. change (2 ^ 8) with 256 in Hv.
    split; [apply Z.div_pos; lia|]. apply Z.div_lt_upper_bound; lia.
Qed.

Lemma be_octets_value l : Forall is_byte l -> be_octets (length l) (be_value l) = l.
Proof.
  induction l as [|b l IH] using rev_ind; [done|]. intros [Hl Hb]%Forall_app.
  apply Forall_cons in Hb as [Hb _]. unfold is_byte in Hb.
  rewrite length_app, Nat.add_1_r, be_value_snoc. cbn [be_octets].
  rewrite Z.div_add_l, Z.div_small, Z.add_0_r, IH by (done || lia).
  rewrite Z.add_comm, Z.mod_add, Z.mod_small by lia. done.
Qed.

Lemma be_value_range l : Forall is_byte l -> 0 <= be_value l < 2 ^ (8 * len l).
Proof.
  induction l as [|b l IH] using rev_ind; [done|]. intros [Hl Hb]%Forall_app.
  apply Forall_cons in Hb as [Hb _]. unfold is_byte in Hb. specialize (IH Hl).
  rewrite be_value_snoc, len_app. change (len [b]) with 1.
  replace (8 * (len l + 1)) with (8 * len l + 8) by lia. pose proof (len_nonneg l).
  rewrite Z.pow_add_r by lia. change (2 ^ 8) with 256. lia.
Qed.

(** *** Decimal text *)

Lemma dec_fuel_value fuel : forall n acc, 0 <= n -> n < 2 ^ Z.of_nat fuel ->
  digits_value 0 (dec_fuel fuel n acc) = digits_value n acc.
Proof.
  induction fuel as [|fuel IH]; intros n acc Hn Hf.
  - simpl in *. by replace n with 0 by lia.
  - cbn [dec_fuel].
    assert (Hd : is_ascii_digit (48 + n mod 10) = true).
    { pose proof (Z.mod_pos_bound n 10 ltac:(lia)). unfold is_ascii_digit, in_range.
      by rewrite (proj2 (Z.leb_le _ _)), (proj2 (Z.leb_le _ _)) by lia. }
    destruct (Z.ltb_spec n 10).
    + cbn [digits_value]. rewrite Hd. f_equal. rewrite Z.mod_small by lia. lia.
    + rewrite IH.
      * cbn [digits_value]. rewrite Hd. f_equal. pose proof (Z.div_mod n 10 ltac:(lia)). lia.
      * apply Z.div_pos; lia.
      * apply Z.div_lt_upper_bound; [lia|]. rewrite Nat2Z.inj_succ, Z.pow_succ_r in Hf by lia. lia.
Qed.

Lemma dec_fuel_shape fuel : forall n acc j, 0 <= n < 10 ^ Z.of_nat (S j) ->
  forallb is_ascii_digit acc = true ->
  forallb is_ascii_digit (dec_fuel fuel n acc) = true
  /\ (length (dec_fuel fuel n acc) <= S j + length acc)%nat
  /\ (fuel <> 0%nat -> dec_fuel fuel n acc <> []).
Proof.
  induction fuel as [|fuel IH]; intros n acc j Hn Ha; cbn [dec_fuel]; [split; [done|split; [lia|done]]|].
  assert (Hd : forallb is_ascii_digit ((48 + n mod 10) :: acc) = true).
  { pose proof (Z.mod_pos_bound n 10 ltac:(lia)). cbn [forallb]. unfold is_ascii_digit, in_range.
    by rewrite (proj2 (Z.leb_le _ _)), (proj2 (Z.leb_le _ _)) by lia. }
  destruct (Z.ltb_spec n 10); [split; [done|split; [simpl; lia|done]]|].
  destruct j as [|j]; [simpl in Hn; lia|].
  destruct (IH (n / 10) ((48 + n mod 10) :: acc) j) as (H1 & H2 & H3); [|done|].
  - split; [apply Z.div_pos; lia|]. apply Z.div_lt_upper_bound; [lia|].
    rewrite Nat2Z.inj_succ, Z.pow_succ_r in Hn by lia. lia.
  - split; [done|]. simpl in H2. split; [lia|]. intros _. destruct fuel; [done|]. by apply H3.
Qed.

Lemma show_dec_value n : 0 <= n -> digits_value 0 (show_dec n) = Some n.
Proof.
  intros Hn. unfold show_dec. rewrite dec_fuel_value; [done|done|].
  destruct (Z.eq_dec n 0) as [->|]; [done|]. rewrite Nat2Z.inj_succ, Z2Nat.id by apply Z.log2_nonneg.
  apply Z.log2_spec. lia.
Qed.

Lemma show_dec_shape n j : 0 <= n < 10 ^ Z.of_nat (S j) ->
  forallb is_ascii_digit (show_dec n) = true /\ (length (show_dec n) <= S j)%nat /\ show_dec n <> [].
Proof.
  intros Hn. destruct (dec_fuel_shape (S (Z.to_nat (Z.log2 n))) n [] j Hn eq_refl) as (H1 & H2 & H3).
  rewrite Nat.add_0_r in H2. split; [done|]. split; [exact H2|by apply H3].
Qed.

Lemma parse_digits_show max n : 0 <= n <= max -> parse_digits max (show_dec n) = Some n.
Proof.
  intros Hn. unfold parse_digits. rewrite show_dec_value by lia.
  rewrite (proj2 (Z.leb_le _ _)) by lia.
  destruct (show_dec n) eqn:E; [|done]. unfold show_dec in E. exfalso. revert E.
  cbn [dec_fuel]. destruct (n <? 10); [done|]. intros E.
  assert (Hl : forall f m acc, (length acc <= length (dec_fuel f m acc))%nat).
  { induction f as [|f IH]; intros m acc; simpl; [lia|]. destruct (m <? 10); simpl; [lia|].
    specialize (IH (m / 10) ((48 + m mod 10) :: acc)). simpl in IH. lia. }
  match type of E with dec_fuel ?f ?m ?a = [] => specialize (Hl f m a) end.
  rewrite E in Hl. simpl in Hl. lia.
Qed.

Lemma parse_uint_show max n : 0 <= n <= max -> parse_uint max (show_dec n) = Some n.
Proof.
  intros Hn. pose proof (parse_digits_show max n Hn) as H. unfold parse_uint.
  destruct (show_dec n) as [|d r] eqn:E; [done|].
  pose proof (show_dec_value n ltac:(lia)) as Hv. rewrite E in Hv. simpl in Hv.
  destruct (decide (d = 43)) as [->|Hd]; [done|]. by repeat case_match; simplify_eq.
Qed.

(** [trim] keeps a string whose first and last bytes are visible ASCII. *)
Definition visible (b : Z) : bool := in_range 33 126 b.

Lemma strip_while_none step n s : step s = None -> strip_while step n s = s.
Proof. intros H. destruct n; [done|]. cbn. by rewrite H. Qed.

Lemma ws_head_visible b s : visible b = true -> ws_head (b :: s) = None.
Proof.
  unfold visible, in_range. intros H. bool_to_prop. unfold ws_head, ws1, ws2, ws3, in_range.
  assert (Hws : (9 <=? b) && (b <=? 13) || (b =? 32) = false) by (destruct (Z.leb_spec 9 b),
    (Z.leb_spec b 13), (Z.eqb_spec b 32); simpl; lia || done).
  rewrite Hws.
  destruct (Z.eqb_spec b 194), (Z.eqb_spec b 225), (Z.eqb_spec b 226), (Z.eqb_spec b 227); try lia.
  simpl. by destruct s as [|? [|? ?]].
Qed.

Lemma ws_tail_visible b s : visible b = true -> ws_tail (b :: s) = None.
Proof.
  unfold visible, in_range. intros H. bool_to_prop. unfold ws_tail, ws1, ws2, ws3, in_range.
  assert (Hws : (9 <=? b) && (b <=? 13) || (b =? 32) = false) by (destruct (Z.leb_spec 9 b),
    (Z.leb_spec b 13), (Z.eqb_spec b 32); simpl; lia || done).
  rewrite Hws.
  destruct (Z.eqb_spec b 133), (Z.eqb_spec b 160), (Z.eqb_spec b 128), (Z.leb_spec 128 b),
    (Z.eqb_spec b 168), (Z.eqb_spec b 169), (Z.eqb_spec b 175), (Z.eqb_spec b 159); try lia.
  destruct s as [|d [|c s]]; simpl; rewrite ?andb_false_r; done.
Qed.

Lemma trim_visible a s b : visible a = true -> visible b = true -> trim (a :: s ++ [b]) = a :: s ++ [b].
Proof.
  intros Ha Hb. unfold trim, trim_start, trim_end.
  rewrite (strip_while_none ws_head) by by apply ws_head_visible.
  rewrite strip_while_none; [by rewrite rev_involutive|].
  change (a :: s ++ [b]) with ((a :: s) ++ [b]). rewrite rev_app_distr. by apply ws_tail_visible.
Qed.

(** *** Sums over finite maps *)

Section MapSum.
Context {K V : Type} `{Countable K} (f : V -> Z).
Implicit Types (m : gmap K V).

Lemma map_sum_empty : map_sum f (∅ : gmap K V) = 0.
Proof. apply map_fold_empty. Qed.

Lemma map_sum_insert_new m k v : m !! k = None -> map_sum f (<[k:=v]> m) = f v + map_sum f m.
Proof.
  intros Hk. unfold map_sum. rewrite map_fold_insert_L; [done| |done]. intros; lia.
Qed.

Lemma map_sum_delete m k v : m !! k = Some v -> map_sum f m = f v + map_sum f (delete k m).
Proof.
  intros Hk. rewrite <- (insert_delete_id m k v Hk) at 1.
  by rewrite map_sum_insert_new by apply lookup_delete_eq.
Qed.

Lemma map_sum_insert m k v v' : m !! k = Some v ->
  map_sum f (<[k:=v']> m) = map_sum f m - f v + f v'.
Proof.
  intros Hk. rewrite (map_sum_delete m k v Hk), <- insert_delete_eq.
  rewrite map_sum_insert_new by apply lookup_delete_eq. lia.
Qed.

Lemma map_sum_nonneg m : (forall k v, m !! k = Some v -> 0 <= f v) -> 0 <= map_sum f m.
Proof.
  induction m as [|k v m Hk IH] using map_ind; intros Hm; [by rewrite map_sum_empty|].
  rewrite map_sum_insert_new by done.
  assert (0 <= f v) by (apply (Hm k); by rewrite lookup_insert_eq).
  assert (0 <= map_sum f m); [|lia]. apply IH. intros k' v' Hk'. apply (Hm k').
  rewrite lookup_insert_ne; [done|]. intros ->. congruence.
Qed.

Lemma map_sum_ge m k v : (forall k v, m !! k = Some v -> 0 <= f v) -> m !! k = Some v ->
  f v <= map_sum f m.
Proof.
  intros Hm Hk. rewrite (map_sum_delete m k v Hk).
  assert (0 <= map_sum f (delete k m)); [|lia].
  apply map_sum_nonneg. intros k' v' [_ ?]%lookup_delete_Some. eauto.
Qed.
End MapSum.

Lemma wrapping_sub_small a b : b <= a -> a < 2 ^ 64 -> 0 <= b -> wrapping_sub a b = a - b.
Proof. intros. unfold wrapping_sub. apply Z.mod_small. lia. Qed.
