(* ===== verification/Text.v ===== *)
(** * Text of the standard library

    [String::from_utf8_lossy] and the classes of bytes components share, with what the decoding keeps:
    text that is already well formed, and well-formedness of what it gives. *)

From S2P Require Import Prelude.

(** [u8::is_ascii_whitespace] *)
Definition is_ascii_whitespace (b : Z) : bool := (b =? 9) || (b =? 10) || (b =? 12) || (b =? 13) || (b =? 32).

(** U+FFFD, which stands for every maximal ill-formed piece. *)
Definition REPLACEMENT : bytes := [239; 191; 189].

(** The second bytes a lead byte of three or four admits. *)
Definition second3 (a b : Z) : bool :=
  if a =? 224 then in_range 160 191 b else if a =? 237 then in_range 128 159 b else is_cont b.
Definition second4 (a b : Z) : bool :=
  if a =? 240 then in_range 144 191 b else if a =? 244 then in_range 128 143 b else is_cont b.

Fixpoint utf8_lossy (s : bytes) : bytes :=
  match s with
  | [] => []
  | a :: r =>
      if in_range 0 127 a then a :: utf8_lossy r
      else if in_range 194 223 a then
        match r with
        | b :: r2 => if is_cont b then a :: b :: utf8_lossy r2 else REPLACEMENT ++ utf8_lossy r
        | [] => REPLACEMENT
        end
      else if in_range 224 239 a then
        match r with
        | b :: r2 =>
            if second3 a b then
              match r2 with
              | c :: r3 => if is_cont c then a :: b :: c :: utf8_lossy r3 else REPLACEMENT ++ utf8_lossy r2
              | [] => REPLACEMENT
              end
            else REPLACEMENT ++ utf8_lossy r
        | [] => REPLACEMENT
        end
      else if in_range 240 244 a then
        match r with
        | b :: r2 =>
            if second4 a b then
              match r2 with
              | c :: r3 =>
                  if is_cont c then
                    match r3 with
                    | d :: r4 => if is_cont d then a :: b :: c :: d :: utf8_lossy r4 else REPLACEMENT ++ utf8_lossy r3
                    | [] => REPLACEMENT
                    end
                  else REPLACEMENT ++ utf8_lossy r2
              | [] => REPLACEMENT
              end
            else REPLACEMENT ++ utf8_lossy r
        | [] => REPLACEMENT
        end
      else REPLACEMENT ++ utf8_lossy r
  end.

Example utf8_lossy_pieces :
  utf8_lossy [65; 240; 159; 66; 255; 195; 169] = [65] ++ REPLACEMENT ++ [66] ++ REPLACEMENT ++ [195; 169].
Proof. reflexivity. Qed.

Lemma list_length_ind {A} (P : list A -> Prop) :
  (forall l, (forall k, (length k < length l)%nat -> P k) -> P l) -> forall l, P l.
Proof.
  intros H l. remember (length l) as n. revert l Heqn. induction n as [n IH] using lt_wf_ind.
  intros l ->. apply H. intros k Hk. by eapply IH.
Qed.

(** Well-formed text is left as it is. *)
Lemma utf8_lossy_id s : is_utf8 s = true -> utf8_lossy s = s.
Proof.
  induction s as [s IH] using list_length_ind. destruct s as [|a r]; [done|]. cbn [is_utf8 utf8_lossy].
  destruct (in_range 0 127 a) eqn:Ea; [intros H; f_equal; apply IH; simpl; [lia | done]|].
  destruct r as [|b r]; [done|].
  destruct (in_range 194 223 a) eqn:E2.
  { intros [-> H]%andb_true_iff. do 2 f_equal. apply IH; simpl; [lia | done]. }
  destruct r as [|c r]; [done|].
  destruct (in_range 224 239 a) eqn:E3.
  { intros [[Hb Hc]%andb_true_iff H]%andb_true_iff. unfold second3. rewrite Hb, Hc. do 3 f_equal.
    apply IH; simpl; [lia | done]. }
  destruct r as [|d r]; [done|].
  intros [[[[E4 Hb]%andb_true_iff Hc]%andb_true_iff Hd]%andb_true_iff H]%andb_true_iff.
  rewrite E4. unfold second4. rewrite Hb, Hc, Hd. do 4 f_equal. apply IH; simpl; [lia | done].
Qed.

Lemma is_utf8_replacement s : is_utf8 (REPLACEMENT ++ s) = is_utf8 s.
Proof. reflexivity. Qed.

(** What it gives is well formed. *)
Lemma utf8_lossy_valid s : is_utf8 (utf8_lossy s) = true.
Proof.
  induction s as [s IH] using list_length_ind. destruct s as [|a r]; [done|]. cbn [utf8_lossy].
  destruct (in_range 0 127 a) eqn:Ea; [cbn [is_utf8]; rewrite Ea; apply IH; simpl; lia|].
  destruct (in_range 194 223 a) eqn:E2.
  { destruct r as [|b r]; [done|]. destruct (is_cont b) eqn:Eb.
    - cbn [is_utf8]. rewrite Ea, E2, Eb. apply IH. simpl. lia.
    - rewrite is_utf8_replacement. apply IH. simpl. lia. }
  destruct (in_range 224 239 a) eqn:E3.
  { destruct r as [|b r]; [done|]. destruct (second3 a b) eqn:Eb; [|rewrite is_utf8_replacement; apply IH; simpl; lia].
    destruct r as [|c r]; [done|]. destruct (is_cont c) eqn:Ec; [|rewrite is_utf8_replacement; apply IH; simpl; lia].
    cbn [is_utf8]. rewrite Ea, E2, E3, Ec. unfold second3 in Eb. rewrite Eb. apply IH. simpl. lia. }
  destruct (in_range 240 244 a) eqn:E4; [|rewrite is_utf8_replacement; apply IH; simpl; lia].
  destruct r as [|b r]; [done|]. destruct (second4 a b) eqn:Eb; [|rewrite is_utf8_replacement; apply IH; simpl; lia].
  destruct r as [|c r]; [done|]. destruct (is_cont c) eqn:Ec; [|rewrite is_utf8_replacement; apply IH; simpl; lia].
  destruct r as [|d r]; [done|]. destruct (is_cont d) eqn:Ed; [|rewrite is_utf8_replacement; apply IH; simpl; lia].
  cbn [is_utf8]. rewrite Ea, E2, E3, E4, Ec, Ed. unfold second4 in Eb. rewrite Eb. apply IH. simpl. lia.
Qed.
