(* ===== verification/Protocol.v ===== *)
(** * Protocol matrix ([src/protocol.rs])

    The process-wide matrix that decides, from the HTTP version, the [Upgrade] header,
    the content encoding and the content type of a request, whether it is inspected or
    which fallback action applies.  Errors of the TOML section are values of
    [ParseError]; the metric that [record] emits is the value it returns. *)

From S2P Require Import Prelude.

(** [src/protocol.rs: enum UnsupportedAction] *)
Inductive UnsupportedAction : Set :=
| Deny
| Monitor
| BypassExplicit
| RouteToQuarantine.

#[export] Instance UnsupportedAction_eq_dec : EqDecision UnsupportedAction.
Proof. solve_decision. Defined.

(** [src/protocol.rs: UnsupportedAction::as_str] *)
Definition action_as_str (a : UnsupportedAction) : bytes :=
  match a with
  | Deny => "deny"
  | Monitor => "monitor"
  | BypassExplicit => "bypass-explicit"
  | RouteToQuarantine => "route-to-quarantine"
  end.

(** [src/protocol.rs: UnsupportedAction::metric_action] *)
Definition metric_action (a : UnsupportedAction) : bytes :=
  match a with
  | RouteToQuarantine => "quarantine"
  | other => action_as_str other
  end.

(** [src/protocol.rs: UnsupportedAction::severity] *)
Definition severity (a : UnsupportedAction) : Z :=
  match a with
  | RouteToQuarantine => 4
  | Deny => 3
  | Monitor => 2
  | BypassExplicit => 1
  end.

(** [src/protocol.rs: enum ProtocolId] *)
Inductive ProtocolId : Set :=
| Http10
| Http11
| Http2
| Http3
| Websocket
| Grpc
| Brotli
| Multipart
| Sse
| Json
| GzipDeflate
| UnknownHttpVersion
| UnknownUpgrade
| UnknownEncoding
| UnknownContentType.

#[export] Instance ProtocolId_eq_dec : EqDecision ProtocolId.
Proof. solve_decision. Defined.

(** [src/protocol.rs: ProtocolId::as_str] *)
Definition protocol_as_str (p : ProtocolId) : bytes :=
  match p with
  | Http10 => "http_1_0"
  | Http11 => "http_1_1"
  | Http2 => "http_2"
  | Http3 => "http_3"
  | Websocket => "websocket"
  | Grpc => "grpc"
  | Brotli => "brotli"
  | Multipart => "multipart"
  | Sse => "sse"
  | Json => "json"
  | GzipDeflate => "gzip_deflate"
  | UnknownHttpVersion => "unknown_http_version"
  | UnknownUpgrade => "unknown_upgrade"
  | UnknownEncoding => "unknown_encoding"
  | UnknownContentType => "unknown_content_type"
  end.

(** [src/protocol.rs: ProtocolId::deny_reason] *)
Definition deny_reason (p : ProtocolId) : bytes :=
  match p with
  | Http10 => "HTTP/1.0 não é suportado"
  | Http11 => "HTTP/1.1 não é permitido nesta política"
  | Http2 => "HTTP/2 não é permitido nesta política"
  | Http3 => "HTTP/3 não é suportado"
  | Websocket => "WebSocket não é suportado"
  | Grpc => "gRPC não é suportado"
  | Brotli => "Content-Encoding brotli não é suportado"
  | Multipart => "multipart não é suportado"
  | Sse => "SSE não é permitido nesta política"
  | Json => "JSON não é permitido nesta política"
  | GzipDeflate => "gzip/deflate não é permitido nesta política"
  | UnknownHttpVersion => "versão HTTP não suportada"
  | UnknownUpgrade => "Upgrade HTTP não suportado"
  | UnknownEncoding => "Content-Encoding não suportado"
  | UnknownContentType => "Content-Type não suportado"
  end.

(** [src/protocol.rs: enum ProtocolVerdict] *)
Inductive ProtocolVerdict : Set :=
| Inspect
| Unsupported (protocol : ProtocolId) (action : UnsupportedAction).

(** [src/protocol.rs: ProtocolVerdict::blocked_status] *)
Definition blocked_status (v : ProtocolVerdict) : option Z :=
  match v with
  | Unsupported _ (Deny | RouteToQuarantine) => Some 403
  | _ => None
  end.

(** [src/protocol.rs: ProtocolVerdict::skips_body_waf] *)
Definition skips_body_waf (v : ProtocolVerdict) : bool :=
  match v with
  | Unsupported _ (Monitor | BypassExplicit) => true
  | _ => false
  end.

(** [src/protocol.rs: ProtocolVerdict::event_type] *)
Definition event_type (v : ProtocolVerdict) : option bytes :=
  match v with
  | Inspect => None
  | Unsupported _ Deny => Some ("protocol_deny" : bytes)
  | Unsupported _ Monitor => Some ("protocol_monitor" : bytes)
  | Unsupported _ BypassExplicit => Some ("protocol_bypass" : bytes)
  | Unsupported _ RouteToQuarantine => Some ("quarantine" : bytes)
  end.

(** The versions of [http::Version]. *)
Inductive Version : Set := HTTP_09 | HTTP_10 | HTTP_11 | HTTP_2 | HTTP_3.
#[export] Instance Version_eq_dec : EqDecision Version.
Proof. solve_decision. Defined.

(** [src/protocol.rs: struct RequestFacts] *)
Record RequestFacts : Type := {
  version : Version;
  upgrade : option bytes;
  content_encoding : option bytes;
  content_type : option bytes;
  require_complete : bool;
  grpc_policy : bool;
}.

(** [src/protocol.rs: struct ProtocolMatrix] *)
Record ProtocolMatrix : Type := {
  m_http_1_0 : UnsupportedAction;
  m_http_1_1 : option UnsupportedAction;
  m_http_2 : option UnsupportedAction;
  m_http_3 : UnsupportedAction;
  m_websocket : UnsupportedAction;
  m_grpc : UnsupportedAction;
  m_brotli : option UnsupportedAction;
  m_multipart : option UnsupportedAction;
  m_unknown_http_version : UnsupportedAction;
  m_unknown_upgrade : UnsupportedAction;
  m_unknown_encoding : option UnsupportedAction;
  m_unknown_content_type : option UnsupportedAction;
}.

(** [src/protocol.rs: ProtocolMatrix::default] *)
Definition default_matrix : ProtocolMatrix := {|
  m_http_1_0 := Deny;
  m_http_1_1 := None;
  m_http_2 := None;
  m_http_3 := Deny;
  m_websocket := BypassExplicit;
  m_grpc := Deny;
  m_brotli := None;
  m_multipart := None;
  m_unknown_http_version := Deny;
  m_unknown_upgrade := Deny;
  m_unknown_encoding := None;
  m_unknown_content_type := None;
|}.

(** [src/protocol.rs: struct ProtocolsSection] *)
Record ProtocolsSection : Type := {
  s_http_1_0 : option bytes;
  s_http_1_1 : option bytes;
  s_http_2 : option bytes;
  s_http_3 : option bytes;
  s_websocket : option bytes;
  s_grpc : option bytes;
  s_brotli : option bytes;
  s_multipart : option bytes;
  s_sse : option bytes;
  s_json : option bytes;
  s_gzip_deflate : option bytes;
  s_unknown_http_version : option bytes;
  s_unknown_upgrade : option bytes;
  s_unknown_encoding : option bytes;
  s_unknown_content_type : option bytes;
}.

(** [src/protocol.rs: enum Policy] *)
Inductive Policy : Set :=
| PInspect
| PUnsupported (a : UnsupportedAction).

(** The four error messages of the section parser; the key and the raw value are the
    ones the message prints. *)
Inductive ParseError : Type :=
| NotInspectable (key : bytes)
| InspectOnly (key : bytes)
| AmbiguousKey (key : bytes)
| InvalidAction (key other : bytes).

(** [src/protocol.rs: fn parse_policy] *)
Definition parse_policy (key raw : bytes) : result ParseError Policy :=
  let t := trim raw in
  if t =s "inspect" then Ok PInspect
  else if t =s "deny" then Ok (PUnsupported Deny)
  else if t =s "monitor" then Ok (PUnsupported Monitor)
  else if t =s "bypass-explicit" then Ok (PUnsupported BypassExplicit)
  else if t =s "route-to-quarantine" then Ok (PUnsupported RouteToQuarantine)
  else if t =s "unknown" then Err (AmbiguousKey key)
  else Err (InvalidAction key t).

(** [src/protocol.rs: fn parse_unsupported] *)
Definition parse_unsupported (key raw : bytes) : result ParseError UnsupportedAction :=
  p ← parse_policy key raw;
  match p with
  | PInspect => Err (NotInspectable key)
  | PUnsupported action => Ok action
  end.

(** [src/protocol.rs: fn parse_supported_override] *)
Definition parse_supported_override (key raw : bytes)
  : result ParseError (option UnsupportedAction) :=
  p ← parse_policy key raw;
  match p with
  | PInspect => Ok None
  | PUnsupported action => Ok (Some action)
  end.

(** [src/protocol.rs: fn parse_inspect_only] *)
Definition parse_inspect_only (key raw : bytes) : result ParseError unit :=
  p ← parse_policy key raw;
  match p with
  | PInspect => Ok tt
  | PUnsupported _ => Err (InspectOnly key)
  end.

(** [if let Some(raw) = section.key { matrix.field = f(raw)?; }]: the field keeps its
    value when the key is absent. *)
Definition set_key {A} (raw : option bytes) (old : A) (f : bytes -> result ParseError A)
  : result ParseError A :=
  match raw with Some r => f r | None => Ok old end.

(** [src/protocol.rs: ProtocolMatrix::from_section] *)
Definition from_section (s : ProtocolsSection) : result ParseError ProtocolMatrix :=
  let d := default_matrix in
  let some (r : result ParseError UnsupportedAction) := Some <$> r in
  http_1_0 ← set_key (s_http_1_0 s) (m_http_1_0 d) (parse_unsupported "http_1_0");
  http_1_1 ← set_key (s_http_1_1 s) (m_http_1_1 d) (parse_supported_override "http_1_1");
  http_2 ← set_key (s_http_2 s) (m_http_2 d) (parse_supported_override "http_2");
  http_3 ← set_key (s_http_3 s) (m_http_3 d) (parse_unsupported "http_3");
  websocket ← set_key (s_websocket s) (m_websocket d) (parse_unsupported "websocket");
  grpc ← set_key (s_grpc s) (m_grpc d) (parse_unsupported "grpc");
  brotli ← set_key (s_brotli s) (m_brotli d) (fun r => some (parse_unsupported "brotli" r));
  multipart ← set_key (s_multipart s) (m_multipart d)
    (fun r => some (parse_unsupported "multipart" r));
  unknown_http_version ← set_key (s_unknown_http_version s) (m_unknown_http_version d)
    (parse_unsupported "unknown_http_version");
  unknown_upgrade ← set_key (s_unknown_upgrade s) (m_unknown_upgrade d)
    (parse_unsupported "unknown_upgrade");
  unknown_encoding ← set_key (s_unknown_encoding s) (m_unknown_encoding d)
    (fun r => some (parse_unsupported "unknown_encoding" r));
  unknown_content_type ← set_key (s_unknown_content_type s) (m_unknown_content_type d)
    (fun r => some (parse_unsupported "unknown_content_type" r));
  _ ← set_key (s_sse s) tt (parse_inspect_only "sse");
  _ ← set_key (s_json s) tt (parse_inspect_only "json");
  _ ← set_key (s_gzip_deflate s) tt (parse_inspect_only "gzip_deflate");
  Ok {|
    m_http_1_0 := http_1_0;
    m_http_1_1 := http_1_1;
    m_http_2 := http_2;
    m_http_3 := http_3;
    m_websocket := websocket;
    m_grpc := grpc;
    m_brotli := brotli;
    m_multipart := multipart;
    m_unknown_http_version := unknown_http_version;
    m_unknown_upgrade := unknown_upgrade;
    m_unknown_encoding := unknown_encoding;
    m_unknown_content_type := unknown_content_type;
  |}.

(** [src/protocol.rs: fn upgrade_is_websocket] *)
Definition upgrade_is_websocket (u : bytes) : bool :=
  existsb (fun token => eq_ignore_ascii_case (trim token) "websocket") (split_on 44 u).

(** [src/protocol.rs: fn classify_encoding] *)
Definition classify_encoding (content_encoding : option bytes) : option ProtocolId :=
  let encoding := trim (default [] content_encoding) in
  if is_empty encoding || eq_ignore_ascii_case encoding "identity" then None
  else
    let tokens :=
      base.filter (fun t => is_empty t = false)
        (map (fun token => to_ascii_lowercase (trim token)) (split_on 44 encoding)) in
    match tokens with
    | [t] =>
        if one_of t ["gzip"; "x-gzip"; "deflate"] then None
        else if one_of t ["br"; "brotli"; "x-br"] then Some Brotli
        else Some UnknownEncoding
    | _ => Some UnknownEncoding
    end.

(** [src/protocol.rs: fn classify_content_type] *)
Definition classify_content_type (content_type : option bytes) : option ProtocolId :=
  content_type ← content_type;
  let content_type := to_ascii_lowercase content_type in
  let mime := trim (before 59 content_type) in
  if starts_with mime "application/grpc" then Some Grpc
  else if starts_with mime "multipart/" then Some Multipart
  else if starts_with mime "text/"
       || contains mime "application/json"
       || ends_with mime "+json"
       || contains mime "application/xml"
       || ends_with mime "+xml"
       || (mime =s "application/x-www-form-urlencoded")
       || contains mime "application/graphql"
  then None
  else Some UnknownContentType.

(** [src/protocol.rs: fn contextual] *)
Definition contextual (explicit : option UnsupportedAction) (require_complete : bool)
  : UnsupportedAction :=
  default (if require_complete then Deny else Monitor) explicit.

(** [src/protocol.rs: ProtocolMatrix::matches] *)
Definition matches (m : ProtocolMatrix) (f : RequestFacts)
  : list (ProtocolId * UnsupportedAction) :=
  (match version f with
   | HTTP_10 => [(Http10, m_http_1_0 m)]
   | HTTP_3 => [(Http3, m_http_3 m)]
   | HTTP_11 => match m_http_1_1 m with Some a => [(Http11, a)] | None => [] end
   | HTTP_2 => match m_http_2 m with Some a => [(Http2, a)] | None => [] end
   | _ => [(UnknownHttpVersion, m_unknown_http_version m)]
   end)
  ++ (match upgrade f with
      | Some u =>
          if upgrade_is_websocket u then [(Websocket, m_websocket m)]
          else if negb (is_empty (trim u)) then [(UnknownUpgrade, m_unknown_upgrade m)]
          else []
      | None => []
      end)
  ++ (match classify_encoding (content_encoding f) with
      | Some protocol =>
          let action :=
            match protocol with
            | Brotli => contextual (m_brotli m) (require_complete f)
            | _ => contextual (m_unknown_encoding m) (require_complete f)
            end in
          [(protocol, action)]
      | None => []
      end)
  ++ (match classify_content_type (content_type f) with
      | Some protocol =>
          if bool_decide (protocol = Grpc) && grpc_policy f then []
          else
            let action :=
              match protocol with
              | Grpc => m_grpc m
              | Multipart => contextual (m_multipart m) (require_complete f)
              | _ => contextual (m_unknown_content_type m) (require_complete f)
              end in
            [(protocol, action)]
      | None => []
      end).

(** [src/protocol.rs: fn pick_most_severe] -- the loop keeps the first match of the
    highest severity. *)
Fixpoint pick_loop (best : option (ProtocolId * UnsupportedAction))
    (l : list (ProtocolId * UnsupportedAction)) : option (ProtocolId * UnsupportedAction) :=
  match l with
  | [] => best
  | (protocol, action) :: r =>
      match best with
      | Some (_, best_action) =>
          if severity action <=? severity best_action then pick_loop best r
          else pick_loop (Some (protocol, action)) r
      | None => pick_loop (Some (protocol, action)) r
      end
  end.

(** [src/protocol.rs: fn unsupported + fn pick_most_severe] *)
Definition pick_most_severe (l : list (ProtocolId * UnsupportedAction)) : ProtocolVerdict :=
  match pick_loop None l with
  | None => Inspect
  | Some (protocol, action) => Unsupported protocol action
  end.

(** [src/protocol.rs: ProtocolMatrix::evaluate] *)
Definition evaluate (m : ProtocolMatrix) (f : RequestFacts) : ProtocolVerdict :=
  pick_most_severe (matches m f).

(** The arguments of the call to [metrics::record_protocol_in]. *)
Record ProtocolMetric : Type := {
  pm_site : bytes;
  pm_protocol : bytes;
  pm_action : bytes;
  pm_client_ip : bytes;
  pm_uri : bytes;
  pm_detail : bytes;
}.

(** [src/protocol.rs: fn record] -- the metric recorded, if any *)
Definition record (v : ProtocolVerdict) (client_ip uri site_scope : bytes)
  : option ProtocolMetric :=
  match v with
  | Inspect => None
  | Unsupported protocol action =>
      Some {| pm_site := site_scope;
              pm_protocol := protocol_as_str protocol;
              pm_action := metric_action action;
              pm_client_ip := client_ip;
              pm_uri := uri;
              pm_detail := protocol_as_str protocol |}
  end.

(** [src/protocol.rs: fn is_l0_inspectable_content_type] *)
Definition is_l0_inspectable_content_type (ct : option bytes) : bool :=
  match classify_content_type ct with None => true | Some _ => false end.

(** ** Severity: what [evaluate] picks *)

(** [(p, a)] is the first entry of [l] whose severity is the maximum of the list. *)
Definition first_most_severe (l : list (ProtocolId * UnsupportedAction))
    (p : ProtocolId) (a : UnsupportedAction) : Prop :=
  exists before_ after_, l = before_ ++ (p, a) :: after_
    /\ Forall (fun x => severity x.2 < severity a) before_
    /\ Forall (fun x => severity x.2 <= severity a) after_.

Lemma pick_loop_some l : forall p a, exists p' a',
  pick_loop (Some (p, a)) l = Some (p', a') /\ first_most_severe ((p, a) :: l) p' a'.
Proof.
  induction l as [|[q b] l IH]; intros p a; simpl.
  - exists p, a. split; [done|]. exists [], []. repeat split; constructor.
  - destruct (Z.leb_spec (severity b) (severity a)) as [Hle|Hgt].
    + destruct (IH p a) as (p' & a' & -> & bs & as_ & Heq & Hb & Ha).
      exists p', a'. split; [done|].
      destruct bs as [|z bs]; simplify_eq/=.
      * exists [], ((q, b) :: as_). repeat split; auto.
      * exists ((p, a) :: (q, b) :: bs), as_. repeat split; [|done].
        apply Forall_cons_1 in Hb as [? ?]. simpl in *. repeat constructor; simpl; auto; lia.
    + destruct (IH q b) as (p' & a' & -> & bs & as_ & Heq & Hb & Ha).
      exists p', a'. split; [done|].
      exists ((p, a) :: bs), as_. simpl. rewrite Heq. repeat split; auto.
      constructor; [|done]. simpl.
      destruct bs as [|z bs]; simplify_eq/=; [lia|].
      apply Forall_cons_1 in Hb as [? ?]; simpl in *; lia.
Qed.

Lemma pick_most_severe_nil l : pick_most_severe l = Inspect <-> l = [].
Proof.
  unfold pick_most_severe. destruct l as [|[p a] l]; simpl; [done|].
  destruct (pick_loop_some l p a) as (? & ? & -> & _). by split.
Qed.

Lemma pick_most_severe_spec l p a :
  pick_most_severe l = Unsupported p a <-> first_most_severe l p a.
Proof.
  unfold pick_most_severe. split.
  - destruct l as [|[q b] l]; simpl; [done|].
    destruct (pick_loop_some l q b) as (? & ? & -> & ?). by intros [= -> ->].
  - intros H. destruct l as [|[q b] l]; simpl.
    { destruct H as (bs & ? & Heq & _). by destruct bs. }
    destruct (pick_loop_some l q b) as (p' & a' & -> & H').
    destruct H as (bs & as_ & Heq & Hb & Ha), H' as (bs' & as' & Heq' & Hb' & Ha').
    rewrite Heq in Heq'.
    destruct (app_eq_inv _ _ _ _ Heq') as [(k & Hk1 & Hk2)|(k & Hk1 & Hk2)];
      destruct k as [|z k]; simplify_eq/=; try done.
    + apply Forall_app in Hb as [_ Hb]. apply Forall_cons_1 in Hb as [? _].
      apply Forall_app in Ha' as [_ Ha']. apply Forall_cons_1 in Ha' as [? _]. simpl in *; lia.
    + apply Forall_app in Hb' as [_ Hb']. apply Forall_cons_1 in Hb' as [? _].
      apply Forall_app in Ha as [_ Ha]. apply Forall_cons_1 in Ha as [? _]. simpl in *; lia.
Qed.

(** [evaluate] inspects a request exactly when no line of the matrix matches it, and
    otherwise reports the first matching line of the highest severity
    (quarantine > deny > monitor > bypass). *)
Theorem evaluate_most_severe (m : ProtocolMatrix) (f : RequestFacts) :
  (evaluate m f = Inspect <-> matches m f = [])
  /\ (forall p a, evaluate m f = Unsupported p a <-> first_most_severe (matches m f) p a).
Proof. split; [apply pick_most_severe_nil | apply pick_most_severe_spec]. Qed.

(** An action that answers 403. *)
Definition blocking (a : UnsupportedAction) : Prop := a = Deny \/ a = RouteToQuarantine.

Lemma blocking_severity a : blocking a <-> 3 <= severity a.
Proof. unfold blocking. destruct a; simpl; intuition (try done; lia). Qed.

Lemma first_most_severe_max l p a x :
  first_most_severe l p a -> x ∈ l -> severity x.2 <= severity a.
Proof.
  intros (bs & as_ & -> & Hb & Ha) Hx. rewrite Forall_forall in Hb, Ha.
  apply elem_of_app in Hx as [Hx|Hx]; [specialize (Hb _ Hx); simpl in Hb; lia|].
  apply elem_of_cons in Hx as [->|Hx]; [simpl; lia|apply (Ha _ Hx)].
Qed.

Lemma first_most_severe_elem l p a : first_most_severe l p a -> (p, a) ∈ l.
Proof. intros (bs & as_ & -> & _). set_solver. Qed.

(** A request is answered 403 by the matrix exactly when one of the lines it matches is
    a deny or a quarantine line, and it skips the body WAF exactly when it matches some
    line and none of them blocks: a permissive line never hides a blocking one. *)
Theorem evaluate_blocks_iff (m : ProtocolMatrix) (f : RequestFacts) :
  (blocked_status (evaluate m f) = Some 403 <-> exists p a, (p, a) ∈ matches m f /\ blocking a)
  /\ (skips_body_waf (evaluate m f) = true <->
      matches m f <> [] /\ forall p a, (p, a) ∈ matches m f -> ~ blocking a).
Proof.
  unfold evaluate. destruct (pick_most_severe (matches m f)) as [|p a] eqn:E.
  - apply pick_most_severe_nil in E. rewrite E. simpl.
    split; split; try done; [|by intros []]. by intros (? & ? & ?%elem_of_nil & _).
  - apply pick_most_severe_spec in E.
    pose proof (first_most_severe_elem _ _ _ E) as Hin.
    assert (Hmax : forall q b, (q, b) ∈ matches m f -> blocking b -> blocking a).
    { intros q b Hq. rewrite !blocking_severity.
      pose proof (first_most_severe_max _ _ _ _ E Hq) as H. simpl in H. lia. }
    assert (matches m f <> []) by (intros Hn; rewrite Hn in Hin; by apply elem_of_nil in Hin).
    assert (Ha : blocked_status (Unsupported p a) = Some 403 <-> blocking a).
    { unfold blocking. destruct a; simpl; intuition done. }
    assert (Hs : skips_body_waf (Unsupported p a) = true <-> ~ blocking a).
    { unfold blocking. destruct a; simpl; intuition done. }
    rewrite Ha, Hs. split; split; eauto.
    + intros (q & b & ? & ?). eauto.
    + intros [_ Hall]. eauto.
Qed.

(** ** The default matrix fails closed *)

(** A header of the request that the L0 inspector cannot read: an unknown or brotli
    encoding, or a content type outside the text family, unless it is gRPC and the site has
    a descriptor policy. *)
Definition opaque_body (f : RequestFacts) : Prop :=
  classify_encoding (content_encoding f) <> None
  \/ exists p, classify_content_type (content_type f) = Some p
               /\ ~ (p = Grpc /\ grpc_policy f = true).

Lemma matches_encoding m f p :
  classify_encoding (content_encoding f) = Some p ->
  exists a, (p, a) ∈ matches m f
    /\ (a = contextual (m_brotli m) (require_complete f)
        \/ a = contextual (m_unknown_encoding m) (require_complete f)).
Proof.
  intros E. unfold matches. rewrite E.
  eexists. rewrite !elem_of_app. split; [right; right; left; by left|]. destruct p; auto.
Qed.

Lemma matches_content_type m f p :
  classify_content_type (content_type f) = Some p ->
  ~ (p = Grpc /\ grpc_policy f = true) ->
  exists a, (p, a) ∈ matches m f
    /\ (a = m_grpc m \/ a = contextual (m_multipart m) (require_complete f)
        \/ a = contextual (m_unknown_content_type m) (require_complete f)).
Proof.
  intros E Hp. unfold matches. rewrite E.
  replace (bool_decide (p = Grpc) && grpc_policy f) with false.
  2:{ case_bool_decide; destruct (grpc_policy f); naive_solver. }
  eexists. rewrite !elem_of_app. split; [right; right; right; by left|]. destruct p; auto.
Qed.

(** On a route that requires complete inspection the default matrix answers 403 to every
    request whose body the L0 inspector cannot read. *)
Theorem default_matrix_fails_closed (f : RequestFacts) :
  require_complete f = true -> opaque_body f ->
  blocked_status (evaluate default_matrix f) = Some 403.
Proof.
  intros Hrc H. apply evaluate_blocks_iff.
  destruct H as [H|(p & E & Hp)].
  - destruct (classify_encoding _) as [p|] eqn:E; [|done].
    destruct (matches_encoding default_matrix f p E) as (a & ? & Ha).
    exists p, a. split; [done|]. left. by destruct Ha as [->| ->]; simpl; rewrite Hrc.
  - destruct (matches_content_type default_matrix f p E Hp) as (a & ? & Ha).
    exists p, a. split; [done|]. left.
    by destruct Ha as [->|[->| ->]]; simpl; rewrite ?Hrc.
Qed.

Definition brotli_multipart : RequestFacts := {|
  version := HTTP_11; upgrade := None;
  content_encoding := Some (" Br " : bytes);
  content_type := Some ("Multipart/form-data; boundary=x" : bytes);
  require_complete := true; grpc_policy := false |}.

Lemma default_matrix_fails_closed_witness :
  blocked_status (evaluate default_matrix brotli_multipart) = Some 403.
Proof.
  apply (default_matrix_fails_closed brotli_multipart); [reflexivity|].
  left. vm_compute. discriminate.
Defined.

(** ** The TOML section and the matrix *)

(** The section that spells out every line of a matrix. *)
Definition section_of (m : ProtocolMatrix) : ProtocolsSection :=
  let override (o : option UnsupportedAction) : option bytes :=
    Some (match o with Some a => action_as_str a | None => "inspect" end) in
  {| s_http_1_0 := Some (action_as_str (m_http_1_0 m));
     s_http_1_1 := override (m_http_1_1 m);
     s_http_2 := override (m_http_2 m);
     s_http_3 := Some (action_as_str (m_http_3 m));
     s_websocket := Some (action_as_str (m_websocket m));
     s_grpc := Some (action_as_str (m_grpc m));
     s_brotli := action_as_str <$> m_brotli m;
     s_multipart := action_as_str <$> m_multipart m;
     s_sse := Some ("inspect" : bytes);
     s_json := Some ("inspect" : bytes);
     s_gzip_deflate := Some ("inspect" : bytes);
     s_unknown_http_version := Some (action_as_str (m_unknown_http_version m));
     s_unknown_upgrade := Some (action_as_str (m_unknown_upgrade m));
     s_unknown_encoding := action_as_str <$> m_unknown_encoding m;
     s_unknown_content_type := action_as_str <$> m_unknown_content_type m |}.

Lemma parse_policy_action key a : parse_policy key (action_as_str a) = Ok (PUnsupported a).
Proof. by destruct a. Qed.

Lemma parse_unsupported_action key a : parse_unsupported key (action_as_str a) = Ok a.
Proof. unfold parse_unsupported. by rewrite parse_policy_action. Qed.

Lemma parse_override_action key o :
  parse_supported_override key (match o with Some a => action_as_str a | None => "inspect" end)
  = Ok o.
Proof.
  unfold parse_supported_override. destruct o as [a|]; [by rewrite parse_policy_action|done].
Qed.

Lemma set_key_optional key o :
  set_key (action_as_str <$> o) None (fun r => Some <$> parse_unsupported key r) = Ok o.
Proof. destruct o as [a|]; [|done]. cbn [fmap option_fmap option_map set_key].
  by rewrite parse_unsupported_action. Qed.

(** Writing a matrix out as a TOML section and loading it gives the same matrix: every
    key sets its own line, and the absent keys of the contextual lines stay contextual. *)
Theorem from_section_roundtrip (m : ProtocolMatrix) : from_section (section_of m) = Ok m.
Proof.
  unfold from_section, section_of.
  cbn [s_http_1_0 s_http_1_1 s_http_2 s_http_3 s_websocket s_grpc s_brotli s_multipart s_sse
       s_json s_gzip_deflate s_unknown_http_version s_unknown_upgrade s_unknown_encoding
       s_unknown_content_type m_brotli m_multipart m_unknown_encoding m_unknown_content_type
       default_matrix].
  rewrite !set_key_optional. unfold set_key.
  rewrite !parse_unsupported_action, !parse_override_action.
  by destruct m.
Qed.

(** A section is refused exactly for the keys whose value is not a policy of that line:
    [unknown] and unlisted words everywhere, [inspect] on a line that has no inspector, and
    anything but [inspect] on [sse], [json] and [gzip_deflate]. *)
Theorem parse_policy_errors (key raw : bytes) :
  (is_ok (parse_policy key raw)
   = one_of (trim raw) ["inspect"; "deny"; "monitor"; "bypass-explicit"; "route-to-quarantine"])
  /\ (is_ok (parse_unsupported key raw)
      = one_of (trim raw) ["deny"; "monitor"; "bypass-explicit"; "route-to-quarantine"])
  /\ (is_ok (parse_inspect_only key raw) = (trim raw =s "inspect")).
Proof.
  unfold parse_unsupported, parse_inspect_only, parse_policy, one_of. cbn [existsb].
  destruct (trim raw =s "inspect") eqn:Ei; simpl.
  - apply bool_decide_eq_true in Ei. rewrite Ei. done.
  - repeat match goal with |- context [trim raw =s lit ?x] => destruct (trim raw =s x) eqn:? end;
      done.
Qed.
