(* ===== verification/Net.v ===== *)
(** * IP addresses and their text form (the parts of [std::net] the program uses)

    An IPv4 address is its 32-bit value and an IPv6 address its 128-bit value
    ([u32::from], [u128::from]).  The readers follow the parser behind
    [str::parse::<IpAddr>()] and [str::parse::<SocketAddr>()]: each returns the value and
    the rest of the input, or nothing and the caller keeps its own input. *)

From S2P Require Import Prelude.

Inductive IpAddr : Set :=
| V4 (ip : Z)
| V6 (ip : Z).

#[export] Instance IpAddr_eq_dec : EqDecision IpAddr.
Proof. solve_decision. Defined.

#[export] Program Instance IpAddr_countable : Countable IpAddr :=
  inj_countable' (fun a => match a with V4 x => (true, x) | V6 x => (false, x) end)
                 (fun p : bool * Z => if p.1 then V4 p.2 else V6 p.2) _.
Next Obligation. by intros []. Qed.

(** [SocketAddrV6] also carries a flow label and a scope. *)
Inductive SocketAddr : Set :=
| SocketV4 (ip port : Z)
| SocketV6 (ip port flowinfo scope_id : Z).

#[export] Instance SocketAddr_eq_dec : EqDecision SocketAddr.
Proof. solve_decision. Defined.

#[export] Program Instance SocketAddr_countable : Countable SocketAddr :=
  inj_countable'
    (fun a => match a with
              | SocketV4 i p => inl (i, p)
              | SocketV6 i p f s => inr (i, p, f, s) end)
    (fun x : (Z * Z) + (Z * Z * Z * Z) =>
       match x with inl (i, p) => SocketV4 i p | inr (i, p, f, s) => SocketV6 i p f s end) _.
Next Obligation. by intros []. Qed.

Definition socket_ip (a : SocketAddr) : IpAddr :=
  match a with SocketV4 i _ => V4 i | SocketV6 i _ _ _ => V6 i end.

(** The client field of an event: an address that is printed, or text as it was given. *)
Inductive ClientLabel : Type :=
| LabelIp (ip : IpAddr)
| LabelText (t : bytes).

(** A call to [metrics::record_block] ([ev_site] is [None]) or [metrics::record_block_in]. *)
Record BlockEvent : Type := {
  ev_site : option bytes;
  ev_type : bytes;
  ev_client : ClientLabel;
  ev_uri : bytes;
  ev_detail : bytes;
}.

(** A block, or an observation ([metrics::record_observation], [.._in]) with the same fields. *)
Inductive MetricEvent : Type :=
| Blocked (e : BlockEvent)
| Observed (e : BlockEvent).

(** ** Readers *)

Definition reader (A : Type) : Type := bytes -> option (A * bytes).

Definition read_given_char (c : Z) : reader unit := fun s =>
  match s with x :: r => if x =? c then Some (tt, r) else None | [] => None end.

(** [char::to_digit] for radix 10 and 16. *)
Definition to_digit (radix b : Z) : option Z :=
  let v := if is_ascii_digit b then Some (b - 48)
           else if in_range 97 102 b then Some (b - 87)
           else if in_range 65 70 b then Some (b - 55)
           else None in
  match v with Some d => if d <? radix then Some d else None | None => None end.

(** Leading digits of the input: their value, their number, and the rest. *)
Fixpoint take_digits (radix acc : Z) (n : nat) (s : bytes) : Z * nat * bytes :=
  match s with
  | b :: r => match to_digit radix b with
              | Some d => take_digits radix (acc * radix + d) (S n) r
              | None => (acc, n, s)
              end
  | [] => (acc, n, [])
  end.

(** [read_number]: [max_digits] bounds the digits read, [max] is the bound of the
    integer type. *)
Definition read_number (radix : Z) (max_digits : option nat) (allow_zero_prefix : bool)
    (max : Z) : reader Z := fun s =>
  let '(v, n, r) := take_digits radix 0 0 s in
  let leading_zero := match s with b :: _ => b =? 48 | [] => false end in
  if (n =? 0)%nat then None
  else if match max_digits with Some m => (m <? n)%nat | None => false end then None
  else if negb allow_zero_prefix && leading_zero && (1 <? n)%nat then None
  else if v <=? max then Some (v, r) else None.

Definition read_separator {A} (sep : Z) (index : nat) (inner : reader A) : reader A := fun s =>
  match index with
  | O => inner s
  | S _ => match read_given_char sep s with Some (_, r) => inner r | None => None end
  end.

Definition read_octet (i : nat) : reader Z :=
  read_separator 46 i (read_number 10 (Some 3%nat) false u8_max).

Definition read_ipv4_addr : reader Z := fun s =>
  '(a, s) ← read_octet 0 s;
  '(b, s) ← read_octet 1 s;
  '(c, s) ← read_octet 2 s;
  '(d, s) ← read_octet 3 s;
  Some (a * 16777216 + b * 65536 + c * 256 + d, s).

(** [read_groups]: at most [limit] 16-bit groups, the last two possibly written as an
    embedded IPv4 address; the groups read and whether they ended in one.  [i] groups
    have been read before. *)
Fixpoint read_groups (limit : nat) (i : nat) (s : bytes) : list Z * bool * bytes :=
  match limit with
  | O => ([], false, s)
  | S rest =>
      let v4 := match rest with
                | O => None
                | S _ => read_separator 58 i read_ipv4_addr s
                end in
      match v4 with
      | Some (ip, s') => ([ip / 65536; ip mod 65536], true, s')
      | None =>
          match read_separator 58 i (read_number 16 (Some 4%nat) true u16_max) s with
          | Some (g, s') =>
              let '(gs, b, s'') := read_groups rest (S i) s' in (g :: gs, b, s'')
          | None => ([], false, s)
          end
      end
  end.

Definition groups_value (gs : list Z) : Z := fold_left (fun acc g => acc * 65536 + g) gs 0.

Definition read_ipv6_addr : reader Z := fun s =>
  let '(head, head_ipv4, s) := read_groups 8 0 s in
  if (length head =? 8)%nat then Some (groups_value head, s)
  else if head_ipv4 then None
  else
    '(_, s) ← read_given_char 58 s;
    '(_, s) ← read_given_char 58 s;
    let limit := (8 - (length head + 1))%nat in
    let '(tail, _, s) := read_groups limit 0 s in
    let zeros := replicate (8 - length head - length tail) 0 in
    Some (groups_value (head ++ zeros ++ tail), s).

Definition read_ip_addr : reader IpAddr := fun s =>
  match read_ipv4_addr s with
  | Some (a, r) => Some (V4 a, r)
  | None => match read_ipv6_addr s with Some (a, r) => Some (V6 a, r) | None => None end
  end.

Definition read_port : reader Z := fun s =>
  '(_, s) ← read_given_char 58 s;
  read_number 10 None true u16_max s.

Definition read_scope_id : reader Z := fun s =>
  '(_, s) ← read_given_char 37 s;
  read_number 10 None true u32_max s.

Definition read_socket_addr_v4 : reader SocketAddr := fun s =>
  '(ip, s) ← read_ipv4_addr s;
  '(port, s) ← read_port s;
  Some (SocketV4 ip port, s).

Definition read_socket_addr_v6 : reader SocketAddr := fun s =>
  '(_, s) ← read_given_char 91 s;
  '(ip, s) ← read_ipv6_addr s;
  let '(scope, s) := match read_scope_id s with Some (v, r) => (v, r) | None => (0, s) end in
  '(_, s) ← read_given_char 93 s;
  '(port, s) ← read_port s;
  Some (SocketV6 ip port 0 scope, s).

Definition read_socket_addr : reader SocketAddr := fun s =>
  match read_socket_addr_v4 s with
  | Some x => Some x
  | None => read_socket_addr_v6 s
  end.

(** [parse_with]: the whole input has to be read. *)
Definition parse_with {A} (p : reader A) (s : bytes) : option A :=
  match p s with Some (a, []) => Some a | _ => None end.

Definition parse_ip (s : bytes) : option IpAddr := parse_with read_ip_addr s.
Definition parse_socket_addr (s : bytes) : option SocketAddr := parse_with read_socket_addr s.

Example parse_ip_v4 : parse_ip "10.0.0.255" = Some (V4 (10 * 16777216 + 255)).
Proof. reflexivity. Qed.
Example parse_ip_leading_zero : parse_ip "10.00.0.1" = None.
Proof. reflexivity. Qed.
Example parse_ip_v6 : parse_ip "2001:db8::1" = Some (V6 (0x20010db8000000000000000000000001)).
Proof. reflexivity. Qed.
Example parse_ip_v6_embedded : parse_ip "::ffff:1.2.3.4" = Some (V6 0xffff01020304).
Proof. reflexivity. Qed.
Example parse_ip_v6_full : parse_ip "1:2:3:4:5:6:7:8" = Some (V6 0x00010002000300040005000600070008).
Proof. reflexivity. Qed.
Example parse_ip_any : parse_ip "::" = Some (V6 0).
Proof. reflexivity. Qed.
Example parse_socket : parse_socket_addr "[::1%7]:443" = Some (SocketV6 1 443 0 7).
Proof. reflexivity. Qed.

(** ** The readers return values of their type *)

Arguments read_octet : simpl never.
Arguments read_given_char : simpl never.

Definition ip_ok (a : IpAddr) : Prop :=
  match a with V4 x => 0 <= x < 2 ^ 32 | V6 x => 0 <= x < 2 ^ 128 end.

Lemma to_digit_nonneg radix b d : to_digit radix b = Some d -> 0 <= d.
Proof.
  unfold to_digit, is_ascii_digit, in_range.
  repeat case_match; intros; simplify_eq; bool_to_prop; lia.
Qed.

Lemma take_digits_nonneg radix s : forall acc n v k r, 0 <= radix -> 0 <= acc ->
  take_digits radix acc n s = (v, k, r) -> 0 <= v.
Proof.
  induction s as [|b s IH]; intros acc n v k r Hr Ha; simpl; [congruence|].
  destruct (to_digit radix b) eqn:E; [|congruence].
  apply to_digit_nonneg in E. apply IH; [done|]. nia.
Qed.

Lemma read_number_range radix md az max s v r : 0 <= radix ->
  read_number radix md az max s = Some (v, r) -> 0 <= v <= max.
Proof.
  unfold read_number. intros Hr. destruct (take_digits radix 0 0 s) as [[w n] r'] eqn:E.
  apply take_digits_nonneg in E; [|done|lia].
  destruct ((n =? 0)%nat); [done|]. destruct (match md with Some _ => _ | None => _ end); [done|].
  destruct (negb az && _ && _); [done|].
  destruct (w <=? max) eqn:El; [|done]. intros [= <- _]. bool_to_prop. lia.
Qed.

Lemma read_separator_some {A} sep i (p : reader A) s a r :
  read_separator sep i p s = Some (a, r) -> exists s', p s' = Some (a, r).
Proof.
  unfold read_separator. destruct i; [eauto|].
  destruct (read_given_char sep s) as [[? ?]|]; [eauto|done].
Qed.

Lemma read_octet_range i s v r : read_octet i s = Some (v, r) -> 0 <= v <= 255.
Proof.
  intros (s' & H)%read_separator_some. by apply read_number_range in H.
Qed.

Lemma read_ipv4_range s v r : read_ipv4_addr s = Some (v, r) -> 0 <= v < 2 ^ 32.
Proof.
  unfold read_ipv4_addr.
  destruct (read_octet 0 s) as [[a s1]|] eqn:E1; simpl; [|done].
  destruct (read_octet 1 s1) as [[b s2]|] eqn:E2; simpl; [|done].
  destruct (read_octet 2 s2) as [[c s3]|] eqn:E3; simpl; [|done].
  destruct (read_octet 3 s3) as [[d s4]|] eqn:E4; simpl; [|done].
  intros [= <- <-]. apply read_octet_range in E1, E2, E3, E4. lia.
Qed.

Definition group_ok (g : Z) : Prop := 0 <= g < 65536.

Lemma read_groups_ok limit : forall i s gs b r,
  read_groups limit i s = (gs, b, r) -> Forall group_ok gs /\ (length gs <= limit)%nat.
Proof.
  induction limit as [|limit IH]; intros i s gs b r; cbn [read_groups].
  - intros [= <- _ _]. split; [constructor|simpl; lia].
  - destruct (match limit with O => None | S _ => read_separator 58 i read_ipv4_addr s end)
      as [[ip s']|] eqn:E.
    + intros [= <- _ _]. destruct limit as [|limit]; [discriminate E|].
      apply read_separator_some in E as (s0 & E). apply read_ipv4_range in E.
      split; [|simpl; lia].
      constructor; [|constructor; [|constructor]]; unfold group_ok.
      * split; [apply Z.div_pos; lia|apply Z.div_lt_upper_bound; lia].
      * apply Z.mod_pos_bound. lia.
    + destruct (read_separator 58 i (read_number 16 (Some 4%nat) true u16_max) s) as [[g s']|] eqn:Eg.
      * destruct (read_groups limit (S i) s') as [[gs' b'] s''] eqn:Er.
        intros [= <- _ _]. apply IH in Er as [? ?].
        apply read_separator_some in Eg as (s0 & Eg). apply read_number_range in Eg; [|lia].
        split; [constructor; [unfold group_ok, u16_max in *; lia|done]|simpl; lia].
      * intros [= <- _ _]. split; [constructor|simpl; lia].
Qed.

Lemma groups_value_range gs acc : Forall group_ok gs -> 0 <= acc ->
  acc * 2 ^ (16 * Z.of_nat (length gs))
  <= fold_left (fun acc g => acc * 65536 + g) gs acc
  < (acc + 1) * 2 ^ (16 * Z.of_nat (length gs)).
Proof.
  intros H. revert acc. induction H as [|g gs Hg _ IH]; intros acc Ha.
  - simpl. lia.
  - specialize (IH (acc * 65536 + g)). unfold group_ok in Hg. cbn [fold_left length].
    replace (16 * Z.of_nat (S (length gs))) with (16 + 16 * Z.of_nat (length gs)) by lia.
    rewrite Z.pow_add_r by lia. change (2 ^ 16) with 65536.
    assert (0 < 2 ^ (16 * Z.of_nat (length gs))) by (apply Z.pow_pos_nonneg; lia).
    nia.
Qed.

Lemma groups_value_8 gs : Forall group_ok gs -> length gs = 8%nat -> 0 <= groups_value gs < 2 ^ 128.
Proof.
  intros H Hl. pose proof (groups_value_range gs 0 H) as Hr. rewrite Hl in Hr.
  unfold groups_value. change (16 * Z.of_nat 8) with 128 in Hr. lia.
Qed.

Lemma read_ipv6_range s v r : read_ipv6_addr s = Some (v, r) -> 0 <= v < 2 ^ 128.
Proof.
  unfold read_ipv6_addr. destruct (read_groups 8 0 s) as [[hd b] s1] eqn:E1.
  apply read_groups_ok in E1 as [Hh Hl].
  destruct (Nat.eqb_spec (length hd) 8) as [H8|H8].
  { intros [= <- _]. by apply groups_value_8. }
  destruct b; [done|].
  destruct (read_given_char 58 s1) as [[? s2]|]; simpl; [|done].
  destruct (read_given_char 58 s2) as [[? s3]|]; simpl; [|done].
  destruct (read_groups _ 0 s3) as [[tl b'] s4] eqn:E2. apply read_groups_ok in E2 as [Ht Htl].
  intros [= <- _]. apply groups_value_8.
  - rewrite !Forall_app. repeat split; [done| |done].
    apply Forall_replicate. unfold group_ok. lia.
  - rewrite !length_app, length_replicate. lia.
Qed.

Lemma parse_ip_ok s ip : parse_ip s = Some ip -> ip_ok ip.
Proof.
  unfold parse_ip, parse_with, read_ip_addr.
  destruct (read_ipv4_addr s) as [[a [|]]|] eqn:E4; try done.
  - intros [= <-]. by apply read_ipv4_range in E4.
  - destruct (read_ipv6_addr s) as [[a [|]]|] eqn:E6; try done.
    intros [= <-]. by apply read_ipv6_range in E6.
Qed.
