(* ===== verification/IpText.v ===== *)
(** * Printing IP addresses (the [Display] of [std::net])

    The text the program prints for an address, and that reading it back gives the address. *)

From S2P Require Import Prelude Net.

(** [Ipv4Addr]: the octets in decimal. *)
Definition show_ipv4 (v : Z) : bytes := join [46] (map show_dec (be_octets 4 v)).

(** Lower-case hexadecimal, as [{:x}] writes it. *)
Definition hex_char (d : Z) : Z := if d <? 10 then 48 + d else 87 + d.
Fixpoint hex_fuel (fuel : nat) (n : Z) (acc : bytes) : bytes :=
  match fuel with
  | O => acc
  | S k => let acc := hex_char (n mod 16) :: acc in if n <? 16 then acc else hex_fuel k (n / 16) acc
  end.
Definition show_hex16 (n : Z) : bytes := hex_fuel 4 n [].

(** [Ipv6Addr::segments] *)
Fixpoint groups_of (n : nat) (v : Z) : list Z :=
  match n with O => [] | S k => groups_of k (v / 65536) ++ [v mod 65536] end.

(** The longest run of zero segments, the first of them: its start and length. *)
Record Span : Type := { start : nat; span_len : nat }.
Fixpoint zero_span (segments : list Z) (i : nat) (longest current : Span) : Span :=
  match segments with
  | [] => longest
  | segment :: segments =>
      if segment =? 0 then
        let current := {| start := if (span_len current =? 0)%nat then i else start current;
                          span_len := S (span_len current) |} in
        zero_span segments (S i) (if (span_len longest <? span_len current)%nat then current else longest) current
      else zero_span segments (S i) longest {| start := 0; span_len := 0 |}
  end.
Definition no_span : Span := {| start := 0; span_len := 0 |}.

Definition show_segments (l : list Z) : bytes := join [58] (map show_hex16 l).

(** [Ipv6Addr] *)
Definition show_ipv6 (v : Z) : bytes :=
  if v / 2 ^ 32 =? 65535 then lit "::ffff:" ++ show_ipv4 (v mod 2 ^ 32)
  else
    let segments := groups_of 8 v in
    let zeroes := zero_span segments 0 no_span no_span in
    if (1 <? span_len zeroes)%nat then
      show_segments (firstn (start zeroes) segments) ++ [58; 58]
      ++ show_segments (skipn (start zeroes + span_len zeroes) segments)
    else show_segments segments.

(** [IpAddr::to_string] *)
Definition show_ip (a : IpAddr) : bytes := match a with V4 v => show_ipv4 v | V6 v => show_ipv6 v end.

Example shown :
  show_ip (V4 3232235777) = lit "192.168.1.1" /\ show_ip (V6 1) = lit "::1" /\ show_ip (V6 0) = lit "::"
  /\ show_ip (V6 (groups_value [8193; 3512; 0; 1; 0; 0; 0; 171])) = lit "2001:db8:0:1::ab"
  /\ show_ip (V6 (groups_value [1; 0; 3; 4; 5; 6; 7; 8])) = lit "1:0:3:4:5:6:7:8"
  /\ show_ip (V6 (groups_value [0; 0; 0; 0; 0; 65535; 258; 772])) = lit "::ffff:1.2.3.4".
Proof. vm_compute. repeat split. Qed.

(** ** Reading back what is printed *)

(** A text that starts with no digit of the radix. *)
Definition no_digit (radix : Z) (r : bytes) : Prop := match r with [] => True | b :: _ => to_digit radix b = None end.

Lemma take_digits_app radix ds r : forall acc n, no_digit radix r ->
  Forall (fun b => is_Some (to_digit radix b)) ds ->
  take_digits radix acc n (ds ++ r)
  = (fold_left (fun a b => a * radix + default 0 (to_digit radix b)) ds acc, (n + length ds)%nat, r).
Proof.
  induction ds as [|b ds IH]; intros acc n Hr Hds; cbn [app fold_left length].
  - destruct r as [|c r]; cbn; [by rewrite Nat.add_0_r|]. cbn in Hr. rewrite Hr. by rewrite Nat.add_0_r.
  - apply Forall_cons in Hds as [[d Hd] Hds]. cbn [take_digits]. rewrite Hd. cbn [default from_option id]. rewrite IH by done. f_equal. f_equal. lia.
Qed.

Lemma read_number_app radix m allow max ds r v :
  no_digit radix r -> Forall (fun b => is_Some (to_digit radix b)) ds -> ds <> [] ->
  (length ds <= m)%nat -> (allow = false -> (1 < length ds)%nat -> head ds <> Some 48) ->
  fold_left (fun a b => a * radix + default 0 (to_digit radix b)) ds 0 = v -> v <= max ->
  read_number radix (Some m) allow max (ds ++ r) = Some (v, r).
Proof.
  intros Hr Hds Hne Hm Hz Hv Hmax. unfold read_number. rewrite take_digits_app by done. rewrite Hv. cbn [Nat.add].
  destruct ds as [|b ds]; [done|]. cbn [length app].
  rewrite (proj2 (Nat.eqb_neq _ _)) by lia. rewrite (proj2 (Nat.ltb_ge _ _)) by (cbn [length] in Hm; lia).
  rewrite (proj2 (Z.leb_le _ _)) by lia.
  destruct allow; cbn [negb andb]; [done|]. destruct (Z.eqb_spec b 48) as [->|]; cbn [andb]; [|done].
  destruct (Nat.ltb_spec 1 (S (length ds))) as [Hl|Hl]; [|done]. by destruct (Hz eq_refl).
Qed.

(** All octets, checked one by one. *)
Definition octet_shown (v : Z) : bool :=
  forallb (fun b => bool_decide (is_Some (to_digit 10 b))) (show_dec v) && negb (is_empty (show_dec v))
  && (length (show_dec v) <=? 3)%nat
  && ((length (show_dec v) <=? 1)%nat || negb (bool_decide (head (show_dec v) = Some 48)))
  && (fold_left (fun a b => a * 10 + default 0 (to_digit 10 b)) (show_dec v) 0 =? v).

Lemma in_seqZ_forallb (P : Z -> bool) n v : forallb P (seqZ 0 n) = true -> 0 <= v < n -> P v = true.
Proof. intros H Hv. rewrite forallb_forall in H. apply H, list_elem_of_In, elem_of_seqZ. lia. Qed.

Lemma octet_shown_all v : is_byte v -> octet_shown v = true.
Proof. intros Hv. apply (in_seqZ_forallb _ 256); [vm_compute; reflexivity|exact Hv]. Qed.

Lemma read_octet_shown i v r : is_byte v -> no_digit 10 r ->
  read_octet i ((match i with O => [] | S _ => [46] end) ++ show_dec v ++ r) = Some (v, r).
Proof.
  intros Hv Hr. unfold read_octet, read_separator.
  assert (read_number 10 (Some 3%nat) false u8_max (show_dec v ++ r) = Some (v, r)) as Hn.
  { pose proof (octet_shown_all v Hv) as Ho. unfold octet_shown in Ho. rewrite !andb_true_iff in Ho.
    destruct Ho as ((((Hd & He) & Hl) & Hz) & Hval). apply (read_number_app 10); [exact Hr| | | | | |].
    - rewrite forallb_forall in Hd. apply Forall_forall. intros b Hb. apply list_elem_of_In in Hb.
      by apply Hd, bool_decide_eq_true in Hb.
    - by destruct (show_dec v).
    - by apply Nat.leb_le.
    - intros _ Hlen. apply orb_true_iff in Hz as [Hz|Hz]; [apply Nat.leb_le in Hz; lia|].
      by apply negb_true_iff, bool_decide_eq_false in Hz.
    - by apply Z.eqb_eq.
    - unfold is_byte, u8_max in *. lia. }
  destruct i; [exact Hn|]. cbn. exact Hn.
Qed.

Lemma dot_no_digit s : no_digit 10 (46 :: s).
Proof. reflexivity. Qed.

Lemma is_byte_mod v : is_byte (v mod 256).
Proof. apply Z.mod_pos_bound. lia. Qed.

Lemma read_shown_ipv4 v r : 0 <= v < 2 ^ 32 -> no_digit 10 r -> read_ipv4_addr (show_ipv4 v ++ r) = Some (v, r).
Proof.
  intros Hv Hr. unfold show_ipv4. cbn [be_octets app map join]. unfold read_ipv4_addr.
  repeat (rewrite <- app_assoc; cbn [app]).
  pose proof (read_octet_shown 0 (v / 256 / 256 / 256 mod 256)) as H0. cbn [app] in H0.
  pose proof (read_octet_shown 1 (v / 256 / 256 mod 256)) as H1. cbn [app] in H1.
  pose proof (read_octet_shown 2 (v / 256 mod 256)) as H2. cbn [app] in H2.
  pose proof (read_octet_shown 3 (v mod 256)) as H3. cbn [app] in H3.
  rewrite H0 by (apply is_byte_mod || apply dot_no_digit). cbn [mbind option_bind].
  rewrite H1 by (apply is_byte_mod || apply dot_no_digit). cbn [mbind option_bind].
  rewrite H2 by (apply is_byte_mod || apply dot_no_digit). cbn [mbind option_bind].
  rewrite H3 by (apply is_byte_mod || done). cbn [mbind option_bind]. f_equal. f_equal.
  rewrite (Z.mod_small (v / 256 / 256 / 256)) by (rewrite !Z.div_div by lia; split; [apply Z.div_pos|apply Z.div_lt_upper_bound]; lia).
  pose proof (Z.div_mod v 256 ltac:(lia)). pose proof (Z.div_mod (v / 256) 256 ltac:(lia)).
  pose proof (Z.div_mod (v / 256 / 256) 256 ltac:(lia)). lia.
Qed.

(** *** Sixteen-bit groups *)

Definition hex_value (ds : bytes) : Z := fold_left (fun a b => a * 16 + default 0 (to_digit 16 b)) ds 0.

Lemma hex_char_digit d : 0 <= d < 16 -> to_digit 16 (hex_char d) = Some d.
Proof.
  intros Hd. pose (P := fun d => match to_digit 16 (hex_char d) with Some e => e =? d | None => false end).
  assert (P d = true) as H by (apply (in_seqZ_forallb P 16); [vm_compute; reflexivity|done]).
  unfold P in H. destruct (to_digit 16 (hex_char d)); [|done]. by apply Z.eqb_eq in H as ->.
Qed.

Lemma hex_char_not_dot d : 0 <= d < 16 -> hex_char d <> 46.
Proof. unfold hex_char. destruct (d <? 10) eqn:E; lia. Qed.

Lemma hex_fuel_S fuel n acc : hex_fuel (S fuel) n acc
  = if n <? 16 then hex_char (n mod 16) :: acc else hex_fuel fuel (n / 16) (hex_char (n mod 16) :: acc).
Proof. reflexivity. Qed.

Lemma hex_fuel_spec fuel : forall n acc, 0 <= n < 16 ^ Z.of_nat (S fuel) ->
  exists ds, hex_fuel (S fuel) n acc = ds ++ acc /\ ds <> [] /\ (length ds <= S fuel)%nat
    /\ Forall (fun b => is_Some (to_digit 16 b)) ds /\ (46 ∉ ds) /\ hex_value ds = n.
Proof.
  induction fuel as [|fuel IH]; intros n acc Hn.
  all: assert (0 <= n mod 16 < 16) as Hm by (apply Z.mod_pos_bound; lia).
  all: assert (to_digit 16 (hex_char (n mod 16)) = Some (n mod 16)) as Hd by (apply hex_char_digit; exact Hm).
  all: pose proof (hex_char_not_dot _ Hm) as Hdot.
  - exists [hex_char (n mod 16)]. rewrite hex_fuel_S. destruct (n <? 16); (split; [done|]).
    all: split; [done|]; split; [cbn; lia|]; split; [by repeat constructor|]; split; [rewrite list_elem_of_singleton; done|].
    all: unfold hex_value; cbn [fold_left]; rewrite Hd; cbn [default from_option id]; change (16 ^ Z.of_nat 1) with 16 in Hn; rewrite Z.mod_small; lia.
  - rewrite hex_fuel_S. destruct (Z.ltb_spec n 16) as [Hs|Hs].
    + exists [hex_char (n mod 16)]. split; [done|]. split; [done|]. split; [cbn; lia|]. split; [by repeat constructor|].
      split; [rewrite list_elem_of_singleton; done|]. unfold hex_value. cbn [fold_left]. rewrite Hd. cbn [default from_option id]. rewrite Z.mod_small; lia.
    + destruct (IH (n / 16) (hex_char (n mod 16) :: acc)) as (ds & -> & Hne & Hl & Hf & Hnd & Hv).
      { split; [apply Z.div_pos; lia|]. apply Z.div_lt_upper_bound; [lia|].
        rewrite <- Z.pow_succ_r by lia. rewrite <- Nat2Z.inj_succ. apply Hn. }
      exists (ds ++ [hex_char (n mod 16)]). split; [by rewrite <- app_assoc|].
      split; [by destruct ds|]. split; [rewrite length_app; cbn; lia|].
      split; [apply Forall_app; split; [done|by repeat constructor]|].
      split; [rewrite elem_of_app, list_elem_of_singleton; intros [?|?]; [done|by apply Hdot]|].
      unfold hex_value in *. rewrite fold_left_app, Hv. cbn [fold_left]. rewrite Hd. cbn [default from_option id].
      pose proof (Z.div_mod n 16 ltac:(lia)). lia.
Qed.

Definition no_hex (r : bytes) : Prop := no_digit 16 r.

Lemma read_shown_group g r : group_ok g -> no_hex r ->
  read_number 16 (Some 4%nat) true u16_max (show_hex16 g ++ r) = Some (g, r).
Proof.
  intros Hg Hr. destruct (hex_fuel_spec 3 g []) as (ds & Hs & Hne & Hl & Hf & _ & Hv); [exact Hg|].
  unfold show_hex16. rewrite Hs, app_nil_r. apply (read_number_app 16); try done. unfold group_ok, u16_max in *. lia.
Qed.

Lemma group_no_dot g : group_ok g -> 46 ∉ show_hex16 g.
Proof.
  intros Hg. destruct (hex_fuel_spec 3 g []) as (ds & Hs & _ & _ & _ & Hd & _); [exact Hg|].
  unfold show_hex16. by rewrite Hs, app_nil_r.
Qed.

Lemma read_given c r : read_given_char c (c :: r) = Some (tt, r).
Proof. unfold read_given_char. by rewrite Z.eqb_refl. Qed.

(** Nothing without a dot is an IPv4 address. *)
Lemma take_digits_rest radix s : forall acc n v k r, take_digits radix acc n s = (v, k, r) -> 46 ∉ s -> 46 ∉ r.
Proof.
  induction s as [|b s IH]; intros acc n v k r; cbn [take_digits]; [intros [= _ _ <-]; done|].
  destruct (to_digit radix b); [|intros [= _ _ <-]; done]. intros H Hn. apply (IH _ _ _ _ _ H). set_solver.
Qed.

Lemma no_ipv4 s : 46 ∉ s -> read_ipv4_addr s = None.
Proof.
  intros Hs. unfold read_ipv4_addr. destruct (read_octet 0 s) as [[v r]|] eqn:E; [|done]. cbn [mbind option_bind].
  assert (46 ∉ r) as Hr.
  { unfold read_octet, read_separator, read_number in E. destruct (take_digits 10 0 0 s) as [[w n] q] eqn:Et.
    apply (take_digits_rest 10 s _ _ _ _ _ Et) in Hs. repeat case_match; simplify_eq; done. }
  assert (read_octet 1 r = None) as ->; [|done]. destruct r as [|b r]; [done|].
  unfold read_octet, read_separator, read_given_char. destruct (Z.eqb_spec b 46) as [->|]; [set_solver|done].
Qed.

(** *** Groups and runs *)

(** What may follow a printed address: nothing, or the two colons. *)
Definition stops (r : bytes) : Prop := r = [] \/ exists q, r = 58 :: 58 :: q.

Definition sep_groups (gs : list Z) : bytes := flat_map (fun g => 58 :: show_hex16 g) gs.

Lemma show_segments_cons g gs : show_segments (g :: gs) = show_hex16 g ++ sep_groups gs.
Proof.
  unfold show_segments. revert g. induction gs as [|h gs IH]; intros g; [cbn; by rewrite app_nil_r|].
  change (show_hex16 g ++ [58] ++ join [58] (map show_hex16 (h :: gs)) = show_hex16 g ++ sep_groups (h :: gs)).
  rewrite IH. reflexivity.
Qed.

Lemma sep_no_dot gs : Forall group_ok gs -> 46 ∉ sep_groups gs.
Proof.
  induction 1 as [|g gs Hg _ IH]; [apply not_elem_of_nil|].
  change (46 ∉ 58 :: show_hex16 g ++ sep_groups gs). rewrite elem_of_cons, elem_of_app. intros [?|[?|?]]; [done|by apply (group_no_dot g)|by apply IH].
Qed.

Lemma show_segments_no_dot gs : Forall group_ok gs -> 46 ∉ show_segments gs.
Proof.
  destruct gs as [|g gs]; [intros _; apply not_elem_of_nil|]. intros [Hg Hgs]%Forall_cons.
  rewrite show_segments_cons, elem_of_app. intros [?|?]; [by apply (group_no_dot g)|by apply (sep_no_dot gs)].
Qed.

Lemma read_sep_groups gs : forall limit i r, (length gs <= limit)%nat -> Forall group_ok gs -> stops r -> 46 ∉ r ->
  read_groups limit (S i) (sep_groups gs ++ r) = (gs, false, r).
Proof.
  induction gs as [|g gs IH]; intros limit i r Hl Hgs Hr Hd.
  - cbn [sep_groups flat_map app]. destruct limit as [|[|limit]]; [done|..];
      destruct Hr as [-> | [q ->]]; try reflexivity; cbn -[read_ipv4_addr read_number];
      rewrite ?no_ipv4 by set_solver; reflexivity.
  - apply Forall_cons in Hgs as [Hg Hgs]. destruct limit as [|limit]; [cbn in Hl; lia|].
    change (sep_groups (g :: gs) ++ r) with (58 :: (show_hex16 g ++ sep_groups gs) ++ r).
    rewrite <- app_assoc. cbn [read_groups read_separator]. rewrite !read_given.
    assert (46 ∉ show_hex16 g ++ sep_groups gs ++ r) as Hn.
    { rewrite !elem_of_app. intros [?|[?|?]]; [by apply (group_no_dot g)|by apply (sep_no_dot gs)|done]. }
    rewrite no_ipv4 by exact Hn.
    rewrite read_shown_group by (done || (destruct gs; [destruct Hr as [-> | [q ->]]|]; reflexivity)).
    rewrite IH by (done || (cbn in Hl; lia)). by destruct limit.
Qed.

Lemma read_shown_segments gs limit r : (length gs <= limit)%nat -> Forall group_ok gs -> stops r -> 46 ∉ r ->
  read_groups limit 0 (show_segments gs ++ r) = (gs, false, r).
Proof.
  intros Hl Hgs Hr Hd. destruct gs as [|g gs].
  - destruct limit as [|[|limit]]; [done|..]; destruct Hr as [-> | [q ->]]; try reflexivity;
      cbn -[read_ipv4_addr read_number]; rewrite ?no_ipv4 by set_solver; reflexivity.
  - apply Forall_cons in Hgs as [Hg Hgs]. destruct limit as [|limit]; [cbn in Hl; lia|].
    rewrite show_segments_cons, <- app_assoc. cbn [read_groups read_separator].
    rewrite no_ipv4.
    2: { rewrite !elem_of_app. intros [?|[?|?]]; [by apply (group_no_dot g)|by apply (sep_no_dot gs)|done]. }
    rewrite read_shown_group by (done || (destruct gs; [destruct Hr as [-> | [q ->]]|]; reflexivity)).
    rewrite read_sep_groups by (done || (cbn in Hl; lia)). by destruct limit.
Qed.

Lemma groups_of_spec n : forall v, 0 <= v < 65536 ^ Z.of_nat n ->
  groups_value (groups_of n v) = v /\ Forall group_ok (groups_of n v) /\ length (groups_of n v) = n.
Proof.
  induction n as [|n IH]; intros v Hv; [cbn in *; repeat split; [lia|constructor]|].
  destruct (IH (v / 65536)) as (Hval & Hok & Hl).
  { split; [apply Z.div_pos; lia|]. apply Z.div_lt_upper_bound; [lia|].
    rewrite <- Z.pow_succ_r by lia. rewrite <- Nat2Z.inj_succ. apply Hv. }
  cbn [groups_of]. split; [|split].
  - unfold groups_value in *. rewrite fold_left_app, Hval. cbn [fold_left]. pose proof (Z.div_mod v 65536 ltac:(lia)). lia.
  - apply Forall_app. split; [done|]. constructor; [|constructor]. apply Z.mod_pos_bound. lia.
  - rewrite length_app, Hl. cbn. lia.
Qed.

(** A span of a list holds zeros only. *)
Definition span_ok (l : list Z) (s : Span) : Prop :=
  (start s + span_len s <= length l)%nat
  /\ forall k, (start s <= k < start s + span_len s)%nat -> l !! k = Some 0.

Lemma zero_span_ok segs : forall pre longest current,
  span_ok (pre ++ segs) longest -> span_ok (pre ++ segs) current ->
  (span_len current <> 0 -> start current + span_len current = length pre)%nat ->
  span_ok (pre ++ segs) (zero_span segs (length pre) longest current).
Proof.
  induction segs as [|g segs IH]; intros pre longest current Hl Hc Hi; cbn [zero_span]; [done|].
  specialize (IH (pre ++ [g])). rewrite length_app, Nat.add_1_r, <- app_assoc in IH. cbn [app] in IH.
  assert (span_ok (pre ++ g :: segs) no_span) as H0 by (split; cbn; lia).
  destruct (Z.eqb_spec g 0) as [->|]; [|apply IH; [done|exact H0|done]].
  set (cur := {| start := if (span_len current =? 0)%nat then length pre else start current; span_len := S (span_len current) |}).
  assert (start cur + span_len cur = S (length pre))%nat as Hend.
  { unfold cur. cbn [start span_len]. destruct (Nat.eqb_spec (span_len current) 0); [lia|]. rewrite <- Hi by done. lia. }
  assert (span_ok (pre ++ 0 :: segs) cur) as Hcur.
  { split; [rewrite Hend, length_app; cbn [length]; lia|]. intros k Hk.
    destruct (Nat.eq_dec k (length pre)) as [->|Hne].
    - rewrite lookup_app_r, Nat.sub_diag by lia. reflexivity.
    - apply (proj2 Hc). unfold cur in *. cbn [start span_len] in *. destruct (Nat.eqb_spec (span_len current) 0); lia. }
  apply IH; [by destruct (_ <? _)%nat|exact Hcur|]. intros _. exact Hend.
Qed.

Lemma span_split l s : span_ok l s ->
  l = firstn (start s) l ++ replicate (span_len s) 0 ++ skipn (start s + span_len s) l.
Proof.
  intros [Hle Hz]. rewrite <- (firstn_skipn (start s) l) at 1. f_equal.
  rewrite <- (firstn_skipn (span_len s) (skipn (start s) l)). rewrite skipn_skipn, (Nat.add_comm (span_len s)).
  f_equal. apply list_eq_same_length with (span_len s).
  - by rewrite length_replicate.
  - rewrite length_firstn, length_skipn. lia.
  - intros k a b Hk Ha Hb. rewrite lookup_take_lt, lookup_drop in Ha by lia. rewrite Hz in Ha by lia.
    rewrite lookup_replicate_2 in Hb by lia. congruence.
Qed.

Lemma two_colons_no_dot gs : Forall group_ok gs -> 46 ∉ 58 :: 58 :: show_segments gs.
Proof. intros Hgs. pose proof (show_segments_no_dot gs Hgs). rewrite !elem_of_cons. naive_solver. Qed.

Lemma read_elided before zeros after : Forall group_ok before -> Forall group_ok after ->
  (1 < zeros)%nat -> (length before + zeros + length after = 8)%nat ->
  read_ipv6_addr (show_segments before ++ [58; 58] ++ show_segments after)
  = Some (groups_value (before ++ replicate zeros 0 ++ after), []).
Proof.
  intros Hb Ha Hz Hl. unfold read_ipv6_addr. cbn [app].
  rewrite read_shown_segments by first [lia | done | by right; eauto | by apply two_colons_no_dot].
  rewrite (proj2 (Nat.eqb_neq _ _)) by lia. rewrite read_given. cbn [mbind option_bind]. rewrite read_given. cbn [mbind option_bind].
  pose proof (read_shown_segments after (8 - (length before + 1)) []) as Hr. rewrite app_nil_r in Hr.
  rewrite Hr by first [lia | done | by left | apply not_elem_of_nil].
  by replace (8 - length before - length after)%nat with zeros by lia.
Qed.

Lemma read_mapped w : 0 <= w < 2 ^ 32 ->
  read_ipv6_addr (lit "::ffff:" ++ show_ipv4 w) = Some (65535 * 2 ^ 32 + w, []).
Proof.
  intros Hw. unfold read_ipv6_addr. change (lit "::ffff:" ++ show_ipv4 w) with (58 :: 58 :: show_hex16 65535 ++ 58 :: show_ipv4 w).
  change (read_groups 8 0 (58 :: 58 :: show_hex16 65535 ++ 58 :: show_ipv4 w))
    with ([] : list Z, false, 58 :: 58 :: show_hex16 65535 ++ 58 :: show_ipv4 w).
  cbn [length Nat.eqb]. rewrite !read_given. cbn [mbind option_bind]. rewrite !read_given. cbn [mbind option_bind].
  assert (read_groups (8 - (0 + 1)) 0 (show_hex16 65535 ++ 58 :: show_ipv4 w) = ([65535; w / 65536; w mod 65536], true, [])) as ->.
  { change (8 - (0 + 1))%nat with 7%nat. cbn [read_groups read_separator].
    change (read_ipv4_addr (show_hex16 65535 ++ 58 :: show_ipv4 w)) with (@None (Z * bytes)).
    rewrite read_shown_group by (done || (unfold group_ok; lia)). rewrite read_given.
    pose proof (read_shown_ipv4 w [] Hw I) as Hr. rewrite app_nil_r in Hr. by rewrite Hr. }
  unfold groups_value. cbn [length Nat.sub replicate app fold_left]. do 2 f_equal.
  pose proof (Z.div_mod w 65536 ltac:(lia)). lia.
Qed.

Lemma read_shown_ipv6 v : 0 <= v < 2 ^ 128 -> read_ipv6_addr (show_ipv6 v) = Some (v, []).
Proof.
  intros Hv. unfold show_ipv6. destruct (Z.eqb_spec (v / 2 ^ 32) 65535) as [Hm|Hm].
  - rewrite read_mapped by (apply Z.mod_pos_bound; lia). do 2 f_equal. pose proof (Z.div_mod v (2 ^ 32) ltac:(lia)). lia.
  - destruct (groups_of_spec 8 v) as (Hval & Hok & Hl); [exact Hv|].
    set (gs := groups_of 8 v) in *. set (z := zero_span gs 0 no_span no_span).
    assert (span_ok gs z) as Hz by (apply (zero_span_ok gs []); [split; cbn; lia..|done]).
    destruct (Nat.ltb_spec 1 (span_len z)) as [Hlen|Hlen].
    + pose proof (span_split gs z Hz) as Hs. destruct Hz as [Hle _].
      rewrite (read_elided _ (span_len z)).
      * by rewrite <- Hs, Hval.
      * by apply Forall_take.
      * by apply Forall_drop.
      * exact Hlen.
      * rewrite length_firstn, length_skipn. lia.
    + unfold read_ipv6_addr. pose proof (read_shown_segments gs 8 []) as Hr. rewrite app_nil_r in Hr.
      rewrite Hr by first [lia | done | by left | apply not_elem_of_nil]. rewrite Hl, Hval. reflexivity.
Qed.

Lemma shown_ipv6_not_ipv4 v : 0 <= v < 2 ^ 128 -> read_ipv4_addr (show_ipv6 v) = None.
Proof.
  intros Hv. unfold show_ipv6. destruct (_ =? _); [reflexivity|].
  destruct (groups_of_spec 8 v) as (_ & Hok & _); [exact Hv|]. apply no_ipv4.
  destruct (1 <? _)%nat; [|by apply show_segments_no_dot]. rewrite elem_of_app. intros [H|H].
  - revert H. apply show_segments_no_dot. by apply Forall_take.
  - revert H. apply two_colons_no_dot. by apply Forall_drop.
Qed.

(** What the program prints of an address reads back as the address. *)
Lemma parse_shown_ip a : ip_ok a -> parse_ip (show_ip a) = Some a.
Proof.
  intros Ha. unfold parse_ip, parse_with, read_ip_addr. destruct a as [v|v]; cbn [show_ip ip_ok] in *.
  - pose proof (read_shown_ipv4 v [] Ha I) as Hr. rewrite app_nil_r in Hr. by rewrite Hr.
  - by rewrite shown_ipv6_not_ipv4, read_shown_ipv6.
Qed.

(** The address of a socket address that was read is an address. *)
Lemma parse_socket_ok s a : parse_socket_addr s = Some a -> ip_ok (socket_ip a).
Proof.
  unfold parse_socket_addr, parse_with, read_socket_addr. intros E.
  destruct (read_socket_addr_v4 s) as [[x r]|] eqn:E4.
  - destruct r; [|done]. injection E as ->. unfold read_socket_addr_v4 in E4.
    destruct (read_ipv4_addr s) as [[ip r]|] eqn:Er; [|done]. cbn [mbind option_bind] in E4.
    destruct (read_port r) as [[p q]|]; [|done]. injection E4 as <- _. apply (read_ipv4_range _ _ _ Er).
  - destruct (read_socket_addr_v6 s) as [[x r]|] eqn:E6; [|done]. destruct r; [|done]. injection E as ->.
    unfold read_socket_addr_v6 in E6. destruct (read_given_char 91 s) as [[? s1]|]; [|done]. cbn [mbind option_bind] in E6.
    destruct (read_ipv6_addr s1) as [[ip s2]|] eqn:Er; [|done]. cbn [mbind option_bind] in E6.
    destruct (match read_scope_id s2 with Some (v, r) => (v, r) | None => (0, s2) end) as [scope s3].
    destruct (read_given_char 93 s3) as [[? s4]|]; [|done]. cbn [mbind option_bind] in E6.
    destruct (read_port s4) as [[p q]|]; [|done]. injection E6 as <- _. apply (read_ipv6_range _ _ _ Er).
Qed.
