(* ===== verification/ClientIp.v ===== *)
(** * Client identity ([src/client_ip.rs])

    Which address a request is attributed to (trusted proxies, [X-Forwarded-For],
    [Forwarded], an extra header) and the risk identity that the rate limiter, the
    behaviour score and the abuse engine key their state with.

    [std::hash::DefaultHasher] has no specified output: the hash of a string is the
    operation of the class [StrHash].  Environment variables are a function from names
    to values. *)

From S2P Require Import Prelude Net.

(** [DefaultHasher]: a function of the string into [u64]. *)
Class StrHash : Type := {
  str_hash : bytes -> Z;
  str_hash_u64 : forall s, 0 <= str_hash s <= u64_max;
}.

(** [src/client_ip.rs: struct SiteClientKey] *)
Record SiteClientKey : Type := { key_site : bytes; key_network : IpAddr }.

#[export] Instance SiteClientKey_eq_dec : EqDecision SiteClientKey.
Proof. solve_decision. Defined.
#[export] Program Instance SiteClientKey_countable : Countable SiteClientKey :=
  inj_countable' (fun k => (key_site k, key_network k))
                 (fun p => {| key_site := p.1; key_network := p.2 |}) _.
Next Obligation. by intros []. Qed.

(** [src/client_ip.rs: struct RiskIdentity] *)
Record RiskIdentity : Type := {
  site : bytes;
  network : IpAddr;
  route : bytes;
  session_hash : option Z;
  api_key_hash : option Z;
  jwt_sub_hash : option Z;
  jwt_tenant_hash : option Z;
  tls_fingerprint : option Z;
  http_fingerprint : option Z;
  asn : option Z;
}.

(** [src/client_ip.rs: fn risk_network] *)
Definition risk_network (ip : IpAddr) : IpAddr :=
  match ip with
  | V4 _ => ip
  | V6 v => V6 (Z.land v (Z.shiftl (2 ^ 128 - 1) 64 mod 2 ^ 128))
  end.

(** [src/client_ip.rs: SiteClientKey::new] *)
Definition site_client_key (site : bytes) (ip : IpAddr) : SiteClientKey :=
  {| key_site := to_ascii_lowercase site; key_network := risk_network ip |}.

(** [src/client_ip.rs: fn route_group] *)
Definition route_group (uri : bytes) : bytes :=
  let segments := base.filter (fun s => is_empty s = false) (split_on 47 (before 63 uri)) in
  match segments with
  | first :: second :: _ => ("/" : bytes) ++ first ++ ("/" : bytes) ++ second
  | [first] => ("/" : bytes) ++ first
  | [] => "/"
  end.

(** [src/client_ip.rs: fn bounded_hash] *)
Definition bounded_hash `{StrHash} (value : option bytes) : option Z :=
  match value with
  | Some v =>
      let v := trim v in
      if is_empty v then None
      else if 512 <? len v then None
      else Some (str_hash v)
  | None => None
  end.

(** [src/client_ip.rs: RiskIdentity::new] *)
Definition risk_identity `{StrHash} (site : bytes) (ip : IpAddr) (uri : bytes)
    (session_id api_key : option bytes) : RiskIdentity := {|
  site := to_ascii_lowercase site;
  network := risk_network ip;
  route := route_group uri;
  session_hash := bounded_hash session_id;
  api_key_hash := bounded_hash api_key;
  jwt_sub_hash := None;
  jwt_tenant_hash := None;
  tls_fingerprint := None;
  http_fingerprint := None;
  asn := None;
|}.

(** [src/client_ip.rs: RiskIdentity::set_jwt] *)
Definition set_jwt `{StrHash} (sub tenant : option bytes) (i : RiskIdentity) : RiskIdentity := {|
  site := site i; network := network i; route := route i;
  session_hash := session_hash i; api_key_hash := api_key_hash i;
  jwt_sub_hash := bounded_hash sub;
  jwt_tenant_hash := bounded_hash tenant;
  tls_fingerprint := tls_fingerprint i; http_fingerprint := http_fingerprint i; asn := asn i;
|}.

Definition filter_nonzero (o : option Z) : option Z :=
  match o with Some v => if v =? 0 then None else Some v | None => None end.

(** [src/client_ip.rs: RiskIdentity::set_fingerprints] *)
Definition set_fingerprints (tls http : option Z) (i : RiskIdentity) : RiskIdentity := {|
  site := site i; network := network i; route := route i;
  session_hash := session_hash i; api_key_hash := api_key_hash i;
  jwt_sub_hash := jwt_sub_hash i; jwt_tenant_hash := jwt_tenant_hash i;
  tls_fingerprint := filter_nonzero tls;
  http_fingerprint := filter_nonzero http;
  asn := asn i;
|}.

(** [src/client_ip.rs: RiskIdentity::set_asn] *)
Definition set_asn (a : option Z) (i : RiskIdentity) : RiskIdentity := {|
  site := site i; network := network i; route := route i;
  session_hash := session_hash i; api_key_hash := api_key_hash i;
  jwt_sub_hash := jwt_sub_hash i; jwt_tenant_hash := jwt_tenant_hash i;
  tls_fingerprint := tls_fingerprint i; http_fingerprint := http_fingerprint i;
  asn := filter_nonzero a;
|}.

(** [src/client_ip.rs: RiskIdentity::preferred_fingerprint] *)
Definition preferred_fingerprint (i : RiskIdentity) : option Z :=
  match tls_fingerprint i with Some v => Some v | None => http_fingerprint i end.

(** [src/client_ip.rs: RiskIdentity::network_key] *)
Definition network_key (i : RiskIdentity) : SiteClientKey :=
  {| key_site := site i; key_network := network i |}.

(** ** Trusted networks *)

(** [src/client_ip.rs: enum IpNetwork] *)
Inductive IpNetwork : Set :=
| NetV4 (network mask : Z)
| NetV6 (network mask : Z).

(** [src/client_ip.rs: struct TrustedProxies] *)
Record TrustedProxies : Type := { networks : list IpNetwork }.

(** [src/client_ip.rs: IpNetwork::contains] *)
Definition network_contains (n : IpNetwork) (ip : IpAddr) : bool :=
  match n, ip with
  | NetV4 network mask, V4 ip => Z.land ip mask =? network
  | NetV6 network mask, V6 ip => Z.land ip mask =? network
  | _, _ => false
  end.

Inductive NetworkError : Type :=
| InvalidIp (value : bytes)
| InvalidPrefix (value : bytes).

(** [src/client_ip.rs: fn parse_prefix] *)
Definition parse_prefix (prefix : option bytes) (max : Z) (value : bytes)
  : result NetworkError Z :=
  p ← match prefix with
      | Some p => ok_or (InvalidPrefix value) (parse_uint u8_max p)
      | None => Ok max
      end;
  if max <? p then Err (InvalidPrefix value) else Ok p.

(** [src/client_ip.rs: fn prefix_mask_v4] *)
Definition prefix_mask_v4 (prefix : Z) : Z :=
  if prefix =? 0 then 0 else Z.shiftl u32_max (32 - prefix) mod 2 ^ 32.

(** [src/client_ip.rs: fn prefix_mask_v6] *)
Definition prefix_mask_v6 (prefix : Z) : Z :=
  if prefix =? 0 then 0 else Z.shiftl (2 ^ 128 - 1) (128 - prefix) mod 2 ^ 128.

(** [src/client_ip.rs: fn parse_network] *)
Definition parse_network (value : bytes) : result NetworkError IpNetwork :=
  let '(address, prefix) :=
    match split_once 47 value with
    | Some (ip, prefix) => (ip, Some prefix)
    | None => (value, None)
    end in
  ip ← ok_or (InvalidIp value) (parse_ip address);
  match ip with
  | V4 ip =>
      prefix ← parse_prefix prefix 32 value;
      let mask := prefix_mask_v4 prefix in
      Ok (NetV4 (Z.land ip mask) mask)
  | V6 ip =>
      prefix ← parse_prefix prefix 128 value;
      let mask := prefix_mask_v6 prefix in
      Ok (NetV6 (Z.land ip mask) mask)
  end.

(** [src/client_ip.rs: TrustedProxies::parse] *)
Definition trusted_parse (value : bytes) : result NetworkError TrustedProxies :=
  networks ← collect parse_network
    (base.filter (fun e => is_empty e = false) (map trim (split_on 44 value)));
  Ok {| networks := networks |}.

(** [src/client_ip.rs: TrustedProxies::from_env] *)
Definition trusted_from_env (env : Env) : result NetworkError TrustedProxies :=
  trusted_parse (default [] (env "TRUSTED_PROXIES")).

(** [src/client_ip.rs: TrustedProxies::contains] *)
Definition trusted_contains (t : TrustedProxies) (ip : IpAddr) : bool :=
  existsb (fun n => network_contains n ip) (networks t).

(** [src/client_ip.rs: TrustedProxies::is_empty] *)
Definition trusted_is_empty (t : TrustedProxies) : bool := is_empty (networks t).

(** [src/client_ip.rs: TrustedProxies::is_trusted] *)
Definition is_trusted (t : TrustedProxies) (ip : IpAddr) : bool := trusted_contains t ip.

(** ** Sources of the client address *)

(** [src/client_ip.rs: enum ClientIpSource] *)
Inductive ClientIpSource : Set := ProxyProtocol | Forwarded | XForwardedFor | Header.
#[export] Instance ClientIpSource_eq_dec : EqDecision ClientIpSource.
Proof. solve_decision. Defined.

(** [src/client_ip.rs: enum ForwardedMode] *)
Inductive ForwardedMode : Set := Strip | Accept.
#[export] Instance ForwardedMode_eq_dec : EqDecision ForwardedMode.
Proof. solve_decision. Defined.

(** [src/client_ip.rs: struct ClientIpConfig] *)
Record ClientIpConfig : Type := {
  order : list ClientIpSource;
  forwarded_mode : ForwardedMode;
  extra_header : option bytes;
}.

(** [src/client_ip.rs: ClientIpConfig::default] *)
Definition default_config : ClientIpConfig := {|
  order := [ProxyProtocol; XForwardedFor];
  forwarded_mode := Strip;
  extra_header := None;
|}.

Inductive ConfigError : Type :=
| UnknownSource (token : bytes)
| EmptyOrder
| InvalidForwarded (value : bytes)
| HeaderNotDefined.

(** [src/client_ip.rs: fn parse_client_ip_order] *)
Definition parse_client_ip_order (raw : bytes) : result ConfigError (list ClientIpSource) :=
  order ← collect
    (fun token =>
       if token =s "proxy_protocol" then Ok ProxyProtocol
       else if token =s "forwarded" then Ok Forwarded
       else if token =s "x-forwarded-for" then Ok XForwardedFor
       else if token =s "header" then Ok Header
       else Err (UnknownSource token))
    (base.filter (fun t => is_empty t = false) (map trim (split_on 44 raw)));
  if is_empty order then Err EmptyOrder else Ok order.

(** [src/client_ip.rs: const DEFAULT_CLIENT_IP_ORDER] *)
Definition DEFAULT_CLIENT_IP_ORDER : bytes := "proxy_protocol,x-forwarded-for".

(** [src/client_ip.rs: ClientIpConfig::from_env] *)
Definition config_from_env (env : Env) : result ConfigError ClientIpConfig :=
  order ← parse_client_ip_order (default DEFAULT_CLIENT_IP_ORDER (env "CLIENT_IP_ORDER"));
  let f := to_ascii_lowercase (trim (default ("strip" : bytes) (env "FORWARDED_HEADER"))) in
  forwarded ← (if f =s "strip" then Ok Strip
               else if f =s "accept" then Ok Accept
               else Err (InvalidForwarded f));
  let extra_header :=
    match env "CLIENT_IP_HEADER" with
    | Some value => let v := trim value in if is_empty v then None else Some v
    | None => None
    end in
  if bool_decide (Header ∈ order) && bool_decide (extra_header = None)
  then Err HeaderNotDefined
  else Ok {| order := order; forwarded_mode := forwarded; extra_header := extra_header |}.

(** [src/client_ip.rs: fn parse_forwarded_ip] *)
Definition parse_forwarded_ip (value : bytes) : option IpAddr :=
  match parse_ip value with
  | Some ip => Some ip
  | None => socket_ip <$> parse_socket_addr value
  end.

(** [src/client_ip.rs: fn parse_single_ip] *)
Definition parse_single_ip (value : bytes) : option IpAddr := parse_forwarded_ip (trim value).

(** The pieces of a [Forwarded] header: [cur] is the piece read so far. *)
Definition push_piece (piece : bytes) (out : list bytes) : list bytes :=
  let piece := trim piece in if is_empty piece then out else piece :: out.

Fixpoint split_forwarded_loop (quoted : bool) (cur : bytes) (s : bytes) : list bytes :=
  match s with
  | [] => push_piece cur []
  | b :: r =>
      if b =? 34 then split_forwarded_loop (negb quoted) (cur ++ [b]) r
      else if (b =? 44) && negb quoted
      then push_piece cur (split_forwarded_loop quoted [] r)
      else split_forwarded_loop quoted (cur ++ [b]) r
  end.

(** [src/client_ip.rs: fn split_forwarded_elements] *)
Definition split_forwarded_elements (value : bytes) : list bytes :=
  split_forwarded_loop false [] value.

(** [src/client_ip.rs: fn parse_forwarded_for_value] *)
Definition parse_forwarded_for_value (raw : bytes) : option IpAddr :=
  let value :=
    match raw with
    | 34 :: _ :: _ =>
        if ends_with raw [34] then take (length raw - 2) (drop 1 raw) else raw
    | _ => raw
    end in
  if eq_ignore_ascii_case value "unknown" || starts_with value "_" then None
  else match value with
       | 91 :: rest =>
           match split_once 93 rest with
           | Some (inside, _) => parse_ip inside
           | None => None
           end
       | _ => parse_forwarded_ip value
       end.

(** [src/client_ip.rs: fn parse_forwarded_for_param] *)
Definition parse_forwarded_for_param (element : bytes) : option IpAddr :=
  (fix go (pairs : list bytes) :=
     match pairs with
     | [] => None
     | p :: rest =>
         match split_once 61 (trim p) with
         | None => go rest
         | Some (name, raw) =>
             if negb (eq_ignore_ascii_case name "for") then go rest
             else parse_forwarded_for_value (trim raw)
         end
     end) (split_on 59 element).

(** The loop of [walk_xff] and [walk_forwarded]: hops from right to left, while the
    current address is a trusted proxy and the hop parses. *)
Fixpoint walk_hops (trusted : IpAddr -> bool) (parse : bytes -> option IpAddr)
    (client_ip : IpAddr) (hops : list bytes) : IpAddr :=
  match hops with
  | [] => client_ip
  | value :: rest =>
      if negb (trusted client_ip) then client_ip
      else match parse value with
           | None => client_ip
           | Some candidate => walk_hops trusted parse candidate rest
           end
  end.

(** [src/client_ip.rs: TrustedProxies::walk_xff] *)
Definition walk_xff (t : TrustedProxies) (peer_ip : IpAddr) (x_forwarded_for : option bytes)
  : IpAddr :=
  if negb (trusted_contains t peer_ip) then peer_ip
  else match x_forwarded_for with
       | None => peer_ip
       | Some v =>
           walk_hops (trusted_contains t) (fun value => parse_forwarded_ip (trim value))
             peer_ip (rev (split_on 44 v))
       end.

(** [src/client_ip.rs: TrustedProxies::walk_forwarded] *)
Definition walk_forwarded (t : TrustedProxies) (peer_ip : IpAddr) (forwarded : option bytes)
  : IpAddr :=
  if negb (trusted_contains t peer_ip) then peer_ip
  else match forwarded with
       | None => peer_ip
       | Some v =>
           walk_hops (trusted_contains t) parse_forwarded_for_param
             peer_ip (rev (split_forwarded_elements v))
       end.

(** One iteration of the loop of [resolve_sources]. *)
Definition resolve_step (t : TrustedProxies) (x_forwarded_for forwarded extra : option bytes)
    (mode : ForwardedMode) (current : IpAddr) (source : ClientIpSource) : IpAddr :=
  match source with
  | ProxyProtocol => current
  | XForwardedFor => walk_xff t current x_forwarded_for
  | Forwarded =>
      if bool_decide (mode = Accept) then walk_forwarded t current forwarded else current
  | Header =>
      if trusted_contains t current
      then default current (extra ≫= parse_single_ip)
      else current
  end.

(** [src/client_ip.rs: TrustedProxies::resolve_sources] *)
Definition resolve_sources (t : TrustedProxies) (peer_ip : option IpAddr)
    (x_forwarded_for forwarded extra : option bytes) (config : ClientIpConfig)
  : option IpAddr :=
  peer ← peer_ip;
  Some (fold_left (resolve_step t x_forwarded_for forwarded extra (forwarded_mode config))
          (order config) peer).

(** [src/client_ip.rs: TrustedProxies::resolve] *)
Definition resolve (t : TrustedProxies) (peer_ip : option IpAddr)
    (x_forwarded_for : option bytes) : option IpAddr :=
  resolve_sources t peer_ip x_forwarded_for None None default_config.

(** ** Walking the hops *)

Section Walk.
Context (trusted : IpAddr -> bool) (parse : bytes -> option IpAddr).

(** [walk_path client hops r]: [client], the addresses read from the first hops and [r],
    the last of them, form a path whose addresses before [r] are trusted proxies, and
    the walk has a reason to stop at [r]. *)
Definition walk_path (client : IpAddr) (hops : list bytes) (r : IpAddr) : Prop :=
  exists consumed rest passed,
    hops = consumed ++ rest
    /\ Forall2 (fun v ip => parse v = Some ip) consumed (tail (passed ++ [r]))
    /\ hd_error (passed ++ [r]) = Some client
    /\ Forall (fun ip => trusted ip = true) passed
    /\ (trusted r = false \/ rest = [] \/ exists v k, rest = v :: k /\ parse v = None).

Lemma walk_hops_spec hops : forall client, walk_path client hops (walk_hops trusted parse client hops).
Proof.
  induction hops as [|v hops IH]; intros client; simpl.
  - exists [], [], []. repeat split; [constructor|constructor|]. by right; left.
  - destruct (trusted client) eqn:Et; simpl.
    + destruct (parse v) as [c|] eqn:Ep.
      * destruct (IH c) as (consumed & rest & passed & -> & HF & Hhd & HT & Hend).
        exists (v :: consumed), rest, (client :: passed). repeat split; [|by constructor|done].
        simpl. destruct (passed ++ _) as [|x l] eqn:El; simplify_eq/=.
        by constructor.
      * exists [], (v :: hops), []. repeat split; [constructor|constructor|].
        right; right. by exists v, hops.
    + exists [], (v :: hops), []. repeat split; [constructor|constructor|by left].
Qed.

(** Once the walk has reached an address that is not a proxy, hops further to the left
    do not matter. *)
Lemma walk_hops_app hops more : forall client,
  trusted (walk_hops trusted parse client hops) = false ->
  walk_hops trusted parse client (hops ++ more) = walk_hops trusted parse client hops.
Proof.
  induction hops as [|v hops IH]; intros client; simpl.
  - intros Hf. destruct more; simpl; [done|]. by rewrite Hf.
  - destruct (trusted client) eqn:Et; simpl; [|done].
    destruct (parse v); auto.
Qed.

Lemma walk_hops_untrusted client hops :
  trusted client = false -> walk_hops trusted parse client hops = client.
Proof. intros Ht. destruct hops; simpl; [done|]. by rewrite Ht. Qed.
End Walk.

Lemma resolve_step_untrusted t x f e mode ip source :
  trusted_contains t ip = false -> resolve_step t x f e mode ip source = ip.
Proof.
  intros Ht. destruct source; simpl; unfold walk_xff, walk_forwarded; rewrite ?Ht; simpl; try done.
  by case_bool_decide.
Qed.

(** A peer that is not a trusted proxy is the client, whatever the forwarding headers say
    and whichever sources are configured. *)
Theorem resolve_untrusted_peer (t : TrustedProxies) (peer : IpAddr)
    (xff forwarded extra : option bytes) (config : ClientIpConfig) :
  is_trusted t peer = false ->
  resolve_sources t (Some peer) xff forwarded extra config = Some peer.
Proof.
  unfold is_trusted. intros Ht. unfold resolve_sources. simpl. f_equal.
  induction (order config) as [|s l IH]; simpl; [done|].
  by rewrite resolve_step_untrusted.
Qed.

Definition lan : TrustedProxies := {| networks := [NetV4 (10 * 16777216) (prefix_mask_v4 8)] |}.

Lemma resolve_untrusted_peer_witness :
  resolve_sources lan (Some (V4 3405803777)) (Some ("1.2.3.4" : bytes)) None
    (Some ("5.6.7.8" : bytes))
    {| order := [Header; XForwardedFor]; forwarded_mode := Accept; extra_header := None |}
  = Some (V4 3405803777).
Proof. apply resolve_untrusted_peer. reflexivity. Defined.

(** With a trusted peer, the address taken from [X-Forwarded-For] is reached by reading
    hops from the right, each one recorded by a trusted proxy, and the walk stops only at
    an address that is not a proxy, at the end of the header, or at a hop that is not an
    address. *)
Theorem walk_xff_path (t : TrustedProxies) (peer : IpAddr) (v : bytes) :
  is_trusted t peer = true ->
  walk_path (is_trusted t) (fun h => parse_forwarded_ip (trim h)) peer
    (rev (split_on 44 v)) (walk_xff t peer (Some v)).
Proof.
  unfold walk_xff. intros Ht. unfold is_trusted in *. rewrite Ht. simpl. apply walk_hops_spec.
Qed.

Lemma walk_xff_path_witness :
  walk_path (is_trusted lan) (fun h => parse_forwarded_ip (trim h)) (V4 167772161)
    (rev (split_on 44 ("8.8.8.8, 10.0.0.2" : bytes))) (V4 (8 * 16777216 + 8 * 65536 + 8 * 256 + 8)).
Proof.
  apply (walk_xff_path lan (V4 167772161) "8.8.8.8, 10.0.0.2"). reflexivity.
Defined.

(** What a client writes in front of the hops recorded by the proxies cannot change the
    address it is attributed to: if the honest part [s] of the header resolves to an
    address that is not a proxy, then so does [p, s], to the same address. *)
Theorem resolve_xff_prefix_ignored (t : TrustedProxies) (peer : IpAddr) (p s : bytes) :
  is_trusted t (walk_xff t peer (Some s)) = false ->
  resolve t (Some peer) (Some (p ++ 44 :: s)) = resolve t (Some peer) (Some s).
Proof.
  unfold resolve, resolve_sources, walk_xff, is_trusted. simpl. unfold walk_xff.
  destruct (trusted_contains t peer) eqn:Et; simpl; [|done].
  intros Hu. rewrite split_on_app, rev_app_distr, walk_hops_app; done.
Qed.

Lemma resolve_xff_prefix_ignored_witness :
  resolve lan (Some (V4 167772161)) (Some (lit "6.6.6.6" ++ 44 :: lit "8.8.8.8, 10.0.0.2"))
  = Some (V4 (8 * 16777216 + 8 * 65536 + 8 * 256 + 8)).
Proof.
  rewrite (resolve_xff_prefix_ignored lan (V4 167772161) "6.6.6.6" "8.8.8.8, 10.0.0.2");
    vm_compute; reflexivity.
Defined.

(** ** The [Forwarded] header *)

(** Parity of the double quotes of a string. *)
Fixpoint odd_quotes (s : bytes) : bool :=
  match s with [] => false | b :: r => if b =? 34 then negb (odd_quotes r) else odd_quotes r end.

Lemma push_piece_app x l k : push_piece x (l ++ k) = push_piece x l ++ k.
Proof. unfold push_piece. by destruct (is_empty _). Qed.

Lemma split_forwarded_loop_app p s : forall quoted cur,
  xorb quoted (odd_quotes p) = false ->
  split_forwarded_loop quoted cur (p ++ 44 :: s)
  = split_forwarded_loop quoted cur p ++ split_forwarded_loop false [] s.
Proof.
  induction p as [|b p IH]; intros quoted cur; cbn [odd_quotes split_forwarded_loop app].
  - destruct quoted; [done|]. intros _. cbn. apply (push_piece_app cur [] _).
  - destruct (b =? 34) eqn:Eb.
    + intros Hq. apply IH. by destruct quoted, (odd_quotes p).
    + intros Hq. destruct ((b =? 44) && negb quoted) eqn:Ec; [|by apply IH].
      rewrite IH by done. apply push_piece_app.
Qed.

(** The same holds for the [Forwarded] header when the client's part has balanced
    quotes. *)
Theorem walk_forwarded_prefix_ignored (t : TrustedProxies) (peer : IpAddr) (p s : bytes) :
  odd_quotes p = false ->
  is_trusted t (walk_forwarded t peer (Some s)) = false ->
  walk_forwarded t peer (Some (p ++ 44 :: s)) = walk_forwarded t peer (Some s).
Proof.
  unfold walk_forwarded, is_trusted, split_forwarded_elements.
  destruct (trusted_contains t peer) eqn:Et; simpl; [|done].
  intros Hq Hu. rewrite split_forwarded_loop_app by done.
  by rewrite rev_app_distr, walk_hops_app.
Qed.

(** The double quote. *)
Definition dq : bytes := [34].

Lemma walk_forwarded_prefix_ignored_witness :
  walk_forwarded lan (V4 167772161) (Some ((lit "for=" ++ dq ++ lit "6.6.6.6" ++ dq) ++ 44 :: lit " for=8.8.8.8"))
  = V4 (8 * 16777216 + 8 * 65536 + 8 * 256 + 8).
Proof.
  rewrite (walk_forwarded_prefix_ignored lan (V4 167772161)); vm_compute; reflexivity.
Defined.

(** With an unbalanced quote the client's part swallows the hop the proxy recorded: the
    header [for=9.9.9.9;x=] followed by one double quote, to which a trusted proxy appends
    [, for=8.8.8.8], resolves to the address the client chose and not to the one the proxy
    saw. *)
Theorem walk_forwarded_quote_spoof :
  let honest : bytes := " for=8.8.8.8" in
  let client : bytes := lit "for=9.9.9.9;x=" ++ dq in
  let peer := V4 167772161 in
  is_trusted lan peer = true
  /\ walk_forwarded lan peer (Some honest) = V4 (8 * 16777216 + 8 * 65536 + 8 * 256 + 8)
  /\ is_trusted lan (walk_forwarded lan peer (Some honest)) = false
  /\ walk_forwarded lan peer (Some (client ++ 44 :: honest))
     = V4 (9 * 16777216 + 9 * 65536 + 9 * 256 + 9).
Proof. vm_compute. auto. Qed.

(** ** Prefix masks *)

(** The mask of the [p] leading bits of a [w]-bit word. *)
Definition prefix_mask (w p : Z) : Z := Z.shiftl (2 ^ w - 1) (w - p) mod 2 ^ w.

Lemma prefix_mask_testbit w p i : 0 <= p <= w -> 0 <= i ->
  Z.testbit (prefix_mask w p) i = (w - p <=? i) && (i <? w).
Proof.
  intros Hp Hi. unfold prefix_mask. rewrite <- Z.land_ones by lia.
  rewrite Z.land_spec, Z.shiftl_spec by lia.
  replace (2 ^ w - 1) with (Z.ones w) by (rewrite Z.ones_equiv; lia).
  destruct (Z.leb_spec (w - p) i); simpl.
  - rewrite !Z.testbit_ones by lia.
    destruct (Z.ltb_spec i w), (Z.ltb_spec (i - (w - p)) w), (Z.leb_spec 0 i),
      (Z.leb_spec 0 (i - (w - p))); simpl; lia || done.
  - by rewrite Z.testbit_neg_r by lia.
Qed.

Lemma land_prefix_mask w p x : 0 <= p <= w -> 0 <= x < 2 ^ w ->
  Z.land x (prefix_mask w p) = Z.shiftl (Z.shiftr x (w - p)) (w - p).
Proof.
  intros Hp Hx. apply Z.bits_inj'. intros i Hi.
  rewrite Z.land_spec, prefix_mask_testbit, Z.shiftl_spec by lia.
  destruct (Z.leb_spec (w - p) i); simpl.
  - rewrite Z.shiftr_spec by lia. replace (i - (w - p) + (w - p)) with i by lia.
    destruct (Z.ltb_spec i w); [apply andb_true_r|]. rewrite andb_false_r.
    symmetry. apply Z.testbit_false; [lia|].
    rewrite Z.div_small; [done|]. split; [lia|].
    apply Z.lt_le_trans with (2 ^ w); [lia|]. apply Z.pow_le_mono_r; lia.
  - rewrite andb_false_r. by rewrite Z.testbit_neg_r by lia.
Qed.

Lemma land_prefix_mask_eq w p x y : 0 <= p <= w -> 0 <= x < 2 ^ w -> 0 <= y < 2 ^ w ->
  Z.land x (prefix_mask w p) = Z.land y (prefix_mask w p)
  <-> Z.shiftr x (w - p) = Z.shiftr y (w - p).
Proof.
  intros Hp Hx Hy. rewrite !land_prefix_mask by done. split; [|congruence].
  intros H. apply (f_equal (fun z => Z.shiftr z (w - p))) in H.
  by rewrite !Z.shiftr_shiftl_l, !Z.sub_diag, !Z.shiftl_0_r in H by lia.
Qed.

Lemma prefix_mask_0 w : 0 <= w -> prefix_mask w 0 = 0.
Proof.
  intros Hw. unfold prefix_mask. rewrite Z.sub_0_r, Z.shiftl_mul_pow2 by done.
  apply Z_mod_mult.
Qed.

Lemma prefix_mask_v4_eq p : prefix_mask_v4 p = prefix_mask 32 p.
Proof. unfold prefix_mask_v4. destruct (Z.eqb_spec p 0) as [->|]; [|done].
  by rewrite prefix_mask_0. Qed.
Lemma prefix_mask_v6_eq p : prefix_mask_v6 p = prefix_mask 128 p.
Proof. unfold prefix_mask_v6. destruct (Z.eqb_spec p 0) as [->|]; [|done].
  by rewrite prefix_mask_0. Qed.

(** [a] and [b] are addresses of the same family that agree on their [p] leading bits. *)
Definition same_prefix (p : Z) (a b : IpAddr) : Prop :=
  match a, b with
  | V4 x, V4 y => Z.shiftr x (32 - p) = Z.shiftr y (32 - p)
  | V6 x, V6 y => Z.shiftr x (128 - p) = Z.shiftr y (128 - p)
  | _, _ => False
  end.

Definition ip_width (a : IpAddr) : Z := match a with V4 _ => 32 | V6 _ => 128 end.

Arguments parse_prefix : simpl never.
Arguments parse_ip : simpl never.

Lemma parse_prefix_ok o max value p :
  parse_prefix o max value = Ok p ->
  0 <= max -> 0 <= p <= max /\ match o with Some q => parse_uint u8_max q = Some p | None => p = max end.
Proof.
  unfold parse_prefix. destruct o as [q|]; simpl.
  - destruct (parse_uint u8_max q) as [v|] eqn:E; simpl; [|done].
    destruct (max <? v) eqn:El; [done|]. intros [= <-] Hm. bool_to_prop. split; [|done].
    split; [|done]. by eapply parse_uint_nonneg.
  - destruct (max <? max) eqn:El; [done|]. intros [= <-] ?. lia.
Qed.

Lemma parse_network_inv value n :
  parse_network value = Ok n ->
  exists addr p,
    parse_ip (before 47 value) = Some addr
    /\ parse_prefix (snd <$> split_once 47 value) (ip_width addr) value = Ok p
    /\ n = match addr with
           | V4 x => NetV4 (Z.land x (prefix_mask_v4 p)) (prefix_mask_v4 p)
           | V6 x => NetV6 (Z.land x (prefix_mask_v6 p)) (prefix_mask_v6 p)
           end.
Proof.
  rewrite before_split_once. unfold parse_network, mbind, result_bind, ok_or.
  destruct (split_once 47 value) as [[a q]|]; cbn [fmap option_fmap option_map snd].
  - destruct (parse_ip a) as [[x|x]|]; [| |done].
    + destruct (parse_prefix (Some q) 32 value) as [p|] eqn:Ep; [|done].
      intros [= <-]. by exists (V4 x), p.
    + destruct (parse_prefix (Some q) 128 value) as [p|] eqn:Ep; [|done].
      intros [= <-]. by exists (V6 x), p.
  - destruct (parse_ip value) as [[x|x]|]; [| |done]; intros [= <-].
    + by exists (V4 x), 32.
    + by exists (V6 x), 128.
Qed.

(** An entry [addr] or [addr/p] of the trusted list is accepted only with an address and a
    prefix length within the width of its family, and it then contains exactly the
    addresses of that family that agree with [addr] on the [p] leading bits ([p] being the
    full width when it is not written). *)
Theorem parse_network_contains (value : bytes) (n : IpNetwork) :
  parse_network value = Ok n ->
  exists addr p,
    parse_ip (before 47 value) = Some addr
    /\ 0 <= p <= ip_width addr
    /\ match split_once 47 value with
       | Some (_, q) => parse_uint u8_max q = Some p
       | None => p = ip_width addr
       end
    /\ forall ip, ip_ok ip -> network_contains n ip = true <-> same_prefix p addr ip.
Proof.
  intros H. apply parse_network_inv in H as (addr & p & Ea & Ep & ->).
  apply parse_ip_ok in Ea as Hok.
  apply parse_prefix_ok in Ep as [Hp Hq]; [|by destruct addr].
  exists addr, p. split; [done|]. split; [done|]. split.
  { by destruct (split_once 47 value) as [[]|]. }
  intros ip Hip. destruct addr as [x|x], ip as [y|y]; simpl in *; try done.
  all: rewrite Z.eqb_eq, ?prefix_mask_v4_eq, ?prefix_mask_v6_eq, land_prefix_mask_eq by done.
  all: by split.
Qed.

Lemma parse_network_contains_witness :
  exists n, parse_network "192.168.1.77/16" = Ok n
    /\ network_contains n (V4 (192 * 16777216 + 168 * 65536 + 5)) = true.
Proof.
  eexists. split; [reflexivity|].
  destruct (parse_network_contains "192.168.1.77/16" _ eq_refl) as (a & p & Ha & _ & Hp & Hc).
  apply Hc; vm_compute in Ha, Hp; simplify_eq; vm_compute; repeat split; congruence.
Defined.

(** Two clients share a network key exactly when they are the same IPv4 address or IPv6
    addresses of the same /64. *)
Theorem risk_network_64 (a b : IpAddr) :
  ip_ok a -> ip_ok b ->
  risk_network a = risk_network b
  <-> match a, b with
      | V4 x, V4 y => x = y
      | V6 x, V6 y => Z.shiftr x 64 = Z.shiftr y 64
      | _, _ => False
      end.
Proof.
  intros Ha Hb. destruct a as [x|x], b as [y|y]; simpl in *; try (split; (done || congruence)).
  change (Z.shiftl (2 ^ 128 - 1) 64 mod 2 ^ 128) with (prefix_mask 128 64).
  rewrite <- (land_prefix_mask_eq 128 64) by lia. split; congruence.
Qed.

Lemma risk_network_64_witness : risk_network (V6 (5 * 2 ^ 64 + 7)) = risk_network (V6 (5 * 2 ^ 64)).
Proof. apply risk_network_64; vm_compute; repeat split; congruence. Defined.
