(* ===== verification/Window.v ===== *)
(** * Sliding windows and concurrent tables

    What the rate limiter, the connection filter, the abuse engine and the GraphQL quota
    share: lists of timestamped records restricted to a window, tables of such lists
    ([DashMap<K, Vec<..>>]) swept of expired records, and the stable sort used when a
    table is cut down to its capacity.

    A [DashMap] is a finite map.  The order in which it is iterated is not specified: it
    is the operation of the class [MapOrder], a permutation of the entries. *)

From S2P Require Import Prelude.

Class MapOrder (K V : Type) `{Countable K} : Type := {
  iter_order : gmap K V -> list (K * V);
  iter_order_perm : forall m, iter_order m ≡ₚ map_to_list m;
}.

(** An order to evaluate with. *)
Definition canonical_order (K V : Type) `{Countable K} : MapOrder K V :=
  {| iter_order := map_to_list; iter_order_perm := fun m => reflexivity _ |}.

(** ** Windows *)

Section Window.
Context {A : Type} (at_ : A -> Instant) (window : Duration).

(** [now.duration_since(t) < window] *)
Definition live (now : Instant) (x : A) : Prop := duration_since now (at_ x) < window.
#[export] Instance live_dec now x : Decision (live now x).
Proof. unfold live. apply _. Defined.

(** [v.retain(|x| now.duration_since(x.at) < window)] *)
Definition retain_window (now : Instant) (l : list A) : list A := base.filter (live now) l.

(** One [DashMap::retain] over the table: expired records leave, then empty rows. *)
Definition sweep_row (now : Instant) (l : list A) : option (list A) :=
  let l' := retain_window now l in if is_empty l' then None else Some l'.

Lemma live_earlier now now' x : now <= now' -> live now' x -> live now x.
Proof. unfold live, duration_since. lia. Qed.

Lemma retain_retain now now' l : now <= now' ->
  retain_window now' (retain_window now l) = retain_window now' l.
Proof.
  intros Hn. unfold retain_window. rewrite list_filter_filter_l; [done|].
  intros x. by apply live_earlier.
Qed.

Lemma retain_app now l k :
  retain_window now (l ++ k) = retain_window now l ++ retain_window now k.
Proof. apply filter_app. Qed.

Lemma retain_length now l : len (retain_window now l) <= len l.
Proof. unfold len, retain_window. pose proof (length_filter (live now) l). lia. Qed.

Lemma retain_nil now : retain_window now [] = [].
Proof. done. Qed.
End Window.

Arguments retain_window {A} at_ window now l : simpl never.

(** Counting the instants of an interval. *)
Definition within (a w t : Z) : Prop := a <= t < a + w.
#[export] Instance within_dec a w t : Decision (within a w t).
Proof. unfold within. apply _. Defined.

Lemma within_retained a w now adm : Forall (fun t => t <= now) adm -> within a w now ->
  base.filter (within a w) adm `sublist_of` retain_window id w now adm.
Proof.
  intros Hp Hn. apply filter_sublist_impl. intros t Ht Hw.
  rewrite Forall_forall in Hp. specialize (Hp t Ht).
  unfold within, live, duration_since, id in *. lia.
Qed.

(** ** Tables *)

Section Sweep.
Context {K A : Type} `{Countable K} (at_ : A -> Instant) (window : Duration).

Definition sweep (now : Instant) (m : gmap K (list A)) : gmap K (list A) :=
  omap (sweep_row at_ window now) m.

(** The row of a key; an absent row is an empty one. *)
Definition row (m : gmap K (list A)) (k : K) : list A := default [] (m !! k).

Lemma row_insert m k l k' : row (<[k:=l]> m) k' = if decide (k = k') then l else row m k'.
Proof. unfold row. rewrite lookup_insert. by case_decide. Qed.

Lemma sweep_row_row now m k :
  row (sweep now m) k = retain_window at_ window now (row m k).
Proof.
  unfold row, sweep, sweep_row. rewrite lookup_omap.
  destruct (m !! k) as [l|]; simpl; [|done].
  destruct (is_empty _) eqn:E; simpl; [|done]. by apply is_empty_true in E.
Qed.

Lemma sweep_retain now now' m k : now <= now' ->
  retain_window at_ window now' (row (sweep now m) k)
  = retain_window at_ window now' (row m k).
Proof. intros ?. rewrite sweep_row_row. by apply retain_retain. Qed.

Lemma sweep_dom now m : dom (sweep now m) ⊆ dom m.
Proof.
  intros k. rewrite !elem_of_dom. unfold sweep. rewrite lookup_omap.
  intros [l Hl]. destruct (m !! k); [eauto|done].
Qed.

Lemma sweep_size now m : (size (sweep now m) <= size m)%nat.
Proof. rewrite <- !size_dom. apply subseteq_size, sweep_dom. Qed.

Lemma sweep_row_nonempty now m k l : sweep now m !! k = Some l -> l <> [].
Proof.
  unfold sweep, sweep_row. rewrite lookup_omap. destruct (m !! k); simpl; [|done].
  destruct (is_empty _) eqn:E; [done|]. intros [= <-]. by apply is_empty_false in E.
Qed.
End Sweep.

(** ** The stable sort [sort_by_key] *)

Section SortByKey.
Context {A : Type} (key : A -> Z).

Fixpoint insert_by_key (x : A) (l : list A) : list A :=
  match l with
  | [] => [x]
  | y :: r => if key x <=? key y then x :: l else y :: insert_by_key x r
  end.

Definition sort_by_key (l : list A) : list A := foldr insert_by_key [] l.

Lemma insert_by_key_perm x l : insert_by_key x l ≡ₚ x :: l.
Proof.
  induction l as [|y l IH]; simpl; [done|].
  destruct (key x <=? key y); [done|]. rewrite IH. constructor.
Qed.

Lemma sort_by_key_perm l : sort_by_key l ≡ₚ l.
Proof.
  induction l as [|x l IH]; simpl; [done|]. by rewrite insert_by_key_perm, IH.
Qed.

Lemma insert_by_key_sorted x l :
  StronglySorted (fun a b => key a <= key b) l ->
  StronglySorted (fun a b => key a <= key b) (insert_by_key x l).
Proof.
  induction 1 as [|y l Hl IH Hy]; simpl; [repeat constructor|].
  destruct (Z.leb_spec (key x) (key y)).
  - constructor; [by constructor|]. constructor; [done|].
    eapply Forall_impl; [exact Hy|]. simpl. intros; lia.
  - constructor; [done|]. rewrite insert_by_key_perm. constructor; [lia|done].
Qed.

Lemma sort_by_key_sorted l : StronglySorted (fun a b => key a <= key b) (sort_by_key l).
Proof. induction l; simpl; [constructor|by apply insert_by_key_sorted]. Qed.
End SortByKey.

(** ** Removing a list of keys *)

Section RemoveKeys.
Context {K V : Type} `{Countable K}.

(** [for (key, _) in entries { map.remove(&key); }] *)
Definition remove_keys (ks : list K) (m : gmap K V) : gmap K V :=
  foldl (fun m k => delete k m) m ks.

Lemma lookup_remove_keys ks m k :
  remove_keys ks m !! k = if decide (k ∈ ks) then None else m !! k.
Proof.
  revert m. induction ks as [|x ks IH]; intros m.
  - by rewrite decide_False by apply not_elem_of_nil.
  - change (remove_keys (x :: ks) m) with (remove_keys ks (delete x m)). rewrite IH. destruct (decide (k ∈ ks)), (decide (k ∈ x :: ks)) as [Hd|Hd]; try done.
    + exfalso. apply Hd. by right.
    + apply elem_of_cons in Hd as [->|]; [apply lookup_delete_eq|done].
    + apply not_elem_of_cons in Hd as [? _]. by rewrite lookup_delete_ne.
Qed.

Lemma size_remove_keys ks m : NoDup ks -> (forall k, k ∈ ks -> is_Some (m !! k)) ->
  size (remove_keys ks m) = (size m - length ks)%nat.
Proof.
  intros Hnd. revert m. induction Hnd as [|x ks Hx Hnd IH]; intros m Hin; simpl; [lia|].
  assert (is_Some (m !! x)) as [v Hv] by (apply Hin; left).
  rewrite IH.
  - rewrite map_size_delete_Some by eauto. lia.
  - intros k Hk. rewrite lookup_delete_ne by congruence. apply Hin. by right.
Qed.
End RemoveKeys.
