(* ===== verification/RateLimit.v ===== *)
(** * Request rate limiter ([src/rate_limit.rs])

    A table of timestamps per key of the risk identity (network, route, session, API key,
    JWT subject and tenant).  Every operation takes the readings of the clock it makes, in
    order, and the order in which the table is iterated comes from [MapOrder]. *)

From S2P Require Import Prelude Net ClientIp Window.

(** [src/rate_limit.rs: enum RateKey] *)
Inductive RateKey : Type :=
| Network (k : SiteClientKey)
| Route (network : SiteClientKey) (route : bytes)
| Session (site : bytes) (hash : Z)
| ApiKey (site : bytes) (hash : Z)
| JwtSub (site : bytes) (hash : Z)
| JwtTenant (site : bytes) (hash : Z).

#[export] Instance RateKey_eq_dec : EqDecision RateKey.
Proof. solve_decision. Defined.

#[export] Program Instance RateKey_countable : Countable RateKey :=
  inj_countable'
    (fun k => match k with
              | Network n => inl (n, None)
              | Route n r => inl (n, Some r)
              | Session s h => inr (0, s, h)
              | ApiKey s h => inr (1, s, h)
              | JwtSub s h => inr (2, s, h)
              | JwtTenant s h => inr (3, s, h) end)
    (fun x : SiteClientKey * option bytes + Z * bytes * Z =>
       match x with
       | inl (n, None) => Network n
       | inl (n, Some r) => Route n r
       | inr (t, s, h) =>
           if t =? 0 then Session s h else if t =? 1 then ApiKey s h
           else if t =? 2 then JwtSub s h else JwtTenant s h
       end) _.
Next Obligation. by intros []. Qed.

(** [src/rate_limit.rs: const DEFAULT_MAX + const SWEEP_EVERY] *)
Definition SWEEP_EVERY : Z := 256.
Definition DEFAULT_MAX : Z := 100.
Definition DEFAULT_WINDOW : Z := 60.
Definition DEFAULT_MAX_IPS : Z := 50000.

(** [src/rate_limit.rs: struct RateLimiter] *)
Record RateLimiter : Type := {
  requests : gmap RateKey (list Instant);
  max_requests : Z;
  window_secs : Z;
  max_ips : Z;
  hits : Z;
}.

Definition with_requests (rl : RateLimiter) (m : gmap RateKey (list Instant)) : RateLimiter :=
  {| requests := m; max_requests := max_requests rl; window_secs := window_secs rl;
     max_ips := max_ips rl; hits := hits rl |}.

Definition window (rl : RateLimiter) : Duration := from_secs (window_secs rl).

(** [src/rate_limit.rs: RateLimiter::new] *)
Definition new (max_requests window_secs max_ips : Z) : RateLimiter := {|
  requests := ∅;
  max_requests := max_requests;
  window_secs := window_secs;
  max_ips := Z.max max_ips 1;
  hits := 0;
|}.

(** [src/rate_limit.rs: RateLimiter::from_env] *)
Definition from_env (env : Env) : RateLimiter :=
  let configured_max_requests :=
    default DEFAULT_MAX (env "RATE_LIMIT_MAX" ≫= parse_uint u64_max) in
  let replica_count :=
    match env "REPLICA_COUNT" ≫= parse_uint u64_max with
    | Some v => if 0 <? v then v else 1
    | None => 1
    end in
  let max_requests := Z.max (configured_max_requests / replica_count) 1 in
  let window_secs := default DEFAULT_WINDOW (env "RATE_LIMIT_WINDOW" ≫= parse_uint u64_max) in
  let max_ips := default DEFAULT_MAX_IPS (env "RATE_LIMIT_MAX_IPS" ≫= parse_uint usize_max) in
  new max_requests window_secs max_ips.

(** [src/rate_limit.rs: RateLimiter::evict_expired] *)
Definition evict_expired (now : Instant) (rl : RateLimiter) : RateLimiter :=
  with_requests rl (sweep id (window rl) now (requests rl)).

(** [src/rate_limit.rs: RateLimiter::tracked_ips] *)
Definition tracked_ips (rl : RateLimiter) : Z := Z.of_nat (size (requests rl)).

(** The keys [check] counts a request under. *)
Definition rate_keys (i : RiskIdentity) : list RateKey :=
  let network := network_key i in
  let push (h : option Z) (f : Z -> RateKey) := match h with Some h => [f h] | None => [] end in
  [Network network; Route network (route i)]
  ++ push (session_hash i) (Session (site i))
  ++ push (api_key_hash i) (ApiKey (site i))
  ++ push (jwt_sub_hash i) (JwtSub (site i))
  ++ push (jwt_tenant_hash i) (JwtTenant (site i)).

Section Limiter.
Context {MO : MapOrder RateKey (list Instant)}.

(** [src/rate_limit.rs: RateLimiter::shrink_to_cap] *)
Definition shrink_to_cap (keep : list RateKey) (rl : RateLimiter) : RateLimiter :=
  let overflow := saturating_sub (tracked_ips rl) (max_ips rl) in
  if overflow =? 0 then rl
  else
    let entries :=
      omap (fun '(key, v) =>
              if bool_decide (key ∈ keep) then None
              else match last v with Some t => Some (key, t) | None => None end)
           (iter_order (requests rl)) in
    let sorted := sort_by_key snd entries in
    with_requests rl (remove_keys (map fst (take (Z.to_nat overflow) sorted)) (requests rl)).

(** [src/rate_limit.rs: RateLimiter::maybe_sweep] *)
Definition maybe_sweep (now : Instant) (rl : RateLimiter) : RateLimiter :=
  let n := hits rl in
  let rl := {| requests := requests rl; max_requests := max_requests rl;
               window_secs := window_secs rl; max_ips := max_ips rl;
               hits := (n + 1) mod 2 ^ 64 |} in
  if n mod SWEEP_EVERY =? 0 then
    let rl := evict_expired now rl in
    if max_ips rl <? tracked_ips rl then shrink_to_cap [] rl else rl
  else rl.

(** [src/rate_limit.rs: RateLimiter::enforce_cap] *)
Definition enforce_cap (now : Instant) (keep : list RateKey) (rl : RateLimiter) : RateLimiter :=
  if max_ips rl <? tracked_ips rl then
    let rl := evict_expired now rl in
    if max_ips rl <? tracked_ips rl then shrink_to_cap keep rl else rl
  else rl.

(** The loop over the keys: [false] at the first key over its budget, whose row has been
    restricted to the window; the keys before it have already been charged. *)
Fixpoint charge (max : Z) (w : Duration) (now : Instant) (keys : list RateKey)
    (m : gmap RateKey (list Instant)) : gmap RateKey (list Instant) * bool :=
  match keys with
  | [] => (m, true)
  | key :: rest =>
      let entry := retain_window id w now (row m key) in
      if max <=? len entry then (<[key := entry]> m, false)
      else charge max w now rest (<[key := entry ++ [now]]> m)
  end.

(** [src/rate_limit.rs: RateLimiter::check] -- the clock is read for the sweep, for the
    check itself and for the capacity. *)
Definition check (now_sweep now now_cap : Instant) (identity : RiskIdentity) (uri : bytes)
    (rl : RateLimiter) : RateLimiter * bool * list BlockEvent :=
  let rl := maybe_sweep now_sweep rl in
  let keys := rate_keys identity in
  let '(m, ok) := charge (max_requests rl) (window rl) now keys (requests rl) in
  let rl := with_requests rl m in
  if ok then (enforce_cap now_cap keys rl, true, [])
  else (rl, false,
        [{| ev_site := Some (site identity); ev_type := "rate_limit";
            ev_client := LabelIp (network identity); ev_uri := uri;
            ev_detail := "Rate limit exceeded" |}]).

End Limiter.

(** ** What a check charges *)

Lemma rate_keys_nodup i : NoDup (rate_keys i).
Proof.
  unfold rate_keys.
  destruct (session_hash i), (api_key_hash i), (jwt_sub_hash i), (jwt_tenant_hash i); simpl;
    repeat (apply NoDup_cons_2; [rewrite ?elem_of_cons, elem_of_nil; intuition discriminate|]);
    apply NoDup_nil_2.
Qed.

Lemma rate_keys_length i : (2 <= length (rate_keys i) <= 6)%nat.
Proof.
  unfold rate_keys. destruct (session_hash i), (api_key_hash i), (jwt_sub_hash i),
    (jwt_tenant_hash i); simpl; lia.
Qed.

Lemma charge_other max w now keys : forall m m' ok k,
  charge max w now keys m = (m', ok) -> k ∉ keys -> m' !! k = m !! k.
Proof.
  induction keys as [|key keys IH]; intros m m' ok k; cbn [charge]; [congruence|].
  intros Hc [Hne Hk]%not_elem_of_cons. destruct (max <=? _).
  - injection Hc as <- <-. by rewrite lookup_insert_ne.
  - rewrite (IH _ _ _ _ Hc Hk). by rewrite lookup_insert_ne.
Qed.

(** The keys charged are a prefix of the keys of the request, all of them exactly when it
    is accepted.  The row of a charged key is its window plus the new reading, and was
    under budget; the window of every other key is unchanged. *)
Lemma charge_spec max w now keys : forall m m' ok, NoDup keys ->
  charge max w now keys m = (m', ok) ->
  exists charged rest,
    keys = charged ++ rest
    /\ (ok = true <-> rest = [])
    /\ (forall k, k ∈ charged ->
          len (retain_window id w now (row m k)) < max
          /\ row m' k = retain_window id w now (row m k) ++ [now])
    /\ (forall k now', now <= now' -> k ∉ charged ->
          retain_window id w now' (row m' k) = retain_window id w now' (row m k)).
Proof.
  induction keys as [|key keys IH]; intros m m' ok Hnd; cbn [charge].
  - intros [= <- <-]. exists [], []. do 2 (split; [done|]). split; [|done].
    by intros k ?%elem_of_nil.
  - apply NoDup_cons in Hnd as [Hkey Hnd].
    destruct (Z.leb_spec max (len (retain_window id w now (row m key)))) as [Hmax|Hmax].
    + intros [= <- <-]. exists [], (key :: keys). do 2 (split; [done|]). split.
      * by intros k ?%elem_of_nil.
      * intros k now' Hn _. rewrite row_insert. case_decide as Hk; [subst|done].
        by apply retain_retain.
    + intros Hc. pose proof (charge_other _ _ _ _ _ _ _ _ Hc Hkey) as Hrow.
      apply IH in Hc as (charged & rest & -> & Hok & Hch & Hun); [|done].
      exists (key :: charged), rest. split; [done|]. split; [done|]. split.
      * intros k [->|Hk]%elem_of_cons.
        -- split; [done|]. unfold row at 1. by rewrite Hrow, lookup_insert_eq.
        -- destruct (Hch k Hk) as [? Hr]. rewrite row_insert in *.
           rewrite decide_False in * by (intros ->; apply Hkey, elem_of_app; by left). done.
      * intros k now' Hn [Hne Hk]%not_elem_of_cons. rewrite Hun by done.
        by rewrite row_insert, decide_False by done.
Qed.

Lemma charge_dom max w now keys : forall m m' ok,
  charge max w now keys m = (m', ok) -> dom m' ⊆ dom m ∪ list_to_set keys.
Proof.
  induction keys as [|key keys IH]; intros m m' ok; cbn [charge].
  - intros [= <- _]. set_solver.
  - destruct (max <=? _); [intros [= <- _]; rewrite dom_insert_L; set_solver|].
    intros Hc%IH. rewrite dom_insert_L in Hc. set_solver.
Qed.

(** ** The sliding window *)

Section SlidingWindow.
Context {MO : MapOrder RateKey (list Instant)}.

(** A request and the clock readings its check makes. *)
Record Request : Type := {
  rq_identity : RiskIdentity;
  rq_uri : bytes;
  rq_sweep : Instant;
  rq_now : Instant;
  rq_cap : Instant;
}.

Definition check_request (r : Request) (rl : RateLimiter) : RateLimiter * bool :=
  fst (check (rq_sweep r) (rq_now r) (rq_cap r) (rq_identity r) (rq_uri r) rl).

(** The requests a limiter handles one after the other, with the times of those accepted
    that carry the key [k]. *)
Fixpoint admitted (k : RateKey) (reqs : list Request) (rl : RateLimiter) : list Instant :=
  match reqs with
  | [] => []
  | r :: rest =>
      let '(rl', ok) := check_request r rl in
      (if ok && bool_decide (k ∈ rate_keys (rq_identity r)) then [rq_now r] else [])
      ++ admitted k rest rl'
  end.

(** The monotonic clock: readings never go back. *)
Fixpoint clock_from (t : Instant) (reqs : list Request) : Prop :=
  match reqs with
  | [] => True
  | r :: rest => t <= rq_sweep r /\ rq_sweep r <= rq_now r /\ rq_now r <= rq_cap r
                 /\ clock_from (rq_cap r) rest
  end.

(** [adm] are the times at which requests with the key [k] were accepted, up to [now]. *)
Record window_inv (U : gset RateKey) (k : RateKey) (rl : RateLimiter) (now : Instant)
    (adm : list Instant) : Prop := {
  wi_dom : dom (requests rl) ⊆ U;
  wi_cap : Z.of_nat (size U) <= max_ips rl;
  wi_past : Forall (fun t => t <= now) adm;
  wi_row : forall now', now <= now' ->
      retain_window id (window rl) now' adm
      `sublist_of` retain_window id (window rl) now' (row (requests rl) k);
  wi_bound : forall a, len (base.filter (within a (window rl)) adm) <= Z.max 0 (max_requests rl);
}.

Lemma tracked_le U rl : dom (requests rl) ⊆ U -> Z.of_nat (size U) <= max_ips rl ->
  tracked_ips rl <= max_ips rl.
Proof.
  intros Hd Hc. unfold tracked_ips. rewrite <- size_dom.
  pose proof (subseteq_size _ _ Hd). lia.
Qed.

(** Under capacity the maintenance only removes expired readings. *)
Lemma maintenance_id U rl now : dom (requests rl) ⊆ U -> Z.of_nat (size U) <= max_ips rl ->
  enforce_cap now [] rl = rl /\ (forall keep, enforce_cap now keep rl = rl)
  /\ (requests (maybe_sweep now rl) = requests rl
      \/ requests (maybe_sweep now rl) = sweep id (window rl) now (requests rl)).
Proof.
  intros Hd Hc. assert (He : forall keep, enforce_cap now keep rl = rl).
  { intros keep. unfold enforce_cap. pose proof (tracked_le U rl Hd Hc).
    by destruct (Z.ltb_spec (max_ips rl) (tracked_ips rl)); [lia|]. }
  split; [done|]. split; [done|].
  unfold maybe_sweep. destruct (_ =? 0); [|by left]. right.
  match goal with |- context [if ?c then _ else _] => destruct c eqn:E end; [|done].
  exfalso. bool_to_prop. revert E. apply Z.le_ngt.
  apply (tracked_le U); [|done]. simpl. etrans; [apply sweep_dom|done].
Qed.

Lemma shrink_config keep rl :
  max_requests (shrink_to_cap keep rl) = max_requests rl
  /\ window_secs (shrink_to_cap keep rl) = window_secs rl
  /\ max_ips (shrink_to_cap keep rl) = max_ips rl /\ hits (shrink_to_cap keep rl) = hits rl.
Proof. unfold shrink_to_cap. by destruct (_ =? 0). Qed.

Lemma sweep_config now rl :
  max_requests (maybe_sweep now rl) = max_requests rl
  /\ window_secs (maybe_sweep now rl) = window_secs rl
  /\ max_ips (maybe_sweep now rl) = max_ips rl
  /\ hits (maybe_sweep now rl) = (hits rl + 1) mod 2 ^ 64.
Proof.
  unfold maybe_sweep. destruct (_ =? 0); [|done].
  match goal with |- context [if ?c then _ else _] => destruct c end; [|done].
  match goal with |- context [shrink_to_cap ?a ?b] => destruct (shrink_config a b) as (-> & -> & -> & ->) end.
  done.
Qed.

Lemma sweep_inv U k rl t s adm :
  window_inv U k rl t adm -> t <= s -> window_inv U k (maybe_sweep s rl) s adm.
Proof.
  intros [Hd Hc Hp Hr Hb] Hs.
  destruct (maintenance_id U rl s Hd Hc) as (_ & _ & Hm).
  destruct (sweep_config s rl) as (Emax & Ew & Eips & _).
  assert (Ewin : window (maybe_sweep s rl) = window rl) by (unfold window; congruence).
  constructor; rewrite ?Ewin, ?Emax, ?Eips; try done.
  - destruct Hm as [-> | ->]; [done|]. etrans; [apply sweep_dom|done].
  - eapply Forall_impl; [exact Hp|]. simpl. intros; lia.
  - intros now' Hn. destruct Hm as [-> | ->]; [|rewrite sweep_retain by done]; apply Hr; lia.
Qed.

Lemma charge_inv U k rl t now cap keys adm m' ok X :
  window_inv U k rl t adm -> t <= now <= cap -> NoDup keys ->
  (forall key, key ∈ keys -> key ∈ U) ->
  charge (max_requests rl) (window rl) now keys (requests rl) = (m', ok) ->
  X = (if ok && bool_decide (k ∈ keys) then [now] else []) ->
  window_inv U k (with_requests rl m') cap (adm ++ X).
Proof.
  intros [Hd Hc Hp Hr Hb] Ht Hnd HU Ech EX.
  pose proof (charge_dom _ _ _ _ _ _ _ Ech) as Hdm.
  apply charge_spec in Ech as (charged & rest & -> & Hok & Hch & Hun); [|done].
  assert (HX : X = [] \/ X = [now] /\ k ∈ charged).
  { rewrite EX. destruct ok; simpl; [|by left]. case_bool_decide as Hk; [right|by left].
    rewrite (proj1 Hok), app_nil_r in Hk by done. done. }
  clear EX. constructor; simpl; try done.
  - intros key Hk. apply Hdm, elem_of_union in Hk as [Hk|Hk]; [by apply Hd|].
    apply HU. by apply elem_of_list_to_set in Hk.
  - apply Forall_app. split; [eapply Forall_impl; [exact Hp|]; simpl; intros; lia|].
    destruct HX as [->|[-> _]]; [constructor|]. constructor; [lia|constructor].
  - intros now' Hn. rewrite retain_app. change (window (with_requests rl m')) with (window rl).
    destruct (decide (k ∈ charged)) as [Hk|Hk].
    + destruct (Hch k Hk) as [_ ->]. rewrite retain_app, retain_retain by lia.
      apply sublist_app; [apply Hr; lia|].
      destruct HX as [->|[-> _]]; [apply sublist_nil_l|done].
    + destruct HX as [->|[_ ?]]; [|done]. rewrite retain_nil, app_nil_r, Hun by (done || lia).
      apply Hr. lia.
  - intros a. change (window (with_requests rl m')) with (window rl). rewrite filter_app.
    destruct HX as [->|[-> Hk]]; [by rewrite filter_nil, app_nil_r|].
    rewrite filter_cons, filter_nil. destruct (decide (within a (window rl) now)) as [Hw|Hw];
      [|by rewrite app_nil_r].
    destruct (Hch k Hk) as [Hlt _]. rewrite len_app, len_cons, len_nil.
    assert (Hp' : Forall (fun t0 => t0 <= now) adm) by (eapply Forall_impl; [exact Hp|]; simpl; intros; lia).
    pose proof (sublist_len _ _ (within_retained a (window rl) now adm Hp' Hw)) as H1.
    pose proof (sublist_len _ _ (Hr now ltac:(lia))) as H2. lia.
Qed.

Lemma check_step U k r rl t adm rl' ok :
  window_inv U k rl t adm ->
  t <= rq_sweep r -> rq_sweep r <= rq_now r -> rq_now r <= rq_cap r ->
  (forall key, key ∈ rate_keys (rq_identity r) -> key ∈ U) ->
  check_request r rl = (rl', ok) ->
  window_inv U k rl' (rq_cap r)
    (adm ++ if ok && bool_decide (k ∈ rate_keys (rq_identity r)) then [rq_now r] else []).
Proof.
  intros HI H1 H2 H3 HU. unfold check_request, check.
  eapply sweep_inv in HI; [|exact H1].
  destruct (charge _ _ _ _ _) as [m' ok'] eqn:Ech.
  pose proof (charge_inv _ _ _ _ _ _ _ _ _ _ _ HI (conj H2 H3) (rate_keys_nodup _) HU Ech
    eq_refl) as HI'.
  destruct ok'; simpl; intros [= <- <-]; [|done].
  destruct HI' as [Hd Hc Hp Hr Hb] eqn:EHI.
  destruct (maintenance_id U _ (rq_cap r) Hd Hc) as (_ & He & _). by rewrite He.
Qed.

Lemma admitted_inv U k reqs : forall rl t adm,
  window_inv U k rl t adm -> clock_from t reqs ->
  (forall r key, r ∈ reqs -> key ∈ rate_keys (rq_identity r) -> key ∈ U) ->
  exists rl' t', window_inv U k rl' t' (adm ++ admitted k reqs rl)
    /\ max_requests rl' = max_requests rl /\ window rl' = window rl.
Proof.
  induction reqs as [|r reqs IH]; intros rl t adm HI; cbn [admitted clock_from].
  - intros _ _. exists rl, t. by rewrite app_nil_r.
  - intros (H1 & H2 & H3 & Hck) HU.
    destruct (check_request r rl) as [rl1 ok] eqn:E.
    pose proof (check_step _ _ _ _ _ _ _ _ HI H1 H2 H3
      (fun key => HU r key (list_elem_of_here _ _)) E) as HI1.
    destruct (IH _ _ _ HI1 Hck) as (rl' & t' & HI' & Em & Ew).
    { intros r' key Hr'. apply HU. by right. }
    exists rl', t'. rewrite app_assoc. split; [done|].
    enough (max_requests rl1 = max_requests rl /\ window_secs rl1 = window_secs rl) as [? ?].
    { unfold window in *. split; congruence. }
    revert E. unfold check_request, check. destruct (charge _ _ _ _ _) as [m' []]; simpl.
    + intros [= <- _]. unfold enforce_cap, evict_expired.
      destruct (sweep_config (rq_sweep r) rl) as (<- & <- & _ & _).
      repeat (match goal with |- context [if ?c then _ else _] => destruct c end); try done.
      match goal with |- context [shrink_to_cap ?a ?b] =>
        destruct (shrink_config a b) as (-> & -> & _ & _) end. done.
    + intros [= <- _]. simpl. destruct (sweep_config (rq_sweep r) rl) as (<- & <- & _ & _). done.
Qed.
End SlidingWindow.

(** C21. Sliding window: as long as the keys in use fit in the table, and whatever the mix of
    networks, routes, sessions and tokens, at most [max] requests that carry a given key
    are accepted in any interval as long as the window.  (Where more keys are in use than the
    table holds, the eviction may forget a key that is live.) *)
Theorem sliding_window_bound {MO : MapOrder RateKey (list Instant)}
    (max secs cap : Z) (reqs : list Request) (U : gset RateKey) (k : RateKey) (a t : Z) :
  0 <= max ->
  clock_from t reqs ->
  (forall r key, r ∈ reqs -> key ∈ rate_keys (rq_identity r) -> key ∈ U) ->
  Z.of_nat (size U) <= Z.max cap 1 ->
  len (base.filter (within a (from_secs secs)) (admitted k reqs (new max secs cap))) <= max.
Proof.
  intros Hm Hck HU Hcap.
  destruct (admitted_inv U k reqs (new max secs cap) t []) as (rl' & t' & HI & Em & Ew); try done.
  - constructor; simpl; try done. intros a'. unfold len. simpl. lia.
  - pose proof (wi_bound _ _ _ _ _ HI a) as Hb. rewrite Em, Ew in Hb. simpl in Hb.
    change (window (new max secs cap)) with (from_secs secs) in Hb. lia.
Qed.

(** Three requests of one client, one second apart. *)
Definition demo_identity : RiskIdentity := {|
  site := "site-a"; network := V4 167772161; route := "/api";
  session_hash := None; api_key_hash := Some 7; jwt_sub_hash := None; jwt_tenant_hash := None;
  tls_fingerprint := None; http_fingerprint := None; asn := None |}.
Definition demo_request (t : Z) : Request := {|
  rq_identity := demo_identity; rq_uri := "/api";
  rq_sweep := from_secs t; rq_now := from_secs t; rq_cap := from_secs t |}.
Definition demo_requests : list Request := [demo_request 1; demo_request 2; demo_request 3].
Definition demo_key : RateKey := Network (network_key demo_identity).
Definition demo_order : MapOrder RateKey (list Instant) := canonical_order RateKey (list Instant).

Lemma demo_keys_known r key : r ∈ demo_requests -> key ∈ rate_keys (rq_identity r) ->
  key ∈ (list_to_set (rate_keys demo_identity) : gset RateKey).
Proof.
  intros Hr Hk. apply elem_of_list_to_set.
  unfold demo_requests in Hr. rewrite !elem_of_cons, elem_of_nil in Hr.
  by destruct Hr as [->|[->|[->|[]]]].
Qed.

Lemma sliding_window_bound_witness :
  @admitted demo_order demo_key demo_requests (new 2 60 100) = [from_secs 1; from_secs 2]
  /\ len (base.filter (within 0 (from_secs 60))
       (@admitted demo_order demo_key demo_requests (new 2 60 100))) <= 2.
Proof.
  split; [vm_compute; reflexivity|].
  apply (@sliding_window_bound demo_order 2 60 100 demo_requests
           (list_to_set (rate_keys demo_identity)) demo_key 0 0).
  - lia.
  - vm_compute. intuition discriminate.
  - exact demo_keys_known.
  - vm_compute. discriminate.
Defined.

(** ** Capacity *)

Section Capacity.
Context {MO : MapOrder RateKey (list Instant)}.

(** Every tracked key has a reading. *)
Definition rows_nonempty (m : gmap RateKey (list Instant)) : Prop :=
  forall k l, m !! k = Some l -> l <> [].

(** The candidates for removal: the tracked keys outside [keep]. *)
Definition candidates (keep : list RateKey) (m : gmap RateKey (list Instant))
  : list (RateKey * Instant) :=
  omap (fun '(key, v) =>
          if bool_decide (key ∈ keep) then None
          else match last v with Some t => Some (key, t) | None => None end)
       (iter_order m).

Lemma candidates_keys keep m : rows_nonempty m ->
  map fst (candidates keep m) ≡ₚ base.filter (fun k => k ∉ keep) (map fst (map_to_list m)).
Proof.
  intros Hne. unfold candidates. rewrite iter_order_perm.
  assert (Hl : Forall (fun kv : RateKey * list Z => kv.2 <> []) (map_to_list m)).
  { apply Forall_forall. intros [k l] Hkl%elem_of_map_to_list. by eapply Hne. }
  induction Hl as [|[k l] r Hkl _ IH]; [done|]. cbn [map fst omap list_omap].
  rewrite filter_cons. destruct (last l) as [t|] eqn:El; [|by apply last_None in El].
  case_bool_decide as Hk.
  - rewrite decide_False by (intros H; by apply H). done.
  - rewrite decide_True by done. simpl. by rewrite IH.
Qed.

Lemma map_fst_nodup {V} (m : gmap RateKey V) : NoDup (map fst (map_to_list m)).
Proof. apply NoDup_fst_map_to_list. Qed.

Lemma length_filter_keep (keep l : list RateKey) : NoDup l ->
  (length l <= length (base.filter (fun k => k ∉ keep) l) + length keep)%nat.
Proof.
  intros Hnd. rewrite <- (length_app _ keep). apply submseteq_length, NoDup_submseteq; [done|].
  intros x Hx. apply elem_of_app. destruct (decide (x ∈ keep)); [by right|left].
  by apply list_elem_of_filter.
Qed.

(** Shrinking reaches the capacity, or leaves at most the keys it was told to keep. *)
Lemma shrink_size keep rl : rows_nonempty (requests rl) ->
  tracked_ips (shrink_to_cap keep rl) <= Z.max (max_ips rl) (len keep).
Proof.
  intros Hne. unfold shrink_to_cap. fold (candidates keep (requests rl)).
  destruct (Z.eqb_spec (saturating_sub (tracked_ips rl) (max_ips rl)) 0) as [E|E].
  - unfold saturating_sub in E. lia.
  - set (ov := Z.to_nat (saturating_sub (tracked_ips rl) (max_ips rl))).
    pose proof (candidates_keys keep (requests rl) Hne) as Hck.
    set (ks := map fst (take ov (sort_by_key snd (candidates keep (requests rl))))).
    assert (Hks : ks = take ov (map fst (sort_by_key snd (candidates keep (requests rl)))))
      by (subst ks; symmetry; apply firstn_map).
    assert (Hperm : map fst (sort_by_key snd (candidates keep (requests rl)))
                    ≡ₚ base.filter (fun k => k ∉ keep) (map fst (map_to_list (requests rl)))).
    { rewrite sort_by_key_perm. exact Hck. }
    assert (Hnd : NoDup (map fst (sort_by_key snd (candidates keep (requests rl))))).
    { rewrite Hperm. apply NoDup_filter, map_fst_nodup. }
    unfold tracked_ips. simpl requests. rewrite size_remove_keys.
    + rewrite Hks, length_take, Hperm.
      pose proof (length_filter_keep keep _ (map_fst_nodup (requests rl))) as Hl.
      rewrite length_map, length_map_to_list in Hl.
      unfold len. subst ov. unfold saturating_sub, tracked_ips in *. lia.
    + rewrite Hks. eapply sublist_NoDup; [exact Hnd|apply sublist_take].
    + intros k Hk. rewrite Hks in Hk. apply elem_of_take in Hk as (i & Hi & _).
      assert (Hin : k ∈ map fst (sort_by_key snd (candidates keep (requests rl))))
        by (by eapply list_elem_of_lookup_2).
      rewrite Hperm in Hin. apply list_elem_of_filter in Hin as [_ Hin].
      apply list_elem_of_fmap in Hin as ([k' l] & -> & Hkl%elem_of_map_to_list). eauto.
Qed.

Lemma shrink_nonempty keep rl : rows_nonempty (requests rl) ->
  rows_nonempty (requests (shrink_to_cap keep rl)).
Proof.
  intros Hne. unfold shrink_to_cap. destruct (_ =? 0); [done|]. intros k l. simpl.
  rewrite lookup_remove_keys. case_decide; [done|]. apply Hne.
Qed.

Lemma shrink_keeps keep rl k : k ∈ keep ->
  requests (shrink_to_cap keep rl) !! k = requests rl !! k.
Proof.
  intros Hk. unfold shrink_to_cap. destruct (_ =? 0); [done|]. simpl.
  rewrite lookup_remove_keys. case_decide as Hd; [|done]. exfalso.
  apply list_elem_of_fmap in Hd as ([k' t] & -> & Hd). apply elem_of_take in Hd as (i & Hi & _).
  apply list_elem_of_lookup_2 in Hi. rewrite sort_by_key_perm in Hi.
  apply list_elem_of_omap in Hi as ([k'' v] & _ & Hs).
  case_bool_decide as Hb; [done|]. destruct (last v); simplify_eq/=. done.
Qed.

Lemma evict_nonempty now rl : rows_nonempty (requests (evict_expired now rl)).
Proof. intros k l. apply sweep_row_nonempty. Qed.

Lemma charge_nonempty max w now keys : 1 <= max -> forall m m' ok,
  rows_nonempty m -> charge max w now keys m = (m', ok) -> rows_nonempty m'.
Proof.
  intros Hmax. induction keys as [|key keys IH]; intros m m' ok Hne; cbn [charge]; [by intros [= <- _]|].
  destruct (Z.leb_spec max (len (retain_window id w now (row m key)))) as [Hl|Hl].
  - intros [= <- _] k l. rewrite lookup_insert. case_decide; [|apply Hne].
    intros [= <-] E. rewrite E in Hl. unfold len in Hl. simpl in Hl. lia.
  - apply IH. intros k l. rewrite lookup_insert. case_decide; [|apply Hne].
    intros [= <-] E. by apply app_nil in E as [_ ?].
Qed.

Lemma size_insert_le {V} k (v : V) (m : gmap RateKey V) :
  (size (<[k:=v]> m) <= S (size m))%nat.
Proof.
  destruct (m !! k) eqn:E.
  - rewrite map_size_insert_Some by eauto. lia.
  - rewrite map_size_insert_None by done. lia.
Qed.

(** A rejected request adds fewer keys than it has: the one over budget was tracked. *)
Lemma charge_size max w now keys : 1 <= max -> forall m m' ok,
  charge max w now keys m = (m', ok) ->
  (size m' + (if ok then 0 else 1) <= size m + length keys)%nat.
Proof.
  intros Hmax. induction keys as [|key keys IH]; intros m m' ok; cbn [charge length].
  - intros [= <- <-]. lia.
  - destruct (Z.leb_spec max (len (retain_window id w now (row m key)))) as [Hl|Hl].
    + intros [= <- <-]. rewrite map_size_insert_Some; [lia|].
      unfold row in Hl. destruct (m !! key); [eauto|].
      unfold len in Hl. simpl in Hl. lia.
    + intros Hc%IH. pose proof (size_insert_le key (retain_window id w now (row m key) ++ [now]) m).
      lia.
Qed.

(** The limiters that a sequence of checks and sweeps can produce. *)
Inductive reachable (max secs cap : Z) : RateLimiter -> Prop :=
| reach_new : reachable max secs cap (new max secs cap)
| reach_check rl r : reachable max secs cap rl -> reachable max secs cap (check_request r rl).1
| reach_evict rl now : reachable max secs cap rl -> reachable max secs cap (evict_expired now rl).

(** Checks since the last periodic sweep. *)
Definition since_sweep (n : Z) : Z := (n - 1) mod SWEEP_EVERY + 1.

Lemma since_sweep_next n : since_sweep ((n + 1) mod 2 ^ 64) = n mod SWEEP_EVERY + 1.
Proof.
  unfold since_sweep, SWEEP_EVERY. f_equal.
  rewrite <- Zminus_mod_idemp_l, Z.mod_mod_divide by (by exists (2 ^ 56)).
  rewrite Zminus_mod_idemp_l. f_equal. lia.
Qed.

Lemma since_sweep_nonzero n : n mod SWEEP_EVERY <> 0 -> since_sweep n = n mod SWEEP_EVERY.
Proof.
  unfold since_sweep, SWEEP_EVERY. intros Hn. rewrite <- Zminus_mod_idemp_l.
  pose proof (Z.mod_pos_bound n 256 ltac:(lia)). rewrite Z.mod_small; lia.
Qed.

Record table_inv (max cap : Z) (rl : RateLimiter) : Prop := {
  ti_max : max_requests rl = max;
  ti_cap : max_ips rl = cap;
  ti_hits : 0 <= hits rl < 2 ^ 64;
  ti_rows : rows_nonempty (requests rl);
  ti_size : tracked_ips rl <= Z.max cap 6 + 5 * since_sweep (hits rl);
}.

Lemma evict_tracked now rl : tracked_ips (evict_expired now rl) <= tracked_ips rl.
Proof.
  unfold tracked_ips, evict_expired. simpl.
  pose proof (sweep_size id (window rl) now (requests rl)). lia.
Qed.

Lemma enforce_cap_size now keep rl : rows_nonempty (requests rl) ->
  tracked_ips (enforce_cap now keep rl) <= Z.max (max_ips rl) (len keep)
  /\ rows_nonempty (requests (enforce_cap now keep rl))
  /\ max_requests (enforce_cap now keep rl) = max_requests rl
  /\ max_ips (enforce_cap now keep rl) = max_ips rl
  /\ hits (enforce_cap now keep rl) = hits rl.
Proof.
  intros Hne. unfold enforce_cap.
  destruct (Z.ltb_spec (max_ips rl) (tracked_ips rl)); [|repeat split; (done || lia)].
  destruct (Z.ltb_spec (max_ips (evict_expired now rl)) (tracked_ips (evict_expired now rl))).
  - destruct (shrink_config keep (evict_expired now rl)) as (-> & _ & -> & ->).
    pose proof (shrink_size keep _ (evict_nonempty now rl)).
    pose proof (shrink_nonempty keep _ (evict_nonempty now rl)). done.
  - simpl in *. repeat split; (done || lia || apply evict_nonempty).
Qed.

Lemma maybe_sweep_size now rl : rows_nonempty (requests rl) -> 1 <= max_ips rl ->
  rows_nonempty (requests (maybe_sweep now rl))
  /\ tracked_ips (maybe_sweep now rl) <= tracked_ips rl
  /\ (hits rl mod SWEEP_EVERY = 0 -> tracked_ips (maybe_sweep now rl) <= max_ips rl).
Proof.
  intros Hne Hc. unfold maybe_sweep.
  set (rl' := {| requests := requests rl; hits := (hits rl + 1) mod 2 ^ 64 |}).
  pose proof (evict_tracked now rl') as He. pose proof (evict_nonempty now rl') as Hn.
  change (tracked_ips rl') with (tracked_ips rl) in He.
  destruct (Z.eqb_spec (hits rl mod SWEEP_EVERY) 0) as [E|E]; [|by repeat split].
  destruct (Z.ltb_spec (max_ips (evict_expired now rl')) (tracked_ips (evict_expired now rl'))).
  - pose proof (shrink_size [] _ Hn) as Hs. pose proof (shrink_nonempty [] _ Hn).
    change (max_ips (evict_expired now rl')) with (max_ips rl) in *.
    unfold len in Hs. simpl in Hs. repeat split; [done|lia|lia].
  - repeat split; done.
Qed.

Lemma check_table_inv max cap r rl : 1 <= max -> 1 <= cap ->
  table_inv max cap rl -> table_inv max cap (check_request r rl).1.
Proof.
  intros Hmax Hcap [Em Ec Hh Hne Hs]. unfold check_request, check.
  destruct (maybe_sweep_size (rq_sweep r) rl Hne) as (Hne1 & Hle & Hsw); [lia|].
  destruct (sweep_config (rq_sweep r) rl) as (E1 & E2 & E3 & E4).
  set (rl1 := maybe_sweep (rq_sweep r) rl) in *.
  destruct (charge _ _ _ _ _) as [m' ok] eqn:Ech.
  assert (Hne' : rows_nonempty m') by (eapply charge_nonempty; [|done|exact Ech]; lia).
  assert (Hm1 : 1 <= max_requests rl1) by (rewrite E1; lia).
  pose proof (charge_size _ _ _ _ Hm1 _ _ _ Ech) as Hsz.
  pose proof (rate_keys_length (rq_identity r)) as Hk.
  assert (Hh' : 0 <= hits rl1 < 2 ^ 64) by (rewrite E4; apply Z.mod_pos_bound; lia).
  assert (Hss : since_sweep (hits rl1) = hits rl mod SWEEP_EVERY + 1).
  { rewrite E4. apply since_sweep_next. }
  destruct ok; simpl.
  - destruct (enforce_cap_size (rq_cap r) (rate_keys (rq_identity r)) (with_requests rl1 m'))
      as (Ht & Hn & F1 & F2 & F3); [done|].
    constructor; rewrite ?F1, ?F2, ?F3; simpl; try (done || congruence).
    simpl in Ht. unfold len in Ht. rewrite Hss.
    pose proof (Z.mod_pos_bound (hits rl) SWEEP_EVERY ltac:(done)). lia.
  - constructor; simpl; try (done || congruence). unfold tracked_ips in *. simpl.
    rewrite Hss. pose proof (Z.mod_pos_bound (hits rl) SWEEP_EVERY ltac:(done)).
    destruct (Z.eq_dec (hits rl mod SWEEP_EVERY) 0) as [E|E]; [specialize (Hsw E); lia|].
    rewrite (since_sweep_nonzero _ E) in Hs. lia.
Qed.

Lemma reachable_inv max secs cap rl : 1 <= max ->
  reachable max secs cap rl -> table_inv max (Z.max cap 1) rl.
Proof.
  intros Hmax. induction 1 as [|rl r _ IH|rl now _ IH].
  - constructor; [done|done|done| |].
    + intros k l. cbn [requests new]. by rewrite lookup_empty.
    + unfold tracked_ips. cbn [requests new hits]. rewrite map_size_empty.
      change (since_sweep 0) with 256. simpl. lia.
  - apply check_table_inv; [done|lia|done].
  - destruct IH as [? ? ? ? ?]. constructor; simpl; try done; [apply evict_nonempty|].
    pose proof (evict_tracked now rl). lia.
Qed.
End Capacity.

(** The table stays bounded whatever the traffic: a limiter with a positive budget never
    tracks more than [max(max_ips, 6) + 1280] keys.  (Rejected requests are not cut back to
    the capacity at once; the sweep every 256 checks does it.) *)
Theorem tracked_keys_bounded {MO : MapOrder RateKey (list Instant)}
    (max secs cap : Z) (rl : RateLimiter) :
  1 <= max -> reachable max secs cap rl -> tracked_ips rl <= Z.max cap 6 + 1280.
Proof.
  intros Hmax Hr. destruct (reachable_inv _ _ _ _ Hmax Hr) as [_ _ _ _ Hs].
  assert (since_sweep (hits rl) <= 256); [|lia].
  unfold since_sweep, SWEEP_EVERY. pose proof (Z.mod_pos_bound (hits rl - 1) 256). lia.
Qed.

Lemma tracked_keys_bounded_witness :
  tracked_ips (@check_request demo_order (demo_request 1) (new 2 60 100)).1 <= Z.max 100 6 + 1280.
Proof.
  apply (@tracked_keys_bounded demo_order 2 60 100); [lia|].
  apply reach_check, reach_new.
Defined.

(** ** The verdict *)

Lemma charge_verdict max w now keys : forall m, NoDup keys ->
  (charge max w now keys m).2 = true
  <-> forall k, k ∈ keys -> len (retain_window id w now (row m k)) < max.
Proof.
  induction keys as [|key keys IH]; intros m Hnd; cbn [charge].
  - split; [|done]. by intros _ k ?%elem_of_nil.
  - apply NoDup_cons in Hnd as [Hkey Hnd].
    destruct (Z.leb_spec max (len (retain_window id w now (row m key)))) as [Hl|Hl].
    + split; [done|]. intros Hall. specialize (Hall key (list_elem_of_here _ _)). lia.
    + rewrite IH by done. split.
      * intros Hall k [->|Hk]%elem_of_cons; [done|]. specialize (Hall k Hk).
        by rewrite row_insert, decide_False in Hall by (intros ->; done).
      * intros Hall k Hk. rewrite row_insert, decide_False by (intros ->; done).
        apply Hall. by right.
Qed.

(** A request is accepted exactly when every key of its identity has fewer than
    [max_requests] readings in the window; a rejection is reported as a [rate_limit] event
    of the site, and an acceptance reports nothing. *)
Theorem check_verdict {MO : MapOrder RateKey (list Instant)}
    (s now c : Instant) (i : RiskIdentity) (uri : bytes) (rl : RateLimiter) :
  let '(_, ok, events) := check s now c i uri rl in
  (ok = true <-> forall k, k ∈ rate_keys i ->
     len (retain_window id (window rl) now (row (requests (maybe_sweep s rl)) k))
     < max_requests rl)
  /\ (ok = true <-> events = [])
  /\ (ok = false -> exists e, events = [e] /\ ev_site e = Some (site i)
                              /\ ev_type e = "rate_limit").
Proof.
  unfold check. destruct (sweep_config s rl) as (E1 & E2 & _ & _).
  assert (Ew : window (maybe_sweep s rl) = window rl) by (unfold window; congruence).
  rewrite E1, Ew.
  destruct (charge _ _ _ _ _) as [m ok] eqn:Ec.
  pose proof (charge_verdict (max_requests rl) (window rl) now (rate_keys i)
    (requests (maybe_sweep s rl)) (rate_keys_nodup i)) as Hv.
  rewrite Ec in Hv. simpl in Hv.
  destruct ok; (split; [exact Hv|]); split; try done. intros _. eauto.
Qed.
