(* ===== verification/ProxyProtocol.v ===== *)
(** * PROXY protocol v2 ([src/proxy_protocol.rs])

    The parser of the binary header a load balancer writes in front of a connection.  A
    stream is the bytes that can still be read from it; [Pingora]'s socket digest, where
    the source address is written, is a parameter of [consume_and_apply]. *)

From S2P Require Import Prelude Net.

(** [src/proxy_protocol.rs: const SIGNATURE] *)
Definition SIGNATURE : bytes :=
  [0x0D; 0x0A; 0x0D; 0x0A; 0x00; 0x0D; 0x0A; 0x51; 0x55; 0x49; 0x54; 0x0A].

(** [src/proxy_protocol.rs: const MAX_HEADER] *)
Definition MAX_HEADER : Z := 16 + 64 * 1024.

(** [src/proxy_protocol.rs: const PREFIX + const UNIX_ADDR] *)
Definition PREFIX : nat := 16.
Definition CMD_LOCAL : Z := 0x00.
Definition CMD_PROXY : Z := 0x01.
Definition FAM_UNSPEC : Z := 0x00.
Definition FAM_INET : Z := 0x01.
Definition FAM_INET6 : Z := 0x02.
Definition FAM_UNIX : Z := 0x03.
Definition INET_ADDR : nat := 12.
Definition INET6_ADDR : nat := 36.
Definition UNIX_ADDR : nat := 216.

(** [src/proxy_protocol.rs: enum ProxyProtocolError] *)
Inductive ProxyProtocolError : Set := NotV2 | Truncated | Oversized | Invalid | Timeout.

(** [src/proxy_protocol.rs: ProxyProtocolError::as_str] *)
Definition error_as_str (e : ProxyProtocolError) : bytes :=
  match e with
  | NotV2 => "prefixo não é PROXY protocol v2"
  | Truncated => "cabeçalho PROXY v2 truncado"
  | Oversized => "cabeçalho PROXY v2 excede 64 KiB+16"
  | Invalid => "cabeçalho PROXY v2 inválido"
  | Timeout => "tempo esgotado a ler PROXY v2"
  end.

(** [src/proxy_protocol.rs: fn enabled] *)
Definition enabled (env : string -> option bytes) : bool :=
  match env "PROXY_PROTOCOL" with Some value => value =s "true" | None => false end.

(** Indexing; every use is guarded by a length test. *)
Definition byte_at (l : bytes) (i : nat) : Z := nth i l 0.

(** [u16::from_be_bytes] and [to_be_bytes] *)
Definition u16_from_be (hi lo : Z) : Z := hi * 256 + lo.
Definition u16_to_be (v : Z) : bytes := [v / 256; v mod 256].

(** [src/proxy_protocol.rs: fn rest_len_from_prefix] *)
Definition rest_len_from_prefix (prefix : bytes) : result ProxyProtocolError Z :=
  if negb (bool_decide (take 12 prefix = SIGNATURE)) then Err NotV2
  else
    let version := Z.shiftr (byte_at prefix 12) 4 in
    if negb (version =? 2) then Err NotV2
    else
      let len := u16_from_be (byte_at prefix 14) (byte_at prefix 15) in
      if MAX_HEADER <? Z.of_nat PREFIX + len then Err Oversized else Ok len.

(** [src/proxy_protocol.rs: fn parse_inet4] *)
Definition parse_inet4 (addr : bytes) : result ProxyProtocolError SocketAddr :=
  if (length addr <? INET_ADDR)%nat then Err Invalid
  else
    let ip := be_value (take 4 addr) in
    let port := u16_from_be (byte_at addr 8) (byte_at addr 9) in
    Ok (SocketV4 ip port).

(** [src/proxy_protocol.rs: fn parse_inet6] *)
Definition parse_inet6 (addr : bytes) : result ProxyProtocolError SocketAddr :=
  if (length addr <? INET6_ADDR)%nat then Err Invalid
  else
    let octets := take 16 addr in
    let port := u16_from_be (byte_at addr 32) (byte_at addr 33) in
    Ok (SocketV6 (be_value octets) port 0 0).

(** [src/proxy_protocol.rs: fn parse_v2] *)
Definition parse_v2 (b : bytes) : result ProxyProtocolError (option SocketAddr * Z) :=
  if (length b <? PREFIX)%nat then Err Truncated
  else
    rest ← rest_len_from_prefix (take PREFIX b);
    let total := Z.of_nat PREFIX + rest in
    if len b <? total then Err Truncated
    else
      let command := Z.land (byte_at b 12) 0x0F in
      if negb (command =? CMD_LOCAL) && negb (command =? CMD_PROXY) then Err Invalid
      else if command =? CMD_LOCAL then Ok (None, total)
      else
        let family := Z.shiftr (byte_at b 13) 4 in
        let addr := drop PREFIX (take (Z.to_nat total) b) in
        source ←
          (if family =? FAM_UNSPEC then Ok None
           else if family =? FAM_INET then Some <$> parse_inet4 addr
           else if family =? FAM_INET6 then Some <$> parse_inet6 addr
           else if family =? FAM_UNIX then
             if (length addr <? UNIX_ADDR)%nat then Err Invalid else Ok None
           else Err Invalid);
        Ok (source, total).

(** [AsyncReadExt::read_exact]: exactly [n] bytes, or an error at the end of the stream. *)
Definition read_exact (n : nat) (stream : bytes) : option (bytes * bytes) :=
  if (length stream <? n)%nat then None else Some (take n stream, drop n stream).

(** [src/proxy_protocol.rs: fn read_v2] -- the outcome and what is left on the stream *)
Definition read_v2 (stream : bytes) : result ProxyProtocolError (option SocketAddr * bytes) :=
  '(prefix, stream) ← ok_or Truncated (read_exact PREFIX stream);
  rest_len ← rest_len_from_prefix prefix;
  '(body, stream) ← (if 0 <? rest_len then ok_or Truncated (read_exact (Z.to_nat rest_len) stream)
                     else Ok ([], stream));
  let header := prefix ++ body in
  r ← parse_v2 header;
  Ok (fst r, stream).

(** [src/proxy_protocol.rs: fn consume_v2] -- [in_time] tells whether the reads finished within
    the deadline of 5 seconds. *)
Definition consume_v2 (in_time : bool) (stream : bytes)
  : result ProxyProtocolError (option SocketAddr * bytes) :=
  if in_time then read_v2 stream else Err Timeout.

Section Apply.
(** The socket digest of the connection and [apply_peer], which replaces its peer. *)
Context {Digest : Type} (apply_peer : Digest -> SocketAddr -> Digest).

(** [src/proxy_protocol.rs: fn consume_and_apply + PreTlsProcess::process] *)
Definition consume_and_apply (in_time : bool) (stream : bytes) (digest : Digest)
  : result ProxyProtocolError (bytes * Digest) :=
  '(source, stream) ← consume_v2 in_time stream;
  Ok (stream, match source with Some addr => apply_peer digest addr | None => digest end).
End Apply.

(** [src/proxy_protocol.rs: fn encode_v2] *)
Definition encode_v2 (source destination : SocketAddr) : result ProxyProtocolError bytes :=
  match source, destination with
  | SocketV4 sip sport, SocketV4 dip dport =>
      Ok (SIGNATURE ++ [Z.lor 0x20 CMD_PROXY] ++ [Z.lor (Z.shiftl FAM_INET 4) 0x01]
          ++ u16_to_be (Z.of_nat INET_ADDR)
          ++ be_octets 4 sip ++ be_octets 4 dip ++ u16_to_be sport ++ u16_to_be dport)
  | SocketV6 sip sport _ _, SocketV6 dip dport _ _ =>
      Ok (SIGNATURE ++ [Z.lor 0x20 CMD_PROXY] ++ [Z.lor (Z.shiftl FAM_INET6 4) 0x01]
          ++ u16_to_be (Z.of_nat INET6_ADDR)
          ++ be_octets 16 sip ++ be_octets 16 dip ++ u16_to_be sport ++ u16_to_be dport)
  | _, _ => Err Invalid
  end.

(** [src/proxy_protocol.rs: fn encode_v2_local] *)
Definition encode_v2_local : bytes :=
  SIGNATURE ++ [Z.lor 0x20 CMD_LOCAL] ++ [0x00] ++ u16_to_be 0.

(** ** The header is a prefix of the stream *)

Lemma byte_at_ok l i : Forall is_byte l -> is_byte (byte_at l i).
Proof.
  intros H. unfold byte_at. destruct (nth_in_or_default i l 0) as [Hin| ->].
  - rewrite Forall_forall in H. apply H. by apply list_elem_of_In.
  - unfold is_byte. lia.
Qed.

Lemma byte_at_take l i n : (i < n)%nat -> byte_at (take n l) i = byte_at l i.
Proof.
  intros Hi. unfold byte_at.
  revert l i Hi. induction n as [|n IH]; intros l i Hi; [lia|].
  destruct l as [|x l]; simpl; [by destruct i|]. destruct i as [|i]; [done|].
  apply IH. lia.
Qed.

(** The declared length is a [u16]: the size limit of the code is never exceeded. *)
Lemma rest_len_spec p r : Forall is_byte p -> rest_len_from_prefix p = r ->
  match r with Ok n => 0 <= n <= 65535 | Err e => e = NotV2 end.
Proof.
  intros Hp <-. unfold rest_len_from_prefix, u16_from_be, MAX_HEADER, PREFIX.
  pose proof (byte_at_ok p 14 Hp). pose proof (byte_at_ok p 15 Hp). unfold is_byte in *.
  destruct (negb _); [done|]. destruct (negb _); [done|].
  destruct (Z.ltb_spec (16 + 64 * 1024)
    (Z.of_nat 16 + (byte_at p 14 * 256 + byte_at p 15))); [exfalso|]; lia.
Qed.

(** Two inputs with the same header parse alike. *)
Lemma parse_v2_prefix b b' rest :
  (PREFIX <= length b)%nat -> rest_len_from_prefix (take PREFIX b) = Ok rest -> 0 <= rest ->
  Z.of_nat PREFIX + rest <= len b -> Z.of_nat PREFIX + rest <= len b' ->
  take (Z.to_nat (Z.of_nat PREFIX + rest)) b' = take (Z.to_nat (Z.of_nat PREFIX + rest)) b ->
  parse_v2 b' = parse_v2 b.
Proof.
  intros Hl Hr Hrest Hb Hb' Heq. unfold len in *.
  set (total := Z.to_nat (Z.of_nat PREFIX + rest)) in *.
  assert (Ht : (PREFIX <= total)%nat) by (subst total; lia).
  assert (Hp : take PREFIX b' = take PREFIX b).
  { apply (f_equal (take PREFIX)) in Heq. by rewrite !take_take, Nat.min_l in Heq by lia. }
  assert (Hat : forall i, (i < PREFIX)%nat -> byte_at b' i = byte_at b i).
  { intros i Hi. rewrite <- (byte_at_take b' i PREFIX), <- (byte_at_take b i PREFIX) by done.
    by rewrite Hp. }
  unfold parse_v2, len. rewrite Hp, Hr, !Hat by (unfold PREFIX; lia). unfold mbind, result_bind.
  destruct (Nat.ltb_spec (length b') PREFIX); [lia|].
  destruct (Nat.ltb_spec (length b) PREFIX); [lia|].
  destruct (Z.ltb_spec (Z.of_nat (length b')) (Z.of_nat PREFIX + rest)); [lia|].
  destruct (Z.ltb_spec (Z.of_nat (length b)) (Z.of_nat PREFIX + rest)); [lia|].
  fold total. by rewrite Heq.
Qed.

Lemma parse_v2_ok_inv b src n : Forall is_byte b -> parse_v2 b = Ok (src, n) ->
  exists rest, rest_len_from_prefix (take PREFIX b) = Ok rest /\ 0 <= rest <= 65535
    /\ n = Z.of_nat PREFIX + rest /\ (PREFIX <= length b)%nat /\ n <= len b.
Proof.
  intros Hb. unfold parse_v2, mbind, result_bind.
  destruct (Nat.ltb_spec (length b) PREFIX); [done|].
  destruct (rest_len_from_prefix (take PREFIX b)) as [rest|] eqn:Er; [|done].
  apply rest_len_spec in Er as Hr; [|by apply Forall_take].
  destruct (Z.ltb_spec (len b) (Z.of_nat PREFIX + rest)); [done|].
  intros H1. exists rest. split; [done|]. split; [done|].
  enough (n = Z.of_nat PREFIX + rest) by (repeat split; (done || lia)).
  revert H1. repeat case_match; intros; simplify_eq; done.
Qed.

(** An accepted header is between 16 and 65551 bytes long, lies within the input, and the
    result depends on those bytes alone: what follows on the connection (a TLS hello, a
    request) is never interpreted.  The size error is never reported, since the declared
    length has 16 bits. *)
Theorem parse_v2_bounds (b : bytes) :
  Forall is_byte b ->
  parse_v2 b <> Err Oversized
  /\ forall src n, parse_v2 b = Ok (src, n) ->
       16 <= n <= 65551 /\ n <= len b
       /\ forall payload, parse_v2 (take (Z.to_nat n) b ++ payload) = Ok (src, n).
Proof.
  intros Hb. split.
  - unfold parse_v2, mbind, result_bind.
    destruct (Nat.ltb_spec (length b) PREFIX); [done|].
    destruct (rest_len_from_prefix (take PREFIX b)) as [rest|e] eqn:Er.
    + destruct (len b <? _); [done|]. unfold parse_inet4, parse_inet6, fmap, result_fmap.
      repeat match goal with |- context [if ?c then _ else _] => destruct c end; done.
    + apply rest_len_spec in Er as Hr; [|by apply Forall_take]. congruence.
  - intros src n Hp. destruct (parse_v2_ok_inv _ _ _ Hb Hp) as (rest & Er & Hr & -> & Hl & Hn).
    unfold PREFIX in *. split; [lia|]. split; [done|]. intros payload. rewrite <- Hp.
    assert (Hlt : length (take (Z.to_nat (Z.of_nat 16 + rest)) b) = Z.to_nat (Z.of_nat 16 + rest))
      by (rewrite length_take; unfold len in Hn; lia).
    apply parse_v2_prefix with rest; try done; try lia.
    + unfold PREFIX. rewrite len_app. unfold len at 1. rewrite Hlt. pose proof (len_nonneg payload). lia.
    + by rewrite take_app_length' by done.
Qed.

Lemma parse_v2_bounds_witness :
  parse_v2 (encode_v2_local ++ [22; 3; 1]) = Ok (None, 16)
  /\ parse_v2 (take 16 (encode_v2_local ++ [22; 3; 1]) ++ [7]) = Ok (None, 16).
Proof.
  split; [reflexivity|].
  assert (Hb : Forall is_byte (encode_v2_local ++ [22; 3; 1])) by (repeat constructor; discriminate).
  exact (proj2 (proj2 (proj2 (parse_v2_bounds _ Hb) None 16 eq_refl)) [7]).
Defined.

(** Reading the header from the connection in two steps (prefix, then the declared rest)
    gives the same source, the same errors, and leaves exactly the bytes after the header,
    as parsing the whole input at once. *)
Theorem read_v2_parse (stream : bytes) :
  Forall is_byte stream ->
  read_v2 stream = match parse_v2 stream with
                   | Ok (src, n) => Ok (src, drop (Z.to_nat n) stream)
                   | Err e => Err e
                   end.
Proof.
  intros Hb. unfold read_v2, read_exact, mbind, result_bind.
  destruct (Nat.ltb_spec (length stream) PREFIX) as [Hl|Hl].
  { unfold parse_v2. by destruct (Nat.ltb_spec (length stream) PREFIX); [|lia]. }
  cbn [ok_or]. destruct (rest_len_from_prefix (take PREFIX stream)) as [rest|e] eqn:Er.
  2:{ unfold parse_v2, mbind, result_bind. rewrite Er.
      by destruct (Nat.ltb_spec (length stream) PREFIX); [lia|]. }
  apply rest_len_spec in Er as Hr; [|by apply Forall_take].
  rewrite length_drop.
  destruct (Z.ltb_spec (len stream) (Z.of_nat PREFIX + rest)) as [Hs|Hs].
  { destruct (Z.ltb_spec 0 rest); [|unfold len in Hs; lia].
    destruct (Nat.ltb_spec (length stream - PREFIX) (Z.to_nat rest));
      [|unfold len in Hs; lia]. cbn [ok_or].
    unfold parse_v2, mbind, result_bind. rewrite Er.
    destruct (Nat.ltb_spec (length stream) PREFIX); [lia|].
    by destruct (Z.ltb_spec (len stream) (Z.of_nat PREFIX + rest)); [|lia]. }
  assert (Hbody : (if 0 <? rest
     then ok_or Truncated (if (length stream - PREFIX <? Z.to_nat rest)%nat then None
            else Some (take (Z.to_nat rest) (drop PREFIX stream),
                       drop (Z.to_nat rest) (drop PREFIX stream)))
     else Ok ([], drop PREFIX stream))
    = Ok (take (Z.to_nat rest) (drop PREFIX stream),
          drop (Z.to_nat (Z.of_nat PREFIX + rest)) stream)).
  { rewrite Z2Nat.inj_add, Nat2Z.id, <- drop_drop by lia. unfold len in Hs.
    destruct (Z.ltb_spec 0 rest).
    - by destruct (Nat.ltb_spec (length stream - PREFIX) (Z.to_nat rest)); [lia|].
    - by replace rest with 0 by lia. }
  rewrite Hbody. cbv beta iota. rewrite take_take_drop.
  assert (Hh : parse_v2 (take (PREFIX + Z.to_nat rest) stream) = parse_v2 stream).
  { apply parse_v2_prefix with rest; try done; try lia.
    - unfold len in *. rewrite length_take. lia.
    - rewrite take_take. f_equal. lia. }
  rewrite Hh. destruct (parse_v2 stream) as [[src n]|e] eqn:Ep; [|done].
  destruct (parse_v2_ok_inv _ _ _ Hb Ep) as (rest' & Er' & _ & -> & _).
  rewrite Er in Er'. by injection Er' as <-.
Qed.

Lemma read_v2_parse_witness : read_v2 (encode_v2_local ++ [22; 3; 1]) = Ok (None, [22; 3; 1]).
Proof.
  rewrite read_v2_parse; [reflexivity|]. repeat constructor; discriminate.
Defined.

(** ** Encoding *)

(** The address without the flow label and the scope, which the header does not carry. *)
Definition wire_addr (a : SocketAddr) : SocketAddr :=
  match a with SocketV4 i p => SocketV4 i p | SocketV6 i p _ _ => SocketV6 i p 0 0 end.

Definition socket_ok (a : SocketAddr) : Prop :=
  match a with
  | SocketV4 i p => 0 <= i < 2 ^ 32 /\ 0 <= p < 65536
  | SocketV6 i p _ _ => 0 <= i < 2 ^ 128 /\ 0 <= p < 65536
  end.

Lemma u16_roundtrip p : u16_from_be (p / 256) (p mod 256) = p.
Proof. unfold u16_from_be. rewrite Z.mul_comm. symmetry. apply Z.div_mod. lia. Qed.

Lemma parse_v2_app h payload src rest n :
  rest_len_from_prefix (take PREFIX h) = Ok rest -> 0 <= rest ->
  len h = Z.of_nat PREFIX + rest -> parse_v2 h = Ok (src, n) ->
  parse_v2 (h ++ payload) = Ok (src, n).
Proof.
  intros Hr Hrest Hl <-. apply parse_v2_prefix with rest; try done; try lia.
  - unfold len, PREFIX in *. lia.
  - rewrite len_app. pose proof (len_nonneg payload). lia.
  - rewrite <- Hl. unfold len. rewrite Nat2Z.id, firstn_all. by rewrite take_app_length.
Qed.

Lemma parse_inet4_header a d p1 p2 q1 q2 payload : length a = 4%nat -> length d = 4%nat ->
  parse_v2 ((SIGNATURE ++ [0x21; 0x11; 0; 12] ++ a ++ d ++ [p1; p2; q1; q2]) ++ payload)
  = Ok (Some (SocketV4 (be_value a) (u16_from_be p1 p2)), 28).
Proof.
  intros Ha Hd. do 5 (destruct a as [|? a]; try done). do 5 (destruct d as [|? d]; try done).
  apply (parse_v2_app _ _ _ 12); [reflexivity|lia|reflexivity|reflexivity].
Qed.

Lemma parse_inet6_header a d p1 p2 q1 q2 payload : length a = 16%nat -> length d = 16%nat ->
  parse_v2 ((SIGNATURE ++ [0x21; 0x21; 0; 36] ++ a ++ d ++ [p1; p2; q1; q2]) ++ payload)
  = Ok (Some (SocketV6 (be_value a) (u16_from_be p1 p2) 0 0), 52).
Proof.
  intros Ha Hd. do 17 (destruct a as [|? a]; try done). do 17 (destruct d as [|? d]; try done).
  apply (parse_v2_app _ _ _ 36); [reflexivity|lia|reflexivity|reflexivity].
Qed.

(** A header written by [encode_v2] parses back to the source address and its own length,
    whatever follows it, and [encode_v2] refuses exactly the pairs of mixed families. *)
Theorem encode_v2_roundtrip (src dst : SocketAddr) (payload : bytes) :
  socket_ok src -> socket_ok dst ->
  match encode_v2 src dst with
  | Ok h => parse_v2 (h ++ payload) = Ok (Some (wire_addr src), len h)
  | Err e => e = Invalid
      /\ match src, dst with SocketV4 _ _, SocketV4 _ _ | SocketV6 _ _ _ _, SocketV6 _ _ _ _ => False
         | _, _ => True end
  end.
Proof.
  destruct src as [si sp|si sp sf ss], dst as [di dp|di dp df ds]; try done; intros [Hi Hp] _.
  - unfold encode_v2.
    pose proof (parse_inet4_header (be_octets 4 si) (be_octets 4 di) (sp / 256) (sp mod 256)
      (dp / 256) (dp mod 256) payload (be_octets_length 4 si) (be_octets_length 4 di)) as H.
    rewrite be_value_octets, u16_roundtrip in H by done. exact H.
  - unfold encode_v2.
    pose proof (parse_inet6_header (be_octets 16 si) (be_octets 16 di) (sp / 256) (sp mod 256)
      (dp / 256) (dp mod 256) payload (be_octets_length 16 si) (be_octets_length 16 di)) as H.
    rewrite be_value_octets, u16_roundtrip in H by done. exact H.
Qed.

Lemma encode_v2_roundtrip_witness :
  match encode_v2 (SocketV4 3405803777 5001) (SocketV4 167772161 443) with
  | Ok h => parse_v2 (h ++ [22; 3; 1]) = Ok (Some (SocketV4 3405803777 5001), len h)
  | Err _ => False
  end.
Proof.
  apply (encode_v2_roundtrip (SocketV4 3405803777 5001) (SocketV4 167772161 443) [22; 3; 1]);
    vm_compute; intuition discriminate.
Defined.
