(* ===== verification/Shield.v ===== *)
(** * Request envelope checks ([src/shield.rs])

    The limits read from the environment and the checks of method, URI length, header
    volume, host, user agent and message framing.  A check returns its verdict and the
    block events it records.

    [str::to_uppercase] and [str::to_lowercase] follow the Unicode tables: they are the
    operations of the class [UnicodeCase], of which only the behaviour on ASCII strings is
    assumed. *)

From S2P Require Import Prelude Net.

Class UnicodeCase : Type := {
  to_uppercase : bytes -> bytes;
  to_lowercase : bytes -> bytes;
  to_uppercase_ascii : forall s, forallb is_ascii s = true -> to_uppercase s = to_ascii_uppercase s;
  to_lowercase_ascii : forall s, forallb is_ascii s = true -> to_lowercase s = to_ascii_lowercase s;
}.

(** Case mapping restricted to ASCII, to evaluate with. *)
Definition ascii_case : UnicodeCase := {|
  to_uppercase := to_ascii_uppercase; to_lowercase := to_ascii_lowercase;
  to_uppercase_ascii := fun s _ => eq_refl; to_lowercase_ascii := fun s _ => eq_refl;
|}.

(** ** Limits *)

(** [src/shield.rs: const DEFAULT_ALLOWED] *)
Definition DEFAULT_ALLOWED : bytes := "GET,POST,PUT,PATCH,DELETE,HEAD,OPTIONS".

(** [src/shield.rs: const MAX_REPLAYABLE_BODY + const DEFAULT_MAX_BODY] *)
Definition MAX_REPLAYABLE_BODY : Z := 65536.
Definition DEFAULT_MAX_BODY : Z := MAX_REPLAYABLE_BODY.

(** [src/shield.rs: const DEFAULT_MAX_URI + const DEFAULT_MAX_HEADER_BYTES] *)
Definition DEFAULT_MAX_URI : Z := 8192.
Definition DEFAULT_MAX_HEADER_COUNT : Z := 100.
Definition DEFAULT_MAX_HEADER_BYTES : Z := 65536.

(** [src/shield.rs: static ALLOWED_METHODS] *)
Definition ALLOWED_METHODS `{UnicodeCase} (env : Env) : list bytes :=
  base.filter (fun m => is_empty m = false)
    (map (fun m => to_uppercase (trim m)) (split_on 44 (default DEFAULT_ALLOWED (env "ALLOWED_METHODS")))).

(** [src/shield.rs: static MAX_BODY_SIZE] *)
Definition MAX_BODY_SIZE (env : Env) : Z :=
  Z.min (env_positive env "MAX_BODY_SIZE" usize_max DEFAULT_MAX_BODY) MAX_REPLAYABLE_BODY.

(** [src/shield.rs: static MAX_URI_LENGTH] *)
Definition MAX_URI_LENGTH (env : Env) : Z :=
  default DEFAULT_MAX_URI (env "MAX_URI_LENGTH" ≫= parse_uint usize_max).

(** [src/shield.rs: static MAX_HEADER_COUNT] *)
Definition MAX_HEADER_COUNT (env : Env) : Z :=
  env_positive env "MAX_HEADER_COUNT" usize_max DEFAULT_MAX_HEADER_COUNT.

(** [src/shield.rs: static MAX_HEADER_BYTES] *)
Definition MAX_HEADER_BYTES (env : Env) : Z :=
  env_positive env "MAX_HEADER_BYTES" usize_max DEFAULT_MAX_HEADER_BYTES.

(** [src/shield.rs: static ALLOWED_HOSTS] *)
Definition ALLOWED_HOSTS `{UnicodeCase} (env : Env) : option (list bytes) :=
  (fun hosts => base.filter (fun h => is_empty h = false)
                  (map (fun h => to_lowercase (trim h)) (split_on 44 hosts)))
  <$> env "ALLOWED_HOSTS".

(** [src/shield.rs: enum ShieldVerdict] *)
Inductive ShieldVerdict : Set :=
| Allow | BlockMethod | BlockBodySize | BlockUriLength | BlockHost | BlockBadBot
| BlockSmuggling | BlockHeaders.

#[export] Instance ShieldVerdict_eq_dec : EqDecision ShieldVerdict.
Proof. solve_decision. Defined.

Definition record_block (type : bytes) (client uri detail : bytes) : BlockEvent := {|
  ev_site := None; ev_type := type; ev_client := LabelText client; ev_uri := uri; ev_detail := detail |}.
Definition record_block_in (site type client uri detail : bytes) : BlockEvent := {|
  ev_site := Some site; ev_type := type; ev_client := LabelText client; ev_uri := uri;
  ev_detail := detail |}.

Definition mem (x : bytes) (l : list bytes) : bool := existsb (bytes_eqb x) l.

(** ** Volume and method *)

(** [src/shield.rs: fn check_headers] *)
Definition check_headers (env : Env) (header_count header_bytes : Z) (uri client : bytes)
  : ShieldVerdict * list BlockEvent :=
  if (MAX_HEADER_COUNT env <? header_count) || (MAX_HEADER_BYTES env <? header_bytes) then
    (BlockHeaders, [record_block "header_limit" client uri
       (show_dec header_count ++ lit " headers, " ++ show_dec header_bytes ++ lit " bytes")])
  else (Allow, []).

(** [src/shield.rs: fn check_method] *)
Definition check_method `{UnicodeCase} (env : Env) (method uri client site : bytes)
  : ShieldVerdict * list BlockEvent :=
  if negb (mem (to_uppercase method) (ALLOWED_METHODS env)) then
    (BlockMethod, [record_block_in site "method" client uri (lit "Blocked method: " ++ method)])
  else (Allow, []).

(** [s.is_char_boundary(i)] on the UTF-8 bytes of a string. *)
Definition is_char_boundary (s : bytes) (i : nat) : bool :=
  match s !! i with
  | Some b => negb (in_range 128 191 b)
  | None => (i =? length s)%nat
  end.

(** [&s[..i]]: panics ([None]) unless [i] is a character boundary. *)
Definition slice_to (s : bytes) (i : nat) : option bytes :=
  if is_char_boundary s i then Some (take i s) else None.

(** [src/shield.rs: fn check_uri_length] [None] is a panic. *)
Definition check_uri_length (env : Env) (uri client site : bytes)
  : option (ShieldVerdict * list BlockEvent) :=
  if MAX_URI_LENGTH env <? len uri then
    head ← slice_to uri (128 `min` length uri);
    Some (BlockUriLength, [record_block_in site "size_limit" client head
       (lit "URI length " ++ show_dec (len uri) ++ lit " > max " ++ show_dec (MAX_URI_LENGTH env))])
  else Some (Allow, []).

(** [src/shield.rs: fn max_body_size] *)
Definition max_body_size (env : Env) : Z := MAX_BODY_SIZE env.

(** [src/shield.rs: fn body_would_exceed] *)
Definition body_would_exceed (env : Env) (current_len chunk_len : Z) : bool :=
  MAX_BODY_SIZE env <? saturating_add usize_max current_len chunk_len.

(** [src/shield.rs: fn check_body_size] *)
Definition check_body_size (env : Env) (content_length : Z) (uri client : bytes)
  : ShieldVerdict * list BlockEvent :=
  if MAX_BODY_SIZE env <? content_length then
    (BlockBodySize, [record_block "size_limit" client uri
       (lit "Body size " ++ show_dec content_length ++ lit " > max " ++ show_dec (MAX_BODY_SIZE env))])
  else (Allow, []).

(** ** Host *)

(** [src/shield.rs: fn check_host] *)
Definition check_host `{UnicodeCase} (env : Env) (host_header uri client : bytes)
  : ShieldVerdict * list BlockEvent :=
  match ALLOWED_HOSTS env with
  | Some allowed =>
      if negb (mem (to_lowercase (before 58 host_header)) allowed) then
        (BlockHost, [record_block "host" client uri (lit "Blocked host: " ++ host_header)])
      else (Allow, [])
  | None => (Allow, [])
  end.

(** The bytes a header name is made of: [!#$%&'*+-.^_`|~], digits and letters. *)
Definition is_token_byte (b : Z) : bool :=
  is_ascii_alphanumeric b
  || existsb (Z.eqb b) [33; 35; 36; 37; 38; 39; 42; 43; 45; 46; 94; 95; 96; 124; 126].

(** [src/shield.rs: fn is_http_token] *)
Definition is_http_token (s : bytes) : bool := negb (is_empty s) && forallb is_token_byte s.

(** [src/shield.rs: fn connection_hop_by_hop_names] *)
Definition connection_hop_by_hop_names (values : list bytes) : list bytes :=
  flat_map (fun value => base.filter (fun name => is_http_token name = true)
                           (map trim (split_on 44 value))) values.

(** [src/shield.rs: fn split_host_port] *)
Definition split_host_port (value : bytes) : option (bytes * option bytes) :=
  let value := match rsplit_once 64 value with Some (_, rest) => rest | None => value end in
  match strip_prefix [91] value with
  | Some rest =>
      '(host, rest) ← split_once 93 rest;
      if is_empty host then None
      else if is_empty rest then Some (host, None)
      else port ← strip_prefix [58] rest; Some (host, Some port)
  | None =>
      match rsplit_once 58 value with
      | Some (host, port) =>
          if negb (is_empty host) && negb (is_empty port) && forallb is_ascii_digit port
          then Some (host, Some port)
          else if negb (is_empty value) then Some (value, None) else None
      | None => if negb (is_empty value) then Some (value, None) else None
      end
  end.

(** [src/shield.rs: fn authorities_match] *)
Definition authorities_match (host_header uri_authority : bytes) : bool :=
  match split_host_port host_header, split_host_port uri_authority with
  | Some (host_a, port_a), Some (host_b, port_b) =>
      if negb (eq_ignore_ascii_case host_a host_b) then false
      else match port_a, port_b with
           | Some l, Some r => l =s r
           | _, _ => true
           end
  | _, _ => false
  end.

Definition trimmed_nonempty (o : option bytes) : option bytes :=
  match o with
  | Some v => let v := trim v in if is_empty v then None else Some v
  | None => None
  end.

(** [src/shield.rs: fn check_host_authority] *)
Definition check_host_authority (host_header uri_authority : option bytes) (uri client : bytes)
  : ShieldVerdict * list BlockEvent :=
  match trimmed_nonempty host_header, trimmed_nonempty uri_authority with
  | Some host, Some authority =>
      if authorities_match host authority then (Allow, [])
      else (BlockHost, [record_block "host" client uri
              (lit "Host " ++ host ++ lit " != :authority " ++ authority)])
  | _, _ => (Allow, [])
  end.

(** ** User agent *)

(** [src/shield.rs: static BAD_BOT_ENABLED] *)
Definition BAD_BOT_ENABLED (env : Env) : bool :=
  match env "BAD_BOT_ENABLED" with Some v => negb (v =s "false") | None => true end.

(** [src/shield.rs: const BAD_BOT_SIGNATURES] *)
Definition BAD_BOT_SIGNATURES : list bytes :=
  map lit ["nikto"; "sqlmap"; "nessus"; "openvas"; "nmap"; "dirbuster"; "gobuster"; "wfuzz";
           "ffuf"; "hydra"; "metasploit"; "masscan"; "zmeu"; "w3af"; "nuclei"; "whatweb";
           "skipfish"; "arachni"].

(** [src/shield.rs: fn ua_is_weak] *)
Definition ua_is_weak (ua : bytes) : bool :=
  let ua_lower := to_ascii_lowercase ua in
  existsb (fun sig => contains ua_lower sig) BAD_BOT_SIGNATURES.

(** [src/shield.rs: fn check_user_agent] *)
Definition check_user_agent (env : Env) (ua uri client site : bytes)
  : ShieldVerdict * list BlockEvent :=
  if negb (BAD_BOT_ENABLED env) then (Allow, [])
  else
    let ua_lower := to_ascii_lowercase ua in
    match List.find (fun sig => contains ua_lower sig) BAD_BOT_SIGNATURES with
    | Some sig => (BlockBadBot, [record_block_in site "bad_bot" client uri (lit "Bad bot UA: " ++ sig)])
    | None => (Allow, [])
    end.

(** ** Framing *)

(** [src/shield.rs: fn check_smuggling] *)
Definition check_smuggling (has_content_length : bool)
    (content_length_count transfer_encoding_count : Z) (transfer_encoding : option bytes)
    (uri client site : bytes) : ShieldVerdict * list BlockEvent :=
  let block detail := (BlockSmuggling, [record_block_in site "smuggling" client uri detail]) in
  if 1 <? content_length_count then block "Multiple Content-Length headers"
  else if 1 <? transfer_encoding_count then block "Multiple Transfer-Encoding headers"
  else if has_content_length && (0 <? transfer_encoding_count) then block "CL + TE conflict"
  else match transfer_encoding with
       | Some te =>
           if has_content_length then block "CL + TE conflict"
           else
             let te_lower := to_ascii_lowercase (trim te) in
             if negb (te_lower =s "chunked") && negb (te_lower =s "identity")
             then block (lit "Bad TE: " ++ te)
             else (Allow, [])
       | None => (Allow, [])
       end.

(** ** Properties *)

Section HostPort.

(** An authority as RFC 3986 writes it: optional user information, a host (bracketed when
    it is an IPv6 literal), an optional port. *)
Record Authority : Type := {
  a_user : option bytes; a_bracketed : bool; a_host : bytes; a_port : option bytes;
}.

Definition render_authority (a : Authority) : bytes :=
  match a_user a with Some u => u ++ [64] | None => [] end
  ++ (if a_bracketed a then [91] ++ a_host a ++ [93] else a_host a)
  ++ match a_port a with Some p => 58 :: p | None => [] end.

Definition authority_ok (a : Authority) : bool :=
  negb (is_empty (a_host a)) && negb (bool_decide (64 ∈ a_host a))
  && (if a_bracketed a then negb (bool_decide (93 ∈ a_host a))
      else negb (bool_decide (58 ∈ a_host a)) && negb (starts_with (a_host a) [91]))
  && match a_port a with
     | Some p => negb (is_empty p) && forallb is_ascii_digit p
     | None => true
     end.

Lemma digits_no_byte c p : forallb is_ascii_digit p = true -> is_ascii_digit c = false -> c ∉ p.
Proof.
  intros Hp Hc Hin%list_elem_of_In. rewrite forallb_forall in Hp. apply Hp in Hin. congruence.
Qed.

(** Reading back a rendered authority. *)
Lemma split_host_port_render a : authority_ok a = true ->
  split_host_port (render_authority a) = Some (a_host a, a_port a).
Proof.
  destruct a as [u br h p]. unfold authority_ok, render_authority. simpl. intros H.
  bool_to_prop. rename H into Hne, H2 into Hat, H1 into Hbr, H0 into Hp.
  set (tail := (if br then 91 :: h ++ [93] else h) ++ _).
  assert (Htail : 64 ∉ tail).
  { subst tail. intros [Hh|Ht]%elem_of_app.
    - destruct br; [|done].
      apply elem_of_cons in Hh as [?|[?|?%list_elem_of_singleton]%elem_of_app]; done.
    - destruct p as [p|]; [|by apply not_elem_of_nil in Ht]. bool_to_prop.
      apply elem_of_cons in Ht as [?|Ht]; [done|].
      by eapply digits_no_byte in Ht. }
  unfold split_host_port.
  assert (Hv : (match rsplit_once 64 (match u with Some u0 => u0 ++ [64] | None => [] end ++ tail) with
                | Some (_, rest) => rest
                | None => match u with Some u0 => u0 ++ [64] | None => [] end ++ tail end) = tail).
  { destruct u as [u|].
    - rewrite <- app_assoc. simpl. by rewrite (proj2 (rsplit_once_spec 64 _ u tail)).
    - simpl. by rewrite rsplit_once_none. }
  simpl app in Hv |- *. rewrite Hv. subst tail. destruct br.
  - cbn [strip_prefix app Z.eqb Pos.eqb].
    bool_to_prop. rewrite <- app_assoc. simpl.
    rewrite (proj2 (split_once_spec 93 _ h _)) by done. simpl. rewrite Hne.
    destruct p as [p|]; [|done]. simpl. done.
  - destruct (strip_prefix [91] _) as [r|] eqn:E.
    { apply strip_prefix_spec in E. bool_to_prop. destruct h as [|x h]; [done|].
      injection E as -> _. by unfold starts_with in *. }
    bool_to_prop. destruct p as [p|].
    + apply andb_true_iff in Hp as [Hpe%negb_true_iff Hpd].
      rewrite (proj2 (rsplit_once_spec 58 _ h p)).
      * by rewrite Hne, Hpe, Hpd.
      * split; [done|]. by apply digits_no_byte.
    + rewrite app_nil_r. rewrite rsplit_once_none by done. by rewrite Hne.
Qed.
End HostPort.

(** The origin check of a request on authorities in the usual form: they match exactly
    when the hosts are equal up to ASCII case and the ports, where both are written, are the
    same.  User information never takes part. *)
Theorem authorities_match_spec (a b : Authority) :
  authority_ok a = true -> authority_ok b = true ->
  authorities_match (render_authority a) (render_authority b) = true
  <-> to_ascii_lowercase (a_host a) = to_ascii_lowercase (a_host b)
      /\ forall p q, a_port a = Some p -> a_port b = Some q -> p = q.
Proof.
  intros Ha Hb. unfold authorities_match, eq_ignore_ascii_case.
  rewrite !split_host_port_render by done.
  destruct (_ =s _) eqn:E; simpl.
  - apply bytes_eqb_eq in E. destruct (a_port a) as [p|], (a_port b) as [q|];
      rewrite ?bytes_eqb_eq; naive_solver.
  - split; [done|]. intros [H _]. by rewrite H, bytes_eqb_refl in E.
Qed.

Lemma authorities_match_spec_witness :
  authorities_match "admin@Example.com:443" "example.com:443" = true.
Proof.
  apply (authorities_match_spec
    {| a_user := Some ("admin" : bytes); a_bracketed := false; a_host := "Example.com"; a_port := Some ("443" : bytes) |}
    {| a_user := None; a_bracketed := false; a_host := "example.com"; a_port := Some ("443" : bytes) |});
    [reflexivity|reflexivity|]. split; [reflexivity|]. simpl. congruence.
Defined.

(** The limit on buffered bodies never exceeds what the proxy can replay, whatever the
    environment. *)
Lemma max_body_size_range env : 0 < MAX_BODY_SIZE env <= MAX_REPLAYABLE_BODY.
Proof.
  unfold MAX_BODY_SIZE, DEFAULT_MAX_BODY, MAX_REPLAYABLE_BODY.
  pose proof (env_positive_range env "MAX_BODY_SIZE" usize_max 65536 ltac:(done)). lia.
Qed.

(** The URI check: allowed up to the limit; beyond it the request is blocked with one
    event, except that recording the event panics exactly when byte 128 of the URI is inside
    a multi-byte character. *)
Theorem check_uri_length_spec (env : Env) (uri client site : bytes) :
  match check_uri_length env uri client site with
  | Some (Allow, evs) => len uri <= MAX_URI_LENGTH env /\ evs = []
  | Some (v, evs) => v = BlockUriLength /\ MAX_URI_LENGTH env < len uri
      /\ exists d, evs = [record_block_in site "size_limit" client (take 128 uri) d]
  | None => MAX_URI_LENGTH env < len uri /\ exists b, uri !! 128%nat = Some b /\ 128 <= b <= 191
  end.
Proof.
  unfold check_uri_length. destruct (Z.ltb_spec (MAX_URI_LENGTH env) (len uri)) as [Hl|]; [|done].
  unfold slice_to, is_char_boundary. destruct (Nat.min_spec 128 (length uri)) as [[H ->]|[H ->]].
  - destruct (lookup_lt_is_Some_2 uri 128) as [b Hb]; [done|]. rewrite Hb.
    destruct (in_range 128 191 b) eqn:E; simpl; [|eauto].
    unfold in_range in E. bool_to_prop. eauto.
  - rewrite lookup_ge_None_2 by done. rewrite Nat.eqb_refl. simpl.
    split; [done|]. split; [done|]. eexists.
    by rewrite (take_ge uri (length uri)), take_ge by lia.
Qed.

(** The slice does panic on a URI an operator limit rejects: 127 ASCII bytes followed by a
    two-byte character, with [MAX_URI_LENGTH=64]. *)
Example check_uri_length_panics :
  check_uri_length (fun n => if String.eqb n "MAX_URI_LENGTH" then Some ("64" : bytes) else None)
    (repeat 97 127 ++ [195; 169]) [] [] = None.
Proof. reflexivity. Qed.

(** The allow list is compared with what precedes the first colon, so an IPv6 entry never
    admits its own host. *)
Example check_host_ipv6 :
  (@check_host ascii_case
     (fun n => if String.eqb n "ALLOWED_HOSTS" then Some ("[::1]" : bytes) else None)
     "[::1]:443" "/" []).1 = BlockHost.
Proof. reflexivity. Qed.
