(* ===== verification/Http.v ===== *)
(** * Header maps

    What the program relies on from [http::HeaderMap] and the header methods of pingora's
    [RequestHeader] and [ResponseHeader]: an interface, against which the rewriting of
    upstream requests and the reading of origin responses are proved.  A header map lists
    its fields ([hm_iter]); the values of a name are found ignoring ASCII case, in order. *)

From S2P Require Import Prelude.

(** A header value readable as text ([HeaderValue::to_str]): visible ASCII and tab. *)
Definition is_visible_ascii (b : Z) : bool := in_range 32 126 b || (b =? 9).
Definition to_str (v : bytes) : option bytes := if forallb is_visible_ascii v then Some v else None.

Definition named (n : bytes) (f : bytes * bytes) : Prop := eq_ignore_ascii_case n (f.1) = true.
#[export] Instance named_dec n f : Decision (named n f).
Proof. unfold named. apply _. Defined.

Definition values_of (n : bytes) (fields : list (bytes * bytes)) : list bytes :=
  map snd (base.filter (named n) fields).

(** [insert_header] and [append_header] give [None] on a name or value they refuse. *)
Class HeaderMap (H : Type) : Type := {
  hm_empty : H;
  hm_iter : H -> list (bytes * bytes);
  remove_header : bytes -> H -> H;
  insert_header : bytes -> bytes -> H -> option H;
  append_header : bytes -> bytes -> H -> option H;
  iter_empty : hm_iter hm_empty = [];
  values_remove : forall n h m, values_of m (hm_iter (remove_header n h))
    = if eq_ignore_ascii_case n m then [] else values_of m (hm_iter h);
  values_insert : forall n v h h' m, insert_header n v h = Some h' ->
    values_of m (hm_iter h') = if eq_ignore_ascii_case n m then [v] else values_of m (hm_iter h);
  values_append : forall n v h h' m, append_header n v h = Some h' ->
    values_of m (hm_iter h')
    = values_of m (hm_iter h) ++ (if eq_ignore_ascii_case n m then [v] else []);
  accepts : bytes -> bytes -> bool;
  insert_accepts : forall n v h, is_Some (insert_header n v h) <-> accepts n v = true;
  append_accepts : forall n v h, is_Some (append_header n v h) <-> accepts n v = true;
}.

Section Operations.
Context {H : Type} {HM : HeaderMap H}.

Definition get_all (h : H) (n : bytes) : list bytes := values_of n (hm_iter h).
Definition get (h : H) (n : bytes) : option bytes := head (get_all h n).
Definition contains_key (h : H) (n : bytes) : bool := negb (is_empty (get_all h n)).
(** [headers.get(n).and_then(|v| v.to_str().ok())] *)
Definition get_str (h : H) (n : bytes) : option bytes := get h n ≫= to_str.

Definition remove_all (ns : list bytes) (h : H) : H := fold_left (fun h n => remove_header n h) ns h.

Lemma get_all_remove n h m :
  get_all (remove_header n h) m = if eq_ignore_ascii_case n m then [] else get_all h m.
Proof. apply values_remove. Qed.

Lemma get_all_insert n v h h' m : insert_header n v h = Some h' ->
  get_all h' m = if eq_ignore_ascii_case n m then [v] else get_all h m.
Proof. apply values_insert. Qed.

Lemma get_all_remove_all ns h m : get_all (remove_all ns h) m
  = if existsb (fun n => eq_ignore_ascii_case n m) ns then [] else get_all h m.
Proof.
  revert h. induction ns as [|n ns IH]; intros h; [done|].
  change (remove_all (n :: ns) h) with (remove_all ns (remove_header n h)).
  rewrite IH, get_all_remove. simpl.
  destruct (eq_ignore_ascii_case n m); simpl; [|done]. by destruct (existsb _ ns).
Qed.

Lemma insert_is_some n v h : accepts n v = true -> exists h', insert_header n v h = Some h'.
Proof. intros Ha. by apply (insert_accepts n v h). Qed.
End Operations.

Lemma eq_ignore_refl n : eq_ignore_ascii_case n n = true.
Proof. unfold eq_ignore_ascii_case. apply bytes_eqb_refl. Qed.

Lemma eq_ignore_true a b :
  eq_ignore_ascii_case a b = true <-> to_ascii_lowercase a = to_ascii_lowercase b.
Proof. unfold eq_ignore_ascii_case. apply bytes_eqb_eq. Qed.

Lemma eq_ignore_sym a b : eq_ignore_ascii_case a b = eq_ignore_ascii_case b a.
Proof. apply eq_iff_eq_true. by rewrite !eq_ignore_true. Qed.

Lemma eq_ignore_trans a b c : eq_ignore_ascii_case a b = true ->
  eq_ignore_ascii_case a c = eq_ignore_ascii_case b c.
Proof.
  intros Hab. apply eq_iff_eq_true. rewrite !eq_ignore_true in *. by rewrite Hab.
Qed.

(** ** Association lists

    A header map that accepts every name and value, to evaluate with. *)

Section Assoc.
Abbreviation fields := (list (bytes * bytes)).

Definition assoc_remove (n : bytes) (h : fields) : fields := base.filter (fun f => ~ named n f) h.

Lemma values_assoc_remove n (h : fields) m : values_of m (assoc_remove n h)
  = if eq_ignore_ascii_case n m then [] else values_of m h.
Proof.
  unfold values_of, assoc_remove. rewrite list_filter_filter.
  induction h as [|f h IH]; [by destruct (eq_ignore_ascii_case n m)|].
  rewrite !filter_cons. unfold named in *.
  destruct (eq_ignore_ascii_case n m) eqn:E.
  - rewrite decide_False; [done|]. intros [H1 H2]. by rewrite (eq_ignore_trans n m _ E) in H2.
  - destruct (decide (eq_ignore_ascii_case m f.1 = true)) as [Hm|Hm].
    + rewrite decide_True; simpl; [by f_equal|]. split; [done|]. intros Hn.
      rewrite eq_ignore_sym, (eq_ignore_trans m (f.1) n Hm), eq_ignore_sym in E. congruence.
    + rewrite decide_False; [done|]. by intros [? _].
Qed.

Lemma values_of_app m (a b : fields) : values_of m (a ++ b) = values_of m a ++ values_of m b.
Proof. unfold values_of. by rewrite filter_app, map_app. Qed.

Lemma values_of_one m n v :
  values_of m [(n, v)] = if eq_ignore_ascii_case n m then [v] else [].
Proof.
  unfold values_of. rewrite filter_cons. rewrite (eq_ignore_sym n m).
  destruct (decide (named m (n, v))) as [E|E]; unfold named in E; simpl in E; [by rewrite E|].
  by apply not_true_is_false in E as ->.
Qed.

Program Definition assoc_headers : HeaderMap fields := {|
  hm_empty := [];
  hm_iter := id;
  remove_header := assoc_remove;
  insert_header := fun n v h => Some (assoc_remove n h ++ [(n, v)]);
  append_header := fun n v h => Some (h ++ [(n, v)]);
  accepts := fun _ _ => true;
|}.
Next Obligation. done. Qed.
Next Obligation. apply values_assoc_remove. Qed.
Next Obligation.
  intros n v h h' m [= <-]. unfold id. rewrite values_of_app, values_assoc_remove, values_of_one.
  destruct (eq_ignore_ascii_case n m); [done|apply app_nil_r].
Qed.
Next Obligation.
  intros n v h h' m [= <-]. unfold id. by rewrite values_of_app, values_of_one.
Qed.
Next Obligation. intros. split; [done|]. by eexists. Qed.
Next Obligation. intros. split; [done|]. by eexists. Qed.
End Assoc.
