(* ===== verification/Framing.v ===== *)
(** * Message framing in the proxy ([src/proxy.rs])

    The counting of framing headers in the raw request head and the check it feeds, the
    decoding of chunked origin bodies, the capped reading of origin responses, and the
    header views handed to the second inspection layer. *)

From S2P Require Import Prelude Net Shield Http.

(** ** Small readers *)

(** [src/proxy.rs: fn parse_ip] *)
Definition parse_addr_ip (addr : bytes) : option IpAddr :=
  match parse_socket_addr addr with
  | Some s => Some (socket_ip s)
  | None => parse_ip addr
  end.

(** [src/proxy.rs: fn cookie_value] *)
Definition cookie_value (header name : bytes) : option bytes :=
  head (omap (fun cookie => '(n, v) ← split_once 61 (trim cookie);
                            if n =s name then Some v else None) (split_on 59 header)).

(** ** Framing headers of the request *)

Fixpoint framing_loop (lines : list bytes) (cl te : Z) : Z * Z :=
  match lines with
  | [] => (cl, te)
  | line :: rest =>
      let line := default line (strip_suffix [13] line) in
      if is_empty line then (cl, te)
      else match split_once 58 line with
           | None => framing_loop rest cl te
           | Some (name, _) =>
               if eq_ignore_ascii_case name "content-length" then framing_loop rest (cl + 1) te
               else if eq_ignore_ascii_case name "transfer-encoding" then framing_loop rest cl (te + 1)
               else framing_loop rest cl te
           end
  end.

(** [src/proxy.rs: fn raw_framing_header_counts] *)
Definition raw_framing_header_counts (raw_headers : bytes) : Z * Z :=
  framing_loop (tail (split_on 10 raw_headers)) 0 0.

(** [src/proxy.rs: FerroadaProxy::request_filter @875-903] The smuggling check of a request: [raw_headers] is the
    retained head, [te] the [Transfer-Encoding] value of the parsed request. *)
Definition check_framing (raw_headers : bytes) (te : option bytes) (uri client site : bytes)
  : ShieldVerdict * list BlockEvent :=
  let '(cl_count, te_count) := raw_framing_header_counts raw_headers in
  check_smuggling (0 <? cl_count) cl_count te_count te uri client site.

(** ** Chunked bodies *)

Inductive Outcome (A : Type) : Type :=
| Returns (a : A)
| Panics
| OutOfFuel.
Arguments Returns {A} a.
Arguments Panics {A}.
Arguments OutOfFuel {A}.

Definition hex_digit (b : Z) : option Z :=
  if in_range 48 57 b then Some (b - 48)
  else if in_range 65 70 b then Some (b - 55)
  else if in_range 97 102 b then Some (b - 87)
  else None.

Fixpoint hex_value (acc : Z) (s : bytes) : option Z :=
  match s with
  | [] => Some acc
  | d :: r => v ← hex_digit d; hex_value (16 * acc + v) r
  end.

(** [usize::from_str_radix(s, 16).ok()] *)
Definition usize_from_hex (s : bytes) : option Z :=
  let digits := match s with 43 :: r => r | _ => s end in
  if is_empty digits then None
  else v ← hex_value 0 digits; if v <=? usize_max then Some v else None.

(** [windows(2).position(|w| w == CR LF)] *)
Fixpoint find_crlf (s : bytes) : option nat :=
  match s with
  | 13 :: 10 :: _ => Some 0%nat
  | _ :: r => S <$> find_crlf r
  | [] => None
  end.

(** [&s[a..b]]: [None] is a panic. *)
Definition slice (s : bytes) (a b : Z) : option bytes :=
  if (a <=? b) && (b <=? len s) then Some (take (Z.to_nat (b - a)) (drop (Z.to_nat a) s)) else None.

(** Unchecked [usize] addition of a release build. *)
Definition wrap_add (a b : Z) : Z := (a + b) mod 2 ^ 64.

Fixpoint decode_chunked_loop (fuel : nat) (input : bytes) (index : Z) (out : bytes)
  : Outcome (option bytes) :=
  match fuel with
  | O => OutOfFuel
  | S fuel =>
      match slice input index (len input) with
      | None => Panics
      | Some rest =>
          match find_crlf rest with
          | None => Returns None
          | Some line_end =>
              let size_line := take line_end rest in
              if negb (is_utf8 size_line) then Returns None
              else match usize_from_hex (trim (before 59 size_line)) with
              | None => Returns None
              | Some size =>
                  let index := wrap_add index (wrap_add (Z.of_nat line_end) 2) in
                  if size =? 0 then Returns (Some out)
                  else if len input <? wrap_add (wrap_add index size) 2 then Returns None
                  else match slice input index (wrap_add index size),
                             slice input (wrap_add index size) (wrap_add (wrap_add index size) 2) with
                       | Some data, Some crlf =>
                           let out := out ++ data in
                           if negb (crlf =s [13; 10]) then Returns None
                           else decode_chunked_loop fuel input (wrap_add index (wrap_add size 2)) out
                       | _, _ => Panics
                       end
              end
          end
      end
  end.

(** [src/proxy.rs: fn decode_chunked] *)
Definition decode_chunked (input : bytes) : Outcome (option bytes) :=
  decode_chunked_loop (S (length input)) input 0 [].

(** ** Reading origin responses *)

(** The successive results of [stream.read]: bytes (none at the end of the stream) or an
    error.  A reader returns its result and the reads it left. *)
Inductive IoError : Set := ReadError | UnexpectedEof | HeadersTooLarge | HeadNotUtf8
| BadStatus | ChunkedIncomplete.
Definition reads : Type := list (result IoError bytes).

(** [src/proxy.rs: fn read_capped] *)
Fixpoint read_capped (stream : reads) (body : bytes) (cap : Z) : result IoError bytes :=
  if len body <? cap then
    match stream with
    | [] | Ok [] :: _ => Ok body
    | Err e :: _ => Err e
    | Ok tmp :: stream =>
        let take_n := Z.min (cap - len body) (len tmp) in
        read_capped stream (body ++ take (Z.to_nat take_n) tmp) cap
    end
  else Ok body.

(** [windows(4).position(|w| w == CR LF CR LF)] *)
Fixpoint find_head_end (s : bytes) : option nat :=
  match s with
  | [] => None
  | _ :: r => if starts_with s [13; 10; 13; 10] then Some 0%nat else S <$> find_head_end r
  end.

(** The reads up to the end of the head: the bytes read so far and the end of the head. *)
Fixpoint read_head (stream : reads) (buf : bytes) : result IoError (bytes * nat * reads) :=
  match stream with
  | [] | Ok [] :: _ => Err UnexpectedEof
  | Err e :: _ => Err e
  | Ok tmp :: stream =>
      let buf := buf ++ tmp in
      match find_head_end buf with
      | Some pos => Ok (buf, (pos + 4)%nat, stream)
      | None => if 64 * 1024 <? len buf then Err HeadersTooLarge else read_head stream buf
      end
  end.

(** [head.split(CR LF)]: the status line, and the lines that are header fields. *)
Definition response_fields (lines : list bytes) : list (bytes * bytes) :=
  omap (fun line => if is_empty line then None
                    else '(n, v) ← split_once 58 line; Some (trim n, trim v)) lines.

Section Response.
Context {H : Type} {HM : HeaderMap H} (valid_status : Z -> bool).

(** The fields in order: the last readable [Content-Length], whether some
    [Transfer-Encoding] lists [chunked], and the header map. *)
Fixpoint apply_fields (fields : list (bytes * bytes)) (content_length : option Z)
    (chunked : bool) (resp : H) : option Z * bool * H :=
  match fields with
  | [] => (content_length, chunked, resp)
  | (name, value) :: fields =>
      let content_length :=
        if eq_ignore_ascii_case name "content-length" then parse_uint usize_max value
        else content_length in
      let chunked :=
        (eq_ignore_ascii_case name "transfer-encoding"
         && existsb (fun token => eq_ignore_ascii_case (trim token) "chunked") (split_on 44 value))
        || chunked in
      apply_fields fields content_length chunked (default resp (append_header name value resp))
  end.

(** The body once the head is read; a panic of [decode_chunked] propagates. *)
Definition read_body (stream : reads) (body : bytes) (content_length : option Z)
    (chunked : bool) (max_response : Z) : Outcome (result IoError bytes) :=
  if chunked then
    match read_capped stream body max_response with
    | Err e => Returns (Err e)
    | Ok body =>
        match decode_chunked body with
        | Returns (Some decoded) => Returns (Ok decoded)
        | Returns None => if max_response <=? len body then Returns (Ok body)
                          else Returns (Err ChunkedIncomplete)
        | Panics => Panics
        | OutOfFuel => OutOfFuel
        end
    end
  else match content_length with
       | Some cl => Returns (read_capped stream body (Z.min cl max_response))
       | None => Returns (read_capped stream body max_response)
       end.

(** [src/proxy.rs: fn read_http11_response_sync] Status, header fields and body. *)
Definition read_http11_response_sync (stream : reads) (max_response : Z)
  : Outcome (result IoError (Z * H * bytes)) :=
  match read_head stream [] with
  | Err e => Returns (Err e)
  | Ok (buf, header_end, stream) =>
      let head := take header_end buf in
      if negb (is_utf8 head) then Returns (Err HeadNotUtf8)
      else
        let lines := split_str [13; 10] head in
        let status_line := default [] (hd_error lines) in
        let status := default 502 (nth_error (split_whitespace status_line) 1 ≫= parse_uint u16_max) in
        if negb (valid_status status) then Returns (Err BadStatus)
        else
          let '(content_length, chunked, resp) :=
            apply_fields (response_fields (tail lines)) None false hm_empty in
          match read_body stream (drop header_end buf) content_length chunked max_response with
          | Returns (Ok body) =>
              Returns (Ok (status, remove_header "Transfer-Encoding" resp, body))
          | Returns (Err e) => Returns (Err e)
          | Panics => Panics
          | OutOfFuel => OutOfFuel
          end
  end.
End Response.

(** ** Header views for the second inspection layer *)

Fixpoint adjust_loop (headers : list (bytes * bytes)) (body_len : Z) (wrote : bool)
  : list (bytes * bytes) :=
  let length_field := (("content-length" : bytes), show_dec body_len) in
  match headers with
  | [] => if wrote then [] else [length_field]
  | (name, value) :: headers =>
      if eq_ignore_ascii_case name "content-encoding" then adjust_loop headers body_len wrote
      else if eq_ignore_ascii_case name "content-length"
      then length_field :: adjust_loop headers body_len true
      else (name, value) :: adjust_loop headers body_len wrote
  end.

(** [src/proxy.rs: fn adjust_l1_headers] *)
Definition adjust_l1_headers (headers : list (bytes * bytes)) (body_len : Z)
    (body_is_decoded : bool) : list (bytes * bytes) :=
  if negb body_is_decoded then headers else adjust_loop headers body_len false.

Definition text_fields (fields : list (bytes * bytes)) : list (bytes * bytes) :=
  omap (fun '(n, v) => v ← to_str v; Some (n, v)) fields.

(** [src/proxy.rs: fn request_header_pairs] *)
Definition request_header_pairs {H} `{HeaderMap H} (headers : H) : list (bytes * bytes) :=
  text_fields (hm_iter headers).

(** [src/proxy.rs: fn l1_header_pairs] *)
Definition l1_header_pairs {H} `{HeaderMap H} (headers : H) (body : bytes) (body_is_decoded : bool)
  : list (bytes * bytes) :=
  adjust_l1_headers
    (text_fields (base.filter (fun f => ~ named "authorization" f) (hm_iter headers)))
    (len body) body_is_decoded.

(** [src/proxy.rs: fn http11_request_head] *)
Definition http11_request_head {H} `{HeaderMap H} (method : bytes) (path_and_query : option bytes)
    (headers : H) : bytes :=
  let crlf := [13; 10] in
  method ++ lit " " ++ default (lit "/") path_and_query ++ lit " HTTP/1.1" ++ crlf
  ++ flat_map (fun '(n, v) => n ++ lit ": " ++ v ++ crlf) (hm_iter headers) ++ crlf.

(** [src/proxy.rs: fn response_content_length] *)
Definition response_content_length {H} `{HeaderMap H} (headers : H) : option Z :=
  get_str headers "Content-Length" ≫= parse_uint usize_max.

(** ** Properties: framing headers *)

(** A request head as it is on the wire: the request line, the fields, the empty line, then
    whatever the client sent next. *)
Definition render_field (f : bytes * bytes) : bytes := f.1 ++ 58 :: f.2 ++ [13].
Definition render_head (line : bytes) (fields : list (bytes * bytes)) (after : bytes) : bytes :=
  line ++ 10 :: flat_map (fun f => render_field f ++ [10]) fields ++ [13; 10] ++ after.

(** Names hold no colon and no line feed, values no line feed. *)
Definition field_ok (f : bytes * bytes) : Prop := (58 ∉ f.1) /\ (10 ∉ f.1) /\ (10 ∉ f.2).

Definition count_named (n : bytes) (fields : list (bytes * bytes)) : Z :=
  len (base.filter (named n) fields).

Lemma split_lf_fields fields after : Forall field_ok fields ->
  split_on 10 (flat_map (fun f => render_field f ++ [10]) fields ++ [13; 10] ++ after)
  = map render_field fields ++ [13] :: split_on 10 after.
Proof.
  induction 1 as [|f fields (Hc & Hn & Hv) Hf IH]; simpl.
  - done.
  - rewrite <- !app_assoc. cbn [app] in IH |- *. rewrite split_on_app, IH, split_on_none; [done|].
    unfold render_field. rewrite elem_of_app, elem_of_cons, elem_of_app, list_elem_of_singleton.
    naive_solver.
Qed.

Lemma strip_cr_field f : strip_suffix [13] (render_field f) = Some (f.1 ++ 58 :: f.2).
Proof. apply strip_suffix_spec. unfold render_field. by rewrite <- app_assoc. Qed.

Lemma count_named_nil n : count_named n [] = 0.
Proof. done. Qed.

Lemma count_named_cons n f fields :
  count_named n (f :: fields)
  = (if eq_ignore_ascii_case n (f.1) then 1 else 0) + count_named n fields.
Proof.
  unfold count_named. rewrite filter_cons.
  destruct (decide (named n f)) as [E|E]; unfold named in E.
  - by rewrite E, len_cons.
  - by apply not_true_is_false in E as ->.
Qed.

Lemma framing_loop_fields fields rest cl te : Forall field_ok fields ->
  framing_loop (map render_field fields ++ [13] :: rest) cl te
  = (cl + count_named "content-length" fields, te + count_named "transfer-encoding" fields).
Proof.
  intros Hf. revert cl te. induction Hf as [|f fields (Hc & Hn & Hv) Hf IH]; intros cl te.
  - rewrite !count_named_nil, !Z.add_0_r. done.
  - cbn [map app framing_loop]. rewrite strip_cr_field. cbn [from_option]. unfold id.
    assert (He : is_empty (f.1 ++ 58 :: f.2) = false) by (by destruct (f.1)).
    rewrite He, (proj2 (split_once_spec 58 _ (f.1) (f.2))) by done.
    rewrite !count_named_cons.
    rewrite (eq_ignore_sym (f.1) "content-length"), (eq_ignore_sym (f.1) "transfer-encoding").
    destruct (eq_ignore_ascii_case "content-length" (f.1)) eqn:E1;
      destruct (eq_ignore_ascii_case "transfer-encoding" (f.1)) eqn:E2; rewrite IH; simpl;
      try (f_equal; lia).
    exfalso. rewrite eq_ignore_sym in E1. rewrite (eq_ignore_sym (lit "transfer-encoding")) in E2.
    rewrite (eq_ignore_trans _ _ _ E1) in E2. done.
Qed.

(** The raw counts are the numbers of framing fields of the head; nothing after the empty
    line is counted. *)
Lemma raw_counts_render line fields after : 10 ∉ line -> Forall field_ok fields ->
  raw_framing_header_counts (render_head line fields after)
  = (count_named "content-length" fields, count_named "transfer-encoding" fields).
Proof.
  intros Hl Hf. unfold raw_framing_header_counts, render_head.
  rewrite split_on_app, (split_on_none 10 line), split_lf_fields by done. simpl.
  by rewrite framing_loop_fields.
Qed.

(** C18. A request passes the smuggling check exactly when its head carries at most one
    framing field in all ([Content-Length] or [Transfer-Encoding], in any case) and the
    parsed [Transfer-Encoding], if any, comes without [Content-Length] and is [chunked] or
    [identity].  Bytes after the head never count. *)
Theorem check_framing_admits (line after : bytes) (fields : list (bytes * bytes))
    (te : option bytes) (uri client site : bytes) :
  10 ∉ line -> Forall field_ok fields ->
  (check_framing (render_head line fields after) te uri client site).1 = Allow
  <-> count_named "content-length" fields + count_named "transfer-encoding" fields <= 1
      /\ match te with
         | Some v => count_named "content-length" fields = 0
             /\ (to_ascii_lowercase (trim v) = "chunked" \/ to_ascii_lowercase (trim v) = "identity")
         | None => True
         end.
Proof.
  intros Hl Hf. unfold check_framing. rewrite raw_counts_render by done.
  pose proof (len_nonneg (base.filter (named "content-length") fields)) as H1.
  pose proof (len_nonneg (base.filter (named "transfer-encoding") fields)) as H2.
  fold (count_named "content-length" fields) in H1.
  fold (count_named "transfer-encoding" fields) in H2.
  unfold check_smuggling.
  destruct (Z.ltb_spec 1 (count_named "content-length" fields)); [split; [done|lia]|].
  destruct (Z.ltb_spec 1 (count_named "transfer-encoding" fields)); [split; [done|lia]|].
  destruct (Z.ltb_spec 0 (count_named "content-length" fields));
    destruct (Z.ltb_spec 0 (count_named "transfer-encoding" fields)); simpl;
    try (split; [done|lia]); destruct te as [v|]; simpl; try (split; [done|lia]);
    try (split; [intros _; split; [lia|done]|done]);
    destruct (to_ascii_lowercase (trim v) =s "chunked") eqn:Ec;
    destruct (to_ascii_lowercase (trim v) =s "identity") eqn:Ei; simpl;
    rewrite <- (bytes_eqb_eq (to_ascii_lowercase (trim v)) "chunked"),
      <- (bytes_eqb_eq (to_ascii_lowercase (trim v)) "identity"), Ec, Ei;
    split; try done; try (intros _; split; [lia|]; split; [lia|auto]); naive_solver.
Qed.

Lemma check_framing_admits_witness :
  (check_framing (render_head "POST / HTTP/1.1" [((("Host" : bytes), (" a" : bytes)));
      (("content-LENGTH" : bytes), (" 3" : bytes))] "abc") None "/" [] []).1 = Allow.
Proof.
  apply check_framing_admits.
  - decide_now.
  - repeat apply Forall_cons_2; [..|apply Forall_nil_2]; repeat split; decide_now.
  - split; [reflexivity || (vm_compute; discriminate)|done].
Defined.

(** ** Properties: chunked bodies *)

Lemma wrap_add_small a b : 0 <= a -> 0 <= b -> a + b < 2 ^ 64 -> wrap_add a b = a + b.
Proof. intros. unfold wrap_add. apply Z.mod_small. lia. Qed.

Lemma slice_mid (a b c : bytes) : slice (a ++ b ++ c) (len a) (len a + len b) = Some b.
Proof.
  unfold slice. rewrite !len_app.
  pose proof (len_nonneg a). pose proof (len_nonneg b). pose proof (len_nonneg c).
  rewrite (proj2 (Z.leb_le _ _)), (proj2 (Z.leb_le _ _)) by lia. simpl.
  unfold len. replace (Z.of_nat (length a) + Z.of_nat (length b) - Z.of_nat (length a))
    with (Z.of_nat (length b)) by lia.
  by rewrite !Nat2Z.id, drop_app_length, take_app_length.
Qed.

Lemma slice_tail (a b : bytes) : slice (a ++ b) (len a) (len (a ++ b)) = Some b.
Proof. pose proof (slice_mid a b []) as H. rewrite app_nil_r in H. by rewrite len_app. Qed.

Lemma slice_some s a b x : slice s a b = Some x -> a <= b <= len s.
Proof. unfold slice. destruct (_ && _) eqn:E; [|done]. bool_to_prop. lia. Qed.

Lemma find_crlf_line l rest : 13 ∉ l -> find_crlf (l ++ 13 :: 10 :: rest) = Some (length l).
Proof.
  induction l as [|x l IH]; [done|]. intros [Hx Hl]%not_elem_of_cons.
  cbn [app find_crlf length]. rewrite IH by done.
  repeat (case_match; try done).
Qed.

Lemma find_crlf_bound s n : find_crlf s = Some n -> (n + 2 <= length s)%nat.
Proof.
  revert n. induction s as [|x s IH]; intros n; [done|].
  assert (Hrec : S <$> find_crlf s = Some n -> (n + 2 <= length (x :: s))%nat).
  { destruct (find_crlf s) as [m|]; [|done]. intros [= <-]. specialize (IH m eq_refl). simpl. lia. }
  destruct (decide (x = 13)) as [->|Hx]; [|cbn; repeat case_match; done].
  destruct s as [|y s]; [done|].
  destruct (decide (y = 10)) as [->|Hy]; [intros [= <-]; simpl; lia|].
  cbn; repeat case_match; done.
Qed.

(** The end of a chunk, computed with wrapping additions, is within the input only when no
    addition wrapped: otherwise one of the two slices panics. *)
Lemma chunk_slices input i size data crlf :
  0 <= i <= len input -> len input < 2 ^ 63 -> 0 <= size <= usize_max ->
  slice input i (wrap_add i size) = Some data ->
  slice input (wrap_add i size) (wrap_add (wrap_add i size) 2) = Some crlf ->
  wrap_add i size = i + size /\ i + size + 2 <= len input.
Proof.
  unfold usize_max, u64_max, wrap_add. intros Hi Hl Hs H1%slice_some H2%slice_some.
  destruct (Z.lt_ge_cases (i + size) (2 ^ 64)) as [Hlt|Hge].
  - rewrite (Z.mod_small (i + size)) in * by lia.
    destruct (Z.lt_ge_cases (i + size + 2) (2 ^ 64)).
    + rewrite (Z.mod_small (i + size + 2)) in * by lia. lia.
    + lia.
  - assert ((i + size) mod 2 ^ 64 = i + size - 2 ^ 64); [|lia].
    symmetry. apply Z.mod_unique with 1; lia.
Qed.

Lemma usize_from_hex_range s n : usize_from_hex s = Some n -> n <= usize_max.
Proof.
  unfold usize_from_hex. destruct (is_empty _); [done|].
  destruct (hex_value _ _) as [v|]; [|done]. cbn. destruct (Z.leb_spec v usize_max); [|done].
  by intros [= <-].
Qed.

Lemma hex_value_nonneg s : forall acc v, 0 <= acc -> hex_value acc s = Some v -> 0 <= v.
Proof.
  induction s as [|d s IH]; intros acc v Ha; simpl; [by intros [= <-]|].
  destruct (hex_digit d) as [x|] eqn:E; [|done]. simpl. apply IH.
  unfold hex_digit, in_range in E.
  repeat match type of E with context [if ?c then _ else _] => destruct c eqn:? end;
    bool_to_prop; simplify_eq; lia.
Qed.

Lemma usize_from_hex_nonneg s n : usize_from_hex s = Some n -> 0 <= n.
Proof.
  unfold usize_from_hex. destruct (is_empty _); [done|].
  destruct (hex_value _ _) as [v|] eqn:E; [|done]. apply hex_value_nonneg in E; [|done].
  cbn. destruct (v <=? usize_max); [|done]. by intros [= <-].
Qed.

Lemma decode_chunked_loop_total fuel input i out :
  0 <= i <= len input -> len input < 2 ^ 63 -> len input - i < Z.of_nat fuel ->
  decode_chunked_loop fuel input i out <> OutOfFuel.
Proof.
  revert i out. induction fuel as [|fuel IH]; intros i out Hi Hl Hf; [lia|].
  cbn [decode_chunked_loop].
  destruct (slice input i (len input)) as [rest|] eqn:Er; [|done].
  destruct (find_crlf rest) as [le|] eqn:Ef; [|done].
  destruct (negb (is_utf8 _)); [done|].
  destruct (usize_from_hex _) as [size|] eqn:Es; [|done].
  pose proof (usize_from_hex_range _ _ Es). pose proof (usize_from_hex_nonneg _ _ Es).
  assert (Hle : i + Z.of_nat le + 2 <= len input).
  { apply find_crlf_bound in Ef. unfold slice in Er. destruct (_ && _); [|done].
    injection Er as <-. rewrite length_take, length_drop in Ef. unfold len in *. lia. }
  rewrite (wrap_add_small (Z.of_nat le)), (wrap_add_small i) by lia.
  destruct (size =? 0); [done|]. destruct (_ <? _); [done|].
  destruct (slice input _ (wrap_add _ size)) as [data|] eqn:Ed; [|done].
  destruct (slice input (wrap_add _ size) _) as [crlf|] eqn:Ec; [|done].
  destruct (negb _); [done|].
  destruct (chunk_slices input (i + (Z.of_nat le + 2)) size data crlf ltac:(lia) Hl ltac:(lia) Ed Ec) as [_ Hend].
  rewrite (wrap_add_small size), (wrap_add_small (i + (Z.of_nat le + 2))) by lia. apply IH; lia.
Qed.

(** One chunk as a sender may write it: any spelling of its size, extensions included. *)
Record Chunk : Type := { c_line : bytes; c_data : bytes }.
Definition line_denotes (l : bytes) (n : Z) : Prop :=
  (13 ∉ l) /\ is_utf8 l = true /\ usize_from_hex (trim (before 59 l)) = Some n.
Definition chunk_ok (c : Chunk) : Prop := line_denotes (c_line c) (len (c_data c)) /\ c_data c <> [].
Definition render_chunk (c : Chunk) : bytes := c_line c ++ [13; 10] ++ c_data c ++ [13; 10].

Lemma decode_chunked_step fuel pre c rest out : chunk_ok c ->
  len (pre ++ render_chunk c ++ rest) < 2 ^ 63 ->
  decode_chunked_loop (S fuel) (pre ++ render_chunk c ++ rest) (len pre) out
  = decode_chunked_loop fuel (pre ++ render_chunk c ++ rest) (len (pre ++ render_chunk c))
      (out ++ c_data c).
Proof.
  intros [(Hcr & Hu & Hsz) Hne]. rewrite !len_app.
  assert (Hlc : len (render_chunk c) = len (c_line c) + 2 + len (c_data c) + 2)
    by (unfold render_chunk; rewrite !len_app; change (len [13; 10]) with 2; lia).
  rewrite Hlc. intros Hl. cbn [decode_chunked_loop]. rewrite slice_tail.
  assert (Hr : render_chunk c ++ rest = c_line c ++ 13 :: 10 :: c_data c ++ 13 :: 10 :: rest)
    by (unfold render_chunk; by rewrite <- !app_assoc).
  rewrite Hr, find_crlf_line, take_app_length, Hu, Hsz by done. cbn [negb].
  set (input := pre ++ _) in *.
  pose proof (len_nonneg pre). pose proof (len_nonneg (c_line c)). pose proof (len_nonneg rest).
  assert (0 < len (c_data c)).
  { destruct (c_data c); [done|]. rewrite len_cons. pose proof (len_nonneg l). lia. }
  change (Z.of_nat (length (c_line c))) with (len (c_line c)).
  rewrite (wrap_add_small (len (c_line c)) 2), (wrap_add_small (len pre)) by lia.
  destruct (Z.eqb_spec (len (c_data c)) 0); [lia|].
  rewrite (wrap_add_small (len pre + (len (c_line c) + 2)) (len (c_data c))) by lia.
  rewrite (wrap_add_small (len pre + (len (c_line c) + 2) + len (c_data c)) 2) by lia.
  rewrite (wrap_add_small (len (c_data c)) 2), (wrap_add_small (len pre + (len (c_line c) + 2))) by lia.
  assert (Hin : len input = len pre + len (c_line c) + 2 + len (c_data c) + 2 + len rest).
  { subst input. rewrite !len_app, !len_cons, !len_app, !len_cons. lia. }
  destruct (Z.ltb_spec (len input) (len pre + (len (c_line c) + 2) + len (c_data c) + 2)); [lia|].
  assert (HS1 : slice input (len pre + (len (c_line c) + 2))
                 (len pre + (len (c_line c) + 2) + len (c_data c)) = Some (c_data c)).
  { pose proof (slice_mid (pre ++ c_line c ++ [13; 10]) (c_data c) (13 :: 10 :: rest)) as HS1.
    rewrite !len_app in HS1. change (len [13; 10]) with 2 in HS1. rewrite <- HS1. f_equal.
    subst input. by rewrite <- !app_assoc. }
  assert (HS2 : slice input (len pre + (len (c_line c) + 2) + len (c_data c))
                 (len pre + (len (c_line c) + 2) + len (c_data c) + 2) = Some [13; 10]).
  { pose proof (slice_mid (pre ++ c_line c ++ [13; 10] ++ c_data c) [13; 10] rest) as HS2.
    rewrite !len_app in HS2. change (len [13; 10]) with 2 in HS2.
    replace (len pre + (len (c_line c) + (2 + len (c_data c))))
      with (len pre + (len (c_line c) + 2) + len (c_data c)) in HS2 by lia. rewrite <- HS2.
    f_equal. subst input. by rewrite <- !app_assoc. }
  rewrite HS1, HS2. cbn [negb]. f_equal. lia.
Qed.

Lemma decode_chunked_chunks chunks : forall fuel pre last trailer out,
  Forall chunk_ok chunks -> line_denotes last 0 ->
  let input := pre ++ flat_map render_chunk chunks ++ last ++ 13 :: 10 :: trailer in
  len input < 2 ^ 63 -> (length chunks < fuel)%nat ->
  decode_chunked_loop fuel input (len pre) out = Returns (Some (out ++ flat_map c_data chunks)).
Proof.
  induction chunks as [|c chunks IH]; intros fuel pre last trailer out Hok (Hcr & Hu & Hz) input Hl Hf;
    (destruct fuel as [|fuel]; [simpl in Hf; lia|]); subst input; cbn [flat_map app] in Hl |- *.
  - cbn [decode_chunked_loop]. rewrite slice_tail, find_crlf_line by done.
    rewrite take_app_length, Hu, Hz. cbn. by rewrite app_nil_r.
  - apply Forall_cons_1 in Hok as [Hc Hok]. rewrite <- app_assoc in Hl |- *.
    rewrite decode_chunked_step by done.
    specialize (IH fuel (pre ++ render_chunk c) last trailer (out ++ c_data c) Hok).
    rewrite <- !app_assoc in IH. apply IH; [done|done|simpl in Hf; lia].
Qed.

Lemma render_chunks_length chunks : (length chunks <= length (flat_map render_chunk chunks))%nat.
Proof.
  induction chunks as [|c chunks IH]; simpl; [lia|]. rewrite length_app. unfold render_chunk at 1.
  rewrite !length_app. simpl. lia.
Qed.

(** C40. Decoding a chunked body always returns or panics (the loop ends on every input), and
    on a body made of well-formed chunks, however their sizes are spelled and whatever
    follows the last chunk, it returns the data in order. *)
Theorem decode_chunked_correct (chunks : list Chunk) (last trailer input : bytes) :
  len input < 2 ^ 63 ->
  decode_chunked input <> OutOfFuel
  /\ (Forall chunk_ok chunks -> line_denotes last 0 ->
      input = flat_map render_chunk chunks ++ last ++ 13 :: 10 :: trailer ->
      decode_chunked input = Returns (Some (flat_map c_data chunks))).
Proof.
  intros Hl. split.
  - apply decode_chunked_loop_total; [pose proof (len_nonneg input); lia|done|unfold len; lia].
  - intros Hc Hz ->.
    apply (decode_chunked_chunks chunks _ [] last trailer []); [done|done|done|].
    rewrite length_app. pose proof (render_chunks_length chunks). lia.
Qed.

Lemma decode_chunked_correct_witness :
  decode_chunked (([53; 13; 10] : bytes) ++ lit "hello" ++ [13; 10] ++ lit "0a;x=1" ++ [13; 10]
    ++ lit "0123456789" ++ [13; 10; 48; 13; 10; 13; 10])
  = Returns (Some (lit "hello0123456789")).
Proof.
  apply (decode_chunked_correct
    [{| c_line := "5"; c_data := "hello" |}; {| c_line := "0a;x=1"; c_data := "0123456789" |}]
    "0" [13; 10]); [reflexivity| | |reflexivity].
  - repeat apply Forall_cons_2; [..|apply Forall_nil_2]; repeat split; try reflexivity;
      try discriminate; decide_now.
  - repeat split; try reflexivity; decide_now.
Defined.

(** A size line close to [usize::MAX] from the origin makes the unchecked sum wrap, and the
    slice that follows panics. *)
Example decode_chunked_panics :
  decode_chunked (lit "FFFFFFFFFFFFFFFF" ++ [13; 10] ++ lit "a") = Panics.
Proof. vm_compute. reflexivity. Qed.

(** ** Properties: capped reads *)

(** Reading an origin body: the result is the bytes received cut at the cap, except that
    bytes already received with the head are never cut, and a read error is returned only
    when the cap was not reached before it. *)
Theorem read_capped_spec (stream : reads) (body : bytes) (cap : Z) :
  match read_capped stream body cap with
  | Ok b => len b <= Z.max cap (len body)
      /\ exists received, b = body ++ received
         /\ exists rest, foldr (fun r acc => match r with Ok x => x ++ acc | Err _ => acc end) [] stream
                         = received ++ rest
  | Err e => len body < cap /\ Err e ∈ stream
  end.
Proof.
  revert body. induction stream as [|r stream IH]; intros body; cbn [read_capped].
  - assert (H : len body <= Z.max cap (len body) /\ exists received, body = body ++ received
         /\ exists rest, ([] : bytes) = received ++ rest).
    { split; [lia|]. exists []. rewrite app_nil_r. split; [done|]. by exists []. }
    by destruct (len body <? cap).
  - destruct (Z.ltb_spec (len body) cap) as [Hlt|Hge].
    2:{ split; [lia|]. exists []. rewrite app_nil_r. split; [done|]. by eexists. }
    destruct r as [[|x tmp]|e].
    + split; [lia|]. exists []. rewrite app_nil_r. split; [done|]. by eexists.
    + set (n := Z.to_nat _). specialize (IH (body ++ take n (x :: tmp))).
      assert (Hn : len (body ++ take n (x :: tmp)) <= cap).
      { rewrite len_app. unfold len at 2. rewrite length_take. subst n. unfold len in *. lia. }
      destruct (read_capped stream _ cap) as [b|e].
      * destruct IH as (Hb & recv & -> & rest & Hr). split; [lia|].
        exists (take n (x :: tmp) ++ recv). split; [by rewrite app_assoc|].
        destruct (decide (len (body ++ take n (x :: tmp)) < cap)) as [Hc|Hc].
        -- (* everything was taken *)
           assert (Ht : take n (x :: tmp) = x :: tmp).
           { apply take_ge. rewrite len_app in Hc. unfold len in Hc at 2.
             rewrite length_take in Hc. subst n. unfold len in *. lia. }
           rewrite Ht. exists rest. simpl. rewrite Hr. by rewrite app_assoc.
        -- assert (recv = []) as ->.
           { apply nil_length_inv. rewrite len_app in Hb. unfold len in Hb at 2. lia. }
           rewrite app_nil_r.
           eexists (drop n (x :: tmp) ++ _). by rewrite app_assoc, take_drop.
      * destruct IH as [_ Hin]. split; [done|]. by right.
    + split; [done|]. by left.
Qed.
