(* ===== verification/Upstream.v ===== *)
(** * The request sent to the origin ([src/proxy.rs])

    The shared secret that identifies the proxy to the origin, and the rewriting of the
    client's header fields: hop-by-hop fields and forwarding claims of the client are
    removed, the proxy's own are written.  Proved against the header map interface. *)

From S2P Require Import Prelude Net Shield Http.

(** [src/proxy.rs: struct OriginSecretConfig] *)
Record OriginSecretConfig : Type := { os_header : bytes; os_value : option bytes }.

(** [src/proxy.rs: OriginSecretConfig::default] *)
Definition default_origin_secret : OriginSecretConfig :=
  {| os_header := "X-Ferroada-Origin"; os_value := None |}.

(** [src/proxy.rs: fn is_reserved_upstream_header] *)
Definition is_reserved_upstream_header (name : bytes) : bool :=
  existsb (fun reserved : string => eq_ignore_ascii_case name reserved)
    ["host"; "connection"; "keep-alive"; "proxy-connection"; "transfer-encoding"; "te"; "trailer";
     "upgrade"; "x-real-ip"; "x-forwarded-for"; "x-forwarded-proto"].

(** [src/proxy.rs: fn is_http_token] *)
Definition is_secret_name (name : bytes) : bool :=
  negb (is_empty name) && (len name <=? 256) && forallb is_token_byte name.

(** [src/proxy.rs: fn is_safe_header_value] *)
Definition is_safe_header_value (value : bytes) : bool :=
  negb (is_empty value) && (len value <=? 4096)
  && forallb (fun byte => (byte =? 9) || in_range 0x20 0x7e byte) value.

Inductive OriginSecretError : Set := InvalidSecret | InvalidSecretHeader.

(** [src/proxy.rs: fn parse_origin_secret] *)
Definition parse_origin_secret (header secret : option bytes)
  : result OriginSecretError OriginSecretConfig :=
  let value := trimmed_nonempty secret in
  if match value with Some raw => negb (is_safe_header_value raw) | None => false end
  then Err InvalidSecret
  else match trimmed_nonempty header with
       | None => Ok {| os_header := "X-Ferroada-Origin"; os_value := value |}
       | Some name =>
           if negb (is_secret_name name) || is_reserved_upstream_header name
           then Err InvalidSecretHeader
           else Ok {| os_header := name; os_value := value |}
       end.

(** [src/proxy.rs: fn origin_secret_from_env] [None] is the panic at start-up. *)
Definition origin_secret_from_env (env : Env) : option OriginSecretConfig :=
  match parse_origin_secret (env "ORIGIN_SECRET_HEADER") (env "ORIGIN_SECRET") with
  | Ok c => Some c
  | Err _ => None
  end.

(** The fields of [FerroadaCtx] and of its backend that the rewriting reads. *)
Record StampCtx : Type := {
  backend_host : bytes;
  origin_host : option bytes;
  client_addr : bytes;
  request_https : bool;
  request_uri : bytes;
  grpc_timeout : option bytes;
}.

(** The names [strip_untrusted_forwarding_headers] removes. *)
Definition FORWARDING_HEADERS : list bytes :=
  map lit ["Forwarded"; "X-Forwarded-Host"; "X-Forwarded-Port"; "X-Forwarded-Ssl";
           "X-Forwarded-Server"; "X-Client-IP"; "X-Cluster-Client-IP"; "True-Client-IP";
           "CF-Connecting-IP"; "Fastly-Client-IP"; "X-Ferroada-Origin"].

Section Stamp.
Context {H : Type} {HM : HeaderMap H}.
Implicit Types (h : H).

(** [src/proxy.rs: fn apply_origin_secret] *)
Definition apply_origin_secret (config : OriginSecretConfig) h : H :=
  let h := remove_header "X-Ferroada-Origin" h in
  let h := remove_header (os_header config) h in
  match os_value config with
  | Some value => default h (insert_header (os_header config) value h)
  | None => h
  end.

(** [src/proxy.rs: fn strip_hop_by_hop_headers] *)
Definition strip_hop_by_hop_headers h : H :=
  let connection_values := omap to_str (get_all h "Connection") in
  remove_header "Connection" (remove_all (connection_hop_by_hop_names connection_values) h).

(** [src/proxy.rs: fn strip_untrusted_forwarding_headers] *)
Definition strip_untrusted_forwarding_headers h : H := remove_all FORWARDING_HEADERS h.

(** [src/proxy.rs: fn stamp_upstream_request] [None] is a panic of an [unwrap]. *)
Definition stamp_upstream_request (ctx : StampCtx) (origin_secret : OriginSecretConfig) h
  : option (H * list MetricEvent) :=
  let h := strip_hop_by_hop_headers h in
  let h := strip_untrusted_forwarding_headers h in
  let host := default (backend_host ctx) (origin_host ctx) in
  h ← insert_header "Host" host h;
  h ← insert_header "X-Real-IP" (client_addr ctx) h;
  h ← insert_header "X-Forwarded-For" (client_addr ctx) h;
  h ← insert_header "X-Forwarded-Proto" (if request_https ctx then "https" else "http") h;
  let '(h, events) :=
    if contains_key h "Range" then
      (remove_header "If-Range" (remove_header "Range" h),
       [Observed {| ev_site := None; ev_type := "range_removed";
                    ev_client := LabelText (client_addr ctx); ev_uri := request_uri ctx;
                    ev_detail := "Range removed so DLP can inspect the complete representation" |}])
    else (h, []) in
  let h := apply_origin_secret origin_secret h in
  let h := match grpc_timeout ctx with
           | Some timeout =>
               let h := remove_header "grpc-timeout" h in
               default h (insert_header "grpc-timeout" timeout h)
           | None => h
           end in
  Some (h, events).

(** ** Properties *)

Lemma get_all_origin_secret c h m :
  get_all (apply_origin_secret c h) m
  = if eq_ignore_ascii_case (os_header c) m
    then match os_value c with
         | Some v => if accepts (os_header c) v then [v] else []
         | None => []
         end
    else if eq_ignore_ascii_case "X-Ferroada-Origin" m then [] else get_all h m.
Proof.
  unfold apply_origin_secret.
  assert (Hr : get_all (remove_header (os_header c) (remove_header "X-Ferroada-Origin" h)) m
    = if eq_ignore_ascii_case (os_header c) m then []
      else if eq_ignore_ascii_case "X-Ferroada-Origin" m then [] else get_all h m)
    by by rewrite !get_all_remove.
  destruct (os_value c) as [v|]; [|exact Hr].
  set (h' := remove_header (os_header c) _) in *.
  destruct (insert_header (os_header c) v h') as [h''|] eqn:E; simpl.
  - assert (Ha : accepts (os_header c) v = true) by (apply (insert_accepts _ _ h'); by rewrite E).
    rewrite (get_all_insert _ _ _ _ _ E), Hr, Ha. by destruct (eq_ignore_ascii_case _ _).
  - rewrite Hr. assert (Ha : accepts (os_header c) v = false).
    { apply not_true_is_false. intros Ha%(insert_accepts _ _ h'). rewrite E in Ha. by destruct Ha. }
    rewrite Ha. by destruct (eq_ignore_ascii_case _ _).
Qed.

Lemma get_all_grpc_timeout (t : option bytes) h m :
  eq_ignore_ascii_case "grpc-timeout" m = false ->
  get_all (match t with
           | Some timeout => default (remove_header "grpc-timeout" h)
               (insert_header "grpc-timeout" timeout (remove_header "grpc-timeout" h))
           | None => h
           end) m = get_all h m.
Proof.
  intros Hm. destruct t as [t|]; [|done].
  destruct (insert_header "grpc-timeout" t _) as [h'|] eqn:E; simpl;
    [rewrite (get_all_insert _ _ _ _ _ E)|]; rewrite get_all_remove, Hm; done.
Qed.

Lemma get_all_range (b : bool) h m :
  eq_ignore_ascii_case "Range" m = false -> eq_ignore_ascii_case "If-Range" m = false ->
  get_all (if b then remove_header "If-Range" (remove_header "Range" h) else h) m = get_all h m.
Proof. intros H1 H2. destruct b; [|done]. by rewrite !get_all_remove, H1, H2. Qed.

(** The values of a name in the request sent to the origin, in closed form. *)
Definition hop_by_hop h (m : bytes) : bool :=
  existsb (fun n => eq_ignore_ascii_case n m)
    (connection_hop_by_hop_names (omap to_str (get_all h "Connection")))
  || eq_ignore_ascii_case "Connection" m.

Definition secret_values (c : OriginSecretConfig) : list bytes :=
  match os_value c with
  | Some v => if accepts (os_header c) v then [v] else []
  | None => []
  end.

Definition written_values (ctx : StampCtx) (m : bytes) : option bytes :=
  if eq_ignore_ascii_case "X-Forwarded-Proto" m
  then Some (if request_https ctx then lit "https" else lit "http")
  else if eq_ignore_ascii_case "X-Forwarded-For" m then Some (client_addr ctx)
  else if eq_ignore_ascii_case "X-Real-IP" m then Some (client_addr ctx)
  else if eq_ignore_ascii_case "Host" m then Some (default (backend_host ctx) (origin_host ctx))
  else None.

Definition stamped_values (ctx : StampCtx) (c : OriginSecretConfig) h (ranged : bool) (m : bytes)
  : list bytes :=
  if eq_ignore_ascii_case (os_header c) m then secret_values c
  else if eq_ignore_ascii_case "X-Ferroada-Origin" m then []
  else if ranged && (eq_ignore_ascii_case "Range" m || eq_ignore_ascii_case "If-Range" m) then []
  else match written_values ctx m with
       | Some v => [v]
       | None => if existsb (fun n => eq_ignore_ascii_case n m) FORWARDING_HEADERS || hop_by_hop h m
                 then [] else get_all h m
       end.

Lemma get_all_stripped h m :
  get_all (strip_untrusted_forwarding_headers (strip_hop_by_hop_headers h)) m
  = if existsb (fun n => eq_ignore_ascii_case n m) FORWARDING_HEADERS || hop_by_hop h m
    then [] else get_all h m.
Proof.
  unfold strip_untrusted_forwarding_headers, strip_hop_by_hop_headers, hop_by_hop.
  rewrite get_all_remove_all, get_all_remove, get_all_remove_all.
  destruct (existsb _ FORWARDING_HEADERS); [done|].
  destruct (eq_ignore_ascii_case "Connection" m); [by rewrite orb_true_r|].
  rewrite orb_false_r. done.
Qed.

Lemma stamp_upstream_values ctx c h h' events :
  stamp_upstream_request ctx c h = Some (h', events) ->
  exists ranged, forall m, eq_ignore_ascii_case "grpc-timeout" m = false ->
    get_all h' m = stamped_values ctx c h ranged m.
Proof.
  unfold stamp_upstream_request. intros Hs.
  destruct (insert_header "Host" _ _) as [h1|] eqn:E1; [|done]. cbn [mbind option_bind] in Hs.
  destruct (insert_header "X-Real-IP" _ _) as [h2|] eqn:E2; [|done]. cbn [mbind option_bind] in Hs.
  destruct (insert_header "X-Forwarded-For" _ _) as [h3|] eqn:E3; [|done]. cbn [mbind option_bind] in Hs.
  destruct (insert_header "X-Forwarded-Proto" _ _) as [h4|] eqn:E4; [|done]. cbn [mbind option_bind] in Hs.
  exists (contains_key h4 "Range"). intros m Hm.
  assert (H4 : get_all h4 m = match written_values ctx m with
    | Some v => [v]
    | None => if existsb (fun n => eq_ignore_ascii_case n m) FORWARDING_HEADERS || hop_by_hop h m
              then [] else get_all h m
    end).
  { rewrite (get_all_insert _ _ _ _ _ E4), (get_all_insert _ _ _ _ _ E3),
      (get_all_insert _ _ _ _ _ E2), (get_all_insert _ _ _ _ _ E1), get_all_stripped.
    unfold written_values.
    by repeat match goal with |- context [eq_ignore_ascii_case (lit ?s) m] =>
      destruct (eq_ignore_ascii_case (lit s) m) end. }
  unfold stamped_values. rewrite <- H4.
  destruct (contains_key h4 "Range"); injection Hs as <- _;
    rewrite get_all_grpc_timeout, get_all_origin_secret by done; fold (secret_values c);
    destruct (eq_ignore_ascii_case (os_header c) m); try done;
    destruct (eq_ignore_ascii_case "X-Ferroada-Origin" m); try done; cbn [andb].
  rewrite !get_all_remove.
  destruct (eq_ignore_ascii_case "If-Range" m), (eq_ignore_ascii_case "Range" m); done.
Qed.

Lemma stamp_upstream_ok ctx c h :
  accepts "Host" (default (backend_host ctx) (origin_host ctx)) = true ->
  accepts "X-Real-IP" (client_addr ctx) = true ->
  accepts "X-Forwarded-For" (client_addr ctx) = true ->
  accepts "X-Forwarded-Proto" (if request_https ctx then lit "https" else lit "http") = true ->
  exists r, stamp_upstream_request ctx c h = Some r.
Proof.
  intros A1 A2 A3 A4. unfold stamp_upstream_request.
  destruct (insert_is_some _ _ (strip_untrusted_forwarding_headers (strip_hop_by_hop_headers h)) A1)
    as [h1 ->]. cbn [mbind option_bind].
  destruct (insert_is_some _ _ h1 A2) as [h2 ->]. cbn [mbind option_bind].
  destruct (insert_is_some _ _ h2 A3) as [h3 ->]. cbn [mbind option_bind].
  destruct (insert_is_some _ _ h3 A4) as [h4 ->]. cbn [mbind option_bind].
  destruct (contains_key h4 "Range"); by eexists.
Qed.
End Stamp.

(** A configured secret header is never one the proxy writes itself. *)
Lemma parsed_header_not_reserved hdr sec c : parse_origin_secret hdr sec = Ok c ->
  is_reserved_upstream_header (os_header c) = false.
Proof.
  unfold parse_origin_secret. 
  destruct (match trimmed_nonempty sec with Some raw => negb (is_safe_header_value raw) | None => false end);
    [done|].
  destruct (trimmed_nonempty hdr) as [n|]; [|by intros [= <-]].
  destruct (negb _); [done|]. simpl. destruct (is_reserved_upstream_header n) eqn:E; [done|].
  by intros [= <-].
Qed.

Lemma reserved_false n (r : string) : is_reserved_upstream_header n = false ->
  r ∈ ["host"; "connection"; "keep-alive"; "proxy-connection"; "transfer-encoding"; "te"; "trailer";
     "upgrade"; "x-real-ip"; "x-forwarded-for"; "x-forwarded-proto"] ->
  eq_ignore_ascii_case n r = false.
Proof.
  unfold is_reserved_upstream_header. intros Hn Hr%list_elem_of_In.
  apply not_true_is_false. intros E. rewrite <- not_true_iff_false in Hn. apply Hn.
  apply existsb_exists. by exists r.
Qed.

(** C19. What an origin can rely on, whatever header fields the client sent: with a secret
    configuration the program accepts whose header is not grpc-timeout, and an address and a
    host that are legal header values, the rewriting does not panic, the origin sees exactly one value, the proxy's, for the host
    and the three forwarding headers, and the configured secret and nothing else under its
    name; the other forwarding claims and the hop-by-hop fields of the client are gone. *)
Theorem stamp_unspoofable {H : Type} {HM : HeaderMap H} (h : H) (ctx : StampCtx)
    (hdr sec : option bytes) (c : OriginSecretConfig) :
  parse_origin_secret hdr sec = Ok c ->
  eq_ignore_ascii_case (os_header c) "grpc-timeout" = false ->
  accepts "Host" (default (backend_host ctx) (origin_host ctx)) = true ->
  accepts "X-Real-IP" (client_addr ctx) = true ->
  accepts "X-Forwarded-For" (client_addr ctx) = true ->
  accepts "X-Forwarded-Proto" (if request_https ctx then lit "https" else lit "http") = true ->
  exists h' events, stamp_upstream_request ctx c h = Some (h', events)
    /\ get_all h' "Host" = [default (backend_host ctx) (origin_host ctx)]
    /\ get_all h' "X-Real-IP" = [client_addr ctx]
    /\ get_all h' "X-Forwarded-For" = [client_addr ctx]
    /\ get_all h' "X-Forwarded-Proto" = [if request_https ctx then lit "https" else lit "http"]
    /\ get_all h' (os_header c) = secret_values c
    /\ (forall n, eq_ignore_ascii_case (os_header c) n = false ->
        written_values ctx n = None -> eq_ignore_ascii_case "grpc-timeout" n = false ->
        n ∈ FORWARDING_HEADERS \/ hop_by_hop h n = true -> get_all h' n = []).
Proof.
  intros Hp Hg A1 A2 A3 A4. pose proof (parsed_header_not_reserved _ _ _ Hp) as Hr.
  destruct (stamp_upstream_ok ctx c h A1 A2 A3 A4) as [[h' events] Hs].
  destruct (stamp_upstream_values _ _ _ _ _ Hs) as [ranged Hv].
  assert (Hcase : forall (n : bytes) (r : string), eq_ignore_ascii_case n r = true ->
    r ∈ ["host"; "x-real-ip"; "x-forwarded-for"; "x-forwarded-proto"] ->
    eq_ignore_ascii_case (os_header c) n = false).
  { intros n r Hnr Hin. rewrite eq_ignore_sym, (eq_ignore_trans n r _ Hnr), eq_ignore_sym.
    apply reserved_false; [done|]. set_solver. }
  exists h', events. split; [done|].
  split; [rewrite Hv by done; unfold stamped_values;
    rewrite (Hcase _ "host") by (done || set_solver); by destruct ranged|].
  split; [rewrite Hv by done; unfold stamped_values;
    rewrite (Hcase _ "x-real-ip") by (done || set_solver); by destruct ranged|].
  split; [rewrite Hv by done; unfold stamped_values;
    rewrite (Hcase _ "x-forwarded-for") by (done || set_solver); by destruct ranged|].
  split; [rewrite Hv by done; unfold stamped_values;
    rewrite (Hcase _ "x-forwarded-proto") by (done || set_solver); by destruct ranged|].
  split.
  - rewrite Hv by by rewrite eq_ignore_sym. unfold stamped_values. by rewrite eq_ignore_refl.
  - intros n Hn Hw Hgn Hor. rewrite Hv by done. unfold stamped_values. rewrite Hn, Hw.
    destruct (eq_ignore_ascii_case "X-Ferroada-Origin" n); [done|]. destruct (ranged && _); [done|].
    assert (existsb (fun n' => eq_ignore_ascii_case n' n) FORWARDING_HEADERS || hop_by_hop h n = true)
      as ->; [|done]. apply orb_true_iff. destruct Hor as [Hin|Hh]; [left|by right].
    apply existsb_exists. exists n. split; [by apply list_elem_of_In|apply eq_ignore_refl].
Qed.

(** The program also takes grpc-timeout for the name of the secret's header: the deadline of the client then stands where
    the secret was. *)
Example secret_under_timeout :
  let ctx := {| backend_host := "app.local"; origin_host := None; client_addr := "203.0.113.7";
                request_https := true; request_uri := "/"; grpc_timeout := Some (lit "5S") |} in
  exists c h' events, parse_origin_secret (Some (lit "grpc-timeout")) (Some (lit "hush")) = Ok c
    /\ @stamp_upstream_request _ assoc_headers ctx c [] = Some (h', events)
    /\ @get_all _ assoc_headers h' (os_header c) = [lit "5S"].
Proof. do 3 eexists. split; [vm_compute; reflexivity|]. split; vm_compute; reflexivity. Qed.

Lemma stamp_unspoofable_witness :
  let ctx := {| backend_host := "app.local"; origin_host := None; client_addr := "203.0.113.7";
                request_https := true; request_uri := "/"; grpc_timeout := None |} in
  let h := [((("x-forwarded-for" : bytes), ("10.0.0.1" : bytes)));
            (("Connection" : bytes), ("x-internal, close" : bytes));
            (("X-Internal" : bytes), ("1" : bytes))] in
  exists h' events,
    @stamp_upstream_request _ assoc_headers ctx default_origin_secret h = Some (h', events)
    /\ @get_all _ assoc_headers h' "X-Forwarded-For" = [lit "203.0.113.7"]
    /\ @get_all _ assoc_headers h' "X-Internal" = [].
Proof.
  intros ctx h.
  destruct (@stamp_unspoofable _ assoc_headers h ctx None None default_origin_secret
    eq_refl eq_refl eq_refl eq_refl eq_refl eq_refl) as (h' & ev & Hs & _ & _ & Hx & _ & _ & Hn).
  exists h', ev. split; [exact Hs|]. split; [exact Hx|]. apply Hn; try reflexivity. right. reflexivity.
Defined.
