(* ===== verification/Budget.v ===== *)
(** * Memory and concurrency budgets ([src/proxy.rs], [src/spool.rs])

    Shared atomic counters against which requests reserve memory, spool bytes, spool files
    and in-flight slots, the per-request buffers, and the accounting each holder of a
    reservation keeps.  Requests run concurrently: the accounting theorem is about every
    interleaving of the atomic operations. *)

From S2P Require Import Prelude.

(** ** Buffers of one request *)

(** [src/proxy.rs: struct BoundedBodyBuffer] *)
Record BoundedBodyBuffer : Type := { buf_bytes : bytes; buf_max : Z }.

(** [src/proxy.rs: BoundedBodyBuffer::new] *)
Definition buffer_new (max : Z) : BoundedBodyBuffer := {| buf_bytes := []; buf_max := max |}.

(** [src/proxy.rs: BoundedBodyBuffer::push] *)
Definition buffer_push (chunk : bytes) (b : BoundedBodyBuffer) : BoundedBodyBuffer * bool :=
  match checked_add usize_max (len (buf_bytes b)) (len chunk) with
  | None => (b, false)
  | Some size =>
      if buf_max b <? size then (b, false)
      else ({| buf_bytes := buf_bytes b ++ chunk; buf_max := buf_max b |}, true)
  end.

(** [src/proxy.rs: BoundedBodyBuffer::take] *)
Definition buffer_take (b : BoundedBodyBuffer) : BoundedBodyBuffer * bytes :=
  ({| buf_bytes := []; buf_max := buf_max b |}, buf_bytes b).

Fixpoint push_all (chunks : list bytes) (b : BoundedBodyBuffer) : BoundedBodyBuffer * bool :=
  match chunks with
  | [] => (b, true)
  | c :: chunks =>
      let '(b, ok) := buffer_push c b in if ok then push_all chunks b else (b, false)
  end.

(** ** Counters *)

(** [src/proxy.rs: struct ByteBudget] *)
Record ByteBudget : Type := { current : Z; budget_max : Z }.

(** [src/proxy.rs: fn env_bytes] *)
Definition env_bytes (env : Env) (name : string) (dflt : Z) : Z :=
  env_positive env name usize_max dflt.

(** [src/proxy.rs: ByteBudget::from_env] *)
Definition budget_from_env (env : Env) (name : string) (dflt : Z) : ByteBudget :=
  {| current := 0; budget_max := env_bytes env name dflt |}.

Definition set_current (b : ByteBudget) (v : Z) : ByteBudget :=
  {| current := v; budget_max := budget_max b |}.

(** [src/proxy.rs: ByteBudget::reserve] One atomic [fetch_update]. *)
Definition reserve (bytes : Z) (b : ByteBudget) : ByteBudget * bool :=
  match checked_add usize_max (current b) bytes with
  | Some next => if next <=? budget_max b then (set_current b next, true) else (b, false)
  | None => (b, false)
  end.

(** [src/proxy.rs: ByteBudget::release] One atomic [fetch_sub]. *)
Definition release (bytes : Z) (b : ByteBudget) : ByteBudget :=
  if 0 <? bytes then set_current b (wrapping_sub (current b) bytes) else b.

(** [src/proxy.rs: struct ConcurrencyState] *)
Record ConcurrencyState : Type := { in_flight : ByteBudget }.

(** [src/proxy.rs: ConcurrencyState::from_env] *)
Definition concurrency_from_env (env : Env) : ConcurrencyState :=
  {| in_flight := {| current := 0;
       budget_max := env_positive env "MAX_IN_FLIGHT_REQUESTS" usize_max 1024 |} |}.

(** [src/proxy.rs: ConcurrencyState::acquire] [true] hands out a guard. *)
Definition acquire (s : ConcurrencyState) : ConcurrencyState * bool :=
  let b := in_flight s in
  if current b <? budget_max b
  then ({| in_flight := set_current b (current b + 1) |}, true) else (s, false).

(** [src/proxy.rs: ConcurrencyGuard::drop] *)
Definition guard_drop (s : ConcurrencyState) : ConcurrencyState :=
  {| in_flight := set_current (in_flight s) (wrapping_sub (current (in_flight s)) 1) |}.

(** ** Reservations of a request *)

(** A holder of reserved bytes ([dlp_reserved] or [request_reserved] of [FerroadaCtx],
    [reserved] of [SpoolHandle]).  [Recording n]: the counter has been raised by [n] and the
    holder's own figure not yet; [Clearing]: the counter has been lowered and the figure not
    yet reset. *)
Inductive Phase : Type := Idle | Recording (n : Z) | Clearing.
Record Holder : Type := { reserved : Z; phase : Phase }.
Definition idle (n : Z) : Holder := {| reserved := n; phase := Idle |}.

(** [src/proxy.rs: FerroadaCtx::reserve_dlp] Run without interruption. *)
Definition reserve_dlp (bytes : Z) (b : ByteBudget) (h : Holder) : ByteBudget * Holder * bool :=
  let '(b, ok) := reserve bytes b in
  if ok then (b, idle (reserved h + bytes), true) else (b, h, false).

(** [src/proxy.rs: FerroadaCtx::release_dlp] *)
Definition release_dlp (b : ByteBudget) (h : Holder) : ByteBudget * Holder :=
  (release (reserved h) b, idle 0).

(** [src/proxy.rs: FerroadaCtx::reserve_request] *)
Definition reserve_request (bytes : Z) (b : ByteBudget) (h : Holder) : ByteBudget * Holder * bool :=
  let '(b, ok) := reserve bytes b in
  if ok then (b, idle (reserved h + bytes), true) else (b, h, false).

(** [src/proxy.rs: FerroadaCtx::release_request] *)
Definition release_request (b : ByteBudget) (h : Holder) : ByteBudget * Holder :=
  (release (reserved h) b, idle 0).

(** [src/proxy.rs: FerroadaCtx::drop] *)
Definition ctx_drop (dlp request : ByteBudget) (h_dlp h_request : Holder)
  : ByteBudget * ByteBudget :=
  (fst (release_dlp dlp h_dlp), fst (release_request request h_request)).

(** ** Sizes of reservations *)

(** [src/waf.rs: fn inflate_buffer_bytes] *)
Definition inflate_buffer_bytes (limit : Z) : Z := saturating_add usize_max limit 1.

(** [src/proxy.rs: fn reserves_inflated_body] *)
Definition reserves_inflated_body (content_encoding : option bytes) : bool :=
  match content_encoding with
  | Some e => one_of (to_ascii_lowercase (trim e)) ["gzip"; "x-gzip"; "deflate"]
  | None => false
  end.

(** [src/waf.rs: const MAX_INFLATE_FOR_INSPECT] *)
Definition MAX_INFLATE_FOR_INSPECT : Z := 256 * 1024.

(** [src/waf.rs: fn max_inflate_buffer_bytes] *)
Definition max_inflate_buffer_bytes : Z := inflate_buffer_bytes MAX_INFLATE_FOR_INSPECT.

(** [src/proxy.rs: fn request_inspection_reservation] *)
Definition request_inspection_reservation (content_length : option Z) (max_body_size : Z)
    (content_encoding : option bytes) : option Z :=
  let body_size := Z.min (default max_body_size content_length) max_body_size in
  bytes ← checked_mul usize_max body_size 2;
  if reserves_inflated_body content_encoding
  then checked_add usize_max bytes max_inflate_buffer_bytes
  else Some bytes.

(** [src/proxy.rs: fn spool_inspection_reservation] *)
Definition spool_inspection_reservation (content_length : option Z) (max_decoded : Z)
    (content_encoding : option bytes) : option Z :=
  let body_size := Z.min (default max_decoded content_length) max_decoded in
  if reserves_inflated_body content_encoding
  then checked_add usize_max body_size (inflate_buffer_bytes max_decoded)
  else Some body_size.

(** ** Properties: buffers *)

(** Chunks pushed one after the other: they are all kept, in order, exactly when their
    total fits the limit; the buffer never holds more than the limit, and what it holds is
    always whole chunks from the start of the body. *)
Theorem push_all_spec (chunks : list bytes) (max : Z) :
  0 <= max <= usize_max ->
  let '(b, ok) := push_all chunks (buffer_new max) in
  (ok = true <-> len (concat chunks) <= max)
  /\ (ok = true -> buf_bytes b = concat chunks)
  /\ len (buf_bytes b) <= max
  /\ exists k, buf_bytes b = concat (take k chunks).
Proof.
  intros Hm.
  assert (Hgen : forall l b, buf_max b = max -> len (buf_bytes b) <= max ->
    let '(b', ok) := push_all l b in
    (ok = true <-> len (buf_bytes b) + len (concat l) <= max)
    /\ (ok = true -> buf_bytes b' = buf_bytes b ++ concat l)
    /\ len (buf_bytes b') <= max
    /\ exists k, buf_bytes b' = buf_bytes b ++ concat (take k l)).
  { induction l as [|c l IH]; intros b Hb Hl; cbn [push_all concat].
    - rewrite len_nil, app_nil_r. repeat split; try done; try lia. exists 0%nat. simpl. by rewrite app_nil_r.
    - unfold buffer_push, checked_add. rewrite Hb, len_app.
      pose proof (len_nonneg (concat l)). pose proof (len_nonneg c).
      destruct (Z.leb_spec (len (buf_bytes b) + len c) usize_max).
      2:{ split; [split; [done|lia]|]. split; [done|]. split; [done|]. exists 0%nat. simpl. by rewrite app_nil_r. }
      destruct (Z.ltb_spec max (len (buf_bytes b) + len c)).
      { split; [split; [done|lia]|]. split; [done|]. split; [done|]. exists 0%nat. simpl. by rewrite app_nil_r. }
      specialize (IH {| buf_bytes := buf_bytes b ++ c; buf_max := max |} eq_refl). simpl in IH.
      destruct (push_all l _) as [b' ok]. destruct IH as (R1 & R2 & R3 & k & R4).
      { rewrite len_app. lia. }
      rewrite len_app, <- Z.add_assoc in R1. rewrite <- app_assoc in R2, R4.
      split; [done|]. split; [done|]. split; [done|]. by exists (S k). }
  specialize (Hgen chunks (buffer_new max) eq_refl). simpl in Hgen. apply Hgen. unfold len. simpl. lia.
Qed.

Lemma push_all_spec_witness :
  push_all [lit "abc"; lit "def"; lit "g"] (buffer_new 6)
  = ({| buf_bytes := lit "abcdef"; buf_max := 6 |}, false)
  /\ len (buf_bytes (fst (push_all [lit "abc"; lit "def"; lit "g"] (buffer_new 6)))) <= 6.
Proof.
  split; [reflexivity|].
  pose proof (push_all_spec [lit "abc"; lit "def"; lit "g"] 6 ltac:(vm_compute; intuition discriminate)) as H.
  exact (proj1 (proj2 (proj2 H))).
Defined.

(** ** Properties: counters under concurrency *)

Record System : Type := { budget : ByteBudget; holders : gmap nat Holder }.

Definition update (s : System) (b : ByteBudget) (i : nat) (h : Holder) : System :=
  {| budget := b; holders := <[i := h]> (holders s) |}.

(** One atomic operation of some request. *)
Inductive step (s : System) : System -> Prop :=
| step_new i :
    holders s !! i = None -> step s (update s (budget s) i (idle 0))
| step_reserve i r n b :
    holders s !! i = Some (idle r) -> 0 <= n -> reserve n (budget s) = (b, true) ->
    step s (update s b i {| reserved := r; phase := Recording n |})
| step_refused i r n b :
    holders s !! i = Some (idle r) -> 0 <= n -> reserve n (budget s) = (b, false) ->
    step s (update s b i (idle r))
| step_record i r n :
    holders s !! i = Some {| reserved := r; phase := Recording n |} ->
    step s (update s (budget s) i (idle (r + n)))
| step_release i r :
    holders s !! i = Some (idle r) ->
    step s (update s (release r (budget s)) i {| reserved := r; phase := Clearing |})
| step_clear i r :
    holders s !! i = Some {| reserved := r; phase := Clearing |} ->
    step s (update s (budget s) i (idle 0))
| step_gone i :
    holders s !! i = Some (idle 0) ->
    step s {| budget := budget s; holders := delete i (holders s) |}.

(** The bytes of the counter that belong to a holder. *)
Definition owned (h : Holder) : Z :=
  match phase h with Idle => reserved h | Recording n => reserved h + n | Clearing => 0 end.

Definition holder_ok (h : Holder) : Prop :=
  0 <= reserved h /\ match phase h with Recording n => 0 <= n | _ => True end.

Record budget_inv (max : Z) (s : System) : Prop := {
  bi_max : budget_max (budget s) = max;
  bi_le : current (budget s) <= max;
  bi_sum : current (budget s) = map_sum owned (holders s);
  bi_ok : forall i h, holders s !! i = Some h -> holder_ok h;
}.

Lemma owned_nonneg h : holder_ok h -> 0 <= owned h.
Proof. destruct h as [r []]; unfold holder_ok, owned; simpl; lia. Qed.

Lemma owned_le max s i h : budget_inv max s -> holders s !! i = Some h ->
  owned h <= current (budget s).
Proof.
  intros [_ _ Hs Hok] Hi. rewrite Hs. apply (map_sum_ge _ _ i); [|done].
  intros j h' Hj. apply owned_nonneg, (Hok j), Hj.
Qed.

Lemma reserve_spec n b b' ok : reserve n b = (b', ok) ->
  budget_max b' = budget_max b
  /\ (if ok then current b' = current b + n /\ current b + n <= budget_max b
      else b' = b).
Proof.
  unfold reserve, checked_add. destruct (_ <=? usize_max); [|by intros [= <- <-]].
  destruct (Z.leb_spec (current b + n) (budget_max b)); by intros [= <- <-].
Qed.

Lemma release_exact r b : 0 <= r <= current b -> current b <= usize_max ->
  current (release r b) = current b - r.
Proof.
  unfold usize_max, u64_max. intros Hr Hc. unfold release. destruct (Z.ltb_spec 0 r); simpl; [|lia].
  apply wrapping_sub_small; lia.
Qed.

Lemma update_inv max s b i h old :
  budget_inv max s -> budget_max b = max -> current b <= max -> holder_ok h ->
  holders s !! i = Some old -> current b = current (budget s) - owned old + owned h ->
  budget_inv max (update s b i h).
Proof.
  intros [Hm Hl Hs Hok] Hb Hle Hh Hi Hc. constructor; simpl; try done.
  - by rewrite (map_sum_insert _ _ _ old), <- Hs.
  - intros j h'. destruct (decide (j = i)) as [->|Hji].
    + rewrite lookup_insert_eq. by intros [= <-].
    + rewrite lookup_insert_ne by done. apply Hok.
Qed.

Lemma step_inv max s s' : max <= usize_max -> budget_inv max s -> step s s' -> budget_inv max s'.
Proof.
  intros Hmax HI Hst. pose proof HI as [Hm Hl Hs Hok].
  destruct Hst as [i Hi|i r n b Hi Hn Hr|i r n b Hi Hn Hr|i r n Hi|i r Hi|i r Hi|i Hi].
  - constructor; simpl; try done.
    + by rewrite map_sum_insert_new.
    + intros j h. destruct (decide (j = i)) as [->|Hji].
      * rewrite lookup_insert_eq. by intros [= <-].
      * rewrite lookup_insert_ne by done. apply Hok.
  - apply reserve_spec in Hr as (Hbm & Hc & Hle). pose proof (Hok i _ Hi) as [? _]. simpl in *.
    eapply update_inv; try done; unfold owned; simpl; try lia; try congruence.
  - apply reserve_spec in Hr as (_ & ->).
    eapply update_inv; try done; [apply (Hok i _ Hi)|lia].
  - pose proof (Hok i _ Hi) as [? ?]. simpl in *.
    eapply update_inv; try done; [split; simpl; [lia|done]|unfold owned; simpl; lia].
  - pose proof (owned_le _ _ _ _ HI Hi) as Ho. pose proof (Hok i _ Hi) as [Hr _].
    unfold owned in Ho; simpl in *.
    assert (Hc : current (release r (budget s)) = current (budget s) - r)
      by (apply release_exact; lia).
    eapply update_inv; try done; try (unfold owned; simpl; lia).
    unfold release. by destruct (0 <? r).
  - eapply update_inv; try done. unfold owned. simpl. lia.
  - constructor; simpl; try done.
    + rewrite Hs, (map_sum_delete _ _ _ _ Hi). done.
    + intros j h [_ Hj]%lookup_delete_Some. by apply (Hok j).
Qed.

Definition initial (max : Z) : System :=
  {| budget := {| current := 0; budget_max := max |}; holders := ∅ |}.

Lemma initial_inv max : 0 <= max -> budget_inv max (initial max).
Proof. by constructor; simpl; [|lia|rewrite map_sum_empty|intros i h; rewrite lookup_empty]. Qed.

(** Whatever the number of concurrent requests and the interleaving of their atomic
    operations, the counter is the sum of what the requests hold, never exceeds the limit,
    no release takes it below zero, no request's own figure exceeds the limit, and once all
    requests are gone it is zero: nothing leaks. *)
Theorem budget_accounting (max : Z) (s : System) :
  0 <= max <= usize_max -> rtc step (initial max) s ->
  current (budget s) = map_sum owned (holders s)
  /\ 0 <= current (budget s) <= max
  /\ (forall i r, holders s !! i = Some (idle r) ->
        current (release r (budget s)) = current (budget s) - r)
  /\ (forall i r n, holders s !! i = Some {| reserved := r; phase := Recording n |} -> r + n <= max)
  /\ (holders s = ∅ -> current (budget s) = 0).
Proof.
  intros Hmax Hr.
  assert (HI : budget_inv max s).
  { revert Hr. generalize (initial_inv max ltac:(lia)). generalize (initial max).
    intros s0 HI Hr. induction Hr as [s|s s1 s2 Hst _ IH]; [done|].
    apply IH. eapply step_inv; [|done|done]. lia. }
  pose proof HI as [Hm Hl Hs Hok]. split; [done|]. split; [|split; [|split]].
  - rewrite Hs at 1. split; [|lia]. apply map_sum_nonneg. intros i h Hi. apply owned_nonneg, (Hok i), Hi.
  - intros i r Hi. pose proof (owned_le _ _ _ _ HI Hi) as Ho. pose proof (Hok i _ Hi) as [? _].
    unfold owned in Ho; simpl in *. apply release_exact; lia.
  - intros i r n Hi. pose proof (owned_le _ _ _ _ HI Hi) as Ho. unfold owned in Ho; simpl in Ho. lia.
  - intros He. rewrite Hs, He. apply map_sum_empty.
Qed.

Lemma budget_accounting_witness :
  exists s, rtc step (initial 10) s /\ current (budget s) = 7
    /\ current (release 7 (budget s)) = current (budget s) - 7.
Proof.
  assert (Hr : exists s, rtc step (initial 10) s /\ current (budget s) = 7
    /\ holders s !! 1%nat = Some (idle 7)).
  { eexists. split; [|split; [|]].
    - eapply rtc_l; [apply (step_new _ 1); reflexivity|].
      eapply rtc_l; [eapply (step_reserve _ 1 0 7); [reflexivity|lia|reflexivity]|].
      eapply rtc_l; [eapply (step_record _ 1 0 7); reflexivity|]. apply rtc_refl.
    - reflexivity.
    - reflexivity. }
  destruct Hr as (s & Hr & Hc & Hh). exists s. split; [done|]. split; [done|].
  apply (budget_accounting 10 s) with (i := 1%nat); [vm_compute; intuition discriminate|done|done].
Defined.

(** The in-flight counter is the same discipline with one unit per guard. *)
Lemma acquire_reserve s : budget_max (in_flight s) <= usize_max ->
  acquire s = let '(b, ok) := reserve 1 (in_flight s) in ({| in_flight := b |}, ok).
Proof.
  intros Hm. destruct s as [[c m]]. unfold acquire, reserve, checked_add, set_current. simpl in *.
  destruct (Z.ltb_spec c m), (Z.leb_spec (c + 1) usize_max); try lia;
    try (destruct (Z.leb_spec (c + 1) m); try lia); done.
Qed.

Lemma guard_drop_release s : guard_drop s = {| in_flight := release 1 (in_flight s) |}.
Proof. by destruct s as [[c m]]. Qed.
