(* ===== verification/Connection.v ===== *)
(** * Connection admission ([src/connection.rs])

    The filter every TCP connection passes before it is read: a global and a per-address
    sliding window of accepted attempts, and a bound on active connections in which an
    accepted socket first holds a pending slot and then a guard.

    [check] runs under the mutex of the global window, so checks do not interleave; the
    accounting of active connections does interleave, and is also given as a step relation
    on its atomic operations.  [evict_expired] reads the clock again: its reading is a
    separate argument. *)

From S2P Require Import Prelude Net Window.

(** ** Attempt windows *)

(** [src/connection.rs: struct ConnectionRateFilter] without the active connections. *)
Record RateFilter : Type := {
  attempts : gmap IpAddr (list Instant);
  max_attempts : Z;
  window : Duration;
  max_ips : Z;
  checks : Z;
  global_attempts : list Instant;
  max_global_attempts : Z;
  poisoned : bool;
}.

(** The front of a deque popped while expired. *)
Fixpoint pop_expired (w : Duration) (now : Instant) (q : list Instant) : list Instant :=
  match q with
  | t :: q' => if w <=? duration_since now t then pop_expired w now q' else q
  | [] => []
  end.

(** [src/connection.rs: fn env_usize] *)
Definition env_usize (env : Env) (name : string) (dflt : Z) : Z := env_positive env name usize_max dflt.

(** [src/connection.rs: fn env_u64] *)
Definition env_u64 (env : Env) (name : string) (dflt : Z) : Z := env_positive env name u64_max dflt.

(** [src/connection.rs: ConnectionRateFilter::new_with_connection_limit] *)
Definition new_filter (max_attempts window max_ips max_global_attempts : Z) : RateFilter := {|
  attempts := ∅;
  max_attempts := Z.max max_attempts 1;
  window := window;
  max_ips := Z.max max_ips 1;
  checks := 0;
  global_attempts := [];
  max_global_attempts := Z.max max_global_attempts 1;
  poisoned := false;
|}.

Definition with_state (f : RateFilter) (m : gmap IpAddr (list Instant)) (n : Z) (g : list Instant)
  : RateFilter := {|
  attempts := m; max_attempts := max_attempts f; window := window f; max_ips := max_ips f;
  checks := n; global_attempts := g; max_global_attempts := max_global_attempts f;
  poisoned := poisoned f |}.

(** [src/connection.rs: ConnectionRateFilter::evict_expired] *)
Definition evict_expired (w : Duration) (now : Instant) (m : gmap IpAddr (list Instant))
  : gmap IpAddr (list Instant) :=
  omap (fun q => let q := pop_expired w now q in if is_empty q then None else Some q) m.

(** [src/connection.rs: ConnectionRateFilter::check] *)
Definition check (now now_evict : Instant) (ip : IpAddr) (f : RateFilter) : RateFilter * bool :=
  if poisoned f then (f, false)
  else
    let g := pop_expired (window f) now (global_attempts f) in
    if max_global_attempts f <=? len g then (with_state f (attempts f) (checks f) g, false)
    else
      let m := if checks f mod 256 =? 0 then evict_expired (window f) now_evict (attempts f)
               else attempts f in
      let n := (checks f + 1) mod 2 ^ 64 in
      if negb (bool_decide (is_Some (m !! ip))) && (max_ips f <=? Z.of_nat (size m))
      then (with_state f m n g, false)
      else
        let q := pop_expired (window f) now (row m ip) in
        if max_attempts f <=? len q then (with_state f (<[ip := q]> m) n g, false)
        else (with_state f (<[ip := q ++ [now]]> m) n (g ++ [now]), true).

(** ** Active connections *)

(** [src/connection.rs: struct ActiveConnectionState] *)
Record ActiveConnectionState : Type := {
  current : Z;
  max : Z;
  pending : gmap SocketAddr Instant;
  pending_ttl : Duration;
}.

Definition set_active (s : ActiveConnectionState) (c : Z) (p : gmap SocketAddr Instant)
  : ActiveConnectionState :=
  {| current := c; max := max s; pending := p; pending_ttl := pending_ttl s |}.

(** [src/connection.rs: ActiveConnectionState::new] *)
Definition new_active (m : Z) : ActiveConnectionState :=
  {| current := 0; max := Z.max m 1; pending := ∅; pending_ttl := from_secs 65 |}.

(** One atomic [fetch_sub(1)]. *)
Definition decrement (s : ActiveConnectionState) : ActiveConnectionState :=
  set_active s (wrapping_sub (current s) 1) (pending s).

(** [src/connection.rs: ActiveConnectionGuard::drop] *)
Definition guard_drop (s : ActiveConnectionState) : ActiveConnectionState := decrement s.

(** [src/connection.rs: ActiveConnectionState::increment] *)
Definition increment (s : ActiveConnectionState) : ActiveConnectionState * bool :=
  if current s <? max s then (set_active s (current s + 1) (pending s), true) else (s, false).

(** [src/connection.rs: ActiveConnectionState::acquire] [true] hands out a guard. *)
Definition acquire (s : ActiveConnectionState) : ActiveConnectionState * bool := increment s.

Definition expired (ttl : Duration) (now : Instant) (e : SocketAddr * Instant) : Prop :=
  ~ duration_since now e.2 < ttl.
#[export] Instance expired_dec ttl now e : Decision (expired ttl now e).
Proof. unfold expired. apply _. Defined.

(** [src/connection.rs: ActiveConnectionState::evict_expired_pending] Each expired entry lowers the counter
    and leaves the table, under the lock of its shard. *)
Definition evict_expired_pending (now : Instant) (s : ActiveConnectionState) : ActiveConnectionState :=
  let gone := base.filter (expired (pending_ttl s) now) (map_to_list (pending s)) in
  foldl (fun s e => let s := decrement s in set_active s (current s) (delete e.1 (pending s))) s gone.

(** [src/connection.rs: ActiveConnectionState::reserve_pending] *)
Definition reserve_pending (now_evict now : Instant) (addr : SocketAddr) (s : ActiveConnectionState)
  : ActiveConnectionState * bool :=
  let s := evict_expired_pending now_evict s in
  let '(s, ok) := increment s in
  if negb ok then (s, false)
  else
    let replaced := bool_decide (is_Some (pending s !! addr)) in
    let s := set_active s (current s) (<[addr := now]> (pending s)) in
    ((if replaced then decrement s else s), true).

(** [src/connection.rs: ActiveConnectionState::activate] [true] hands out a guard. *)
Definition activate (now : Instant) (addr : option SocketAddr) (s : ActiveConnectionState)
  : ActiveConnectionState * bool :=
  let s := evict_expired_pending now s in
  match addr with
  | Some a =>
      if bool_decide (is_Some (pending s !! a))
      then (set_active s (current s) (delete a (pending s)), true)
      else acquire s
  | None => acquire s
  end.

(** ** The filter *)

(** [src/connection.rs: ConnectionRateFilter::from_env] *)
Definition from_env (env : Env) : RateFilter * ActiveConnectionState :=
  (new_filter (env_usize env "CONNECTION_RATE_MAX" 60)
     (from_secs (env_u64 env "CONNECTION_RATE_WINDOW" 1))
     (env_usize env "CONNECTION_RATE_MAX_IPS" 50000)
     (env_usize env "GLOBAL_CONNECTION_RATE_MAX" 10000),
   new_active (env_usize env "MAX_ACTIVE_CONNECTIONS" 10000)).

(** The clock readings of one call. *)
Record Readings : Type := { r_now : Instant; r_evict : Instant; r_pending_evict : Instant; r_pending : Instant }.

(** [src/connection.rs: ConnectionRateFilter::should_accept] *)
Definition should_accept (r : Readings) (addr : option SocketAddr)
    (f : RateFilter) (s : ActiveConnectionState)
  : RateFilter * ActiveConnectionState * bool * list BlockEvent :=
  let block ip detail := {| ev_site := None; ev_type := "connection_limit"; ev_client := LabelIp ip;
                            ev_uri := "/"; ev_detail := detail |} in
  match addr with
  | None => (f, s, false, [])
  | Some addr =>
      let ip := socket_ip addr in
      let '(f, ok) := check (r_now r) (r_evict r) ip f in
      if negb ok then (f, s, false, [block ip "Connection attempt rate exceeded"])
      else
        let '(s, ok) := reserve_pending (r_pending_evict r) (r_pending r) addr s in
        if negb ok
        then (f, s, false, [block ip "Maximum active downstream connections reached"])
        else (f, s, true, [])
  end.

(** What Pingora calls when a handshake is complete; what the callback returns is kept with the session. *)
Inductive Callbacks : Set := HelloFingerprint | DashboardClientAuth.
(** [src/connection.rs: static TLS_FINGERPRINT_CB] *)
Definition TLS_FINGERPRINT_CB : Callbacks := HelloFingerprint.

(** What is done with the stream of a connection. *)
Inductive StreamStep : Set := ReadsHeader | ShakesHands (callbacks : option Callbacks) | Serves.

(** How the connection ends up after activation; while it is [Holding], a guard exists, and these steps were taken, in this order. *)
Inductive Served : Type := Refused | Holding (steps : list StreamStep).
Inductive TlsOutcome : Set := TlsDone | NotClearTcp | HandshakeFailed | HandshakeTimeout.

(** [src/connection.rs: BoundedHttpApp::process_new] [pre_tls] is the error of the PROXY v2 reading, if any,
    and [tls] the outcome of the handshake when the application has an acceptor. *)
Definition process_new (now : Instant) (tcp_inet : option SocketAddr) (tcp_peer_label : bytes)
    (proxy_protocol : bool) (pre_tls : option bytes) (tls : option TlsOutcome)
    (s : ActiveConnectionState) : ActiveConnectionState * Served * list BlockEvent :=
  let block type detail := {| ev_site := None; ev_type := type; ev_client := LabelText tcp_peer_label;
                              ev_uri := "/"; ev_detail := detail |} in
  let '(s, ok) := activate now tcp_inet s in
  if negb ok
  then (s, Refused, [block "connection_limit" "Maximum active downstream connections reached"])
  else
    let steps := if proxy_protocol then [ReadsHeader] else [] in
    match (if proxy_protocol then pre_tls else None) with
    | Some error => (s, Holding steps, [block "proxy_protocol" error])
    | None =>
        match tls with
        | None => (s, Holding (steps ++ [Serves]), [])
        | Some NotClearTcp => (s, Holding steps, [])
        | Some outcome =>
            let steps := steps ++ [ShakesHands (Some TLS_FINGERPRINT_CB)] in
            match outcome with
            | TlsDone => (s, Holding (steps ++ [Serves]), [])
            | _ => (s, Holding steps, [])
            end
        end
    end.

(** ** Properties: attempt windows *)

Section AttemptLog.
Context (w : Duration).

Lemma retain_pop now now' q : now <= now' ->
  retain_window id w now' (pop_expired w now q) = retain_window id w now' q.
Proof.
  intros Hn. induction q as [|t q IH]; [done|]. cbn [pop_expired].
  destruct (Z.leb_spec w (duration_since now t)); [|done].
  rewrite IH. unfold retain_window. rewrite (filter_cons_False (live id w now') t); [done|].
  unfold live, duration_since, id in *. lia.
Qed.

Lemma retain_pop_length now q : len (retain_window id w now q) <= len (pop_expired w now q).
Proof.
  rewrite <- (retain_pop now now q) by lia. apply retain_length.
Qed.

(** [adm] are accepted attempts and [q] the deque that counts them, at time [now]; [v] is the
    length of the intervals in which they are bounded. *)
Record log_inv (v max : Z) (now : Instant) (adm q : list Instant) : Prop := {
  li_past : Forall (fun t => t <= now) adm;
  li_kept : forall now', now <= now' -> retain_window id w now' adm `sublist_of` retain_window id w now' q;
  li_bound : forall a, len (base.filter (within a v) adm) <= max;
}.

Lemma log_later v max now now' adm q q' : log_inv v max now adm q -> now <= now' ->
  (forall t, now' <= t -> retain_window id w t q' = retain_window id w t q) ->
  log_inv v max now' adm q'.
Proof.
  intros [Hp Hk Hb] Hn Hq. constructor; try done.
  - eapply Forall_impl; [exact Hp|]. simpl. intros; lia.
  - intros t Ht. rewrite Hq by done. apply Hk. lia.
Qed.

(** A deque with room takes one more reading [t], up to the skew [now - t]. *)
Lemma log_push v max t now adm q : log_inv v max now adm q -> t <= now -> now + v <= t + w ->
  len (retain_window id w now q) < max -> log_inv v max now (adm ++ [t]) (q ++ [t]).
Proof.
  intros [Hp Hk Hb] Ht Hv Hl. constructor.
  - apply Forall_app. split; [done|]. by constructor.
  - intros now' Hn. rewrite !retain_app. by apply sublist_app; [apply Hk|].
  - intros a. rewrite filter_app, filter_cons, filter_nil.
    destruct (decide (within a v t)) as [Hw|Hw]; [|rewrite app_nil_r; apply Hb].
    rewrite len_app, len_cons, len_nil.
    assert (Hs : base.filter (within a v) adm `sublist_of` retain_window id w now adm).
    { apply filter_sublist_impl. intros x Hx Hwx. rewrite Forall_forall in Hp.
      specialize (Hp x Hx). unfold within, live, duration_since, id in *. lia. }
    apply sublist_len in Hs. pose proof (sublist_len _ _ (Hk now ltac:(lia))). lia.
Qed.
End AttemptLog.

(** A connection attempt and the clock readings of its check. *)
Record Attempt : Type := { at_ip : IpAddr; at_now : Instant; at_evict : Instant }.

(** Checks take their turns under the mutex; the readings follow that order, and the second
    reading of a check comes at most [skew] after the first. *)
Fixpoint attempts_from (skew : Duration) (t : Instant) (l : list Attempt) : Prop :=
  match l with
  | [] => True
  | a :: l => t <= at_now a /\ at_now a <= at_evict a <= at_now a + skew
              /\ attempts_from skew (at_evict a) l
  end.

(** The attempts accepted by successive checks. *)
Fixpoint accepted (l : list Attempt) (f : RateFilter) : list Attempt :=
  match l with
  | [] => []
  | a :: l => let '(f', ok) := check (at_now a) (at_evict a) (at_ip a) f in
              (if ok then [a] else []) ++ accepted l f'
  end.

Definition times (l : list Attempt) : list Instant := map at_now l.
Definition times_of (ip : IpAddr) (l : list Attempt) : list Instant :=
  map at_now (base.filter (fun a => at_ip a = ip) l).

Record filter_inv (skew : Duration) (now : Instant) (adm : list Attempt) (f : RateFilter) : Prop := {
  fi_global : log_inv (window f) (window f) (max_global_attempts f) now (times adm) (global_attempts f);
  fi_ip : forall ip, log_inv (window f) (window f - skew) (max_attempts f) now (times_of ip adm)
                       (row (attempts f) ip);
}.

Lemma row_evict w now m ip : forall t, now <= t ->
  retain_window id w t (row (evict_expired w now m) ip) = retain_window id w t (row m ip).
Proof.
  intros t Ht. unfold row, evict_expired. rewrite lookup_omap.
  destruct (m !! ip) as [q|]; simpl; [|done]. rewrite <- (retain_pop w now t q) by done.
  destruct (is_empty _) eqn:E; simpl; [|done]. by apply is_empty_true in E as ->.
Qed.

Lemma times_of_app ip l k : times_of ip (l ++ k) = times_of ip l ++ times_of ip k.
Proof. unfold times_of. by rewrite filter_app, map_app. Qed.

Lemma times_of_one ip a : times_of ip [a] = if decide (at_ip a = ip) then [at_now a] else [].
Proof. unfold times_of. rewrite filter_cons. by case_decide. Qed.

Lemma check_inv skew t adm a f f' ok :
  filter_inv skew t adm f -> t <= at_now a -> at_now a <= at_evict a <= at_now a + skew ->
  check (at_now a) (at_evict a) (at_ip a) f = (f', ok) ->
  filter_inv skew (at_evict a) (adm ++ if ok then [a] else []) f'
  /\ max_attempts f' = max_attempts f /\ window f' = window f
  /\ max_global_attempts f' = max_global_attempts f.
Proof.
  intros [Hg Hi] Ht Hs Hc. split; [|revert Hc; unfold check; by repeat case_match; intros [= <- _]].
  set (w := window f) in *. set (now := at_now a) in *. set (ev := at_evict a) in *.
  assert (Hm : forall (b : bool) ip, log_inv w (w - skew) (max_attempts f) ev (times_of ip adm)
    (row (if b then evict_expired w ev (attempts f) else attempts f) ip)).
  { intros b ip. eapply log_later; [apply Hi|lia|]. intros t' Ht'. destruct b; [|done].
    by apply row_evict. }
  assert (Hg1 : log_inv w w (max_global_attempts f) now (times adm) (pop_expired w now (global_attempts f))).
  { eapply log_later; [exact Hg|lia|]. intros. by apply retain_pop. }
  revert Hc. unfold check. fold w now ev. specialize (Hm (checks f mod 256 =? 0)).
  set (m := if checks f mod 256 =? 0 then _ else _) in *.
  set (g := pop_expired w now (global_attempts f)) in *.
  assert (Hg2 : log_inv w w (max_global_attempts f) ev (times adm) g).
  { eapply log_later; [exact Hg1|lia|done]. }
  destruct (poisoned f).
  { intros [= <- <-]. rewrite app_nil_r. constructor; [eapply log_later; [exact Hg|lia|done]|].
    intros ip. eapply log_later; [apply Hi|lia|done]. }
  destruct (Z.leb_spec (max_global_attempts f) (len g)) as [|Hgl].
  { intros [= <- <-]. rewrite app_nil_r. constructor; [done|]. intros ip.
    eapply log_later; [apply Hi|lia|done]. }
  destruct (negb _ && _).
  { intros [= <- <-]. rewrite app_nil_r. by constructor. }
  set (q := pop_expired w now (row m (at_ip a))) in *.
  assert (Hq : log_inv w (w - skew) (max_attempts f) ev (times_of (at_ip a) adm) q).
  { eapply log_later; [apply Hm|lia|]. intros. apply retain_pop. lia. }
  destruct (Z.leb_spec (max_attempts f) (len q)) as [|Hql].
  { intros [= <- <-]. rewrite app_nil_r. constructor; [done|]. intros ip.
    simpl. rewrite row_insert. destruct (decide (at_ip a = ip)) as [<-|]; [done|apply Hm]. }
  intros [= <- <-]. constructor; simpl.
  - unfold times. rewrite map_app. eapply log_later; [apply (log_push w w _ now now)| |].
    + exact Hg1.
    + lia.
    + lia.
    + fold w. pose proof (retain_length id w now g). lia.
    + lia.
    + done.
  - intros ip. rewrite times_of_app, times_of_one, row_insert.
    destruct (decide (at_ip a = ip)) as [<-|]; [|rewrite app_nil_r; apply Hm].
    change (window f) with w. apply log_push; [done|lia|lia|]. pose proof (retain_length id w ev q). lia.
Qed.

Lemma accepted_inv skew l : forall t adm f, filter_inv skew t adm f -> attempts_from skew t l ->
  exists t' f', filter_inv skew t' (adm ++ accepted l f) f'
  /\ max_attempts f' = max_attempts f /\ window f' = window f
  /\ max_global_attempts f' = max_global_attempts f.
Proof.
  induction l as [|a l IH]; intros t adm f HI; cbn [attempts_from accepted].
  - intros _. exists t, f. by rewrite app_nil_r.
  - intros (H1 & H2 & H3). destruct (check _ _ _ f) as [f1 ok] eqn:E.
    destruct (check_inv _ _ _ _ _ _ _ HI H1 H2 E) as (HI1 & E1 & E2 & E3).
    destruct (IH _ _ _ HI1 H3) as (t' & f' & HI' & F1 & F2 & F3).
    exists t', f'. rewrite app_assoc. split; [done|]. split; [congruence|]. split; congruence.
Qed.

(** In any interval as long as the window at most [max_global] connections are accepted,
    and at most [max_attempts] from one address in any interval shorter by the time a check
    takes between its two clock readings. *)
Theorem connection_window_bound (max_attempts w max_ips max_global skew : Z)
    (l : list Attempt) (t a : Z) (ip : IpAddr) :
  attempts_from skew t l ->
  let adm := accepted l (new_filter max_attempts w max_ips max_global) in
  len (base.filter (within a w) (times adm)) <= Z.max max_global 1
  /\ len (base.filter (within a (w - skew)) (times_of ip adm)) <= Z.max max_attempts 1.
Proof.
  intros Hl. set (f := new_filter max_attempts w max_ips max_global).
  destruct (accepted_inv skew l t [] f) as (t' & f' & [Hg Hi] & E1 & E2 & E3); [|done|].
  - constructor; [|intros ip']; (constructor; simpl;
      [by constructor|by intros|intros; unfold len; simpl; lia]).
  - simpl in *. rewrite E1, E2, E3 in *. split; [apply Hg|]. apply Hi.
Qed.

Definition demo_attempt (t : Z) : Attempt :=
  {| at_ip := V4 1; at_now := from_secs t; at_evict := from_secs t + 1000 |}.

Lemma connection_window_bound_witness :
  let l := map demo_attempt [1; 2; 3; 70] in
  times (accepted l (new_filter 2 (from_secs 60) 100 10)) = map from_secs [1; 2; 70]
  /\ len (base.filter (within 0 (from_secs 60 - 1000))
       (times_of (V4 1) (accepted l (new_filter 2 (from_secs 60) 100 10)))) <= 2.
Proof.
  intros l. split; [vm_compute; reflexivity|].
  apply (connection_window_bound 2 (from_secs 60) 100 10 1000 l 0 0 (V4 1)).
  vm_compute. intuition discriminate.
Defined.

(** ** Properties: active connections under concurrency *)

(** The counter and the table with what running calls still owe: [reserving] increments not
    yet in the table, [surplus] replaced entries not yet given back, [guards] alive. *)
Record Net : Type := {
  net : ActiveConnectionState; reserving : nat; surplus : nat; guards : nat;
}.

(** One atomic operation of some call. *)
Inductive step (n : Net) : Net -> Prop :=
| step_evict addr t now :
    pending (net n) !! addr = Some t -> expired (pending_ttl (net n)) now (addr, t) ->
    step n {| net := set_active (decrement (net n)) (current (decrement (net n)))
                       (delete addr (pending (net n)));
              reserving := reserving n; surplus := surplus n; guards := guards n |}
| step_increment s :
    increment (net n) = (s, true) ->
    step n {| net := s; reserving := S (reserving n); surplus := surplus n; guards := guards n |}
| step_insert addr now k :
    reserving n = S k ->
    step n {| net := set_active (net n) (current (net n)) (<[addr := now]> (pending (net n)));
              reserving := k;
              surplus := if decide (is_Some (pending (net n) !! addr)) then S (surplus n) else surplus n;
              guards := guards n |}
| step_surplus k :
    surplus n = S k ->
    step n {| net := decrement (net n); reserving := reserving n; surplus := k; guards := guards n |}
| step_activate addr :
    is_Some (pending (net n) !! addr) ->
    step n {| net := set_active (net n) (current (net n)) (delete addr (pending (net n)));
              reserving := reserving n; surplus := surplus n; guards := S (guards n) |}
| step_acquire s :
    acquire (net n) = (s, true) ->
    step n {| net := s; reserving := reserving n; surplus := surplus n; guards := S (guards n) |}
| step_drop k :
    guards n = S k ->
    step n {| net := guard_drop (net n); reserving := reserving n; surplus := surplus n; guards := k |}.

Record net_inv (m : Z) (n : Net) : Prop := {
  ni_max : max (net n) = m;
  ni_le : current (net n) <= m;
  ni_count : current (net n)
    = Z.of_nat (size (pending (net n)) + reserving n + surplus n + guards n);
}.

Lemma decrement_exact m n : m <= usize_max -> net_inv m n -> 0 < current (net n) ->
  current (decrement (net n)) = current (net n) - 1.
Proof.
  unfold usize_max, u64_max. intros Hm [_ Hl _] Hc. apply wrapping_sub_small; lia.
Qed.

Lemma increment_spec s s' ok : increment s = (s', ok) ->
  max s' = max s /\ pending s' = pending s
  /\ (if ok then current s' = current s + 1 /\ current s' <= max s else s' = s /\ max s <= current s).
Proof.
  unfold increment. destruct (Z.ltb_spec (current s) (max s)); intros [= <- <-]; simpl;
    repeat split; lia || done.
Qed.

Lemma net_step_inv m n n' : m <= usize_max -> net_inv m n -> step n n' -> net_inv m n'.
Proof.
  intros Hm HI Hst. pose proof HI as [Hmax Hle Hc].
  pose proof (decrement_exact m n Hm HI) as Hd.
  destruct Hst as [addr t now Hp _|s Hs|addr now k Hk|k Hk|addr Hp|s Hs|k Hk].
  - pose proof (map_size_delete_Some addr (pending (net n)) ltac:(eauto)) as Hsz.
    assert (size (pending (net n)) <> 0%nat).
    { intros Hz%map_size_empty_inv. rewrite Hz, lookup_empty in Hp. done. }
    constructor; simpl in *; [done|lia|]. rewrite Hd, Hsz by lia. lia.
  - apply increment_spec in Hs as (E1 & E2 & E3 & E4). constructor; simpl; rewrite ?E2; lia.
  - constructor; simpl; [done|done|]. rewrite Hc, Hk.
    destruct (decide (is_Some _)) as [Hs|Hs].
    + rewrite map_size_insert_Some by done. lia.
    + rewrite map_size_insert_None by by apply eq_None_not_Some. lia.
  - constructor; simpl in *; [done|lia|]. rewrite Hd; lia.
  - pose proof (map_size_delete_Some addr (pending (net n)) Hp) as Hsz.
    assert (size (pending (net n)) <> 0%nat).
    { intros Hz%map_size_empty_inv. rewrite Hz, lookup_empty in Hp. by destruct Hp. }
    constructor; simpl; [done|done|]. rewrite Hsz, Hc. lia.
  - apply increment_spec in Hs as (E1 & E2 & E3 & E4). constructor; simpl; rewrite ?E2; lia.
  - constructor; simpl in *; [done|unfold guard_drop; lia|]. unfold guard_drop. rewrite Hd; lia.
Qed.

Definition initial_net (m : Z) : Net :=
  {| net := new_active m; reserving := 0; surplus := 0; guards := 0 |}.

(** C20. Whatever the interleaving of accepts, activations, expiries and closures, the counter
    of active connections is the number of pending sockets, guards and reservations under
    way, it never exceeds the limit and no decrement takes it below zero; when no socket is
    pending and no connection is open it is zero, so the limit is never lost. *)
Theorem active_connections_accounting (m : Z) (n : Net) :
  m <= usize_max -> rtc step (initial_net m) n ->
  current (net n) = Z.of_nat (size (pending (net n)) + reserving n + surplus n + guards n)
  /\ 0 <= current (net n) <= Z.max m 1
  /\ (0 < current (net n) -> current (decrement (net n)) = current (net n) - 1)
  /\ (pending (net n) = ∅ -> reserving n = 0%nat -> surplus n = 0%nat -> guards n = 0%nat ->
      current (net n) = 0).
Proof.
  intros Hm Hr.
  assert (Hm' : Z.max m 1 <= usize_max) by (unfold usize_max, u64_max in *; lia).
  assert (HI : net_inv (Z.max m 1) n).
  { assert (H0 : net_inv (Z.max m 1) (initial_net m)).
    { constructor; simpl; [done|lia|]. by rewrite map_size_empty. }
    revert Hr H0. generalize (initial_net m). induction 1 as [s|s s1 s2 Hst _ IH]; [done|].
    intros H0. apply IH. by eapply net_step_inv. }
  pose proof HI as [Hmax Hle Hc]. split; [done|]. split; [lia|]. split.
  - by apply (decrement_exact (Z.max m 1)).
  - intros Hp H1 H2 H3. rewrite Hc, Hp, map_size_empty, H1, H2, H3. done.
Qed.

Lemma active_connections_accounting_witness :
  let a := SocketV4 1 4000 in
  exists n, rtc step (initial_net 1) n /\ guards n = 1%nat /\ 0 <= current (net n) <= 1.
Proof.
  intros a.
  assert (Hr : exists n, rtc step (initial_net 1) n /\ guards n = 1%nat).
  { eexists. split.
    - eapply rtc_l; [eapply step_increment; reflexivity|].
      eapply rtc_l; [apply (step_insert _ a 7 0); reflexivity|].
      eapply rtc_l; [apply (step_activate _ a); eexists; reflexivity|]. apply rtc_refl.
    - reflexivity. }
  destruct Hr as (n & Hr & Hg). exists n. split; [done|]. split; [done|].
  apply (active_connections_accounting 1 n); [vm_compute; discriminate|done].
Defined.

Definition with_net (n : Net) (s : ActiveConnectionState) (g : nat) : Net :=
  {| net := s; reserving := reserving n; surplus := surplus n; guards := g |}.

Lemma evict_fold_steps now gone : forall n,
  NoDup gone.*1 -> (forall e, e ∈ gone -> pending (net n) !! e.1 = Some e.2) ->
  Forall (expired (pending_ttl (net n)) now) gone ->
  rtc step n (with_net n
    (foldl (fun s e => let s := decrement s in set_active s (current s) (delete e.1 (pending s)))
       (net n) gone) (guards n)).
Proof.
  induction gone as [|[addr t] gone IH]; intros n Hnd Hin Hex.
  - simpl. destruct n. apply rtc_refl.
  - apply NoDup_cons in Hnd as [Ha Hnd]. apply Forall_cons in Hex as [He Hex].
    eapply rtc_l.
    + apply (step_evict n addr t now); [apply (Hin (addr, t)); left|done].
    + match goal with |- rtc step ?n1 _ => specialize (IH n1) end. simpl in IH |- *.
      apply IH; [done| |done]. intros e Hg.
      rewrite lookup_delete_ne; [apply Hin; by right|].
      intros ->. apply Ha. apply list_elem_of_fmap. by exists e.
Qed.

Lemma evict_steps now n :
  rtc step n (with_net n (evict_expired_pending now (net n)) (guards n)).
Proof.
  unfold evict_expired_pending. apply (evict_fold_steps now).
  - eapply sublist_NoDup; [apply (NoDup_fst_map_to_list (pending (net n)))|]. apply fmap_sublist, sublist_filter.
  - intros [k t] [_ Hkt]%list_elem_of_filter. by apply elem_of_map_to_list in Hkt.
  - apply Forall_forall. intros e [He _]%list_elem_of_filter. done.
Qed.

(** The calls of the code are sequences of the atomic operations of the accounting model:
    an accept that succeeds leaves its socket pending, an activation that succeeds adds one
    guard, and neither leaves a reservation open, whichever branch it takes. *)
Theorem calls_are_steps (n : Net) :
  (forall t t' addr s ok, reserve_pending t t' addr (net n) = (s, ok) ->
     rtc step n (with_net n s (guards n)) /\ (ok = true -> is_Some (pending s !! addr)))
  /\ (forall t addr s ok, activate t addr (net n) = (s, ok) ->
     rtc step n (with_net n s (if ok then S (guards n) else guards n))).
Proof.
  split.
  - intros t t' addr s ok. unfold reserve_pending.
    pose proof (evict_steps t n) as He. set (s0 := evict_expired_pending t (net n)) in *.
    set (n0 := with_net n s0 (guards n)) in *.
    destruct (increment s0) as [s1 ok1] eqn:Ei. destruct ok1; simpl.
    2:{ intros [= <- <-]. split; [|done].
        apply increment_spec in Ei as (_ & _ & -> & _). exact He. }
    intros [= <- <-]. split.
    2:{ intros _. destruct (bool_decide _); simpl; rewrite lookup_insert_eq; eauto. }
    etrans; [exact He|].
    eapply rtc_l; [apply (step_increment n0); exact Ei|].
    eapply rtc_l; [apply (step_insert _ addr t' (reserving n)); reflexivity|]. simpl.
    rewrite bool_decide_decide. destruct (decide (is_Some (pending s1 !! addr))).
    + eapply rtc_l; [apply (step_surplus _ (surplus n)); reflexivity|]. simpl. apply rtc_refl.
    + apply rtc_refl.
  - intros t addr s ok. unfold activate, acquire.
    pose proof (evict_steps t n) as He. set (s0 := evict_expired_pending t (net n)) in *.
    set (n0 := with_net n s0 (guards n)) in *.
    assert (Hacq : forall s ok, increment s0 = (s, ok) ->
      rtc step n (with_net n s (if ok then S (guards n) else guards n))).
    { intros s' [] Ei.
      - etrans; [exact He|]. apply rtc_once. by apply (step_acquire n0).
      - apply increment_spec in Ei as (_ & _ & -> & _). exact He. }
    destruct addr as [a|]; [|apply Hacq].
    case_bool_decide as Hp; [|apply Hacq]. intros [= <- <-].
    etrans; [exact He|]. apply rtc_once. by apply (step_activate n0).
Qed.

Lemma calls_are_steps_witness :
  exists n, rtc step (initial_net 1) n /\ guards n = 1%nat
    /\ net n = fst (activate 5 (Some (SocketV4 1 4000))
                 (fst (reserve_pending 1 2 (SocketV4 1 4000) (new_active 1)))).
Proof.
  set (s1 := fst (reserve_pending 1 2 (SocketV4 1 4000) (new_active 1))).
  eexists. split; [|split; [|]].
  - etrans.
    + apply (proj1 (calls_are_steps (initial_net 1)) 1 2 (SocketV4 1 4000) s1 true eq_refl).
    + apply (proj2 (calls_are_steps (with_net (initial_net 1) s1 0)) 5 (Some (SocketV4 1 4000)) _ true eq_refl).
  - reflexivity.
  - reflexivity.
Defined.
