(* ===== verification/Route.v ===== *)
(** * Canonical request paths ([src/config.rs])

    Route policies (inspection, authorization, GraphQL, gRPC, DLP fields) are selected by
    the canonical form of the request path: percent-decoded until stable, separators
    unified, dot segments resolved.  An origin must not be able to see a path under a
    protected prefix while the proxy matches another. *)

From S2P Require Import Prelude.

(** [src/config.rs: fn hex_value] *)
Definition hex_value (value : Z) : option Z :=
  if in_range 48 57 value then Some (value - 48)
  else if in_range 97 102 value then Some (value - 97 + 10)
  else if in_range 65 70 value then Some (value - 65 + 10)
  else None.

(** [src/config.rs: fn percent_decode] *)
Fixpoint percent_decode (input : bytes) : option bytes :=
  match input with
  | [] => Some []
  | b :: rest =>
      if negb (b =? 37) then (fun out => b :: out) <$> percent_decode rest
      else match rest with
           | high :: low :: rest =>
               h ← hex_value high; l ← hex_value low;
               (fun out => Z.lor (Z.shiftl h 4) l :: out) <$> percent_decode rest
           | _ => None
           end
  end.

(** The loop of [canonical_route_path]: at most [passes] decodings, and whether the last one
    changed nothing. *)
Fixpoint decode_passes (passes : nat) (decoded : bytes) : option (bytes * bool) :=
  match passes with
  | O => Some (decoded, false)
  | S passes =>
      next ← percent_decode decoded;
      if next =s decoded then Some (decoded, true) else decode_passes passes next
  end.

(** [s.replace] of the backslash by the slash. *)
Definition unify_separators (s : bytes) : bytes := map (fun b => if b =? 92 then 47 else b) s.

Definition push_segment (segments : list bytes) (segment : bytes) : list bytes :=
  if is_empty segment || (segment =s ".") then segments
  else if segment =s ".." then removelast segments
  else segments ++ [segment].

(** [src/config.rs: fn canonical_route_path] *)
Definition canonical_route_path (path : bytes) : option bytes :=
  '(decoded, stable) ← decode_passes 8 path;
  again ← (if (stable : bool) then Some decoded else percent_decode decoded);
  if negb (again =s decoded) then None
  else if negb (is_utf8 decoded) then None
  else
    let segments := fold_left push_segment (split_on 47 (unify_separators decoded)) [] in
    Some (47 :: join [47] segments).

Inductive PrefixError : Set := PrefixNotAbsolute | PrefixEncoding.

(** [src/config.rs: fn parse_path_prefixes] *)
Definition parse_path_prefixes (values : list bytes) : result PrefixError (list bytes) :=
  collect (fun value =>
      if negb (starts_with value [47]) || contains value [63] || contains value [35]
      then Err PrefixNotAbsolute
      else ok_or PrefixEncoding (canonical_route_path value))
    (base.filter (fun value => is_empty value = false) (map trim values)).

(** [src/config.rs: fn path_matches_prefix] *)
Definition path_matches_prefix (path prefix : bytes) : bool :=
  (path =s prefix) || (prefix =s "/")
  || (ends_with prefix [47] && starts_with path prefix)
  || match strip_prefix prefix path with Some suffix => starts_with suffix [47] | None => false end.

(** ** Properties *)

Section Decoding.

Lemma hex_value_range v n : hex_value v = Some n -> 0 <= n < 16.
Proof.
  unfold hex_value, in_range. intros H.
  repeat match type of H with context [if ?c then _ else _] => destruct c eqn:? end;
    bool_to_prop; simplify_eq; lia.
Qed.

Lemma percent_decode_none s : 37 ∉ s -> percent_decode s = Some s.
Proof.
  induction s as [|b s IH]; [done|]. intros [Hb Hs]%not_elem_of_cons. cbn [percent_decode].
  destruct (Z.eqb_spec b 37); [congruence|]. simpl. by rewrite IH.
Qed.

Lemma percent_decode_length s : forall t, percent_decode s = Some t ->
  (length t <= length s)%nat /\ (length t = length s -> 37 ∉ s).
Proof.
  induction s as [s IH] using (induction_ltof1 _ (@length Z)). unfold ltof in IH. intros t.
  destruct s as [|b s]; cbn [percent_decode].
  - intros [= <-]. split; [done|]. intros _. apply not_elem_of_nil.
  - destruct (Z.eqb_spec b 37) as [->|Hb]; simpl.
    + destruct s as [|h [|l s]]; try done. destruct (hex_value h); [|done].
      destruct (hex_value l); [|done]. simpl.
      destruct (percent_decode s) as [t'|] eqn:E; [|done]. simpl. intros [= <-].
      apply IH in E as [E _]; [|simpl; lia]. simpl. split; lia.
    + destruct (percent_decode s) as [t'|] eqn:E; [|done]. simpl. intros [= <-].
      apply IH in E as [E1 E2]; [|simpl; lia]. simpl. split; [lia|].
      intros Hl. apply not_elem_of_cons. split; [done|]. apply E2. lia.
Qed.

(** A fixed point of decoding has no percent sign. *)
Lemma percent_decode_fixed s : percent_decode s = Some s <-> 37 ∉ s.
Proof.
  split; [|apply percent_decode_none]. intros [_ H]%percent_decode_length. by apply H.
Qed.

Lemma decode_passes_fixed n s : 37 ∉ s -> decode_passes (S n) s = Some (s, true).
Proof.
  intros Hs. cbn [decode_passes]. rewrite percent_decode_none by done.
  unfold mbind, option_bind. by rewrite bytes_eqb_refl.
Qed.

(** What the decoding of a path produces, when it succeeds: a string without percent sign. *)
Lemma decode_passes_stable n s d st : decode_passes n s = Some (d, st) -> st = true -> 37 ∉ d.
Proof.
  revert s. induction n as [|n IH]; intros s; cbn [decode_passes]; [by intros [= <- <-]|].
  destruct (percent_decode s) as [t|] eqn:E; [|done]. unfold mbind, option_bind.
  destruct (t =s s) eqn:Et; [|apply IH]. apply bytes_eqb_eq in Et as ->.
  intros [= <- <-] _. by apply percent_decode_fixed.
Qed.
End Decoding.

(** *** UTF-8 and separators *)

Lemma not_cont_ranges y : is_cont y = false ->
  in_range 160 191 y = false /\ in_range 128 159 y = false /\ in_range 144 191 y = false
  /\ in_range 128 143 y = false.
Proof.
  unfold is_cont, in_range. intros Hy.
  repeat split; destruct (Z.leb_spec 128 y), (Z.leb_spec y 191), (Z.leb_spec 160 y),
    (Z.leb_spec y 159), (Z.leb_spec 144 y), (Z.leb_spec y 143); simpl in *; try done; lia.
Qed.

Lemma is_utf8_split c : in_range 0 127 c = true -> forall a b, is_utf8 (a ++ c :: b) = true ->
  is_utf8 a = true /\ is_utf8 b = true.
Proof.
  intros Hc. assert (Hcc : is_cont c = false).
  { unfold is_cont, in_range in *. bool_to_prop. destruct (Z.leb_spec 128 c); [lia|done]. }
  induction a as [a IH] using (induction_ltof1 _ (@length Z)). unfold ltof in IH. intros b.
  destruct a as [|x a]; [cbn [app is_utf8]; by rewrite Hc|].
  destruct (not_cont_ranges c Hcc) as (H1 & H2 & H3 & H4).
  cbn [app is_utf8]. destruct (in_range 0 127 x); [apply IH; simpl; lia|].
  destruct a as [|y a]; cbn [app].
  { rewrite Hcc, H1, H2, H3, H4. destruct (in_range 194 223 x); [done|].
    destruct b as [|z b]; [done|].
    destruct (in_range 224 239 x); [by repeat case_match|].
    destruct b as [|u b]; [done|]. repeat case_match; rewrite ?andb_false_r; done. }
  destruct (in_range 194 223 x).
  { destruct (is_cont y); [|done]. simpl. apply IH. simpl. lia. }
  destruct a as [|z a]; cbn [app].
  { rewrite Hcc, andb_false_r. destruct (in_range 224 239 x); [done|].
    destruct b as [|u b]; [done|]. by rewrite andb_false_r. }
  destruct (in_range 224 239 x).
  { rewrite !andb_true_iff. intros [[-> ->] H]. apply IH in H; [|simpl; lia]. tauto. }
  destruct a as [|u a]; cbn [app].
  { by rewrite Hcc, andb_false_r. }
  rewrite !andb_true_iff. intros [[[[-> ->] ->] ->] H]. apply IH in H; [|simpl; lia]. tauto.
Qed.

Lemma is_utf8_app a b : is_utf8 a = true -> is_utf8 (a ++ b) = is_utf8 b.
Proof.
  induction a as [a IH] using (induction_ltof1 _ (@length Z)). unfold ltof in IH.
  destruct a as [|x a]; [done|]. cbn [app is_utf8].
  destruct (in_range 0 127 x); [apply IH; simpl; lia|].
  destruct a as [|y a]; [done|]. cbn [app]. destruct (in_range 194 223 x).
  { intros [-> H]%andb_true_iff. apply IH; [simpl; lia|done]. }
  destruct a as [|z a]; [done|]. cbn [app]. destruct (in_range 224 239 x).
  { intros [[-> ->]%andb_true_iff H]%andb_true_iff. apply IH; [simpl; lia|done]. }
  destruct a as [|u a]; [done|]. cbn [app].
  rewrite !andb_true_iff. intros [[[[-> ->] ->] ->] H]. simpl. apply IH; [simpl; lia|done].
Qed.

Lemma is_utf8_map_sep s : is_utf8 s = true -> is_utf8 (unify_separators s) = true.
Proof.
  assert (Hb : forall b, 128 <= b -> (if b =? 92 then 47 else b) = b).
  { intros b Hb. destruct (Z.eqb_spec b 92); [lia|done]. }
  assert (Hc : forall b, is_cont b = true -> 128 <= b).
  { unfold is_cont, in_range. intros b H. bool_to_prop. lia. }
  assert (Hn : forall b, in_range 0 127 b = false -> (if b =? 92 then 47 else b) = b).
  { intros b H. destruct (Z.eqb_spec b 92) as [->|]; done. }
  induction s as [s IH] using (induction_ltof1 _ (@length Z)). unfold ltof in IH.
  unfold unify_separators in *. destruct s as [|x s]; [done|]. cbn [map is_utf8].
  destruct (in_range 0 127 x) eqn:Ex.
  { destruct (Z.eqb_spec x 92) as [->|]; simpl; rewrite ?Ex; apply IH; simpl; lia. }
  rewrite Hn, Ex by done. destruct s as [|y s]; [done|]. cbn [map].
  destruct (in_range 194 223 x).
  { intros [Hy H]%andb_true_iff. rewrite Hb, Hy by auto. apply IH; [simpl; lia|done]. }
  destruct s as [|z s]; [done|]. cbn [map].
  assert (Hy3 : (if x =? 224 then in_range 160 191 y else if x =? 237 then in_range 128 159 y
                 else is_cont y) = true -> 128 <= y).
  { unfold is_cont, in_range. intros H. repeat case_match; bool_to_prop; lia. }
  assert (Hy4 : (if x =? 240 then in_range 144 191 y else if x =? 244 then in_range 128 143 y
                 else is_cont y) = true -> 128 <= y).
  { unfold is_cont, in_range. intros H. repeat case_match; bool_to_prop; lia. }
  destruct (in_range 224 239 x).
  { intros [[Hy Hz]%andb_true_iff H]%andb_true_iff. rewrite (Hb y), (Hb z), Hy, Hz by auto.
    apply IH; [simpl; lia|done]. }
  destruct s as [|u s]; [done|]. cbn [map].
  rewrite !andb_true_iff. intros [[[[Hx Hy] Hz] Hu] H].
  rewrite (Hb y), (Hb z), (Hb u), Hy, Hz, Hu by auto. rewrite Hx.
  repeat split; try done. apply IH; [simpl; lia|done].
Qed.

(** *** Segments *)

Definition render_path (segments : list bytes) : bytes := 47 :: join [47] segments.

Definition segment_ok (s : bytes) : Prop :=
  is_empty s = false /\ (s =s ".") = false /\ (s =s "..") = false
  /\ (47 ∉ s) /\ (92 ∉ s) /\ (37 ∉ s) /\ is_utf8 s = true.

Lemma split_render segs : segs <> [] -> Forall segment_ok segs ->
  split_on 47 (render_path segs) = [] :: segs.
Proof.
  intros Hne Hf. unfold render_path. cbn [split_on]. rewrite Z.eqb_refl, split_on_join; [done|done|].
  eapply Forall_impl; [exact Hf|]. by intros s (_ & _ & _ & ? & _).
Qed.

Lemma elem_of_join c segs : c <> 47 -> c ∈ join [47] segs -> exists s, s ∈ segs /\ c ∈ s.
Proof.
  intros Hc. induction segs as [|s segs IH]; [by intros ?%elem_of_nil|].
  destruct segs as [|t segs]; cbn [join].
  - intros H. exists s. split; [left|done].
  - intros [H|[?%list_elem_of_singleton|H]%elem_of_app]%elem_of_app; [|done|].
    + exists s. split; [left|done].
    + destruct (IH H) as (u & Hu & ?). exists u. split; [by right|done].
Qed.

Lemma render_no_byte c segs : c <> 47 -> Forall (fun s => c ∉ s) segs -> c ∉ render_path segs.
Proof.
  intros Hc Hf. unfold render_path. apply not_elem_of_cons. split; [done|].
  intros (s & Hs & Hin)%elem_of_join; [|done]. rewrite Forall_forall in Hf. by apply (Hf s).
Qed.

Lemma utf8_render segs : Forall (fun s => is_utf8 s = true) segs -> is_utf8 (render_path segs) = true.
Proof.
  intros Hf. unfold render_path. cbn [is_utf8]. change (in_range 0 127 47) with true. cbv iota.
  induction Hf as [|s segs Hs Hf IH]; [done|]. destruct segs as [|t segs]; [done|].
  cbn [join]. by rewrite is_utf8_app.
Qed.

Lemma unify_id s : 92 ∉ s -> unify_separators s = s.
Proof.
  induction s as [|x s IH]; [done|]. intros [Hx Hs]%not_elem_of_cons. simpl.
  rewrite IH by done. by destruct (Z.eqb_spec x 92).
Qed.

Lemma unify_no_backslash s : 92 ∉ unify_separators s.
Proof.
  induction s as [|x s IH]; simpl; [apply not_elem_of_nil|]. apply not_elem_of_cons. split; [|done].
  destruct (Z.eqb_spec x 92); congruence.
Qed.

Lemma unify_no_percent s : 37 ∉ s -> 37 ∉ unify_separators s.
Proof.
  induction s as [|x s IH]; [done|]. intros [Hx Hs]%not_elem_of_cons. simpl.
  apply not_elem_of_cons. split; [|by apply IH]. destruct (Z.eqb_spec x 92); [done|congruence].
Qed.

Lemma fold_push_ok segs : forall acc, Forall segment_ok segs ->
  fold_left push_segment segs acc = acc ++ segs.
Proof.
  induction segs as [|s segs IH]; intros acc Hf; [by rewrite app_nil_r|].
  apply Forall_cons in Hf as [(He & H1 & H2 & _) Hf]. simpl. unfold push_segment at 2.
  rewrite He, H1, H2. simpl. rewrite IH by done. by rewrite <- app_assoc.
Qed.

(** Pieces of a UTF-8 string between separators are UTF-8. *)
Lemma split_utf8 s : is_utf8 s = true -> Forall (fun p => is_utf8 p = true) (split_on 47 s).
Proof.
  induction s as [s IH] using (induction_ltof1 _ (@length Z)). unfold ltof in IH. intros Hu.
  destruct (split_once 47 s) as [[a b]|] eqn:E.
  - apply split_once_spec in E as [-> Ha]. destruct (is_utf8_split 47 eq_refl _ _ Hu) as [H1 H2].
    rewrite split_on_app, split_on_none by done. apply Forall_cons. split; [done|].
    apply IH; [rewrite length_app; simpl; lia|done].
  - apply split_once_none in E. rewrite split_on_none by done. by constructor.
Qed.

Lemma removelast_Forall (P : bytes -> Prop) l : Forall P l -> Forall P (removelast l).
Proof. induction 1 as [|x l Hx Hl IH]; [done|]. destruct l; [done|]. by constructor. Qed.

Lemma fold_push_inv pieces : forall acc, Forall segment_ok acc ->
  Forall (fun p => (47 ∉ p) /\ (92 ∉ p) /\ (37 ∉ p) /\ is_utf8 p = true) pieces ->
  Forall segment_ok (fold_left push_segment pieces acc).
Proof.
  induction pieces as [|p pieces IH]; intros acc Ha Hp; [done|].
  apply Forall_cons in Hp as [(H1 & H2 & H3 & H4) Hp]. simpl. apply IH; [|done].
  unfold push_segment. destruct (is_empty p) eqn:E1; [done|]. destruct (p =s ".") eqn:E2; [done|].
  simpl. destruct (p =s "..") eqn:E3; [by apply removelast_Forall|].
  apply Forall_app. split; [done|]. by repeat constructor.
Qed.

(** *** The canonical form *)

Lemma canonical_decoded p r : canonical_route_path p = Some r ->
  exists d st, decode_passes 8 p = Some (d, st) /\ (37 ∉ d) /\ is_utf8 d = true
    /\ r = render_path (fold_left push_segment (split_on 47 (unify_separators d)) []).
Proof.
  unfold canonical_route_path. destruct (decode_passes 8 p) as [[d st]|] eqn:E; [|done].
  unfold mbind, option_bind at 1.
  assert (Hst : forall a, (if st then Some d else percent_decode d) = Some a -> (a =s d) = true -> 37 ∉ d).
  { intros a Ha ->%bytes_eqb_eq. destruct st; [by eapply decode_passes_stable|].
    by apply percent_decode_fixed. }
  unfold option_bind. destruct (if st then Some d else percent_decode d) as [a|]; [|done].
  specialize (Hst a eq_refl). destruct (a =s d); [|done]. simpl.
  destruct (is_utf8 d) eqn:Hu; [|done]. simpl. intros [= <-]. exists d, st. auto.
Qed.

Lemma canonical_of_decoded p d : decode_passes 8 p = Some (d, true) ->
  is_utf8 d = true ->
  canonical_route_path p
  = Some (render_path (fold_left push_segment (split_on 47 (unify_separators d)) [])).
Proof.
  intros E Hu. unfold canonical_route_path. rewrite E. unfold mbind, option_bind.
  rewrite bytes_eqb_refl, Hu. done.
Qed.

Lemma canonical_segments p r : canonical_route_path p = Some r ->
  exists segs, r = render_path segs /\ Forall segment_ok segs.
Proof.
  intros (d & st & _ & Hp & Hu & ->)%canonical_decoded. eexists. split; [reflexivity|].
  apply fold_push_inv; [constructor|].
  pose proof (split_utf8 _ (is_utf8_map_sep d Hu)) as Hs. rewrite Forall_forall in Hs |- *.
  intros q Hq. split; [by eapply split_on_no_sep|].
  assert (Hsub : forall c, c ∈ q -> c ∈ unify_separators d).
  { intros c Hc. rewrite <- (join_split_on 47 (unify_separators d)).
    apply list_elem_of_split in Hq as (l1 & l2 & ->). clear -Hc.
    induction l1 as [|x l1 IH]; cbn [app join].
    - destruct l2; [done|]. apply elem_of_app. by left.
    - destruct (l1 ++ q :: l2) eqn:E; [by destruct l1|].
      apply elem_of_app. right. by right. }
  split; [intros ?%Hsub; by apply (unify_no_backslash d)|].
  split; [intros ?%Hsub; by apply (unify_no_percent d)|]. by apply Hs.
Qed.

Lemma canonical_render segs : Forall segment_ok segs ->
  canonical_route_path (render_path segs) = Some (render_path segs).
Proof.
  intros Hf.
  assert (H37 : 37 ∉ render_path segs).
  { apply render_no_byte; [done|]. eapply Forall_impl; [exact Hf|]. by intros s (_&_&_&_&_&?&_). }
  assert (H92 : 92 ∉ render_path segs).
  { apply render_no_byte; [done|]. eapply Forall_impl; [exact Hf|]. by intros s (_&_&_&_&?&_). }
  rewrite (canonical_of_decoded _ (render_path segs)).
  - rewrite unify_id by done. destruct segs as [|s segs]; [done|].
    rewrite split_render by done.
    change (fold_left push_segment ([] :: s :: segs) []) with (fold_left push_segment (s :: segs) []).
    by rewrite fold_push_ok.
  - by apply decode_passes_fixed.
  - apply utf8_render. eapply Forall_impl; [exact Hf|]. by intros s (_&_&_&_&_&_&?).
Qed.

Lemma decode_passes_more n p d st : decode_passes n p = Some (d, st) ->
  (st = true \/ percent_decode d = Some d) -> decode_passes (S n) p = Some (d, true).
Proof.
  revert p. induction n as [|n IH]; intros p H Hd.
  - injection H as -> <-. destruct Hd as [|Hd]; [done|]. cbn [decode_passes]. rewrite Hd.
    unfold mbind, option_bind. by rewrite bytes_eqb_refl.
  - cbn [decode_passes] in H |- *. destruct (percent_decode p) as [t|]; [|done].
    unfold mbind, option_bind in *. destruct (t =s p); [injection H as -> <-; done|].
    by apply IH.
Qed.

(** C17. A canonical path is absolute, without percent signs, backslashes, empty or dot
    segments; canonicalisation is idempotent, and an encoded path that is accepted has the
    canonical form of what it decodes to, so no layer of percent-encoding can move a request
    to another route. *)
Theorem canonical_route_path_normal (p r : bytes) :
  canonical_route_path p = Some r ->
  (exists segs, r = render_path segs /\ Forall segment_ok segs)
  /\ canonical_route_path r = Some r
  /\ forall q, percent_decode p = Some q -> canonical_route_path q = Some r.
Proof.
  intros Hc. destruct (canonical_segments _ _ Hc) as (segs & -> & Hf).
  split; [by exists segs|]. split; [by apply canonical_render|].
  intros q Hq. apply canonical_decoded in Hc as (d & st & Hd & Hp & Hu & ->).
  change 8%nat with (S 7) in Hd. cbn [decode_passes] in Hd. rewrite Hq in Hd.
  unfold mbind, option_bind in Hd. destruct (q =s p) eqn:E.
  - apply bytes_eqb_eq in E as ->. injection Hd as -> <-.
    apply canonical_of_decoded; [|done]. by apply decode_passes_fixed.
  - apply canonical_of_decoded; [|done]. apply (decode_passes_more 7 q d st Hd).
    right. by apply percent_decode_none.
Qed.

Lemma canonical_route_path_normal_witness :
  canonical_route_path "/api/%252e%252e/admin%5c.//users" = Some (lit "/admin/users")
  /\ canonical_route_path "/api/%2e%2e/admin\.//users" = Some (lit "/admin/users").
Proof.
  split; [vm_compute; reflexivity|].
  apply (canonical_route_path_normal "/api/%252e%252e/admin%5c.//users" "/admin/users");
    vm_compute; reflexivity.
Defined.

(** *** Prefixes *)

Lemma render_app Q R : R <> [] -> Q <> [] -> render_path (Q ++ R) = render_path Q ++ 47 :: join [47] R.
Proof.
  intros HR HQ. unfold render_path. simpl. f_equal. induction Q as [|s Q IH]; [done|].
  destruct Q as [|t Q].
  - simpl. by destruct R.
  - change ((s :: t :: Q) ++ R) with (s :: (t :: Q) ++ R). cbn [join app] in IH |- *.
    rewrite IH by done. by rewrite <- !app_assoc.
Qed.

Lemma render_last Q : Q <> [] -> Forall segment_ok Q -> ends_with (render_path Q) [47] = false.
Proof.
  intros HQ Hf. apply not_true_is_false. intros [r Hr]%ends_with_spec.
  pose proof (split_render Q HQ Hf) as Hs. rewrite Hr, split_on_app in Hs. simpl in Hs.
  assert (Hin : [] ∈ Q).
  { destruct (split_on 47 r) as [|x l] eqn:E; [by apply split_on_not_nil in E|].
    injection Hs as _ Hs. rewrite <- Hs. apply elem_of_app. right. by left. }
  rewrite Forall_forall in Hf. destruct (Hf [] Hin) as [He _]. done.
Qed.

Lemma render_inj P Q : Forall segment_ok P -> Forall segment_ok Q ->
  render_path P = render_path Q -> P = Q.
Proof.
  intros HP HQ Heq. destruct P as [|p P], Q as [|q Q]; try done.
  - exfalso. pose proof (split_render (q :: Q) ltac:(done) HQ) as H. rewrite <- Heq in H.
    simpl in H. injection H as <- _. apply Forall_cons in HQ as [[? _] _]. done.
  - exfalso. pose proof (split_render (p :: P) ltac:(done) HP) as H. rewrite Heq in H.
    simpl in H. injection H as <- _. apply Forall_cons in HP as [[? _] _]. done.
  - pose proof (split_render (p :: P) ltac:(done) HP) as H1.
    pose proof (split_render (q :: Q) ltac:(done) HQ) as H2. rewrite Heq, H2 in H1.
    by injection H1 as -> ->.
Qed.

(** On canonical paths, a path matches a prefix exactly when the segments of the prefix
    are the first segments of the path: [/api] covers [/api/x] but not [/apix]. *)
Theorem path_matches_prefix_spec (P Q : list bytes) :
  Forall segment_ok P -> Forall segment_ok Q ->
  path_matches_prefix (render_path P) (render_path Q) = true <-> Q `prefix_of` P.
Proof.
  intros HP HQ. unfold path_matches_prefix.
  destruct (decide (Q = [])) as [->|HQn].
  { change (render_path [] =s "/") with true. rewrite orb_true_r. simpl. split; [|done].
    intros _. apply prefix_nil. }
  rewrite render_last by done. cbn [andb]. rewrite orb_false_r.
  assert (Hsl : (render_path Q =s "/") = false).
  { apply not_true_is_false. intros H%bytes_eqb_eq. apply (render_inj Q []) in H; [done|done|done]. }
  rewrite Hsl, orb_false_r, orb_true_iff, bytes_eqb_eq. split.
  - intros [H%render_inj|H]; [by subst|done|done|].
    destruct (strip_prefix (render_path Q) (render_path P)) as [suf|] eqn:E; [|done].
    apply strip_prefix_spec in E. apply starts_with_spec in H as [t ->]. change ([47] ++ t) with (47 :: t) in E.
    assert (HPn : P <> []).
    { intros ->. apply (f_equal length) in E. simpl in E. rewrite length_app in E. simpl in E. lia. }
    apply (f_equal (split_on 47)) in E. rewrite split_on_app, !split_render in E by done.
    injection E as E. eexists. exact E.
  - intros [R HR]. destruct (decide (R = [])) as [->|HRn]; [left; by rewrite HR, app_nil_r|].
    right. rewrite HR, render_app by done.
    rewrite (proj2 (strip_prefix_spec _ _ _) eq_refl). apply starts_with_spec. by eexists.
Qed.

Lemma path_matches_prefix_spec_witness :
  path_matches_prefix "/api/payment/confirm" "/api/payment" = true
  /\ path_matches_prefix "/api/payments" "/api/payment" <> true.
Proof.
  split.
  - apply (path_matches_prefix_spec [lit "api"; lit "payment"; lit "confirm"] [lit "api"; lit "payment"]).
    + repeat constructor; decide_now.
    + repeat constructor; decide_now.
    + by exists [lit "confirm"].
  - intros H. apply (path_matches_prefix_spec [lit "api"; lit "payments"] [lit "api"; lit "payment"]) in H.
    + destruct H as [R HR]. discriminate HR.
    + repeat constructor; decide_now.
    + repeat constructor; decide_now.
Defined.
