(* ===== verification/Inspection.v ===== *)
(** * Inspection outcomes and policies ([src/waf.rs], [src/config.rs], [src/proxy.rs])

    How complete the inspection of a request was, how outcomes of several layers combine,
    and the per-route policy that says which incomplete inspections are refused.  A policy
    text that the program rejects makes it panic: the operations that read it return [None]. *)

From S2P Require Import Prelude Net Window Route.

(** ** Outcomes *)

(** [src/waf.rs: enum InspectionOutcome] *)
Inductive InspectionOutcome : Type :=
| Complete
| Truncated (inspected : Z) (total_hint : option Z)
| UnsupportedEncoding
| UnsupportedContentType
| ParseError
| BudgetExceeded
| TimedOut.

#[export] Instance InspectionOutcome_eq_dec : EqDecision InspectionOutcome.
Proof. solve_decision. Defined.

(** [src/waf.rs: InspectionOutcome::as_str] *)
Definition outcome_as_str (o : InspectionOutcome) : bytes :=
  match o with
  | Complete => "complete"
  | Truncated _ _ => "truncated"
  | UnsupportedEncoding => "unsupported_encoding"
  | UnsupportedContentType => "unsupported_content_type"
  | ParseError => "parse_error"
  | BudgetExceeded => "budget_exceeded"
  | TimedOut => "timed_out"
  end.

(** [src/waf.rs: InspectionOutcome::event_type] *)
Definition event_type (o : InspectionOutcome) : bytes :=
  match o with
  | Complete => "waf_inspection"
  | Truncated _ _ | UnsupportedEncoding | UnsupportedContentType => "waf_incomplete"
  | ParseError => "inspection_parse_error"
  | BudgetExceeded => "inspection_budget"
  | TimedOut => "inspection_timeout"
  end.

(** [src/waf.rs: InspectionOutcome::denied_status] *)
Definition denied_status (o : InspectionOutcome) : Z :=
  match o with
  | Complete => 200
  | TimedOut => 408
  | BudgetExceeded => 503
  | Truncated _ _ | UnsupportedEncoding | UnsupportedContentType | ParseError => 403
  end.

(** [src/waf.rs: InspectionOutcome::is_complete] *)
Definition is_complete (o : InspectionOutcome) : bool :=
  match o with Complete => true | _ => false end.

(** [src/waf.rs: InspectionOutcome::severity] *)
Definition severity (o : InspectionOutcome) : Z :=
  match o with
  | Complete => 0
  | Truncated _ _ => 1
  | UnsupportedContentType => 2
  | UnsupportedEncoding => 3
  | ParseError => 4
  | BudgetExceeded => 5
  | TimedOut => 6
  end.

Definition combine_hint (a b : option Z) : option Z :=
  match a, b with
  | Some x, Some y => Some (Z.max x y)
  | Some x, None => Some x
  | None, b => b
  end.

(** [src/waf.rs: InspectionOutcome::combine] *)
Definition combine (self other : InspectionOutcome) : InspectionOutcome :=
  match severity self ?= severity other with
  | Gt => self
  | Lt => other
  | Eq =>
      match self, other with
      | Truncated l lh, Truncated r rh => Truncated (Z.min l r) (combine_hint lh rh)
      | l, _ => l
      end
  end.

(** ** Policies *)

(** [src/config.rs: struct InspectionPolicyFile] *)
Record InspectionPolicyFile : Type := {
  f_require_complete : option bool;
  f_on_truncated : option bytes;
  f_on_parse_error : option bytes;
  f_max_decoded_body : option bytes;
}.

(** [src/config.rs: enum InspectionAction] *)
Inductive InspectionAction : Set := ADeny | AMonitor.

(** [src/config.rs: InspectionAction::parse] *)
Definition parse_action (raw : bytes) : option InspectionAction :=
  let raw := trim raw in
  if raw =s "deny" then Some ADeny
  else if raw =s "monitor" then Some AMonitor
  else None.

(** [src/config.rs: enum InspectionDisposition] *)
Inductive InspectionDisposition : Set := Allow | Monitor | Deny.

(** [src/config.rs: InspectionDisposition::from] *)
Definition disposition_of (a : InspectionAction) : InspectionDisposition :=
  match a with ADeny => Deny | AMonitor => Monitor end.

(** [src/config.rs: struct InspectionPolicy] *)
Record InspectionPolicy : Type := {
  require_complete : bool;
  on_truncated : InspectionAction;
  on_parse_error : InspectionAction;
  max_decoded_body : option Z;
}.

(** [src/config.rs: InspectionPolicy::fail_closed] *)
Definition fail_closed : InspectionPolicy := {|
  require_complete := true; on_truncated := ADeny; on_parse_error := ADeny; max_decoded_body := None |}.

(** [src/config.rs: InspectionPolicy::open] *)
Definition open : InspectionPolicy := {|
  require_complete := false; on_truncated := AMonitor; on_parse_error := AMonitor;
  max_decoded_body := None |}.

(** [src/config.rs: InspectionPolicy::disposition] *)
Definition disposition (p : InspectionPolicy) (o : InspectionOutcome) : InspectionDisposition :=
  match o with
  | Complete => Allow
  | Truncated _ _ => disposition_of (on_truncated p)
  | ParseError => disposition_of (on_parse_error p)
  | UnsupportedEncoding | UnsupportedContentType => if require_complete p then Deny else Monitor
  | BudgetExceeded => Deny
  | TimedOut => if require_complete p then Deny else Monitor
  end.

Definition strip_unit (lower : bytes) (unit : string) : option bytes := trim <$> strip_suffix unit lower.

(** [src/config.rs: fn parse_byte_size] *)
Definition parse_byte_size (raw : bytes) : option Z :=
  let trimmed := trim raw in
  if is_empty trimmed then None
  else
    let lower := to_ascii_lowercase trimmed in
    let '(number, multiplier) :=
      match strip_unit lower "kib" with
      | Some n => (n, 1024)
      | None =>
          match strip_unit lower "mib" with
          | Some n => (n, 1024 * 1024)
          | None => match strip_unit lower "gib" with
                    | Some n => (n, 1024 * 1024 * 1024)
                    | None => (trimmed, 1)
                    end
          end
      end in
    value ← parse_uint usize_max number;
    filter_positive (checked_mul usize_max value multiplier).

(** [src/config.rs: fn patch_denies_incomplete] *)
Definition patch_denies_incomplete (patch : InspectionPolicyFile) : bool :=
  let denies o := match o with Some v => trim v =s "deny" | None => false end in
  bool_decide (f_require_complete patch = Some true)
  || denies (f_on_truncated patch) || denies (f_on_parse_error patch).

(** [src/config.rs: fn fail_closed_patch] *)
Definition fail_closed_patch : InspectionPolicyFile := {|
  f_require_complete := Some true; f_on_truncated := Some (lit "deny");
  f_on_parse_error := Some (lit "deny"); f_max_decoded_body := None |}.

Definition or_else {A} (o p : option A) : option A := match o with Some _ => o | None => p end.

(** [src/config.rs: fn merge_patches] *)
Definition merge_patches (base overlay : InspectionPolicyFile) : InspectionPolicyFile := {|
  f_require_complete := or_else (f_require_complete overlay) (f_require_complete base);
  f_on_truncated := or_else (f_on_truncated overlay) (f_on_truncated base);
  f_on_parse_error := or_else (f_on_parse_error overlay) (f_on_parse_error base);
  f_max_decoded_body := or_else (f_max_decoded_body overlay) (f_max_decoded_body base);
|}.

(** [src/config.rs: fn overlay_inspection_policy] *)
Definition overlay_inspection_policy (base : InspectionPolicy) (patch : InspectionPolicyFile)
  : option InspectionPolicy :=
  let require_complete := default (require_complete base) (f_require_complete patch) in
  let derived := if require_complete then ADeny else AMonitor in
  let field (text : option bytes) (inherited : InspectionAction) :=
    match text with
    | Some raw => parse_action raw
    | None => Some (if bool_decide (is_Some (f_require_complete patch)) then derived else inherited)
    end in
  t ← field (f_on_truncated patch) (on_truncated base);
  e ← field (f_on_parse_error patch) (on_parse_error base);
  m ← match f_max_decoded_body patch with
      | Some raw => Some <$> parse_byte_size raw
      | None => Some (max_decoded_body base)
      end;
  Some {| require_complete := require_complete; on_truncated := t; on_parse_error := e;
          max_decoded_body := m |}.

(** [src/config.rs: struct RouteInspection] The prefix and the inspection patch of a route. *)
Record RouteInspection : Type := { prefix : bytes; patch : InspectionPolicyFile }.

Fixpoint overlay_all (policy : InspectionPolicy) (routes : list RouteInspection)
  : option InspectionPolicy :=
  match routes with
  | [] => Some policy
  | r :: routes => policy ← overlay_inspection_policy policy (patch r); overlay_all policy routes
  end.

Definition matching (routes : list RouteInspection) (path : bytes) : list RouteInspection :=
  sort_by_key (fun r => len (prefix r))
    (base.filter (fun r => path_matches_prefix path (prefix r) = true) routes).

(** [src/config.rs: Backend::inspection_policy] *)
Definition inspection_policy (routes : list RouteInspection) (uri : bytes) : option InspectionPolicy :=
  let path := before 63 uri in
  match canonical_route_path path with
  | None => Some (if existsb (fun r => patch_denies_incomplete (patch r)) routes
                  then fail_closed else open)
  | Some path => overlay_all open (matching routes path)
  end.

(** [src/config.rs: Backend::requires_complete_waf_inspection] *)
Definition requires_complete_waf_inspection (routes : list RouteInspection) (uri : bytes) : option bool :=
  require_complete <$> inspection_policy routes uri.

Fixpoint validate_spool_routes_loop (routes todo : list RouteInspection) : option unit :=
  match todo with
  | [] => Some tt
  | r :: todo =>
      policy ← inspection_policy routes (prefix r);
      if bool_decide (is_Some (max_decoded_body policy)) && negb (require_complete policy)
      then None else validate_spool_routes_loop routes todo
  end.

(** [src/config.rs: fn validate_spool_routes] [None] when it panics. *)
Definition validate_spool_routes (routes : list RouteInspection) : option unit :=
  validate_spool_routes_loop routes routes.

(** The routes of a site as [merge_inspection_routes] builds their patches: the prefixes that
    require complete inspection, then the route entries, merged into an existing route of
    the same prefix. *)
Fixpoint merge_entry (prefix' : bytes) (patch' : InspectionPolicyFile) (routes : list RouteInspection)
  : list RouteInspection :=
  match routes with
  | [] => [{| prefix := prefix'; patch := patch' |}]
  | r :: routes =>
      if prefix r =s prefix'
      then {| prefix := prefix r; patch := merge_patches (patch r) patch' |} :: routes
      else r :: merge_entry prefix' patch' routes
  end.

(** [src/config.rs: fn merge_inspection_routes] The inspection part; [None] is a panic. *)
Definition merge_inspection_routes (complete_prefixes : list bytes)
    (entries : list (bytes * InspectionPolicyFile)) : option (list RouteInspection) :=
  let start := map (fun p => {| prefix := p; patch := fail_closed_patch |}) complete_prefixes in
  fold_left (fun acc '(raw, patch') =>
      routes ← acc;
      match parse_path_prefixes [raw] with
      | Ok (p :: _) => Some (merge_entry p patch' routes)
      | _ => None
      end) entries (Some start).

(** ** Reporting *)

(** [src/proxy.rs: fn outcome_detail] *)
Definition outcome_detail (o : InspectionOutcome) : bytes :=
  match o with
  | ParseError => "ParseError"
  | TimedOut => "TimedOut"
  | BudgetExceeded => "BudgetExceeded"
  | other => outcome_as_str other
  end.

(** [src/proxy.rs: fn record_inspection_outcome] The [waf_inspection] counter that is raised and the events. *)
Definition record_inspection_outcome (o : InspectionOutcome) (client uri : bytes) (denied : bool)
    (site : bytes) : bytes * list MetricEvent :=
  let e := {| ev_site := Some site; ev_type := event_type o; ev_client := LabelText client;
              ev_uri := uri; ev_detail := outcome_detail o |} in
  (outcome_as_str o,
   if is_complete o then []
   else if denied then
     match o with TimedOut | BudgetExceeded => [Observed e] | _ => [Blocked e] end
   else match o with ParseError => [Observed e] | _ => [] end).

(** [src/proxy.rs: fn on_body_read_timeout] *)
Definition on_body_read_timeout (client uri site : bytes)
  : InspectionOutcome * (bytes * list MetricEvent) :=
  (TimedOut, record_inspection_outcome TimedOut client uri true site).

(** A ceiling a route sets is positive. *)
Definition ceiling_ok (p : InspectionPolicy) : Prop := forall n, max_decoded_body p = Some n -> 0 < n.

Lemma parse_byte_size_positive raw n : parse_byte_size raw = Some n -> 0 < n.
Proof.
  unfold parse_byte_size. destruct (is_empty _); [done|]. destruct (match strip_unit _ _ with Some _ => _ | None => _ end) as [number multiplier].
  destruct (parse_uint _ _) as [v|]; [|done]. cbn [mbind option_bind]. unfold filter_positive.
  destruct (checked_mul _ _ _) as [m|]; [|done]. destruct (Z.ltb_spec 0 m); [|done]. by intros [= <-].
Qed.

Lemma overlay_ceiling base patch p : overlay_inspection_policy base patch = Some p -> ceiling_ok base -> ceiling_ok p.
Proof.
  unfold overlay_inspection_policy. intros H Hb.
  repeat match type of H with
    | mbind _ ?o = Some _ => let E := fresh in destruct o eqn:E; [cbn [mbind option_bind] in H|discriminate H]
    end.
  injection H as <-. intros n. cbn. intros ->. revert H2.
  destruct (f_max_decoded_body patch) as [raw|]; [|intros; simplify_eq; by apply Hb].
  destruct (parse_byte_size raw) as [m|] eqn:E; [|done]. cbn. intros; simplify_eq. by apply (parse_byte_size_positive raw).
Qed.

Lemma inspection_ceiling routes uri p : inspection_policy routes uri = Some p -> ceiling_ok p.
Proof.
  assert (forall l base, ceiling_ok base -> overlay_all base l = Some p -> ceiling_ok p) as Ho.
  { induction l as [|r l IH]; intros base Hb; cbn [overlay_all]; [by intros [= <-]|].
    destruct (overlay_inspection_policy base (patch r)) as [q|] eqn:E; [|done]. apply IH, (overlay_ceiling base (patch r)); done. }
  unfold inspection_policy. repeat case_match; intros Hp; simplify_eq; try done; eapply Ho; eauto; done.
Qed.

(** ** Properties: combining outcomes *)

(** Combining outcomes keeps the worst: it is associative, commutative and idempotent, its
    severity is the maximum, and the result is complete only when both are, so no layer's
    incomplete inspection is ever hidden by another layer. *)
Theorem combine_join (a b c : InspectionOutcome) :
  combine a (combine b c) = combine (combine a b) c
  /\ combine a b = combine b a
  /\ combine a a = a
  /\ severity (combine a b) = Z.max (severity a) (severity b)
  /\ is_complete (combine a b) = is_complete a && is_complete b.
Proof.
  assert (Hh : forall x y, combine_hint x y = combine_hint y x)
    by (intros [] []; simpl; f_equal; lia).
  assert (Ha : forall x y z, combine_hint x (combine_hint y z) = combine_hint (combine_hint x y) z)
    by (intros [] [] []; simpl; f_equal; lia).
  split; [|split; [|split; [|split]]].
  - destruct a, b, c; unfold combine; simpl; try done. f_equal; [lia|apply Ha].
  - destruct a, b; unfold combine; simpl; try done. f_equal; [lia|apply Hh].
  - destruct a as [|i h| | | | |]; try done. unfold combine. simpl. f_equal; [lia|].
    destruct h; simpl; f_equal; lia.
  - by destruct a, b.
  - by destruct a, b.
Qed.

(** ** Properties: policies *)

Lemma overlay_panics_alone base patch : is_Some (overlay_inspection_policy base patch) <->
  (forall raw, f_on_truncated patch = Some raw -> is_Some (parse_action raw))
  /\ (forall raw, f_on_parse_error patch = Some raw -> is_Some (parse_action raw))
  /\ (forall raw, f_max_decoded_body patch = Some raw -> is_Some (parse_byte_size raw)).
Proof.
  unfold overlay_inspection_policy. destruct patch as [rc t e m]; simpl.
  destruct t as [t|], e as [e|], m as [m|]; unfold mbind, option_bind, fmap, option_fmap, option_map;
    repeat match goal with |- context [match ?x with Some _ => _ | None => _ end] =>
      lazymatch x with
      | parse_action _ => destruct x eqn:?
      | parse_byte_size _ => destruct x eqn:?
      end
    end; split; intros H; try (by destruct H); try (by eexists);
    try (repeat split; intros ? [= <-]; eauto; fail); exfalso;
    destruct H as (H1 & H2 & H3);
    repeat match goal with
    | H : forall raw, Some ?x = Some raw -> _ |- _ => specialize (H x eq_refl); destruct H as [? ?]
    end; congruence.
Qed.

Lemma overlay_all_some routes : forall base,
  (forall r, r ∈ routes -> forall b, is_Some (overlay_inspection_policy b (patch r))) ->
  is_Some (overlay_all base routes).
Proof.
  induction routes as [|r routes IH]; intros base H; [by eexists|]. simpl.
  destruct (H r (list_elem_of_here _ _) base) as [p ->]. simpl. apply IH.
  intros r' Hr'. apply H. by right.
Qed.

Lemma overlay_all_inv routes : forall base, is_Some (overlay_all base routes) ->
  forall r, r ∈ routes -> forall b, is_Some (overlay_inspection_policy b (patch r)).
Proof.
  induction routes as [|r routes IH]; intros base; [by intros _ ? ?%elem_of_nil|]. simpl.
  destruct (overlay_inspection_policy base (patch r)) as [p|] eqn:E; simpl; [|by intros []].
  intros H r' [->|Hr']%elem_of_cons b; [|by eapply IH].
  apply (overlay_panics_alone b). apply (overlay_panics_alone base). by rewrite E.
Qed.

Lemma elem_of_matching routes path r : r ∈ matching routes path <->
  r ∈ routes /\ path_matches_prefix path (prefix r) = true.
Proof.
  unfold matching. rewrite sort_by_key_perm, list_elem_of_filter. tauto.
Qed.

Lemma validate_loop_inv routes todo : validate_spool_routes_loop routes todo = Some tt ->
  forall r, r ∈ todo -> exists policy, inspection_policy routes (prefix r) = Some policy
    /\ (is_Some (max_decoded_body policy) -> require_complete policy = true).
Proof.
  induction todo as [|t todo IH]; [by intros _ ? ?%elem_of_nil|]. simpl.
  destruct (inspection_policy routes (prefix t)) as [policy|] eqn:E; [|done]. simpl.
  destruct (bool_decide _ && _) eqn:Ec; [done|]. intros H r [->|Hr]%elem_of_cons; [|by apply IH].
  exists policy. split; [done|]. intros Hm. rewrite (bool_decide_eq_true_2 _ Hm) in Ec.
  simpl in Ec. by apply negb_false_iff in Ec.
Qed.

(** The prefixes a configuration holds: canonical paths. *)
Definition prefix_ok (r : RouteInspection) : Prop :=
  canonical_route_path (prefix r) = Some (prefix r) /\ (63 ∉ prefix r).

(** Once the routes of a site have been validated at load time, resolving the policy of a
    request never panics, whatever the URI. *)
Theorem validated_policy_total (routes : list RouteInspection) (uri : bytes) :
  Forall prefix_ok routes -> validate_spool_routes routes = Some tt ->
  is_Some (inspection_policy routes uri).
Proof.
  intros Hp Hv. unfold inspection_policy.
  destruct (canonical_route_path (before 63 uri)) as [path|]; [|by eexists].
  apply overlay_all_some. intros r Hr b. apply elem_of_matching in Hr as [Hr _].
  destruct (validate_loop_inv _ _ Hv r Hr) as (policy & Hpol & _).
  rewrite Forall_forall in Hp. destruct (Hp r Hr) as [Hc Hq].
  unfold inspection_policy in Hpol. rewrite before_split_once, (proj2 (split_once_none _ _) Hq), Hc in Hpol.
  eapply overlay_all_inv; [by rewrite Hpol|]. apply elem_of_matching. split; [done|].
  unfold path_matches_prefix. by rewrite bytes_eqb_refl.
Qed.

Definition payment_route : RouteInspection :=
  {| prefix := "/api/payment"; patch := {| f_require_complete := Some true; f_on_truncated := None;
       f_on_parse_error := None; f_max_decoded_body := Some (lit "1mib") |} |}.

Lemma validated_policy_total_witness :
  is_Some (inspection_policy [payment_route] "/api/%70ayment/confirm?x=1").
Proof.
  apply validated_policy_total; [|vm_compute; reflexivity].
  apply Forall_cons. split; [|constructor]. split; [vm_compute; reflexivity|decide_now].
Defined.

(** A prefix written with an encoded question mark escapes the validation: it is looked up
    cut at the mark, so its patch is first read, and panics, on a request. *)
Example encoded_question_mark_panics :
  let patch := {| f_require_complete := None; f_on_truncated := Some (lit "block");
                  f_on_parse_error := None; f_max_decoded_body := None |} in
  exists routes, merge_inspection_routes [] [(lit "/a%3fb", patch)] = Some routes
    /\ validate_spool_routes routes = Some tt
    /\ inspection_policy routes "/a%3fb" = None.
Proof. intros patch. eexists. split; [vm_compute; reflexivity|]. by split; vm_compute. Qed.

Lemma strongly_sorted_last (l : list RouteInspection) r :
  StronglySorted (fun a b => len (prefix a) <= len (prefix b)) l -> r ∈ l ->
  (forall r', r' ∈ l -> len (prefix r) <= len (prefix r') -> r' = r) ->
  exists l0 l1, l = l0 ++ l1 /\ l1 <> [] /\ Forall (fun x => x = r) l1.
Proof.
  intros Hs Hr Hmax. apply list_elem_of_split in Hr as (l0 & l1 & ->).
  exists l0, (r :: l1). split; [done|]. split; [done|]. constructor; [done|].
  apply StronglySorted_app in Hs as (_ & _ & Hs2).
  inversion Hs2 as [|? ? _ Hall]; subst. rewrite Forall_forall in Hall |- *.
  intros x Hx. apply Hmax; [|by apply Hall]. apply elem_of_app. right. by right.
Qed.

Lemma overlay_all_app l1 l2 base :
  overlay_all base (l1 ++ l2) = (p ← overlay_all base l1; overlay_all p l2).
Proof.
  revert base. induction l1 as [|r l1 IH]; intros base; [done|]. simpl.
  destruct (overlay_inspection_policy base (patch r)); simpl; [apply IH|done].
Qed.

(** A patch that requires complete inspection and does not relax it. *)
Definition strict_patch (p : InspectionPolicyFile) : Prop :=
  f_require_complete p = Some true
  /\ (forall raw, f_on_truncated p = Some raw -> parse_action raw = Some ADeny)
  /\ (forall raw, f_on_parse_error p = Some raw -> parse_action raw = Some ADeny).

Definition denies_incomplete (p : InspectionPolicy) : Prop :=
  require_complete p = true /\ on_truncated p = ADeny /\ on_parse_error p = ADeny.

Lemma overlay_strict base patch p : strict_patch patch ->
  overlay_inspection_policy base patch = Some p -> denies_incomplete p.
Proof.
  intros (Hrc & Ht & He). unfold overlay_inspection_policy. rewrite Hrc.
  destruct (f_on_truncated patch) as [t|]; [rewrite (Ht t eq_refl)|];
    (destruct (f_on_parse_error patch) as [e|]; [rewrite (He e eq_refl)|]);
    unfold mbind, option_bind; case_match; try done; intros [= <-]; done.
Qed.

Lemma denies_incomplete_disposition p o : denies_incomplete p -> o <> Complete ->
  disposition p o = Deny.
Proof. intros (H1 & H2 & H3) Ho. destruct o; simpl; rewrite ?H1, ?H2, ?H3; done. Qed.

(** C15. Fail-closed routes stay closed: when the most specific route that covers a request is
    strict (it requires complete inspection, and any on_truncated or on_parse_error of its own
    is deny), every inspection that is not complete is refused; so it is when the path cannot
    be decoded and some route of the site requires complete inspection or denies truncated or
    malformed bodies.  (A route may require complete inspection and yet relax one of the two:
    then that kind of incomplete inspection passes.) *)
Theorem strict_route_denies (routes : list RouteInspection) (uri : bytes)
    (p : InspectionPolicy) (o : InspectionOutcome) :
  inspection_policy routes uri = Some p -> o <> Complete ->
  match canonical_route_path (before 63 uri) with
  | Some path => exists r, r ∈ routes /\ path_matches_prefix path (prefix r) = true
      /\ strict_patch (patch r)
      /\ forall r', r' ∈ routes -> path_matches_prefix path (prefix r') = true ->
           len (prefix r) <= len (prefix r') -> r' = r
  | None => exists r, r ∈ routes /\ patch_denies_incomplete (patch r) = true
  end ->
  disposition p o = Deny.
Proof.
  intros Hp Ho. unfold inspection_policy in Hp.
  destruct (canonical_route_path (before 63 uri)) as [path|].
  - intros (r & Hr & Hm & Hst & Hmax). apply denies_incomplete_disposition; [|done].
    destruct (strongly_sorted_last (matching routes path) r) as (l0 & l1 & El & Hne & Hall).
    + apply sort_by_key_sorted.
    + by apply elem_of_matching.
    + intros r' [Hr' Hm']%elem_of_matching. by apply Hmax.
    + rewrite El, overlay_all_app in Hp. destruct (overlay_all open l0) as [b|]; [|done].
      simpl in Hp. clear El. revert b Hp. induction Hall as [|x l1 -> Hall IH]; [done|].
      intros b. simpl. destruct (overlay_inspection_policy b (patch r)) as [q|] eqn:E; [|done].
      simpl. destruct l1 as [|y l1]; [|by apply IH]. intros [= <-]. by eapply overlay_strict.
  - intros (r & Hr & Hd). injection Hp as <-.
    assert (He : existsb (fun r => patch_denies_incomplete (patch r)) routes = true).
    { apply existsb_exists. exists r. split; [by apply list_elem_of_In|done]. }
    rewrite He. by apply denies_incomplete_disposition.
Qed.

Lemma strict_route_denies_witness :
  exists p, inspection_policy [payment_route] "/api/x/../payment" = Some p
    /\ disposition p UnsupportedEncoding = Deny.
Proof.
  eexists. split; [vm_compute; reflexivity|].
  eapply (strict_route_denies [payment_route] "/api/x/../payment"); [vm_compute; reflexivity|done|].
  change (canonical_route_path (before 63 "/api/x/../payment")) with (Some (lit "/api/payment")).
  exists payment_route. split; [left|]. split; [vm_compute; reflexivity|]. split; [done|].
  by intros r' ->%list_elem_of_singleton.
Defined.
