(* ===== verification/Grpc.v ===== *)
(** * gRPC policy ([src/grpc.rs])

    The allow list of methods, the framing of messages, the deadline the proxy enforces on
    [grpc-timeout].  The descriptor pool and the decoding of protobuf messages belong to
    [prost-reflect]: they are the operations of the class [Descriptors]. *)

From S2P Require Import Prelude Net Shield Route Inspection.

Class Descriptors : Type := {
  Pool : Type;
  Service : Type;
  Message : Type;
  pool_decode : bytes -> option Pool;
  get_service_by_name : Pool -> bytes -> option Service;
  methods : Service -> list (bytes * Message);
  message_decodes : Message -> bytes -> bool;
}.

(** [src/grpc.rs: const DEFAULT_MAX_MESSAGE + const HARD_MAX_ALLOW] *)
Definition DEFAULT_MAX_MESSAGE : Z := 64 * 1024.
Definition DEFAULT_DEADLINE : Duration := from_secs 10.
Definition HARD_MAX_MESSAGE : Z := 16 * 1024 * 1024.
Definition HARD_MAX_DEADLINE : Duration := from_secs 600.
Definition HARD_MAX_ALLOW : Z := 10000.

(** [src/grpc.rs: struct GrpcFile] *)
Record GrpcFile : Type := {
  gf_allow : list bytes;
  gf_max_message_bytes : option bytes;
  gf_reflection : option bool;
  gf_deadline : option bytes;
  gf_require_deadline : option bool;
}.

(** [src/grpc.rs: enum GrpcFailure] *)
Inductive GrpcFailure : Type := GrpcParseError | Method (rpc : bytes).

(** [src/grpc.rs: enum GrpcVerdict] *)
Inductive GrpcVerdict : Type := Skip | GAllow (timeout : option bytes) | GDeny (f : GrpcFailure).

(** [src/grpc.rs: GrpcFailure::detail] *)
Definition detail (f : GrpcFailure) : bytes :=
  match f with GrpcParseError => "ParseError" | Method rpc => rpc end.

(** ** Names *)

Definition is_service_char (ch : Z) : bool := is_ascii_alphanumeric ch || (ch =? 95) || (ch =? 46).
Definition is_method_char (ch : Z) : bool := is_ascii_alphanumeric ch || (ch =? 95).

(** [src/grpc.rs: fn normalize_rpc] *)
Definition normalize_rpc (raw : bytes) : option bytes :=
  let trimmed := trim raw in
  if is_empty trimmed then None
  else
    '(service, method) ← rsplit_once 47 (trim_start_matches 47 trimmed);
    if is_empty service || is_empty method then None
    else if contains service [47] || contains method [47] then None
    else if negb (forallb is_service_char service) || negb (forallb is_method_char method) then None
    else Some (service ++ 47 :: method).

(** [src/grpc.rs: fn split_rpc] *)
Definition split_rpc (rpc : bytes) : option (bytes * bytes) := rsplit_once 47 rpc.

(** [src/grpc.rs: fn rpc_from_path] *)
Definition rpc_from_path (path : bytes) : bytes :=
  let path := before 63 path in
  let path := default path (canonical_route_path path) in
  default (trim_start_matches 47 path) (normalize_rpc path).

(** [src/grpc.rs: fn is_reflection] *)
Definition is_reflection (rpc : bytes) : bool :=
  one_of rpc ["grpc.reflection.v1.ServerReflection/ServerReflectionInfo";
              "grpc.reflection.v1alpha.ServerReflection/ServerReflectionInfo"].

(** [src/grpc.rs: fn is_grpc_content_type] *)
Definition is_grpc_content_type (content_type : option bytes) : bool :=
  match content_type with
  | None => false
  | Some ct => starts_with (to_ascii_lowercase (trim (before 59 ct))) "application/grpc"
  end.

(** ** Frames *)

(** [src/grpc.rs: enum FrameFail] *)
Inductive FrameFail : Set := FParse | FSize.

(** The loop on the rest of the body; [None] when the fuel runs out. *)
Fixpoint frames_loop (fuel : nat) (body : bytes) (max : Z) : option (result FrameFail (list bytes)) :=
  match fuel with
  | O => None
  | S fuel =>
      match body with
      | [] => Some (Ok [])
      | compressed :: a :: b :: c :: d :: rest =>
          let claimed := be_value [a; b; c; d] in
          if max <? claimed then Some (Err FSize)
          else if negb (compressed =? 0) then Some (Err FParse)
          else if len rest <? claimed then Some (Err FParse)
          else
            let n := Z.to_nat claimed in
            r ← frames_loop fuel (drop n rest) max;
            Some (match r with Ok frames => Ok (take n rest :: frames) | Err e => Err e end)
      | _ => Some (Err FParse)
      end
  end.

(** [src/grpc.rs: fn iter_frames] *)
Definition iter_frames (body : bytes) (max : Z) : option (result FrameFail (list bytes)) :=
  frames_loop (S (length body)) body max.

(** ** Deadlines *)

Inductive DeadlineError : Set := DeadlineEmpty | DeadlineInvalid | DeadlineTooLong.

(** [src/grpc.rs: fn parse_deadline] *)
Definition parse_deadline (raw : bytes) : result DeadlineError Duration :=
  let trimmed := trim raw in
  if is_empty trimmed then Err DeadlineEmpty
  else
    let lower := to_ascii_lowercase trimmed in
    let '(number, unit_ms) :=
      match strip_unit lower "ms" with
      | Some n => (n, 1)
      | None => match strip_unit lower "s" with
                | Some n => (n, 1000)
                | None => match strip_unit lower "m" with
                          | Some n => (n, 60000)
                          | None => (trimmed, 1000)
                          end
                end
      end in
    value ← ok_or DeadlineInvalid (parse_uint u64_max number);
    millis ← ok_or DeadlineInvalid (checked_mul u64_max value unit_ms);
    if millis =? 0 then Err DeadlineInvalid
    else if HARD_MAX_DEADLINE <? from_millis millis then Err DeadlineTooLong
    else Ok (from_millis millis).

(** [src/grpc.rs: fn parse_grpc_timeout] *)
Definition parse_grpc_timeout (raw : bytes) : option Duration :=
  let raw := trim raw in
  if (len raw <? 2) || (9 <? len raw) then None
  else
    let digits := removelast raw in
    let unit := last raw in
    if is_empty digits || negb (forallb is_ascii_digit digits) then None
    else
      value ← parse_uint u64_max digits;
      match unit with
      | Some 72 => from_secs <$> checked_mul u64_max value 3600
      | Some 77 => from_secs <$> checked_mul u64_max value 60
      | Some 83 => Some (from_secs value)
      | Some 109 => Some (from_millis value)
      | Some 117 => Some (value * 1000)
      | Some 110 => Some value
      | _ => None
      end.

(** [src/grpc.rs: fn encode_grpc_timeout] *)
Definition encode_grpc_timeout (deadline : Duration) : bytes :=
  let millis := deadline / 1000000 in
  if millis mod 1000 =? 0 then show_dec (Z.min (millis / 1000) 99999999) ++ lit "S"
  else show_dec (Z.min millis 99999999) ++ lit "m".

Section Policy.
Context {D : Descriptors}.

(** [src/grpc.rs: struct GrpcInner] *)
Record GrpcInner : Type := {
  pool : Pool;
  allow : list bytes;
  max_message_bytes : Z;
  reflection : bool;
  deadline : Duration;
  require_deadline : bool;
}.

Inductive GrpcError : Type :=
| DescriptorEmpty | DescriptorInvalid | TooManyMethods (n : Z) | AllowInvalid (raw : bytes)
| AllowUnknown (rpc : bytes) | MessageSizeInvalid | MessageSizeTooLarge | BadDeadline (e : DeadlineError).

(** [src/grpc.rs: fn method_by_name] *)
Definition method_by_name (svc : Service) (method : bytes) : option Message :=
  snd <$> List.find (fun m => m.1 =s method) (methods svc).

(** [src/grpc.rs: fn input_descriptor] *)
Definition input_descriptor (p : Pool) (service method : bytes) : option Message :=
  svc ← get_service_by_name p service; method_by_name svc method.

(** One entry of the allow list. *)
Definition load_allow (p : Pool) (raw : bytes) : result GrpcError bytes :=
  rpc ← ok_or (AllowInvalid raw) (normalize_rpc raw);
  if is_reflection rpc then Ok rpc
  else
    '(service, method) ← ok_or (AllowInvalid raw) (split_rpc rpc);
    match get_service_by_name p service with
    | None => Err (AllowUnknown rpc)
    | Some svc => match method_by_name svc method with
                  | None => Err (AllowUnknown rpc)
                  | Some _ => Ok rpc
                  end
    end.

(** [src/grpc.rs: GrpcPolicy::from_bytes] *)
Definition from_bytes (descriptor : bytes) (file : GrpcFile) : result GrpcError GrpcInner :=
  if is_empty descriptor then Err DescriptorEmpty
  else
    p ← ok_or DescriptorInvalid (pool_decode descriptor);
    if HARD_MAX_ALLOW <? len (gf_allow file) then Err (TooManyMethods (len (gf_allow file)))
    else
      allow ← collect (load_allow p) (gf_allow file);
      max_message_bytes ← match gf_max_message_bytes file with
        | Some raw =>
            size ← ok_or MessageSizeInvalid (parse_byte_size raw);
            if HARD_MAX_MESSAGE <? size then Err MessageSizeTooLarge else Ok size
        | None => Ok DEFAULT_MAX_MESSAGE
        end;
      deadline ← match gf_deadline file with
        | Some raw => map_err BadDeadline (parse_deadline raw)
        | None => Ok DEFAULT_DEADLINE
        end;
      Ok {| pool := p; allow := allow; max_message_bytes := max_message_bytes;
            reflection := default false (gf_reflection file); deadline := deadline;
            require_deadline := default false (gf_require_deadline file) |}.

(** [src/grpc.rs: fn timeout_verdict] *)
Definition timeout_verdict (rpc : bytes) (grpc_timeout : option bytes) (inner : GrpcInner) : GrpcVerdict :=
  match trimmed_nonempty grpc_timeout with
  | None => if require_deadline inner then GDeny (Method rpc)
            else GAllow (Some (encode_grpc_timeout (deadline inner)))
  | Some raw =>
      match parse_grpc_timeout raw with
      | None => GDeny (Method rpc)
      | Some got => if deadline inner <? got then GAllow (Some (encode_grpc_timeout (deadline inner)))
                    else GAllow None
      end
  end.

(** [src/grpc.rs: GrpcPolicy::check_headers] *)
Definition check_headers (inner : GrpcInner) (method path : bytes)
    (content_type grpc_timeout : option bytes) : GrpcVerdict :=
  if negb (is_grpc_content_type content_type) then Skip
  else
    let rpc := rpc_from_path path in
    if negb (eq_ignore_ascii_case method "POST") then GDeny (Method rpc)
    else if is_reflection rpc then
      if negb (reflection inner) then GDeny (Method rpc)
      else timeout_verdict rpc grpc_timeout inner
    else if negb (mem rpc (allow inner)) then GDeny (Method rpc)
    else timeout_verdict rpc grpc_timeout inner.

(** [src/grpc.rs: GrpcPolicy::check_body] [None] if the frame loop ran out of fuel. *)
Definition check_body (inner : GrpcInner) (method path : bytes) (content_type : option bytes)
    (body : bytes) : option GrpcVerdict :=
  if negb (is_grpc_content_type content_type) then Some Skip
  else if negb (eq_ignore_ascii_case method "POST") then Some (GDeny (Method (rpc_from_path path)))
  else
    let rpc := rpc_from_path path in
    r ← iter_frames body (max_message_bytes inner);
    Some match r with
    | Err FSize => GDeny (Method rpc)
    | Err FParse => GDeny GrpcParseError
    | Ok frames =>
        if is_reflection rpc then
          if negb (reflection inner) then GDeny (Method rpc) else GAllow None
        else if negb (mem rpc (allow inner)) then GDeny (Method rpc)
        else match split_rpc rpc with
        | None => GDeny GrpcParseError
        | Some (service, method_name) =>
            match input_descriptor (pool inner) service method_name with
            | None => GDeny GrpcParseError
            | Some input =>
                if forallb (message_decodes input) frames then GAllow None else GDeny GrpcParseError
            end
        end
    end.
End Policy.

(** ** Properties: frames *)

Definition render_frame (f : bytes) : bytes := 0 :: be_octets 4 (len f) ++ f.
Definition frame_ok (max : Z) (f : bytes) : Prop := len f <= max /\ len f < 2 ^ 32 /\ Forall is_byte f.

Lemma be_octets4 v : exists a b c d, be_octets 4 v = [a; b; c; d] /\ (0 <= v < 2 ^ 32 -> be_value [a; b; c; d] = v).
Proof.
  do 4 eexists. split; [reflexivity|]. intros Hv. by apply (be_value_octets 4).
Qed.

Lemma frames_loop_render frames : forall fuel max, Forall (frame_ok max) frames ->
  (length (flat_map render_frame frames) < fuel)%nat ->
  frames_loop fuel (flat_map render_frame frames) max = Some (Ok frames).
Proof.
  induction frames as [|f frames IH]; intros fuel max Hf Hl; (destruct fuel as [|fuel]; [lia|]); [done|].
  apply Forall_cons in Hf as [(H1 & H2 & H3) Hf]. cbn [flat_map] in Hl |- *. unfold render_frame at 1.
  destruct (be_octets4 (len f)) as (a & b & c & d & E & Hv). pose proof (len_nonneg f).
  rewrite E. cbn [app frames_loop]. rewrite Hv by lia.
  destruct (Z.ltb_spec max (len f)); [lia|]. cbn [negb Z.eqb].
  rewrite len_app. pose proof (len_nonneg (flat_map render_frame frames)).
  destruct (Z.ltb_spec (len f + len (flat_map render_frame frames)) (len f)); [lia|].
  unfold len. rewrite Nat2Z.id, drop_app_length, take_app_length, IH; [done|done|].
  unfold render_frame in Hl at 1. rewrite length_app in Hl. simpl in Hl. lia.
Qed.

Lemma frames_loop_inv fuel : forall body max frames, Forall is_byte body ->
  frames_loop fuel body max = Some (Ok frames) ->
  body = flat_map render_frame frames /\ Forall (frame_ok max) frames.
Proof.
  induction fuel as [|fuel IH]; intros body max frames Hb; cbn [frames_loop]; [done|].
  destruct body as [|z [|a [|b [|c [|d rest]]]]]; try done.
  { intros [= <-]. split; [done|constructor]. }
  destruct (Z.ltb_spec max (be_value [a; b; c; d])) as [|Hmax]; [done|].
  destruct (Z.eqb_spec z 0) as [->|]; [cbn [negb]|done].
  destruct (Z.ltb_spec (len rest) (be_value [a; b; c; d])) as [|Hrest]; [done|].
  apply Forall_cons in Hb as [_ Hb].
  assert (Hh : Forall is_byte [a; b; c; d]).
  { change (a :: b :: c :: d :: rest) with ([a; b; c; d] ++ rest) in Hb. by apply Forall_app in Hb as [? _]. }
  assert (Hr : Forall is_byte rest).
  { change (a :: b :: c :: d :: rest) with ([a; b; c; d] ++ rest) in Hb. by apply Forall_app in Hb as [_ ?]. }
  pose proof (be_value_range _ Hh) as Hv. change (8 * len [a; b; c; d]) with 32 in Hv.
  set (n := be_value [a; b; c; d]) in *.
  destruct (frames_loop fuel _ max) as [[fs|e]|] eqn:E; [|done|done]. simpl. intros [= <-].
  apply IH in E as [E Hok]; [|by apply Forall_drop].
  assert (Hln : len (take (Z.to_nat n) rest) = n).
  { unfold len in *. rewrite length_take. lia. }
  split.
  - cbn [flat_map]. unfold render_frame at 1. rewrite Hln.
    change (be_octets 4 n) with (be_octets (length [a; b; c; d]) (be_value [a; b; c; d])).
    rewrite be_octets_value by done. simpl. do 5 f_equal.
    rewrite <- E. by rewrite take_drop.
  - constructor; [|done]. split; [lia|]. split; [lia|]. by apply Forall_take.
Qed.

Lemma frames_loop_total fuel : forall body max, (length body < fuel)%nat ->
  is_Some (frames_loop fuel body max).
Proof.
  induction fuel as [|fuel IH]; intros body max Hl; [lia|]. cbn [frames_loop].
  destruct body as [|z [|a [|b [|c [|d rest]]]]]; try by eexists.
  destruct (_ <? _); [by eexists|]. destruct (negb _); [by eexists|].
  destruct (_ <? _); [by eexists|].
  destruct (IH (drop (Z.to_nat (be_value [a; b; c; d])) rest) max) as [r ->].
  { rewrite length_drop. simpl in Hl. lia. }
  simpl. by eexists.
Qed.

(** Splitting a body into gRPC messages always ends, and succeeds exactly on the bodies
    that are a sequence of uncompressed messages within the size limit; the messages are
    then the ones that were framed, with no byte left over. *)
Theorem iter_frames_spec (body : bytes) (max : Z) :
  Forall is_byte body ->
  is_Some (iter_frames body max)
  /\ forall frames, iter_frames body max = Some (Ok frames)
       <-> body = flat_map render_frame frames /\ Forall (frame_ok max) frames.
Proof.
  intros Hb. split; [apply frames_loop_total; lia|]. intros frames. split.
  - by apply frames_loop_inv.
  - intros [-> Hf]. apply frames_loop_render; [done|lia].
Qed.

Lemma iter_frames_spec_witness :
  iter_frames [0; 0; 0; 0; 2; 8; 1; 0; 0; 0; 0; 0] 1024 = Some (Ok [[8; 1]; []]).
Proof.
  apply iter_frames_spec; [repeat constructor; unfold is_byte; lia|].
  split; [reflexivity|]. repeat constructor; vm_compute; discriminate || reflexivity.
Defined.

(** ** Properties: deadlines *)

Lemma last_app_one {A} (l : list A) x : last (l ++ [x]) = Some x.
Proof. apply last_snoc. Qed.

Lemma digit_visible d : is_ascii_digit d = true -> visible d = true.
Proof.
  unfold is_ascii_digit, visible, in_range. intros H. bool_to_prop.
  by rewrite (proj2 (Z.leb_le _ _)), (proj2 (Z.leb_le _ _)) by lia.
Qed.

(** Reading back a number of at most eight digits followed by a unit. *)
Lemma parse_timeout_show n u : 0 <= n <= 99999999 -> visible u = true ->
  parse_grpc_timeout (show_dec n ++ [u])
  = match u with
    | 72 => from_secs <$> checked_mul u64_max n 3600
    | 77 => from_secs <$> checked_mul u64_max n 60
    | 83 => Some (from_secs n)
    | 109 => Some (from_millis n)
    | 117 => Some (n * 1000)
    | 110 => Some n
    | _ => None
    end.
Proof.
  intros Hn Hu.
  destruct (show_dec_shape n 7) as (Hd & Hl & Hne); [simpl; lia|].
  destruct (show_dec n) as [|d s] eqn:E; [done|].
  assert (Ht : trim ((d :: s) ++ [u]) = (d :: s) ++ [u]).
  { apply trim_visible; [|done]. apply digit_visible. simpl in Hd. by apply andb_true_iff in Hd as [? _]. }
  unfold parse_grpc_timeout. rewrite Ht, removelast_last, last_app_one, len_app.
  change (len [u]) with 1. unfold len. simpl length in Hl |- *.
  destruct (Z.ltb_spec (Z.of_nat (S (length s)) + 1) 2); [lia|].
  destruct (Z.ltb_spec 9 (Z.of_nat (S (length s)) + 1)); [lia|]. cbn [orb is_empty].
  rewrite Hd. cbn [negb]. rewrite <- E.
  rewrite (parse_uint_show u64_max n) by (unfold u64_max; lia).
  unfold mbind, option_bind. repeat (case_match; try done).
Qed.

Lemma encode_parse_timeout ms : 0 < ms <= 600000 ->
  parse_grpc_timeout (encode_grpc_timeout (from_millis ms)) = Some (from_millis ms).
Proof.
  intros Hms. unfold encode_grpc_timeout.
  replace (from_millis ms / 1000000) with ms by (unfold from_millis; by rewrite Z.div_mul).
  destruct (Z.eqb_spec (ms mod 1000) 0) as [Hz|Hz].
  - assert (Hd : ms = 1000 * (ms / 1000)) by (pose proof (Z.div_mod ms 1000 ltac:(lia)); lia).
    rewrite Z.min_l by lia. change (lit "S") with [83].
    rewrite parse_timeout_show by (done || lia). f_equal. unfold from_secs, from_millis. lia.
  - rewrite Z.min_l by lia. change (lit "m") with [109]. by rewrite parse_timeout_show by (done || lia).
Qed.

Section Deadline.
Context {D : Descriptors}.

Definition deadline_ok (d : Duration) : Prop := exists ms, d = from_millis ms /\ 0 < ms <= 600000.

Lemma parse_deadline_ok raw d : parse_deadline raw = Ok d -> deadline_ok d.
Proof.
  unfold parse_deadline. destruct (is_empty _); [done|].
  match goal with |- context [let '(_, _) := ?x in _] => destruct x as [number unit_ms] eqn:Eu end.
  assert (Hu : 0 < unit_ms) by (repeat case_match; simplify_eq; lia).
  destruct (parse_uint u64_max number) as [v|] eqn:Ev; [|done]. unfold mbind, result_bind, ok_or.
  unfold checked_mul. destruct (v * unit_ms <=? u64_max); [|done].
  destruct (Z.eqb_spec (v * unit_ms) 0); [done|]. apply parse_uint_range in Ev.
  unfold HARD_MAX_DEADLINE.
  destruct (Z.ltb_spec (from_secs 600) (from_millis (v * unit_ms))) as [|Hle]; [done|].
  intros [= <-]. exists (v * unit_ms). split; [done|]. unfold from_secs, from_millis in Hle. nia.
Qed.

(** A loaded policy: its deadline is positive and at most ten minutes, its message limit at
    most 16 MiB, and every method of its allow list exists in the descriptor. *)
Definition described (inner : GrpcInner) (rpc : bytes) : Prop :=
  exists service method input, split_rpc rpc = Some (service, method)
    /\ input_descriptor (pool inner) service method = Some input.

Lemma load_allow_ok p raw rpc : load_allow p raw = Ok rpc ->
  is_reflection rpc = true \/ exists service method input,
    split_rpc rpc = Some (service, method) /\ input_descriptor p service method = Some input.
Proof.
  unfold load_allow, mbind, result_bind, ok_or. destruct (normalize_rpc raw) as [r|]; [|done].
  destruct (is_reflection r) eqn:Er; [intros [= <-]; by left|].
  destruct (split_rpc r) as [[s m]|] eqn:Es; [|done].
  destruct (get_service_by_name p s) as [svc|] eqn:Eg; [|done].
  destruct (method_by_name svc m) as [input|] eqn:Em; [|done]. intros [= <-]. right.
  exists s, m, input. split; [done|]. unfold input_descriptor. rewrite Eg. simpl. done.
Qed.

Lemma from_bytes_ok descriptor file inner : from_bytes descriptor file = Ok inner ->
  deadline_ok (deadline inner) /\ max_message_bytes inner <= HARD_MAX_MESSAGE
  /\ Forall (fun rpc => is_reflection rpc = true \/ described inner rpc) (allow inner).
Proof.
  unfold from_bytes. destruct (is_empty descriptor); [done|].
  unfold mbind, result_bind, ok_or. destruct (pool_decode descriptor) as [p|]; [|done].
  destruct (HARD_MAX_ALLOW <? _); [done|].
  destruct (collect (load_allow p) (gf_allow file)) as [al|] eqn:Ea; [|done].
  match goal with |- context [match ?x with Ok _ => _ | Err _ => _ end] =>
    destruct x as [mm|] eqn:Em; [|done] end.
  match goal with |- context [match ?x with Ok _ => _ | Err _ => _ end] =>
    destruct x as [dl|] eqn:Ed; [|done] end.
  intros [= <-]. simpl. split; [|split].
  - destruct (gf_deadline file) as [raw|]; [|injection Ed as <-; by exists 10000].
    destruct (parse_deadline raw) as [d|] eqn:Ep; simplify_eq/=. by eapply parse_deadline_ok.
  - destruct (gf_max_message_bytes file) as [raw|]; [|by injection Em as <-].
    destruct (parse_byte_size raw) as [size|]; [|done].
    destruct (Z.ltb_spec HARD_MAX_MESSAGE size); simplify_eq; done.
  - apply collect_ok in Ea. clear -Ea. induction Ea as [|x y l k Hxy _ IH]; [constructor|].
    constructor; [|done]. by apply load_allow_ok in Hxy.
Qed.

Lemma mem_elem (x : bytes) l : mem x l = true <-> x ∈ l.
Proof.
  unfold mem. rewrite existsb_exists. setoid_rewrite bytes_eqb_eq.
  setoid_rewrite <- list_elem_of_In. naive_solver.
Qed.
End Deadline.

(** No gRPC call is admitted without a bounded deadline: under a loaded policy, when the
    headers of a call pass, the timeout the origin receives (the header the proxy writes, or
    the client's own when it is kept) is readable and at most the configured deadline, itself
    positive and at most ten minutes. *)
Theorem grpc_deadline_enforced {D : Descriptors} (descriptor : bytes) (file : GrpcFile)
    (inner : GrpcInner) (method path : bytes) (ct timeout fwd : option bytes) :
  from_bytes descriptor file = Ok inner ->
  check_headers inner method path ct timeout = GAllow fwd ->
  0 < deadline inner <= HARD_MAX_DEADLINE
  /\ exists sent got, (fwd = Some sent \/ fwd = None /\ trim <$> timeout = Some sent)
       /\ parse_grpc_timeout sent = Some got /\ got <= deadline inner.
Proof.
  intros (Hd & _ & _)%from_bytes_ok Hc. destruct Hd as (ms & Hdl & Hms).
  split; [unfold HARD_MAX_DEADLINE, from_secs, from_millis in *; lia|].
  assert (Ht : timeout_verdict (rpc_from_path path) timeout inner = GAllow fwd).
  { revert Hc. unfold check_headers. repeat case_match; done. }
  clear Hc. revert Ht. unfold timeout_verdict.
  assert (He : parse_grpc_timeout (encode_grpc_timeout (deadline inner)) = Some (deadline inner))
    by (rewrite Hdl; by apply encode_parse_timeout).
  destruct (trimmed_nonempty timeout) as [raw|] eqn:Er.
  - destruct (parse_grpc_timeout raw) as [got|] eqn:Ep; [|done].
    destruct (Z.ltb_spec (deadline inner) got) as [|Hle]; intros [= <-].
    + exists (encode_grpc_timeout (deadline inner)), (deadline inner). auto with lia.
    + exists raw, got. split; [right|by split]. split; [done|].
      unfold trimmed_nonempty in Er. destruct timeout as [t|]; [|done]. simpl.
      by destruct (is_empty (trim t)); simplify_eq.
  - destruct (require_deadline inner); [done|]. intros [= <-].
    exists (encode_grpc_timeout (deadline inner)), (deadline inner). auto with lia.
Qed.

(** A gRPC body that passes is a sequence of messages within the size limit, sent with POST
    to a method that is either reflection, enabled by the policy, or listed in the allow list
    and present in the descriptor, and each message decodes as the input of that method. *)
Theorem grpc_body_admitted {D : Descriptors} (descriptor : bytes) (file : GrpcFile)
    (inner : GrpcInner) (method path body : bytes) (ct fwd : option bytes) :
  from_bytes descriptor file = Ok inner -> Forall is_byte body ->
  check_body inner method path ct body = Some (GAllow fwd) ->
  let rpc := rpc_from_path path in
  eq_ignore_ascii_case method "POST" = true
  /\ exists frames, body = flat_map render_frame frames
       /\ Forall (fun f => len f <= max_message_bytes inner <= HARD_MAX_MESSAGE) frames
       /\ (is_reflection rpc = true /\ reflection inner = true
           \/ rpc ∈ allow inner /\ exists service m input, split_rpc rpc = Some (service, m)
                /\ input_descriptor (pool inner) service m = Some input
                /\ Forall (fun f => message_decodes input f = true) frames).
Proof.
  intros (_ & Hmax & _)%from_bytes_ok Hb. unfold check_body.
  destruct (negb (is_grpc_content_type ct)); [done|].
  destruct (eq_ignore_ascii_case method "POST"); [|done]. cbn [negb].
  destruct (iter_frames body (max_message_bytes inner)) as [[frames|e]|] eqn:Ef; [| |done]; cbn [mbind option_bind].
  2:{ by destruct e. }
  apply frames_loop_inv in Ef as [-> Hok]; [|done]. intros Hv. split; [done|].
  exists frames. split; [done|].
  split; [eapply Forall_impl; [exact Hok|]; intros f [? _]; simpl; lia|].
  revert Hv. set (rpc := rpc_from_path path).
  destruct (is_reflection rpc); [left; by destruct (reflection inner)|].
  destruct (mem rpc (allow inner)) eqn:Em; [|done]. cbn [negb]. intros Hv. right.
  split; [by apply mem_elem|].
  destruct (split_rpc rpc) as [[s m]|]; [|done]. exists s, m.
  destruct (input_descriptor (pool inner) s m) as [input|]; [|done]. exists input.
  split; [done|]. split; [done|]. destruct (forallb _ frames) eqn:E; [|done].
  apply Forall_forall. intros f Hf. rewrite forallb_forall in E. apply E. by apply list_elem_of_In.
Qed.

(** A pool with one service, whose message decoder accepts any bytes. *)
Definition demo_descriptors : Descriptors := {|
  Pool := unit; Service := unit; Message := unit;
  pool_decode := fun _ => Some tt;
  get_service_by_name := fun _ s => if s =s "pkg.Service" then Some tt else None;
  methods := fun _ => [(lit "Allowed", tt)];
  message_decodes := fun _ _ => true;
|}.
Definition demo_file : GrpcFile := {|
  gf_allow := [lit "pkg.Service/Allowed"]; gf_max_message_bytes := None; gf_reflection := None;
  gf_deadline := Some (lit "1500ms"); gf_require_deadline := None |}.
Definition demo_inner : @GrpcInner demo_descriptors := {|
  pool := tt : @Pool demo_descriptors; allow := [lit "pkg.Service/Allowed"];
  max_message_bytes := 65536; reflection := false;
  deadline := from_millis 1500; require_deadline := false |}.

Lemma grpc_deadline_enforced_witness :
  @check_headers demo_descriptors demo_inner "POST" "/pkg.Service/Allowed"
    (Some (lit "application/grpc")) (Some (lit "1H")) = GAllow (Some (lit "1500m"))
  /\ exists sent got, Some (lit "1500m") = Some sent
       /\ parse_grpc_timeout sent = Some got /\ got <= from_millis 1500.
Proof.
  assert (Hc : @check_headers demo_descriptors demo_inner "POST" "/pkg.Service/Allowed"
    (Some (lit "application/grpc")) (Some (lit "1H")) = GAllow (Some (lit "1500m"))) by (vm_compute; reflexivity).
  split; [exact Hc|].
  destruct (@grpc_deadline_enforced demo_descriptors (lit "x") demo_file demo_inner _ _ _ _ _
    ltac:(vm_compute; reflexivity) Hc) as (_ & sent & got & Hs & Hp & Hle).
  exists sent, got. destruct Hs as [Hs|[Hs _]]; [|discriminate]. auto.
Defined.

Lemma grpc_body_admitted_witness :
  exists frames, [0; 0; 0; 0; 2; 8; 1] = flat_map render_frame frames.
Proof.
  destruct (@grpc_body_admitted demo_descriptors (lit "x") demo_file demo_inner "POST"
    "/pkg.Service/Allowed" [0; 0; 0; 0; 2; 8; 1] (Some (lit "application/grpc")) None
    ltac:(vm_compute; reflexivity) ltac:(repeat constructor; unfold is_byte; lia)
    ltac:(vm_compute; reflexivity)) as (_ & frames & Hf & _).
  exists frames. exact Hf.
Defined.
