(* ===== verification/Spool.v ===== *)
(** * Request body spool ([src/spool.rs])

    A body larger than what the proxy can replay from memory is held in a spool: in memory up
    to a ceiling, then in a file, until inspection has decided, and is then replayed to the
    origin.  The file system is a set of names with the content of the open file kept in the
    handle; the outcome of each I/O operation is an argument. *)

From S2P Require Import Prelude Budget.

(** [src/spool.rs: const MEMORY_CEILING + const REPLAY_CHUNK] *)
Definition MEMORY_CEILING : Z := 256 * 1024.
Definition DEFAULT_MAX_BYTES : Z := 512 * 1024 * 1024.
Definition DEFAULT_MAX_FILES : Z := 256.
Definition REPLAY_CHUNK : Z := 64 * 1024.

(** [src/spool.rs: const DEFAULT_DIR] *)
Definition DEFAULT_DIR : bytes := "/var/lib/ferroada/spool".

(** [src/spool.rs: enum SpoolError] *)
Inductive SpoolError : Set := Overflow | BudgetError | FilesError | NotConfigured | Io.

(** [src/spool.rs: SpoolError::is_overflow] *)
Definition is_overflow (e : SpoolError) : bool := match e with Overflow => true | _ => false end.

(** [src/spool.rs: SpoolError::is_capacity] *)
Definition is_capacity (e : SpoolError) : bool :=
  match e with BudgetError | FilesError | NotConfigured => true | _ => false end.

(** ** Budgets *)

(** [src/spool.rs: ByteBudget::reserve] with the gauge it sets. *)
Definition spool_reserve (n : Z) (b : ByteBudget) : ByteBudget * bool * option Z :=
  let '(b, ok) := reserve n b in (b, ok, if ok then Some (current b) else None).

(** [src/spool.rs: ByteBudget::release] *)
Definition spool_release (n : Z) (b : ByteBudget) : ByteBudget * option Z :=
  let b := release n b in (b, if 0 <? n then Some (current b) else None).

(** [src/spool.rs: FileBudget::acquire] *)
Definition file_acquire (b : ByteBudget) : ByteBudget * bool :=
  if current b <? budget_max b then (set_current b (current b + 1), true) else (b, false).

(** [src/spool.rs: FileBudget::release] *)
Definition file_release (b : ByteBudget) : ByteBudget :=
  set_current b (wrapping_sub (current b) 1).

(** [src/spool.rs: struct SpoolRuntime] with the process-wide sequence of file names and the
    names present in the spool directory. *)
Record SpoolRuntime : Type := {
  rt_dir : option bytes;
  rt_bytes : ByteBudget;
  rt_files : ByteBudget;
  rt_seq : Z;
  rt_disk : list bytes;
}.

(** [src/spool.rs: fn dir_from_env] *)
Definition dir_from_env (env : Env) : bytes :=
  match env "SPOOL_DIR" with
  | Some v => let v := trim v in if is_empty v then DEFAULT_DIR else v
  | None => DEFAULT_DIR
  end.

(** [src/spool.rs: fn env_usize] *)
Definition spool_env_usize (env : Env) (name : string) (dflt : Z) : Z := env_positive env name usize_max dflt.

(** [src/spool.rs: SpoolRuntime::off] *)
Definition runtime_off : SpoolRuntime := {|
  rt_dir := None;
  rt_bytes := {| current := 0; budget_max := DEFAULT_MAX_BYTES |};
  rt_files := {| current := 0; budget_max := DEFAULT_MAX_FILES |};
  rt_seq := 1; rt_disk := [] |}.

(** [src/spool.rs: SpoolRuntime::from_config] *)
Definition runtime_from_config (env : Env) (has_spool_routes : bool) : SpoolRuntime :=
  if negb has_spool_routes then runtime_off
  else {|
    rt_dir := Some (dir_from_env env);
    rt_bytes := {| current := 0; budget_max := spool_env_usize env "SPOOL_MAX_BYTES" DEFAULT_MAX_BYTES |};
    rt_files := {| current := 0; budget_max := spool_env_usize env "SPOOL_MAX_FILES" DEFAULT_MAX_FILES |};
    rt_seq := 1; rt_disk := [] |}.

Definition with_bytes (rt : SpoolRuntime) b : SpoolRuntime := {|
  rt_dir := rt_dir rt; rt_bytes := b; rt_files := rt_files rt; rt_seq := rt_seq rt; rt_disk := rt_disk rt |}.
Definition with_files (rt : SpoolRuntime) b : SpoolRuntime := {|
  rt_dir := rt_dir rt; rt_bytes := rt_bytes rt; rt_files := b; rt_seq := rt_seq rt; rt_disk := rt_disk rt |}.
Definition with_disk (rt : SpoolRuntime) d : SpoolRuntime := {|
  rt_dir := rt_dir rt; rt_bytes := rt_bytes rt; rt_files := rt_files rt; rt_seq := rt_seq rt; rt_disk := d |}.

(** [src/spool.rs: fn unique_spool_path] The name in the directory; the sequence advances. *)
Definition unique_spool_path (pid now_nanos : Z) (rt : SpoolRuntime) : SpoolRuntime * bytes :=
  ({| rt_dir := rt_dir rt; rt_bytes := rt_bytes rt; rt_files := rt_files rt;
      rt_seq := (rt_seq rt + 1) mod 2 ^ 64; rt_disk := rt_disk rt |},
   lit "spool-" ++ show_dec pid ++ lit "-" ++ show_dec (rt_seq rt) ++ lit "-" ++ show_dec now_nanos).

Definition disk_remove (name : bytes) (d : list bytes) : list bytes := base.filter (fun n => n <> name) d.

(** ** Handles *)

(** An open file: its content and the position of its cursor. *)
Record File : Type := { content : bytes; pos : nat }.

Definition write_at (f : File) (chunk : bytes) : File := {|
  content := take (pos f) (content f) ++ chunk ++ drop (pos f + length chunk) (content f);
  pos := pos f + length chunk |}.

(** The outcome of a [write_all]: done, or an error after some bytes were written. *)
Inductive WriteResult : Type := WDone | WFailed (written : nat).
Definition write_all (w : WriteResult) (f : File) (chunk : bytes) : File * bool :=
  match w with
  | WDone => (write_at f chunk, true)
  | WFailed k => (write_at f (take k chunk), false)
  end.

(** [src/spool.rs: enum Storage] *)
Inductive Storage : Type :=
| Memory (buf : bytes)
| OnFile (path : bytes) (file : File) (inspect : option bytes).

(** [src/spool.rs: struct SpoolHandle] *)
Record SpoolHandle : Type := {
  storage : Storage;
  h_len : Z;
  h_max : Z;
  replay_at : Z;
  replay_done : bool;
  h_reserved : Z;
  holds_file_slot : bool;
}.

(** [src/spool.rs: SpoolHandle::new] *)
Definition handle_new (max : Z) : SpoolHandle := {|
  storage := Memory []; h_len := 0; h_max := max; replay_at := 0; replay_done := false;
  h_reserved := 0; holds_file_slot := false |}.

Definition with_storage (h : SpoolHandle) (s : Storage) (n : Z) : SpoolHandle := {|
  storage := s; h_len := n; h_max := h_max h; replay_at := replay_at h;
  replay_done := replay_done h; h_reserved := h_reserved h; holds_file_slot := holds_file_slot h |}.
Definition with_slot (h : SpoolHandle) (b : bool) : SpoolHandle := {|
  storage := storage h; h_len := h_len h; h_max := h_max h; replay_at := replay_at h;
  replay_done := replay_done h; h_reserved := h_reserved h; holds_file_slot := b |}.
Definition with_reserved (h : SpoolHandle) (n : Z) : SpoolHandle := {|
  storage := storage h; h_len := h_len h; h_max := h_max h; replay_at := replay_at h;
  replay_done := replay_done h; h_reserved := n; holds_file_slot := holds_file_slot h |}.
Definition with_replay (h : SpoolHandle) (s : Storage) (at_ : Z) (done : bool) : SpoolHandle := {|
  storage := s; h_len := h_len h; h_max := h_max h; replay_at := at_; replay_done := done;
  h_reserved := h_reserved h; holds_file_slot := holds_file_slot h |}.

(** The I/O of one push: process id and clock for the name, whether the file opens, and the
    outcomes of the writes ([io_second] is the second write of a spill, or the write to an
    existing file). *)
Record PushIo : Type := {
  io_pid : Z; io_nanos : Z; io_open : bool; io_first : WriteResult; io_second : WriteResult;
}.

(** [src/spool.rs: SpoolHandle::spill_to_file] *)
Definition spill_to_file (io : PushIo) (extra : bytes) (rt : SpoolRuntime) (h : SpoolHandle)
  : SpoolRuntime * SpoolHandle * result SpoolError unit :=
  match rt_dir rt with
  | None => (rt, h, Err NotConfigured)
  | Some _ =>
      let '(files, ok) := file_acquire (rt_files rt) in
      if negb ok then (with_files rt files, h, Err FilesError)
      else
        let rt := with_files rt files in
        let h := with_slot h true in
        let '(rt, path) := unique_spool_path (io_pid io) (io_nanos io) rt in
        let unwind rt := (with_files rt (file_release (rt_files rt)), with_slot h false, Err Io) in
        (* [create_new]: opening fails when the name exists *)
        if negb (io_open io) || bool_decide (path ∈ rt_disk rt) then unwind rt
        else
          let rt := with_disk rt (path :: rt_disk rt) in
          let file := {| content := []; pos := 0 |} in
          let existing := match storage h with Memory buf => buf | OnFile _ _ _ => [] end in
          let '(file, ok) := write_all (io_first io) file existing in
          if negb ok then unwind (with_disk rt (disk_remove path (rt_disk rt)))
          else
            let '(file, ok) := write_all (io_second io) file extra in
            if negb ok then unwind (with_disk rt (disk_remove path (rt_disk rt)))
            else (rt, with_storage h (OnFile path file None) (h_len h + len extra), Ok tt)
  end.

(** [src/spool.rs: SpoolHandle::push] *)
Definition push (io : PushIo) (chunk : bytes) (rt : SpoolRuntime) (h : SpoolHandle)
  : SpoolRuntime * SpoolHandle * result SpoolError unit :=
  if is_empty chunk then (rt, h, Ok tt)
  else match checked_add usize_max (h_len h) (len chunk) with
  | None => (rt, h, Err Overflow)
  | Some next =>
      if h_max h <? next then (rt, h, Err Overflow)
      else
        let '(b, ok, _) := spool_reserve (len chunk) (rt_bytes rt) in
        if negb ok then (with_bytes rt b, h, Err BudgetError)
        else
          let rt := with_bytes rt b in
          let h := with_reserved h (h_reserved h + len chunk) in
          match storage h with
          | Memory buf =>
              if MEMORY_CEILING <? len buf + len chunk then spill_to_file io chunk rt h
              else (rt, with_storage h (Memory (buf ++ chunk)) next, Ok tt)
          | OnFile path file inspect =>
              let '(file, ok) := write_all (io_second io) file chunk in
              if ok then (rt, with_storage h (OnFile path file None) next, Ok tt)
              else (rt, with_storage h (OnFile path file inspect) (h_len h), Err Io)
          end
  end.

(** [src/spool.rs: SpoolHandle::inspect_bytes] [io] says whether the file operations succeed. *)
Definition inspect_bytes (io : bool) (h : SpoolHandle) : SpoolHandle * result SpoolError bytes :=
  match storage h with
  | Memory buf => (h, Ok buf)
  | OnFile path file (Some buf) => (h, Ok buf)
  | OnFile path file None =>
      if io then
        (with_storage h (OnFile path {| content := content file; pos := length (content file) |}
                           (Some (content file))) (h_len h), Ok (content file))
      else (h, Err Io)
  end.

(** [src/spool.rs: SpoolHandle::next_replay_chunk] [read n] is the number of bytes a read of at
    most [n] bytes returns, or an error. *)
Definition next_replay_chunk (read : nat -> option nat) (h : SpoolHandle)
  : SpoolHandle * result SpoolError (option bytes) :=
  if replay_done h then (h, Ok None)
  else match storage h with
  | Memory buf =>
      (with_replay h (storage h) (replay_at h) true,
       Ok (if is_empty buf then None else Some buf))
  | OnFile path file _ =>
      let file := if replay_at h =? 0 then {| content := content file; pos := 0 |} else file in
      let want := Z.min REPLAY_CHUNK (Z.max (saturating_sub (h_len h) (replay_at h)) 1) in
      let available := (Z.to_nat want `min` (length (content file) - pos file))%nat in
      match read available with
      | None => (with_replay h (OnFile path file None) (replay_at h) false, Err Io)
      | Some n =>
          if (n =? 0)%nat
          then (with_replay h (OnFile path file None) (replay_at h) true, Ok None)
          else
            let chunk := take n (drop (pos file) (content file)) in
            let file := {| content := content file; pos := pos file + n |} in
            let at_ := replay_at h + Z.of_nat n in
            (with_replay h (OnFile path file None) at_ (h_len h <=? at_), Ok (Some chunk))
      end
  end.

(** [src/spool.rs: SpoolHandle::drop] *)
Definition handle_drop (rt : SpoolRuntime) (h : SpoolHandle) : SpoolRuntime :=
  let '(b, _) := spool_release (h_reserved h) (rt_bytes rt) in
  let rt := with_bytes rt b in
  let rt := if holds_file_slot h then with_files rt (file_release (rt_files rt)) else rt in
  match storage h with
  | OnFile path _ _ => with_disk rt (disk_remove path (rt_disk rt))
  | Memory _ => rt
  end.

(** ** Start-up *)

(** What [metadata] and [read_dir] find: the entries with whether each is a regular file and
    whether it can be removed. *)
Record DirEntry : Type := { e_name : bytes; e_is_file : bool; e_removable : bool }.
Inductive DirState : Type := Missing | NotADir | Unreadable | Entries (l : list DirEntry).
Inductive PrepareError : Type :=
| DirMissing | DirNotDir | DirError | NotDedicated (name : bytes) | NotSpoolFile (name : bytes)
| RemoveFailed (name : bytes).

(** The loop over the entries: the entries left in the directory, and the result. *)
Fixpoint prepare_entries (todo : list DirEntry) : list DirEntry * result PrepareError unit :=
  match todo with
  | [] => ([], Ok tt)
  | e :: rest =>
      if negb (starts_with (e_name e) "spool-") then (todo, Err (NotDedicated (e_name e)))
      else if negb (e_is_file e) then (todo, Err (NotSpoolFile (e_name e)))
      else if negb (e_removable e) then (todo, Err (RemoveFailed (e_name e)))
      else prepare_entries rest
  end.

(** [src/spool.rs: fn prepare] *)
Definition prepare (dir : DirState) : DirState * result PrepareError unit :=
  match dir with
  | Missing => (dir, Err DirMissing)
  | NotADir => (dir, Err DirNotDir)
  | Unreadable => (dir, Err DirError)
  | Entries l => let '(l, r) := prepare_entries l in (Entries l, r)
  end.

(** [src/spool.rs: fn boot] *)
Definition boot (has_spool_routes : bool) (dir : DirState) : DirState * result PrepareError unit :=
  if negb has_spool_routes then (dir, Ok tt) else prepare dir.

(** ** Properties: what is replayed *)

(** The handle holds exactly [data], not yet replayed. *)
Definition holds (h : SpoolHandle) (data : bytes) : Prop :=
  h_len h = len data /\ replay_at h = 0 /\ replay_done h = false
  /\ match storage h with
     | Memory buf => buf = data /\ len data <= MEMORY_CEILING
     | OnFile _ f inspect => content f = data /\ pos f = length data
         /\ (inspect = None \/ inspect = Some data)
     end.

Lemma write_at_end f chunk : pos f = length (content f) ->
  write_at f chunk = {| content := content f ++ chunk; pos := length (content f ++ chunk) |}.
Proof.
  intros Hp. unfold write_at. rewrite Hp, take_ge, drop_ge, app_nil_r, length_app by lia. done.
Qed.

Lemma write_all_ok w f chunk f' : write_all w f chunk = (f', true) -> f' = write_at f chunk.
Proof. destruct w; simpl; by intros [= <-]. Qed.

Lemma spill_holds io extra rt h rt' h' data :
  h_len h = len data -> replay_at h = 0 -> replay_done h = false -> storage h = Memory data ->
  spill_to_file io extra rt h = (rt', h', Ok tt) -> holds h' (data ++ extra).
Proof.
  intros Hl Ha Hd Hs. unfold spill_to_file. destruct (rt_dir rt); [|done].
  destruct (file_acquire (rt_files rt)) as [files ok]. destruct ok; [|done]. cbn [negb].
  destruct (unique_spool_path _ _ _) as [rt1 path]. destruct (negb (io_open io) || _); [done|].
  cbn [with_slot storage]. rewrite Hs.
  destruct (write_all (io_first io) _ data) as [f1 ok1] eqn:E1. destruct ok1; [|done]. cbn [negb].
  destruct (write_all (io_second io) f1 extra) as [f2 ok2] eqn:E2. destruct ok2; [|done]. cbn [negb].
  apply write_all_ok in E1 as ->. apply write_all_ok in E2 as ->. intros [= <- <-].
  rewrite (write_at_end {| content := []; pos := 0 |}), write_at_end by done.
  unfold holds. simpl. rewrite len_app, <- Hl. repeat split; try done. by left.
Qed.

Lemma push_holds io chunk rt h rt' h' data : holds h data ->
  push io chunk rt h = (rt', h', Ok tt) -> holds h' (data ++ chunk).
Proof.
  intros (Hl & Ha & Hd & Hs). unfold push.
  destruct chunk as [|x chunk']; [simpl; intros [= <- <-]; rewrite app_nil_r; done|].
  set (chunk := x :: chunk'). cbn [is_empty]. unfold checked_add.
  destruct (_ <=? usize_max); [|done]. destruct (h_max h <? _); [done|].
  unfold spool_reserve. destruct (reserve (len chunk) (rt_bytes rt)) as [b ok].
  destruct ok; [|done]. cbn [negb]. cbn [with_reserved storage h_len].
  destruct (storage h) as [buf|path f inspect] eqn:Es.
  - destruct Hs as [-> Hm]. destruct (Z.ltb_spec MEMORY_CEILING (len data + len chunk)).
    + apply spill_holds; done.
    + intros [= <- <-]. unfold holds. simpl. rewrite len_app, Hl. repeat split; (done || lia).
  - destruct Hs as (Hc & Hp & _). destruct (write_all (io_second io) f chunk) as [f' ok] eqn:Ew.
    destruct ok; [|done]. apply write_all_ok in Ew as ->.
    rewrite write_at_end by (rewrite Hc; done). intros [= <- <-]. unfold holds. simpl.
    rewrite Hc, len_app, Hl. repeat split; try done. by left.
Qed.

(** A handle never outgrows its ceiling. *)
Lemma push_ceiling io chunk rt h rt' h' : push io chunk rt h = (rt', h', Ok tt) ->
  h_max h' = h_max h /\ (h_len h <= h_max h -> h_len h' <= h_max h).
Proof.
  unfold push. destruct (is_empty chunk); [by intros [= <- <-]|]. unfold checked_add.
  destruct (_ <=? usize_max); [|done]. destruct (Z.ltb_spec (h_max h) (h_len h + len chunk)) as [|Hle]; [done|].
  unfold spool_reserve. destruct (reserve (len chunk) (rt_bytes rt)) as [b ok]. destruct ok; [|done].
  cbn [negb with_reserved storage h_len h_max]. destruct (storage h) as [buf|path f insp].
  - destruct (MEMORY_CEILING <? _); [|intros [= <- <-]; cbn; auto].
    unfold spill_to_file. destruct (rt_dir _); [|done]. destruct (file_acquire _) as [files ok]. destruct ok; [|done]. cbn [negb].
    destruct (unique_spool_path _ _ _) as [rt1 path]. destruct (negb (io_open io) || _); [done|].
    cbn [with_slot storage]. destruct (write_all (io_first io) _ _) as [f1 ok1]. destruct ok1; [|done]. cbn [negb].
    destruct (write_all (io_second io) f1 _) as [f2 ok2]. destruct ok2; [|done]. cbn [negb]. intros [= <- <-]. cbn. auto.
  - destruct (write_all (io_second io) f chunk) as [f' ok]. destruct ok; [|done]. intros [= <- <-]. cbn. auto.
Qed.

(** Pushing the chunks of a body; the first error ends it. *)
Fixpoint push_all (ios : list (PushIo * bytes)) (rt : SpoolRuntime) (h : SpoolHandle)
  : SpoolRuntime * SpoolHandle * result SpoolError unit :=
  match ios with
  | [] => (rt, h, Ok tt)
  | (io, chunk) :: ios =>
      match push io chunk rt h with
      | (rt, h, Ok tt) => push_all ios rt h
      | (rt, h, Err e) => (rt, h, Err e)
      end
  end.

Lemma push_all_holds ios : forall rt h rt' h' data, holds h data ->
  push_all ios rt h = (rt', h', Ok tt) -> holds h' (data ++ concat (map snd ios)).
Proof.
  induction ios as [|[io chunk] ios IH]; intros rt h rt' h' data Hh; cbn [push_all map concat snd].
  - intros [= <- <-]. by rewrite app_nil_r.
  - destruct (push io chunk rt h) as [[rt1 h1] [[]|e]] eqn:E; [|done]. intros Hp.
    rewrite app_assoc. eapply IH; [|exact Hp]. by eapply push_holds.
Qed.

(** Calling [next_replay_chunk] until it returns no chunk. *)
Fixpoint drain (fuel : nat) (read : nat -> nat -> option nat) (h : SpoolHandle)
  : option (result SpoolError (list bytes)) :=
  match fuel with
  | O => None
  | S fuel =>
      match next_replay_chunk (read fuel) h with
      | (_, Err e) => Some (Err e)
      | (_, Ok None) => Some (Ok [])
      | (h, Ok (Some c)) =>
          match drain fuel read h with
          | Some (Ok cs) => Some (Ok (c :: cs))
          | r => r
          end
      end
  end.

(** Reads that work: at least one byte when some are available, never more. *)
Definition reads_work (read : nat -> nat -> option nat) : Prop :=
  forall i n, exists k, read i n = Some k /\ (k <= n)%nat /\ (n <> 0%nat -> k <> 0%nat).

Lemma drain_file read : reads_work read -> forall fuel h path f insp,
  storage h = OnFile path f insp -> replay_done h = false -> h_len h = len (content f) ->
  (if replay_at h =? 0 then True else replay_at h = Z.of_nat (pos f)) -> 0 <= replay_at h ->
  let start := if replay_at h =? 0 then 0%nat else pos f in
  (start <= length (content f))%nat -> (length (content f) - start < fuel)%nat ->
  exists cs, drain fuel read h = Some (Ok cs) /\ concat cs = drop start (content f)
    /\ Forall (fun c => len c <= REPLAY_CHUNK) cs.
Proof.
  intros Hread. induction fuel as [|fuel IH]; intros h path f insp Hs Hd Hl Hat Hnn start Hst Hf; [lia|].
  cbn [drain]. unfold next_replay_chunk. rewrite Hd, Hs.
  set (g := if replay_at h =? 0 then {| content := content f; pos := 0 |} else f).
  assert (Hg : content g = content f /\ pos g = start).
  { subst g start. by destruct (replay_at h =? 0). }
  destruct Hg as [Hgc Hgp]. rewrite Hgc, Hgp.
  assert (Hra : Z.of_nat start = replay_at h).
  { subst start. destruct (Z.eqb_spec (replay_at h) 0); [lia|done]. }
  set (avail := (_ `min` _)%nat).
  destruct (Hread fuel avail) as (k & -> & Hk & Hkz).
  destruct (Nat.eqb_spec k 0) as [->|Hk0].
  - assert (avail = 0%nat) by (destruct (decide (avail = 0%nat)); [done|exfalso; by apply Hkz]).
    assert (start = length (content f)).
    { subst avail. unfold REPLAY_CHUNK, saturating_sub in *. lia. }
    exists []. split; [done|]. split; [|constructor]. by rewrite drop_ge by lia.
  - assert (Hka : (k <= length (content f) - start)%nat) by (subst avail; lia).
    assert (Hlt : length (take k (drop start (content f))) = k) by (rewrite length_take, length_drop; lia).
    assert (Hc64 : len (take k (drop start (content f))) <= REPLAY_CHUNK).
    { unfold len. rewrite Hlt. subst avail. unfold REPLAY_CHUNK in *. lia. }
    destruct (Z.leb_spec (h_len h) (replay_at h + Z.of_nat k)) as [Hend|Hmore].
    + (* the last chunk: the next call returns nothing *)
      assert (k = (length (content f) - start)%nat) as ->.
      { unfold len in Hl. lia. }
      destruct fuel as [|fuel]; [unfold len in Hl; lia|]. cbn [drain]. unfold next_replay_chunk at 1. simpl.
      eexists. split; [reflexivity|]. simpl. rewrite app_nil_r.
      split; [|by constructor]. apply take_ge. rewrite length_drop. lia.
    + match goal with |- context [drain fuel read ?h'] =>
        destruct (IH h' path {| content := content f; pos := start + k |} None) as (cs & E & Hcs & Hall) end;
        simpl; try done.
      * destruct (Z.eqb_spec (replay_at h + Z.of_nat k) 0); [done|]. rewrite Nat2Z.inj_add. lia.
      * lia.
      * destruct (Z.eqb_spec (replay_at h + Z.of_nat k) 0); [lia|]. lia.
      * destruct (Z.eqb_spec (replay_at h + Z.of_nat k) 0); [lia|]. lia.
      * rewrite E. eexists. split; [reflexivity|]. simpl in Hcs |- *.
        destruct (Z.eqb_spec (replay_at h + Z.of_nat k) 0) as [|_]; [lia|].
        split; [|by constructor]. rewrite Hcs. rewrite <- drop_drop. apply take_drop.
Qed.

(** C25. Spool round trip: when every chunk of a body was accepted, inspection sees exactly the
    body, and replaying it, before or after inspection and however short the reads from the
    file are, ends and sends exactly the body, in order, in pieces of at most 64 KiB when it
    was on file. *)
Theorem spool_roundtrip (ios : list (PushIo * bytes)) (max : Z) (rt rt' : SpoolRuntime)
    (h : SpoolHandle) (read : nat -> nat -> option nat) (inspect_first : bool) :
  push_all ios rt (handle_new max) = (rt', h, Ok tt) -> reads_work read ->
  let body := concat (map snd ios) in
  snd (inspect_bytes true h) = Ok body
  /\ exists cs, drain (S (S (length body))) read (if inspect_first then fst (inspect_bytes true h) else h)
                = Some (Ok cs) /\ concat cs = body
       /\ (match storage h with OnFile _ _ _ => Forall (fun c => len c <= REPLAY_CHUNK) cs | _ => True end).
Proof.
  intros Hp Hread body.
  assert (Hh : holds h body).
  { apply (push_all_holds ios rt (handle_new max) rt' h []); [|done]. by repeat split. }
  clearbody body. destruct Hh as (Hl & Ha & Hd & Hs).
  destruct (storage h) as [buf|path f insp] eqn:Es.
  - destruct Hs as [-> _]. unfold inspect_bytes. rewrite Es. split; [done|].
    replace (if inspect_first then (h, Ok body).1 else h) with h by by destruct inspect_first.
    cbn [drain]. unfold next_replay_chunk at 1. rewrite Hd, Es.
    destruct body as [|x rest]; cbn [is_empty]; [exists []; done|].
    cbn [drain]. unfold next_replay_chunk. simpl. eexists. split; [reflexivity|]. simpl.
    by rewrite app_nil_r.
  - destruct Hs as (Hc & Hpos & Hi).
    assert (Hi1 : exists h', inspect_bytes true h = (h', Ok body) /\ (exists f' i', storage h' = OnFile path f' i'
      /\ content f' = body) /\ replay_done h' = false /\ h_len h' = len body /\ replay_at h' = 0).
    { unfold inspect_bytes. rewrite Es. destruct Hi as [->| ->].
      - rewrite Hc. eexists. split; [reflexivity|]. simpl. split; [|done]. by do 2 eexists.
      - exists h. rewrite Es. split; [done|]. split; [|done]. by exists f, (Some body). }
    destruct Hi1 as (h' & Ei & (f' & i' & Es' & Hc') & Hd' & Hl' & Ha'). rewrite Ei. split; [done|].
    destruct inspect_first; simpl.
    + destruct (drain_file read Hread (S (S (length body))) h' path f' i') as (cs & E & Hcs & Hall);
        rewrite ?Ha', ?Hc' in *; simpl in *; try done; try lia. by exists cs.
    + destruct (drain_file read Hread (S (S (length body))) h path f insp) as (cs & E & Hcs & Hall);
        rewrite ?Ha, ?Hc in *; simpl in *; try done; try lia. by exists cs.
Qed.

Definition plain_io : PushIo :=
  {| io_pid := 1; io_nanos := 5; io_open := true; io_first := WDone; io_second := WDone |}.

Lemma spool_roundtrip_witness :
  snd (inspect_bytes true (snd (fst (push_all [(plain_io, lit "ab"); (plain_io, lit "c")]
     runtime_off (handle_new 1000))))) = Ok (lit "abc").
Proof.
  destruct (push_all [(plain_io, lit "ab"); (plain_io, lit "c")] runtime_off (handle_new 1000))
    as [[rt' h] r] eqn:E.
  assert (Hr : r = Ok tt) by (vm_compute in E; congruence). subst r.
  exact (proj1 (spool_roundtrip _ _ _ _ _ (fun _ n => Some n) false E
    ltac:(intros i n; exists n; split; [reflexivity|lia]))).
Defined.

(** ** Properties: resources *)

(** What the handle owns of the runtime it shares, relative to the state [rt0] without it. *)
Record owns (rt0 rt : SpoolRuntime) (h : SpoolHandle) : Prop := {
  o_bytes : current (rt_bytes rt) = current (rt_bytes rt0) + h_reserved h;
  o_bytes_max : budget_max (rt_bytes rt) = budget_max (rt_bytes rt0);
  o_bytes_le : current (rt_bytes rt) <= budget_max (rt_bytes rt0);
  o_files : current (rt_files rt) = current (rt_files rt0) + (if holds_file_slot h then 1 else 0);
  o_files_max : budget_max (rt_files rt) = budget_max (rt_files rt0);
  o_files_le : current (rt_files rt) <= budget_max (rt_files rt0);
  o_reserved : 0 <= h_reserved h;
  o_storage : match storage h with
              | Memory buf => holds_file_slot h = false /\ rt_disk rt = rt_disk rt0
                  /\ len buf <= MEMORY_CEILING
              | OnFile path _ _ => holds_file_slot h = true /\ rt_disk rt = path :: rt_disk rt0
                  /\ (path ∉ rt_disk rt0)
              end;
}.

Definition runtime_ok (rt : SpoolRuntime) : Prop :=
  0 <= current (rt_bytes rt) <= budget_max (rt_bytes rt) /\ budget_max (rt_bytes rt) <= usize_max
  /\ 0 <= current (rt_files rt) <= budget_max (rt_files rt) /\ budget_max (rt_files rt) <= usize_max.

Lemma disk_remove_new name d : name ∉ d -> disk_remove name (name :: d) = d.
Proof.
  intros Hn. unfold disk_remove. rewrite filter_cons, decide_False by naive_solver.
  induction d as [|x d IH]; [done|]. apply not_elem_of_cons in Hn as [Hx Hn].
  rewrite filter_cons, decide_True by congruence. by rewrite IH.
Qed.

Lemma spill_owns io extra rt0 rt h rt' h' r buf : runtime_ok rt0 -> owns rt0 rt h ->
  storage h = Memory buf -> spill_to_file io extra rt h = (rt', h', r) -> owns rt0 rt' h'.
Proof.
  intros (_ & _ & Hf0 & Hfm) HO Hs. pose proof HO as [B1 B2 B3 F1 F2 F3 R S]. rewrite Hs in S.
  destruct S as (Hslot & Hdisk & Hmem). rewrite Hslot in F1.
  unfold spill_to_file. destruct (rt_dir rt); [|by intros [= <- <- <-]].
  unfold file_acquire. destruct (Z.ltb_spec (current (rt_files rt)) (budget_max (rt_files rt))) as [Hlt|];
    cbn [negb]; [|intros [= <- <- <-]; destruct rt; exact HO].
  unfold unique_spool_path. cbn [with_files rt_files rt_disk].
  set (path := lit "spool-" ++ _).
  set (rt1 := {| rt_dir := _ |}).
  assert (Hgive : forall rt2, rt_disk rt2 = rt_disk rt0 -> rt_files rt2 = rt_files rt1 ->
    rt_bytes rt2 = rt_bytes rt ->
    owns rt0 (with_files rt2 (file_release (rt_files rt2))) (with_slot h false)).
  { intros rt2 E1 E2 E3. constructor; simpl; rewrite ?E1, ?E2, ?E3; simpl; try done; try lia.
    - rewrite wrapping_sub_small; unfold usize_max, u64_max in *; lia.
    - rewrite wrapping_sub_small; unfold usize_max, u64_max in *; lia.
    - by rewrite Hs. }
  destruct (negb (io_open io) || bool_decide (path ∈ rt_disk rt)) eqn:Eo; cbv beta zeta.
  { intros [= <- <- <-]. by apply Hgive. }
  apply orb_false_iff in Eo as [_ Hpath%bool_decide_eq_false].
  cbn [with_slot storage]. rewrite Hs.
  assert (Hrem : disk_remove path (rt_disk (with_disk rt1 (path :: rt_disk rt1))) = rt_disk rt0).
  { simpl in Hpath |- *. rewrite Hdisk in *. by apply disk_remove_new. }
  destruct (write_all (io_first io) _ buf) as [f1 ok1]. destruct ok1; cbn [negb].
  2:{ intros [= <- <- <-]. by apply Hgive. }
  destruct (write_all (io_second io) f1 extra) as [f2 ok2]. destruct ok2; cbn [negb].
  2:{ intros [= <- <- <-]. by apply Hgive. }
  intros [= <- <- <-]. constructor; simpl in *; try done; try lia. rewrite Hdisk in *. done.
Qed.

Lemma push_owns io chunk rt0 rt h rt' h' r : runtime_ok rt0 -> owns rt0 rt h ->
  push io chunk rt h = (rt', h', r) -> owns rt0 rt' h'.
Proof.
  intros H0 HO. pose proof HO as [B1 B2 B3 F1 F2 F3 R S]. unfold push.
  destruct (is_empty chunk); [by intros [= <- <- <-]|].
  unfold checked_add. destruct (_ <=? usize_max); [|by intros [= <- <- <-]].
  destruct (h_max h <? _); [by intros [= <- <- <-]|]. unfold spool_reserve.
  destruct (reserve (len chunk) (rt_bytes rt)) as [b ok] eqn:Er.
  apply reserve_spec in Er as (Hbm & Hb). destruct ok; cbn [negb].
  2:{ subst b. intros [= <- <- <-]. by destruct rt. }
  destruct Hb as [Hb1 Hb2]. pose proof (len_nonneg chunk).
  assert (HO1 : owns rt0 (with_bytes rt b) (with_reserved h (h_reserved h + len chunk))).
  { constructor; simpl; try done; lia. }
  cbn [with_reserved storage]. destruct (storage h) as [buf|path f i] eqn:Es.
  - destruct (Z.ltb_spec MEMORY_CEILING (len buf + len chunk)).
    + intros Hsp. eapply spill_owns; [done|exact HO1| |exact Hsp]. exact Es.
    + intros [= <- <- <-]. destruct HO1 as [B1' B2' B3' F1' F2' F3' R' S'].
      simpl in S'. rewrite Es in S'. constructor; simpl in *; try done; try lia.
      rewrite len_app. destruct S' as (? & ? & ?). repeat split; done || lia.
  - destruct HO1 as [B1' B2' B3' F1' F2' F3' R' S']. simpl in S'. rewrite Es in S'.
    destruct (write_all (io_second io) f chunk) as [f' ok]; destruct ok;
      intros [= <- <- <-]; constructor; done.
Qed.

Lemma push_all_owns ios rt0 : forall rt h rt' h' r, runtime_ok rt0 -> owns rt0 rt h ->
  push_all ios rt h = (rt', h', r) -> owns rt0 rt' h'.
Proof.
  induction ios as [|[io chunk] ios IH]; intros rt h rt' h' r H0 HO; cbn [push_all].
  - by intros [= <- <- <-].
  - destruct (push io chunk rt h) as [[rt1 h1] r1] eqn:E. pose proof (push_owns _ _ _ _ _ _ _ _ H0 HO E).
    destruct r1 as [[]|e]; [by apply IH|by intros [= <- <- <-]].
Qed.

(** A new handle owns nothing, and reading one back changes nothing it owns or holds. *)
Lemma new_owns rt max : runtime_ok rt -> owns rt rt (handle_new max).
Proof. intros (H1 & H2 & H3 & H4). constructor; simpl; try done; lia. Qed.

Lemma inspect_keeps io h h' r rt0 rt : inspect_bytes io h = (h', r) -> owns rt0 rt h -> owns rt0 rt h'.
Proof.
  unfold inspect_bytes. intros Hi [B1 B2 B3 F1 F2 F3 R S].
  destruct (storage h) as [buf|path f [insp|]] eqn:E; [|destruct io|]; (try destruct io); injection Hi as <- _;
    constructor; simpl; rewrite ?E; done.
Qed.

Lemma inspect_holds io h h' data body : holds h data -> inspect_bytes io h = (h', Ok body) -> body = data /\ holds h' data.
Proof.
  intros (Hl & Ha & Hd & Hs). unfold inspect_bytes. destruct (storage h) as [buf|path f insp] eqn:E.
  - destruct Hs as [-> Hm]. intros [= <- <-]. split; [done|]. unfold holds. rewrite E. done.
  - destruct Hs as (Hc & Hp & Hi). destruct insp as [insp|].
    + intros [= <- <-]. destruct Hi as [|[= ->]]; [done|]. split; [done|]. unfold holds. rewrite E. repeat split; auto.
    + destruct io; [|done]. intros [= <- <-]. split; [done|]. unfold holds. simpl. rewrite Hc. repeat split; auto.
Qed.

(** Dropping a handle gives back what it owns. *)
Lemma drop_restores rt0 rt h : runtime_ok rt0 -> owns rt0 rt h ->
  let rt' := handle_drop rt h in
  rt_bytes rt' = rt_bytes rt0 /\ rt_files rt' = rt_files rt0 /\ rt_disk rt' = rt_disk rt0.
Proof.
  intros (H1 & H2 & H3 & H4) [B1 B2 B3 F1 F2 F3 R S].
  assert (HB : release (h_reserved h) (rt_bytes rt) = rt_bytes rt0).
  { pose proof (release_exact (h_reserved h) (rt_bytes rt) ltac:(lia) ltac:(lia)) as E.
    assert (Em : budget_max (release (h_reserved h) (rt_bytes rt)) = budget_max (rt_bytes rt))
      by (unfold release; by destruct (0 <? h_reserved h)).
    destruct (release (h_reserved h) (rt_bytes rt)), (rt_bytes rt0). simpl in *. f_equal; lia. }
  assert (HF : (if holds_file_slot h then file_release (rt_files rt) else rt_files rt) = rt_files rt0).
  { unfold file_release, set_current. destruct (rt_files rt) as [c m], (rt_files rt0) as [c0 m0].
    simpl in *. destruct (holds_file_slot h); f_equal; try lia.
    rewrite wrapping_sub_small; unfold usize_max, u64_max in *; lia. }
  unfold handle_drop, spool_release. simpl.
  destruct (storage h) as [buf|path f i]; destruct S as (Hslot & Hd & Hrest);
    rewrite Hslot in *; simpl; rewrite HB, ?HF, ?Hd; split; try done; split; try done.
  by apply disk_remove_new.
Qed.

(** The spool leaks nothing: whatever chunks are pushed and whichever I/O operations fail,
    a handle keeps at most 256 KiB of body in memory, the shared budgets stay within their
    limits, and dropping it gives back every byte and file slot and removes its file. *)
Theorem spool_no_leak (ios : list (PushIo * bytes)) (max : Z) (rt0 rt : SpoolRuntime)
    (h : SpoolHandle) (r : result SpoolError unit) :
  runtime_ok rt0 -> push_all ios rt0 (handle_new max) = (rt, h, r) ->
  current (rt_bytes rt) <= budget_max (rt_bytes rt0)
  /\ current (rt_files rt) <= budget_max (rt_files rt0)
  /\ (match storage h with Memory buf => len buf <= MEMORY_CEILING | _ => True end)
  /\ let rt' := handle_drop rt h in
     rt_bytes rt' = rt_bytes rt0 /\ rt_files rt' = rt_files rt0 /\ rt_disk rt' = rt_disk rt0.
Proof.
  intros H0 Hp. assert (HO : owns rt0 rt h).
  { eapply push_all_owns; [done| |exact Hp].
    destruct H0 as (H1 & H2 & H3 & H4). constructor; simpl; try done; lia. }
  pose proof HO as [B1 B2 B3 F1 F2 F3 R S]. split; [done|]. split; [done|].
  split; [destruct (storage h); [by destruct S as (_ & _ & ?)|done]|].
  exact (drop_restores _ _ _ H0 HO).
Qed.

Lemma spool_no_leak_witness :
  let rt0 := {| rt_dir := Some DEFAULT_DIR; rt_bytes := {| current := 7; budget_max := 20 |};
                rt_files := {| current := 1; budget_max := 4 |}; rt_seq := 9; rt_disk := [] |} in
  let '(rt, h, r) := push_all [(plain_io, repeat 97 10); (plain_io, repeat 98 4)] rt0 (handle_new 500) in
  r = Err BudgetError /\ current (rt_bytes rt) = 17 /\ rt_bytes (handle_drop rt h) = rt_bytes rt0.
Proof.
  intros rt0.
  destruct (push_all [(plain_io, repeat 97 10); (plain_io, repeat 98 4)] rt0 (handle_new 500))
    as [[rt h] r] eqn:E.
  split; [vm_compute in E; congruence|]. split; [vm_compute in E; injection E as <- <- <-; reflexivity|].
  apply (spool_no_leak [(plain_io, repeat 97 10); (plain_io, repeat 98 4)] 500 rt0 rt h r);
    [vm_compute; intuition discriminate|exact E].
Defined.
