(* ===== verification/Json.v ===== *)
(** * JSON values

    What the code reads from [serde_json::Value]: the constructors it matches on and the
    accessors it calls.  Parsing and printing belong to [serde_json]; a number is the text it
    prints as. *)

From S2P Require Import Prelude.

Inductive JsonValue : Type :=
| JNull
| JBool (b : bool)
| JNumber (text : bytes)
| JString (s : bytes)
| JArray (items : list JsonValue)
| JObject (members : list (bytes * JsonValue)).

(** Induction over the values inside arrays and objects. *)
Section induction.
Context (P : JsonValue -> Prop) (Hnull : P JNull) (Hbool : forall b, P (JBool b))
  (Hnumber : forall t, P (JNumber t)) (Hstring : forall s, P (JString s))
  (Harray : forall items, Forall P items -> P (JArray items))
  (Hobject : forall members, Forall (fun m => P m.2) members -> P (JObject members)).

Fixpoint json_value_ind (v : JsonValue) : P v :=
  match v with
  | JNull => Hnull
  | JBool b => Hbool b
  | JNumber t => Hnumber t
  | JString s => Hstring s
  | JArray items =>
      Harray items ((fix go l : Forall P l :=
        match l with [] => List.Forall_nil _ | x :: l => List.Forall_cons _ _ _ (json_value_ind x) (go l) end) items)
  | JObject members =>
      Hobject members ((fix go l : Forall (fun m => P m.2) l :=
        match l with [] => List.Forall_nil _ | m :: l => List.Forall_cons _ m _ (json_value_ind m.2) (go l) end) members)
  end.
End induction.

(** [Map::get]; the keys of an object are distinct. *)
Definition get_member (key : bytes) (members : list (bytes * JsonValue)) : option JsonValue :=
  snd <$> List.find (fun m => m.1 =s key) members.

(** [Value::get(key)] *)
Definition json_get (key : bytes) (v : JsonValue) : option JsonValue :=
  match v with JObject members => get_member key members | _ => None end.

(** [Value::as_str] *)
Definition as_str (v : JsonValue) : option bytes := match v with JString s => Some s | _ => None end.

(** [Value::as_i64]: the numbers printed as an integer that fits. *)
Definition as_i64 (v : JsonValue) : option Z := match v with JNumber t => parse_i64 t | _ => None end.

(** What the code uses of [serde_json]. *)
Class SerdeJson : Type := {
  json_from_str : bytes -> option JsonValue;
  json_to_string : JsonValue -> option bytes;
}.

(** A codec to evaluate with. *)
Definition no_json : SerdeJson := {| json_from_str _ := None; json_to_string _ := None |}.
