(* ===== verification/Dlp.v ===== *)
(** * Data loss prevention ([src/dlp.rs])

    What is masked in response bodies: CPF, CNPJ and card numbers with valid check digits, bearer
    tokens, and configured JSON fields.  The regular expressions and the compression
    codecs belong to other crates: they are the operations of the class [DlpEngine]; JSON
    parsing is the class [SerdeJson]. *)

From S2P Require Import Prelude Net Json Shield.

(** The matches of a regular expression in a text: the gap before each match and the match,
    then the rest. *)
Definition Matches : Type := list (bytes * bytes) * bytes.
Definition matches_text (m : Matches) : bytes := flat_map (fun '(gap, hit) => gap ++ hit) m.1 ++ m.2.

Inductive Codec : Set := Gzip | Deflate | Brotli.

Class DlpEngine : Type := {
  cpf_re : bytes -> Matches;
  cnpj_re : bytes -> Matches;
  bearer_re : bytes -> Matches;
  cpf_re_text : forall s, matches_text (cpf_re s) = s;
  cnpj_re_text : forall s, matches_text (cnpj_re s) = s;
  bearer_re_text : forall s, matches_text (bearer_re s) = s;
  (* all that a decoder of the stream yields, cut one byte past the limit, or an error *)
  decode_stream : Codec -> bytes -> Z -> option bytes;
  encode_stream : Codec -> bytes -> option bytes;
}.

(** ** Configuration *)

(** [src/dlp.rs: const MAX_FIELDS] *)
Definition MAX_FIELDS : Z := 32.

(** [src/dlp.rs: enum DlpAction] *)
Inductive DlpAction : Set := DMonitor | DRedact | DBlock.

#[export] Instance DlpAction_eq_dec : EqDecision DlpAction.
Proof. solve_decision. Defined.

(** [src/dlp.rs: DlpAction::reject_incomplete_response] *)
Definition reject_incomplete_response (a : DlpAction) : bool :=
  match a with DBlock => true | _ => false end.

(** [src/dlp.rs: DlpAction::record_verb] *)
Definition record_verb (a : DlpAction) : bytes :=
  match a with DMonitor => "Detected" | DRedact => "Masked" | DBlock => "Blocked" end.

(** [src/dlp.rs: enum Detector] *)
Inductive Detector : Set := Cpf | Cnpj | Card.

Inductive DlpError : Type :=
| BadDetector (other : bytes) | PathNoDollar | PathEmpty | PathNoDot | PathBadSegment
| PathTooDeep | BadAction (other : bytes).

(** [src/dlp.rs: Detector::parse] *)
Definition parse_detector (raw : bytes) : result DlpError Detector :=
  let raw := trim raw in
  if raw =s "cpf" then Ok Cpf
  else if raw =s "cnpj" then Ok Cnpj
  else if raw =s "card" then Ok Card
  else Err (BadDetector raw).

Definition is_path_byte (b : Z) : bool := is_ascii_alphanumeric b || (b =? 95) || (b =? 45).

(** The bytes of a segment and the rest. *)
Definition take_segment (s : bytes) : bytes * bytes := span is_path_byte s.

(** The loop over the segments; [n] is the number already read and the fuel the length of the text. *)
Fixpoint segments_loop (fuel : nat) (n : Z) (s : bytes) : result DlpError (list bytes) :=
  match fuel, s with
  | _, [] => Ok []
  | O, _ => Ok []
  | S fuel, b :: r =>
      if negb (b =? 46) then Err PathNoDot
      else
        let '(seg, rest) := take_segment r in
        if is_empty seg || (64 <? len seg) then Err PathBadSegment
        else if 16 <? n + 1 then Err PathTooDeep
        else segs ← segments_loop fuel (n + 1) rest; Ok (seg :: segs)
  end.

(** [src/dlp.rs: fn parse_json_path] *)
Definition parse_json_path (raw : bytes) : result DlpError (list bytes) :=
  rest ← ok_or PathNoDollar (strip_prefix [36] (trim raw));
  if is_empty rest then Err PathEmpty
  else
    segments ← segments_loop (length rest) 0 rest;
    if is_empty segments then Err PathBadSegment else Ok segments.

(** [src/dlp.rs: struct DlpField] *)
Record DlpField : Type := { segments : list bytes; detector : Detector; field_raw : bytes }.

(** [src/dlp.rs: DlpField::parse] *)
Definition parse_field (path detector : bytes) : result DlpError DlpField :=
  d ← parse_detector detector;
  s ← parse_json_path path;
  Ok {| segments := s; detector := d; field_raw := trim path |}.

(** [src/dlp.rs: fn is_enabled] *)
Definition is_enabled (env : Env) : bool :=
  match env "DLP_ENABLED" with Some v => negb (v =s "false") | None => true end.

(** [src/dlp.rs: fn parse_action] *)
Definition parse_action (raw : option bytes) : result DlpError DlpAction :=
  match trimmed_nonempty raw with
  | None => Ok DRedact
  | Some v => if v =s "monitor" then Ok DMonitor
              else if v =s "redact" then Ok DRedact
              else if v =s "block" then Ok DBlock
              else Err (BadAction v)
  end.

Definition starts_with_any (s : bytes) (l : list string) : bool :=
  existsb (fun p : string => starts_with s p) l.

Definition BINARY_TYPES : list string :=
  ["image/"; "video/"; "audio/"; "application/octet-stream"; "application/pdf"; "application/zip";
   "application/gzip"].

(** [src/dlp.rs: fn skip_reason] *)
Definition skip_reason (env : Env) (content_type content_encoding : option bytes) : option bytes :=
  if negb (is_enabled env) then Some (lit "DLP is disabled")
  else
    let by_type :=
      match content_type with
      | Some ct =>
          let ct := to_ascii_lowercase ct in
          if starts_with_any ct ["text/event-stream"; "application/grpc"; "application/x-ndjson";
                                 "application/json-seq"; "application/stream+json"]
          then Some (lit "Streaming response was not transformed")
          else if starts_with_any ct BINARY_TYPES
          then Some (lit "Binary response was not transformed")
          else None
      | None => None
      end in
    match by_type with
    | Some r => Some r
    | None =>
        let enc := to_ascii_lowercase (trim (default [] content_encoding)) in
        if is_empty enc || one_of enc ["identity"; "gzip"; "x-gzip"; "deflate"; "br"; "brotli"; "x-br"]
        then None
        else Some (lit "Unsupported response encoding was not transformed")
    end.

(** [src/dlp.rs: fn can_inspect] *)
Definition can_inspect (env : Env) (content_type content_encoding : option bytes) : bool :=
  match skip_reason env content_type content_encoding with None => true | Some _ => false end.

(** ** Check digits *)

(** [src/dlp.rs: fn mask_digits] *)
Definition mask_digits (raw : bytes) : bytes := map (fun c => if is_ascii_digit c then 42 else c) raw.

(** [src/dlp.rs: fn digits_only] *)
Definition digits_only (raw : bytes) : list Z :=
  map (fun c => c - 48) (base.filter (fun c => is_ascii_digit c = true) raw).

(** [src/dlp.rs: fn all_same] *)
Definition all_same (digits : list Z) : bool :=
  match digits with [] => false | first :: _ => forallb (Z.eqb first) digits end.

Fixpoint weighted_sum (weight : Z) (digits : list Z) : Z :=
  match digits with [] => 0 | d :: r => d * weight + weighted_sum (weight - 1) r end.

Definition check_digit (sum : Z) : Z :=
  let rem := sum mod 11 in if rem <? 2 then 0 else 11 - rem.

(** [src/dlp.rs: fn mod11] *)
Definition mod11 (digits : list Z) (start_weight : Z) : Z := check_digit (weighted_sum start_weight digits).

Fixpoint cnpj_sum (weight : Z) (digits : list Z) : Z :=
  match digits with
  | [] => 0
  | d :: r => d * weight + cnpj_sum (if weight =? 2 then 9 else weight - 1) r
  end.

(** [src/dlp.rs: fn cnpj_check] *)
Definition cnpj_check (digits : list Z) (first_weight : Z) : Z := check_digit (cnpj_sum first_weight digits).

(** [src/dlp.rs: fn cpf_valid] *)
Definition cpf_valid (digits : list Z) : bool :=
  if negb (len digits =? 11) || all_same digits then false
  else (nth 9 digits 0 =? mod11 (take 9 digits) 10) && (nth 10 digits 0 =? mod11 (take 10 digits) 11).

(** [src/dlp.rs: fn cnpj_valid] *)
Definition cnpj_valid (digits : list Z) : bool :=
  if negb (len digits =? 14) || all_same digits then false
  else (nth 12 digits 0 =? cnpj_check (take 12 digits) 5)
       && (nth 13 digits 0 =? cnpj_check (take 13 digits) 6).

Definition luhn_term (double : bool) (digit : Z) : Z :=
  if double then (let n := digit * 2 in if 9 <? n then n - 9 else n) else digit.

Fixpoint luhn_sum (double : bool) (digits : list Z) : Z :=
  match digits with [] => 0 | d :: r => luhn_term double d + luhn_sum (negb double) r end.

(** [src/dlp.rs: fn luhn] *)
Definition luhn (digits : list Z) : bool := luhn_sum false (rev digits) mod 10 =? 0.

(** [src/dlp.rs: fn card_valid] *)
Definition card_valid (digits : list Z) : bool :=
  in_range 13 19 (len digits) && negb (all_same digits) && luhn digits.

(** [src/dlp.rs: Detector::matches] *)
Definition detector_matches (d : Detector) (raw : bytes) : bool :=
  let digits := digits_only raw in
  match d with Cpf => cpf_valid digits | Cnpj => cnpj_valid digits | Card => card_valid digits end.

(** ** Cards in text *)

Definition is_sep (b : Z) : bool := (b =? 32) || (b =? 45).
Definition head_digit (s : bytes) : bool := match s with b :: _ => is_ascii_digit b | [] => false end.

(** [src/dlp.rs: fn card_run_end] The length of the run at the front of the rest of the text. *)
Fixpoint card_run_end (s : bytes) : nat :=
  match s with
  | b :: r => if is_ascii_digit b || (is_sep b && head_digit r) then S (card_run_end r) else 0%nat
  | [] => 0%nat
  end.

Fixpoint best_loop (run : bytes) (digits : list Z) (k : nat) (best : option nat) : option nat :=
  match run with
  | [] => best
  | b :: rest =>
      if is_ascii_digit b then
        let digits := digits ++ [b - 48] in
        let found := in_range 13 19 (len digits) && card_valid digits && negb (head_digit rest) in
        best_loop rest digits (S k) (if found then Some (S k) else best)
      else if is_sep b then best_loop rest digits (S k) best
      else best
  end.

(** [src/dlp.rs: fn best_card_end] The length of the card at the front of a run. *)
Definition best_card_end (run : bytes) : option nat := best_loop run [] 0 None.

(** [src/dlp.rs: fn is_json_number_token] The token between [before] and [after]. *)
Definition is_json_number_token (before token after : bytes) : bool :=
  forallb is_ascii_digit token
  && match last (trim_end before) with Some c => existsb (Z.eqb c) [58; 91; 44] | None => false end
  && match head (trim_start after) with Some c => existsb (Z.eqb c) [44; 125; 93] | None => true end.

(** The loop on the rest [s] of the text after [before]; [None] when the fuel runs out. *)
Fixpoint mask_cards_loop (fuel : nat) (json_body : bool) (before s : bytes) : option (bytes * Z) :=
  match fuel with
  | O => None
  | S fuel =>
      match s with
      | [] => Some ([], 0)
      | b :: r =>
          if negb (is_ascii_digit b) then
            '(out, n) ← mask_cards_loop fuel json_body (before ++ [b]) r; Some (b :: out, n)
          else
            let run := take (card_run_end s) s in
            match best_card_end run with
            | Some e =>
                let card := take e s in
                let rest := drop e s in
                let quote := if json_body && is_json_number_token before card rest then [34] else [] in
                '(out, n) ← mask_cards_loop fuel json_body (before ++ card) rest;
                Some (quote ++ mask_digits card ++ quote ++ out, n + 1)
            | None =>
                '(out, n) ← mask_cards_loop fuel json_body (before ++ run) (drop (length run) s);
                Some (run ++ out, n)
            end
      end
  end.

(** [src/dlp.rs: fn mask_cards] *)
Definition mask_cards (text : bytes) (json_body : bool) : option (bytes * Z) :=
  mask_cards_loop (S (length text)) json_body [] text.

(** ** Response bodies *)

(** [src/dlp.rs: struct Hits] *)
Record Hits : Type := { h_cpf : Z; h_cnpj : Z; h_card : Z; h_bearer : Z; h_fields : list bytes }.
Definition no_hits : Hits := {| h_cpf := 0; h_cnpj := 0; h_card := 0; h_bearer := 0; h_fields := [] |}.

(** [src/dlp.rs: Hits::add] *)
Definition hits_add (a b : Hits) : Hits := {|
  h_cpf := h_cpf a + h_cpf b; h_cnpj := h_cnpj a + h_cnpj b; h_card := h_card a + h_card b;
  h_bearer := h_bearer a + h_bearer b; h_fields := h_fields a ++ h_fields b |}.

(** [src/dlp.rs: Hits::bump_detector] *)
Definition bump_detector (d : Detector) (h : Hits) : Hits :=
  hits_add h match d with
             | Cpf => {| h_cpf := 1; h_cnpj := 0; h_card := 0; h_bearer := 0; h_fields := [] |}
             | Cnpj => {| h_cpf := 0; h_cnpj := 1; h_card := 0; h_bearer := 0; h_fields := [] |}
             | Card => {| h_cpf := 0; h_cnpj := 0; h_card := 1; h_bearer := 0; h_fields := [] |}
             end.

(** [src/dlp.rs: Hits::any] *)
Definition hits_any (h : Hits) : bool :=
  (0 <? h_cpf h) || (0 <? h_cnpj h) || (0 <? h_card h) || (0 <? h_bearer h).

(** [src/dlp.rs: struct DlpResult] *)
Record DlpResult : Type := { r_bytes : bytes; inspection_complete : bool; r_hits : Hits }.

(** [src/dlp.rs: DlpResult::passthrough] *)
Definition passthrough (body : bytes) (complete : bool) : DlpResult :=
  {| r_bytes := body; inspection_complete := complete; r_hits := no_hits |}.

(** [src/dlp.rs: DlpResult::found_sensitive] *)
Definition found_sensitive (r : DlpResult) : bool := hits_any (r_hits r).

(** [src/dlp.rs: fn is_json] *)
Definition is_json (content_type : option bytes) : bool :=
  match content_type with
  | None => false
  | Some ct => let mime := to_ascii_lowercase (trim (before 59 ct)) in
               (mime =s "application/json") || ends_with mime "+json"
  end.

Fixpoint replace_member (key : bytes) (f : JsonValue -> JsonValue) (members : list (bytes * JsonValue))
  : list (bytes * JsonValue) :=
  match members with
  | [] => []
  | (k, v) :: rest => if k =s key then (k, f v) :: rest else (k, v) :: replace_member key f rest
  end.

(** [src/dlp.rs: fn navigate_mut] The value at the end of the path. *)
Fixpoint navigate (root : JsonValue) (segs : list bytes) : option JsonValue :=
  match segs with
  | [] => Some root
  | s :: segs => match root with
                 | JObject members => v ← get_member s members; navigate v segs
                 | _ => None
                 end
  end.

(** [*target = new] at the end of the path. *)
Fixpoint set_at (root : JsonValue) (segs : list bytes) (new : JsonValue) : JsonValue :=
  match segs with
  | [] => new
  | s :: segs => match root with
                 | JObject members => JObject (replace_member s (fun v => set_at v segs new) members)
                 | v => v
                 end
  end.

(** One field of [apply_fields]. *)
Definition apply_field (action : DlpAction) (field : DlpField) (st : JsonValue * Hits * bool)
  : JsonValue * Hits * bool :=
  let '(value, hits, mutated) := st in
  match navigate value (segments field) with
  | Some (JString raw) | Some (JNumber raw) =>
      if negb (detector_matches (detector field) raw) then st
      else
        let hits := bump_detector (detector field) hits in
        let hits := hits_add hits {| h_cpf := 0; h_cnpj := 0; h_card := 0; h_bearer := 0;
                                     h_fields := [field_raw field] |} in
        if bool_decide (action = DRedact)
        then (set_at value (segments field) (JString (mask_digits raw)), hits, true)
        else (value, hits, mutated)
  | _ => st
  end.

(** [src/dlp.rs: fn apply_fields] The value after masking, the hits, and whether it changed. *)
Definition apply_fields (value : JsonValue) (fields : list DlpField) (action : DlpAction)
  : JsonValue * Hits * bool :=
  fold_left (fun st field => apply_field action field st) fields (value, no_hits, false).

(** [RE.replace_all(text, f)] with the number of hits [f] reports. *)
Fixpoint replace_hits (f : bytes -> bytes * Z) (l : list (bytes * bytes)) (rest : bytes) : bytes * Z :=
  match l with
  | [] => (rest, 0)
  | (gap, hit) :: l =>
      let '(new, n) := f hit in
      let '(out, m) := replace_hits f l rest in
      (gap ++ new ++ out, n + m)
  end.
Definition replace_all (m : Matches) (f : bytes -> bytes * Z) : bytes * Z := replace_hits f m.1 m.2.

(** What a call of [sanitize_body_with] reports to [metrics::record_dlp]. *)
Record DlpEvent : Type := { de_hits : Hits; de_verb : bytes }.

Section Engine.
Context {E : DlpEngine} {J : SerdeJson} {U : UnicodeCase}.

(** [src/dlp.rs: fn redact_blob] *)
Definition redact_blob (text : bytes) (json_body : bool) : option (bytes * Hits) :=
  let '(after_cpf, cpf) := replace_all (cpf_re text) (fun matched =>
    if cpf_valid (digits_only matched) then (mask_digits matched, 1) else (matched, 0)) in
  let '(after_cnpj, cnpj) := replace_all (cnpj_re after_cpf) (fun matched =>
    if cnpj_valid (digits_only matched) then (mask_digits matched, 1) else (matched, 0)) in
  '(after_card, card) ← mask_cards after_cnpj json_body;
  let '(after_bearer, bearer) := replace_all (bearer_re after_card)
    (fun _ => (lit "Bearer [REDACTED]", 1)) in
  Some (after_bearer, {| h_cpf := cpf; h_cnpj := cnpj; h_card := card; h_bearer := bearer;
                         h_fields := [] |}).

(** [src/dlp.rs: fn sanitize_body_with] *)
Definition sanitize_body_with (env : Env) (body : bytes) (content_type : option bytes)
    (action : DlpAction) (fields : list DlpField) : option (DlpResult * list DlpEvent) :=
  if negb (is_enabled env) then Some (passthrough body true, [])
  else if match content_type with
          | Some ct => starts_with_any (to_lowercase ct) BINARY_TYPES
          | None => false
          end
  then Some (passthrough body true, [])
  else if negb (is_utf8 body) then Some (passthrough body true, [])
  else
    let '(working, field_hits) :=
      if negb (is_empty fields) && is_json content_type then
        match json_from_str body with
        | Some value =>
            let '(value, hits, mutated) := apply_fields value fields action in
            if mutated then (default body (json_to_string value), hits) else (body, hits)
        | None => (body, no_hits)
        end
      else (body, no_hits) in
    '(redacted, blob_hits) ← redact_blob working (is_json content_type);
    let hits := hits_add field_hits blob_hits in
    let events := if hits_any hits then [{| de_hits := hits; de_verb := record_verb action |}] else [] in
    Some ({| r_bytes := if bool_decide (action = DRedact) then redacted else body;
             inspection_complete := true; r_hits := hits |}, events).

Definition codec_of (encoding : bytes) : option Codec :=
  if one_of encoding ["gzip"; "x-gzip"] then Some Gzip
  else if encoding =s "deflate" then Some Deflate
  else if one_of encoding ["br"; "brotli"; "x-br"] then Some Brotli
  else None.

(** [src/dlp.rs: fn read_bounded] *)
Definition read_bounded (c : Codec) (body : bytes) (limit : Z) : option bytes :=
  output ← decode_stream c body (saturating_add usize_max limit 1);
  if limit <? len output then None else Some output.

(** [src/dlp.rs: fn sanitize_encoded_body_with] *)
Definition sanitize_encoded_body_with (env : Env) (body : bytes)
    (content_type content_encoding : option bytes) (max_inflated : Z) (action : DlpAction)
    (fields : list DlpField) : option (DlpResult * list DlpEvent) :=
  let encoding := to_ascii_lowercase (trim (default [] content_encoding)) in
  if is_empty encoding || (encoding =s "identity")
  then sanitize_body_with env body content_type action fields
  else match (c ← codec_of encoding; decoded ← read_bounded c body max_inflated; Some (c, decoded)) with
  | None => Some (passthrough body false, [])
  | Some (c, decoded) =>
      '(inspected, events) ← sanitize_body_with env decoded content_type action fields;
      if r_bytes inspected =s decoded
      then Some ({| r_bytes := body; inspection_complete := true; r_hits := r_hits inspected |}, events)
      else match encode_stream c (r_bytes inspected) with
           | Some encoded =>
               Some ({| r_bytes := encoded; inspection_complete := true; r_hits := r_hits inspected |}, events)
           | None =>
               Some ({| r_bytes := body; inspection_complete := false; r_hits := r_hits inspected |}, events)
           end
  end.
End Engine.

(** ** Properties: cards *)

Lemma digits_only_app a b : digits_only (a ++ b) = digits_only a ++ digits_only b.
Proof. unfold digits_only. by rewrite filter_app, map_app. Qed.

Lemma digits_only_one b : digits_only [b] = if is_ascii_digit b then [b - 48] else [].
Proof. unfold digits_only. rewrite filter_cons. by destruct (is_ascii_digit b). Qed.

Lemma card_run_end_le s : (card_run_end s <= length s)%nat.
Proof. induction s as [|b s IH]; simpl; [lia|]. destruct (_ || _); lia. Qed.

(** What [best_card_end] finds is a prefix of the run whose digits are a valid card. *)
Lemma best_loop_spec run0 run : forall pre best,
  run0 = pre ++ run ->
  (forall e, best = Some e -> (0 < e <= length pre)%nat /\ card_valid (digits_only (take e run0)) = true) ->
  forall e, best_loop run (digits_only pre) (length pre) best = Some e ->
  (0 < e <= length run0)%nat /\ card_valid (digits_only (take e run0)) = true.
Proof.
  induction run as [|b run IH]; intros pre best Hrun Hbest e; cbn [best_loop].
  - intros ->. destruct (Hbest e eq_refl). rewrite Hrun, app_nil_r. rewrite Hrun, app_nil_r in *. auto.
  - assert (Hp : run0 = (pre ++ [b]) ++ run) by (rewrite Hrun, <- app_assoc; done).
    assert (Hln : length (pre ++ [b]) = S (length pre)) by (rewrite length_app; simpl; lia).
    assert (Hold : forall e0, best = Some e0 -> (0 < e0 <= S (length pre))%nat
      /\ card_valid (digits_only (take e0 run0)) = true).
    { intros e0 He0. destruct (Hbest e0 He0). split; [lia|done]. }
    assert (Hfin : forall bst, best = bst -> bst = Some e ->
      (0 < e <= length run0)%nat /\ card_valid (digits_only (take e run0)) = true).
    { intros ? <- He0. destruct (Hbest e He0) as [? ?]. split; [|done]. rewrite Hrun, length_app. lia. }
    destruct (is_ascii_digit b) eqn:Ed.
    + specialize (IH (pre ++ [b])). rewrite digits_only_app, digits_only_one, Ed, Hln in IH.
      apply IH; [done|]. intros e0. destruct (in_range 13 19 _ && card_valid _ && _) eqn:Ef; [|apply Hold].
      intros [= <-]. split; [lia|]. apply andb_true_iff in Ef as [[_ Hc]%andb_true_iff _].
      rewrite Hp, <- Hln, take_app_length, digits_only_app, digits_only_one, Ed. done.
    + destruct (is_sep b); [|by apply Hfin].
      specialize (IH (pre ++ [b])). rewrite digits_only_app, digits_only_one, Ed, app_nil_r, Hln in IH.
      apply IH; done.
Qed.

Lemma best_card_end_spec run e : best_card_end run = Some e ->
  (0 < e <= length run)%nat /\ card_valid (digits_only (take e run)) = true.
Proof. apply (best_loop_spec run run [] None); done. Qed.

Lemma run_length s : length (take (card_run_end s) s) = card_run_end s.
Proof. rewrite length_take. pose proof (card_run_end_le s). lia. Qed.

Lemma mask_cards_loop_total fuel json : forall before s, (length s < fuel)%nat ->
  is_Some (mask_cards_loop fuel json before s).
Proof.
  induction fuel as [|fuel IH]; intros before s Hl; [lia|]. cbn [mask_cards_loop].
  destruct s as [|b r]; [by eexists|]. destruct (is_ascii_digit b) eqn:Ed; cbn [negb].
  - destruct (best_card_end _) as [e|] eqn:Eb.
    + apply best_card_end_spec in Eb as [He _].
      destruct (IH (before ++ take e (b :: r)) (drop e (b :: r))) as [[o n] ->]; [|by eexists].
      rewrite length_drop. simpl in *. lia.
    + destruct (IH (before ++ take (card_run_end (b :: r)) (b :: r))
        (drop (length (take (card_run_end (b :: r)) (b :: r))) (b :: r))) as [[o n] ->]; [|by eexists].
      rewrite length_drop, run_length. cbn [card_run_end]. rewrite Ed. simpl in *. lia.
  - destruct (IH (before ++ [b]) r) as [[o n] ->]; [simpl in Hl; lia|by eexists].
Qed.

(** How a masked text relates to the original: bytes kept, and valid cards masked. *)
Inductive masked : bytes -> bytes -> Z -> Prop :=
| masked_nil : masked [] [] 0
| masked_keep b s o n : masked s o n -> masked (b :: s) (b :: o) n
| masked_card c s o n : card_valid (digits_only c) = true -> masked s o n ->
    masked (c ++ s) (mask_digits c ++ o) (n + 1).

Lemma masked_run run s o n : masked s o n -> masked (run ++ s) (run ++ o) n.
Proof. intros H. induction run as [|b run IH]; [done|]. by constructor. Qed.

Lemma mask_cards_loop_masked fuel : forall before s out n,
  mask_cards_loop fuel false before s = Some (out, n) -> masked s out n.
Proof.
  induction fuel as [|fuel IH]; intros before s out n; cbn [mask_cards_loop]; [done|].
  destruct s as [|b r]; [intros [= <- <-]; constructor|].
  destruct (negb (is_ascii_digit b)).
  - destruct (mask_cards_loop fuel false _ r) as [[o m]|] eqn:E; [|done]. intros [= <- <-].
    constructor. by eapply IH.
  - destruct (best_card_end _) as [e|] eqn:Eb.
    + destruct (mask_cards_loop fuel false _ (drop e _)) as [[o m]|] eqn:E; [|done]. simpl.
      intros [= <- <-]. rewrite <- (take_drop e (b :: r)) at 1. constructor; [|by eapply IH].
      apply best_card_end_spec in Eb as [He Hc]. rewrite run_length in He.
      rewrite take_take, Nat.min_l in Hc by lia. exact Hc.
    + destruct (mask_cards_loop fuel false _ (drop _ _)) as [[o m]|] eqn:E; [|done]. simpl.
      intros [= <- <-]. rewrite <- (take_drop (card_run_end (b :: r)) (b :: r)) at 1.
      apply masked_run. rewrite run_length in E. by eapply IH.
Qed.

(** *** Nothing is left to mask *)

Definition settled (s : bytes) : Prop :=
  forall fuel before, (length s < fuel)%nat -> mask_cards_loop fuel false before s = Some (s, 0).

Lemma settled_nondigits l s : forallb (fun b => negb (is_ascii_digit b)) l = true -> settled s ->
  settled (l ++ s).
Proof.
  induction l as [|b l IH]; [done|]. simpl. intros [Hb Hl]%andb_true_iff Hs fuel before Hf.
  destruct fuel as [|fuel]; [lia|]. cbn [mask_cards_loop app]. rewrite Hb.
  rewrite (IH Hl Hs); [done|]. simpl in Hf. lia.
Qed.

Lemma mask_digits_nondigits c : forallb (fun b => negb (is_ascii_digit b)) (mask_digits c) = true.
Proof.
  induction c as [|b c IH]; [done|]. simpl. rewrite IH, andb_true_r.
  by destruct (is_ascii_digit b) eqn:E; [|rewrite E].
Qed.

(** The first byte of a masked text tells whether it can extend a run before it. *)
Definition extends (s : bytes) : bool :=
  match s with b :: r => is_ascii_digit b || (is_sep b && head_digit r) | [] => false end.

Lemma card_run_end_rest s : extends (drop (card_run_end s) s) = false.
Proof.
  induction s as [|b s IH]; [done|]. cbn [card_run_end].
  destruct (is_ascii_digit b || (is_sep b && head_digit s)) eqn:E; [done|]. simpl. exact E.
Qed.

Lemma card_run_end_app run s : extends s = false -> card_run_end run = length run ->
  card_run_end (run ++ s) = length run.
Proof.
  intros Hs. induction run as [|b run IH]; cbn [app card_run_end length].
  - intros _. destruct s as [|c s]; [done|]. simpl in Hs |- *. by rewrite Hs.
  - destruct (is_ascii_digit b || (is_sep b && head_digit run)) eqn:E; [|done]. intros [= H].
    assert (E' : is_ascii_digit b || (is_sep b && head_digit (run ++ s)) = true).
    { destruct run; [simpl in E; rewrite andb_false_r, orb_false_r in E; by rewrite E|exact E]. }
    rewrite E'. by rewrite IH.
Qed.

Lemma card_run_end_take s : card_run_end (take (card_run_end s) s) = card_run_end s.
Proof.
  induction s as [|b s IH]; [done|]. cbn [card_run_end].
  destruct (is_ascii_digit b || (is_sep b && head_digit s)) eqn:E; [|done].
  cbn [take card_run_end]. rewrite IH.
  assert (Hh : head_digit (take (card_run_end s) s) = head_digit s).
  { destruct s as [|c s]; [done|]. cbn [card_run_end head_digit]. destruct (is_ascii_digit c) eqn:Ec; simpl.
    - by rewrite Ec.
    - destruct (is_sep c && head_digit s); simpl; by rewrite ?Ec. }
  by rewrite Hh, E.
Qed.

Lemma mask_head_digit fuel before s out n : head_digit s = false ->
  mask_cards_loop fuel false before s = Some (out, n) -> head_digit out = false.
Proof.
  intros Hs. destruct fuel as [|fuel]; [done|]. cbn [mask_cards_loop].
  destruct s as [|b r]; [by intros [= <- _]|]. simpl in Hs. rewrite Hs. cbn [negb].
  destruct (mask_cards_loop fuel false _ r) as [[o m]|]; [|done]. by intros [= <- _].
Qed.

Lemma mask_extends fuel before s out n : extends s = false ->
  mask_cards_loop fuel false before s = Some (out, n) -> extends out = false.
Proof.
  intros Hs. destruct fuel as [|fuel]; [done|]. cbn [mask_cards_loop].
  destruct s as [|b r]; [by intros [= <- _]|]. cbn [extends] in Hs.
  apply orb_false_iff in Hs as [Hb Hs]. rewrite Hb. cbn [negb].
  destruct (mask_cards_loop fuel false _ r) as [[o m]|] eqn:E; [|done]. intros [= <- _].
  cbn [extends]. rewrite Hb. simpl. apply andb_false_iff in Hs as [->|Hs]; [done|].
  by rewrite (mask_head_digit _ _ _ _ _ Hs E), andb_false_r.
Qed.

Lemma settled_run run s : head_digit run = true -> card_run_end run = length run ->
  best_card_end run = None -> extends s = false -> settled s -> settled (run ++ s).
Proof.
  intros Hh Hr Hb He Hs fuel before Hf. destruct fuel as [|fuel]; [lia|]. cbn [mask_cards_loop].
  destruct run as [|b r]; [done|]. simpl in Hh. cbn [app]. rewrite Hh. cbn [negb].
  change (b :: r ++ s) with ((b :: r) ++ s). rewrite (card_run_end_app _ _ He Hr), take_app_length, Hb.
  rewrite drop_app_length, Hs; [done|]. simpl in Hf. rewrite length_app in Hf. lia.
Qed.

Lemma mask_cards_loop_settled fuel : forall before s out n,
  mask_cards_loop fuel false before s = Some (out, n) -> settled out.
Proof.
  induction fuel as [|fuel IH]; intros before s out n; cbn [mask_cards_loop]; [done|].
  destruct s as [|b r]; [intros [= <- <-]; intros f ? Hf; destruct f; [simpl in Hf; lia|done]|].
  destruct (is_ascii_digit b) eqn:Ed; cbn [negb].
  - destruct (best_card_end _) as [e|] eqn:Eb.
    + destruct (mask_cards_loop fuel false _ (drop e _)) as [[o m]|] eqn:E; [|done]. simpl.
      intros [= <- <-]. apply settled_nondigits; [apply mask_digits_nondigits|by eapply IH].
    + destruct (mask_cards_loop fuel false _ (drop _ _)) as [[o m]|] eqn:E; [|done].
      set (run := take (card_run_end (b :: r)) (b :: r)) in *. intros [= <- <-]. apply settled_run.
      * subst run. cbn [card_run_end]. rewrite Ed. simpl. done.
      * subst run. rewrite run_length. apply card_run_end_take.
      * done.
      * eapply mask_extends; [|exact E]. subst run. rewrite run_length. apply card_run_end_rest.
      * by eapply IH.
  - destruct (mask_cards_loop fuel false _ r) as [[o m]|] eqn:E; [|done]. intros [= <- <-].
    apply (settled_nondigits [b]); [simpl; by rewrite Ed|by eapply IH].
Qed.

(** Masking the cards of a text always ends; it replaces the digits of [n] groups, each a
    number of 13 to 19 digits that passes the Luhn check, and keeps every other byte; a
    second pass finds nothing more. *)
Theorem mask_cards_correct (text : bytes) :
  exists out n, mask_cards text false = Some (out, n)
    /\ masked text out n /\ mask_cards out false = Some (out, 0).
Proof.
  destruct (mask_cards_loop_total (S (length text)) false [] text) as [[out n] E]; [lia|].
  exists out, n. split; [done|]. split; [by eapply mask_cards_loop_masked|].
  apply (mask_cards_loop_settled _ _ _ _ _ E). lia.
Qed.

(** A run is searched from its first digit only: a card that follows another number and a
    space is not found. *)
Example mask_cards_misses_second_group :
  mask_cards "card 4111 1111 1111 1111" false = Some (lit "card **** **** **** ****", 1)
  /\ mask_cards "order 12 4111 1111 1111 1111" false = Some (lit "order 12 4111 1111 1111 1111", 0).
Proof. by split; vm_compute. Qed.

(** *** The Luhn check detects a changed digit *)

Definition digit (d : Z) : Prop := 0 <= d <= 9.

Lemma luhn_term_inj double a b : digit a -> digit b -> luhn_term double a = luhn_term double b -> a = b.
Proof.
  unfold digit, luhn_term. intros Ha Hb. destruct double; [|done].
  destruct (Z.ltb_spec 9 (a * 2)), (Z.ltb_spec 9 (b * 2)); lia.
Qed.

Lemma luhn_term_range double a : digit a -> 0 <= luhn_term double a <= 9.
Proof.
  unfold digit, luhn_term. intros Ha. destruct double; [|lia]. destruct (Z.ltb_spec 9 (a * 2)); lia.
Qed.

Lemma luhn_sum_app l1 l2 double : luhn_sum double (l1 ++ l2)
  = luhn_sum double l1 + luhn_sum (xorb double (Nat.odd (length l1))) l2.
Proof.
  revert double. induction l1 as [|d l1 IH]; intros double; [by destruct double|].
  cbn [app luhn_sum length]. rewrite IH, Nat.odd_succ, <- Nat.negb_odd.
  replace (xorb (negb double) (Nat.odd (length l1))) with (xorb double (negb (Nat.odd (length l1))))
    by by destruct double, (Nat.odd (length l1)). lia.
Qed.

(** Two numbers that differ in one digit never both pass the Luhn check, so a mistyped
    card number is not taken for a card. *)
Theorem luhn_detects_substitution (l1 l2 : list Z) (a b : Z) :
  digit a -> digit b -> luhn (l1 ++ a :: l2) = true -> luhn (l1 ++ b :: l2) = true -> a = b.
Proof.
  intros Ha Hb. unfold luhn. rewrite !rev_app_distr. simpl rev. rewrite <- !app_assoc. simpl.
  rewrite !luhn_sum_app. cbn [luhn_sum].
  set (dbl := xorb false (Nat.odd (length (rev l2)))). set (x := luhn_sum false (rev l2)).
  set (y := luhn_sum (negb dbl) (rev l1)). rewrite !Z.eqb_eq. intros H1 H2.
  pose proof (luhn_term_range dbl a Ha). pose proof (luhn_term_range dbl b Hb).
  apply (luhn_term_inj dbl); [done|done|].
  pose proof (Z.div_mod (x + (luhn_term dbl a + y)) 10 ltac:(lia)).
  pose proof (Z.div_mod (x + (luhn_term dbl b + y)) 10 ltac:(lia)). lia.
Qed.

Lemma luhn_detects_substitution_witness :
  luhn (digits_only "4111111111111111") = true /\ (luhn (digits_only "4111111111111112") = true -> 1 = 2).
Proof.
  split; [reflexivity|]. intros H.
  apply (luhn_detects_substitution (digits_only "411111111111111") [] 1 2); try (unfold digit; lia);
    [reflexivity|exact H].
Defined.

(** ** Properties: JSON paths *)

Definition path_segment (seg : bytes) : Prop :=
  forallb is_path_byte seg = true /\ 1 <= len seg <= 64.

(** The text of a path. *)
Definition show_segments (segs : list bytes) : bytes := flat_map (fun seg => 46 :: seg) segs.
Definition show_path (segs : list bytes) : bytes := 36 :: show_segments segs.

Lemma segments_loop_show segs : forall fuel n,
  Forall path_segment segs -> 0 <= n -> n + len segs <= 16 -> (length (show_segments segs) <= fuel)%nat ->
  segments_loop fuel n (show_segments segs) = Ok segs.
Proof.
  induction segs as [|seg segs IH]; intros fuel n Hs Hn Hc Hf; [by destruct fuel|].
  apply Forall_cons in Hs as [[Hb Hl] Hs]. cbn [show_segments flat_map] in *. fold (show_segments segs) in *.
  destruct fuel as [|fuel]; [simpl in Hf; lia|]. cbn [segments_loop app].
  rewrite Z.eqb_refl. cbn [negb]. unfold take_segment. rewrite span_app; [|done|by destruct segs].
  assert (E : is_empty seg = false) by (destruct seg; [rewrite len_nil in Hl; lia|done]). rewrite E.
  rewrite (proj2 (Z.ltb_ge 64 (len seg))) by lia. cbn [orb].
  rewrite len_cons in Hc. pose proof (len_nonneg segs).
  rewrite (proj2 (Z.ltb_ge 16 (n + 1))) by lia.
  rewrite IH; [done|done|lia|lia|]. simpl in Hf. rewrite length_app in Hf. lia.
Qed.

Lemma segments_loop_spec fuel : forall n s segs, (length s <= fuel)%nat ->
  segments_loop fuel n s = Ok segs ->
  s = show_segments segs /\ Forall path_segment segs /\ (segs = [] \/ n + len segs <= 16).
Proof.
  induction fuel as [|fuel IH]; intros n s segs Hf.
  - destruct s; [|simpl in Hf; lia]. intros [= <-]. split_and!; [done|constructor|by left].
  - destruct s as [|b r]; cbn [segments_loop]; [intros [= <-]; split_and!; [done|constructor|by left]|].
    destruct (Z.eqb_spec b 46) as [->|]; [|done]. cbn [negb].
    destruct (take_segment r) as [seg rest] eqn:Et.
    destruct (is_empty seg || (64 <? len seg)) eqn:Eg; [done|].
    destruct (Z.ltb_spec 16 (n + 1)); [done|]. unfold mbind, result_bind.
    destruct (segments_loop fuel (n + 1) rest) as [segs'|] eqn:El; [|done]. intros [= <-].
    pose proof (span_shrinks is_path_byte r) as Hr. unfold take_segment in Et. rewrite Et in Hr. cbn [snd] in Hr.
    apply span_spec in Et as (-> & Hb & _).
    apply IH in El as (-> & Hs & Hc); [|simpl in Hf; lia].
    apply orb_false_iff in Eg as [Ee Eg%Z.ltb_ge].
    split_and!; [done| |right; rewrite len_cons; destruct Hc as [->|Hc]; rewrite ?len_nil; lia].
    constructor; [|done]. split; [done|]. destruct seg; [done|]. rewrite len_cons in *. pose proof (len_nonneg seg). lia.
Qed.

(** A DLP field path parses exactly when, white space at its ends apart, it is a dollar
    sign and 1 to 16 segments, each a dot and 1 to 64 letters, digits, underscores and
    hyphens; the segments are those written. *)
Theorem parse_json_path_iff (raw : bytes) (segs : list bytes) :
  parse_json_path raw = Ok segs
  <-> trim raw = show_path segs /\ Forall path_segment segs /\ 1 <= len segs <= 16.
Proof.
  unfold parse_json_path, show_path, ok_or, mbind, result_bind. split.
  - destruct (trim raw) as [|c rest] eqn:Et; [done|].
    destruct (strip_prefix [36] (c :: rest)) as [rest'|] eqn:Ep; [|done].
    cbn [strip_prefix] in Ep. destruct (Z.eqb_spec 36 c) as [<-|]; [|done]. injection Ep as <-.
    destruct (is_empty rest) eqn:Ee; [done|].
    destruct (segments_loop (length rest) 0 rest) as [segs'|] eqn:El; [|done].
    destruct (is_empty segs') eqn:Eg; [done|]. intros [= <-].
    apply segments_loop_spec in El as (-> & Hs & Hc); [|lia].
    destruct Hc as [->|Hc]; [done|]. split_and!; [done|done| |lia].
    destruct segs'; [done|]. rewrite len_cons. pose proof (len_nonneg segs'). lia.
  - intros (-> & Hs & Hc). destruct segs as [|seg segs]; [rewrite len_nil in Hc; lia|].
    cbn [strip_prefix]. rewrite Z.eqb_refl.
    set (l := seg :: segs) in *.
    assert (Ee : is_empty (show_segments l) = false) by done. rewrite Ee.
    rewrite segments_loop_show; [done|done|lia|lia|lia].
Qed.

(** ** Properties: bodies *)

Section EngineProperties.
Context {E : DlpEngine} {J : SerdeJson} {U : UnicodeCase}.

Lemma redact_blob_total text json : is_Some (redact_blob text json).
Proof.
  unfold redact_blob, mbind, option_bind. destruct (replace_all (cpf_re text) _) as [a cpf].
  destruct (replace_all (cnpj_re a) _) as [b cnpj].
  destruct (mask_cards_loop_total (S (length b)) json [] b) as [[c card] Hc]; [lia|].
  unfold mask_cards. rewrite Hc. destruct (replace_all (bearer_re c) _) as [d bearer]. by eexists.
Qed.

(** What every result promises. *)
Definition dlp_contract (body : bytes) (action : DlpAction) (res : DlpResult * list DlpEvent) : Prop :=
  (action <> DRedact -> r_bytes res.1 = body)
  /\ (inspection_complete res.1 = false -> r_bytes res.1 = body)
  /\ (found_sensitive res.1 = false -> res.2 = [])
  /\ (found_sensitive res.1 = true ->
      res.2 = [{| de_hits := r_hits res.1; de_verb := record_verb action |}]).

Lemma passthrough_contract body complete action : dlp_contract body action (passthrough body complete, []).
Proof. by split_and!. Qed.

Lemma sanitize_body_contract env body content_type action fields :
  exists res, sanitize_body_with env body content_type action fields = Some res
    /\ dlp_contract body action res.
Proof.
  unfold sanitize_body_with.
  destruct (negb (is_enabled env)); [eexists; split; [done|apply passthrough_contract]|].
  destruct (match content_type with Some _ => _ | None => _ end);
    [eexists; split; [done|apply passthrough_contract]|].
  destruct (negb (is_utf8 body)); [eexists; split; [done|apply passthrough_contract]|].
  match goal with |- context [let '(working, field_hits) := ?e in _] => destruct e as [working hits] end.
  destruct (redact_blob_total working (is_json content_type)) as [[redacted blob] Hr].
  unfold mbind, option_bind. rewrite Hr.
  set (h := hits_add hits blob). eexists. split; [reflexivity|].
  split_and!; cbn [fst snd r_bytes inspection_complete].
  - intros Ha. by rewrite bool_decide_eq_false_2.
  - done.
  - unfold found_sensitive. cbn [r_hits]. by intros ->.
  - unfold found_sensitive. cbn [r_hits]. by intros ->.
Qed.

(** Sanitizing a response always gives a result.  Monitoring and blocking leave the bytes
    of the body as they came, and so does an inspection that could not be completed; an event
    is recorded exactly when sensitive data was found, with the verb of the action. *)
Theorem sanitize_encoded_body_contract env (body : bytes) (content_type content_encoding : option bytes)
    (max_inflated : Z) (action : DlpAction) (fields : list DlpField) :
  exists res,
    sanitize_encoded_body_with env body content_type content_encoding max_inflated action fields = Some res
    /\ dlp_contract body action res.
Proof.
  unfold sanitize_encoded_body_with. cbv zeta.
  destruct (_ || _); [apply sanitize_body_contract|].
  destruct (c ← codec_of _; _) as [[c decoded]|]; [|eexists; split; [done|apply passthrough_contract]].
  destruct (sanitize_body_contract env decoded content_type action fields) as ([r evs] & Hs & Hc).
  unfold mbind, option_bind. rewrite Hs. destruct Hc as (Ha & Hi & Hn & Hy). cbn [fst snd] in *.
  destruct (r_bytes r =s decoded) eqn:Eq; [eexists; split; [reflexivity|by split_and!]|].
  assert (Hred : action = DRedact).
  { destruct (decide (action = DRedact)) as [|n]; [done|]. specialize (Ha n). rewrite Ha in Eq.
    by rewrite bytes_eqb_refl in Eq. }
  destruct (encode_stream c (r_bytes r)); eexists; (split; [reflexivity|]); by split_and!.
Qed.
End EngineProperties.

(** ** An engine to evaluate with

    The expressions on ASCII text, no JSON, and codecs that leave the bytes as they are. *)
Module Toy.

(** The matches of a matcher that gives the length of the match at the front, 0 for none. *)
Fixpoint find_matches (m : bytes -> nat) (fuel : nat) (gap s : bytes) : Matches :=
  match fuel, s with
  | S fuel, b :: r =>
      match m s with
      | O => find_matches m fuel (gap ++ [b]) r
      | n => let '(l, rest) := find_matches m fuel [] (drop n s) in ((gap, take n s) :: l, rest)
      end
  | _, _ => ([], gap ++ s)
  end.

Lemma find_matches_text m fuel : forall gap s, matches_text (find_matches m fuel gap s) = gap ++ s.
Proof.
  induction fuel as [|fuel IH]; intros gap s; [done|]. destruct s as [|b r]; [done|]. cbn [find_matches].
  destruct (m (b :: r)) as [|n]; [rewrite IH, <- app_assoc; done|].
  specialize (IH [] (drop (S n) (b :: r))). destruct (find_matches m fuel [] _) as [l rest].
  unfold matches_text in *. cbn [fst snd flat_map] in *. rewrite <- !app_assoc, IH, app_nil_l.
  by rewrite take_drop.
Qed.

(** A pattern of fixed length where [#] is a digit. *)
Fixpoint pattern_at (p s : bytes) : bool :=
  match p, s with
  | [], _ => true
  | c :: p, b :: s => (if c =? 35 then is_ascii_digit b else b =? c) && pattern_at p s
  | _, [] => false
  end.
Definition pattern (p : bytes) (s : bytes) : Matches :=
  find_matches (fun s => if pattern_at p s then length p else 0%nat) (length s) [] s.

Definition bearer_at (s : bytes) : nat :=
  match strip_prefix "Bearer" s with
  | Some r =>
      let r1 := trim_start r in
      let token := (span (fun b => is_path_byte b || one_of [b] ["."; "~"; "+"; "/"]) r1).1 in
      let eqs := (span (Z.eqb 61) (drop (length token) r1)).1 in
      if (length r1 <? length r)%nat && negb (is_empty token)
      then (length s - length r1 + length token + length eqs)%nat else 0%nat
  | None => 0%nat
  end.

#[local] Instance engine : DlpEngine := {|
  cpf_re := pattern "###.###.###-##";
  cnpj_re := pattern "##.###.###/####-##";
  bearer_re s := find_matches bearer_at (length s) [] s;
  cpf_re_text s := find_matches_text _ _ [] s;
  cnpj_re_text s := find_matches_text _ _ [] s;
  bearer_re_text s := find_matches_text _ _ [] s;
  decode_stream _ body limit := Some (take (Z.to_nat limit) body);
  encode_stream _ body := Some body |}.

Definition sanitize (action : DlpAction) (body : bytes) : option (bytes * bool) :=
  '(r, _) ← sanitize_encoded_body_with (J := no_json) (U := ascii_case) (fun _ => None) body (Some (lit "text/plain"))
    (Some (lit "gzip")) 64 action [];
  Some (r_bytes r, found_sensitive r).

Example sanitize_cases :
  sanitize DRedact "CPF 390.533.447-05, CNPJ 04.252.011/0001-10" =
    Some (lit "CPF ***.***.***-**, CNPJ **.***.***/****-**", true)
  /\ sanitize DMonitor "CPF 390.533.447-05" = Some (lit "CPF 390.533.447-05", true)
  /\ sanitize DRedact "CPF 123.456.789-00" = Some (lit "CPF 123.456.789-00", false)
  /\ sanitize DRedact "token Bearer abc.def==; end" = Some (lit "token Bearer [REDACTED]; end", true)
  /\ sanitize DRedact "4111111111111111 12/25" = Some (lit "**************** 12/25", true).
Proof. by split_and!; vm_compute. Qed.
End Toy.
