(* ===== verification/GraphqlParser.v ===== *)
(** * The GraphQL parser ([src/graphql.rs])

    Lexer and parser of executable documents.  The parser of the code is an index into the
    source; here it is the rest of the source, which is the text of a [&str]: valid UTF-8.
    The nesting of selection sets is an argument, since every increment is undone on return,
    and the flag [too_deep], set only where the parser gives up for good, is the error.

    Loops and recursion take fuel; [parse_document_no_fuel] shows that what [parse_document]
    provides is always enough. *)

From S2P Require Import Prelude.

(** [src/graphql.rs: enum ParseFail] *)
Inductive ParseFail : Set := Invalid | TooDeep.

Abbreviation parsed := (fueled ParseFail) (only parsing).

(** The lexer tells, when it gives up, what is left of the source where it stands: [parse_directives] goes on from there. *)
Abbreviation lexed := (fueled bytes) (only parsing).

(** ** Lexer *)

(** [src/graphql.rs: enum Token] *)
Inductive Token : Type :=
| TName (name : bytes) | TInt (raw : bytes) | TFloat | TString
| Bang | Dollar | Amp | ParenL | ParenR | Spread3 | Colon | Equals | At
| BracketL | BracketR | BraceL | BraceR | Pipe.

#[export] Instance Token_eq_dec : EqDecision Token.
Proof. solve_decision. Defined.

Definition token_eqb (a b : Token) : bool := bool_decide (a = b).

Definition ws_comma (s : bytes) : option bytes :=
  match s with b :: r => if b =? 44 then Some r else ws_head s | [] => None end.

(** [src/graphql.rs: Parser::skip_ws_comma] *)
Definition skip_ws_comma (s : bytes) : bytes := strip_while ws_comma (length s) s.

(** What follows the first line break. *)
Fixpoint after_line (s : bytes) : bytes :=
  match s with b :: r => if (b =? 10) || (b =? 13) then r else after_line r | [] => [] end.

Definition BOM : bytes := [239; 187; 191].

Fixpoint skip_loop (fuel : nat) (s : bytes) : bytes :=
  match fuel with
  | O => s
  | S fuel =>
      let s := skip_ws_comma s in
      match strip_prefix [35] s, strip_prefix BOM s with
      | Some r, _ => skip_loop fuel (after_line r)
      | None, Some r => skip_loop fuel r
      | None, None => s
      end
  end.

(** [src/graphql.rs: Parser::skip_ignored] *)
Definition skip_ignored (s : bytes) : bytes := skip_loop (S (length s)) s.

Definition is_name_byte (b : Z) : bool := is_ascii_alphanumeric b || (b =? 95).
Definition is_name_start (b : Z) : bool := is_ascii_alphabetic b || (b =? 95).

(** [src/graphql.rs: Parser::take_name] The first byte is a name start. *)
Definition take_name (b : Z) (r : bytes) : bytes * bytes :=
  let '(name, rest) := span is_name_byte r in (b :: name, rest).

(** [src/graphql.rs: Parser::take_number] *)
Definition take_number (s : bytes) : lexed (Token * bytes) :=
  let '(sign, s) := match strip_prefix [45] s with Some r => ([45], r) | None => ([], s) end in
  let '(digits, s) := span is_ascii_digit s in
  if is_empty digits then Failed s
  else
    '(float1, s) ← match strip_prefix [46] s with
                   | Some r => let '(frac, rest) := span is_ascii_digit r in
                               if is_empty frac then Failed r else Done (true, rest)
                   | None => Done (false, s)
                   end;
    '(float2, s) ← match s with
                   | e :: r =>
                       if (e =? 101) || (e =? 69) then
                         let r := match r with b :: r' => if (b =? 43) || (b =? 45) then r' else r
                                             | [] => r end in
                         let '(exp, rest) := span is_ascii_digit r in
                         if is_empty exp then Failed r else Done (true, rest)
                       else Done (false, s)
                   | [] => Done (false, s)
                   end;
    Done (if (float1 : bool) || (float2 : bool) then TFloat else TInt (sign ++ digits), s).

(** The width of the character at the front of valid UTF-8. *)
Definition utf8_width (b : Z) : nat :=
  if b <? 128 then 1%nat else if b <? 224 then 2%nat else if b <? 240 then 3%nat else 4%nat.

Definition QUOTES : bytes := [34; 34; 34].

Fixpoint block_string (fuel : nat) (s : bytes) : lexed bytes :=
  match fuel, s with
  | _, [] => Failed []
  | O, _ => NoFuel
  | S fuel, b :: r =>
      match strip_prefix QUOTES s with
      | Some rest => Done rest
      | None =>
          if b =? 92 then
            match r with
            | [] => Failed s
            | c :: _ => block_string fuel (drop (utf8_width c) r)
            end
          else block_string fuel (drop (utf8_width b) s)
      end
  end.

Fixpoint line_string (s : bytes) : lexed bytes :=
  match s with
  | [] => Failed []
  | b :: r =>
      if b =? 34 then Done r
      else if b =? 92 then
        match r with
        | [] => Failed []
        | e :: r =>
            if e =? 117 then
              (* up to the first byte that is no digit *)
              let stop := (span is_ascii_hexdigit r).2 in
              match r with
              | h1 :: h2 :: h3 :: h4 :: r =>
                  if forallb is_ascii_hexdigit [h1; h2; h3; h4] then line_string r else Failed stop
              | _ => Failed stop
              end
            else line_string r
        end
      else if (b =? 10) || (b =? 13) then Failed s
      else line_string r
  end.

(** [src/graphql.rs: Parser::consume_string] The rest after the string whose first quote is in
    front of [r]. *)
Definition consume_string (s r : bytes) : lexed bytes :=
  match strip_prefix QUOTES s with
  | Some rest => block_string (length rest) rest
  | None => line_string r
  end.

Definition punct (b : Z) : option Token :=
  if b =? 33 then Some Bang else if b =? 36 then Some Dollar else if b =? 38 then Some Amp
  else if b =? 40 then Some ParenL else if b =? 41 then Some ParenR else if b =? 58 then Some Colon
  else if b =? 61 then Some Equals else if b =? 64 then Some At else if b =? 91 then Some BracketL
  else if b =? 93 then Some BracketR else if b =? 123 then Some BraceL
  else if b =? 125 then Some BraceR else if b =? 124 then Some Pipe else None.

Definition lex (s : bytes) : lexed (Token * bytes) :=
  match s with
  | [] => Failed s
  | b :: r =>
      match punct b with
      | Some t => Done (t, r)
      | None =>
          if b =? 46 then
            match strip_prefix [46; 46; 46] s with
            | Some rest => Done (Spread3, rest)
            | None => Failed s
            end
          else if b =? 34 then rest ← consume_string s r; Done (TString, rest)
          else if is_name_start b then let '(name, rest) := take_name b r in Done (TName name, rest)
          else if (b =? 45) || is_ascii_digit b then take_number s
          else Failed s
      end
  end.

(** To a caller that gives up, it does not matter where the lexer stands. *)
Definition unread {A} (m : lexed A) : parsed A :=
  match m with Done x => Done x | Failed _ => Failed Invalid | NoFuel => NoFuel end.

(** [src/graphql.rs: Parser::next_token] *)
Definition next_token (s : bytes) : parsed (Token * bytes) := unread (lex (skip_ignored s)).

(** [src/graphql.rs: Parser::peek_token] The position is restored, but not when there is no token. *)
Definition peek_token (s : bytes) : parsed Token := '(t, _) ← next_token s; Done t.

(** [src/graphql.rs: Parser::bump_name + Parser::expect_name] *)
Definition expect_name (s : bytes) : parsed (bytes * bytes) :=
  '(t, s) ← next_token s;
  match t with TName name => Done (name, s) | _ => Failed Invalid end.

(** [src/graphql.rs: Parser::eat] *)
Definition eat (expected : Token) (s : bytes) : parsed bytes :=
  '(t, s) ← next_token s;
  if token_eqb t expected then Done s else Failed Invalid.

(** ** Parser *)

Definition HARD_DEPTH : Z := 64.
Definition HARD_VALUE_DEPTH : Z := 32.

(** [src/graphql.rs: enum GqlValue] *)
Inductive GqlValue : Type := GInt (n : Z) | GVariable (name : bytes) | GOther.

(** [src/graphql.rs: struct SelectionSet + enum Selection] A selection set is the list of its items. *)
Inductive Selection : Type :=
| Field (alias : bool) (name : bytes) (args : list (bytes * GqlValue)) (selection : option (list Selection))
| Spread (name : bytes)
| Inline (set : list Selection).
Abbreviation SelectionSet := (list Selection) (only parsing).

(** [src/graphql.rs: struct Document] *)
Record Document : Type := { operations : list (list Selection); fragments : gmap bytes (list Selection) }.

(** Enough for any recursion on the text: every second call reads a token. *)
Definition fuel_for (s : bytes) : nat := 2 * length s + 4.

(** [src/graphql.rs: Parser::parse_value] *)
Fixpoint parse_value (fuel : nat) (depth : Z) (s : bytes) : parsed (GqlValue * bytes) :=
  match fuel with
  | O => NoFuel
  | S fuel =>
      if HARD_VALUE_DEPTH <? depth then Failed Invalid
      else
        '(t, s1) ← next_token s;
        match t with
        | Dollar => '(name, s) ← expect_name s1; Done (GVariable name, s)
        | TInt raw => match parse_i64 raw with Some n => Done (GInt n, s1) | None => Failed Invalid end
        | TFloat | TString | TName _ => Done (GOther, s1)
        | BracketL => s ← values_loop fuel depth s1; Done (GOther, s)
        | BraceL => s ← fields_loop fuel depth s1; Done (GOther, s)
        | _ => Failed Invalid
        end
  end
with values_loop (fuel : nat) (depth : Z) (s : bytes) : parsed bytes :=
  match fuel with
  | O => NoFuel
  | S fuel =>
      t ← peek_token s;
      if token_eqb t BracketR then eat BracketR s
      else '(_, s) ← parse_value fuel (depth + 1) s; values_loop fuel depth s
  end
with fields_loop (fuel : nat) (depth : Z) (s : bytes) : parsed bytes :=
  match fuel with
  | O => NoFuel
  | S fuel =>
      t ← peek_token s;
      if token_eqb t BraceR then eat BraceR s
      else
        '(_, s) ← expect_name s;
        s ← eat Colon s;
        '(_, s) ← parse_value fuel (depth + 1) s;
        fields_loop fuel depth s
  end.

Fixpoint arguments_loop (fuel : nat) (s : bytes) : parsed (list (bytes * GqlValue) * bytes) :=
  match fuel with
  | O => NoFuel
  | S fuel =>
      t ← peek_token s;
      if token_eqb t ParenR then s ← eat ParenR s; Done ([], s)
      else
        '(name, s) ← expect_name s;
        s ← eat Colon s;
        '(value, s) ← parse_value (fuel_for s) 0 s;
        '(args, s) ← arguments_loop fuel s;
        Done ((name, value) :: args, s)
  end.

(** [src/graphql.rs: Parser::parse_arguments] *)
Definition parse_arguments (s : bytes) : parsed (list (bytes * GqlValue) * bytes) :=
  s ← eat ParenL s;
  '(args, s) ← arguments_loop (fuel_for s) s;
  if is_empty args then Failed Invalid else Done (args, s).

Fixpoint directives_loop (fuel : nat) (s : bytes) : parsed bytes :=
  match fuel with
  | O => NoFuel
  | S fuel =>
      match lex (skip_ignored s) with
      | Done (At, _) =>
          s ← eat At s;
          '(_, s) ← expect_name s;
          t ← peek_token s;
          s ← (if token_eqb t ParenL then '(_, s) ← parse_arguments s; Done s else Done s);
          directives_loop fuel s
      | Done _ => Done s
      | Failed rest => Done rest
      | NoFuel => NoFuel
      end
  end.

(** [src/graphql.rs: Parser::parse_directives] A token that cannot be read ends the directives without an error: the parser goes on
    from where the lexer gave up. *)
Definition parse_directives (s : bytes) : parsed bytes := directives_loop (fuel_for s) s.

(** [src/graphql.rs: Parser::parse_type] One unit of fuel is one call of the function. *)
Fixpoint parse_type (fuel : nat) (s : bytes) : parsed bytes :=
  match fuel with
  | O => NoFuel
  | S fuel =>
      t ← peek_token s;
      s ← (if token_eqb t BracketL then
             s ← eat BracketL s; s ← parse_type fuel s; eat BracketR s
           else '(_, s) ← expect_name s; Done s);
      t ← peek_token s;
      if token_eqb t Bang then eat Bang s else Done s
  end.

Fixpoint variable_defs_loop (fuel : nat) (s : bytes) : parsed bytes :=
  match fuel with
  | O => NoFuel
  | S fuel =>
      t ← peek_token s;
      if token_eqb t ParenR then eat ParenR s
      else
        s ← eat Dollar s;
        '(_, s) ← expect_name s;
        s ← eat Colon s;
        s ← parse_type (fuel_for s) s;
        t ← peek_token s;
        s ← (if token_eqb t Equals then
               s ← eat Equals s; '(_, s) ← parse_value (fuel_for s) 0 s; Done s
             else Done s);
        s ← parse_directives s;
        variable_defs_loop fuel s
  end.

(** [src/graphql.rs: Parser::parse_variable_defs] *)
Definition parse_variable_defs (s : bytes) : parsed bytes :=
  s ← eat ParenL s; variable_defs_loop (fuel_for s) s.

(** [src/graphql.rs: Parser::parse_field] What precedes the selection set of a field. *)
Definition parse_field_head (s : bytes) : parsed (bool * bytes * list (bytes * GqlValue) * bytes) :=
  '(first, s) ← expect_name s;
  t ← peek_token s;
  '(alias, name, s) ← (if token_eqb t Colon then
                         s ← eat Colon s; '(name, s) ← expect_name s; Done (true, name, s)
                       else Done (false, first, s));
  t ← peek_token s;
  '(args, s) ← (if token_eqb t ParenL then parse_arguments s else Done ([], s));
  s ← parse_directives s;
  Done (alias, name, args, s).

(** [src/graphql.rs: Parser::parse_selection_set + Parser::parse_selection_set_inner + Parser::parse_selection] *)
Fixpoint parse_selection_set (fuel : nat) (nesting : Z) (s : bytes)
  : parsed (list Selection * bytes) :=
  match fuel with
  | O => NoFuel
  | S fuel =>
      if HARD_DEPTH <=? nesting then Failed TooDeep
      else
        s ← eat BraceL s;
        '(items, s) ← items_loop fuel (nesting + 1) s;
        if is_empty items then Failed Invalid else Done (items, s)
  end
with items_loop (fuel : nat) (nesting : Z) (s : bytes) : parsed (list Selection * bytes) :=
  match fuel with
  | O => NoFuel
  | S fuel =>
      let s := skip_ignored s in
      t ← peek_token s;
      if token_eqb t BraceR then s ← eat BraceR s; Done ([], s)
      else
        '(item, s) ← parse_selection fuel nesting s;
        '(items, s) ← items_loop fuel nesting s;
        Done (item :: items, s)
  end
with parse_selection (fuel : nat) (nesting : Z) (s : bytes) : parsed (Selection * bytes) :=
  match fuel with
  | O => NoFuel
  | S fuel =>
      t ← peek_token s;
      if token_eqb t Spread3 then
        s ← eat Spread3 s;
        t ← peek_token s;
        match t with
        | TName name =>
            '(_, s) ← expect_name s;
            if name =s "on" then
              '(_, s) ← expect_name s;
              s ← parse_directives s;
              '(set, s) ← parse_selection_set fuel nesting s;
              Done (Inline set, s)
            else s ← parse_directives s; Done (Spread name, s)
        | BraceL | At =>
            s ← parse_directives s;
            '(set, s) ← parse_selection_set fuel nesting s;
            Done (Inline set, s)
        | _ => Failed Invalid
        end
      else
        '(alias, name, args, s) ← parse_field_head s;
        t ← peek_token s;
        if token_eqb t BraceL then
          '(set, s) ← parse_selection_set fuel nesting s;
          Done (Field alias name args (Some set), s)
        else Done (Field alias name args None, s)
  end.

Definition is_operation (name : bytes) : bool := one_of name ["query"; "mutation"; "subscription"].

Definition start_selection_set (s : bytes) : parsed (list Selection * bytes) :=
  parse_selection_set (fuel_for s) 0 s.

Fixpoint document_loop (fuel : nat) (ops : list (list Selection)) (frags : gmap bytes (list Selection))
    (s : bytes) : parsed Document :=
  match fuel with
  | O => NoFuel
  | S fuel =>
      if is_empty s then Done {| operations := ops; fragments := frags |}
      else
        t ← peek_token s;
        '(ops, frags, s) ←
          match t with
          | BraceL => '(set, s) ← start_selection_set s; Done (ops ++ [set], frags, s)
          | TName name =>
              if name =s "fragment" then
                '(_, s) ← expect_name s;
                '(frag_name, s) ← expect_name s;
                if frag_name =s "on" then Failed Invalid
                else
                  '(on, s) ← expect_name s;
                  if negb (on =s "on") then Failed Invalid
                  else
                    '(_, s) ← expect_name s;
                    s ← parse_directives s;
                    '(set, s) ← start_selection_set s;
                    match frags !! frag_name with
                    | Some _ => Failed Invalid
                    | None => Done (ops, <[frag_name := set]> frags, s)
                    end
              else if is_operation name then
                '(_, s) ← expect_name s;
                t ← peek_token s;
                s ← match t with TName _ => '(_, s) ← expect_name s; Done s | _ => Done s end;
                t ← peek_token s;
                s ← (if token_eqb t ParenL then parse_variable_defs s else Done s);
                s ← parse_directives s;
                '(set, s) ← start_selection_set s;
                Done (ops ++ [set], frags, s)
              else Failed Invalid
          | _ => Failed Invalid
          end;
        document_loop fuel ops frags (skip_ignored s)
  end.

(** [src/graphql.rs: fn parse_document] *)
Definition parse_document (source : bytes) : parsed Document :=
  let s := skip_ignored source in
  if is_empty s then Failed Invalid else document_loop (fuel_for s) [] ∅ s.

(** ** Termination

    By [wp] over what each function returns. *)

(** What holds of a result, and of where the lexer gave up. *)
Definition lexes {A} (m : lexed A) (Q : A -> Prop) (R : bytes -> Prop) : Prop :=
  match m with Done a => Q a | Failed r => R r | NoFuel => False end.

Lemma lexes_bind {A B} (m : lexed A) (f : A -> lexed B) Q R : lexes m (fun a => lexes (f a) Q R) R -> lexes (m ≫= f) Q R.
Proof. by destruct m. Qed.
Lemma lexes_mono {A} (m : lexed A) (Q Q' : A -> Prop) (R R' : bytes -> Prop) : lexes m Q R -> (forall a, Q a -> Q' a) ->
  (forall r, R r -> R' r) -> lexes m Q' R'.
Proof. destruct m; cbn; auto. Qed.

(** The rest is shorter. *)
Definition shorter (s r : bytes) : Prop := (length r < length s)%nat.
Definition shorter2 {A} (s : bytes) (x : A * bytes) : Prop := (length x.2 < length s)%nat.
Definition no_longer (s r : bytes) : Prop := (length r <= length s)%nat.

Lemma strip_prefix_length p s r : strip_prefix p s = Some r -> length s = (length p + length r)%nat.
Proof. intros ->%strip_prefix_spec. apply length_app. Qed.

Lemma ws_head_length s r : ws_head s = Some r -> (length r < length s)%nat.
Proof.
  unfold ws_head. destruct s as [|c [|d [|e s]]]; repeat case_match; intros; simplify_eq/=; lia.
Qed.

Lemma ws_comma_length s r : ws_comma s = Some r -> (length r < length s)%nat.
Proof.
  destruct s as [|b s]; [done|]. cbn [ws_comma]. destruct (b =? 44); [intros [= ->]; simpl; lia|].
  apply ws_head_length.
Qed.

Lemma strip_while_length step : (forall s r, step s = Some r -> (length r < length s)%nat) ->
  forall fuel s, (length (strip_while step fuel s) <= length s)%nat.
Proof.
  intros Hs. induction fuel as [|fuel IH]; intros s; simpl; [lia|].
  destruct (step s) as [r|] eqn:E; [|lia]. apply Hs in E. specialize (IH r). lia.
Qed.

Lemma skip_ws_comma_length s : (length (skip_ws_comma s) <= length s)%nat.
Proof. apply strip_while_length, ws_comma_length. Qed.

Lemma after_line_length s : (length (after_line s) <= length s)%nat.
Proof. induction s as [|b s IH]; simpl; [lia|]. destruct (_ || _); lia. Qed.

Lemma skip_ignored_length s : (length (skip_ignored s) <= length s)%nat.
Proof.
  unfold skip_ignored. generalize (S (length s)). intros fuel. revert s.
  induction fuel as [|fuel IH]; intros s; cbn [skip_loop]; [lia|].
  pose proof (skip_ws_comma_length s) as Hw.
  destruct (strip_prefix [35] _) as [r|] eqn:E1.
  - apply strip_prefix_length in E1. specialize (IH (after_line r)). pose proof (after_line_length r).
    simpl in *. lia.
  - destruct (strip_prefix BOM _) as [r|] eqn:E2; [|lia].
    apply strip_prefix_length in E2. specialize (IH r). lia.
Qed.

Lemma span_length f s : (length (span f s).2 <= length s)%nat.
Proof. apply span_shrinks. Qed.

Lemma take_number_wp s : lexes (take_number s) (shorter2 s) (no_longer s).
Proof.
  unfold take_number.
  assert (Hs : forall sign r, match strip_prefix [45] s with Some r => ([45], r) | None => ([], s) end = (sign, r) ->
    (length r <= length s)%nat).
  { intros sign r. destruct (strip_prefix [45] s) as [r'|] eqn:E; intros [= <- <-]; [|lia].
    apply strip_prefix_length in E. lia. }
  destruct (match strip_prefix [45] s with Some r => _ | None => _ end) as [sign s1].
  specialize (Hs _ _ eq_refl).
  destruct (span is_ascii_digit s1) as [digits s2] eqn:Ed. apply span_spec in Ed as (-> & _ & _).
  rewrite length_app in Hs. destruct digits as [|d digits]; [unfold no_longer; simpl in *; lia|]. cbn [is_empty]. simpl in Hs.
  apply lexes_bind. apply (lexes_mono _ (fun x => (length x.2 <= length s2)%nat) _ (no_longer s2)).
  { destruct (strip_prefix [46] s2) as [r|] eqn:E; [|simpl; lia]. apply strip_prefix_length in E.
    pose proof (span_length is_ascii_digit r). destruct (span is_ascii_digit r) as [[|f fr] r'];
    unfold no_longer; simpl in *; lia. }
  2: unfold no_longer; intros r Hr; lia.
  intros [float1 s3] H3. apply lexes_bind. cbn [snd] in H3.
  apply (lexes_mono _ (fun x => (length x.2 <= length s3)%nat) _ (no_longer s3)).
  { destruct s3 as [|e r]; [simpl; lia|]. destruct (_ || _); [|simpl; lia].
    set (r1 := match r with [] => _ | _ => _ end).
    assert (H1 : (length r1 <= length r)%nat).
    { subst r1. destruct r as [|b r]; [simpl; lia|]. destruct (_ || _); simpl; lia. }
    pose proof (span_length is_ascii_digit r1). destruct (span is_ascii_digit r1) as [[|f fr] r'];
    unfold no_longer; simpl in *; lia. }
  2: unfold no_longer; intros r Hr; lia.
  intros [float2 s4] H4. unfold shorter2. simpl in *. lia.
Qed.

Lemma block_string_wp fuel : forall s, (length s <= fuel)%nat ->
  lexes (block_string fuel s) (no_longer s) (no_longer s).
Proof.
  unfold no_longer. induction fuel as [|fuel IH]; intros s Hs; [destruct s; [simpl; lia|simpl in Hs; lia]|].
  destruct s as [|b r]; [simpl; lia|]. cbn [block_string].
  destruct (strip_prefix QUOTES (b :: r)) as [rest|] eqn:E;
    [apply strip_prefix_length in E; simpl in *; lia|].
  assert (Hw : forall c l, (length (drop (utf8_width c) (c :: l)) <= length l)%nat).
  { intros c l. rewrite length_drop. unfold utf8_width. repeat case_match; simpl; lia. }
  destruct (b =? 92).
  - destruct r as [|c r]; [simpl; lia|]. specialize (Hw c r).
    eapply lexes_mono; [apply IH; simpl in *; lia|intros; simpl in *; lia..].
  - specialize (Hw b r). eapply lexes_mono; [apply IH; simpl in *; lia|intros; simpl in *; lia..].
Qed.

Lemma line_string_wp s : lexes (line_string s) (no_longer s) (no_longer s).
Proof.
  unfold no_longer.
  assert (forall n s, (length s <= n)%nat -> lexes (line_string s) (fun r => (length r <= length s)%nat) (fun r => (length r <= length s)%nat)) as H.
  { clear s. induction n as [|n IH]; intros s Hn; (destruct s as [|b r]; [simpl; lia|simpl in Hn]); [lia|].
    cbn [line_string].
    assert (Hr : forall r', (length r' <= length r)%nat ->
      lexes (line_string r') (fun x => (length x <= length (b :: r))%nat) (fun x => (length x <= length (b :: r))%nat)).
    { intros r' ?. eapply lexes_mono; [apply IH; lia|simpl; intros; lia..]. }
    destruct (b =? 34); [simpl; lia|]. destruct (b =? 92).
    - destruct r as [|e r]; [simpl; lia|]. destruct (e =? 117); [|apply Hr; simpl; lia]. cbv zeta.
      pose proof (span_length is_ascii_hexdigit r) as Hstop.
      destruct r as [|h1 [|h2 [|h3 [|h4 r]]]]; try (cbn [lexes] in *; simpl length in *; lia).
      destruct (forallb _ _); [|cbn [lexes] in *; simpl length in *; lia]. apply Hr. simpl. lia.
    - destruct (_ || _); [simpl; lia|]. apply Hr. lia. }
  by apply (H (length s)).
Qed.

Lemma lex_wp s : lexes (lex s) (shorter2 s) (no_longer s).
Proof.
  unfold lex. destruct s as [|b r]; [unfold no_longer; simpl; lia|].
  destruct (punct b); [unfold shorter2; simpl; lia|].
  destruct (b =? 46).
  { destruct (strip_prefix _ (b :: r)) as [rest|] eqn:E; [|unfold no_longer; simpl; lia]. apply strip_prefix_length in E.
    unfold shorter2. cbn [lexes snd length] in *. lia. }
  destruct (b =? 34).
  { apply lexes_bind. unfold consume_string.
    destruct (strip_prefix QUOTES (b :: r)) as [rest|] eqn:E.
    - apply strip_prefix_length in E. eapply lexes_mono; [by apply block_string_wp|..];
      unfold shorter2, no_longer; cbn [lexes snd length QUOTES] in *; intros; lia.
    - eapply lexes_mono; [apply line_string_wp|..]; unfold shorter2, no_longer; simpl; intros; lia. }
  destruct (is_name_start b).
  { unfold take_name. pose proof (span_length is_name_byte r).
    destruct (span is_name_byte r) as [p rest]. unfold shorter2. simpl in *. lia. }
  destruct (_ || _); [apply take_number_wp|unfold no_longer; simpl; lia].
Qed.

(** Where the next token ends, or where the lexer gives up. *)
Lemma lex_next_wp s : lexes (lex (skip_ignored s)) (shorter2 s) (no_longer s).
Proof.
  pose proof (skip_ignored_length s). eapply lexes_mono; [apply lex_wp|..]; unfold shorter2, no_longer; intros; lia.
Qed.

Lemma next_token_wp s : wp (next_token s) (shorter2 s).
Proof. unfold next_token. pose proof (lex_next_wp s) as H. by destruct (lex _). Qed.
#[export] Hint Resolve next_token_wp : ferroada.

Lemma peek_token_wp s : wp (peek_token s) (fun t => exists r, next_token s = Done (t, r)).
Proof.
  unfold peek_token. pose proof (next_token_wp s) as H.
  destruct (next_token s) as [[t r]| |]; simpl in *; eauto.
Qed.

Lemma peek_wp {A} s (f : Token -> parsed A) Q : (forall t, wp (f t) Q) -> wp (t ← peek_token s; f t) Q.
Proof. intros H. apply wp_bind. eapply wp_mono; [apply peek_token_wp|auto]. Qed.

Lemma expect_name_wp s : wp (expect_name s) (shorter2 s).
Proof. unfold expect_name. wp_step next_token_wp. intros [[] r] H; try done. Qed.

Lemma eat_wp t s : wp (eat t s) (shorter s).
Proof. unfold eat. wp_step next_token_wp. intros [t' r] H. by destruct (token_eqb t' t). Qed.

(** Solves what is left once the calls of a function have been stepped over. *)
Ltac shrink := unfold shorter, shorter2, fuel_for in *; cbn [wp fst snd] in *; lia.

Lemma value_wp fuel :
  (forall depth s, (2 * length s + 1 <= fuel)%nat -> wp (parse_value fuel depth s) (shorter2 s))
  /\ (forall depth s, (2 * length s + 2 <= fuel)%nat -> wp (values_loop fuel depth s) (shorter s))
  /\ (forall depth s, (2 * length s + 2 <= fuel)%nat -> wp (fields_loop fuel depth s) (shorter s)).
Proof.
  induction fuel as [|fuel (IHv & IHl & IHf)]; [split_and!; intros; lia|].
  split_and!; intros depth s Hf; cbn [parse_value values_loop fields_loop].
  - destruct (_ <? _); [done|]. wp_step next_token_wp. intros [t s1] H.
    destruct t; try done; try shrink.
    + by destruct (parse_i64 raw).
    + wp_step expect_name_wp. intros [name s2] H2. shrink.
    + apply wp_bind. eapply wp_mono; [apply IHl; shrink|]. intros s2 H2. shrink.
    + apply wp_bind. eapply wp_mono; [apply IHf; shrink|]. intros s2 H2. shrink.
  - apply peek_wp. intros t. destruct (token_eqb t BracketR); [apply eat_wp|].
    apply wp_bind. eapply wp_mono; [apply IHv; lia|]. intros [v s1] H1.
    eapply wp_mono; [apply IHl; shrink|]. intros s2 H2. shrink.
  - apply peek_wp. intros t. destruct (token_eqb t BraceR); [apply eat_wp|].
    wp_step expect_name_wp. intros [name s1] H1. wp_step eat_wp. intros s2 H2.
    apply wp_bind. eapply wp_mono; [apply IHv; shrink|]. intros [v s3] H3.
    eapply wp_mono; [apply IHf; shrink|]. intros s4 H4. shrink.
Qed.

Lemma parse_value_wp depth s : wp (parse_value (fuel_for s) depth s) (shorter2 s).
Proof. apply value_wp. unfold fuel_for. lia. Qed.

Lemma parse_arguments_wp s : wp (parse_arguments s) (shorter2 s).
Proof.
  assert (Hl : forall fuel s, (length s < fuel)%nat -> wp (arguments_loop fuel s) (shorter2 s)).
  { clear s. induction fuel as [|fuel IH]; intros s Hf; [lia|]. cbn [arguments_loop].
    apply peek_wp. intros t. destruct (token_eqb t ParenR); [wp_step eat_wp; intros s1 H1; shrink|].
    wp_step expect_name_wp. intros [name s1] H1. wp_step eat_wp. intros s2 H2.
    wp_step parse_value_wp. intros [v s3] H3. apply wp_bind.
    eapply wp_mono; [apply IH; shrink|]. intros [args s4] H4. shrink. }
  unfold parse_arguments. wp_step eat_wp. intros s1 H1. apply wp_bind.
  eapply wp_mono; [apply Hl; shrink|]. intros [args s2] H2. destruct (is_empty args); [done|shrink].
Qed.

Lemma parse_directives_wp s : wp (parse_directives s) (fun r => (length r <= length s)%nat).
Proof.
  unfold parse_directives.
  assert (Hl : forall fuel s, (length s < fuel)%nat ->
    wp (directives_loop fuel s) (fun r => (length r <= length s)%nat)).
  { clear s. induction fuel as [|fuel IH]; intros s Hf; [lia|]. cbn [directives_loop].
    pose proof (lex_next_wp s) as Hp. destruct (lex (skip_ignored s)) as [[t rest]|rest|]; [|exact Hp|done].
    destruct t; try (simpl; lia).
    wp_step eat_wp. intros s1 H1. wp_step expect_name_wp. intros [name s2] H2. apply peek_wp. intros t.
    apply wp_bind. eapply (wp_mono _ (fun r => (length r <= length s2)%nat)).
    - destruct (token_eqb t ParenL); [|simpl; lia]. wp_step parse_arguments_wp. intros [a s3] H3. shrink.
    - intros s3 H3. eapply wp_mono; [apply IH; shrink|]. intros s4 H4. shrink. }
  apply Hl. unfold fuel_for. lia.
Qed.

Lemma parse_type_wp fuel : forall s, (length s < fuel)%nat -> wp (parse_type fuel s) (shorter s).
Proof.
  induction fuel as [|fuel IH]; intros s Hf; [lia|]. cbn [parse_type]. apply peek_wp. intros t.
  apply wp_bind. apply (wp_mono _ (shorter s)).
  - destruct (token_eqb t BracketL).
    + wp_step eat_wp. intros s1 H1. apply wp_bind. eapply wp_mono; [apply IH; shrink|].
      intros s2 H2. eapply wp_mono; [apply eat_wp|]. intros s3 H3. shrink.
    + wp_step expect_name_wp. intros [name s1] H1. shrink.
  - intros s1 H1. apply peek_wp. intros t'. destruct (token_eqb t' Bang); [|shrink].
    eapply wp_mono; [apply eat_wp|]. intros s2 H2. shrink.
Qed.

Lemma parse_variable_defs_wp s : wp (parse_variable_defs s) (shorter s).
Proof.
  assert (Hl : forall fuel s, (length s < fuel)%nat -> wp (variable_defs_loop fuel s) (shorter s)).
  { clear s. induction fuel as [|fuel IH]; intros s Hf; [lia|]. cbn [variable_defs_loop].
    apply peek_wp. intros t. destruct (token_eqb t ParenR); [apply eat_wp|].
    wp_step eat_wp. intros s1 H1. wp_step expect_name_wp. intros [name s2] H2. wp_step eat_wp. intros s3 H3.
    apply wp_bind. eapply wp_mono; [apply parse_type_wp; shrink|]. intros s4 H4.
    apply peek_wp. intros t'. apply wp_bind. apply (wp_mono _ (fun r => (length r <= length s4)%nat)).
    - destruct (token_eqb t' Equals); [|simpl; lia]. wp_step eat_wp. intros s5 H5.
      wp_step parse_value_wp. intros [v s6] H6. shrink.
    - intros s5 H5. wp_step parse_directives_wp. intros s6 H6.
      eapply wp_mono; [apply IH; shrink|]. intros s7 H7. shrink. }
  unfold parse_variable_defs. wp_step eat_wp. intros s1 H1.
  eapply wp_mono; [apply Hl; shrink|]. intros s2 H2. shrink.
Qed.

Lemma parse_field_head_wp s : wp (parse_field_head s) (shorter2 s).
Proof.
  unfold parse_field_head. wp_step expect_name_wp. intros [first s1] H1. apply peek_wp. intros t.
  apply wp_bind. apply (wp_mono _ (fun x => (length x.2 <= length s1)%nat)).
  { destruct (token_eqb t Colon); [|simpl; lia]. wp_step eat_wp. intros s2 H2.
    wp_step expect_name_wp. intros [name s3] H3. shrink. }
  intros [[alias name] s2] H2. apply peek_wp. intros t'. cbn [snd] in H2.
  apply wp_bind. apply (wp_mono _ (fun x => (length x.2 <= length s2)%nat)).
  { destruct (token_eqb t' ParenL); [|simpl; lia]. eapply wp_mono; [apply parse_arguments_wp|].
    intros x Hx. shrink. }
  intros [args s3] H3. wp_step parse_directives_wp. intros s4 H4. shrink.
Qed.

Lemma selection_wp fuel :
  (forall n s, (2 * length s + 2 <= fuel)%nat -> wp (parse_selection_set fuel n s) (shorter2 s))
  /\ (forall n s, (2 * length s + 3 <= fuel)%nat -> wp (items_loop fuel n s) (shorter2 s))
  /\ (forall n s, (2 * length s + 1 <= fuel)%nat -> wp (parse_selection fuel n s) (shorter2 s)).
Proof.
  induction fuel as [|fuel (IHs & IHi & IHe)]; [split_and!; intros; lia|].
  split_and!; intros n s Hf; cbn [parse_selection_set items_loop parse_selection].
  - destruct (_ <=? _); [done|]. wp_step eat_wp. intros s1 H1. apply wp_bind.
    eapply wp_mono; [apply IHi; shrink|]. intros [items s2] H2. destruct (is_empty items); [done|shrink].
  - pose proof (skip_ignored_length s). apply peek_wp. intros t. destruct (token_eqb t BraceR).
    { wp_step eat_wp. intros s1 H1. shrink. }
    apply wp_bind. eapply wp_mono; [apply IHe; lia|]. intros [item s1] H1.
    apply wp_bind. eapply wp_mono; [apply IHi; shrink|]. intros [items s2] H2. shrink.
  - apply peek_wp. intros t. destruct (token_eqb t Spread3).
    + wp_step eat_wp. intros s1 H1. apply peek_wp. intros t'.
      assert (Hset : forall r, (length r <= length s1)%nat ->
        wp (s ← parse_directives r; '(set, s) ← parse_selection_set fuel n s; Done (Inline set, s))
          (shorter2 s)).
      { intros r Hr. wp_step parse_directives_wp. intros s2 H2. apply wp_bind.
        eapply wp_mono; [apply IHs; shrink|]. intros [set s3] H3. shrink. }
      destruct t'; try done; [|apply Hset; lia..].
      wp_step expect_name_wp. intros [name' s2] H2. destruct (name =s "on").
      * wp_step expect_name_wp. intros [ty s3] H3. apply Hset. shrink.
      * wp_step parse_directives_wp. intros s3 H3. shrink.
    + wp_step parse_field_head_wp. intros [[[alias name] args] s1] H1. apply peek_wp. intros t'.
      destruct (token_eqb t' BraceL); [|shrink].
      apply wp_bind. eapply wp_mono; [apply IHs; shrink|]. intros [set s2] H2. shrink.
Qed.

Lemma start_selection_set_wp s : wp (start_selection_set s) (shorter2 s).
Proof. apply selection_wp. unfold fuel_for. lia. Qed.

Lemma document_loop_wp fuel : forall ops frags s, (length s < fuel)%nat ->
  wp (document_loop fuel ops frags s) (fun _ => True).
Proof.
  induction fuel as [|fuel IH]; intros ops frags s Hf; [lia|]. cbn [document_loop].
  destruct (is_empty s); [done|]. apply peek_wp. intros t. apply wp_bind.
  apply (wp_mono _ (shorter2 s)).
  2: { intros [[ops' frags'] s'] H. apply IH. pose proof (skip_ignored_length s'). shrink. }
  destruct t; try done.
  - destruct (name =s "fragment").
    + wp_step expect_name_wp. intros [? s1] H1. wp_step expect_name_wp. intros [fname s2] H2.
      destruct (fname =s "on"); [done|]. wp_step expect_name_wp. intros [on s3] H3.
      destruct (negb _); [done|]. wp_step expect_name_wp. intros [ty s4] H4.
      wp_step parse_directives_wp. intros s5 H5. wp_step start_selection_set_wp. intros [set s6] H6.
      destruct (frags !! fname); [done|shrink].
    + destruct (is_operation name); [|done].
      wp_step expect_name_wp. intros [? s1] H1. apply peek_wp. intros t.
      apply wp_bind. apply (wp_mono _ (fun r => (length r <= length s1)%nat)).
      { destruct t; try (simpl; lia). wp_step expect_name_wp. intros [x s2] H2. shrink. }
      intros s2 H2. apply peek_wp. intros t'.
      apply wp_bind. apply (wp_mono _ (fun r => (length r <= length s2)%nat)).
      { destruct (token_eqb t' ParenL); [|simpl; lia]. eapply wp_mono; [apply parse_variable_defs_wp|].
        intros r Hr. shrink. }
      intros s3 H3. wp_step parse_directives_wp. intros s4 H4.
      wp_step start_selection_set_wp. intros [set s5] H5. shrink.
  - wp_step start_selection_set_wp. intros [set s1] H1. shrink.
Qed.

Lemma parse_document_no_fuel (source : bytes) : parse_document source <> NoFuel.
Proof.
  unfold parse_document. destruct (is_empty _); [done|].
  pose proof (document_loop_wp (fuel_for (skip_ignored source)) [] ∅ (skip_ignored source)
    ltac:(unfold fuel_for; lia)) as H.
  intros E. by rewrite E in H.
Qed.

(** ** Round trip

    Documents as text, every token after a space. *)

Definition tk (b : Z) : bytes := [32; b].
Definition show_name (name : bytes) : bytes := 32 :: name.
Definition show_i64 (n : Z) : bytes := if n <? 0 then 45 :: show_dec (- n) else show_dec n.

Definition show_value (v : GqlValue) : bytes :=
  match v with
  | GInt n => 32 :: show_i64 n
  | GVariable name => tk 36 ++ show_name name
  | GOther => show_name "null"
  end.

Definition show_arg (arg : bytes * GqlValue) : bytes := show_name arg.1 ++ tk 58 ++ show_value arg.2.
Definition show_args (args : list (bytes * GqlValue)) : bytes :=
  if is_empty args then [] else tk 40 ++ flat_map show_arg args ++ tk 41.

Fixpoint show_selection (s : Selection) : bytes :=
  match s with
  | Field alias name args selection =>
      (if alias then show_name "alias" ++ tk 58 else []) ++ show_name name ++ show_args args
      ++ match selection with
         | Some set => tk 123 ++ flat_map show_selection set ++ tk 125
         | None => []
         end
  | Spread name => show_name "..." ++ show_name name
  | Inline set => show_name "..." ++ tk 123 ++ flat_map show_selection set ++ tk 125
  end.
Definition show_set (set : list Selection) : bytes := tk 123 ++ flat_map show_selection set ++ tk 125.
Definition show_fragment (f : bytes * list Selection) : bytes :=
  show_name "fragment" ++ show_name f.1 ++ show_name "on" ++ show_name "Type" ++ show_set f.2.
Definition show_document (ops : list (list Selection)) (frags : list (bytes * list Selection)) : bytes :=
  flat_map show_set ops ++ flat_map show_fragment frags.

Definition valid_name (name : bytes) : bool :=
  match name with b :: r => is_name_start b && forallb is_name_byte r | [] => false end.
Definition valid_value (v : GqlValue) : Prop :=
  match v with GInt n => i64_min <= n <= i64_max | GVariable name => valid_name name = true | GOther => True end.
Definition valid_arg (arg : bytes * GqlValue) : Prop := valid_name arg.1 = true /\ valid_value arg.2.

(** The selections that can stand inside [n] selection sets. *)
Inductive wf_selection : Z -> Selection -> Prop :=
| wf_leaf n alias name args : valid_name name = true -> Forall valid_arg args ->
    wf_selection n (Field alias name args None)
| wf_node n alias name args set : valid_name name = true -> Forall valid_arg args ->
    n < HARD_DEPTH -> set <> [] -> Forall (wf_selection (n + 1)) set ->
    wf_selection n (Field alias name args (Some set))
| wf_spread n name : valid_name name = true -> name <> lit "on" -> wf_selection n (Spread name)
| wf_inline n set : n < HARD_DEPTH -> set <> [] -> Forall (wf_selection (n + 1)) set ->
    wf_selection n (Inline set).
Definition wf_set (set : list Selection) : Prop := set <> [] /\ Forall (wf_selection 1) set.

(** *** Tokens of a text *)

Definition plain (b : Z) : bool := in_range 33 126 b && negb (b =? 44) && negb (b =? 35).
Definition spaced (rest : bytes) : Prop := match rest with [] => True | b :: _ => b = 32 end.

Lemma plain_stop b r : plain b = true ->
  ws_comma (b :: r) = None /\ strip_prefix [35] (b :: r) = None /\ strip_prefix BOM (b :: r) = None.
Proof.
  unfold plain, in_range. intros H. bool_to_prop. unfold BOM. cbn [ws_comma strip_prefix].
  rewrite (proj2 (Z.eqb_neq b 44)), (proj2 (Z.eqb_neq 35 b)), (proj2 (Z.eqb_neq 239 b)) by lia.
  split; [|done]. unfold ws_head, ws1, ws2, ws3, in_range.
  rewrite (proj2 (Z.leb_gt b 13)), andb_false_r, (proj2 (Z.eqb_neq b 32)) by lia. cbn [orb].
  destruct r as [|d [|e r]]; [done|..];
    rewrite (proj2 (Z.eqb_neq b 194)), ?(proj2 (Z.eqb_neq b 225)), ?(proj2 (Z.eqb_neq b 226)),
      ?(proj2 (Z.eqb_neq b 227)) by lia; done.
Qed.

Lemma skip_plain b r : plain b = true -> skip_ignored (b :: r) = b :: r.
Proof.
  intros (Hw & H1 & H2)%(plain_stop _ r). unfold skip_ignored. cbn [length skip_loop].
  unfold skip_ws_comma. cbn [length strip_while]. by rewrite Hw, H1, H2.
Qed.

Lemma skip_space b r : plain b = true -> skip_ignored (32 :: b :: r) = b :: r.
Proof.
  intros (Hw & H1 & H2)%(plain_stop _ r). unfold skip_ignored. cbn [length skip_loop].
  unfold skip_ws_comma. cbn [length strip_while].
  change (ws_comma (32 :: b :: r)) with (Some (b :: r)). cbv iota beta. by rewrite Hw, H1, H2.
Qed.

Lemma next_space b r : plain b = true -> next_token (32 :: b :: r) = unread (lex (b :: r)).
Proof. intros Hb. unfold next_token. by rewrite skip_space. Qed.

Lemma next_punct b t r : plain b = true -> punct b = Some t -> next_token (tk b ++ r) = Done (t, r).
Proof. intros Hb Ht. cbn [tk app]. rewrite next_space by done. cbn [lex]. by rewrite Ht. Qed.

Lemma name_start_plain b : is_name_start b = true -> plain b = true /\ punct b = None /\ b <> 46 /\ b <> 34.
Proof.
  intros H. assert (Hb : 65 <= b <= 90 \/ b = 95 \/ 97 <= b <= 122).
  { unfold is_name_start, is_ascii_alphabetic, is_ascii_uppercase, is_ascii_lowercase, in_range in H.
    repeat (apply orb_true_iff in H as [H|H]); bool_to_prop; lia. }
  clear H. split_and!; [| |lia|lia].
  - unfold plain, in_range. rewrite !andb_true_iff, !negb_true_iff, !Z.leb_le, !Z.eqb_neq. lia.
  - unfold punct. repeat (rewrite (proj2 (Z.eqb_neq b _)) by lia). done.
Qed.

Lemma next_name name rest : valid_name name = true -> stops is_name_byte rest ->
  next_token (show_name name ++ rest) = Done (TName name, rest).
Proof.
  destruct name as [|b name]; [done|]. cbn [valid_name show_name app].
  intros [Hb Hn]%andb_true_iff Hr. destruct (name_start_plain b Hb) as (Hp & Hu & H46 & H34).
  rewrite next_space by done. cbn [lex]. rewrite Hu, (proj2 (Z.eqb_neq _ _) H46), (proj2 (Z.eqb_neq _ _) H34), Hb.
  unfold take_name. by rewrite span_app.
Qed.

Lemma spaced_stops rest : spaced rest -> stops is_name_byte rest.
Proof. destruct rest; [done|]. by intros ->. Qed.

Lemma digit_start d : is_ascii_digit d = true ->
  plain d = true /\ punct d = None /\ is_name_start d = false /\ d <> 45 /\ d <> 46 /\ d <> 34.
Proof.
  unfold is_ascii_digit, in_range. intros H. bool_to_prop. split_and!; try lia.
  - unfold plain, in_range. rewrite !andb_true_iff, !negb_true_iff, !Z.leb_le, !Z.eqb_neq. lia.
  - unfold punct. repeat (rewrite (proj2 (Z.eqb_neq d _)) by lia). done.
  - unfold is_name_start, is_ascii_alphabetic, is_ascii_uppercase, is_ascii_lowercase, in_range.
    rewrite (proj2 (Z.leb_gt 65 d)), (proj2 (Z.leb_gt 97 d)), (proj2 (Z.eqb_neq d 95)) by lia. done.
Qed.

Lemma take_number_digits sign digits rest : forallb is_ascii_digit digits = true -> digits <> [] ->
  spaced rest -> sign = [45] \/ sign = [] ->
  take_number (sign ++ digits ++ rest) = Done (TInt (sign ++ digits), rest).
Proof.
  intros Hd Hne Hr Hs. destruct digits as [|d digits]; [done|].
  destruct (digit_start d) as (_ & _ & _ & H45 & _); [simpl in Hd; by apply andb_true_iff in Hd as [? _]|].
  assert (Hstop : stops is_ascii_digit rest) by (destruct rest; [done|]; by rewrite Hr).
  unfold take_number. destruct Hs as [-> | ->]; cbn [app strip_prefix].
  - rewrite Z.eqb_refl. change (d :: digits ++ rest) with ((d :: digits) ++ rest).
    rewrite span_app by done. destruct rest as [|b rest]; [done|]. simpl in Hr. by subst b.
  - rewrite (proj2 (Z.eqb_neq 45 d)) by lia. change (d :: digits ++ rest) with ((d :: digits) ++ rest).
    rewrite span_app by done. destruct rest as [|b rest]; [done|]. simpl in Hr. by subst b.
Qed.

Lemma next_number sign digits rest : forallb is_ascii_digit digits = true -> digits <> [] ->
  spaced rest -> sign = [45] \/ sign = [] ->
  next_token (32 :: sign ++ digits ++ rest) = Done (TInt (sign ++ digits), rest).
Proof.
  intros Hd Hne Hr Hs. pose proof (take_number_digits sign digits rest Hd Hne Hr Hs) as Hn.
  destruct digits as [|d digits]; [done|].
  assert (Hdd : is_ascii_digit d = true) by (simpl in Hd; by apply andb_true_iff in Hd as [? _]).
  destruct (digit_start d Hdd) as (Hpl & Hpu & Hns & H45 & H46 & H34).
  destruct Hs as [-> | ->]; cbn [app] in *; rewrite next_space by done; unfold lex.
  - change (unread (take_number (45 :: d :: digits ++ rest)) = Done (TInt (45 :: d :: digits), rest)). by rewrite Hn.
  - rewrite Hpu, (proj2 (Z.eqb_neq _ _) H46), (proj2 (Z.eqb_neq _ _) H34), Hns, Hdd, orb_true_r. by rewrite Hn.
Qed.

Lemma show_dec_digits n : 0 <= n <= - i64_min ->
  forallb is_ascii_digit (show_dec n) = true /\ show_dec n <> [].
Proof.
  intros Hn. destruct (show_dec_shape n 19) as (? & _ & ?); [|done].
  unfold i64_min in Hn. split; [lia|]. change (10 ^ Z.of_nat 20) with 100000000000000000000. lia.
Qed.

Lemma parse_i64_show n : i64_min <= n <= i64_max -> parse_i64 (show_i64 n) = Some n.
Proof.
  intros Hn. unfold show_i64, parse_i64. unfold i64_max in *.
  destruct (Z.ltb_spec n 0); [rewrite parse_digits_show by (unfold i64_min in *; lia); f_equal; lia|].
  pose proof (parse_uint_show (2 ^ 63 - 1) n ltac:(lia)) as Hp.
  destruct (show_dec_digits n) as [Hd _]; [unfold i64_min in *; lia|].
  destruct (show_dec n) as [|d r]; [done|]. simpl in Hd. apply andb_true_iff in Hd as [Hd _].
  unfold is_ascii_digit, in_range in Hd. bool_to_prop.
  destruct d as [|d|d]; try lia. destruct (decide (d = 45%positive)) as [->|]; [lia|].
  by repeat case_match; simplify_eq.
Qed.

Lemma next_int n rest : i64_min <= n <= i64_max -> spaced rest ->
  next_token ((32 :: show_i64 n) ++ rest) = Done (TInt (show_i64 n), rest).
Proof.
  intros Hn Hr. unfold show_i64. unfold i64_max in *. destruct (Z.ltb_spec n 0).
  - destruct (show_dec_digits (- n)) as [Hd Hne]; [unfold i64_min in *; lia|].
    apply (next_number [45]); auto.
  - destruct (show_dec_digits n) as [Hd Hne]; [unfold i64_min in *; lia|].
    apply (next_number []); auto.
Qed.

(** *** Values, arguments, selections *)

Lemma show_value_spaced v rest : spaced (show_value v ++ rest).
Proof. by destruct v. Qed.
Lemma show_name_spaced n rest : spaced (show_name n ++ rest).
Proof. done. Qed.
Lemma tk_spaced b rest : spaced (tk b ++ rest).
Proof. done. Qed.

Lemma expect_show name rest : valid_name name = true -> spaced rest ->
  expect_name (show_name name ++ rest) = Done (name, rest).
Proof. intros Hn Hr. unfold expect_name. by rewrite next_name by (try done; by apply spaced_stops). Qed.

Lemma eat_punct b t rest : plain b = true -> punct b = Some t -> eat t (tk b ++ rest) = Done rest.
Proof.
  intros Hb Ht. unfold eat. rewrite (next_punct b t) by done. unfold mbind, fueled_bind, token_eqb.
  by rewrite bool_decide_eq_true_2.
Qed.

Lemma peek_punct b t rest : plain b = true -> punct b = Some t -> peek_token (tk b ++ rest) = Done t.
Proof. intros Hb Ht. unfold peek_token. by rewrite (next_punct b t) by done. Qed.

Lemma peek_name name rest : valid_name name = true -> spaced rest ->
  peek_token (show_name name ++ rest) = Done (TName name).
Proof. intros Hn Hr. unfold peek_token. by rewrite next_name by (try done; by apply spaced_stops). Qed.

Lemma parse_value_show v rest fuel : valid_value v -> spaced rest -> (0 < fuel)%nat ->
  parse_value fuel 0 (show_value v ++ rest) = Done (v, rest).
Proof.
  intros Hv Hr Hf. destruct fuel as [|fuel]; [lia|]. cbn [parse_value].
  change (HARD_VALUE_DEPTH <? 0) with false. cbv iota. destruct v as [n|name|]; cbn [show_value].
  - rewrite next_int by done. unfold mbind, fueled_bind. by rewrite parse_i64_show.
  - rewrite <- app_assoc, (next_punct 36 Dollar) by done. unfold mbind, fueled_bind.
    by rewrite expect_show.
  - rewrite next_name; [done|done|by apply spaced_stops].
Qed.

Lemma show_args_cons name v args rest : flat_map show_arg ((name, v) :: args) ++ rest
  = show_name name ++ tk 58 ++ show_value v ++ flat_map show_arg args ++ rest.
Proof. cbn [flat_map]. unfold show_arg at 1. cbn [fst snd]. by rewrite <- !app_assoc. Qed.

Lemma arguments_loop_show args : forall fuel rest, Forall valid_arg args -> (length args < fuel)%nat ->
  arguments_loop fuel (flat_map show_arg args ++ tk 41 ++ rest) = Done (args, rest).
Proof.
  induction args as [|[name v] args IH]; intros fuel rest Ha Hf; (destruct fuel as [|fuel]; [simpl in Hf; lia|]);
    cbn [arguments_loop].
  - cbn [flat_map app]. rewrite (peek_punct 41 ParenR) by done. unfold mbind, fueled_bind. cbn [token_eqb].
    rewrite (eat_punct 41 ParenR) by done. done.
  - apply Forall_cons in Ha as [[Hn Hv] Ha]. cbn [fst snd] in *.
    rewrite show_args_cons, peek_name by done. unfold mbind, fueled_bind.
    change (token_eqb (TName name) ParenR) with false. cbv iota.
    rewrite expect_show by done. rewrite (eat_punct 58 Colon) by done.
    rewrite parse_value_show; [|done|by destruct args as [|[]]|unfold fuel_for; lia].
    rewrite IH; [done|done|simpl in Hf; lia].
Qed.

Lemma token_eqb_false a b : a <> b -> token_eqb a b = false.
Proof. intros. unfold token_eqb. by apply bool_decide_eq_false_2. Qed.

Lemma parse_arguments_show args rest : args <> [] -> Forall valid_arg args ->
  parse_arguments (show_args args ++ rest) = Done (args, rest).
Proof.
  intros Hne Ha. unfold show_args, parse_arguments. rewrite (proj2 (is_empty_false args)) by done.
  rewrite <- !app_assoc, (eat_punct 40 ParenL) by done. unfold mbind, fueled_bind.
  rewrite arguments_loop_show; [by rewrite (proj2 (is_empty_false args)) by done|done|].
  assert (length args <= length (flat_map show_arg args))%nat.
  { clear. induction args as [|[n v] args IH]; [simpl; lia|]. cbn [flat_map]. rewrite length_app.
    change (show_arg (n, v)) with (32 :: n ++ tk 58 ++ show_value v). cbn [length]. lia. }
  unfold fuel_for. rewrite length_app. lia.
Qed.

(** No directive, alias, argument or selection set continues here. *)
Definition field_ends (t : Token) : Prop := t <> Colon /\ t <> ParenL /\ t <> At.

Lemma parse_directives_none s t : peek_token s = Done t -> t <> At -> parse_directives s = Done s.
Proof.
  intros Hp Ht. unfold parse_directives, fuel_for. rewrite Nat.add_comm. cbn [directives_loop Nat.add].
  unfold peek_token, next_token in Hp. destruct (lex (skip_ignored s)) as [[t' r]| |]; simplify_eq/=. by destruct t.
Qed.

Lemma show_args_peek args rest t : field_ends t -> peek_token rest = Done t ->
  exists t', peek_token (show_args args ++ rest) = Done t' /\ t' <> Colon
    /\ (t' = ParenL <-> args <> []) /\ (args = [] -> t' = t).
Proof.
  intros (H1 & H2 & H3) Hp. destruct args as [|a args].
  - exists t. done.
  - exists ParenL. unfold show_args. cbn [is_empty]. rewrite <- !app_assoc, (peek_punct 40 ParenL) by done. done.
Qed.

Lemma show_args_spaced args rest : spaced rest -> spaced (show_args args ++ rest).
Proof. by destruct args. Qed.

Lemma parse_field_head_show (alias : bool) name args rest t : valid_name name = true -> Forall valid_arg args ->
  spaced rest -> peek_token rest = Done t -> field_ends t ->
  parse_field_head ((if alias then show_name "alias" ++ tk 58 else []) ++ show_name name ++ show_args args ++ rest)
  = Done (alias, name, args, rest).
Proof.
  intros Hn Ha Hr Hp Ht. destruct (show_args_peek args rest t Ht Hp) as (t' & Hp' & Hc & Hpar & Ht').
  assert (Hargs : (t ← peek_token (show_args args ++ rest);
                   '(args, s) ← (if token_eqb t ParenL then parse_arguments (show_args args ++ rest)
                                 else Done ([], show_args args ++ rest));
                   s ← parse_directives s; Done (alias, name, args, s)) = Done (alias, name, args, rest)).
  { rewrite Hp'. unfold mbind, fueled_bind. destruct (decide (args = [])) as [->|Hne].
    - rewrite (Ht' eq_refl), (token_eqb_false t ParenL) by apply Ht. cbn [show_args is_empty app].
      by rewrite (parse_directives_none _ t) by (try done; apply Ht).
    - rewrite (proj2 Hpar Hne). change (token_eqb ParenL ParenL) with true. cbv iota.
      rewrite parse_arguments_show by done. by rewrite (parse_directives_none _ t) by (try done; apply Ht). }
  unfold parse_field_head. destruct alias.
  - rewrite <- !app_assoc, expect_show by done. cbn [mbind fueled_bind].
    rewrite (peek_punct 58 Colon) by done. cbn [mbind fueled_bind].
    change (token_eqb Colon Colon) with true. cbv iota. rewrite (eat_punct 58 Colon) by done.
    cbn [mbind fueled_bind]. rewrite expect_show by (try done; by apply show_args_spaced). exact Hargs.
  - cbn [app]. rewrite expect_show by (try done; by apply show_args_spaced). cbn [mbind fueled_bind].
    rewrite Hp'. cbn [mbind fueled_bind]. rewrite (token_eqb_false t' Colon) by done. cbn [mbind fueled_bind].
    exact Hargs.
Qed.

(** The parser of a selection sees its text through the next token only. *)
Lemma parse_selection_skip fuel n s : skip_ignored (skip_ignored s) = skip_ignored s ->
  parse_selection fuel n (skip_ignored s) = parse_selection fuel n s.
Proof.
  intros Hs. destruct fuel as [|fuel]; [done|]. cbn [parse_selection].
  unfold peek_token, eat, parse_field_head, expect_name, next_token. by rewrite Hs.
Qed.

(** A shown selection starts with a name or dots, after a space. *)
Definition item_start (s : bytes) : Prop :=
  exists b r, s = 32 :: b :: r /\ plain b = true
    /\ exists t, peek_token s = Done t /\ field_ends t /\ t <> BraceR /\ t <> BraceL.

Lemma name_start name r : valid_name name = true -> exists b r0, show_name name ++ r = 32 :: b :: r0
  /\ plain b = true /\ exists x, peek_token (show_name name ++ r) = Done (TName x).
Proof.
  destruct name as [|b name]; [done|]. intros [Hb _]%andb_true_iff. exists b, (name ++ r). split; [done|].
  destruct (name_start_plain b Hb) as (Hp & Hu & H46 & H34). split; [done|].
  unfold peek_token. cbn [show_name app]. rewrite next_space by done. unfold lex.
  rewrite Hu, (proj2 (Z.eqb_neq _ _) H46), (proj2 (Z.eqb_neq _ _) H34), Hb.
  unfold take_name. destruct (span _ _). by eexists.
Qed.

Lemma peek_starts_name name r : valid_name name = true ->
  exists x, peek_token (show_name name ++ r) = Done (TName x).
Proof. intros (_ & _ & _ & _ & H)%(name_start _ r). exact H. Qed.

Lemma show_selection_start n s rest : wf_selection n s -> item_start (show_selection s ++ rest).
Proof.
  assert (Hname : forall name r, valid_name name = true -> item_start (show_name name ++ r)).
  { intros name r (b & r0 & E & Hb & x & Hx)%(name_start _ r). exists b, r0. split; [done|].
    split; [done|]. eauto. by exists (TName x). }
  intros Hw. destruct Hw; cbn [show_selection].
  1, 2: destruct alias; cbn [app]; rewrite <- !app_assoc; by apply Hname.
  all: rewrite <- ?app_assoc; eexists 46, _; (split; [reflexivity|]); (split; [done|]); exists Spread3;
    (split; [|done]); unfold peek_token;
    match goal with |- context [next_token (show_name _ ++ ?r)] =>
      change (show_name "..." ++ r) with (32 :: 46 :: 46 :: 46 :: r) end;
    by rewrite next_space by done.
Qed.

Lemma peek_token_skip s : skip_ignored (skip_ignored s) = skip_ignored s ->
  peek_token (skip_ignored s) = peek_token s.
Proof. intros Hs. unfold peek_token, next_token. by rewrite Hs. Qed.

Lemma eat_skip t s : skip_ignored (skip_ignored s) = skip_ignored s -> eat t (skip_ignored s) = eat t s.
Proof. intros Hs. unfold eat, next_token. by rewrite Hs. Qed.

Lemma skip_idem_space b r : plain b = true ->
  skip_ignored (skip_ignored (32 :: b :: r)) = skip_ignored (32 :: b :: r).
Proof. intros Hb. by rewrite skip_space, skip_plain by done. Qed.

Lemma items_peek n items rest : Forall (wf_selection n) items ->
  exists t, peek_token (flat_map show_selection items ++ tk 125 ++ rest) = Done t
    /\ field_ends t /\ t <> BraceL.
Proof.
  intros Hw. destruct items as [|item items].
  - exists BraceR. cbn [flat_map app]. by rewrite (peek_punct 125 BraceR) by done.
  - apply Forall_cons in Hw as [Hw _]. cbn [flat_map]. rewrite <- app_assoc.
    destruct (show_selection_start n item (flat_map show_selection items ++ tk 125 ++ rest) Hw)
      as (? & ? & ? & ? & t & ? & ? & ? & ?). eauto.
Qed.

Lemma items_spaced n items rest : Forall (wf_selection n) items ->
  spaced (flat_map show_selection items ++ tk 125 ++ rest).
Proof.
  intros Hw. destruct items as [|item items]; [done|]. apply Forall_cons in Hw as [Hw _].
  cbn [flat_map]. rewrite <- app_assoc.
  destruct (show_selection_start n item (flat_map show_selection items ++ tk 125 ++ rest) Hw)
    as (? & ? & -> & _). done.
Qed.

Definition set_shown fuel : Prop := forall n set rest,
  n < HARD_DEPTH -> set <> [] -> Forall (wf_selection (n + 1)) set ->
  (2 * length (show_set set ++ rest) + 2 <= fuel)%nat ->
  parse_selection_set fuel n (show_set set ++ rest) = Done (set, rest).
Definition items_shown fuel : Prop := forall n items rest,
  Forall (wf_selection n) items ->
  (2 * length (flat_map show_selection items ++ tk 125 ++ rest) + 3 <= fuel)%nat ->
  items_loop fuel n (flat_map show_selection items ++ tk 125 ++ rest) = Done (items, rest).
Definition selection_shown fuel : Prop := forall n item rest t,
  wf_selection n item -> spaced rest -> peek_token rest = Done t -> field_ends t -> t <> BraceL ->
  (2 * length (show_selection item ++ rest) + 1 <= fuel)%nat ->
  parse_selection fuel n (show_selection item ++ rest) = Done (item, rest).

Lemma set_shown_S fuel : items_shown fuel -> set_shown (S fuel).
Proof.
  intros IH n set rest Hn Hne Hw Hf. cbn [parse_selection_set].
  rewrite (proj2 (Z.leb_gt HARD_DEPTH n)) by lia. unfold show_set in *. rewrite <- !app_assoc in *.
  rewrite (eat_punct 123 BraceL) by done. cbn [mbind fueled_bind].
  rewrite IH; [|done|simpl in Hf |- *; lia]. cbn [mbind fueled_bind].
  by rewrite (proj2 (is_empty_false set)) by done.
Qed.

Lemma items_shown_S fuel : items_shown fuel -> selection_shown fuel -> items_shown (S fuel).
Proof.
  intros IHi IHs n items rest Hw Hf. cbn [items_loop]. destruct items as [|item items].
  - cbn [flat_map app] in *. rewrite peek_token_skip, (peek_punct 125 BraceR)
      by (try done; by apply skip_idem_space). cbn [mbind fueled_bind].
    change (token_eqb BraceR BraceR) with true. cbv iota.
    rewrite eat_skip, (eat_punct 125 BraceR) by (try done; by apply skip_idem_space). done.
  - apply Forall_cons in Hw as [Hw Hws]. cbn [flat_map] in *. rewrite <- app_assoc in *.
    destruct (items_peek n items rest Hws) as (t & Hp & Ht & HtL).
    pose proof (items_spaced n items rest Hws) as Hsp.
    set (R := flat_map show_selection items ++ tk 125 ++ rest) in *.
    destruct (show_selection_start n item R Hw) as (b & r & E & Hb & t0 & Hp0 & Ht0 & HR & _).
    assert (Hskip : skip_ignored (skip_ignored (show_selection item ++ R)) = skip_ignored (show_selection item ++ R))
      by (rewrite E; by apply skip_idem_space).
    rewrite peek_token_skip, Hp0 by done. cbn [mbind fueled_bind]. rewrite token_eqb_false by done.
    rewrite parse_selection_skip by done. rewrite (IHs _ _ _ t); [|done..|lia]. cbn [mbind fueled_bind].
    subst R. rewrite IHi; [done|done|].
    assert (1 <= length (show_selection item))%nat.
    { destruct Hw as [? [] | ? [] | |]; cbn [show_selection show_name app length]; lia. }
    rewrite length_app in Hf. lia.
Qed.

Lemma field_peek (alias : bool) name r : valid_name name = true ->
  exists x, peek_token ((if alias then show_name "alias" ++ tk 58 else []) ++ show_name name ++ r)
            = Done (TName x).
Proof. intros Hn. destruct alias; rewrite <- ?app_assoc; by apply peek_starts_name. Qed.

Lemma dots_shown r : peek_token (show_name "..." ++ r) = Done Spread3
  /\ eat Spread3 (show_name "..." ++ r) = Done r.
Proof.
  change (show_name "..." ++ r) with (32 :: 46 :: 46 :: 46 :: r).
  unfold peek_token, eat. by rewrite !next_space by done.
Qed.

Lemma show_set_app set rest :
  tk 123 ++ flat_map show_selection set ++ tk 125 ++ rest = show_set set ++ rest.
Proof. unfold show_set. by rewrite <- !app_assoc. Qed.

Lemma show_set_peek set rest : peek_token (show_set set ++ rest) = Done BraceL.
Proof. rewrite <- show_set_app. by rewrite (peek_punct 123 BraceL) by done. Qed.

Lemma selection_shown_S fuel : set_shown fuel -> selection_shown (S fuel).
Proof.
  intros IH n item rest t Hw Hr Hp Ht HtL Hf. cbn [parse_selection].
  destruct Hw as [n alias name args Hn Ha | n alias name args set Hn Ha Hlt Hne Hws
    | n name Hn Hon | n set Hlt Hne Hws]; cbn [show_selection] in *; rewrite <- !app_assoc in *.
  - rewrite app_nil_l. destruct (field_peek alias name (show_args args ++ rest) Hn) as [x Hx].
    rewrite Hx. cbn [mbind fueled_bind]. rewrite token_eqb_false by done.
    rewrite (parse_field_head_show _ _ _ _ t) by done. cbn [mbind fueled_bind]. rewrite Hp.
    cbn [mbind fueled_bind]. by rewrite token_eqb_false by done.
  - rewrite show_set_app in *. destruct (field_peek alias name (show_args args ++ show_set set ++ rest) Hn) as [x Hx].
    rewrite Hx. cbn [mbind fueled_bind]. rewrite token_eqb_false by done.
    rewrite (parse_field_head_show _ _ _ _ BraceL) by (try done; apply show_set_peek). cbn [mbind fueled_bind].
    rewrite show_set_peek. cbn [mbind fueled_bind]. change (token_eqb BraceL BraceL) with true. cbv iota.
    rewrite IH; [done..|]. rewrite length_app. rewrite length_app, (length_app (show_name name)), !length_app in Hf.
    change (length (show_name name)) with (S (length name)) in Hf. lia.
  - destruct (dots_shown (show_name name ++ rest)) as [-> ->]. cbn [mbind fueled_bind].
    change (token_eqb Spread3 Spread3) with true. cbv iota. cbn [mbind fueled_bind].
    rewrite peek_name by done. cbn [mbind fueled_bind]. rewrite expect_show by done. cbn [mbind fueled_bind].
    destruct (name =s "on") eqn:E; [by apply bytes_eqb_eq in E|].
    rewrite (parse_directives_none _ t) by (try done; apply Ht). done.
  - rewrite show_set_app in *. destruct (dots_shown (show_set set ++ rest)) as [-> ->]. cbn [mbind fueled_bind].
    change (token_eqb Spread3 Spread3) with true. cbv iota. cbn [mbind fueled_bind].
    rewrite show_set_peek. cbn [mbind fueled_bind].
    rewrite (parse_directives_none _ BraceL) by (try done; apply show_set_peek). cbn [mbind fueled_bind].
    rewrite IH; [done..|]. rewrite length_app in Hf.
    change (length (show_name "...")) with 4%nat in Hf. lia.
Qed.

Lemma all_shown fuel : set_shown fuel /\ items_shown fuel /\ selection_shown fuel.
Proof.
  induction fuel as [|fuel (IHs & IHi & IHe)].
  - unfold set_shown, items_shown, selection_shown. split_and!; intros; lia.
  - auto using set_shown_S, items_shown_S, selection_shown_S.
Qed.

Lemma start_selection_set_show set rest : wf_set set ->
  start_selection_set (show_set set ++ rest) = Done (set, rest).
Proof.
  intros [Hne Hw]. unfold start_selection_set. apply all_shown; [done|done|done|]. unfold fuel_for. lia.
Qed.

(** *** Documents *)

Definition wf_fragment (f : bytes * list Selection) : Prop :=
  valid_name f.1 = true /\ f.1 <> lit "on" /\ wf_set f.2.

Lemma show_set_skip set rest :
  skip_ignored (show_set set ++ rest) = 123 :: flat_map show_selection set ++ tk 125 ++ rest
  /\ skip_ignored (skip_ignored (show_set set ++ rest)) = skip_ignored (show_set set ++ rest).
Proof. rewrite <- show_set_app. split; [by apply skip_space|by apply skip_idem_space]. Qed.

Lemma document_set fuel ops frags set rest : wf_set set ->
  document_loop (S fuel) ops frags (skip_ignored (show_set set ++ rest))
  = document_loop fuel (ops ++ [set]) frags (skip_ignored rest).
Proof.
  intros [Hne Hw]. destruct (show_set_skip set rest) as [E Hi]. cbn [document_loop].
  rewrite peek_token_skip, show_set_peek by done. cbn [mbind fueled_bind].
  assert (Hs : start_selection_set (skip_ignored (show_set set ++ rest)) = Done (set, rest)).
  { unfold start_selection_set.
    assert (Hf : fuel_for (skip_ignored (show_set set ++ rest)) = S (2 * length (show_set set ++ rest) + 1)).
    { rewrite E. unfold fuel_for. rewrite <- show_set_app. cbn [tk app length]. lia. }
    rewrite Hf. cbn [parse_selection_set]. rewrite eat_skip by done.
    apply (set_shown_S _ (proj1 (proj2 (all_shown _))) 0); [done|done|done|lia]. }
  rewrite Hs, E. done.
Qed.

Lemma expect_name_skip s : skip_ignored (skip_ignored s) = skip_ignored s ->
  expect_name (skip_ignored s) = expect_name s.
Proof. intros Hs. unfold expect_name, next_token. by rewrite Hs. Qed.

Lemma show_fragment_app f rest : show_fragment f ++ rest
  = show_name "fragment" ++ show_name f.1 ++ show_name "on" ++ show_name "Type" ++ show_set f.2 ++ rest.
Proof. unfold show_fragment. by rewrite <- !app_assoc. Qed.

Lemma document_fragment fuel ops frags f rest : wf_fragment f -> frags !! f.1 = None ->
  document_loop (S fuel) ops frags (skip_ignored (show_fragment f ++ rest))
  = document_loop fuel ops (<[f.1 := f.2]> frags) (skip_ignored rest).
Proof.
  intros (Hn & Hon & Hs) Hf. rewrite show_fragment_app.
  set (R := show_name f.1 ++ show_name "on" ++ show_name "Type" ++ show_set f.2 ++ rest).
  assert (Hi : skip_ignored (skip_ignored (show_name "fragment" ++ R)) = skip_ignored (show_name "fragment" ++ R))
    by by apply skip_idem_space.
  assert (E : is_empty (skip_ignored (show_name "fragment" ++ R)) = false).
  { change (show_name "fragment" ++ R) with (32 :: 102 :: lit "ragment" ++ R). by rewrite skip_space. }
  cbn [document_loop]. rewrite E, peek_token_skip, peek_name by done. cbn [mbind fueled_bind].
  change (lit "fragment" =s "fragment") with true. cbv iota.
  rewrite expect_name_skip, expect_show by done. cbn [mbind fueled_bind]. subst R.
  rewrite expect_show by done. cbn [mbind fueled_bind].
  destruct (f.1 =s "on") eqn:E1; [by apply bytes_eqb_eq in E1|].
  rewrite expect_show by done. cbn [mbind fueled_bind]. change (negb (lit "on" =s "on")) with false. cbv iota.
  rewrite expect_show by (try done; by rewrite <- show_set_app). cbn [mbind fueled_bind].
  rewrite (parse_directives_none _ BraceL) by (try done; apply show_set_peek). cbn [mbind fueled_bind].
  rewrite start_selection_set_show by done. cbn [mbind fueled_bind]. by rewrite Hf.
Qed.

Lemma document_fragments frags : forall fuel ops m,
  Forall wf_fragment frags -> NoDup frags.*1 -> (forall name, name ∈ frags.*1 -> m !! name = None) ->
  (length frags < fuel)%nat ->
  document_loop fuel ops m (skip_ignored (flat_map show_fragment frags))
  = Done {| operations := ops; fragments := list_to_map frags ∪ m |}.
Proof.
  induction frags as [|f frags IH]; intros fuel ops m Hw Hd Hm Hf; (destruct fuel as [|fuel]; [simpl in Hf; lia|]).
  - simpl. by rewrite map_empty_union.
  - apply Forall_cons in Hw as [Hw Hws]. apply NoDup_cons in Hd as [Hn Hd]. cbn [flat_map].
    rewrite document_fragment; [|done|apply Hm; by left]. rewrite IH; [|done|done| |simpl in Hf; lia].
    + destruct f as [name set]. cbn [list_to_map foldr fst snd uncurry]. do 2 f_equal.
      rewrite <- insert_union_l, <- insert_union_r; [done|]. by apply not_elem_of_list_to_map.
    + intros name Hin. rewrite lookup_insert_ne; [apply Hm; by right|]. intros <-. done.
Qed.

Lemma document_sets ops : forall fuel acc rest, Forall wf_set ops ->
  document_loop (length ops + fuel) acc ∅ (skip_ignored (flat_map show_set ops ++ rest))
  = document_loop fuel (acc ++ ops) ∅ (skip_ignored rest).
Proof.
  induction ops as [|set ops IH]; intros fuel acc rest Hw; [by rewrite app_nil_r|].
  apply Forall_cons in Hw as [Hw Hws]. cbn [flat_map length Nat.add]. rewrite <- app_assoc.
  rewrite document_set, IH by done. by rewrite <- app_assoc.
Qed.

Lemma flat_map_length {A} (f : A -> bytes) (l : list A) : (forall x, 4 <= length (f x))%nat ->
  (4 * length l <= length (flat_map f l))%nat.
Proof.
  intros Hf. induction l as [|x l IH]; [done|]. cbn [flat_map length]. rewrite length_app.
  specialize (Hf x). lia.
Qed.

Lemma show_document_length ops frags : (0 < length ops + length frags)%nat ->
  (length ops + length frags < length (skip_ignored (show_document ops frags)))%nat.
Proof.
  intros Hn. unfold show_document.
  assert (Ho : (4 * length ops <= length (flat_map show_set ops))%nat).
  { apply flat_map_length. intros set. unfold show_set. rewrite !length_app. simpl. lia. }
  assert (Hf : (4 * length frags <= length (flat_map show_fragment frags))%nat).
  { apply flat_map_length. intros f. unfold show_fragment. rewrite !length_app. simpl. lia. }
  assert (Hs : exists b r, flat_map show_set ops ++ flat_map show_fragment frags = 32 :: b :: r /\ plain b = true).
  { destruct ops as [|set ops]; [destruct frags as [|f frags]; [simpl in Hn; lia|]|].
    - by eexists 102, _.
    - by eexists 123, _. }
  destruct Hs as (b & r & E & Hb). pose proof (f_equal length E) as Hl. rewrite length_app in Hl.
  rewrite E, skip_space by done. simpl in Hl |- *. lia.
Qed.

(** C28. Every document whose selection sets are nested at most 64 deep is parsed to its
    operations and fragments: the text of such a document, with arbitrary aliases, arguments,
    fragments and inline fragments, gives back exactly the document. *)
Theorem parse_document_roundtrip (ops : list (list Selection)) (frags : list (bytes * list Selection)) :
  Forall wf_set ops -> Forall wf_fragment frags -> NoDup frags.*1 -> ops <> [] \/ frags <> [] ->
  parse_document (show_document ops frags)
  = Done {| operations := ops; fragments := list_to_map frags |}.
Proof.
  intros Ho Hf Hd Hne. unfold parse_document, show_document.
  assert (Hlen : (length ops + length frags < length (skip_ignored (flat_map show_set ops
    ++ flat_map show_fragment frags)))%nat).
  { apply show_document_length. destruct ops, frags; simpl; try lia. by destruct Hne. }
  destruct (is_empty _) eqn:E; [apply is_empty_true in E; rewrite E in Hlen; simpl in Hlen; lia|].
  set (text := flat_map show_set ops ++ _) in *. unfold fuel_for.
  replace (2 * length (skip_ignored text) + 4)%nat
    with (length ops + (2 * length (skip_ignored text) + 4 - length ops))%nat by lia.
  subst text. rewrite document_sets by done. rewrite document_fragments; [|done|done|done|lia].
  by rewrite map_union_empty.
Qed.

Lemma parse_document_roundtrip_witness :
  parse_document (show_document [[Field true "user" [(lit "first", GInt (-3))] (Some [Spread "F"])]]
                    [(lit "F", [Inline [Field false "id" [] None]])])
  = Done {| operations := [[Field true "user" [(lit "first", GInt (-3))] (Some [Spread "F"])]];
              fragments := list_to_map [(lit "F", [Inline [Field false "id" [] None]])] |}.
Proof.
  apply parse_document_roundtrip.
  - constructor; [|constructor]. split; [done|]. constructor; [|constructor].
    apply wf_node; [done| |done|done|]; [constructor; [|constructor]; split; [done|]; cbn; unfold i64_min, i64_max; lia|].
    constructor; [|constructor]. by apply wf_spread.
  - constructor; [|constructor]. split; [done|]. split; [done|]. split; [done|].
    constructor; [|constructor]. apply wf_inline; [done|done|]. constructor; [|constructor].
    by apply wf_leaf.
  - decide_now.
  - by left.
Defined.

(** ** Nesting *)

(** The selection sets inside a selection, one in another. *)
Fixpoint nesting (s : Selection) : Z :=
  let deepest set := fold_right (fun x acc => Z.max (nesting x) acc) 0 set in
  match s with
  | Field _ _ _ (Some set) | Inline set => 1 + deepest set
  | _ => 0
  end.
Definition set_nesting (set : list Selection) : Z := 1 + fold_right (fun x acc => Z.max (nesting x) acc) 0 set.

Definition within_depth (n : Z) (s : Selection) : Prop := n + nesting s <= HARD_DEPTH.

Lemma deepest_within n set : n <= HARD_DEPTH -> Forall (within_depth n) set ->
  n + fold_right (fun x acc => Z.max (nesting x) acc) 0 set <= HARD_DEPTH.
Proof. intros Hn. induction 1 as [|x set Hx _ IH]; simpl; [lia|]. unfold within_depth in Hx. lia. Qed.

Lemma selection_within fuel :
  (forall n s, post (parse_selection_set fuel n s) (fun x => n + set_nesting x.1 <= HARD_DEPTH))
  /\ (forall n s, n <= HARD_DEPTH -> post (items_loop fuel n s) (fun x => Forall (within_depth n) x.1))
  /\ (forall n s, n <= HARD_DEPTH -> post (parse_selection fuel n s) (fun x => within_depth n x.1)).
Proof.
  induction fuel as [|fuel (IHs & IHi & IHe)]; [by split_and!|].
  split_and!; intros n s; cbn [parse_selection_set items_loop parse_selection].
  - destruct (Z.leb_spec HARD_DEPTH n) as [|Hn]; [done|]. apply post_bind. intros s1.
    eapply post_bind_with; [apply IHi; lia|]. intros [items s2] Hi a. destruct (is_empty items); [done|].
    intros [= <-]. cbn [fst] in *. apply deepest_within in Hi; [|lia]. unfold set_nesting. lia.
  - intros Hn. apply post_bind. intros t. destruct (token_eqb t BraceR).
    { apply post_bind. intros s1 a [= <-]. constructor. }
    eapply post_bind_with; [by apply IHe|]. intros [item s1] He.
    eapply post_bind_with; [by apply IHi|]. intros [items s2] Hi a [= <-]. by constructor.
  - intros Hn. apply post_bind. intros t.
    assert (Hset : forall s, post (s ← parse_directives s; '(set, s) ← parse_selection_set fuel n s; Done (Inline set, s))
      (fun x => within_depth n x.1)).
    { intros s1. apply post_bind. intros s2. eapply post_bind_with; [apply IHs|].
      intros [set s3] H a [= <-]. exact H. }
    destruct (token_eqb t Spread3).
    + apply post_bind. intros s1. apply post_bind. intros t'.
      destruct t'; try done; try apply Hset. apply post_bind. intros [? s2].
      destruct (name =s "on"); [apply post_bind; intros [? s3]; apply Hset|].
      apply post_bind. intros s3 a [= <-]. unfold within_depth. cbn. lia.
    + apply post_bind. intros [[[alias name] args] s1]. apply post_bind. intros t'.
      destruct (token_eqb t' BraceL); [|intros a [= <-]; unfold within_depth; cbn; lia].
      eapply post_bind_with; [apply IHs|]. intros [set s2] H a [= <-]. exact H.
Qed.

Definition document_within (d : Document) : Prop :=
  Forall (fun set => set_nesting set <= HARD_DEPTH) (operations d)
  /\ map_Forall (fun _ set => set_nesting set <= HARD_DEPTH) (fragments d).

Lemma document_loop_within fuel : forall ops frags s,
  document_within {| operations := ops; fragments := frags |} ->
  post (document_loop fuel ops frags s) document_within.
Proof.
  induction fuel as [|fuel IH]; intros ops frags s Hd; [done|]. cbn [document_loop].
  destruct (is_empty s); [by intros a [= <-]|]. apply post_bind. intros t.
  eapply (post_bind_with _ _ (fun x => document_within {| operations := x.1.1; fragments := x.1.2 |}));
    [|intros [[ops' frags'] s'] H; by apply IH].
  assert (Hop : forall s, post ('(set, s) ← start_selection_set s; Done (ops ++ [set], frags, s))
    (fun x => document_within {| operations := x.1.1; fragments := x.1.2 |})).
  { intros s1. eapply post_bind_with; [apply selection_within|]. intros [set s2] H a [= <-].
    destruct Hd as [Ho Hf]. split; [|done]. cbn in *. apply Forall_app. split; [done|]. by constructor. }
  destruct t; try done.
  destruct (name =s "fragment").
  - apply post_bind. intros [? s1]. apply post_bind. intros [fname s2]. destruct (fname =s "on"); [done|].
    apply post_bind. intros [on s3]. destruct (negb _); [done|]. apply post_bind. intros [? s4].
    apply post_bind. intros s5. eapply post_bind_with; [apply selection_within|]. intros [set s6] H a.
    destruct (frags !! fname); [done|]. intros [= <-]. destruct Hd as [Ho Hf]. split; [done|].
    cbn in *. by apply map_Forall_insert_2.
  - destruct (is_operation name); [|done]. apply post_bind. intros [? s1].
    do 5 (apply post_bind; intros ?). apply Hop.
Qed.

(** In a document that parses, selection sets are nested at most 64 deep, so no recursion
    over them is deeper, whatever the text. *)
Theorem parse_document_nesting (source : bytes) (d : Document) :
  parse_document source = Done d -> document_within d.
Proof.
  unfold parse_document. destruct (is_empty _); [done|]. apply document_loop_within.
  split; [constructor|apply map_Forall_empty].
Qed.

Lemma parse_document_nesting_witness : exists d,
  parse_document "query { a { b } }" = Done d /\ document_within d.
Proof.
  eexists. split; [vm_compute; reflexivity|].
  apply (parse_document_nesting "query { a { b } }"). vm_compute. reflexivity.
Defined.

Fixpoint braces (n : nat) : bytes := match n with O => lit "x" | S n => lit "x{" ++ braces n ++ lit "}" end.

Example nesting_cases :
  parse_document ("{" ++ braces 64 ++ "}") = Failed TooDeep
  /\ (exists d, parse_document ("{" ++ braces 63 ++ "}") = Done d)
  /\ parse_document "" = Failed Invalid
  /\ parse_document "{ a(x: 12.) }" = Failed Invalid
  /\ parse_document "{ }" = Failed Invalid
  /\ (exists d, parse_document "# c
 query Q($a: [Int!]! = [1, 2] @d) @x(y: {z: -1.5e3}) { n: a(first: $a) @skip(if: true) { ...F } } fragment F on T { id }"
      = Done d).
Proof. split_and!; try (eexists; vm_compute; reflexivity); vm_compute; reflexivity. Qed.

(** After directives the parser goes on behind a token that cannot be read: a lone sign or dot is
    skipped after arguments, and refused elsewhere. *)
Example bad_token_skipped :
  (match parse_document "{ a(x:1) - b }" with Done d => operations d | _ => [] end)
    = [[Field false "a" [(lit "x", GInt 1)] None; Field false "b" [] None]]
  /\ parse_document "{ a - b }" = Failed Invalid.
Proof. split; vm_compute; reflexivity. Qed.

(** The recursion over list types has no such bound: [n] opening brackets take more than [n]
    nested calls. *)
Lemma parse_type_recursion_unbounded (n : nat) (rest : bytes) : parse_type n (repeat 91 n ++ rest) = NoFuel.
Proof.
  induction n as [|n IH]; [done|]. cbn [parse_type repeat app].
  assert (E : next_token (91 :: repeat 91 n ++ rest) = Done (BracketL, repeat 91 n ++ rest))
    by (unfold next_token; by rewrite skip_plain).
  unfold peek_token, eat. rewrite E. cbn [mbind fueled_bind].
  change (token_eqb BracketL BracketL) with true. cbv iota.
  cbn [mbind fueled_bind]. by rewrite IH.
Qed.
