(* ===== verification/Graphql.v ===== *)
(** * GraphQL limits ([src/graphql.rs])

    The policy of a site or route: which requests carry GraphQL operations, the analysis of a
    parsed document (depth, complexity, aliases, introspection) with its fragments expanded,
    the limits, persisted queries and the quota of complexity per identity.

    Policies made by [overlay] share the quota book of their base ([Arc::clone]), so books are
    kept in a store and a policy names its book.  Readings of the clock are arguments.
    SHA-256 (OpenSSL) is the class [Sha256]. *)

From S2P Require Import Prelude Json Window Route GraphqlParser.

Class Sha256 : Type := { sha256 : bytes -> bytes }.

(** ** Configuration *)

Definition HARD_COMPLEXITY : Z := 100000.
Definition HARD_OPERATIONS : Z := 64.
Definition DEFAULT_LIST_SIZE : Z := 10.
Definition DEFAULT_QUOTA_WINDOW_SECS : Z := 60.
Definition QUOTA_MAX_KEYS : Z := 50000.
Definition SWEEP_EVERY : Z := 256.
Definition MAX_CONFIG_DEPTH : Z := 256.
Definition MAX_CONFIG_COMPLEXITY : Z := 1000000.
Definition MAX_CONFIG_ALIASES : Z := 10000.
Definition MAX_CONFIG_FRAGMENTS : Z := 1024.
Definition MAX_CONFIG_OPERATIONS : Z := 1024.
Definition MAX_CONFIG_QUOTA : Z := 1000000000.
Definition MAX_CONFIG_WINDOW : Z := 86400.
Definition MAX_CONFIG_LIST : Z := 10000.

(** [src/graphql.rs: struct GraphqlFile] *)
Record GraphqlFile : Type := {
  f_max_depth : option Z;
  f_max_complexity : option Z;
  f_max_aliases : option Z;
  f_max_fragments : option Z;
  f_max_operations : option Z;
  f_introspection : option bool;
  f_persisted_only : option bool;
  f_persisted_queries : list bytes;
  f_quota : option Z;
  f_quota_window : option Z;
  f_default_list_size : option Z;
  f_paths : list bytes;
}.

(** [src/graphql.rs: struct GraphqlLimits] *)
Record GraphqlLimits : Type := {
  max_depth : option Z;
  max_complexity : option Z;
  max_aliases : option Z;
  max_fragments : option Z;
  max_operations : option Z;
  introspection : bool;
  introspection_set : bool;
  persisted_only : bool;
  persisted_only_set : bool;
  default_list_size : Z;
  quota : option Z;
  quota_window : Duration;
}.

(** [src/graphql.rs: struct GraphqlPolicy + struct GraphqlInner] *)
Record GraphqlPolicy : Type := {
  limits : GraphqlLimits;
  paths : list bytes;
  persisted : gset bytes;
  book : Z;  (* the quota book, in the store *)
}.

(** [src/graphql.rs: struct QuotaBook] *)
Record QuotaBook : Type := { hits : gmap bytes (list (Instant * Z)); calls : Z }.
Definition new_book : QuotaBook := {| hits := ∅; calls := 0 |}.

(** [src/graphql.rs: struct GraphqlIdentity] *)
Record GraphqlIdentity : Type := { id_sub : option bytes; id_ip : bytes }.

(** [src/graphql.rs: enum GraphqlFailure] *)
Inductive GraphqlFailure : Type := ParseError | Limit (name : string).

#[export] Instance GraphqlFailure_eq_dec : EqDecision GraphqlFailure.
Proof. solve_decision. Defined.

(** [src/graphql.rs: enum GraphqlVerdict] *)
Inductive GraphqlVerdict : Type := Skip | Allow | Deny (failure : GraphqlFailure).

(** [src/graphql.rs: GraphqlFailure::detail] *)
Definition detail (f : GraphqlFailure) : bytes :=
  match f with ParseError => lit "ParseError" | Limit name => lit name end.

(** [src/graphql.rs: fn production_enabled] *)
Definition production_enabled (env : Env) : bool :=
  match env "FERROADA_PRODUCTION" with Some v => v =s "true" | None => false end.

(** [src/graphql.rs: fn require_u32 + fn require_u64] [None] is the panic. *)
Definition require (value max : Z) : option Z :=
  if (value =? 0) || (max <? value) then None else Some value.

Definition require_opt (value : option Z) (max : Z) : option (option Z) :=
  match value with Some v => v ← require v max; Some (Some v) | None => Some None end.

(** [src/graphql.rs: fn limits_from_file] *)
Definition limits_from_file (env : Env) (file : GraphqlFile) : option GraphqlLimits :=
  depth ← require_opt (f_max_depth file) MAX_CONFIG_DEPTH;
  complexity ← require_opt (f_max_complexity file) MAX_CONFIG_COMPLEXITY;
  aliases ← require_opt (f_max_aliases file) MAX_CONFIG_ALIASES;
  frags ← require_opt (f_max_fragments file) MAX_CONFIG_FRAGMENTS;
  ops ← require_opt (f_max_operations file) MAX_CONFIG_OPERATIONS;
  list_size ← require_opt (f_default_list_size file) MAX_CONFIG_LIST;
  q ← require_opt (f_quota file) MAX_CONFIG_QUOTA;
  window ← require_opt (f_quota_window file) MAX_CONFIG_WINDOW;
  Some {| max_depth := depth; max_complexity := complexity; max_aliases := aliases;
          max_fragments := frags; max_operations := ops;
          introspection := default (negb (production_enabled env)) (f_introspection file);
          introspection_set := bool_decide (is_Some (f_introspection file));
          persisted_only := default false (f_persisted_only file);
          persisted_only_set := bool_decide (is_Some (f_persisted_only file));
          default_list_size := default DEFAULT_LIST_SIZE list_size;
          quota := q;
          quota_window := from_secs (default DEFAULT_QUOTA_WINDOW_SECS window) |}.

Definition or_else {A} (a b : option A) : option A := match a with Some _ => a | None => b end.

(** [src/graphql.rs: fn overlay_limits] *)
Definition overlay_limits (base other : GraphqlLimits) : GraphqlLimits := {|
  max_depth := or_else (max_depth other) (max_depth base);
  max_complexity := or_else (max_complexity other) (max_complexity base);
  max_aliases := or_else (max_aliases other) (max_aliases base);
  max_fragments := or_else (max_fragments other) (max_fragments base);
  max_operations := or_else (max_operations other) (max_operations base);
  introspection := if introspection_set other then introspection other else introspection base;
  introspection_set := introspection_set base || introspection_set other;
  persisted_only := if persisted_only_set other then persisted_only other else persisted_only base;
  persisted_only_set := persisted_only_set base || persisted_only_set other;
  default_list_size := if negb (default_list_size other =? DEFAULT_LIST_SIZE)
                       then default_list_size other else default_list_size base;
  quota := or_else (quota other) (quota base);
  quota_window := if negb (quota_window other =? from_secs DEFAULT_QUOTA_WINDOW_SECS)
                  then quota_window other else quota_window base |}.

(** [src/graphql.rs: fn is_sha256_hex] *)
Definition is_sha256_hex (value : bytes) : bool := (len value =? 64) && forallb is_ascii_hexdigit value.

(** [src/graphql.rs: fn parse_hashes] *)
Fixpoint parse_hashes (raw : list bytes) : option (gset bytes) :=
  match raw with
  | [] => Some ∅
  | item :: raw =>
      let hex := to_ascii_lowercase (trim item) in
      if negb (is_sha256_hex hex) then None
      else out ← parse_hashes raw; Some ({[ hex ]} ∪ out)
  end.

(** [src/graphql.rs: GraphqlPolicy::from_file] with a new book. *)
Definition from_file (env : Env) (fresh : Z) (file : GraphqlFile) (paths : list bytes) : option GraphqlPolicy :=
  limits ← limits_from_file env file;
  hashes ← parse_hashes (f_persisted_queries file);
  Some {| limits := limits; paths := paths; persisted := hashes; book := fresh |}.

(** [src/graphql.rs: GraphqlPolicy::overlay] *)
Definition overlay (self other : GraphqlPolicy) : GraphqlPolicy := {|
  limits := overlay_limits (limits self) (limits other);
  paths := if is_empty (paths other) then paths self else paths other;
  persisted := if bool_decide (persisted other = ∅) then persisted self else persisted other;
  book := book self |}.

(** [src/graphql.rs: fn path_ok] *)
Definition path_ok (paths : list bytes) (path : bytes) : bool :=
  is_empty paths
  || existsb (fun prefix =>
       (path =s prefix) || (prefix =s "/") || (ends_with prefix "/" && starts_with path prefix)
       || match strip_prefix prefix path with Some suffix => starts_with suffix "/" | None => false end) paths.

(** [src/graphql.rs: fn quota_key] *)
Definition quota_key (site : bytes) (identity : GraphqlIdentity) : bytes :=
  match id_sub identity with
  | Some sub => "sub:" ++ site ++ ":" ++ sub
  | None => "ip:" ++ site ++ ":" ++ id_ip identity
  end.

Definition hex_digit (n : Z) : Z := if n <? 10 then 48 + n else 87 + n.

(** [src/graphql.rs: fn to_hex] *)
Definition to_hex (bs : bytes) : bytes :=
  flat_map (fun b => [hex_digit (Z.shiftr b 4); hex_digit (Z.land b 15)]) bs.

(** [src/graphql.rs: fn query_hash] *)
Definition query_hash `{Sha256} (query : bytes) : bytes := to_hex (sha256 query).

(** ** Operations of a request *)

(** [src/graphql.rs: struct RawOp] *)
Record RawOp : Type := { op_query : option bytes; op_variables : option JsonValue; op_persisted : option bytes }.

(** [src/graphql.rs: enum Extract] *)
Inductive Extract : Type := XSkip | XOps (ops : list RawOp) | XErr (f : GraphqlFailure).

(** [src/graphql.rs: fn mime_type] *)
Definition mime_type (content_type : option bytes) : bytes :=
  to_ascii_lowercase (trim (before 59 (default [] content_type))).

(** [src/graphql.rs: fn op_from_json] *)
Definition op_from_json (value : JsonValue) : option RawOp :=
  match value with
  | JObject _ =>
      let query := json_get "query" value ≫= as_str in
      let persisted :=
        ext ← json_get "extensions" value; pq ← json_get "persistedQuery" ext;
        hash ← json_get "sha256Hash" pq; as_str hash in
      match query, persisted with
      | None, None => None
      | _, _ => Some {| op_query := query; op_variables := json_get "variables" value; op_persisted := persisted |}
      end
  | _ => None
  end.

(** [src/graphql.rs: fn extract_ops] *)
Definition extract_ops `{SerdeJson} (content_type : option bytes) (body : bytes) (dedicated : bool) : Extract :=
  let mime := mime_type content_type in
  let otherwise := if dedicated then XErr ParseError else XSkip in
  if mime =s "application/graphql" then
    if is_utf8 body && negb (is_empty (trim body))
    then XOps [{| op_query := Some body; op_variables := None; op_persisted := None |}]
    else XErr ParseError
  else if negb ((mime =s "application/json") || ends_with mime "+json" || (mime =s "application/graphql+json"))
  then otherwise
  else if negb (is_utf8 body) then XErr ParseError
  else match json_from_str body with
       | None => otherwise
       | Some (JArray items) =>
           if is_empty items then XErr ParseError
           else match mapM op_from_json items with Some ops => XOps ops | None => XErr ParseError end
       | Some (JObject m) =>
           match op_from_json (JObject m) with Some op => XOps [op] | None => otherwise end
       | Some _ => otherwise
       end.

(** ** Analysis *)

(** [src/graphql.rs: struct Stats] *)
Record Stats : Type := { st_depth : Z; st_complexity : Z; st_aliases : Z; st_introspection : bool }.
Definition no_stats : Stats := {| st_depth := 0; st_complexity := 0; st_aliases := 0; st_introspection := false |}.

(** [src/graphql.rs: fn int_variables] *)
Definition int_variables (variables : option JsonValue) : gmap bytes Z :=
  match variables with
  | Some (JObject members) => list_to_map (omap (fun '(key, v) => n ← as_i64 v; Some (key, n)) members)
  | _ => ∅
  end.

(** [src/graphql.rs: struct WalkEnv] The part that does not change. *)
Record WalkEnv : Type := {
  w_fragments : gmap bytes (list Selection);
  w_variables : gmap bytes Z;
  w_default_list : Z;
  w_depth_cap : Z;
  w_complexity_cap : Z;
}.

(** [src/graphql.rs: fn list_multiplier] *)
Definition list_multiplier (args : list (bytes * GqlValue)) (variables : gmap bytes Z) (default_list : Z) : Z :=
  fold_left (fun best '(name, value) =>
    if negb (one_of name ["first"; "last"; "limit"]) then best
    else
      let n := match value with
               | GInt n => n
               | GVariable var => default default_list (variables !! var)
               | GOther => default_list
               end in
      if 1 <? n then Z.max best n else best) args 1.

Definition is_introspection (name : bytes) : bool := one_of name ["__schema"; "__type"].

(** What a field adds before its children. *)
Definition count_field (alias : bool) (name : bytes) (s : Stats) : Stats := {|
  st_depth := st_depth s;
  st_complexity := saturating_add u64_max (st_complexity s) 1;
  st_aliases := if alias then saturating_add u32_max (st_aliases s) 1 else st_aliases s;
  st_introspection := st_introspection s || is_introspection name |}.

Definition with_complexity (s : Stats) (c : Z) : Stats := {|
  st_depth := st_depth s; st_complexity := c; st_aliases := st_aliases s; st_introspection := st_introspection s |}.

(** The test and update on entering a selection set. *)
Definition enter (env : WalkEnv) (depth : Z) (s : Stats) : fueled GraphqlFailure Stats :=
  if w_depth_cap env <? depth then Failed (Limit "depth")
  else Done {| st_depth := Z.max (st_depth s) depth; st_complexity := st_complexity s;
               st_aliases := st_aliases s; st_introspection := st_introspection s |}.

Definition check_complexity (env : WalkEnv) (s : Stats) : fueled GraphqlFailure Stats :=
  if w_complexity_cap env <? st_complexity s then Failed (Limit "complexity") else Done s.

Section WalkAll.
Context {A S E : Type} (f : A -> S -> fueled E S).
Fixpoint walk_all (l : list A) (s : S) : fueled E S :=
  match l with [] => Done s | x :: l => s ← f x s; walk_all l s end.
End WalkAll.

(** The loop body of [walk] on one item; [spread name depth] is what a spread does. *)
Section WalkItem.
Context (env : WalkEnv) (spread : bytes -> Z -> Stats -> fueled GraphqlFailure Stats).

Fixpoint walk_item (item : Selection) (depth : Z) (s : Stats) : fueled GraphqlFailure Stats :=
  match item with
  | Field alias name args selection =>
      s ← check_complexity env (count_field alias name s);
      match selection with
      | None => Done s
      | Some child =>
          let before := st_complexity s in
          s ← enter env (depth + 1) s;
          s ← walk_all (fun x s => walk_item x (depth + 1) s) child s;
          let child_cost := saturating_sub (st_complexity s) before in
          let mult := list_multiplier args (w_variables env) (w_default_list env) in
          if 1 <? mult then
            check_complexity env (with_complexity s
              (saturating_add u64_max (st_complexity s) (saturating_mul u64_max child_cost (mult - 1))))
          else Done s
      end
  | Spread name => spread name depth s
  | Inline child =>
      s ← enter env depth s;
      walk_all (fun x s => walk_item x depth s) child s
  end.
End WalkItem.

(** [src/graphql.rs: fn walk] The fuel bounds the fragments being expanded one in another. *)
Fixpoint walk (env : WalkEnv) (fuel : nat) (stack : list bytes) (set : list Selection) (depth : Z) (s : Stats)
  : fueled GraphqlFailure Stats :=
  let spread name depth s :=
    if existsb (bytes_eqb name) stack then Failed (Limit "fragments")
    else match w_fragments env !! name with
         | None => Failed ParseError
         | Some fragment =>
             match fuel with
             | O => NoFuel
             | S fuel => walk env fuel (stack ++ [name]) fragment depth s
             end
         end in
  s ← enter env depth s;
  walk_all (fun x s => walk_item env spread x depth s) set s.

(** What [analyze_document] fixes for the walk. *)
Definition walk_env (d : Document) (variables : option JsonValue) (l : GraphqlLimits) : WalkEnv := {|
  w_fragments := fragments d;
  w_variables := int_variables variables;
  w_default_list := default_list_size l;
  w_depth_cap := Z.min (default HARD_DEPTH (max_depth l)) HARD_DEPTH;
  w_complexity_cap := Z.min (default HARD_COMPLEXITY (max_complexity l)) HARD_COMPLEXITY |}.

(** [src/graphql.rs: fn analyze_document] *)
Definition analyze_document (d : Document) (variables : option JsonValue) (l : GraphqlLimits)
  : fueled GraphqlFailure Stats :=
  walk_all (fun operation s => walk (walk_env d variables l) (size (fragments d)) [] operation 1 s)
    (operations d) no_stats.

(** ** Evaluation *)

Definition as_u32 (n : Z) : Z := n mod 2 ^ 32.

Definition over (max : option Z) (value : Z) : bool := match max with Some m => m <? value | None => false end.

Section Evaluate.
Context {H : Sha256} {J : SerdeJson}.

(** [src/graphql.rs: GraphqlPolicy::evaluate @214-228] *)
Definition persisted_claim (l : GraphqlLimits) (op : RawOp) : result GraphqlFailure unit :=
  match op_persisted op with
  | None => Ok tt
  | Some claimed =>
      let claimed := to_ascii_lowercase (trim claimed) in
      if negb (is_sha256_hex claimed) then Err (Limit "persisted_query")
      else match op_query op with
           | Some query => if query_hash query =s claimed then Ok tt else Err (Limit "persisted_query")
           | None => if persisted_only l then Err (Limit "persisted_query") else Err ParseError
           end
  end.

(** [src/graphql.rs: GraphqlPolicy::evaluate @213-276] One turn of the loop: the totals of operations and of complexity after it. *)
Definition evaluate_op (p : GraphqlPolicy) (op : RawOp) (totals : Z * Z) : fueled GraphqlFailure (Z * Z) :=
  let l := limits p in
  let max_ops := default HARD_OPERATIONS (max_operations l) in
  match persisted_claim l op, op_query op with
  | Err f, _ => Failed f
  | Ok _, None => Failed ParseError
  | Ok _, Some query =>
      if persisted_only l && negb (bool_decide (query_hash query ∈ persisted p))
      then Failed (Limit "persisted_query")
      else match parse_document query with
      | NoFuel => NoFuel
      | Failed TooDeep => Failed (Limit "depth")
      | Failed Invalid => Failed ParseError
      | Done d =>
          match checked_add u32_max totals.1 (as_u32 (len (operations d))) with
          | None => Failed (Limit "operations")
          | Some total_operations =>
              if max_ops <? total_operations then Failed (Limit "operations")
              else if is_empty (operations d) then Failed ParseError
              else if over (max_fragments l) (as_u32 (Z.of_nat (size (fragments d)))) then Failed (Limit "fragments")
              else
                stats ← analyze_document d (op_variables op) l;
                if negb (introspection l) && st_introspection stats then Failed (Limit "introspection")
                else if over (max_depth l) (st_depth stats) then Failed (Limit "depth")
                else if over (max_complexity l) (st_complexity stats) then Failed (Limit "complexity")
                else if over (max_aliases l) (st_aliases stats) then Failed (Limit "aliases")
                else Done (total_operations, saturating_add u64_max totals.2 (Z.max (st_complexity stats) 1))
          end
      end
  end.

(** [src/graphql.rs: GraphqlPolicy::consume_quota] On the book of the policy; [now_sweep] and
    [now] are the readings of the clock. *)
Definition consume_quota (l : GraphqlLimits) (b : QuotaBook) (now_sweep now : Instant)
    (identity : GraphqlIdentity) (site : bytes) (cost : Z) : QuotaBook * option GraphqlFailure :=
  match quota l with
  | None => (b, None)
  | Some max =>
      let window := quota_window l in
      let key := quota_key site identity in
      let n := calls b in
      let table := if n mod SWEEP_EVERY =? 0 then sweep fst window now_sweep (hits b) else hits b in
      let b := {| hits := table; calls := (n + 1) mod 2 ^ 64 |} in
      if bool_decide (table !! key = None) && (QUOTA_MAX_KEYS <=? Z.of_nat (size table))
      then (b, Some (Limit "quota"))
      else
        let entry := retain_window fst window now (row table key) in
        let used := fold_left (fun acc x => saturating_add u64_max acc x.2) entry 0 in
        if max <? saturating_add u64_max used cost
        then ({| hits := <[key := entry]> table; calls := calls b |}, Some (Limit "quota"))
        else ({| hits := <[key := entry ++ [(now, cost)]]> table; calls := calls b |}, None)
  end.

(** The store of quota books. *)
Definition Books : Type := gmap Z QuotaBook.
Definition book_of (books : Books) (p : GraphqlPolicy) : QuotaBook := default new_book (books !! book p).

(** [src/graphql.rs: GraphqlPolicy::evaluate] *)
Definition evaluate (p : GraphqlPolicy) (books : Books) (now_sweep now : Instant) (ops : list RawOp)
    (identity : GraphqlIdentity) (site : bytes) : Books * fueled GraphqlFailure unit :=
  let max_ops := default HARD_OPERATIONS (max_operations (limits p)) in
  if max_ops <? as_u32 (len ops) then (books, Failed (Limit "operations"))
  else match walk_all (evaluate_op p) ops (0, 0) with
       | NoFuel => (books, NoFuel)
       | Failed f => (books, Failed f)
       | Done totals =>
           let '(b, failure) := consume_quota (limits p) (book_of books p) now_sweep now identity site
                                  (Z.max totals.2 1) in
           (<[book p := b]> books, match failure with Some f => Failed f | None => Done tt end)
       end.

(** [src/graphql.rs: GraphqlPolicy::check] *)
Definition check (p : GraphqlPolicy) (books : Books) (now_sweep now : Instant) (method path : bytes)
    (content_type : option bytes) (body : bytes) (identity : GraphqlIdentity) (site : bytes)
  : Books * fueled Empty_set GraphqlVerdict :=
  if negb (eq_ignore_ascii_case method "POST") then (books, Done Skip)
  else
    let path := before 63 path in
    let path := default path (canonical_route_path path) in
    if negb (path_ok (paths p) path) then (books, Done Skip)
    else match extract_ops content_type body (negb (is_empty (paths p))) with
         | XSkip => (books, Done Skip)
         | XErr failure => (books, Done (Deny failure))
         | XOps ops =>
             let '(books, verdict) := evaluate p books now_sweep now ops identity site in
             (books, match verdict with
                     | Done _ => Done Allow
                     | Failed failure => Done (Deny failure)
                     | NoFuel => NoFuel
                     end)
         end.
End Evaluate.

(** ** Termination of the analysis *)

(** Induction on selections with a hypothesis for every item of a set. *)
Section SelectionInd.
Context (P : Selection -> Prop).
Context (Hleaf : forall alias name args, P (Field alias name args None)).
Context (Hnode : forall alias name args set, Forall P set -> P (Field alias name args (Some set))).
Context (Hspread : forall name, P (Spread name)).
Context (Hinline : forall set, Forall P set -> P (Inline set)).

Fixpoint selection_ind (s : Selection) : P s :=
  let all := fix all (l : list Selection) : Forall P l :=
    match l with [] => Forall_nil_2 P | x :: l => Forall_cons_2 P x l (selection_ind x) (all l) end in
  match s with
  | Field alias name args None => Hleaf alias name args
  | Field alias name args (Some set) => Hnode alias name args set (all set)
  | Spread name => Hspread name
  | Inline set => Hinline set (all set)
  end.
End SelectionInd.

Lemma walk_all_wp {A S E} (f : A -> S -> fueled E S) (l : list A) : forall s,
  Forall (fun x => forall s, wp (f x s) (fun _ => True)) l -> wp (walk_all f l s) (fun _ => True).
Proof.
  induction l as [|x l IH]; intros s Hl; [done|]. apply Forall_cons in Hl as [Hx Hl]. cbn [walk_all].
  apply wp_bind. eapply wp_mono; [apply Hx|]. intros s' _. by apply IH.
Qed.

Lemma enter_wp env depth s : wp (enter env depth s) (fun _ => True).
Proof. unfold enter. by destruct (_ <? _). Qed.
Lemma check_complexity_wp env s : wp (check_complexity env s) (fun _ => True).
Proof. unfold check_complexity. by destruct (_ <? _). Qed.

Lemma walk_item_wp env spread : (forall name depth s, wp (spread name depth s) (fun _ => True)) ->
  forall item depth s, wp (walk_item env spread item depth s) (fun _ => True).
Proof.
  intros Hs item. induction item as [alias name args|alias name args set IH|name|set IH] using selection_ind;
    intros depth s; cbn [walk_item].
  - wp_step check_complexity_wp. done.
  - wp_step check_complexity_wp. intros s1 _. wp_step enter_wp. intros s2 _. apply wp_bind.
    eapply wp_mono; [apply walk_all_wp; eapply Forall_impl; [exact IH|]; simpl; auto|].
    intros s3 _. destruct (1 <? _); [apply check_complexity_wp|done].
  - apply Hs.
  - wp_step enter_wp. intros s1 _. apply walk_all_wp. eapply Forall_impl; [exact IH|]. simpl. auto.
Qed.

Lemma stack_room (m : gmap bytes (list Selection)) (stack : list bytes) name :
  NoDup stack -> (forall x, x ∈ stack -> is_Some (m !! x)) -> name ∉ stack -> is_Some (m !! name) ->
  (length stack < size m)%nat.
Proof.
  intros Hd Hs Hn Hm. rewrite <- size_dom.
  assert (Hsub : (list_to_set (name :: stack) : gset bytes) ⊆ dom m).
  { intros x [->|Hx]%elem_of_list_to_set%elem_of_cons; apply elem_of_dom; auto. }
  apply subseteq_size in Hsub. rewrite size_list_to_set in Hsub by by constructor. simpl in Hsub. lia.
Qed.

Lemma existsb_mem name stack : existsb (bytes_eqb name) stack = bool_decide (name ∈ stack).
Proof.
  symmetry. destruct (existsb _ _) eqn:E.
  - apply existsb_exists in E as (x & Hx & ->%bytes_eqb_eq). apply bool_decide_eq_true_2. by apply list_elem_of_In.
  - apply bool_decide_eq_false_2. intros Hin. assert (existsb (bytes_eqb name) stack = true); [|congruence].
    apply existsb_exists. exists name. split; [by apply list_elem_of_In|apply bytes_eqb_refl].
Qed.

Lemma walk_wp env fuel : forall stack set depth s,
  NoDup stack -> (forall x, x ∈ stack -> is_Some (w_fragments env !! x)) ->
  (size (w_fragments env) <= fuel + length stack)%nat ->
  wp (walk env fuel stack set depth s) (fun _ => True).
Proof.
  induction fuel as [|fuel IH]; intros stack set depth s Hd Hs Hf; cbn [walk]; wp_step enter_wp; intros s1 _;
    apply walk_all_wp, Forall_true; intros item s2; apply walk_item_wp; clear item s2; intros name depth' s2;
    rewrite existsb_mem; case_bool_decide as Hin; try done;
    destruct (w_fragments env !! name) as [frag|] eqn:El; try done;
    pose proof (stack_room _ stack name Hd Hs Hin ltac:(by rewrite El)).
  - lia.
  - apply IH.
    + apply NoDup_app. split; [done|]. split; [|apply NoDup_singleton].
      by intros x Hx ->%list_elem_of_singleton.
    + intros x [Hx| ->%list_elem_of_singleton]%elem_of_app; [by apply Hs|by rewrite El].
    + rewrite length_app. simpl. lia.
Qed.

(** The analysis of a document ends, whatever cycles its fragments have. *)
Lemma analyze_document_wp (d : Document) (variables : option JsonValue) (l : GraphqlLimits) :
  wp (analyze_document d variables l) (fun _ => True).
Proof.
  apply walk_all_wp, Forall_true. intros op s. apply walk_wp; [constructor|by intros ? ?%elem_of_nil|].
  simpl. lia.
Qed.

(** ** What the analysis computes

    The reference: every fragment spread and inline fragment replaced by its contents, as a
    forest of fields. *)

Inductive node : Type := Node (alias : bool) (name : bytes) (args : list (bytes * GqlValue)) (children : option (list node)).

Section Inline.
Context (expand : bytes -> option (list node)).

Definition inline_all (f : Selection -> option (list node)) : list Selection -> option (list node) :=
  fix go set := match set with [] => Some [] | x :: set => a ← f x; b ← go set; Some (a ++ b) end.

Fixpoint inline_item (s : Selection) : option (list node) :=
  match s with
  | Field alias name args None => Some [Node alias name args None]
  | Field alias name args (Some set) =>
      children ← inline_all inline_item set; Some [Node alias name args (Some children)]
  | Spread name => expand name
  | Inline set => inline_all inline_item set
  end.
End Inline.

(** The contents of a set; [fuel] bounds the spreads inside spreads. *)
Fixpoint inline (frags : gmap bytes (list Selection)) (fuel : nat) : list Selection -> option (list node) :=
  inline_all (inline_item (fun name =>
    match fuel with O => None | S fuel => set ← frags !! name; inline frags fuel set end)).

Section Reference.
Context (env : WalkEnv).

(** Every field counts one, and the children of a list field once per element asked for. *)
Fixpoint cost (n : node) : Z :=
  match n with
  | Node _ _ args None => 1
  | Node _ _ args (Some children) =>
      1 + list_multiplier args (w_variables env) (w_default_list env) * fold_right (fun c acc => cost c + acc) 0 children
  end.
Definition cost_all (l : list node) : Z := fold_right (fun c acc => cost c + acc) 0 l.

Fixpoint height (n : node) : Z :=
  match n with
  | Node _ _ _ None => 0
  | Node _ _ _ (Some children) => 1 + fold_right (fun c acc => Z.max (height c) acc) 0 children
  end.
Definition height_all (l : list node) : Z := fold_right (fun c acc => Z.max (height c) acc) 0 l.

Fixpoint alias_count (n : node) : Z :=
  match n with
  | Node alias _ _ children =>
      (if alias then 1 else 0)
      + match children with Some l => fold_right (fun c acc => alias_count c + acc) 0 l | None => 0 end
  end.
Definition alias_all (l : list node) : Z := fold_right (fun c acc => alias_count c + acc) 0 l.

Fixpoint introspects (n : node) : bool :=
  match n with
  | Node _ name _ children =>
      is_introspection name
      || match children with Some l => existsb introspects l | None => false end
  end.

(** The statistics after the fields of a set at [depth]. *)
Definition add_nodes (depth : Z) (l : list node) (s : Stats) : Stats := {|
  st_depth := Z.max (st_depth s) (depth + height_all l);
  st_complexity := st_complexity s + cost_all l;
  st_aliases := Z.min u32_max (st_aliases s + alias_all l);
  st_introspection := st_introspection s || existsb introspects l |}.

Definition fits (depth : Z) (l : list node) (s : Stats) : Prop :=
  depth + height_all l <= w_depth_cap env /\ st_complexity s + cost_all l <= w_complexity_cap env.

(** What holds of the statistics inside a set at [depth]. *)
Record inside (depth : Z) (s : Stats) : Prop := {
  in_depth : depth <= st_depth s;
  in_cap : depth <= w_depth_cap env;
  in_complexity : 0 <= st_complexity s <= w_complexity_cap env;
  in_aliases : 0 <= st_aliases s <= u32_max;
}.

Lemma list_multiplier_pos args vars d : 1 <= list_multiplier args vars d.
Proof.
  unfold list_multiplier.
  assert (Hb : forall l best, best <= fold_left (fun best '(name, value) =>
    if negb (one_of name ["first"; "last"; "limit"]) then best
    else let n := match value with GInt n => n | GVariable var => default d (vars !! var) | GOther => d end in
      if 1 <? n then Z.max best n else best) l best).
  { induction l as [|[name value] l IH]; intros b; [simpl; lia|]. cbn [fold_left].
    destruct (negb _); [apply IH|]. cbv zeta. destruct (1 <? _); (etrans; [|apply IH]); lia. }
  exact (Hb args 1).
Qed.

Lemma cost_pos n : 1 <= cost n.
Proof.
  revert n. fix IH 1. intros [alias name args [children|]]; cbn [cost]; [|lia].
  pose proof (list_multiplier_pos args (w_variables env) (w_default_list env)).
  assert (0 <= fold_right (fun c acc => cost c + acc) 0 children); [|nia].
  induction children as [|c children IHc]; simpl; [lia|]. pose proof (IH c). lia.
Qed.
Lemma cost_all_nonneg l : 0 <= cost_all l.
Proof. induction l as [|c l IH]; cbn; [lia|]. fold (cost_all l). pose proof (cost_pos c). lia. Qed.
Lemma height_all_nonneg l : 0 <= height_all l.
Proof. induction l as [|c l IH]; cbn; [lia|]. fold (height_all l). lia. Qed.
Lemma alias_count_nonneg n : 0 <= alias_count n.
Proof.
  revert n. fix IH 1. intros [alias name args [children|]]; cbn [alias_count]; [|by destruct alias; lia].
  assert (0 <= fold_right (fun c acc => alias_count c + acc) 0 children); [|destruct alias; lia].
  induction children as [|c children IHc]; simpl; [lia|]. pose proof (IH c). lia.
Qed.
Lemma alias_all_nonneg l : 0 <= alias_all l.
Proof. induction l as [|c l IH]; cbn; [lia|]. fold (alias_all l). pose proof (alias_count_nonneg c). lia. Qed.

Lemma cost_all_app a b : cost_all (a ++ b) = cost_all a + cost_all b.
Proof. induction a as [|c a IH]; [done|]. cbn. fold (cost_all (a ++ b)) (cost_all a). lia. Qed.
Lemma height_all_app a b : height_all (a ++ b) = Z.max (height_all a) (height_all b).
Proof.
  induction a as [|c a IH]; cbn; [pose proof (height_all_nonneg b); fold (height_all b); lia|].
  fold (height_all (a ++ b)) (height_all a). lia.
Qed.
Lemma alias_all_app a b : alias_all (a ++ b) = alias_all a + alias_all b.
Proof. induction a as [|c a IH]; [done|]. cbn. fold (alias_all (a ++ b)) (alias_all a). lia. Qed.

Lemma add_nodes_app depth a b s : 0 <= st_aliases s ->
  add_nodes depth (a ++ b) s = add_nodes depth b (add_nodes depth a s).
Proof.
  intros Hs. unfold add_nodes. cbn. rewrite cost_all_app, height_all_app, alias_all_app, existsb_app, orb_assoc.
  pose proof (alias_all_nonneg a). pose proof (alias_all_nonneg b). f_equal; lia.
Qed.

Lemma fits_app depth a b s : fits depth (a ++ b) s <-> fits depth a s /\ fits depth b (add_nodes depth a s).
Proof.
  unfold fits, add_nodes. cbn. rewrite cost_all_app, height_all_app. pose proof (cost_all_nonneg b). lia.
Qed.

Lemma inside_add depth l s : inside depth s -> fits depth l s -> inside depth (add_nodes depth l s).
Proof.
  intros [] []. pose proof (cost_all_nonneg l). pose proof (alias_all_nonneg l).
  constructor; cbn; unfold u32_max in *; lia.
Qed.

Lemma add_nodes_nil depth s : inside depth s -> add_nodes depth [] s = s.
Proof. intros []. destruct s. unfold add_nodes. cbn in *. rewrite orb_false_r. f_equal; lia. Qed.

(** *** The walk computes it *)

Context (Hcap : w_complexity_cap env <= HARD_COMPLEXITY).

Definition sound (f : Stats -> fueled GraphqlFailure Stats) (o : option (list node)) (depth : Z) : Prop :=
  forall s s', inside depth s -> f s = Done s' -> exists l, o = Some l /\ fits depth l s /\ s' = add_nodes depth l s.
Definition complete (f : Stats -> fueled GraphqlFailure Stats) (o : option (list node)) (depth : Z) : Prop :=
  forall s l, inside depth s -> o = Some l -> fits depth l s -> f s = Done (add_nodes depth l s).

Lemma walk_all_sound f g depth set : Forall (fun x => sound (f x) (g x) depth) set ->
  sound (walk_all f set) (inline_all g set) depth.
Proof.
  induction set as [|x set IH]; intros Hl s s' Hi; cbn [walk_all inline_all].
  - intros [= <-]. exists []. split; [done|]. split; [|by rewrite add_nodes_nil].
    destruct Hi. split; cbn; lia.
  - apply Forall_cons in Hl as [Hx Hl]. unfold mbind, fueled_bind, option_bind.
    destruct (f x s) as [s1| |] eqn:E1; [|done..]. intros E2.
    destruct (Hx _ _ Hi E1) as (a & Ha & Fa & ->). rewrite Ha.
    destruct (IH Hl _ _ (inside_add _ _ _ Hi Fa) E2) as (b & Hb & Fb & ->). rewrite Hb.
    exists (a ++ b). rewrite fits_app, add_nodes_app by apply Hi. done.
Qed.

Lemma walk_all_complete f g depth set : Forall (fun x => complete (f x) (g x) depth) set ->
  complete (walk_all f set) (inline_all g set) depth.
Proof.
  induction set as [|x set IH]; intros Hl s l Hi; cbn [walk_all inline_all].
  - intros [= <-] _. by rewrite add_nodes_nil.
  - apply Forall_cons in Hl as [Hx Hl]. unfold mbind, fueled_bind, option_bind.
    destruct (g x) as [a|] eqn:Ea; [|done]. destruct (inline_all g set) as [b|] eqn:Eb; [|done].
    intros [= <-] [Fa Fb]%fits_app. rewrite (Hx s a Hi eq_refl Fa).
    rewrite (IH Hl _ _ (inside_add _ _ _ Hi Fa) eq_refl Fb). by rewrite add_nodes_app by apply Hi.
Qed.

Lemma enter_inside depth s : inside depth s -> enter env depth s = Done s.
Proof.
  intros []. unfold enter. rewrite (proj2 (Z.ltb_ge _ _)) by lia. rewrite Z.max_l by lia. by destruct s.
Qed.

(** A field up to its children. *)
Lemma count_field_check alias name s depth : inside depth s ->
  (st_complexity s + 1 <= w_complexity_cap env ->
     check_complexity env (count_field alias name s) = Done (count_field alias name s)
     /\ inside depth (count_field alias name s)
     /\ st_complexity (count_field alias name s) = st_complexity s + 1)
  /\ (w_complexity_cap env < st_complexity s + 1 -> forall s', check_complexity env (count_field alias name s) <> Done s').
Proof.
  intros []. unfold check_complexity, HARD_COMPLEXITY in *.
  assert (E : st_complexity (count_field alias name s) = st_complexity s + 1).
  { cbn. unfold saturating_add, u64_max. lia. }
  rewrite E. split; intros H.
  - rewrite (proj2 (Z.ltb_ge _ _)) by lia. split; [done|]. split; [|done].
    constructor; cbn -[u32_max]; try done; [unfold saturating_add, u64_max; lia|].
    destruct alias; [unfold saturating_add|]; lia.
  - by rewrite (proj2 (Z.ltb_lt _ _)) by lia.
Qed.

(** A field with its children, once they are walked. *)
Definition field_after (alias : bool) name args depth children s : Stats :=
  add_nodes depth [Node alias name args (Some children)] s.

Lemma field_tail alias name args depth children s : inside depth s -> depth + 1 <= w_depth_cap env ->
  let s1 := count_field alias name s in
  let s2 := {| st_depth := Z.max (st_depth s1) (depth + 1); st_complexity := st_complexity s1;
               st_aliases := st_aliases s1; st_introspection := st_introspection s1 |} in
  let s3 := add_nodes (depth + 1) children s2 in
  let mult := list_multiplier args (w_variables env) (w_default_list env) in
  st_complexity s + 1 <= w_complexity_cap env -> fits (depth + 1) children s2 ->
  let res := if 1 <? mult then
        check_complexity env (with_complexity s3 (saturating_add u64_max (st_complexity s3)
          (saturating_mul u64_max (saturating_sub (st_complexity s3) (st_complexity s1)) (mult - 1))))
      else Done s3 in
  (fits depth [Node alias name args (Some children)] s -> res = Done (field_after alias name args depth children s))
  /\ (forall s', res = Done s' ->
        fits depth [Node alias name args (Some children)] s /\ s' = field_after alias name args depth children s).
Proof.
  intros Hi Hd s1 s2 s3 mult Hc [Fh Fc] res. destruct (count_field_check alias name s depth Hi) as [Hcf _].
  destruct (Hcf Hc) as (_ & Hi1 & Ec). fold s1 in Ec, Hi1.
  change (st_complexity s2) with (st_complexity s1) in Fc. rewrite Ec in Fc.
  pose proof (list_multiplier_pos args (w_variables env) (w_default_list env)) as Hm. fold mult in Hm.
  pose proof (cost_all_nonneg children) as Hcost. pose proof (height_all_nonneg children) as Hh.
  pose proof (alias_all_nonneg children) as Ha. unfold HARD_COMPLEXITY in *.
  assert (E3 : st_complexity s3 = st_complexity s + 1 + cost_all children) by (cbn; unfold s1 in Ec; cbn in Ec; lia).
  assert (Esub : saturating_sub (st_complexity s3) (st_complexity s1) = cost_all children)
    by (rewrite E3, Ec; unfold saturating_sub; lia).
  assert (Enode : cost_all [Node alias name args (Some children)] = 1 + cost_all children + cost_all children * (mult - 1)).
  { cbn [cost_all fold_right cost]. fold mult (cost_all children). ring. }
  assert (Hx : 0 <= cost_all children * (mult - 1)) by nia.
  assert (Efit : fits depth [Node alias name args (Some children)] s
    <-> st_complexity s + 1 + cost_all children + cost_all children * (mult - 1) <= w_complexity_cap env).
  { unfold fits. rewrite Enode. cbn [height_all fold_right height]. fold (height_all children). lia. }
  assert (Eafter : forall c, c = st_complexity s + 1 + cost_all children + cost_all children * (mult - 1) ->
    with_complexity s3 c = field_after alias name args depth children s).
  { intros c ->. unfold field_after, add_nodes, with_complexity. rewrite Enode. subst s3 s2 s1. destruct Hi.
    cbn -[u32_max u64_max Z.add is_introspection]. unfold saturating_add. fold (height_all children) (alias_all children).
    f_equal; [lia|lia|destruct alias; lia|by rewrite orb_false_r, orb_assoc]. }
  subst res. rewrite Esub, E3. unfold check_complexity, saturating_add, saturating_mul. cbn [with_complexity st_complexity].
  set (c := Z.min u64_max _).
  assert (Hc' : c = st_complexity s + 1 + cost_all children + cost_all children * (mult - 1)
    \/ w_complexity_cap env < c /\ w_complexity_cap env < st_complexity s + 1 + cost_all children + cost_all children * (mult - 1))
    by (pose proof (in_complexity _ _ Hi); subst c; unfold u64_max in *; lia).
  destruct (Z.ltb_spec 1 mult).
  - destruct (Z.ltb_spec (w_complexity_cap env) c).
    + split; [rewrite Efit; lia|done].
    + split; [intros _; by rewrite Eafter by lia|]. intros s' [= <-]. rewrite Efit, Eafter by lia.
      split; [lia|done].
  - assert (Em : cost_all children * (mult - 1) = 0) by (replace mult with 1 by lia; ring).
    pose proof (in_complexity _ _ Hi).
    assert (E0 : s3 = field_after alias name args depth children s).
    { rewrite <- (Eafter (st_complexity s3)) by lia. by destruct s3. }
    split; [by rewrite <- E0|]. intros s' [= <-]. split; [apply Efit; lia|done].
Qed.

Definition sound_spread (spread : bytes -> Z -> Stats -> fueled GraphqlFailure Stats) expand : Prop :=
  forall name depth, sound (spread name depth) (expand name) depth.

Lemma fits_leaf depth alias name args s : inside depth s ->
  fits depth [Node alias name args None] s <-> st_complexity s + 1 <= w_complexity_cap env.
Proof. intros []. unfold fits. cbn. lia. Qed.

Lemma fits_node depth alias name args children s : inside depth s ->
  fits depth [Node alias name args (Some children)] s ->
  depth + 1 <= w_depth_cap env /\ st_complexity s + 1 <= w_complexity_cap env
  /\ depth + 1 + height_all children <= w_depth_cap env
  /\ st_complexity s + 1 + cost_all children <= w_complexity_cap env.
Proof.
  intros [] [Hd Hc]. cbn [height_all cost_all fold_right height cost] in *.
  fold (height_all children) (cost_all children) in *.
  pose proof (height_all_nonneg children). pose proof (cost_all_nonneg children).
  pose proof (list_multiplier_pos args (w_variables env) (w_default_list env)).
  assert (cost_all children <= list_multiplier args (w_variables env) (w_default_list env) * cost_all children) by nia.
  lia.
Qed.

(** Entering the children of a field. *)
Lemma enter_child depth s : inside depth s ->
  let s2 := {| st_depth := Z.max (st_depth s) (depth + 1); st_complexity := st_complexity s;
               st_aliases := st_aliases s; st_introspection := st_introspection s |} in
  (depth + 1 <= w_depth_cap env -> enter env (depth + 1) s = Done s2 /\ inside (depth + 1) s2)
  /\ (w_depth_cap env < depth + 1 -> forall s', enter env (depth + 1) s <> Done s').
Proof.
  intros [] s2. unfold enter. split; intros H.
  - rewrite (proj2 (Z.ltb_ge _ _)) by lia. split; [done|]. constructor; cbn -[u32_max]; lia.
  - by rewrite (proj2 (Z.ltb_lt _ _)) by lia.
Qed.

Lemma leaf_after alias name args depth s : inside depth s -> st_complexity s + 1 <= w_complexity_cap env ->
  count_field alias name s = add_nodes depth [Node alias name args None] s.
Proof.
  intros [] Hc. unfold count_field, add_nodes, HARD_COMPLEXITY in *. cbn -[is_introspection u32_max u64_max].
  unfold saturating_add. f_equal; [lia|unfold u64_max; lia|destruct alias; lia|by rewrite !orb_false_r].
Qed.

Lemma walk_item_sound spread expand : sound_spread spread expand ->
  forall item depth, sound (walk_item env spread item depth) (inline_item expand item) depth.
Proof.
  intros Hs item. induction item as [alias name args|alias name args set IH|name|set IH] using selection_ind;
    intros depth s s' Hi; cbn [walk_item inline_item].
  - destruct (count_field_check alias name s depth Hi) as [Hok Hno].
    destruct (Z.le_gt_cases (st_complexity s + 1) (w_complexity_cap env)) as [Hc|Hc].
    + destruct (Hok Hc) as (-> & _). cbn [mbind fueled_bind]. intros [= <-]. eexists. split; [done|].
      rewrite fits_leaf by done. split; [done|by apply leaf_after].
    + specialize (Hno Hc). by destruct (check_complexity _ _) as [s1| |]; [edestruct Hno|..].
  - destruct (count_field_check alias name s depth Hi) as [Hok Hno].
    destruct (Z.le_gt_cases (st_complexity s + 1) (w_complexity_cap env)) as [Hc|Hc];
      [|specialize (Hno Hc); by destruct (check_complexity _ _) as [s1| |]; [edestruct Hno|..]].
    destruct (Hok Hc) as (-> & Hi1 & Ec). cbn [mbind fueled_bind].
    destruct (enter_child depth _ Hi1) as [Hin Hout].
    destruct (Z.le_gt_cases (depth + 1) (w_depth_cap env)) as [Hd|Hd];
      [|specialize (Hout Hd); by destruct (enter _ _ _) as [s2| |]; [edestruct Hout|..]].
    destruct (Hin Hd) as [-> Hi2]. cbn [mbind fueled_bind]. set (s2 := {| st_depth := _ |}) in *.
    destruct (walk_all _ set s2) as [s3| |] eqn:Ew; [|done..]. cbn [mbind fueled_bind].
    eapply (walk_all_sound (fun x s => walk_item env spread x (depth + 1) s) (inline_item expand)) in Ew
      as (children & Hch & Fch & ->); [|eapply Forall_impl; [exact IH|]; simpl; auto|done].
    destruct (field_tail alias name args depth children s Hi Hd Hc Fch) as [_ Htail].
    intros Hres. destruct (Htail s' Hres) as [Hfit ->]. unfold mbind, option_bind. rewrite Hch. eauto.
  - apply (Hs name depth s s' Hi).
  - rewrite enter_inside by done. cbn [mbind fueled_bind].
    apply (walk_all_sound (fun x s => walk_item env spread x depth s) (inline_item expand)); [|done].
    eapply Forall_impl; [exact IH|]. simpl. auto.
Qed.

Lemma walk_item_complete spread expand :
  (forall name depth, complete (spread name depth) (expand name) depth) ->
  forall item depth, complete (walk_item env spread item depth) (inline_item expand item) depth.
Proof.
  intros Hs item. induction item as [alias name args|alias name args set IH|name|set IH] using selection_ind;
    intros depth s l Hi; cbn [walk_item inline_item].
  - intros [= <-] Hc%fits_leaf; [|done]. destruct (count_field_check alias name s depth Hi) as [Hok _].
    destruct (Hok Hc) as (-> & _). cbn [mbind fueled_bind]. by rewrite (leaf_after _ _ args depth).
  - unfold mbind at 1, option_bind at 1. destruct (inline_all (inline_item expand) set) as [children|] eqn:Ech; [|done].
    intros [= <-] Hfit. destruct (fits_node _ _ _ _ _ _ Hi Hfit) as (Hd & Hc & Hh & Hcc).
    destruct (count_field_check alias name s depth Hi) as [Hok _].
    destruct (Hok Hc) as (-> & Hi1 & Ec). cbn [mbind fueled_bind].
    destruct (enter_child depth _ Hi1) as [Hin _]. destruct (Hin Hd) as [-> Hi2]. cbn [mbind fueled_bind].
    set (s2 := {| st_depth := _ |}) in *.
    assert (Fch : fits (depth + 1) children s2).
    { split; [lia|]. change (st_complexity s2) with (st_complexity (count_field alias name s)). lia. }
    rewrite (walk_all_complete (fun x s => walk_item env spread x (depth + 1) s) (inline_item expand) (depth + 1) set
      ltac:(eapply Forall_impl; [exact IH|]; simpl; auto) s2 children Hi2 Ech Fch). cbn [mbind fueled_bind].
    destruct (field_tail alias name args depth children s Hi Hd Hc Fch) as [Htail _]. by apply Htail.
  - apply (Hs name depth s l Hi).
  - rewrite enter_inside by done. cbn [mbind fueled_bind].
    apply (walk_all_complete (fun x s => walk_item env spread x depth s) (inline_item expand)); [|done].
    eapply Forall_impl; [exact IH|]. simpl. auto.
Qed.

(** *** Fragments *)

Let frags := w_fragments env.

Lemma inline_unfold fuel set : inline frags fuel set = inline_all (inline_item (fun name =>
  match fuel with O => None | S fuel => set ← frags !! name; inline frags fuel set end)) set.
Proof. by destruct fuel. Qed.

Lemma walk_unfold fuel stack set depth s : inside depth s ->
  walk env fuel stack set depth s = walk_all (fun x s => walk_item env (fun name depth s =>
    if existsb (bytes_eqb name) stack then Failed (Limit "fragments")
    else match frags !! name with
         | None => Failed ParseError
         | Some fragment => match fuel with O => NoFuel | S fuel => walk env fuel (stack ++ [name]) fragment depth s end
         end) x depth s) set s.
Proof. intros Hi. destruct fuel; cbn [walk]; rewrite enter_inside by done; done. Qed.

Lemma walk_sound fuel : forall stack set depth,
  sound (walk env fuel stack set depth) (inline frags fuel set) depth.
Proof.
  induction fuel as [|fuel IH]; intros stack set depth s s' Hi; rewrite walk_unfold, inline_unfold by done;
    apply (walk_all_sound (fun x s => walk_item env _ x depth s)); try done;
    apply Forall_true; intros x; apply walk_item_sound; intros name depth' s1 s2 Hi1;
    destruct (existsb _ _); try done; destruct (frags !! name) as [frag|]; try done.
  apply IH. exact Hi1.
Qed.

Lemma inline_mono_step (e1 e2 : bytes -> option (list node)) :
  (forall name l, e1 name = Some l -> e2 name = Some l) ->
  forall x l, inline_item e1 x = Some l -> inline_item e2 x = Some l.
Proof.
  intros He.
  assert (Hall : forall set, Forall (fun x => forall l, inline_item e1 x = Some l -> inline_item e2 x = Some l) set ->
    forall l, inline_all (inline_item e1) set = Some l -> inline_all (inline_item e2) set = Some l).
  { induction set as [|x set IH]; intros Hf l; cbn [inline_all]; [done|].
    apply Forall_cons in Hf as [Hx Hf]. unfold mbind, option_bind.
    destruct (inline_item e1 x) as [a|]; [|done]. rewrite (Hx a) by done.
    destruct (inline_all (inline_item e1) set) as [b|] eqn:E; [|done]. by rewrite (IH Hf b). }
  intros x. induction x as [alias name args|alias name args set IH|name|set IH] using selection_ind;
    intros l; cbn [inline_item]; [done| |apply He|by apply Hall].
  unfold mbind, option_bind. destruct (inline_all (inline_item e1) set) as [b|] eqn:E; [|done].
  by rewrite (Hall set IH b).
Qed.

Lemma inline_all_mono e1 e2 : (forall name l, e1 name = Some l -> e2 name = Some l) ->
  forall set l, inline_all (inline_item e1) set = Some l -> inline_all (inline_item e2) set = Some l.
Proof.
  intros He set. induction set as [|x set IH]; intros l; cbn [inline_all]; [done|]. unfold mbind, option_bind.
  destruct (inline_item e1 x) as [a|] eqn:Ea; [|done]. rewrite (inline_mono_step e1 e2 He _ _ Ea).
  destruct (inline_all (inline_item e1) set) as [b|]; [|done]. by rewrite (IH b).
Qed.

Lemma inline_S fuel : forall set l, inline frags fuel set = Some l -> inline frags (S fuel) set = Some l.
Proof.
  induction fuel as [|fuel IH]; intros set l; rewrite !inline_unfold; apply inline_all_mono; intros name l'; [done|].
  unfold mbind, option_bind. destruct (frags !! name); [|done]. apply IH.
Qed.

Lemma inline_mono fuel fuel' set l : (fuel <= fuel')%nat -> inline frags fuel set = Some l ->
  inline frags fuel' set = Some l.
Proof. induction 1; [done|]. intros Hl. apply inline_S. auto. Qed.

(** The least fuel with which a set is inlined. *)
Lemma least_fuel fuel set l : inline frags fuel set = Some l ->
  exists k, (k <= fuel)%nat /\ inline frags k set = Some l /\ forall j, (j < k)%nat -> inline frags j set = None.
Proof.
  induction fuel as [|fuel IH]; intros Hl.
  - exists 0%nat. split_and!; [done|done|lia].
  - destruct (inline frags fuel set) as [l'|] eqn:E.
    + pose proof (inline_S _ _ _ E). simplify_eq. destruct (IH eq_refl) as (k & ? & ? & ?).
      exists k. split_and!; [lia|done|done].
    + exists (S fuel). split_and!; [done|done|]. intros j Hj. destruct (inline frags j set) as [l'|] eqn:Ej; [|done].
      rewrite (inline_mono j fuel set l') in E; [done|lia|done].
Qed.

Lemma walk_complete n : forall fuel stack set depth,
  NoDup stack -> (forall x, x ∈ stack -> is_Some (frags !! x)) -> (size frags <= fuel + length stack)%nat ->
  (forall name frag k, name ∈ stack -> n = S k -> frags !! name = Some frag -> inline frags k frag = None) ->
  complete (walk env fuel stack set depth) (inline frags n set) depth.
Proof.
  induction (lt_wf n) as [n _ IH]. intros fuel stack set depth Hd Hs Hf Hst s l Hi.
  rewrite walk_unfold, inline_unfold by done.
  apply (walk_all_complete (fun x s => walk_item env _ x depth s)); [|done]. clear s l Hi.
  apply Forall_true. intros x. apply walk_item_complete. intros name depth' s l Hi.
  destruct n as [|k]; [done|]. unfold mbind, option_bind.
  destruct (frags !! name) as [frag|] eqn:El; [|done]. intros Hl Hfit. rewrite existsb_mem.
  case_bool_decide as Hin; [by rewrite (Hst name frag k) in Hl|].
  pose proof (stack_room frags stack name Hd Hs Hin ltac:(by rewrite El)).
  destruct fuel as [|fuel]; [lia|]. destruct (least_fuel _ _ _ Hl) as (j & Hj & Hlj & Hmin).
  apply (IH j); [lia| | | | |done|done|done].
  - apply NoDup_app. split; [done|]. split; [|apply NoDup_singleton]. by intros y Hy ->%list_elem_of_singleton.
  - intros y [Hy| ->%list_elem_of_singleton]%elem_of_app; [by apply Hs|by rewrite El].
  - rewrite length_app. simpl. lia.
  - intros name' frag' i [Hy| ->%list_elem_of_singleton]%elem_of_app Ei El'.
    + destruct (inline frags i frag') as [l'|] eqn:Ej; [|done].
      rewrite <- (Hst name' frag' k Hy eq_refl El'). symmetry. apply (inline_mono i); [lia|done].
    + simplify_eq. apply Hmin. lia.
Qed.

(** *** Documents *)

Record counted (s : Stats) : Prop := {
  ct_complexity : 0 <= st_complexity s <= w_complexity_cap env;
  ct_aliases : 0 <= st_aliases s <= u32_max;
}.

Lemma counted_add depth l s : counted s -> fits depth l s -> counted (add_nodes depth l s).
Proof.
  intros [] []. pose proof (cost_all_nonneg l). pose proof (alias_all_nonneg l).
  constructor; cbn; unfold u32_max in *; lia.
Qed.

(** One operation of the document. *)
Lemma walk_operation set s : counted s ->
  (forall s', walk env (size frags) [] set 1 s = Done s' ->
     exists l, inline frags (size frags) set = Some l /\ fits 1 l s /\ s' = add_nodes 1 l s)
  /\ (forall n l, inline frags n set = Some l -> fits 1 l s ->
     walk env (size frags) [] set 1 s = Done (add_nodes 1 l s)).
Proof.
  intros Hc. set (s1 := {| st_depth := Z.max (st_depth s) 1; st_complexity := st_complexity s;
    st_aliases := st_aliases s; st_introspection := st_introspection s |}).
  assert (Hadd : forall l, add_nodes 1 l s1 = add_nodes 1 l s).
  { intros l. unfold add_nodes. cbn. pose proof (height_all_nonneg l). f_equal. lia. }
  destruct (Z.le_gt_cases 1 (w_depth_cap env)) as [H1|H1].
  - assert (Hi : inside 1 s1) by (destruct Hc; constructor; cbn -[u32_max]; lia).
    assert (Hw : walk env (size frags) [] set 1 s = walk env (size frags) [] set 1 s1).
    { assert (E : enter env 1 s = Done s1) by (unfold enter; by rewrite (proj2 (Z.ltb_ge _ _)) by lia).
      pose proof (enter_inside 1 s1 Hi) as E1.
      destruct (size frags); cbn [walk]; rewrite E, E1; reflexivity. }
    rewrite Hw. split.
    + intros s' (l & Hl & Hfit & ->)%walk_sound; [|done]. eauto.
    + intros n l Hl Hfit. rewrite <- Hadd. apply (walk_complete n); try done.
      * constructor.
      * by intros x ?%elem_of_nil.
      * simpl. lia.
      * by intros ? ? ? ?%elem_of_nil.
  - assert (Hno : forall s', walk env (size frags) [] set 1 s <> Done s').
    { intros s'. destruct (size frags); cbn [walk]; unfold enter; by rewrite (proj2 (Z.ltb_lt _ _)) by lia. }
    split; [by intros s' ?%Hno|]. intros n l _ [Hd _]. pose proof (height_all_nonneg l). lia.
Qed.

(** The statistics of a document whose operations are the forests [fs]. *)
Definition document_stats (fs : list (list node)) : Stats := fold_left (fun s l => add_nodes 1 l s) fs no_stats.
Definition document_fits (fs : list (list node)) : Prop :=
  Forall (fun l => 1 + height_all l <= w_depth_cap env) fs
  /\ fold_right (fun l acc => cost_all l + acc) 0 fs <= w_complexity_cap env.

Lemma total_cost_nonneg fs : 0 <= fold_right (fun l acc => cost_all l + acc) 0 fs.
Proof. induction fs as [|l fs IH]; simpl; [lia|]. pose proof (cost_all_nonneg l). lia. Qed.

Lemma operations_spec ops : forall s st, counted s ->
  walk_all (fun op s => walk env (size frags) [] op 1 s) ops s = Done st
  <-> exists n fs, mapM (inline frags n) ops = Some fs
      /\ Forall (fun l => 1 + height_all l <= w_depth_cap env) fs
      /\ st_complexity s + fold_right (fun l acc => cost_all l + acc) 0 fs <= w_complexity_cap env
      /\ st = fold_left (fun s l => add_nodes 1 l s) fs s.
Proof.
  induction ops as [|op ops IH]; intros s st Hc; cbn [walk_all].
  - split.
    + intros [= <-]. exists 0%nat, []. destruct Hc. split_and!; [done|constructor|simpl; lia|done].
    + intros (n & fs & [= <-] & _ & _ & ->). done.
  - destruct (walk_operation op s Hc) as [Hsound Hcomp]. split.
    + destruct (walk _ _ _ op 1 s) as [s1| |] eqn:E; [|done..]. cbn [mbind fueled_bind].
      destruct (Hsound s1 eq_refl) as (l & Hl & Hfit & ->).
      intros (n & fs & Hfs & Hd & Hcost & ->)%IH; [|by apply (counted_add 1)].
      exists (Nat.max n (size frags)), (l :: fs). destruct Hfit as [Hh _]. split_and!.
      * apply mapM_Some. constructor; [apply (inline_mono (size frags)); [lia|done]|].
        apply mapM_Some in Hfs. eapply Forall2_impl; [exact Hfs|]. intros x y. apply inline_mono. lia.
      * by constructor.
      * cbn [st_complexity add_nodes] in Hcost. cbn [fold_right]. lia.
      * done.
    + intros (n & fs & Hfs & Hd & Hcost & ->). apply mapM_Some in Hfs. apply Forall2_cons_inv_l in Hfs as (l & fs' & Hl & Hfs & ->).
      apply Forall_cons in Hd as [Hh Hd]. cbn [fold_right] in Hcost. pose proof (total_cost_nonneg fs').
      assert (Hfit : fits 1 l s) by (split; lia).
      rewrite (Hcomp n l Hl Hfit). cbn [mbind fueled_bind]. apply IH; [by apply (counted_add 1)|].
      exists n, fs'. split_and!; [by apply mapM_Some|done| |done]. cbn [st_complexity add_nodes]. lia.
Qed.
End Reference.

(** C27. The analysis of a document succeeds exactly when its fragments can be expanded and
    the expansion is within the caps on depth and complexity, and then the statistics are
    those of the expanded document: the greatest depth, the number of fields with the
    children of list fields counted once per element, the aliases, and whether any
    introspection field is reached. *)
Theorem analyze_document_spec (d : Document) (variables : option JsonValue) (l : GraphqlLimits) (st : Stats) :
  0 <= default HARD_COMPLEXITY (max_complexity l) ->
  analyze_document d variables l = Done st
  <-> exists n forests, mapM (inline (fragments d) n) (operations d) = Some forests
        /\ document_fits (walk_env d variables l) forests
        /\ st = document_stats (walk_env d variables l) forests.
Proof.
  intros Hc. unfold analyze_document, document_fits, document_stats.
  pose proof (operations_spec (walk_env d variables l)) as Hspec.
  cbn [w_fragments w_complexity_cap walk_env] in Hspec. rewrite Hspec.
  - split; intros (n & fs & ? & ? & ?).
    + exists n, fs. naive_solver.
    + exists n, fs. naive_solver.
  - lia.
  - constructor; cbn; unfold HARD_COMPLEXITY, u32_max in *; lia.
Qed.

Definition demo_document : Document := {|
  operations := [[Field true "users" [(lit "first", GVariable "n")] (Some [Spread "F"])]];
  fragments := {[ lit "F" := [Field false "id" [] None; Inline [Field false "name" [] None]] ]} |}.
Definition demo_limits : GraphqlLimits := {|
  max_depth := Some 2; max_complexity := Some 11; max_aliases := Some 1; max_fragments := Some 1;
  max_operations := None; introspection := false; introspection_set := true; persisted_only := false;
  persisted_only_set := false; default_list_size := 10; quota := Some 20; quota_window := from_secs 60 |}.
Definition demo_variables : JsonValue := JObject [(lit "n", JNumber "5")].

Lemma analyze_document_spec_witness : exists st,
  analyze_document demo_document (Some demo_variables) demo_limits = Done st /\ st_complexity st = 11
  /\ exists n forests, mapM (inline (fragments demo_document) n) (operations demo_document) = Some forests
        /\ document_fits (walk_env demo_document (Some demo_variables) demo_limits) forests
        /\ st = document_stats (walk_env demo_document (Some demo_variables) demo_limits) forests.
Proof.
  eexists. split; [vm_compute; reflexivity|]. split; [reflexivity|].
  apply (analyze_document_spec demo_document (Some demo_variables) demo_limits);
    [vm_compute; discriminate|vm_compute; reflexivity].
Defined.

(** A cycle of fragments, an unknown fragment, and a list one element too long. *)
Example analyze_cases :
  analyze_document {| operations := [[Spread "F"]]; fragments := {[ lit "F" := [Spread "F"] ]} |} None demo_limits
    = Failed (Limit "fragments")
  /\ analyze_document {| operations := [[Spread "F"]]; fragments := ∅ |} None demo_limits = Failed ParseError
  /\ analyze_document demo_document (Some (JObject [(lit "n", JNumber "6")])) demo_limits
    = Failed (Limit "complexity").
Proof. split_and!; vm_compute; reflexivity. Qed.

(** ** What an allowed request satisfies *)

Definition valid_limits (l : GraphqlLimits) : Prop := forall m, max_complexity l = Some m -> 0 < m.

Lemma require_opt_pos v max r : (forall x, v = Some x -> 0 <= x) -> require_opt v max = Some r ->
  forall m, r = Some m -> 0 < m.
Proof.
  unfold require_opt, require, mbind, option_bind. destruct v as [x|]; [|intros _ [= <-] m; done].
  intros Hx. specialize (Hx x eq_refl). destruct (Z.eqb_spec x 0); [done|]. cbn [orb].
  destruct (max <? x); [done|]. intros [= <-] m [= <-]. lia.
Qed.

(** Limits read from a file are valid, and so are overlays of valid limits. *)
Lemma limits_from_file_valid env file l : (forall x, f_max_complexity file = Some x -> 0 <= x) ->
  limits_from_file env file = Some l -> valid_limits l.
Proof.
  unfold limits_from_file, mbind, option_bind. intros Hx. repeat case_match; try done. intros [= <-] m Hm.
  by eapply require_opt_pos.
Qed.

Lemma overlay_valid base other : valid_limits base -> valid_limits other -> valid_limits (overlay_limits base other).
Proof.
  intros Hb Ho m. unfold overlay_limits, or_else. cbn [max_complexity].
  destruct (max_complexity other) as [x|] eqn:E; [intros [= <-]; by apply Ho|apply Hb].
Qed.

Section Allowed.
Context {H : Sha256} {J : SerdeJson}.

(** What is required of one operation, whose document expands to [forests]. *)
Record op_within (p : GraphqlPolicy) (op : RawOp) (query : bytes) (d : Document) (forests : list (list node)) : Prop := {
  ow_query : op_query op = Some query;
  ow_parsed : parse_document query = Done d;
  ow_operations : operations d <> [];
  ow_expanded : exists n, mapM (inline (fragments d) n) (operations d) = Some forests;
  ow_persisted : persisted_only (limits p) = true -> query_hash query ∈ persisted p;
  ow_claim : forall claimed, op_persisted op = Some claimed -> to_ascii_lowercase (trim claimed) = query_hash query;
  ow_fragments : forall m, max_fragments (limits p) = Some m -> as_u32 (Z.of_nat (size (fragments d))) <= m;
  ow_depth : forall set, set ∈ forests ->
               1 + height_all set <= HARD_DEPTH /\ forall m, max_depth (limits p) = Some m -> 1 + height_all set <= m;
  ow_introspection : introspection (limits p) = false -> forall set, set ∈ forests -> existsb introspects set = false;
  ow_cost : let total := st_complexity (document_stats (walk_env d (op_variables op) (limits p)) forests) in
            total <= HARD_COMPLEXITY /\ forall m, max_complexity (limits p) = Some m -> total <= m;
  ow_aliases : forall m, max_aliases (limits p) = Some m ->
               st_aliases (document_stats (walk_env d (op_variables op) (limits p)) forests) <= m;
}.

Lemma stats_complexity env fs : forall s, st_complexity (fold_left (fun s l => add_nodes env 1 l s) fs s)
  = st_complexity s + fold_right (fun l acc => cost_all env l + acc) 0 fs.
Proof. induction fs as [|l fs IH]; intros s; [simpl; lia|]. cbn [fold_left fold_right]. rewrite IH. cbn. lia. Qed.

Lemma stats_introspection env fs : forall s, st_introspection (fold_left (fun s l => add_nodes env 1 l s) fs s)
  = st_introspection s || existsb (existsb introspects) fs.
Proof.
  induction fs as [|l fs IH]; intros s; [simpl; by rewrite orb_false_r|]. cbn [fold_left existsb]. rewrite IH.
  cbn. by rewrite orb_assoc.
Qed.

Lemma over_false m v : over m v = false -> forall x, m = Some x -> v <= x.
Proof. unfold over. intros Hm x ->. by apply Z.ltb_ge in Hm. Qed.

Lemma persisted_claim_ok l op : persisted_claim l op = Ok tt -> forall claimed, op_persisted op = Some claimed ->
  exists query, op_query op = Some query /\ to_ascii_lowercase (trim claimed) = query_hash query.
Proof.
  unfold persisted_claim. intros Hc claimed Hcl. revert Hc. rewrite Hcl. cbv zeta. destruct (negb _); [done|].
  destruct (op_query op) as [q|]; [|by destruct (persisted_only l)].
  destruct (query_hash q =s _) eqn:E; [|done]. intros _. exists q. split; [done|]. by apply bytes_eqb_eq in E.
Qed.

Lemma evaluate_op_within p op t t' : valid_limits (limits p) -> evaluate_op p op t = Done t' ->
  exists query d forests, op_within p op query d forests
    /\ t'.1 = t.1 + as_u32 (len (operations d)) /\ t'.1 <= default HARD_OPERATIONS (max_operations (limits p))
    /\ t'.2 = saturating_add u64_max t.2 (Z.max (st_complexity (document_stats (walk_env d (op_variables op) (limits p)) forests)) 1).
Proof.
  intros Hv. unfold evaluate_op. destruct (persisted_claim (limits p) op) as [[]|] eqn:Ecl; [|done].
  destruct (op_query op) as [query|] eqn:Eq; [|done].
  destruct (persisted_only (limits p) && _) eqn:Ep; [done|].
  destruct (parse_document query) as [d|[]|] eqn:Ed; try done.
  unfold checked_add. destruct (_ <=? u32_max); [|done]. destruct (Z.ltb_spec (default HARD_OPERATIONS (max_operations (limits p)))
    (t.1 + as_u32 (len (operations d)))); [done|].
  destruct (is_empty (operations d)) eqn:Ee; [done|]. destruct (over (max_fragments (limits p)) _) eqn:Ef; [done|].
  destruct (analyze_document d (op_variables op) (limits p)) as [st| |] eqn:Ea; [|done..]. cbn [mbind fueled_bind].
  destruct (negb _ && _) eqn:Ei; [done|]. destruct (over (max_depth _) _) eqn:Edp; [done|].
  destruct (over (max_complexity _) _) eqn:Ec; [done|]. destruct (over (max_aliases _) _) eqn:Eal; [done|]. intros [= <-].
  apply analyze_document_spec in Ea as (n & fs & Hex & [Hd Hcost] & ->).
  2: { destruct (max_complexity (limits p)) as [m|] eqn:Em; [specialize (Hv m Em); simpl; lia|done]. }
  exists query, d, fs. split; [|done]. constructor; try done.
  - by apply is_empty_false.
  - eauto.
  - intros Ho. rewrite Ho in Ep. apply negb_false_iff, bool_decide_eq_true in Ep. done.
  - intros claimed Hcl. destruct (persisted_claim_ok _ _ Ecl claimed Hcl) as (q & Hq & ->). congruence.
  - by apply over_false.
  - intros set Hs. rewrite Forall_forall in Hd. specialize (Hd set Hs). cbn [w_depth_cap walk_env] in Hd.
    split; [lia|]. intros m Hm. rewrite Hm in Hd. simpl in Hd. lia.
  - intros Hi set Hs. rewrite Hi in Ei. cbn [negb andb] in Ei. unfold document_stats in Ei.
    rewrite stats_introspection in Ei. apply orb_false_iff in Ei as [_ Ei].
    destruct (existsb introspects set) eqn:E; [|done]. assert (existsb (existsb introspects) fs = true); [|congruence].
    apply existsb_exists. exists set. split; [by apply list_elem_of_In|done].
  - cbv zeta. unfold document_stats. rewrite stats_complexity. cbn [st_complexity no_stats w_complexity_cap walk_env] in *.
    split; [lia|]. intros m Hm. rewrite Hm in Hcost. simpl in Hcost. lia.
  - by apply over_false.
Qed.

Lemma evaluate_ops_within p ops : valid_limits (limits p) -> forall t t', walk_all (evaluate_op p) ops t = Done t' ->
  exists evidence : list (bytes * Document * list (list node)),
    Forall2 (fun op '(query, d, forests) => op_within p op query d forests) ops evidence
    /\ t'.1 = t.1 + fold_right (fun e acc => as_u32 (len (operations e.1.2)) + acc) 0 evidence
    /\ (ops <> [] -> t'.1 <= default HARD_OPERATIONS (max_operations (limits p))).
Proof.
  intros Hv. induction ops as [|op ops IH]; intros t t'; cbn [walk_all].
  - intros [= <-]. exists []. split_and!; [constructor|simpl; lia|done].
  - destruct (evaluate_op p op t) as [t1| |] eqn:E; [|done..]. cbn [mbind fueled_bind]. intros Ew.
    destruct (evaluate_op_within p op t t1 Hv E) as (query & d & fs & Hw & Ht & Hle & _).
    destruct (IH t1 t' Ew) as (ev & Hev & Ht' & Hle'). exists ((query, d, fs) :: ev). split_and!.
    + by constructor.
    + cbn [fold_right fst snd]. lia.
    + intros _. destruct ops; [|by apply Hle']. simpl in Ew. by simplify_eq.
Qed.

(** C26. A request the policy allows carries operations whose queries the parser accepts (a token
    it cannot read after directives is skipped); the documents it reads, with fragments expanded, are within every configured limit and the hard limits, use no
    introspection where it is off, and have hashes in the list of the policy where only
    persisted queries pass; all its documents together hold no more operations than
    configured.  So no limit is evaded by fragments, variables or batching. *)
Theorem graphql_allow_within (p : GraphqlPolicy) (books books' : Books) (now_sweep now : Instant)
    (method path : bytes) (content_type : option bytes) (body : bytes) (identity : GraphqlIdentity) (site : bytes) :
  valid_limits (limits p) ->
  check p books now_sweep now method path content_type body identity site = (books', Done Allow) ->
  exists (ops : list RawOp) (evidence : list (bytes * Document * list (list node))),
    extract_ops content_type body (negb (is_empty (paths p))) = XOps ops
    /\ Forall2 (fun op '(query, d, forests) => op_within p op query d forests) ops evidence
    /\ (ops <> [] -> fold_right (fun e acc => as_u32 (len (operations e.1.2)) + acc) 0 evidence
                     <= default HARD_OPERATIONS (max_operations (limits p))).
Proof.
  intros Hv. unfold check. destruct (negb _); [done|]. cbv zeta. destruct (negb (path_ok _ _)); [done|].
  destruct (extract_ops _ _ _) as [|ops|f]; [done| |done]. unfold evaluate.
  destruct (_ <? as_u32 _); [done|]. destruct (walk_all _ ops (0, 0)) as [t| |] eqn:Ew; [|done..].
  intros _. destruct (evaluate_ops_within p ops Hv _ _ Ew) as (ev & Hev & Ht & Hle).
  exists ops, ev. split_and!; [done|done|]. intros Hne. specialize (Hle Hne). simpl in Ht. lia.
Qed.

(** A check always answers: neither the parser nor the analysis runs out of fuel. *)
Theorem graphql_check_total (p : GraphqlPolicy) (books : Books) (now_sweep now : Instant)
    (method path : bytes) (content_type : option bytes) (body : bytes) (identity : GraphqlIdentity) (site : bytes) :
  (check p books now_sweep now method path content_type body identity site).2 <> NoFuel.
Proof.
  unfold check. destruct (negb _); [done|]. cbv zeta. destruct (negb (path_ok _ _)); [done|].
  destruct (extract_ops _ _ _) as [|ops|f]; [done| |done]. unfold evaluate.
  destruct (_ <? as_u32 _); [done|].
  assert (Hw : wp (walk_all (evaluate_op p) ops (0, 0)) (fun _ => True)).
  { apply walk_all_wp, Forall_true. intros op t. unfold evaluate_op.
    destruct (persisted_claim _ op) as [[]|]; [|done]. destruct (op_query op) as [q|]; [|done].
    destruct (_ && _); [done|]. pose proof (parse_document_no_fuel q) as Hp.
    destruct (parse_document q) as [d|[]|]; try done.
    destruct (checked_add _ _ _); [|done]. destruct (_ <? _); [done|]. destruct (is_empty _); [done|].
    destruct (over _ _); [done|]. pose proof (analyze_document_wp d (op_variables op) (limits p)) as Ha.
    destruct (analyze_document _ _ _) as [st| |]; [|done..]. cbn [mbind fueled_bind].
    by repeat (destruct (_ && _) || destruct (over _ _)). }
  destruct (walk_all _ ops (0, 0)) as [t| |]; [|done..].
  destruct (consume_quota _ _ _ _ _ _ _) as [b [f|]]; done.
Qed.
End Allowed.

Definition demo_hash : Sha256 := {| sha256 s := take 32 (s ++ repeat 0 32) |}.
Definition demo_policy : GraphqlPolicy := {| limits := demo_limits; paths := [lit "/graphql"]; persisted := ∅; book := 0 |}.
Definition demo_user : GraphqlIdentity := {| id_sub := Some (lit "u"); id_ip := lit "192.0.2.1" |}.

Lemma graphql_allow_within_witness : exists books',
  @check demo_hash no_json demo_policy ∅ 0 0 "POST" "/%67raphql?x" (Some (lit "application/graphql"))
    "query { u: users(first: 5) { ...F } } fragment F on User { id name }" demo_user "site" = (books', Done Allow)
  /\ exists (ops : list RawOp) (evidence : list (bytes * Document * list (list node))),
    @extract_ops no_json (Some (lit "application/graphql"))
      "query { u: users(first: 5) { ...F } } fragment F on User { id name }" true = XOps ops
    /\ Forall2 (fun op '(query, d, forests) => @op_within demo_hash demo_policy op query d forests) ops evidence
    /\ (ops <> [] -> fold_right (fun e acc => as_u32 (len (operations e.1.2)) + acc) 0 evidence
                     <= default HARD_OPERATIONS (max_operations (limits demo_policy))).
Proof.
  eexists. split; [vm_compute; reflexivity|].
  eapply (@graphql_allow_within demo_hash no_json demo_policy ∅ _ 0 0 "POST" "/%67raphql?x"
    (Some (lit "application/graphql")) "query { u: users(first: 5) { ...F } } fragment F on User { id name }" demo_user "site").
  - by intros m [= <-].
  - vm_compute. reflexivity.
Defined.

(** ** The quota *)

Section Quota.
Context (w : Duration) (max : Z).

(** One call of [consume_quota] and its outcome; policies that share a book differ in their
    limits. *)
Record Charge : Type := {
  ch_limits : GraphqlLimits; ch_identity : GraphqlIdentity; ch_site : bytes; ch_cost : Z;
  ch_sweep : Instant; ch_now : Instant;
}.
Definition charge (c : Charge) (b : QuotaBook) : QuotaBook * option GraphqlFailure :=
  consume_quota (ch_limits c) b (ch_sweep c) (ch_now c) (ch_identity c) (ch_site c) (ch_cost c).

(** The charges accepted under a key, with their instants. *)
Fixpoint charged (key : bytes) (cs : list Charge) (b : QuotaBook) : list (Instant * Z) :=
  match cs with
  | [] => []
  | c :: cs =>
      let '(b, failure) := charge c b in
      (if bool_decide (failure = None) && (quota_key (ch_site c) (ch_identity c) =s key)
       then [(ch_now c, ch_cost c)] else []) ++ charged key cs b
  end.

(** The clock does not go back, every policy has a quota of at most [max] over the window [w],
    and costs are those of [evaluate]. *)
Fixpoint charges_from (t : Instant) (cs : list Charge) : Prop :=
  match cs with
  | [] => True
  | c :: cs => t <= ch_sweep c <= ch_now c /\ (exists m, quota (ch_limits c) = Some m /\ m <= max)
      /\ quota_window (ch_limits c) = w /\ 1 <= ch_cost c /\ charges_from (ch_now c) cs
  end.

Definition total (l : list (Instant * Z)) : Z := fold_right (fun x acc => x.2 + acc) 0 l.
Definition in_interval (a : Z) (l : list (Instant * Z)) : list (Instant * Z) :=
  base.filter (fun x => within a w x.1) l.

Lemma total_app l k : total (l ++ k) = total l + total k.
Proof. induction l as [|x l IH]; [done|]. cbn. fold (total (l ++ k)) (total l). lia. Qed.

Lemma total_sublist l k : l `sublist_of` k -> Forall (fun x => 0 <= x.2) k -> 0 <= total l <= total k.
Proof.
  induction 1 as [|x l k _ IH|x l k _ IH]; intros Hk; [done|..]; apply Forall_cons in Hk as [Hx Hk];
    specialize (IH Hk); cbn; fold (total l) (total k); lia.
Qed.

Record quota_inv (key : bytes) (now : Instant) (log : list (Instant * Z)) (b : QuotaBook) : Prop := {
  qi_row : forall t, now <= t -> retain_window fst w t (row (hits b) key) = retain_window fst w t log;
  qi_past : Forall (fun x => x.1 <= now) log;
  qi_cost : Forall (fun x => 0 <= x.2) log;
  qi_bound : forall a, total (in_interval a log) <= max;
}.

Lemma fold_saturating l : forall acc, Forall (fun x => 0 <= x.2) l -> 0 <= acc -> acc + total l <= u64_max ->
  fold_left (fun acc (x : Instant * Z) => saturating_add u64_max acc x.2) l acc = acc + total l.
Proof.
  induction l as [|x l IH]; intros acc Hl Ha Hb; [cbn; lia|]. apply Forall_cons in Hl as [Hx Hl].
  cbn [fold_left total fold_right] in *. fold (total l) in *.
  assert (0 <= total l) by (destruct (total_sublist [] l (sublist_nil_l l) Hl); done).
  rewrite IH; unfold saturating_add; try done; lia.
Qed.

Lemma live_costs t log : Forall (fun x : Instant * Z => 0 <= x.2) log ->
  Forall (fun x : Instant * Z => 0 <= x.2) (retain_window fst w t log).
Proof.
  unfold retain_window. induction 1 as [|x l Hx _ IH]; [constructor|]. rewrite filter_cons. case_decide; [by constructor|done].
Qed.

Lemma interval_costs a log : Forall (fun x : Instant * Z => 0 <= x.2) log ->
  Forall (fun x : Instant * Z => 0 <= x.2) (in_interval a log).
Proof.
  unfold in_interval. induction 1 as [|x l Hx _ IH]; [constructor|]. rewrite filter_cons. case_decide; [by constructor|done].
Qed.

(** What is live now lies in one interval, and what lies in an interval that holds now is live. *)
Lemma live_interval now log : Forall (fun x : Instant * Z => x.1 <= now) log ->
  retain_window fst w now log `sublist_of` in_interval (now - w + 1) log.
Proof.
  intros Hp. apply filter_sublist_impl. intros x Hx Hw. rewrite Forall_forall in Hp. specialize (Hp x Hx).
  unfold live, within, duration_since in *. lia.
Qed.

Lemma interval_live a now log : Forall (fun x : Instant * Z => x.1 <= now) log -> within a w now ->
  in_interval a log `sublist_of` retain_window fst w now log.
Proof.
  intros Hp Hn. apply filter_sublist_impl. intros x Hx Hw. rewrite Forall_forall in Hp. specialize (Hp x Hx).
  unfold live, within, duration_since in *. lia.
Qed.

(** Charges rejected or of other keys keep the invariant. *)
Lemma inv_later key now now' log b b' : quota_inv key now log b -> now <= now' ->
  (forall t, now' <= t -> retain_window fst w t (row (hits b') key) = retain_window fst w t (row (hits b) key)) ->
  quota_inv key now' log b'.
Proof.
  intros [Hr Hp Hc Hb] Hn Hrow. constructor; try done.
  - intros t Ht. rewrite Hrow by done. apply Hr. lia.
  - eapply Forall_impl; [exact Hp|]. simpl. lia.
Qed.

(** An accepted charge. *)
Lemma inv_accept key now now' log b cost m : quota_inv key now log b -> now <= now' -> 1 <= cost -> m <= max ->
  max < u64_max ->
  fold_left (fun acc (x : Instant * Z) => saturating_add u64_max acc x.2)
    (retain_window fst w now' (row (hits b) key)) 0 = total (retain_window fst w now' log)
  /\ (total (retain_window fst w now' log) + cost <= m -> forall n,
      quota_inv key now' (log ++ [(now', cost)])
        {| hits := <[key := retain_window fst w now' (row (hits b) key) ++ [(now', cost)]]> (hits b); calls := n |}).
Proof.
  intros [Hr Hp Hc Hb] Hn Hcost Hm Hmax. rewrite Hr by lia.
  assert (Hp' : Forall (fun x : Instant * Z => x.1 <= now') log) by (eapply Forall_impl; [exact Hp|]; simpl; lia).
  pose proof (total_sublist _ _ (live_interval now' log Hp') (interval_costs _ _ Hc)) as Hlive.
  specialize (Hb (now' - w + 1)) as Hbl. split.
  - rewrite fold_saturating; [done|by apply live_costs|done|]. unfold in_interval in *. lia.
  - intros Hle n. constructor.
    + intros t Ht. cbn [hits]. rewrite row_insert, decide_True by done. rewrite !retain_app, retain_retain by done. done.
    + apply Forall_app. split; [done|]. constructor; [simpl; lia|constructor].
    + apply Forall_app. split; [done|]. constructor; [simpl; lia|constructor].
    + intros a. unfold in_interval. rewrite filter_app, total_app. fold (in_interval a log).
      rewrite filter_cons. case_decide as Hw; cbn [fst] in Hw; [|simpl; specialize (Hb a); lia].
      pose proof (total_sublist _ _ (interval_live a now' log Hp' Hw) (live_costs _ _ Hc)). simpl. lia.
Qed.

Context (Hmax : max < u64_max).

Lemma quota_charge_inv key now log c b : quota_inv key now log b -> charges_from now [c] ->
  quota_inv key (ch_now c)
    (log ++ (if bool_decide ((charge c b).2 = None) && (quota_key (ch_site c) (ch_identity c) =s key)
             then [(ch_now c, ch_cost c)] else [])) (charge c b).1.
Proof.
  intros Hi (Ht & (m & Hq & Hm) & Hw & Hcost & _). unfold charge, consume_quota. rewrite Hq, Hw. cbv zeta.
  set (table := if _ =? 0 then _ else _). set (k := quota_key _ _).
  assert (Htab : forall key' t, ch_sweep c <= t ->
    retain_window fst w t (row table key') = retain_window fst w t (row (hits b) key')).
  { intros key' t Ht'. subst table. destruct (_ =? 0); [|done]. by apply sweep_retain. }
  assert (Hi' : forall n, quota_inv key (ch_now c) log {| hits := table; calls := n |}).
  { intros n. eapply inv_later; [exact Hi|lia|]. intros t Htt. apply Htab. lia. }
  destruct (bool_decide (table !! k = None) && _); [cbn; rewrite app_nil_r; apply Hi'|].
  destruct (bytes_eqb k key) eqn:Ek.
  - apply bytes_eqb_eq in Ek as ->.
    destruct (inv_accept key (ch_now c) (ch_now c) log {| hits := table; calls := 0 |} (ch_cost c) m (Hi' 0))
      as [Hused Hacc]; [lia|done|done|done|]. cbn [hits] in Hused, Hacc. cbn [hits calls]. rewrite Hused.
    destruct (Z.ltb_spec m (saturating_add u64_max (total (retain_window fst w (ch_now c) log)) (ch_cost c)))
      as [Hlt|Hge]; cbn.
    + rewrite app_nil_r. eapply (inv_later _ (ch_now c)); [apply (Hi' 0)|lia|]. intros t Htt. cbn [hits].
      rewrite row_insert, decide_True by done. by apply retain_retain.
    + apply Hacc. unfold saturating_add in Hge. lia.
  - rewrite andb_false_r. cbv iota. rewrite app_nil_r.
    assert (Hne : k <> key) by (intros E; by rewrite E, bytes_eqb_refl in Ek).
    destruct (_ <? _); (eapply (inv_later _ (ch_now c)); [apply (Hi' 0)|lia|]); intros t Htt; cbn [fst hits];
      by rewrite row_insert, decide_False.
Qed.

Lemma charged_bound key cs : forall now log b, quota_inv key now log b -> charges_from now cs ->
  forall a, total (in_interval a (log ++ charged key cs b)) <= max.
Proof.
  induction cs as [|c cs IH]; intros now log b Hi Hcs a; cbn [charged].
  - rewrite app_nil_r. apply Hi.
  - destruct Hcs as (Ht & Hq & Hw & Hcost & Hcs).
    pose proof (quota_charge_inv key now log c b Hi ltac:(done)) as Hi'.
    destruct (charge c b) as [b' failure]. cbn [fst snd] in Hi'. rewrite app_assoc. by eapply IH.
Qed.
End Quota.

(** Whatever the mix of sites and routes sharing a quota book, if their policies have the
    same window, the complexity accepted for an identity of a site in any interval as long
    as the window is at most the greatest of their quotas. *)
Theorem quota_window_bound (w : Duration) (max : Z) (key : bytes) (cs : list Charge) (t a : Z) :
  0 <= max < u64_max -> charges_from w max t cs ->
  total (in_interval w a (charged key cs new_book)) <= max.
Proof.
  intros Hm Hcs. apply (charged_bound w max ltac:(lia) key cs t [] new_book); [|done].
  constructor; try done. intros a'. cbn. lia.
Qed.

Definition demo_charge (window now cost : Z) : Charge := {|
  ch_limits := {| max_depth := None; max_complexity := None; max_aliases := None; max_fragments := None;
    max_operations := None; introspection := true; introspection_set := false; persisted_only := false;
    persisted_only_set := false; default_list_size := 10; quota := Some 10; quota_window := from_secs window |};
  ch_identity := demo_user; ch_site := lit "site"; ch_cost := cost; ch_sweep := from_secs now; ch_now := from_secs now |}.

Lemma quota_window_bound_witness :
  charged (quota_key "site" demo_user) [demo_charge 60 1 6; demo_charge 60 5 5; demo_charge 60 9 4] new_book
    = [(from_secs 1, 6); (from_secs 9, 4)]
  /\ total (in_interval (from_secs 60) 0
       (charged (quota_key "site" demo_user) [demo_charge 60 1 6; demo_charge 60 5 5; demo_charge 60 9 4] new_book)) <= 10.
Proof.
  split; [vm_compute; reflexivity|].
  apply (quota_window_bound (from_secs 60) 10 _ _ 0 0); [unfold u64_max; lia|].
  repeat (split; [vm_compute; intuition discriminate|]; split; [exists 10; split; [reflexivity|lia]|];
    split; [reflexivity|]; split; [vm_compute; discriminate|]). exact I.
Defined.

(** Policies that share a book with different windows: a route with a window of a second
    erases what a site counts over a minute, which then accepts twice its quota. *)
Example quota_shared_book_windows :
  let cs := [demo_charge 60 1 10; demo_charge 1 5 1; demo_charge 60 6 9] in
  total (in_interval (from_secs 60) 0 (charged (quota_key "site" demo_user) cs new_book)) = 20.
Proof. vm_compute. reflexivity. Qed.

(** A window or list size written in an overlay as the default value is not told from an
    absent one. *)
Example overlay_default_ignored : forall l,
  default_list_size (overlay_limits l {| max_depth := None; max_complexity := None; max_aliases := None;
    max_fragments := None; max_operations := None; introspection := true; introspection_set := false;
    persisted_only := false; persisted_only_set := false; default_list_size := DEFAULT_LIST_SIZE; quota := None;
    quota_window := from_secs 5 |}) = default_list_size l.
Proof. done. Qed.
