(* ===== verification/Origin.v ===== *)
(** * Origin pools ([src/origin.rs]) and retries ([src/proxy.rs])

    Selection among the origins of a balanced site: rotation, health, circuit breakers; and
    the attempts of one request.  Health probes are third-party I/O: their outcomes are
    arguments, and so are the readings of the clock.  The round robin of Pingora's load
    balancer is only used to run the probes. *)

From S2P Require Import Prelude Net.

Definition CIRCUIT_OPEN_FOR : Duration := from_secs 5.
Definition FAILURES_TO_OPEN : Z := 1.

(** [src/origin.rs: fn method_is_idempotent] *)
Definition method_is_idempotent (method : bytes) : bool := one_of method ["GET"; "HEAD"; "OPTIONS"].

(** [src/origin.rs: fn extra_retry_budget] *)
Definition extra_retry_budget (configured : Z) (balanced : bool) : Z :=
  let capped := Z.min configured 3 in if balanced then Z.max capped 1 else capped.

(** [src/origin.rs: fn configured_extra_retries] *)
Definition configured_extra_retries (env : Env) : Z :=
  Z.min (default 0 (env "MAX_UPSTREAM_RETRIES" ≫= parse_uint u32_max)) 3.

(** [IpAddr::to_canonical]: an IPv4-mapped IPv6 address is the IPv4 address. *)
Definition to_canonical (ip : IpAddr) : IpAddr :=
  match ip with
  | V4 x => V4 x
  | V6 x => if Z.shiftr x 32 =? 65535 then V4 (Z.land x (2 ^ 32 - 1)) else V6 x
  end.

Definition socket_port (a : SocketAddr) : Z :=
  match a with SocketV4 _ p => p | SocketV6 _ p _ _ => p end.
Definition socket_new (ip : IpAddr) (port : Z) : SocketAddr :=
  match ip with V4 x => SocketV4 x port | V6 x => SocketV6 x port 0 0 end.

(** [src/origin.rs: fn canonical_addr] *)
Definition canonical_addr (addr : SocketAddr) : SocketAddr :=
  socket_new (to_canonical (socket_ip addr)) (socket_port addr).

(** ** Circuit breakers *)

(** [src/origin.rs: struct CircuitBreaker] *)
Record CircuitBreaker : Type := {
  consecutive_failures : Z;
  opened_at : option Instant;
  probing : bool;
  open_for : Duration;
}.

(** [src/origin.rs: CircuitBreaker::with_open_for] *)
Definition with_open_for (open_for : Duration) : CircuitBreaker :=
  {| consecutive_failures := 0; opened_at := None; probing := false; open_for := open_for |}.

(** [src/origin.rs: CircuitBreaker::new] *)
Definition new_circuit : CircuitBreaker := with_open_for CIRCUIT_OPEN_FOR.

(** [src/origin.rs: CircuitBreaker::allows_traffic] *)
Definition allows_traffic (now : Instant) (c : CircuitBreaker) : bool :=
  match opened_at c with None => true | Some at_ => open_for c <=? duration_since now at_ end.

(** [src/origin.rs: CircuitBreaker::can_send] *)
Definition can_send (now : Instant) (c : CircuitBreaker) : CircuitBreaker * bool :=
  match opened_at c with
  | None => (c, true)
  | Some at_ =>
      if open_for c <=? duration_since now at_ then
        (* compare_exchange(false, true) *)
        if probing c then (c, false)
        else ({| consecutive_failures := consecutive_failures c; opened_at := opened_at c;
                 probing := true; open_for := open_for c |}, true)
      else (c, false)
  end.

(** [src/origin.rs: CircuitBreaker::on_success] *)
Definition on_success (c : CircuitBreaker) : CircuitBreaker :=
  {| consecutive_failures := 0; opened_at := None; probing := false; open_for := open_for c |}.

(** [src/origin.rs: CircuitBreaker::on_failure] *)
Definition on_failure (now : Instant) (c : CircuitBreaker) : CircuitBreaker :=
  let failures := (consecutive_failures c + 1) mod 2 ^ 32 in
  {| consecutive_failures := failures;
     opened_at := if FAILURES_TO_OPEN <=? failures then Some now else opened_at c;
     probing := false; open_for := open_for c |}.

(** ** Pools *)

(** [src/config.rs: struct OriginEndpoint] *)
Record OriginEndpoint : Type := { o_addr : SocketAddr; o_host : bytes; o_tls : bool }.

(** [src/config.rs: struct Backend @316-324] What a site says of its origins; a client
    certificate is named by a byte string. *)
Record Site : Type := {
  addr : SocketAddr;
  host : bytes;
  site_scope : bytes;
  tls : bool;
  origins : list OriginEndpoint;
  origin_mtls : option bytes;
}.

(** [src/config.rs: Backend::is_balanced] *)
Definition is_balanced (b : Site) : bool := 1 <? len (origins b).

(** [src/origin.rs: struct PickedOrigin] *)
Record PickedOrigin : Type := { p_addr : SocketAddr; p_host : bytes; p_tls : bool; p_mtls : option bytes }.

(** [src/origin.rs: PickedOrigin::from_backend] *)
Definition from_backend (b : Site) : PickedOrigin :=
  {| p_addr := addr b; p_host := host b; p_tls := tls b; p_mtls := origin_mtls b |}.

(** [src/origin.rs: PickedOrigin::from_endpoint] *)
Definition from_endpoint (e : OriginEndpoint) (mtls : option bytes) : PickedOrigin :=
  {| p_addr := o_addr e; p_host := o_host e; p_tls := o_tls e; p_mtls := mtls |}.

(** [src/origin.rs: struct SitePool] *)
Record SitePool : Type := {
  circuits : gmap SocketAddr CircuitBreaker;
  down : gset SocketAddr;
  cursor : Z;
  mtls : option bytes;
}.

Definition with_circuits (p : SitePool) (m : gmap SocketAddr CircuitBreaker) : SitePool :=
  {| circuits := m; down := down p; cursor := cursor p; mtls := mtls p |}.

(** [src/origin.rs: struct OriginPools] *)
Record OriginPools : Type := { version : bytes; sites : gmap bytes SitePool }.

Definition set_site (pools : OriginPools) (scope : bytes) (p : SitePool) : OriginPools :=
  {| version := version pools; sites := <[scope := p]> (sites pools) |}.

(** [src/origin.rs: SitePool::is_down] *)
Definition is_down (p : SitePool) (a : SocketAddr) : bool := bool_decide (canonical_addr a ∈ down p).

(** [src/origin.rs: SitePool::circuit_allows] *)
Definition circuit_allows (now : Instant) (p : SitePool) (a : SocketAddr) : bool :=
  match circuits p !! canonical_addr a with Some c => allows_traffic now c | None => true end.

(** [src/origin.rs: SitePool::circuit_mut] The breaker of an address, made when absent. *)
Definition circuit_of (p : SitePool) (a : SocketAddr) : CircuitBreaker :=
  default new_circuit (circuits p !! canonical_addr a).
Definition set_circuit (p : SitePool) (a : SocketAddr) (c : CircuitBreaker) : SitePool :=
  with_circuits p (<[canonical_addr a := c]> (circuits p)).

(** [src/origin.rs: SitePool::can_send] *)
Definition pool_can_send (now : Instant) (p : SitePool) (a : SocketAddr) : SitePool * bool :=
  let '(c, ok) := can_send now (circuit_of p a) in (set_circuit p a c, ok).

(** [src/origin.rs: TrackingHealth::check] [up] is the outcome of the probe of the address. *)
Definition health_check (up : bool) (a : SocketAddr) (p : SitePool) : SitePool :=
  let key := canonical_addr a in
  if up then
    let p := {| circuits := circuits p; down := down p ∖ {[ key ]}; cursor := cursor p; mtls := mtls p |} in
    set_circuit p a (on_success (circuit_of p a))
  else {| circuits := circuits p; down := {[ key ]} ∪ down p; cursor := cursor p; mtls := mtls p |}.

Definition tried_already (tried : list SocketAddr) (a : SocketAddr) : bool :=
  existsb (fun t => bool_decide (canonical_addr t = canonical_addr a)) tried.

(** The loop of [pick] over the origins in the order of the rotation. *)
Fixpoint pick_loop (now : Instant) (tried : list SocketAddr) (candidates : list OriginEndpoint) (p : SitePool)
  : SitePool * option OriginEndpoint :=
  match candidates with
  | [] => (p, None)
  | origin :: rest =>
      if tried_already tried (o_addr origin) then pick_loop now tried rest p
      else if is_down p (o_addr origin) then pick_loop now tried rest p
      else
        let '(p, ok) := pool_can_send now p (o_addr origin) in
        if ok then (p, Some origin) else pick_loop now tried rest p
  end.

(** [origins\[(start + offset) % n\]] for each offset. *)
Definition rotation {A} (l : list A) (start : Z) : list A :=
  omap (fun offset => l !! Z.to_nat (((start + Z.of_nat offset) mod 2 ^ 64) mod len l)) (seq 0 (length l)).

(** [src/origin.rs: OriginPools::pick] *)
Definition pick (now : Instant) (pools : OriginPools) (b : Site) (tried : list SocketAddr)
  : OriginPools * option PickedOrigin :=
  if negb (is_balanced b) then (pools, Some (from_backend b))
  else match sites pools !! site_scope b with
       | None => (pools, None)
       | Some pool =>
           let start := cursor pool in
           let pool := {| circuits := circuits pool; down := down pool;
                          cursor := (start + 1) mod 2 ^ 64; mtls := mtls pool |} in
           let '(pool, chosen) := pick_loop now tried (rotation (origins b) start) pool in
           (set_site pools (site_scope b) pool, (fun o => from_endpoint o (mtls pool)) <$> chosen)
       end.

(** [src/origin.rs: OriginPools::has_ready] *)
Definition has_ready (now : Instant) (pools : OriginPools) (b : Site) : bool :=
  if negb (is_balanced b) then true
  else match sites pools !! site_scope b with
       | None => false
       | Some pool => existsb (fun o => negb (is_down pool (o_addr o)) && circuit_allows now pool (o_addr o)) (origins b)
       end.

(** [src/origin.rs: OriginPools::record_success] *)
Definition record_success (pools : OriginPools) (b : Site) (a : SocketAddr) : OriginPools :=
  match sites pools !! site_scope b with
  | None => pools
  | Some p => set_site pools (site_scope b) (set_circuit p a (on_success (circuit_of p a)))
  end.

(** [src/origin.rs: OriginPools::record_failure] *)
Definition record_failure (now : Instant) (pools : OriginPools) (b : Site) (a : SocketAddr) : OriginPools :=
  match sites pools !! site_scope b with
  | None => pools
  | Some p =>
      let p := set_circuit p a (on_failure now (circuit_of p a)) in
      set_site pools (site_scope b)
        {| circuits := circuits p; down := {[ canonical_addr a ]} ∪ down p; cursor := cursor p; mtls := mtls p |}
  end.

(** [src/origin.rs: fn build_pool] What is left of it without the probing thread. *)
Definition build_pool (b : Site) : SitePool :=
  {| circuits := ∅; down := ∅; cursor := 0; mtls := origin_mtls b |}.

(** [src/origin.rs: OriginPools::rebuild] The sites whose probes can be built; [None] is the
    panic.  Later sites of the same scope win. *)
Definition rebuild (probe_ok : Site -> bool) (backends : list Site) (pools : OriginPools) : option OriginPools :=
  let balanced := base.filter (fun b => is_balanced b = true) backends in
  if forallb probe_ok balanced then
    Some {| version := version pools;
            sites := fold_left (fun m b => <[site_scope b := build_pool b]> m) balanced ∅ |}
  else None.

(** [src/origin.rs: OriginPools::sync] *)
Definition sync (probe_ok : Site -> bool) (next : bytes) (backends : list Site) (pools : OriginPools)
  : option OriginPools :=
  if version pools =s next then Some pools
  else pools ← rebuild probe_ok backends pools; Some {| version := next; sites := sites pools |}.

(** ** Attempts of a request *)

(** [src/proxy.rs: struct FerroadaCtx @411-417] The fields that decide retries. *)
Record Attempts : Type := {
  balanced_origin : bool;
  request_has_body : bool;
  upstream_retries : Z;
  tried_origins : list SocketAddr;
  selected_origin : option SocketAddr;
}.

(** What Pingora tells of the session when an attempt fails. *)
Record SessionView : Type := { response_written : bool; method : bytes; retry_buffer_truncated : bool }.

(** [src/proxy.rs: FerroadaProxy::retry_budget] *)
Definition retry_budget (extra_retries : Z) (ctx : Attempts) : Z :=
  extra_retry_budget extra_retries (balanced_origin ctx).

(** [src/proxy.rs: FerroadaProxy::should_retry_upstream] *)
Definition should_retry_upstream (extra_retries : Z) (s : SessionView) (ctx : Attempts) : bool :=
  if retry_budget extra_retries ctx <=? upstream_retries ctx then false
  else if response_written s then false
  else if negb (method_is_idempotent (method s)) then false
  else if request_has_body ctx && retry_buffer_truncated s then false
  else true.

(** [src/proxy.rs: FerroadaProxy::upstream_peer] *)
Definition upstream_peer (now : Instant) (pools : OriginPools) (b : Site) (ctx : Attempts)
  : OriginPools * Attempts * option PickedOrigin :=
  match pick now pools b (tried_origins ctx) with
  | (pools, None) => (pools, ctx, None)
  | (pools, Some picked) =>
      (pools,
       {| balanced_origin := balanced_origin ctx; request_has_body := request_has_body ctx;
          upstream_retries := upstream_retries ctx;
          tried_origins := if bool_decide (p_addr picked ∈ tried_origins ctx) then tried_origins ctx
                           else tried_origins ctx ++ [p_addr picked];
          selected_origin := Some (p_addr picked) |},
       Some picked)
  end.

(** [src/proxy.rs: FerroadaProxy::mark_origin_failure] *)
Definition mark_origin_failure (now : Instant) (pools : OriginPools) (b : Site) (ctx : Attempts) : OriginPools :=
  match selected_origin ctx with Some a => record_failure now pools b a | None => pools end.

(** [src/proxy.rs: FerroadaProxy::mark_origin_outcome] *)
Definition mark_origin_outcome (now : Instant) (pools : OriginPools) (b : Site) (ctx : Attempts) (status : Z) : OriginPools :=
  match selected_origin ctx with
  | None => pools
  | Some a => if 500 <=? status then record_failure now pools b a else record_success pools b a
  end.

(** [src/proxy.rs: FerroadaProxy::fail_to_connect + FerroadaProxy::error_while_proxy] Both do
    the same: the pools, the context, and whether to try again. *)
Definition attempt_failed (now : Instant) (extra_retries : Z) (s : SessionView) (pools : OriginPools) (b : Site)
    (ctx : Attempts) : OriginPools * Attempts * bool :=
  let pools := mark_origin_failure now pools b ctx in
  let retry := should_retry_upstream extra_retries s ctx in
  (pools,
   {| balanced_origin := balanced_origin ctx; request_has_body := request_has_body ctx;
      upstream_retries := if retry then upstream_retries ctx + 1 else upstream_retries ctx;
      tried_origins := tried_origins ctx; selected_origin := selected_origin ctx |},
   retry).

(** How an attempt ends: the origin answers, or it fails. *)
Inductive Outcome : Type := Answered (status : Z) | FailedWith (s : SessionView).

(** Pingora's loop: an attempt for every origin given, again while the error asks for it.
    [outcomes] gives the instants and outcomes of the attempts; the result is the origins
    tried, and how the request ends. *)
Inductive Ended : Type := NoOrigin | GotStatus (status : Z) | GaveError | StillTrying.

Fixpoint attempts (extra_retries : Z) (b : Site) (outcomes : list (Instant * Outcome)) (pools : OriginPools)
    (ctx : Attempts) : OriginPools * list SocketAddr * Ended :=
  match outcomes with
  | [] => (pools, [], StillTrying)
  | (now, outcome) :: outcomes =>
      match upstream_peer now pools b ctx with
      | (pools, _, None) => (pools, [], NoOrigin)
      | (pools, ctx, Some picked) =>
          match outcome with
          | Answered status => (mark_origin_outcome now pools b ctx status, [p_addr picked], GotStatus status)
          | FailedWith s =>
              let '(pools, ctx, retry) := attempt_failed now extra_retries s pools b ctx in
              if retry then
                let '(pools, tried, ended) := attempts extra_retries b outcomes pools ctx in
                (pools, p_addr picked :: tried, ended)
              else (pools, [p_addr picked], GaveError)
          end
      end
  end.

(** ** Circuit breakers against their history *)

(** What happened to a breaker: requests asked for, with the answer, and reports. *)
Inductive CircuitEvent : Type := Asked (now : Instant) (admitted : bool) | Succeeded | FailedAt (now : Instant).

(** Events a breaker can go through. *)
Inductive circuit_run : CircuitBreaker -> list CircuitEvent -> CircuitBreaker -> Prop :=
| run_nil c : circuit_run c [] c
| run_ask c h c1 now c2 ok : circuit_run c h c1 -> can_send now c1 = (c2, ok) -> circuit_run c (h ++ [Asked now ok]) c2
| run_success c h c1 : circuit_run c h c1 -> circuit_run c (h ++ [Succeeded]) (on_success c1)
| run_failure c h c1 now : circuit_run c h c1 -> circuit_run c (h ++ [FailedAt now]) (on_failure now c1).

(** The specification: the last report decides, and after a failure one request is let
    through once [open_for] has passed. *)
Fixpoint last_failure (newest_first : list CircuitEvent) : option Instant :=
  match newest_first with
  | [] | Succeeded :: _ => None
  | FailedAt now :: _ => Some now
  | Asked _ _ :: h => last_failure h
  end.
Fixpoint admitted_since_report (newest_first : list CircuitEvent) : bool :=
  match newest_first with
  | Asked _ ok :: h => ok || admitted_since_report h
  | _ => false
  end.
Definition spec_admits (open_for : Duration) (h : list CircuitEvent) (now : Instant) : bool :=
  match last_failure (rev h) with
  | None => true
  | Some at_ => (open_for <=? duration_since now at_) && negb (admitted_since_report (rev h))
  end.

Fixpoint failures_in_row (newest_first : list CircuitEvent) : Z :=
  match newest_first with
  | [] | Succeeded :: _ => 0
  | FailedAt _ :: h => failures_in_row h + 1
  | Asked _ _ :: h => failures_in_row h
  end.

Lemma failures_in_row_le h : 0 <= failures_in_row h <= len h.
Proof. induction h as [|[] h IH]; cbn [failures_in_row]; rewrite ?len_cons; unfold len in *; simpl in *; lia. Qed.

Record circuit_inv (w : Duration) (h : list CircuitEvent) (c : CircuitBreaker) : Prop := {
  cb_window : open_for c = w;
  cb_opened : opened_at c = last_failure (rev h);
  cb_probing : is_Some (opened_at c) -> probing c = admitted_since_report (rev h);
  cb_count : consecutive_failures c = failures_in_row (rev h);
}.

Lemma circuit_run_inv w h c0 c : circuit_run c0 h c -> c0 = with_open_for w -> len h < 2 ^ 32 ->
  circuit_inv w h c.
Proof.
  induction 1 as [c|c h c1 now c2 ok _ IH Hs|c h c1 _ IH|c h c1 now _ IH]; intros ->; rewrite ?len_app;
    intros Hl; [by constructor; try done; intros [? ?]|..]; rewrite len_cons, len_nil in Hl;
    destruct (IH eq_refl) as [Hw Ho Hp Hc]; try lia; constructor; rewrite ?rev_app_distr; cbn [rev app];
    try done; try (by intros [? ?]).
  - unfold can_send in Hs. repeat case_match; simplify_eq; done.
  - unfold can_send in Hs. cbn [last_failure]. repeat case_match; simplify_eq/=; congruence.
  - intros Hopen. cbn [admitted_since_report]. unfold can_send in Hs.
    destruct (opened_at c1) as [at_|] eqn:E; [|simplify_eq; rewrite E in Hopen; by destruct Hopen].
    rewrite <- Hp by done. repeat case_match; simplify_eq/=; congruence || done.
  - unfold can_send in Hs. cbn [failures_in_row]. repeat case_match; simplify_eq/=; congruence.
  - cbn [on_failure opened_at last_failure]. pose proof (failures_in_row_le (rev h)) as Hr.
    unfold len in *. rewrite length_rev in Hr. unfold FAILURES_TO_OPEN. rewrite Hc, Z.mod_small by lia.
    by rewrite (proj2 (Z.leb_le _ _)) by lia.
  - cbn [on_failure consecutive_failures failures_in_row]. pose proof (failures_in_row_le (rev h)) as Hr.
    unfold len in *. rewrite length_rev in Hr. rewrite Hc, Z.mod_small by lia. done.
Qed.

(** C29. A circuit breaker does what its contract says: after any history of requests and
    reports it lets a request through exactly when the last report was a success (or there
    was none), or the last failure is at least [open_for] old and no request was let through
    since; so an open circuit has at most one probe under way. *)
Theorem circuit_refines_history (w : Duration) (h : list CircuitEvent) (c : CircuitBreaker) (now : Instant) :
  circuit_run (with_open_for w) h c -> len h < 2 ^ 32 ->
  (can_send now c).2 = spec_admits w h now.
Proof.
  intros Hr Hl. destruct (circuit_run_inv w h _ c Hr eq_refl Hl) as [Hw Ho Hp _].
  unfold can_send, spec_admits. rewrite <- Ho, Hw. destruct (opened_at c) as [at_|]; [|done].
  destruct (w <=? _); [|done]. rewrite Hp by done. by destruct (admitted_since_report _).
Qed.

Lemma circuit_refines_history_witness : exists c,
  circuit_run (with_open_for 5) [FailedAt 10; Asked 12 false; Asked 15 true] c
  /\ (can_send 16 c).2 = spec_admits 5 [FailedAt 10; Asked 12 false; Asked 15 true] 16
  /\ spec_admits 5 [FailedAt 10; Asked 12 false; Asked 15 true] 16 = false.
Proof.
  set (c := {| consecutive_failures := 1; opened_at := Some 10; probing := true; open_for := 5 |}).
  assert (Hr : circuit_run (with_open_for 5) [FailedAt 10; Asked 12 false; Asked 15 true] c).
  { set (c1 := on_failure 10 (with_open_for 5)).
    apply (run_ask _ [FailedAt 10; Asked 12 false] c1); [|reflexivity].
    apply (run_ask _ [FailedAt 10] c1); [|reflexivity]. apply (run_failure _ []), run_nil. }
  exists c. split; [exact Hr|]. split; [|reflexivity].
  apply (circuit_refines_history 5 _ _ 16 Hr). reflexivity.
Defined.

(** ** Selection *)

Definition usable (now : Instant) (tried : list SocketAddr) (p : SitePool) (o : OriginEndpoint) : bool :=
  negb (tried_already tried (o_addr o)) && negb (is_down p (o_addr o)) && (can_send now (circuit_of p (o_addr o))).2.

(** Asking a breaker that refuses changes no breaker. *)
Lemma can_send_refused now c : (can_send now c).2 = false -> (can_send now c).1 = c.
Proof. unfold can_send. by repeat case_match. Qed.

Lemma refused_same now p a a' : (can_send now (circuit_of p a)).2 = false ->
  circuit_of (pool_can_send now p a).1 a' = circuit_of p a'.
Proof.
  intros H. pose proof (can_send_refused _ _ H) as E. unfold pool_can_send.
  destruct (can_send now (circuit_of p a)) as [c ok] eqn:Ec. cbn [fst snd] in *. subst.
  unfold circuit_of, set_circuit, with_circuits. cbn [circuits].
  destruct (decide (canonical_addr a = canonical_addr a')) as [Heq|Hne].
  - rewrite <- Heq, lookup_insert_eq. done.
  - by rewrite lookup_insert_ne.
Qed.

Lemma usable_same now tried p p' o : down p' = down p -> (forall a, circuit_of p' a = circuit_of p a) ->
  usable now tried p' o = usable now tried p o.
Proof. intros Hd Hc. unfold usable, is_down. by rewrite Hd, Hc. Qed.

Lemma pick_loop_spec now tried l : forall p,
  (pick_loop now tried l p).2 = List.find (usable now tried p) l
  /\ down (pick_loop now tried l p).1 = down p /\ mtls (pick_loop now tried l p).1 = mtls p
  /\ cursor (pick_loop now tried l p).1 = cursor p.
Proof.
  induction l as [|o l IH]; intros p; [done|]. cbn [pick_loop List.find]. unfold usable at 1.
  destruct (tried_already tried (o_addr o)); [apply IH|]. destruct (is_down p (o_addr o)); [apply IH|].
  cbn [negb andb]. destruct (pool_can_send now p (o_addr o)) as [p1 ok] eqn:E.
  assert (Hok : ok = (can_send now (circuit_of p (o_addr o))).2 /\ down p1 = down p /\ mtls p1 = mtls p /\ cursor p1 = cursor p).
  { unfold pool_can_send in E. destruct (can_send _ _). by simplify_eq. }
  destruct Hok as (-> & Hd & Hm & Hcu). destruct ((can_send now (circuit_of p (o_addr o))).2) eqn:Es; [done|].
  destruct (IH p1) as (-> & -> & -> & ->). split_and!; try done.
  assert (Hsame : forall a, circuit_of p1 a = circuit_of p a).
  { intros a. pose proof (refused_same now p (o_addr o) a Es) as H. by rewrite E in H. }
  clear -Hd Hsame. induction l as [|x l IHl]; [done|]. cbn [List.find].
  rewrite (usable_same now tried p p1) by done. by destruct (usable now tried p x).
Qed.

Lemma omap_lookup_seq {A} (m : list A) : forall pre,
  omap (fun i => (pre ++ m) !! i) (seq (length pre) (length m)) = m.
Proof.
  induction m as [|x m IH]; intros pre; [done|]. cbn [length seq omap list_omap].
  rewrite list_lookup_middle by done. f_equal.
  specialize (IH (pre ++ [x])). rewrite length_app, <- app_assoc, Nat.add_comm in IH. exact IH.
Qed.

(** The rotation starts at the cursor and goes once around. *)
Lemma rotation_spec {A} (l : list A) start : 0 <= start -> start + len l <= 2 ^ 64 ->
  let k := Z.to_nat (start mod len l) in rotation l start = drop k l ++ take k l.
Proof.
  intros H0 Hs. destruct (decide (l = [])) as [->|Hne]; [cbv zeta; by rewrite drop_nil, take_nil|].
  cbv zeta. unfold rotation.
  assert (Hn : 0 < len l) by (destruct l; [done|]; rewrite len_cons; pose proof (len_nonneg l); lia).
  set (k := Z.to_nat (start mod len l)).
  pose proof (Z.mod_pos_bound start (len l) Hn) as Hk. unfold len in *.
  assert (Hlen : length (drop k l ++ take k l) = length l) by (rewrite length_app, length_drop, length_take; lia).
  rewrite <- Hlen at 1. rewrite <- (omap_lookup_seq (drop k l ++ take k l) []) at 2.
  cbn [length]. rewrite Hlen. apply list_omap_ext, Forall_Forall2_diag, Forall_seq.
  intros i Hi. cbn [app]. rewrite (Z.mod_small (start + Z.of_nat i) (2 ^ 64)) by lia.
  pose proof (Z.div_mod start (Z.of_nat (length l)) ltac:(lia)) as Hdm.
  destruct (Nat.lt_ge_cases i (length l - k)) as [Hlt|Hge].
  - rewrite lookup_app_l by (rewrite length_drop; lia). rewrite lookup_drop. f_equal.
    rewrite <- (Z.mod_unique_pos (start + Z.of_nat i) (Z.of_nat (length l)) (start / Z.of_nat (length l))
      (start mod Z.of_nat (length l) + Z.of_nat i)); [subst k; lia|subst k; lia|lia].
  - rewrite lookup_app_r by (rewrite length_drop; lia). rewrite length_drop, lookup_take_lt by (subst k; lia). f_equal.
    rewrite <- (Z.mod_unique_pos (start + Z.of_nat i) (Z.of_nat (length l)) (start / Z.of_nat (length l) + 1)
      (start mod Z.of_nat (length l) + Z.of_nat i - Z.of_nat (length l))); [subst k; lia|subst k; lia|lia].
Qed.

(** On a balanced site the origin picked is the first usable one of the rotation that
    starts at the cursor: not tried by this request, not marked down, and with a circuit
    that lets it through.  No origin is picked only when none is usable. *)
Theorem pick_spec (now : Instant) (pools : OriginPools) (b : Site) (tried : list SocketAddr) (p : SitePool) :
  is_balanced b = true -> sites pools !! site_scope b = Some p ->
  0 <= cursor p -> cursor p + len (origins b) <= 2 ^ 64 ->
  let k := Z.to_nat (cursor p mod len (origins b)) in
  (pick now pools b tried).2
  = (fun o => from_endpoint o (mtls p)) <$> List.find (usable now tried p) (drop k (origins b) ++ take k (origins b)).
Proof.
  intros Hb Hp H0 Hc k. unfold pick. rewrite Hb, Hp. cbn [negb]. rewrite rotation_spec by done.
  set (p1 := {| circuits := circuits p; down := down p; cursor := (cursor p + 1) mod 2 ^ 64; mtls := mtls p |}).
  destruct (pick_loop_spec now tried (drop k (origins b) ++ take k (origins b)) p1) as (Hf & _ & Hm & _).
  fold k. destruct (pick_loop _ _ _ p1) as [p2 chosen]. cbn [fst snd] in *. by rewrite Hf, Hm.
Qed.

Definition demo_endpoint (n : Z) : OriginEndpoint := {| o_addr := SocketV4 n 80; o_host := lit "o"; o_tls := false |}.
Definition demo_site : Site := {| addr := SocketV4 1 80; host := lit "o"; site_scope := lit "s"; tls := false;
  origins := [demo_endpoint 1; demo_endpoint 2; demo_endpoint 3]; origin_mtls := None |}.
Definition demo_pools (c : Z) (d : list SocketAddr) : OriginPools := {| version := []; sites := {[ lit "s" :=
  {| circuits := ∅; down := list_to_set d; cursor := c; mtls := None |} ]} |}.

Lemma pick_spec_witness :
  (pick 0 (demo_pools 1 [SocketV4 2 80]) demo_site []).2 = Some (from_endpoint (demo_endpoint 3) None)
  /\ (pick 0 (demo_pools 1 [SocketV4 2 80]) demo_site []).2
     = (fun o => from_endpoint o None) <$> List.find (usable 0 [] {| circuits := ∅; down := {[ SocketV4 2 80 ]} ∪ ∅; cursor := 1; mtls := None |})
         (drop 1 (origins demo_site) ++ take 1 (origins demo_site)).
Proof.
  split; [vm_compute; reflexivity|].
  apply (pick_spec 0 (demo_pools 1 [SocketV4 2 80]) demo_site [] {| circuits := ∅; down := {[ SocketV4 2 80 ]} ∪ ∅; cursor := 1; mtls := None |});
    [reflexivity|vm_compute; reflexivity|simpl; lia|vm_compute; discriminate].
Defined.

(** A successful probe makes an origin usable again, whatever its past. *)
Lemma health_check_recovers now p a tried o : o_addr o = a -> tried_already tried a = false ->
  usable now tried (health_check true a p) o = true.
Proof.
  intros <- Ht. unfold usable, health_check, is_down, circuit_of, set_circuit, with_circuits. cbn [circuits down].
  rewrite Ht, lookup_insert_eq, bool_decide_eq_false_2 by set_solver. done.
Qed.

(** ** Pools over time *)

(** What happens to the pools: a policy is put in force, a request asks for an origin, the answer of one is reported, a probe ends. *)
Inductive PoolEvent : Type :=
| Synced (probe_ok : Site -> bool) (next : bytes) (backends : list Site)
| Picked (now : Instant) (b : Site) (tried : list SocketAddr)
| ReportedSuccess (b : Site) (a : SocketAddr)
| ReportedFailure (now : Instant) (b : Site) (a : SocketAddr)
| Probed (scope : bytes) (up : bool) (a : SocketAddr).

Definition pool_event (e : PoolEvent) (pools : OriginPools) : option OriginPools :=
  match e with
  | Synced probe_ok next backends => sync probe_ok next backends pools
  | Picked now b tried => Some (pick now pools b tried).1
  | ReportedSuccess b a => Some (record_success pools b a)
  | ReportedFailure now b a => Some (record_failure now pools b a)
  | Probed scope up a => Some match sites pools !! scope with
                              | Some p => set_site pools scope (health_check up a p)
                              | None => pools
                              end
  end.
Fixpoint pool_events (es : list PoolEvent) (pools : OriginPools) : option OriginPools :=
  match es with [] => Some pools | e :: es => pool_event e pools ≫= pool_events es end.

(** An open circuit belongs to an address that is marked down: only a probe takes the mark away, and it closes the circuit. *)
Definition open_is_down (p : SitePool) : Prop := map_Forall (fun a c => is_Some (opened_at c) -> a ∈ down p) (circuits p).
Definition pools_ok (pools : OriginPools) : Prop := map_Forall (fun _ p => open_is_down p) (sites pools).

Lemma circuit_of_down p a : open_is_down p -> is_Some (opened_at (circuit_of p a)) -> canonical_addr a ∈ down p.
Proof.
  intros Hp. unfold circuit_of. destruct (circuits p !! canonical_addr a) as [c|] eqn:E; cbn; [by apply (Hp _ _ E)|by intros [? ?]].
Qed.

Lemma set_circuit_ok p a c : open_is_down p -> (is_Some (opened_at c) -> canonical_addr a ∈ down p) -> open_is_down (set_circuit p a c).
Proof. intros Hp Hc. by apply map_Forall_insert_2. Qed.

Lemma can_send_opened now c : opened_at (can_send now c).1 = opened_at c.
Proof. unfold can_send. by repeat case_match. Qed.

Lemma pool_can_send_ok now p a : open_is_down p -> open_is_down (pool_can_send now p a).1.
Proof.
  intros Hp. unfold pool_can_send. pose proof (can_send_opened now (circuit_of p a)) as E.
  destruct (can_send now (circuit_of p a)) as [c ok]. cbn [fst] in *. apply set_circuit_ok; [done|]. rewrite E. by apply circuit_of_down.
Qed.

Lemma pick_loop_ok now tried l : forall p, open_is_down p -> open_is_down (pick_loop now tried l p).1.
Proof.
  induction l as [|o l IH]; intros p Hp; cbn [pick_loop]; [done|]. destruct (tried_already _ _); [by apply IH|].
  destruct (is_down _ _); [by apply IH|]. pose proof (pool_can_send_ok now p (o_addr o) Hp) as H1.
  destruct (pool_can_send now p (o_addr o)) as [p1 []]; [done|by apply IH].
Qed.

Lemma health_check_ok up a p : open_is_down p -> open_is_down (health_check up a p).
Proof.
  intros Hp. unfold health_check. destruct up.
  - intros k c. unfold set_circuit, with_circuits. cbn [circuits down]. rewrite lookup_insert_Some.
    intros [[<- <-]|[Hne Hk]] Ho; [by destruct Ho|]. specialize (Hp _ _ Hk Ho). set_solver.
  - intros k c Hk Ho. specialize (Hp _ _ Hk Ho). cbn. set_solver.
Qed.

Lemma set_site_ok pools scope p : pools_ok pools -> open_is_down p -> pools_ok (set_site pools scope p).
Proof. intros Hps Hp. by apply map_Forall_insert_2. Qed.

Lemma build_pool_ok b : open_is_down (build_pool b).
Proof. apply map_Forall_empty. Qed.

Lemma rebuild_ok probe_ok backends pools pools' : rebuild probe_ok backends pools = Some pools' -> pools_ok pools'.
Proof.
  unfold rebuild. destruct (forallb _ _); [|done]. intros [= <-]. unfold pools_ok. cbn [sites].
  set (l := base.filter _ backends). assert (map_Forall (fun (_ : bytes) p => open_is_down p) (∅ : gmap bytes SitePool)) as H0 by apply map_Forall_empty.
  revert H0. generalize (∅ : gmap bytes SitePool). induction l as [|b l IH]; intros m Hm; [done|].
  cbn [fold_left]. apply IH. apply map_Forall_insert_2; [apply build_pool_ok|done].
Qed.

Lemma pool_event_ok e pools pools' : pools_ok pools -> pool_event e pools = Some pools' -> pools_ok pools'.
Proof.
  intros Hps. destruct e as [probe_ok next backends|now b tried|b a|now b a|scope up a]; cbn.
  - unfold sync. destruct (_ =s _); [by intros [= <-]|]. destruct (rebuild _ _ _) as [p|] eqn:E; [|done]. cbn. intros [= <-].
    by apply rebuild_ok in E.
  - intros [= <-]. unfold pick. destruct (negb _); [done|]. destruct (sites pools !! _) as [p|] eqn:E; [|done].
    set (p1 := {| circuits := circuits p |}). assert (open_is_down p1) as H1 by exact (Hps _ _ E).
    apply (pick_loop_ok now tried (rotation (origins b) (cursor p))) in H1. destruct (pick_loop _ _ _ p1) as [p2 o]. by apply set_site_ok.
  - intros [= <-]. unfold record_success. destruct (sites pools !! _) as [p|] eqn:E; [|done].
    apply set_site_ok; [done|]. apply set_circuit_ok; [exact (Hps _ _ E)|by intros [? ?]].
  - intros [= <-]. unfold record_failure. destruct (sites pools !! _) as [p|] eqn:E; [|done]. apply set_site_ok; [done|].
    intros k c. unfold set_circuit, with_circuits. cbn [circuits down]. rewrite lookup_insert_Some.
    intros [[<- _]|[Hne Hk]] Ho; [set_solver|]. specialize (Hps _ _ E _ _ Hk Ho). set_solver.
  - intros [= <-]. destruct (sites pools !! scope) as [p|] eqn:E; [|done]. apply set_site_ok; [done|]. apply health_check_ok, (Hps _ _ E).
Qed.

Lemma pool_events_ok es : forall pools pools', pools_ok pools -> pool_events es pools = Some pools' -> pools_ok pools'.
Proof.
  induction es as [|e es IH]; intros pools pools' Hp; cbn [pool_events]; [by intros [= <-]|].
  destruct (pool_event e pools) as [p1|] eqn:E; [|done]. cbn. apply IH. by apply (pool_event_ok e pools).
Qed.

(** C30. A request for a balanced site is served as long as one of its origins is up: after any history of the pools (policies put in force,
    requests, reports and probes, in any order and at any time), when some origin the request has not tried is not marked down one is
    picked at once; no circuit keeps such an origin from being used, and the site is not shed. *)
Theorem up_origin_served (es : list PoolEvent) (pools pools' : OriginPools) (b : Site) (p : SitePool) (now : Instant)
    (tried : list SocketAddr) (o : OriginEndpoint) :
  pools_ok pools -> pool_events es pools = Some pools' ->
  is_balanced b = true -> sites pools' !! site_scope b = Some p -> 0 <= cursor p -> cursor p + len (origins b) <= 2 ^ 64 ->
  o ∈ origins b -> is_down p (o_addr o) = false -> tried_already tried (o_addr o) = false ->
  is_Some (pick now pools' b tried).2 /\ has_ready now pools' b = true.
Proof.
  intros Hps He Hb Hp H0 Hc Hin Hd Ht. pose proof (pool_events_ok _ _ _ Hps He _ _ Hp) as Hok.
  assert (opened_at (circuit_of p (o_addr o)) = None) as Hclosed.
  { destruct (opened_at _) eqn:Eo; [|done]. exfalso. apply bool_decide_eq_false in Hd. apply Hd, circuit_of_down; [done|]. by eexists. }
  split.
  - rewrite (pick_spec now pools' b tried p Hb Hp H0 Hc). apply fmap_is_Some. destruct (List.find _ _) as [x|] eqn:Ef; [by eexists|].
    exfalso. set (k := Z.to_nat _) in Ef.
    assert (In o (drop k (origins b) ++ take k (origins b))) as Hi.
    { apply list_elem_of_In. rewrite elem_of_app. rewrite <- (take_drop k (origins b)), elem_of_app in Hin. tauto. }
    pose proof (List.find_none _ _ Ef _ Hi) as Hu. unfold usable, can_send in Hu. by rewrite Ht, Hd, Hclosed in Hu.
  - unfold has_ready. rewrite Hb, Hp. cbn [negb]. apply existsb_exists. exists o. split; [by apply list_elem_of_In|]. rewrite Hd. cbn [negb andb].
    unfold circuit_allows, circuit_of in *. destruct (circuits p !! canonical_addr (o_addr o)) as [c|]; [|done].
    cbn in Hclosed. unfold allows_traffic. by rewrite Hclosed.
Qed.

Lemma up_origin_served_witness : exists pools',
  pool_events [ReportedFailure 5 demo_site (SocketV4 1 80); Picked 6 demo_site []; Probed (lit "s") true (SocketV4 1 80);
               Probed (lit "s") false (SocketV4 2 80); Probed (lit "s") false (SocketV4 3 80)] (demo_pools 0 []) = Some pools'
  /\ is_Some (pick 7 pools' demo_site []).2.
Proof.
  eexists. split; [vm_compute; reflexivity|].
  eapply (up_origin_served [ReportedFailure 5 demo_site (SocketV4 1 80); Picked 6 demo_site []; Probed (lit "s") true (SocketV4 1 80);
               Probed (lit "s") false (SocketV4 2 80); Probed (lit "s") false (SocketV4 3 80)] (demo_pools 0 []) _ demo_site _ 7 []
               (demo_endpoint 1)).
  - apply map_Forall_singleton. apply map_Forall_empty.
  - vm_compute. reflexivity.
  - reflexivity.
  - vm_compute. reflexivity.
  - vm_compute. discriminate.
  - vm_compute. discriminate.
  - left.
  - vm_compute. reflexivity.
  - reflexivity.
Defined.

(** ** Attempts *)

Lemma retry_budget_bound e ctx : 0 <= e -> 0 <= retry_budget e ctx <= 3.
Proof. unfold retry_budget, extra_retry_budget. intros. destruct (balanced_origin ctx); lia. Qed.

Definition all_failures (P : SessionView -> Prop) (outcomes : list (Instant * Outcome)) : Prop :=
  Forall (fun x => match x.2 with FailedWith s => P s | Answered _ => True end) outcomes.

Lemma upstream_peer_ctx now pools b ctx pools' ctx' picked : upstream_peer now pools b ctx = (pools', ctx', picked) ->
  balanced_origin ctx' = balanced_origin ctx /\ upstream_retries ctx' = upstream_retries ctx
  /\ request_has_body ctx' = request_has_body ctx
  /\ (forall x, picked = Some x -> p_addr x ∈ tried_origins ctx' /\ tried_origins ctx ⊆ tried_origins ctx').
Proof.
  unfold upstream_peer. destruct (pick _ _ _ _) as [p1 [x|]]; intros; simplify_eq/=; split_and!; try done.
  intros ? [= <-]. case_bool_decide; set_solver.
Qed.

Lemma attempts_length e b outcomes : forall pools ctx, 0 <= upstream_retries ctx ->
  len (attempts e b outcomes pools ctx).1.2 <= 1 + Z.max 0 (retry_budget e ctx - upstream_retries ctx).
Proof.
  induction outcomes as [|[now o] outcomes IH]; intros pools ctx Hu; cbn [attempts]; [cbn [fst snd]; rewrite ?len_cons, ?(@len_nil SocketAddr); lia|].
  destruct (upstream_peer now pools b ctx) as [[pools1 ctx1] [x|]] eqn:E; [|cbn [fst snd]; rewrite ?len_cons, ?(@len_nil SocketAddr); lia].
  apply upstream_peer_ctx in E as (Hb & Hr & _). destruct o as [st|s]; [cbn [fst snd]; rewrite ?len_cons, ?(@len_nil SocketAddr); lia|].
  unfold attempt_failed. destruct (should_retry_upstream e s ctx1) eqn:Es; [|cbn [fst snd]; rewrite ?len_cons, ?(@len_nil SocketAddr); lia].
  match goal with |- context [attempts e b outcomes ?q ?c] => specialize (IH q c); destruct (attempts e b outcomes q c) as [[q' tr] en] end.
  cbn [fst snd upstream_retries] in *. unfold retry_budget in *. cbn [balanced_origin] in IH. rewrite Hb in *.
  unfold should_retry_upstream, retry_budget in Es. rewrite Hb in Es.
  destruct (Z.leb_spec (extra_retry_budget e (balanced_origin ctx)) (upstream_retries ctx1)); [done|].
  rewrite len_cons. specialize (IH ltac:(lia)). lia.
Qed.

(** The origins of a balanced site that a request tries are different. *)
Lemma picked_untried now pools b tried x : is_balanced b = true ->
  (pick now pools b tried).2 = Some x -> tried_already tried (p_addr x) = false.
Proof.
  unfold pick. intros ->. cbn [negb]. destruct (sites pools !! site_scope b) as [p|]; [|done].
  set (p1 := {| circuits := circuits p; down := down p; cursor := (cursor p + 1) mod 2 ^ 64; mtls := mtls p |}).
  destruct (pick_loop_spec now tried (rotation (origins b) (cursor p)) p1) as (Hf & _).
  destruct (pick_loop _ _ _ p1) as [p2 [o|]]; [|done]. cbn [fst snd fmap option_fmap option_map] in *. intros [= <-].
  symmetry in Hf. apply find_some in Hf as [_ Hu]. unfold usable in Hu. apply andb_true_iff in Hu as [Hu _].
  apply andb_true_iff in Hu as [Hu _]. by apply negb_true_iff in Hu.
Qed.

Lemma tried_already_false tried a : tried_already tried a = false <-> canonical_addr a ∉ map canonical_addr tried.
Proof.
  unfold tried_already. split.
  - intros Hf (t & Ht & Hin)%list_elem_of_fmap. assert (existsb (fun t => bool_decide (canonical_addr t = canonical_addr a)) tried = true); [|congruence].
    apply existsb_exists. exists t. split; [by apply list_elem_of_In|by apply bool_decide_eq_true_2].
  - intros Hn. destruct (existsb _ tried) eqn:E; [|done]. apply existsb_exists in E as (t & Hin & Ht%bool_decide_eq_true).
    exfalso. apply Hn. rewrite <- Ht. apply list_elem_of_fmap_2. by apply list_elem_of_In.
Qed.

Lemma attempts_distinct e b outcomes : is_balanced b = true -> forall pools ctx,
  NoDup (map canonical_addr (attempts e b outcomes pools ctx).1.2)
  /\ forall a, a ∈ (attempts e b outcomes pools ctx).1.2 -> tried_already (tried_origins ctx) a = false.
Proof.
  intros Hb. induction outcomes as [|[now o] outcomes IH]; intros pools ctx; cbn [attempts].
  { split; [constructor|by intros a ?%elem_of_nil]. }
  destruct (upstream_peer now pools b ctx) as [[pools1 ctx1] [x|]] eqn:E; [|split; [constructor|by intros a ?%elem_of_nil]].
  assert (Hx : tried_already (tried_origins ctx) (p_addr x) = false).
  { apply (picked_untried now pools b); [done|]. unfold upstream_peer in E. destruct (pick _ _ _ _) as [? [?|]]; by simplify_eq/=. }
  assert (Hone : NoDup (map canonical_addr [p_addr x]) /\ forall a, a ∈ [p_addr x] -> tried_already (tried_origins ctx) a = false).
  { split; [apply NoDup_singleton|]. by intros a ->%list_elem_of_singleton. }
  apply upstream_peer_ctx in E as (_ & _ & _ & Hin). destruct (Hin x eq_refl) as [Hxin Hsub].
  destruct o as [st|s]; [exact Hone|]. unfold attempt_failed.
  destruct (should_retry_upstream e s ctx1); [|exact Hone].
  match goal with |- context [attempts e b outcomes ?q ?c] => specialize (IH q c); destruct (attempts e b outcomes q c) as [[q' tr] en] end.
  cbn [fst snd tried_origins] in *. destruct IH as [Hd Hn]. split.
  - cbn [map]. constructor; [|done]. intros (a & Ha & Hina)%list_elem_of_fmap.
    specialize (Hn a Hina). apply tried_already_false in Hn. apply Hn. rewrite <- Ha. by apply list_elem_of_fmap_2.
  - intros a [->|Hina]%elem_of_cons; [done|]. specialize (Hn a Hina). rewrite tried_already_false in *.
    intros (t & Ht & Hint)%list_elem_of_fmap. apply Hn. rewrite Ht. apply list_elem_of_fmap_2. by apply Hsub.
Qed.

Lemma attempts_once e b outcomes pools ctx :
  all_failures (fun s => method_is_idempotent (method s) = false \/ response_written s = true) outcomes ->
  len (attempts e b outcomes pools ctx).1.2 <= 1.
Proof.
  intros Hf. destruct outcomes as [|[now o] outcomes]; cbn [attempts]; [cbn [fst snd]; rewrite ?len_cons, ?(@len_nil SocketAddr); lia|].
  apply Forall_cons in Hf as [Ho _]. cbn [snd] in Ho.
  destruct (upstream_peer now pools b ctx) as [[pools1 ctx1] [x|]]; [|cbn [fst snd]; rewrite ?len_cons, ?(@len_nil SocketAddr); lia].
  destruct o as [st|s]; [cbn [fst snd]; rewrite ?len_cons, ?(@len_nil SocketAddr); lia|]. unfold attempt_failed.
  assert (Es : should_retry_upstream e s ctx1 = false).
  { unfold should_retry_upstream. destruct (_ <=? _); [done|]. destruct Ho as [-> | ->]; [|done].
    by destruct (response_written s). }
  rewrite Es. cbn [fst snd]. rewrite len_cons, len_nil. lia.
Qed.

(** A request contacts origins at most once more than the retry budget, never more than
    four times, at different addresses when the site is balanced; and at most once when its
    method is not idempotent or bytes of a response were already written, so no request
    with side effects is sent twice. *)
Theorem attempts_bounded (extra_retries : Z) (b : Site) (outcomes : list (Instant * Outcome)) (pools : OriginPools)
    (ctx : Attempts) :
  0 <= extra_retries -> upstream_retries ctx = 0 ->
  let tried := (attempts extra_retries b outcomes pools ctx).1.2 in
  len tried <= 1 + retry_budget extra_retries ctx <= 4
  /\ (is_balanced b = true -> NoDup (map canonical_addr tried))
  /\ (all_failures (fun s => method_is_idempotent (method s) = false \/ response_written s = true) outcomes ->
      len tried <= 1).
Proof.
  intros He Hu tried. pose proof (retry_budget_bound extra_retries ctx He).
  pose proof (attempts_length extra_retries b outcomes pools ctx ltac:(lia)) as Hl. split_and!.
  - subst tried. lia.
  - lia.
  - intros Hb. by apply attempts_distinct.
  - apply attempts_once.
Qed.

Definition demo_ctx : Attempts :=
  {| balanced_origin := true; request_has_body := false; upstream_retries := 0; tried_origins := []; selected_origin := None |}.
Definition demo_failure (m : string) : Outcome :=
  FailedWith {| response_written := false; method := lit m; retry_buffer_truncated := false |}.

Lemma attempts_bounded_witness :
  (attempts 3 demo_site [(1, demo_failure "GET"); (2, Answered 200)] (demo_pools 0 []) demo_ctx).1.2
    = [SocketV4 1 80; SocketV4 2 80]
  /\ let tried := (attempts 3 demo_site [(1, demo_failure "GET"); (2, Answered 200)] (demo_pools 0 []) demo_ctx).1.2 in
     len tried <= 1 + retry_budget 3 demo_ctx <= 4
     /\ (is_balanced demo_site = true -> NoDup (map canonical_addr tried))
     /\ (all_failures (fun s => method_is_idempotent (method s) = false \/ response_written s = true)
          [(1, demo_failure "GET"); (2, Answered 200)] -> len tried <= 1).
Proof.
  split; [vm_compute; reflexivity|].
  apply (attempts_bounded 3 demo_site [(1, demo_failure "GET"); (2, Answered 200)] (demo_pools 0 []) demo_ctx); [lia|reflexivity].
Defined.
