(* ===== verification/Waf.v ===== *)
(** * WAF detectors ([src/waf.rs])

    What the first layer of the firewall looks for in a request: sensitive paths and the
    signatures of injections, in the URI, the headers and the body, after undoing
    percent-encoding, content encoding and the escapes of JSON.  Regular expressions are run by
    the class [Regexes] on the patterns of the code; decompression streams are the class
    [Inflate], JSON parsing the class [SerdeJson], Unicode case mapping the class
    [UnicodeCase]. *)

From S2P Require Import Prelude Net Json Shield Framing Budget Protocol Inspection.

(** The [regex] crate: the text of the leftmost match of a pattern, and the replacement of all
    the matches of a pattern. *)
Class Regexes : Type := {
  re_find : bytes -> bytes -> option bytes;
  re_replace_all : bytes -> bytes -> bytes -> bytes;
}.

Definition re_is_match `{Regexes} (pattern text : bytes) : bool := bool_decide (is_Some (re_find pattern text)).

(** What a decompressor answers to successive calls of [read]: bytes, an interruption, or an error;
    an empty answer is the end of the stream. *)
Inductive ReadStep : Type := RData (chunk : bytes) | RInterrupted | RError.

Class Inflate : Type := {
  gzip_reads : bytes -> list ReadStep;
  deflate_reads : bytes -> list ReadStep;
}.

(** ** Configuration *)

(** [src/metrics.rs: const UNSCOPED_SITE] *)
Definition UNSCOPED_SITE : bytes := "__unscoped__".

(** [src/waf.rs: const INSPECT_TEXT_LIMIT] *)
Definition INSPECT_TEXT_LIMIT : Z := 65536.
(** [src/waf.rs: const MAX_JSON_DEPTH] *)
Definition MAX_JSON_DEPTH : Z := 32.
(** [src/waf.rs: const MAX_DECODE_PASSES] *)
Definition MAX_DECODE_PASSES : nat := 8.
(** [src/waf.rs: fn default_inspect_text_limit] *)
Definition default_inspect_text_limit : Z := INSPECT_TEXT_LIMIT.
(** [src/waf.rs: fn default_inflate_limit] *)
Definition default_inflate_limit : Z := MAX_INFLATE_FOR_INSPECT.

(** [src/waf.rs: enum WafProfile] *)
Inductive WafProfile : Set := Generic | Wordpress | Strict.

(** [src/waf.rs: WafProfile::parse] [None] is the panic on a name it does not know. *)
Definition profile_parse (value : bytes) : option WafProfile :=
  let value := to_ascii_lowercase (trim value) in
  if value =s "generic" then Some Generic
  else if value =s "wordpress" then Some Wordpress
  else if value =s "strict" then Some Strict
  else None.

(** [src/waf.rs: static WAF_PROFILE] *)
Definition WAF_PROFILE (env : Env) : option WafProfile := profile_parse (default (lit "generic") (env "WAF_PROFILE")).

(** [src/waf.rs: enum WafVerdict] *)
Inductive WafVerdict : Type := WafAllow | WafBlock (reason : bytes).

(** [src/waf.rs: struct WafInspection] *)
Record WafInspection : Type := { verdict : WafVerdict; status : InspectionOutcome }.

(** [src/waf.rs: struct InspectionBody] *)
Record InspectionBody : Type := { body_bytes : bytes; body_status : InspectionOutcome }.

(** ** Patterns *)

(** [src/waf.rs: static SQLI_CLASSIC_RE] *)
Definition SQLI_CLASSIC_RE : bytes :=
  lit "(?i)(\bUNION\b[\s/\*]+\bSELECT\b|\bUNION\b\s+\bALL\b\s+\bSELECT\b|\bOR\b\s+\d+\s*=\s*\d+|\bAND\b\s+\d+\s*=\s*\d+|'\s*\bOR\b\s*'|'\s*--|;\s*\bDROP\b|'\s*;\s*--)".
(** [src/waf.rs: static SQLI_STACKED_RE] *)
Definition SQLI_STACKED_RE : bytes :=
  lit "(?i)(;\s*\b(SELECT|INSERT|UPDATE|DELETE|DROP|ALTER|CREATE|EXEC|EXECUTE|TRUNCATE|GRANT|REVOKE)\b|;\s*\bWAITFOR\b)".
(** [src/waf.rs: static SQLI_BLIND_RE] *)
Definition SQLI_BLIND_RE : bytes :=
  lit "(?i)(\bSLEEP\s*\(|\bBENCHMARK\s*\(\s*\d|\bWAITFOR\s+DELAY\b|\bPG_SLEEP\s*\(|\bDBMS_PIPE\.RECEIVE_MESSAGE\b)".
(** [src/waf.rs: static SQLI_FUNCTIONS_RE] *)
Definition SQLI_FUNCTIONS_RE : bytes :=
  lit "(?i)(\bCONCAT\s*\(.*\bSELECT\b|\bCHAR\s*\(\s*\d+\s*(,\s*\d+\s*)+\)|\bEXTRACTVALUE\s*\(|\bUPDATEXML\s*\(|\bINTO\s+(OUT|DUMP)FILE\b|\bLOAD_FILE\s*\(|\bINFORMATION_SCHEMA\b|\bGROUP_CONCAT\s*\()".
(** [src/waf.rs: static SQLI_EVASION_RE] *)
Definition SQLI_EVASION_RE : bytes :=
  lit "(?i)(/\*!\d*\s*\b(UNION|SELECT|INSERT|UPDATE|DELETE|DROP)\b|/\*.*\*/\s*\b(UNION|SELECT)\b)".
(** [src/waf.rs: static PATH_TRAVERSAL_RE] *)
Definition PATH_TRAVERSAL_RE : bytes := lit "(?i)(\.\.\/|\.\./|%2e%2e)".
(** [src/waf.rs: static CRLF_RE] *)
Definition CRLF_RE : bytes := lit "(%0[dD]%0[aA]|\r\n)".
(** [src/waf.rs: static BODY_CRLF_INJECTION_RE] *)
Definition BODY_CRLF_INJECTION_RE : bytes := lit "\r\n[!#$%&'*+.^_`|~0-9A-Za-z-]+[ \t]*:".
(** [src/waf.rs: static JNDI_DEOBFUSCATE_RE] *)
Definition JNDI_DEOBFUSCATE_RE : bytes := lit "\$\{(?:lower:|upper:|::-?)(\w)\}".
(** [src/waf.rs: static XSS_RE] The byte 34 is the double quote. *)
Definition XSS_RE : bytes :=
  lit "(?i)(<script[\s>]|javascript\s*:|on(load|error|click|mouseover|mouseout|mousemove|mousedown|mouseup|keydown|keyup|keypress|submit|reset|focus|blur|change|input|select|copy|paste|cut|drag|drop|touchstart|touchend|touchmove|animationstart|animationend|transitionend|toggle|pointerover|pointerout|beforeunload|hashchange|popstate|message|storage|beforeprint|afterprint|begin)\s*=|<img[^>]+onerror|<svg[^>]+on\w+|<iframe|<object|<embed|alert\s*\(|confirm\s*\(|prompt\s*\(|document\.(cookie|write|writeln|location|domain)|eval\s*\(|Function\s*\(|setTimeout\s*\([^)]*['"
  ++ [34] ++ lit "]|setInterval\s*\([^)]*['" ++ [34]
  ++ lit "]|<details[^>]+ontoggle|<math|<base\s|<form[^>]+action\s*=\s*[" ++ [34]
  ++ lit "']?\s*javascript|expression\s*\(|url\s*\(\s*javascript)".

(** [src/waf.rs: const BLOCKED_PATHS] *)
Definition BLOCKED_PATHS : list string :=
  ["/.env"; "/.git"; "/.git/"; "/.git/config"; "/.git/HEAD"; "/.gitignore"; "/.svn"; "/.hg";
   "/.DS_Store"; "/phpmyadmin"; "/phpinfo.php"; "/.htaccess"; "/.htpasswd"; "/server-status";
   "/server-info"; "/debug"; "/actuator"; "/actuator/env"; "/console"; "/config.php";
   "/config.yml"; "/config.json"; "/database.yml"; "/docker-compose.yml"; "/Dockerfile";
   "/.dockerenv"; "/id_rsa"; "/id_ed25519"; "/.ssh"; "/.bash_history"; "/.npmrc";
   "/.aws/credentials"; "/wp-config.php"; "/web.config"; "/.vscode"; "/.idea"].

(** [src/waf.rs: const BLOCKED_PATH_PREFIXES] *)
Definition BLOCKED_PATH_PREFIXES : list string :=
  ["/.git/"; "/.svn/"; "/.hg/"; "/phpmyadmin/"; "/actuator/"; "/.aws/"; "/.ssh/"].

(** [src/waf.rs: const WORDPRESS_OPERATIONAL_PATHS] *)
Definition WORDPRESS_OPERATIONAL_PATHS : list string :=
  ["/wp-admin"; "/wp-admin/"; "/wp-login.php"; "/xmlrpc.php"].

(** ** Percent-decoding *)

(** The UTF-8 encoding of a code point below 65536. *)
Definition encode_char (c : Z) : bytes :=
  if c <? 128 then [c]
  else if c <? 2048 then [192 + c / 64; 128 + c mod 64]
  else [224 + c / 4096; 128 + c / 64 mod 64; 128 + c mod 64].

(** [char::from_u32] below 65536. *)
Definition char_from_u32 (c : Z) : option Z := if in_range 55296 57343 c then None else Some c.

(** [u32::from_str_radix(s, 16)] and [u8::from_str_radix(s, 16)] on at most four and two bytes. *)
Definition from_str_radix_16 (s : bytes) : option Z :=
  let digits := match s with 43 :: r => r | _ => s end in
  if is_empty digits then None else hex_value 0 digits.

(** An escape at the front of what follows a percent sign: the characters it stands for and the rest. *)
Definition unicode_escape (s : bytes) : option (bytes * bytes) :=
  match s with
  | u :: a :: b :: c :: d :: rest =>
      if (u =? 117) || (u =? 85) then
        cp ← from_str_radix_16 [a; b; c; d]; ch ← char_from_u32 cp; Some (encode_char ch, rest)
      else None
  | _ => None
  end.
Definition byte_escape (s : bytes) : option (bytes * bytes) :=
  match s with
  | a :: b :: rest => byte ← from_str_radix_16 [a; b]; Some (encode_char byte, rest)
  | _ => None
  end.

(** The loop of [urldecode], with as much fuel as there are bytes. *)
Fixpoint urldecode_loop (fuel : nat) (s : bytes) : bytes :=
  match fuel, s with
  | S fuel, b :: r =>
      let escape :=
        if b =? 37 then match unicode_escape r with Some e => Some e | None => byte_escape r end
        else None in
      match escape with
      | Some (ch, rest) => ch ++ urldecode_loop fuel rest
      | None => encode_char b ++ urldecode_loop fuel r
      end
  | _, _ => []
  end.

(** [src/waf.rs: fn urldecode] *)
Definition urldecode (input : bytes) : bytes := urldecode_loop (length input) input.

Fixpoint decode_passes (n : nat) (current : bytes) : bytes :=
  match n with
  | O => current
  | S n => let decoded := urldecode current in
           if decoded =s current then current else decode_passes n decoded
  end.

(** [src/waf.rs: fn recursive_urldecode] *)
Definition recursive_urldecode (input : bytes) : bytes := decode_passes MAX_DECODE_PASSES input.

(** [s.replace('+', " ")] *)
Definition plus_to_space (s : bytes) : bytes := map (fun b => if b =? 43 then 32 else b) s.

(** [src/waf.rs: fn decode_uri] *)
Definition decode_uri (uri : bytes) : bytes :=
  match split_once 63 uri with
  | Some (path, query) =>
      recursive_urldecode path ++ [63] ++ recursive_urldecode (plus_to_space query)
  | None => recursive_urldecode uri
  end.

(** ** Detectors *)

Section detectors.
Context {RE : Regexes} {UC : UnicodeCase}.

(** [src/waf.rs: fn check_sqli] *)
Definition check_sqli (input : bytes) : option bytes :=
  if re_is_match SQLI_CLASSIC_RE input then Some (lit "sqli_classic")
  else if re_is_match SQLI_STACKED_RE input then Some (lit "sqli_stacked")
  else if re_is_match SQLI_BLIND_RE input then Some (lit "sqli_blind")
  else if re_is_match SQLI_FUNCTIONS_RE input then Some (lit "sqli_functions")
  else if re_is_match SQLI_EVASION_RE input then Some (lit "sqli_evasion")
  else None.

Fixpoint collapse_loop (n : nat) (current : bytes) : bytes :=
  match n with
  | O => current
  | S n => let replaced := re_replace_all JNDI_DEOBFUSCATE_RE current (lit "$1") in
           if replaced =s current then current else collapse_loop n replaced
  end.

(** [src/waf.rs: fn collapse_jndi_obfuscation] *)
Definition collapse_jndi_obfuscation (input : bytes) : bytes := collapse_loop 5 input.

(** [src/waf.rs: fn contains_jndi] *)
Definition contains_jndi (input : bytes) : bool :=
  if negb (contains input (lit "${")) then false
  else
    let lower := to_lowercase input in
    if contains lower (lit "${jndi:") then true
    else contains (collapse_jndi_obfuscation lower) (lit "${jndi:").

(** ** Requests *)

(** A block with its event, and nothing. *)
Definition blocked_by (site type client uri detail reason : bytes) : WafVerdict * list MetricEvent :=
  (WafBlock reason, [Blocked (record_block_in site type client uri detail)]).

Definition wordpress_operational_path (path_lower : bytes) : bool :=
  existsb (fun candidate : string =>
      (path_lower =s candidate) || (ends_with candidate [47] && starts_with path_lower candidate))
    WORDPRESS_OPERATIONAL_PATHS.

(** The loop over the header values, each raw then decoded. *)
Definition inspect_header_text (uri client site inspected : bytes) : option (WafVerdict * list MetricEvent) :=
  if re_is_match CRLF_RE inspected then
    Some (blocked_by site "crlf" client uri "CRLF injection in header" "CRLF injection detected in header")
  else if contains_jndi inspected then
    Some (blocked_by site "jndi" client uri "JNDI/Log4Shell in header" "JNDI injection detected in header")
  else match check_sqli inspected with
  | Some category =>
      Some (blocked_by site "sqli" client uri (lit "SQLi in header (" ++ category ++ lit ")")
              (lit "SQL injection detected in header (" ++ category ++ lit ")"))
  | None =>
  match re_find PATH_TRAVERSAL_RE inspected with
  | Some m =>
      Some (blocked_by site "path_traversal" client uri (lit "Path traversal in header: " ++ m)
              (lit "Path traversal detected in header: " ++ m))
  | None =>
  match re_find XSS_RE inspected with
  | Some m =>
      Some (blocked_by site "xss" client uri (lit "XSS in header: " ++ m) (lit "XSS detected in header: " ++ m))
  | None => None
  end end end.

Fixpoint inspect_headers (uri client site : bytes) (header_values : list bytes)
  : WafVerdict * list MetricEvent :=
  match header_values with
  | [] => (WafAllow, [])
  | val :: rest =>
      match inspect_header_text uri client site val with
      | Some b => b
      | None =>
          match inspect_header_text uri client site (recursive_urldecode val) with
          | Some b => b
          | None => inspect_headers uri client site rest
          end
      end
  end.

Definition inspect_uri_and_headers (uri decoded_uri path_lower : bytes) (header_values : list bytes)
    (client site : bytes) : WafVerdict * list MetricEvent :=
  match List.find (fun b : string => path_lower =s b) BLOCKED_PATHS with
  | Some b => blocked_by site "sensitive_path" client uri (lit "Blocked path: " ++ lit b) (lit "Access denied: " ++ lit b)
  | None =>
  match List.find (fun p : string => starts_with path_lower p) BLOCKED_PATH_PREFIXES with
  | Some p => blocked_by site "sensitive_path" client uri (lit "Blocked prefix: " ++ lit p) (lit "Access denied: " ++ lit p)
  | None =>
  if re_is_match CRLF_RE uri || re_is_match CRLF_RE decoded_uri then
    blocked_by site "crlf" client uri "CRLF injection in URI" "CRLF injection detected"
  else if contains_jndi decoded_uri then
    blocked_by site "jndi" client uri "JNDI/Log4Shell in URI" "JNDI injection detected"
  else match check_sqli decoded_uri with
  | Some category =>
      blocked_by site "sqli" client uri (lit "SQLi (" ++ category ++ lit ")")
        (lit "SQL injection detected (" ++ category ++ lit ")")
  | None =>
  match re_find PATH_TRAVERSAL_RE decoded_uri with
  | Some m => blocked_by site "path_traversal" client uri (lit "Path traversal: " ++ m) (lit "Path traversal detected: " ++ m)
  | None =>
  match re_find XSS_RE decoded_uri with
  | Some m => blocked_by site "xss" client uri (lit "XSS: " ++ m) (lit "XSS detected: " ++ m)
  | None => inspect_headers uri client site header_values
  end end end end end.

(** [src/waf.rs: fn inspect_request_with_profile] *)
Definition inspect_request_with_profile (uri : bytes) (header_values : list bytes) (client : bytes)
    (profile : WafProfile) (site : bytes) : WafVerdict * list MetricEvent :=
  let decoded_uri := decode_uri uri in
  let path_lower := to_lowercase (before 63 decoded_uri) in
  let next := inspect_uri_and_headers uri decoded_uri path_lower header_values client site in
  if wordpress_operational_path path_lower then
    match profile with
    | Strict =>
        blocked_by site "sensitive_path" client uri "Blocked WordPress operational path in strict profile"
          "Access denied by strict WAF profile"
    | Wordpress =>
        let '(v, events) := next in
        (v, Observed (record_block_in site "waf_monitor" client uri "WordPress operational path monitored")
              :: events)
    | Generic => next
    end
  else next.

(** ** Bodies *)

(** The largest character boundary at or below [n]. *)
Fixpoint floor_boundary (text : bytes) (n : nat) : nat :=
  match n with
  | O => O
  | S m => if is_char_boundary text n then n else floor_boundary text m
  end.

(** [src/waf.rs: fn json_nesting_depth] *)
Fixpoint json_nesting_depth (value : JsonValue) : Z :=
  match value with
  | JArray items => foldr Z.max 0 (map json_nesting_depth items) + 1
  | JObject members => foldr Z.max 0 (map (fun '(_, v) => json_nesting_depth v) members) + 1
  | _ => 0
  end.

Definition push_line (output line : bytes) : bytes := output ++ line ++ [10].

Fixpoint visit (text_limit : Z) (value : JsonValue) (output : bytes) : bytes :=
  if text_limit <=? len output then output
  else
    let output :=
      match value with
      | JString s => push_line output s
      | JArray values => fold_left (fun output v => visit text_limit v output) values output
      | JObject members =>
          fold_left (fun output '(key, v) => visit text_limit v (push_line output key)) members output
      | _ => output
      end in
    if text_limit <? len output then take (floor_boundary output (Z.to_nat text_limit)) output
    else output.

(** [src/waf.rs: fn json_strings] *)
Definition json_strings (value : JsonValue) (text_limit : Z) : bytes := visit text_limit value [].

(** [src/waf.rs: fn is_inspectable_content_type] *)
Definition is_inspectable_content_type (content_type : option bytes) : bool :=
  is_l0_inspectable_content_type content_type.

Context {SJ : SerdeJson}.

(** The text of the body that is inspected, and how complete it is. *)
Definition inspection_text (text : bytes) (content_type : option bytes) (text_limit : Z)
  : bytes * InspectionOutcome :=
  let '(text', status) :=
    if text_limit <? len text then
      let end_ := floor_boundary text (Z.to_nat text_limit) in
      (take end_ text, Truncated (Z.of_nat end_) (Some (len text)))
    else (text, Complete) in
  let content_type_lower := to_ascii_lowercase (default [] content_type) in
  if is_complete status
     && (contains content_type_lower (lit "application/json") || contains content_type_lower (lit "+json"))
  then match json_from_str text' with
       | Some value =>
           if MAX_JSON_DEPTH <? json_nesting_depth value then (text', ParseError)
           else (text' ++ [10] ++ json_strings value text_limit, status)
       | None => (text', ParseError)
       end
  else (text', status).

Definition decode_body (text : bytes) (content_type : option bytes) : bytes :=
  let is_form :=
    match content_type with
    | Some ct => contains (to_ascii_lowercase ct) (lit "application/x-www-form-urlencoded")
    | None => false
    end in
  if is_form then recursive_urldecode (plus_to_space text) else recursive_urldecode text.

Definition inspect_decoded_body (decoded uri client site : bytes) : WafVerdict * list MetricEvent :=
  if re_is_match BODY_CRLF_INJECTION_RE decoded then
    blocked_by site "crlf" client uri "CRLF injection in body" "CRLF injection detected in body"
  else if contains_jndi decoded then
    blocked_by site "jndi" client uri "JNDI/Log4Shell in body" "JNDI injection detected in body"
  else match check_sqli decoded with
  | Some category =>
      blocked_by site "body_sqli" client uri (lit "SQLi in body (" ++ category ++ lit ")")
        (lit "SQL injection detected in body (" ++ category ++ lit ")")
  | None =>
  match re_find XSS_RE decoded with
  | Some m => blocked_by site "body_xss" client uri (lit "XSS in body: " ++ m) (lit "XSS detected in body: " ++ m)
  | None => (WafAllow, [])
  end end.

(** [src/waf.rs: fn inspect_body_limited] *)
Definition inspect_body_limited (body uri client : bytes) (content_type : option bytes)
    (text_limit : Z) (site : bytes) : WafInspection * list MetricEvent :=
  if negb (is_inspectable_content_type content_type) || negb (is_utf8 body) then
    ({| verdict := WafAllow; status := UnsupportedContentType |}, [])
  else
    let '(text, status) := inspection_text body content_type text_limit in
    let '(v, events) := inspect_decoded_body (decode_body text content_type) uri client site in
    ({| verdict := v; status := status |}, events).

(** ** Content encodings *)

Context {INF : Inflate}.

(** The loop of [read_capped_inflate]: [room] is what is left of the buffer; a decompressor
    asked for fewer bytes than it has keeps the rest for the next call. *)
Fixpoint read_loop (room : Z) (reads : list ReadStep) : option bytes :=
  if room <=? 0 then Some []
  else match reads with
  | [] => Some []
  | RInterrupted :: reads => read_loop room reads
  | RError :: _ => None
  | RData chunk :: reads =>
      if is_empty chunk then Some []
      else if room <? len chunk then Some (take (Z.to_nat room) chunk)
      else out ← read_loop (room - len chunk) reads; Some (chunk ++ out)
  end.

(** [src/waf.rs: fn read_capped_inflate] *)
Definition read_capped_inflate (reads : list ReadStep) (inflate_limit : Z) : option bytes :=
  read_loop (inflate_buffer_bytes inflate_limit) reads.

(** [src/waf.rs: fn unsupported_encoding] *)
Definition unsupported_encoding (body : bytes) : InspectionBody :=
  {| body_bytes := body; body_status := UnsupportedEncoding |}.

(** [src/waf.rs: fn inflate_with] *)
Definition inflate_with (reads : list ReadStep) (fallback : bytes) (inflate_limit : Z) : InspectionBody :=
  match read_capped_inflate reads inflate_limit with
  | Some out =>
      if is_empty out then unsupported_encoding fallback
      else if inflate_limit <? len out then
        let out := take (Z.to_nat inflate_limit) out in
        {| body_bytes := out; body_status := Truncated (len out) None |}
      else {| body_bytes := out; body_status := Complete |}
  | None => unsupported_encoding fallback
  end.

(** [src/waf.rs: fn inflate_for_inspect_limited] *)
Definition inflate_for_inspect_limited (body : bytes) (content_encoding : option bytes)
    (inflate_limit : Z) : InspectionBody :=
  let enc := to_ascii_lowercase (default [] content_encoding) in
  if is_empty enc || (enc =s "identity") then {| body_bytes := body; body_status := Complete |}
  else match map trim (split_on 44 enc) with
  | [token] =>
      if one_of token ["gzip"; "x-gzip"] then inflate_with (gzip_reads body) body inflate_limit
      else if token =s "deflate" then inflate_with (deflate_reads body) body inflate_limit
      else unsupported_encoding body
  | _ => unsupported_encoding body
  end.

(** [src/waf.rs: fn inflate_for_inspect] *)
Definition inflate_for_inspect (body : bytes) (content_encoding : option bytes) : InspectionBody :=
  inflate_for_inspect_limited body content_encoding MAX_INFLATE_FOR_INSPECT.

(** [src/waf.rs: fn inspect_body] *)
Definition inspect_body (body uri client : bytes) (content_type : option bytes)
  : WafInspection * list MetricEvent :=
  inspect_body_limited body uri client content_type INSPECT_TEXT_LIMIT UNSCOPED_SITE.

(** [src/waf.rs: fn inspect_request] *)
Definition inspect_request (env : Env) (uri : bytes) (header_values : list bytes) (client : bytes)
  : option (WafVerdict * list MetricEvent) :=
  profile ← WAF_PROFILE env;
  Some (inspect_request_with_profile uri header_values client profile UNSCOPED_SITE).

End detectors.

(** ** Percent-decoding: what it computes *)

Lemma decode_passes_iter n s : decode_passes n s = Nat.iter n urldecode s.
Proof.
  revert s. induction n as [|n IH]; intros s; [done|]. cbn [decode_passes].
  rewrite Nat.iter_succ_r. destruct (urldecode s =s s) eqn:E; [|apply IH].
  apply bytes_eqb_eq in E. rewrite !E. clear IH. induction n as [|n IH]; [done|].
  rewrite Nat.iter_succ_r, E. done.
Qed.













(** *** Growth

    Bytes above 127 are taken for Latin-1 characters at every pass. *)

Lemma encode_char_spec c : 0 <= c < 65536 ->
  (c < 128 -> encode_char c = [c]) /\
  (128 <= c < 2048 -> len (encode_char c) = 2 /\ Forall (fun b => 128 <= b) (encode_char c)) /\
  len (encode_char c) <= 3 /\ (c < 256 -> len (encode_char c) <= 2) /\ Forall is_byte (encode_char c).
Proof.
  intros H. unfold encode_char, is_byte.
  destruct (Z.ltb_spec c 128); [|destruct (Z.ltb_spec c 2048)];
    rewrite ?len_cons, ?len_nil, ?Forall_cons, ?Forall_nil;
    (split_and!; intros; try split_and!; try done; Z.to_euclidean_division_equations; lia).
Qed.

Lemma hex_digit_range d x : hex_digit d = Some x -> 0 <= x < 16.
Proof.
  unfold hex_digit, in_range. intros H.
  repeat match type of H with context [if ?c then _ else _] => destruct c eqn:? end;
    bool_to_prop; simplify_eq; lia.
Qed.

Lemma hex_value_bound s : forall acc v, 0 <= acc -> hex_value acc s = Some v ->
  0 <= v < (acc + 1) * 16 ^ len s.
Proof.
  induction s as [|d s IH]; intros acc v Ha; cbn [hex_value]; [intros [= <-]; change (16 ^ len []) with 1; lia|].
  destruct (hex_digit d) as [x|] eqn:E; [|done]. apply hex_digit_range in E. cbn. intros H.
  apply IH in H; [|lia]. rewrite len_cons, Z.pow_add_r by (pose proof (len_nonneg s); lia). nia.
Qed.

Lemma from_str_radix_16_bound s v : from_str_radix_16 s = Some v -> 0 <= v < 16 ^ len s.
Proof.
  unfold from_str_radix_16. set (d := match s with 43 :: r => r | _ => s end). intros H.
  assert (len d <= len s).
  { subst d. destruct s as [|[|p|p] s]; try lia. do 6 (destruct p as [p|p|]; try lia).
    rewrite len_cons. lia. }
  destruct (is_empty d); [done|]. apply hex_value_bound in H; [|done].
  pose proof (Z.pow_le_mono_r 16 (len d) (len s)). lia.
Qed.

(** What an escape stands for is at most half of what it takes. *)
Lemma escape_spec s ch rest : unicode_escape s = Some (ch, rest) \/ byte_escape s = Some (ch, rest) ->
  Forall is_byte ch /\ exists e, s = e ++ rest /\ len ch <= len e.
Proof.
  intros [H|H]; [unfold unicode_escape in H|unfold byte_escape in H].
  - destruct s as [|u [|a [|b [|c [|d s]]]]]; try done. destruct (_ || _); [|done].
    destruct (from_str_radix_16 _) as [cp|] eqn:E; [|done]. cbn in H. unfold char_from_u32 in H.
    destruct (in_range _ _ cp); [done|]. cbn in H. injection H as <- <-.
    apply from_str_radix_16_bound in E. destruct (encode_char_spec cp E) as (_ & _ & ? & _ & ?).
    split; [done|]. exists [u; a; b; c; d]. split; [done|]. change (len [u; a; b; c; d]) with 5. lia.
  - destruct s as [|a [|b s]]; try done. destruct (from_str_radix_16 _) as [cp|] eqn:E; [|done].
    cbn in H. injection H as <- <-. apply from_str_radix_16_bound in E.
    change (16 ^ len [a; b]) with 256 in E.
    destruct (encode_char_spec cp ltac:(lia)) as (_ & _ & _ & H2 & ?).
    split; [done|]. exists [a; b]. split; [done|]. change (len [a; b]) with 2. apply H2. lia.
Qed.

Lemma urldecode_loop_growth fuel : forall s, Forall is_byte s ->
  Forall is_byte (urldecode_loop fuel s) /\ len (urldecode_loop fuel s) <= 2 * len s.
Proof.
  induction fuel as [|fuel IH]; intros [|b s] Hs; cbn [urldecode_loop]; try done.
  rewrite len_cons.
  apply Forall_cons_1 in Hs as (Hb & Hs).
  destruct (if b =? 37 then _ else None) as [(ch & rest)|] eqn:E.
  - destruct (escape_spec s ch rest) as (Hch & e & -> & He).
    { destruct (b =? 37); [|done]. destruct (unicode_escape s) as [x|]; [left|right]; done. }
    apply Forall_app in Hs as (Hse & Hsr). destruct (IH rest Hsr) as (H1 & H2).
    rewrite !len_app, Forall_app. split; [done|]. pose proof (len_nonneg e). lia.
  - destruct (IH s Hs) as (H1 & H2). unfold is_byte in Hb.
    destruct (encode_char_spec b ltac:(lia)) as (_ & _ & _ & H3 & H4).
    rewrite len_app, Forall_app. split; [done|]. specialize (H3 ltac:(lia)). lia.
Qed.

Lemma urldecode_high fuel s : Forall (fun b => 128 <= b < 256) s -> (length s <= fuel)%nat ->
  Forall (fun b => 128 <= b < 256) (urldecode_loop fuel s) /\ len (urldecode_loop fuel s) = 2 * len s.
Proof.
  revert s. induction fuel as [|fuel IH]; intros [|b s] Hs Hf; cbn in Hf |- *; try done; [lia|].
  apply Forall_cons_1 in Hs as (Hb & Hs). rewrite (proj2 (Z.eqb_neq b 37)) by lia.
  destruct (IH s Hs ltac:(lia)) as (H1 & H2).
  destruct (encode_char_spec b ltac:(lia)) as (_ & H3 & _ & _ & H4).
  destruct (H3 ltac:(lia)) as (H5 & H6). rewrite len_app, len_cons, Forall_app.
  split; [split; [|done]|lia]. eapply Forall_impl; [apply Forall_and; split; [apply H6|apply H4]|].
  unfold is_byte. cbn. lia.
Qed.

Lemma iter_growth n : forall s, Forall is_byte s ->
  Forall is_byte (Nat.iter n urldecode s) /\ len (Nat.iter n urldecode s) <= 2 ^ Z.of_nat n * len s.
Proof.
  induction n as [|n IH]; intros s Hs; [split; [done|]; change (2 ^ Z.of_nat 0) with 1; cbn; lia|].
  rewrite Nat.iter_succ_r. destruct (urldecode_loop_growth (length s) s Hs) as (H1 & H2).
  destruct (IH _ H1) as (H3 & H4). split; [done|]. fold (urldecode s) in *.
  rewrite Nat2Z.inj_succ, Z.pow_succ_r by lia. nia.
Qed.

Lemma iter_high n : forall s, Forall (fun b => 128 <= b < 256) s ->
  len (Nat.iter n urldecode s) = 2 ^ Z.of_nat n * len s.
Proof.
  induction n as [|n IH]; intros s Hs; [change (2 ^ Z.of_nat 0) with 1; cbn; lia|].
  rewrite Nat.iter_succ_r. destruct (urldecode_high (length s) s Hs ltac:(done)) as (H1 & H2).
  rewrite IH by done. fold (urldecode s) in H2. rewrite H2, Nat2Z.inj_succ, Z.pow_succ_r by lia. lia.
Qed.

(** Decoding a text before inspection takes at most 256 times its length, and takes exactly
    that for a text with no ASCII character: every byte above 127 is read as a Latin-1
    character and written back as two bytes, at each of the eight passes. *)
Theorem recursive_urldecode_growth (s : bytes) : Forall is_byte s ->
  len (recursive_urldecode s) <= 256 * len s
  /\ (Forall (fun b => 128 <= b) s -> len (recursive_urldecode s) = 256 * len s).
Proof.
  intros Hs. unfold recursive_urldecode. rewrite decode_passes_iter. split.
  - destruct (iter_growth MAX_DECODE_PASSES s Hs) as (_ & H). apply H.
  - intros Hh. rewrite (iter_high MAX_DECODE_PASSES); [done|].
    eapply Forall_impl; [apply Forall_and; split; [apply Hs|apply Hh]|]. unfold is_byte. cbn. lia.
Qed.

Lemma recursive_urldecode_growth_witness :
  len (recursive_urldecode [195; 169]) <= 256 * 2 /\ len (recursive_urldecode [195; 169]) = 512.
Proof.
  destruct (recursive_urldecode_growth [195; 169]) as (H1 & H2); [repeat constructor; unfold is_byte; lia|].
  split; [apply H1|apply H2; repeat constructor; lia].
Defined.

(** ** Requests: what is let through *)

Section requests.
Context {RE : Regexes} {UC : UnicodeCase}.



(** The verdict of an inspection agrees with its events: a block records exactly one block,
    and an allowed request records none. *)
Definition reported (r : WafVerdict * list MetricEvent) : Prop :=
  match r.1 with
  | WafAllow => forall e, Blocked e ∉ r.2
  | WafBlock _ => exists before_ e, r.2 = before_ ++ [Blocked e] /\ forall e, Blocked e ∉ before_
  end.

Lemma re_is_match_false p t : re_is_match p t = false <-> re_find p t = None.
Proof. unfold re_is_match. rewrite bool_decide_eq_false, <- eq_None_not_Some. done. Qed.

Lemma blocked_by_reported site type client uri detail reason :
  reported (blocked_by site type client uri detail reason).
Proof. exists [], (record_block_in site type client uri detail). split; [done|]. intros e. apply not_elem_of_nil. Qed.



(** An inspection that allows exactly when [P], and reports what it did. *)
Definition decides (r : WafVerdict * list MetricEvent) (P : Prop) : Prop := (r.1 = WafAllow <-> P) /\ reported r.

Lemma decides_block site type client uri detail reason (P : Prop) :
  ~ P -> decides (blocked_by site type client uri detail reason) P.
Proof. intros H. split; [|apply blocked_by_reported]. split; [intros E; discriminate E|done]. Qed.












End requests.

(** An engine to evaluate with: it knows the literal matches of two of the patterns. *)
Definition literal_regexes : Regexes := {|
  re_find pattern text :=
    if (pattern =s PATH_TRAVERSAL_RE) && contains text (lit "../") then Some (lit "../")
    else if (pattern =s CRLF_RE) && contains text [13; 10] then Some [13; 10]
    else None;
  re_replace_all _ text _ := text;
|}.


(** The comparison of the sensitive paths is made on the lower-cased path, so the entries with a
    capital letter match nothing. *)
Example capital_entries_never_match :
  map (fun b : string => (inspect_request_with_profile (RE := literal_regexes) (UC := ascii_case)
                            (lit b) [] [] Generic []).1)
    ["/.DS_Store"; "/Dockerfile"] = [WafAllow; WafAllow].
Proof. vm_compute. reflexivity. Qed.

(** ** Bodies *)

Section bodies.
Context {RE : Regexes} {UC : UnicodeCase} {SJ : SerdeJson}.

(** The strings and keys of a value, in order. *)
Fixpoint json_lines (value : JsonValue) : list bytes :=
  match value with
  | JString s => [s]
  | JArray values => flat_map json_lines values
  | JObject members => flat_map (fun '(key, v) => key :: json_lines v) members
  | _ => []
  end.
Definition lines_text (lines : list bytes) : bytes := flat_map (fun line => line ++ [10]) lines.

Lemma lines_text_app a b : lines_text (a ++ b) = lines_text a ++ lines_text b.
Proof. apply flat_map_app. Qed.

Lemma lines_text_empty lines : len (lines_text lines) <= 0 -> lines_text lines = [].
Proof. destruct (lines_text lines); [done|]. rewrite len_cons. pose proof (len_nonneg l). lia. Qed.

Definition visits_all (limit : Z) (v : JsonValue) : Prop := forall out,
  len out + len (lines_text (json_lines v)) <= limit -> visit limit v out = out ++ lines_text (json_lines v).

Lemma visit_unfold limit v out : visit limit v out =
  if limit <=? len out then out
  else
    let output :=
      match v with
      | JString s => push_line out s
      | JArray values => fold_left (fun output v => visit limit v output) values out
      | JObject members => fold_left (fun output '(key, v) => visit limit v (push_line output key)) members out
      | _ => out
      end in
    if limit <? len output then take (floor_boundary output (Z.to_nat limit)) output else output.
Proof. by destruct v. Qed.

Lemma visit_array limit values : Forall (visits_all limit) values -> forall out,
  len out + len (lines_text (flat_map json_lines values)) <= limit ->
  fold_left (fun output v => visit limit v output) values out = out ++ lines_text (flat_map json_lines values).
Proof.
  induction 1 as [|v values Hv _ IH]; intros out Hl; cbn; [by rewrite app_nil_r|].
  cbn in Hl. rewrite lines_text_app, len_app in Hl.
  pose proof (len_nonneg (lines_text (flat_map json_lines values))).
  rewrite Hv by lia. rewrite IH by (rewrite len_app; lia).
  by rewrite lines_text_app, app_assoc.
Qed.

Lemma visit_object limit members : Forall (fun m => visits_all limit m.2) members -> forall out,
  len out + len (lines_text (flat_map (fun '(key, v) => key :: json_lines v) members)) <= limit ->
  fold_left (fun output '(key, v) => visit limit v (push_line output key)) members out
  = out ++ lines_text (flat_map (fun '(key, v) => key :: json_lines v) members).
Proof.
  induction 1 as [|[k v] members Hv _ IH]; intros out Hl; [by cbn; rewrite app_nil_r|].
  cbn [flat_map fold_left] in *. change (?k :: ?l) with ([k] ++ l) in Hl |- *. cbn [snd] in Hv.
  set (rest := flat_map _ members) in *.
  change ((k :: json_lines v) ++ rest) with ([k] ++ json_lines v ++ rest) in *.
  rewrite !lines_text_app, !len_app in Hl. change (lines_text [k]) with ((k ++ [10]) ++ []) in *.
  rewrite app_nil_r in *. pose proof (len_nonneg (lines_text rest)).
  rewrite !len_app in Hl. rewrite Hv by (unfold push_line; rewrite !len_app; lia).
  rewrite IH by (unfold push_line; rewrite !len_app; lia). unfold push_line.
  rewrite !lines_text_app. change (lines_text [k]) with ((k ++ [10]) ++ []). by rewrite app_nil_r, !app_assoc.
Qed.

Lemma floor_boundary_le t n : (floor_boundary t n <= n)%nat.
Proof. induction n as [|n IH]; cbn [floor_boundary]; [done|]. destruct (is_char_boundary t (S n)); lia. Qed.

(** The text searched for a JSON body holds every string and every key of it, in order and
    with their escapes undone, as soon as they fit in the limit; it never exceeds the
    limit. *)
Theorem json_strings_complete (value : JsonValue) (limit : Z) : 0 <= limit ->
  (len (lines_text (json_lines value)) <= limit -> json_strings value limit = lines_text (json_lines value))
  /\ len (json_strings value limit) <= limit.
Proof.
  intros H0. split.
  - intros Hl. unfold json_strings. change (lines_text (json_lines value)) with ([] ++ lines_text (json_lines value)).
    revert Hl. cut (visits_all limit value); [intros H Hl; apply H; change (len (@nil Z)) with 0; lia|].
    induction value as [| | |s|items IH|members IH] using json_value_ind; intros out Hl; rewrite visit_unfold;
      (destruct (Z.leb_spec limit (len out)); [by rewrite lines_text_empty, app_nil_r by lia|]); cbn zeta;
      cbn [json_lines] in *.
    1-3: rewrite (proj2 (Z.ltb_ge _ _)) by lia; by rewrite app_nil_r.
    + change (lines_text [s]) with ((s ++ [10]) ++ []) in *. rewrite app_nil_r in *. unfold push_line.
      rewrite (proj2 (Z.ltb_ge _ _)); [done|]. rewrite len_app. lia.
    + rewrite visit_array by done. rewrite (proj2 (Z.ltb_ge _ _)); [done|]. rewrite len_app. lia.
    + rewrite visit_object by done. rewrite (proj2 (Z.ltb_ge _ _)); [done|]. rewrite len_app. lia.
  - unfold json_strings. rewrite visit_unfold. destruct (Z.leb_spec limit (len (@nil Z))); [done|]. cbn zeta.
    match goal with |- context [limit <? len ?o] => set (out := o) end.
    destruct (Z.ltb_spec limit (len out)); [|done]. unfold len. rewrite length_take.
    pose proof (floor_boundary_le out (Z.to_nat limit)). lia.
Qed.

Definition is_json (content_type : option bytes) : bool :=
  let ct := to_ascii_lowercase (default [] content_type) in
  contains ct (lit "application/json") || contains ct (lit "+json").

(** What stands for the body when its inspection is complete: its text, followed for JSON by
    its strings and keys. *)
Definition complete_text (body : bytes) (content_type : option bytes) (limit : Z) (text : bytes) : Prop :=
  len body <= limit /\
  if is_json content_type then
    exists v, json_from_str body = Some v /\ json_nesting_depth v <= MAX_JSON_DEPTH
              /\ text = body ++ [10] ++ json_strings v limit
  else text = body.

Definition clean_body (decoded : bytes) : Prop :=
  re_find BODY_CRLF_INJECTION_RE decoded = None /\ contains_jndi decoded = false
  /\ check_sqli decoded = None /\ re_find XSS_RE decoded = None.

Lemma inspection_text_complete body ct limit text st : inspection_text body ct limit = (text, st) ->
  (st = Complete <-> complete_text body ct limit text)
  /\ (st <> Complete -> st = ParseError \/ exists n, st = Truncated n (Some (len body)) /\ n <= Z.max 0 limit).
Proof.
  unfold inspection_text, complete_text. fold (is_json ct).
  destruct (Z.ltb_spec limit (len body)) as [L|L]; cbn [is_complete andb].
  - pose proof (floor_boundary_le body (Z.to_nat limit)).
    intros [= <- <-]. split; [split; [done|lia]|]. right. eexists. split; [done|]. lia.
  - destruct (is_json ct); [|by intros [= <- <-]].
    destruct (json_from_str body) as [v|]; [|intros [= <- <-]; split; [split; [done|naive_solver]|by left]].
    destruct (Z.ltb_spec MAX_JSON_DEPTH (json_nesting_depth v)); intros [= <- <-].
    + split; [split; [done|]|by left]. intros (_ & v' & [= <-] & ? & _). lia.
    + split; [split; [|done]|done]. intros _. eauto 6.
Qed.

Lemma inspect_decoded_body_decides decoded uri client site :
  decides (inspect_decoded_body decoded uri client site) (clean_body decoded).
Proof.
  unfold inspect_decoded_body, clean_body.
  pose proof (re_is_match_false BODY_CRLF_INJECTION_RE decoded) as Hd.
  destruct (re_is_match BODY_CRLF_INJECTION_RE decoded); [apply decides_block; intuition congruence|].
  destruct (contains_jndi decoded); [apply decides_block; intuition congruence|].
  destruct (check_sqli decoded); [apply decides_block; intuition congruence|].
  destruct (re_find XSS_RE decoded); [apply decides_block; intuition congruence|].
  split; [intuition|]. intros e. apply not_elem_of_nil.
Qed.

(** A body passes with a complete inspection exactly when its type is inspectable, it is
    UTF-8 within the limit, JSON if it says so and nested at most 32 deep, and no signature
    matches its decoded text together with its JSON strings; whatever else passes is marked
    incomplete, and blocks are recorded exactly. *)
Theorem inspect_body_allow_iff (body uri client : bytes) (ct : option bytes) (limit : Z) (site : bytes) :
  let r := inspect_body_limited body uri client ct limit site in
  (verdict r.1 = WafAllow /\ status r.1 = Complete <->
     is_inspectable_content_type ct = true /\ is_utf8 body = true
     /\ exists text, complete_text body ct limit text /\ clean_body (decode_body text ct))
  /\ reported (verdict r.1, r.2).
Proof.
  unfold inspect_body_limited.
  destruct (is_inspectable_content_type ct); cbn [negb orb];
    [|split; [split; [intros (_ & E); discriminate E|naive_solver]|intros e; apply not_elem_of_nil]].
  destruct (is_utf8 body); cbn [negb];
    [|split; [split; [intros (_ & E); discriminate E|naive_solver]|intros e; apply not_elem_of_nil]].
  destruct (inspection_text body ct limit) as [text st] eqn:E.
  destruct (inspection_text_complete _ _ _ _ _ E) as (Hst & _).
  pose proof (inspect_decoded_body_decides (decode_body text ct) uri client site) as (Hv & Hr).
  destruct (inspect_decoded_body _ _ _ _) as [v ev]. cbn [fst snd verdict status] in *. split; [|done].
  split.
  - intros (H1 & H2). split; [done|]. split; [done|]. exists text. tauto.
  - intros (_ & _ & text' & H1 & H2). assert (text' = text /\ st = Complete) as (-> & ?); [|tauto].
    revert H1 E. unfold complete_text, inspection_text. fold (is_json ct). intros (Hl & H1).
    rewrite (proj2 (Z.ltb_ge limit (len body))) by done. cbn [is_complete andb].
    destruct (is_json ct); [|by intros [= <- <-]]. destruct H1 as (v' & -> & Hd & ->).
    rewrite (proj2 (Z.ltb_ge _ _)) by done. by intros [= <- <-].
Qed.
End bodies.

(** ** Content encodings *)

(** What a decompressor yields up to its end, and whether it ends in an error. *)
Fixpoint stream (reads : list ReadStep) : bytes * bool :=
  match reads with
  | [] => ([], false)
  | RInterrupted :: reads => stream reads
  | RError :: _ => ([], true)
  | RData chunk :: reads =>
      if is_empty chunk then ([], false)
      else let '(rest, failed) := stream reads in (chunk ++ rest, failed)
  end.

Lemma read_loop_spec reads : forall room, 0 <= room ->
  let '(s, failed) := stream reads in
  read_loop room reads = if room <=? len s then Some (take (Z.to_nat room) s)
                         else if failed then None else Some s.
Proof.
  induction reads as [|step reads IH]; intros room Hr; cbn [stream read_loop].
  - change (len (@nil Z)) with 0. by destruct (Z.leb_spec room 0); rewrite ?take_nil.
  - destruct (Z.leb_spec room 0) as [L|L].
    { assert (room = 0) as -> by lia. destruct (match step with RData _ => _ | _ => _ end) as [s failed].
      by rewrite (proj2 (Z.leb_le _ _)) by apply len_nonneg. }
    destruct step as [chunk| |].
    + destruct (is_empty chunk) eqn:Ec.
      { change (len (@nil Z)) with 0. by rewrite (proj2 (Z.leb_gt _ _)) by lia. }
      specialize (IH (room - len chunk)). destruct (stream reads) as [s failed].
      pose proof (len_nonneg s). rewrite len_app. destruct (Z.ltb_spec room (len chunk)) as [M|M].
      * rewrite (proj2 (Z.leb_le _ _)) by lia. unfold len in M. by rewrite take_app_le by lia.
      * rewrite IH by lia. destruct (Z.leb_spec (room - len chunk) (len s)).
        { rewrite (proj2 (Z.leb_le _ _)) by lia. cbn. f_equal. unfold len in *.
          rewrite take_app, (take_ge chunk) by lia. f_equal. f_equal. lia. }
        rewrite (proj2 (Z.leb_gt _ _)) by lia. by destruct failed.
    + by apply IH.
    + change (len (@nil Z)) with 0. by rewrite (proj2 (Z.leb_gt _ _)) by lia.
Qed.

(** The inspected bytes of a compressed body: the whole decompressed stream, marked
    complete, when it ends well within the limit; its first [limit] bytes, marked truncated,
    when it yields more, whatever follows; otherwise (an empty or corrupt stream) the bytes
    of the wire, marked unsupported. *)
Theorem inflate_with_spec (reads : list ReadStep) (fallback : bytes) (limit : Z) :
  0 < limit < u64_max ->
  let r := inflate_with reads fallback limit in
  let '(s, failed) := stream reads in
  (body_status r = Complete <-> failed = false /\ 0 < len s <= limit)
  /\ (body_status r = Complete -> body_bytes r = s)
  /\ (limit < len s -> body_status r = Truncated limit None /\ body_bytes r = take (Z.to_nat limit) s)
  /\ (limit < len s \/ body_status r = Complete \/ body_status r = UnsupportedEncoding /\ body_bytes r = fallback).
Proof.
  intros Hl. pose proof (read_loop_spec reads (inflate_buffer_bytes limit)) as H.
  unfold inflate_with, read_capped_inflate, inflate_buffer_bytes, saturating_add, usize_max in *.
  rewrite Z.min_r in * by lia. specialize (H ltac:(lia)).
  destruct (stream reads) as [s failed]. rewrite H.
  destruct (Z.leb_spec (limit + 1) (len s)) as [L|L].
  - set (out := take _ s). assert (len out = limit + 1) as Ho.
    { subst out. unfold len in *. rewrite length_take. lia. }
    destruct (is_empty out) eqn:E; [apply is_empty_true in E; rewrite E in Ho; change (len (@nil Z)) with 0 in Ho; lia|].
    rewrite (proj2 (Z.ltb_lt limit (len out))) by lia. cbn [body_status body_bytes].
    assert (take (Z.to_nat limit) out = take (Z.to_nat limit) s) as ->.
    { subst out. rewrite take_take. f_equal. lia. }
    assert (len (take (Z.to_nat limit) s) = limit) as ->.
    { unfold len in *. rewrite length_take. lia. }
    repeat split; try done; lia.
  - destruct failed; cbn [unsupported_encoding body_status body_bytes].
    { repeat split; try done; try lia. by right; right. }
    destruct (is_empty s) eqn:E.
    { apply is_empty_true in E as ->. cbn [unsupported_encoding body_status body_bytes].
      change (len (@nil Z)) with 0. repeat split; try done; try lia. by right; right. }
    rewrite (proj2 (Z.ltb_ge limit (len s))) by lia. cbn [body_status body_bytes].
    apply is_empty_false in E. destruct s as [|x s]; [done|]. rewrite len_cons in *.
    pose proof (len_nonneg s). repeat split; try done; try lia. by right; left.
Qed.

Lemma inflate_with_spec_witness :
  let r := inflate_with [RData [1; 2]; RInterrupted; RData [3; 4; 5]; RError] [9] 4 in
  body_status r = Truncated 4 None /\ body_bytes r = [1; 2; 3; 4].
Proof.
  apply (inflate_with_spec [RData [1; 2]; RInterrupted; RData [3; 4; 5]; RError] [9] 4);
    [unfold u64_max; lia|vm_compute; reflexivity].
Defined.

Lemma json_strings_complete_witness :
  json_strings (JObject [(lit "a", JArray [JString (lit "b"); JNull])]) 10 = [97; 10; 98; 10].
Proof.
  apply (json_strings_complete (JObject [(lit "a", JArray [JString (lit "b"); JNull])]) 10);
    [lia|vm_compute; discriminate].
Defined.
