(* ===== verification/Behavioral.v ===== *)
(** * Behavioural score ([src/behavioral.rs])

    A score per client network and per JWT subject and tenant, which grows with suspicious
    requests, decays with time, and throttles or bans.  Scores are [f32]: IEEE 754 binary32
    numbers, computed with [SpecFloat].  The reading and printing of decimal text by [std]
    are the class [F32Text]; [DefaultHasher] is the class [StrHash] and the iteration order
    of the table the class [MapOrder].

    An operation takes the readings of the clock it makes, numbered in the order of the text;
    the readings of one sweep of the table are taken equal. *)

From Stdlib Require Import SpecFloat.
From S2P Require Import Prelude Net ClientIp Window Shield.

(** ** [f32] *)

Definition f32 : Type := spec_float.
Definition f32_prec : Z := 24.
Definition f32_emax : Z := 128.
Definition f32_add : f32 -> f32 -> f32 := SFadd f32_prec f32_emax.
Definition f32_sub : f32 -> f32 -> f32 := SFsub f32_prec f32_emax.
Definition f32_mul : f32 -> f32 -> f32 := SFmul f32_prec f32_emax.
Definition f32_div : f32 -> f32 -> f32 := SFdiv f32_prec f32_emax.
(** [n as f32] *)
Definition f32_of_Z (n : Z) : f32 := binary_normalize f32_prec f32_emax n 0 false.
Definition f32_is_nan (x : f32) : bool := match x with S754_nan => true | _ => false end.
(** [f32::max]: the other operand when one is not a number. *)
Definition f32_max (x y : f32) : f32 :=
  if f32_is_nan x then y else if f32_is_nan y then x else if SFltb x y then y else x.
(** [Duration::as_secs_f32] *)
Definition as_secs_f32 (d : Duration) : f32 :=
  f32_add (f32_of_Z (d / 1000000000)) (f32_div (f32_of_Z (d mod 1000000000)) (f32_of_Z 1000000000)).
(** The literal [0.1]. *)
Definition f32_tenth : f32 := f32_div (f32_of_Z 1) (f32_of_Z 10).

Class F32Text : Type := {
  f32_from_str : bytes -> option f32;
  f32_one_decimal : f32 -> bytes;  (* [format!("{:.1}", x)] *)
}.

(** ** Configuration *)

(** [src/behavioral.rs: fn replica_count] *)
Definition replica_count (env : Env) : Z :=
  default 1 (filter_positive (env "REPLICA_COUNT" ≫= parse_uint u64_max)).

Definition threshold `{F32Text} (env : Env) (name : string) (dflt : Z) : f32 :=
  let configured := default (f32_of_Z dflt) (env name ≫= f32_from_str) in
  f32_max (f32_div configured (f32_of_Z (replica_count env))) (f32_of_Z 1).

(** The values the statics hold once read. *)
Record BehavioralConfig : Type := {
  enabled : bool; slow : f32; block : f32; ban_secs : Z; max_tracked : Z }.

(** [src/behavioral.rs: static BEHAVIORAL_ENABLED + static SCORE_THRESHOLD_SLOW + static SCORE_THRESHOLD_BLOCK + static BAN_DURATION_SECS + static MAX_TRACKED_IPS] *)
Definition behavioral_config `{F32Text} (env : Env) : BehavioralConfig := {|
  enabled := match env "BEHAVIORAL_ENABLED" with Some v => negb (v =s "false") | None => true end;
  slow := threshold env "BEHAVIORAL_SLOW_THRESHOLD" 50;
  block := threshold env "BEHAVIORAL_BLOCK_THRESHOLD" 80;
  ban_secs := default 600 (env "BEHAVIORAL_BAN_SECS" ≫= parse_uint u64_max);
  max_tracked := default 50000 (env "BEHAVIORAL_MAX_IPS" ≫= parse_uint usize_max);
|}.

(** [src/behavioral.rs: const DECAY_RATE] *)
Definition DECAY_RATE : f32 := f32_of_Z 5.
(** [src/behavioral.rs: const MAX_HASHES] *)
Definition MAX_HASHES : Z := 64.
(** [src/behavioral.rs: const PATH_DIVERSITY_THRESHOLD] *)
Definition PATH_DIVERSITY_THRESHOLD : Z := 30.
(** [src/behavioral.rs: const PATH_DIVERSITY_WINDOW_SECS] *)
Definition PATH_DIVERSITY_WINDOW_SECS : Z := 60.
(** [src/behavioral.rs: const UA_ROTATION_THRESHOLD] *)
Definition UA_ROTATION_THRESHOLD : Z := 3.
(** [src/behavioral.rs: const CLEANUP_INTERVAL] *)
Definition CLEANUP_INTERVAL : Z := 1000.

(** ** Keys and profiles *)

(** [src/behavioral.rs: enum BehaviorKey] *)
Inductive BehaviorKey : Type :=
| BNetwork (k : SiteClientKey)
| BJwtSub (site : bytes) (hash : Z)
| BJwtTenant (site : bytes) (hash : Z).

#[export] Instance BehaviorKey_eq_dec : EqDecision BehaviorKey.
Proof. solve_decision. Defined.

#[export] Program Instance BehaviorKey_countable : Countable BehaviorKey :=
  inj_countable'
    (fun k => match k with
              | BNetwork n => inl n
              | BJwtSub s h => inr (false, s, h)
              | BJwtTenant s h => inr (true, s, h) end)
    (fun x : SiteClientKey + bool * bytes * Z =>
       match x with
       | inl n => BNetwork n
       | inr (t, s, h) => if t : bool then BJwtTenant s h else BJwtSub s h
       end) _.
Next Obligation. by intros []. Qed.

(** [src/behavioral.rs: fn behavior_keys] *)
Definition behavior_keys (i : RiskIdentity) : list BehaviorKey :=
  let push (h : option Z) (f : Z -> BehaviorKey) := match h with Some h => [f h] | None => [] end in
  [BNetwork (network_key i)]
  ++ push (jwt_sub_hash i) (BJwtSub (site i))
  ++ push (jwt_tenant_hash i) (BJwtTenant (site i)).

(** [src/behavioral.rs: struct IpProfile] *)
Record IpProfile : Type := {
  score : f32;
  last_decay : Instant;
  last_seen : Instant;
  path_window_started : Instant;
  banned_until : option Instant;
  waf_blocks : Z;
  not_found : Z;
  auth_failures : Z;
  unique_paths : list Z;
  user_agents : list Z;
  path_diversity_flagged : bool;
  ua_rotation_flagged : bool;
}.

(** [src/behavioral.rs: IpProfile::new] *)
Definition profile_new (now : Instant) : IpProfile := {|
  score := f32_of_Z 0; last_decay := now; last_seen := now; path_window_started := now;
  banned_until := None; waf_blocks := 0; not_found := 0; auth_failures := 0;
  unique_paths := []; user_agents := []; path_diversity_flagged := false; ua_rotation_flagged := false |}.

(** Assignments to the fields of a profile. *)
Definition set_score (s : f32) (p : IpProfile) : IpProfile := {|
  score := s; last_decay := last_decay p; last_seen := last_seen p;
  path_window_started := path_window_started p; banned_until := banned_until p;
  waf_blocks := waf_blocks p; not_found := not_found p; auth_failures := auth_failures p;
  unique_paths := unique_paths p; user_agents := user_agents p;
  path_diversity_flagged := path_diversity_flagged p; ua_rotation_flagged := ua_rotation_flagged p |}.
Definition set_decayed (s : f32) (t : Instant) (p : IpProfile) : IpProfile := {|
  score := s; last_decay := t; last_seen := last_seen p;
  path_window_started := path_window_started p; banned_until := banned_until p;
  waf_blocks := waf_blocks p; not_found := not_found p; auth_failures := auth_failures p;
  unique_paths := unique_paths p; user_agents := user_agents p;
  path_diversity_flagged := path_diversity_flagged p; ua_rotation_flagged := ua_rotation_flagged p |}.
Definition set_seen (t : Instant) (p : IpProfile) : IpProfile := {|
  score := score p; last_decay := last_decay p; last_seen := t;
  path_window_started := path_window_started p; banned_until := banned_until p;
  waf_blocks := waf_blocks p; not_found := not_found p; auth_failures := auth_failures p;
  unique_paths := unique_paths p; user_agents := user_agents p;
  path_diversity_flagged := path_diversity_flagged p; ua_rotation_flagged := ua_rotation_flagged p |}.
Definition set_banned (t : Instant) (p : IpProfile) : IpProfile := {|
  score := score p; last_decay := last_decay p; last_seen := last_seen p;
  path_window_started := path_window_started p; banned_until := Some t;
  waf_blocks := waf_blocks p; not_found := not_found p; auth_failures := auth_failures p;
  unique_paths := unique_paths p; user_agents := user_agents p;
  path_diversity_flagged := path_diversity_flagged p; ua_rotation_flagged := ua_rotation_flagged p |}.
Definition set_counters (w n a : Z) (p : IpProfile) : IpProfile := {|
  score := score p; last_decay := last_decay p; last_seen := last_seen p;
  path_window_started := path_window_started p; banned_until := banned_until p;
  waf_blocks := w; not_found := n; auth_failures := a;
  unique_paths := unique_paths p; user_agents := user_agents p;
  path_diversity_flagged := path_diversity_flagged p; ua_rotation_flagged := ua_rotation_flagged p |}.
Definition set_paths (started : Instant) (l : list Z) (flagged : bool) (p : IpProfile) : IpProfile := {|
  score := score p; last_decay := last_decay p; last_seen := last_seen p;
  path_window_started := started; banned_until := banned_until p;
  waf_blocks := waf_blocks p; not_found := not_found p; auth_failures := auth_failures p;
  unique_paths := l; user_agents := user_agents p;
  path_diversity_flagged := flagged; ua_rotation_flagged := ua_rotation_flagged p |}.
Definition set_agents (l : list Z) (flagged : bool) (p : IpProfile) : IpProfile := {|
  score := score p; last_decay := last_decay p; last_seen := last_seen p;
  path_window_started := path_window_started p; banned_until := banned_until p;
  waf_blocks := waf_blocks p; not_found := not_found p; auth_failures := auth_failures p;
  unique_paths := unique_paths p; user_agents := l;
  path_diversity_flagged := path_diversity_flagged p; ua_rotation_flagged := flagged |}.

(** [src/behavioral.rs: IpProfile::apply_decay] [t] is read by [elapsed], [now] on update. *)
Definition apply_decay (t now : Instant) (p : IpProfile) : IpProfile :=
  let elapsed := as_secs_f32 (duration_since t (last_decay p)) in
  if SFltb f32_tenth elapsed then
    set_decayed (f32_max (f32_sub (score p) (f32_mul elapsed DECAY_RATE)) (f32_of_Z 0)) now p
  else p.

(** [src/behavioral.rs: IpProfile::add_score] *)
Definition add_score (t now : Instant) (points : f32) (p : IpProfile) : IpProfile :=
  let p := apply_decay t now p in set_score (f32_add (score p) points) p.

(** [src/behavioral.rs: IpProfile::is_banned] *)
Definition is_banned (now : Instant) (p : IpProfile) : bool :=
  match banned_until p with Some until => now <? until | None => false end.

(** [src/behavioral.rs: IpProfile::reset_path_window_if_expired] *)
Definition reset_path_window_if_expired (t now : Instant) (p : IpProfile) : IpProfile :=
  if PATH_DIVERSITY_WINDOW_SECS <=? duration_since t (path_window_started p) / 1000000000
  then set_paths now [] false p else p.

(** [src/behavioral.rs: IpProfile::is_stale] *)
Definition is_stale (now : Instant) (threshold : Duration) (p : IpProfile) : bool :=
  SFltb (score p) f32_tenth && (threshold <? duration_since now (last_seen p)).

(** [src/behavioral.rs: enum BehavioralVerdict] *)
Inductive BehavioralVerdict : Set := BAllow | BThrottle | BBlock.

(** [src/behavioral.rs: fn add_hash] The vector and whether the hash is new. *)
Definition add_hash (vec : list Z) (hash : Z) : list Z * bool :=
  if bool_decide (hash ∈ vec) then (vec, false)
  else ((if len vec <? MAX_HASHES then vec ++ [hash] else vec), true).

(** The global table and the request counter. *)
Record Profiles : Type := { profiles : gmap BehaviorKey IpProfile; request_counter : Z }.

(** ** Operations *)

Section behavioral.
Context {SH : StrHash} {FT : F32Text} {MO : MapOrder BehaviorKey IpProfile} (cfg : BehavioralConfig).

(** The readings of the clock an operation makes. *)
Definition Clock : Type := nat -> Instant.

Definition entry (now : Instant) (m : gmap BehaviorKey IpProfile) (k : BehaviorKey) : IpProfile :=
  default (profile_new now) (m !! k).

Definition track_path (clk : Clock) (uri : bytes) (p : IpProfile) : IpProfile :=
  let p := reset_path_window_if_expired (clk 5%nat) (clk 6%nat) p in
  let p := set_paths (path_window_started p) (add_hash (unique_paths p) (str_hash (before 63 uri))).1
             (path_diversity_flagged p) p in
  if negb (path_diversity_flagged p) && (PATH_DIVERSITY_THRESHOLD <? len (unique_paths p))
  then add_score (clk 7%nat) (clk 8%nat) (f32_of_Z 20)
         (set_paths (path_window_started p) (unique_paths p) true p)
  else p.

Definition track_agent (clk : Clock) (ua : option bytes) (p : IpProfile) : IpProfile :=
  match ua with
  | Some ua =>
      if is_empty ua then add_score (clk 9%nat) (clk 10%nat) (f32_of_Z 8) p
      else
        let p := set_agents (add_hash (user_agents p) (str_hash ua)).1 (ua_rotation_flagged p) p in
        if negb (ua_rotation_flagged p) && (UA_ROTATION_THRESHOLD <? len (user_agents p))
        then add_score (clk 9%nat) (clk 10%nat) (f32_of_Z 15) (set_agents (user_agents p) true p)
        else p
  | None => add_score (clk 9%nat) (clk 10%nat) (f32_of_Z 8) p
  end.

(** [src/behavioral.rs: fn score_key] *)
Definition score_key (clk : Clock) (key : BehaviorKey) (identity : RiskIdentity) (uri : bytes)
    (ua : option bytes) (client : bytes) (m : gmap BehaviorKey IpProfile)
  : gmap BehaviorKey IpProfile * BehavioralVerdict * list MetricEvent :=
  let p := set_seen (clk 1%nat) (entry (clk 0%nat) m key) in
  let event type detail := Blocked (record_block_in (site identity) type client uri detail) in
  if is_banned (clk 2%nat) p then
    (<[key := p]> m, BBlock, [event (lit "behavioral_block") (lit "IP temporarily banned")])
  else
    let p := apply_decay (clk 3%nat) (clk 4%nat) p in
    let p := track_agent clk ua (track_path clk uri p) in
    let p := set_score (f32_add (score p) f32_tenth) p in
    if SFleb (block cfg) (score p) then
      (<[key := set_banned (clk 11%nat + from_secs (ban_secs cfg)) p]> m, BBlock,
       [event (lit "behavioral_block") (lit "Behavioral ban, score: " ++ f32_one_decimal (score p))])
    else if SFleb (slow cfg) (score p) then
      (<[key := p]> m, BThrottle,
       [event (lit "behavioral_throttle") (lit "Behavioral throttle, score: " ++ f32_one_decimal (score p))])
    else (<[key := p]> m, BAllow, []).

(** [partial_cmp(..).unwrap_or(Equal)] is not [Greater]. *)
Definition not_greater (x y : f32) : bool :=
  match SFcompare x y with Some Gt => false | _ => true end.

Fixpoint insert_by_score (x : BehaviorKey * f32) (l : list (BehaviorKey * f32)) : list (BehaviorKey * f32) :=
  match l with
  | [] => [x]
  | y :: r => if not_greater x.2 y.2 then x :: l else y :: insert_by_score x r
  end.
(** [entries.sort_by(..)], a stable sort. *)
Definition sort_by_score (l : list (BehaviorKey * f32)) : list (BehaviorKey * f32) :=
  foldr insert_by_score [] l.

(** [src/behavioral.rs: fn cleanup_stale] *)
Definition cleanup_stale (now : Instant) (m : gmap BehaviorKey IpProfile) : gmap BehaviorKey IpProfile :=
  if Z.of_nat (size m) <=? max_tracked cfg then m
  else
    let m := omap (fun p => let p := apply_decay now now p in
                            if is_stale now (from_secs 300) p then None else Some p) m in
    if max_tracked cfg <? Z.of_nat (size m) then
      let to_remove := Z.of_nat (size m) - max_tracked cfg in
      let entries := sort_by_score (map (fun '(k, p) => (k, score p)) (iter_order m)) in
      remove_keys (map fst (take (Z.to_nat to_remove) entries)) m
    else m.

(** The loop over the keys of the identity; each has its own readings. *)
Fixpoint score_keys (clks : nat -> Clock) (keys : list BehaviorKey) (identity : RiskIdentity) (uri : bytes)
    (ua : option bytes) (client : bytes) (worst : BehavioralVerdict) (m : gmap BehaviorKey IpProfile)
  : gmap BehaviorKey IpProfile * BehavioralVerdict * list MetricEvent :=
  match keys with
  | [] => (m, worst, [])
  | key :: keys =>
      let '(m, v, ev) := score_key (clks O) key identity uri ua client m in
      match v with
      | BBlock => (m, BBlock, ev)
      | BThrottle =>
          let '(m, w, ev') := score_keys (fun n => clks (S n)) keys identity uri ua client BThrottle m in (m, w, ev ++ ev')
      | BAllow =>
          let '(m, w, ev') := score_keys (fun n => clks (S n)) keys identity uri ua client worst m in (m, w, ev ++ ev')
      end
  end.

(** [src/behavioral.rs: fn check_and_record] *)
Definition check_and_record (now : Instant) (clks : nat -> Clock) (identity : RiskIdentity) (uri : bytes)
    (ua : option bytes) (client : bytes) (s : Profiles)
  : Profiles * BehavioralVerdict * list MetricEvent :=
  if negb (enabled cfg) then (s, BAllow, [])
  else
    let count := request_counter s in
    let counter := (count + 1) mod 2 ^ 64 in
    let m := if (count mod CLEANUP_INTERVAL =? 0) && (0 <? count)
             then cleanup_stale now (profiles s) else profiles s in
    let '(m, v, ev) := score_keys clks (behavior_keys identity) identity uri ua client BAllow m in
    ({| profiles := m; request_counter := counter |}, v, ev).

Definition with_profiles (s : Profiles) (m : gmap BehaviorKey IpProfile) : Profiles :=
  {| profiles := m; request_counter := request_counter s |}.

Definition u16_saturating_inc (n : Z) : Z := saturating_add u16_max n 1.

Definition waf_block_profile (clk : Clock) (p : IpProfile) : IpProfile :=
  let p := set_seen (clk 1%nat) p in
  add_score (clk 2%nat) (clk 3%nat) (f32_of_Z 20)
    (set_counters (u16_saturating_inc (waf_blocks p)) (not_found p) (auth_failures p) p).

(** One update per key of the identity. *)
Fixpoint update_keys (f : Clock -> IpProfile -> IpProfile) (clks : nat -> Clock) (keys : list BehaviorKey)
    (m : gmap BehaviorKey IpProfile) : gmap BehaviorKey IpProfile :=
  match keys with
  | [] => m
  | key :: keys =>
      let clk := clks O in
      update_keys f (fun n => clks (S n)) keys (<[key := f clk (entry (clk O) m key)]> m)
  end.

(** [src/behavioral.rs: fn record_waf_block] *)
Definition record_waf_block (clks : nat -> Clock) (identity : RiskIdentity) (s : Profiles) : Profiles :=
  if negb (enabled cfg) then s
  else with_profiles s (update_keys waf_block_profile clks (behavior_keys identity) (profiles s)).

Definition response_profile (status : Z) (clk : Clock) (p : IpProfile) : IpProfile :=
  let p := set_seen (clk 1%nat) p in
  if status =? 404 then
    add_score (clk 2%nat) (clk 3%nat) (f32_of_Z 3)
      (set_counters (waf_blocks p) (u16_saturating_inc (not_found p)) (auth_failures p) p)
  else if status =? 401 then
    add_score (clk 2%nat) (clk 3%nat) (f32_of_Z 5)
      (set_counters (waf_blocks p) (not_found p) (u16_saturating_inc (auth_failures p)) p)
  else if status =? 403 then
    add_score (clk 2%nat) (clk 3%nat) (f32_of_Z 3)
      (set_counters (waf_blocks p) (not_found p) (u16_saturating_inc (auth_failures p)) p)
  else p.

(** [src/behavioral.rs: fn record_response] *)
Definition record_response (clks : nat -> Clock) (identity : RiskIdentity) (status : Z) (s : Profiles) : Profiles :=
  if negb (enabled cfg) then s
  else with_profiles s (update_keys (response_profile status) clks (behavior_keys identity) (profiles s)).

(** ** Executions *)

(** A call, by any request. *)
Inductive BehaviorCall : Type :=
| CallCheck (now : Instant) (clks : nat -> Clock) (identity : RiskIdentity) (uri : bytes)
    (ua : option bytes) (client : bytes)
| CallWafBlock (clks : nat -> Clock) (identity : RiskIdentity)
| CallResponse (clks : nat -> Clock) (identity : RiskIdentity) (status : Z).

Definition call_identity (c : BehaviorCall) : RiskIdentity :=
  match c with CallCheck _ _ i _ _ _ | CallWafBlock _ i | CallResponse _ i _ => i end.

Definition run_call (c : BehaviorCall) (s : Profiles) : Profiles :=
  match c with
  | CallCheck now clks i uri ua client => (check_and_record now clks i uri ua client s).1.1
  | CallWafBlock clks i => record_waf_block clks i s
  | CallResponse clks i status => record_response clks i status s
  end.

(** The state after a history of calls, the last first. *)
Fixpoint run_calls (cs : list BehaviorCall) (s : Profiles) : Profiles :=
  match cs with
  | [] => s
  | c :: cs => run_call c (run_calls cs s)
  end.

End behavioral.

(** ** Bans *)

Section bans.
Context {SH : StrHash} {FT : F32Text} {MO : MapOrder BehaviorKey IpProfile} (cfg : BehavioralConfig).

Definition until_of (m : gmap BehaviorKey IpProfile) (k : BehaviorKey) : option Instant :=
  m !! k ≫= banned_until.

Lemma until_insert m k p k' : until_of (<[k:=p]> m) k' = if decide (k = k') then banned_until p else until_of m k'.
Proof. unfold until_of. rewrite lookup_insert. by case_decide. Qed.

Lemma entry_until now m k u : until_of m k = Some u -> banned_until (entry now m k) = Some u.
Proof. unfold until_of, entry. by destruct (m !! k). Qed.

Lemma apply_decay_until t now p : banned_until (apply_decay t now p) = banned_until p.
Proof. unfold apply_decay. by destruct (SFltb _ _). Qed.

Lemma add_score_until t now x p : banned_until (add_score t now x p) = banned_until p.
Proof. unfold add_score. cbn. apply apply_decay_until. Qed.

(** Scoring a key under a ban blocks and keeps the ban. *)
Lemma score_key_banned clk k i uri ua client m u : until_of m k = Some u -> clk 2%nat < u ->
  let r := score_key cfg clk k i uri ua client m in r.1.2 = BBlock /\ until_of r.1.1 k = Some u.
Proof.
  intros Hu Hc. unfold score_key. apply (entry_until (clk 0%nat)) in Hu.
  assert (is_banned (clk 2%nat) (set_seen (clk 1%nat) (entry (clk 0%nat) m k)) = true) as ->.
  { unfold is_banned. cbn. rewrite Hu. by apply Z.ltb_lt. }
  cbn. split; [done|]. by rewrite until_insert, decide_True.
Qed.

Lemma score_key_other clk k i uri ua client m k' : k <> k' ->
  (score_key cfg clk k i uri ua client m).1.1 !! k' = m !! k'.
Proof.
  intros Hk. unfold score_key.
  repeat match goal with |- context [if ?c then _ else _] => destruct c end; cbn; by rewrite lookup_insert_ne.
Qed.

(** A block leaves the key that caused it under a ban. *)
Lemma score_key_block clk k i uri ua client m : (score_key cfg clk k i uri ua client m).1.2 = BBlock ->
  exists u, until_of (score_key cfg clk k i uri ua client m).1.1 k = Some u
            /\ (clk 2%nat < u \/ u = clk 11%nat + from_secs (ban_secs cfg)).
Proof.
  unfold score_key. destruct (is_banned _ _) eqn:E.
  - intros _. unfold is_banned in E. cbn in E. destruct (banned_until _) as [u|] eqn:Eu; [|done].
    exists u. cbn. rewrite until_insert, decide_True by done. split; [done|]. left. lia.
  - set (p := set_score _ _). destruct (SFleb (block cfg) (score p)).
    + intros _. eexists. cbn. rewrite until_insert, decide_True by done. split; [done|]. by right.
    + by destruct (SFleb (slow cfg) (score p)).
Qed.

(** The loop: the keys that do not occur keep their profile, a key under a ban keeps it and
    makes the verdict a block, and a block leaves a key under a ban. *)
Lemma score_keys_other keys : forall clks i uri ua client w m k, k ∉ keys ->
  (score_keys cfg clks keys i uri ua client w m).1.1 !! k = m !! k.
Proof.
  induction keys as [|key keys IH]; intros clks i uri ua client w m k Hk; cbn [score_keys]; [done|].
  apply not_elem_of_cons in Hk as (Hk & Hks).
  pose proof (score_key_other (clks 0%nat) key i uri ua client m k ltac:(congruence)) as H1.
  destruct (score_key _ _ _ _ _ _ _ _) as [[m' v] ev]. cbn in H1.
  destruct v; [| |done]; (match goal with |- context [score_keys cfg ?a ?b ?c ?d ?e ?f ?g ?h] =>
    specialize (IH a c d e f g h k Hks); destruct (score_keys cfg a b c d e f g h) as [[m2 w2] ev2] end; cbn in *; congruence).
Qed.

Definition readings_before (u : Instant) (clks : nat -> Clock) : Prop := forall n j, clks n j < u.

Lemma score_keys_banned keys : forall clks i uri ua client w m k u,
  until_of m k = Some u -> readings_before u clks ->
  let r := score_keys cfg clks keys i uri ua client w m in
  until_of r.1.1 k = Some u /\ (k ∈ keys -> r.1.2 = BBlock).
Proof.
  induction keys as [|key keys IH]; intros clks i uri ua client w m k u Hu Hc; cbn [score_keys].
  { split; [done|]. by intros ?%not_elem_of_nil. }
  destruct (decide (key = k)) as [->|Hk].
  - pose proof (score_key_banned (clks 0%nat) k i uri ua client m u Hu (Hc _ _)) as (H1 & H2).
    destruct (score_key _ _ _ _ _ _ _ _) as [[m' v] ev]. cbn in *. by subst v.
  - pose proof (score_key_other (clks 0%nat) key i uri ua client m k Hk) as H1.
    destruct (score_key _ _ _ _ _ _ _ _) as [[m' v] ev]. cbn in H1.
    assert (until_of m' k = Some u) as Hu' by (unfold until_of; by rewrite H1).
    assert (readings_before u (fun n => clks (S n))) as Hc' by (intros n j; apply Hc).
    destruct v; [| |done]; (match goal with |- context [score_keys cfg ?a ?b ?c ?d ?e ?f ?g ?h] =>
      specialize (IH a c d e f g h k u Hu' Hc') as (H2 & H3); destruct (score_keys cfg a b c d e f g h) as [[m2 w2] ev2] end;
      cbn in *; split; [done|]; intros [?|?]%elem_of_cons; [congruence|by apply H3]).
Qed.

Lemma score_keys_block keys : forall clks i uri ua client w m, w <> BBlock -> NoDup keys ->
  (score_keys cfg clks keys i uri ua client w m).1.2 = BBlock ->
  exists k n u, k ∈ keys /\ until_of (score_keys cfg clks keys i uri ua client w m).1.1 k = Some u
            /\ (clks n 2%nat < u \/ u = clks n 11%nat + from_secs (ban_secs cfg)).
Proof.
  induction keys as [|key keys IH]; intros clks i uri ua client w m Hw Hnd; cbn [score_keys]; [done|].
  apply NoDup_cons in Hnd as (Hkey & Hnd).
  pose proof (score_key_block (clks 0%nat) key i uri ua client m) as H1.
  destruct (score_key _ _ _ _ _ _ _ _) as [[m' v] ev]. cbn in H1. destruct v.
  3: { intros _. destruct (H1 eq_refl) as (u & H2 & H3). exists key, 0%nat, u. split; [left|done]. }
  all: match goal with |- context [score_keys cfg ?a ?b ?c ?d ?e ?f ?g ?h] =>
      specialize (IH a c d e f g h ltac:(done) Hnd); destruct (score_keys cfg a b c d e f g h) as [[m2 w2] ev2] end;
      cbn in *; intros Hb; destruct (IH Hb) as (k & n & u & Hk & H2 & H3);
      exists k, (S n), u; (split; [by right|done]).
Qed.

Lemma behavior_keys_nodup i : NoDup (behavior_keys i).
Proof.
  unfold behavior_keys. destruct (jwt_sub_hash i), (jwt_tenant_hash i); cbn;
    repeat (constructor; [rewrite ?not_elem_of_cons; repeat split; try discriminate; apply not_elem_of_nil|]); constructor.
Qed.

Lemma update_keys_other f keys : forall clks m k, k ∉ keys -> update_keys f clks keys m !! k = m !! k.
Proof.
  induction keys as [|key keys IH]; intros clks m k Hk; cbn [update_keys]; [done|].
  apply not_elem_of_cons in Hk as (Hk & Hks). rewrite IH by done. by rewrite lookup_insert_ne.
Qed.

Lemma update_keys_until f keys : (forall clk p, banned_until (f clk p) = banned_until p) ->
  forall clks m k u, until_of m k = Some u -> until_of (update_keys f clks keys m) k = Some u.
Proof.
  intros Hf. induction keys as [|key keys IH]; intros clks m k u Hu; cbn [update_keys]; [done|].
  apply IH. rewrite until_insert. case_decide as Hk; [|done]. subst key. rewrite Hf. by apply entry_until.
Qed.

Lemma waf_block_profile_until clk p : banned_until (waf_block_profile clk p) = banned_until p.
Proof. unfold waf_block_profile. by rewrite add_score_until. Qed.

Lemma response_profile_until status clk p : banned_until (response_profile status clk p) = banned_until p.
Proof.
  unfold response_profile. repeat match goal with |- context [if ?c then _ else _] => destruct c end;
    by rewrite ?add_score_until.
Qed.

(** The table is within its capacity, so that no profile is dropped. *)
Definition within_cap (s : Profiles) : Prop := Z.of_nat (size (profiles s)) <= max_tracked cfg.

Lemma cleanup_within_cap now m : Z.of_nat (size m) <= max_tracked cfg -> cleanup_stale cfg now m = m.
Proof. intros H. unfold cleanup_stale. by rewrite (proj2 (Z.leb_le _ _)). Qed.

Lemma check_and_record_within_cap now clks i uri ua client s : within_cap s -> enabled cfg = true ->
  check_and_record cfg now clks i uri ua client s
  = let r := score_keys cfg clks (behavior_keys i) i uri ua client BAllow (profiles s) in
    ({| profiles := r.1.1; request_counter := (request_counter s + 1) mod 2 ^ 64 |}, r.1.2, r.2).
Proof.
  intros Hc He. unfold check_and_record. rewrite He. cbn [negb].
  rewrite cleanup_within_cap by done.
  destruct (_ && _); by destruct (score_keys _ _ _ _ _ _ _ _ _) as [[m v] ev].
Qed.

Definition call_before (u : Instant) (c : BehaviorCall) : Prop :=
  match c with CallCheck _ clks _ _ _ _ => readings_before u clks | _ => True end.

Lemma run_call_until c s k u : within_cap s -> until_of (profiles s) k = Some u -> call_before u c ->
  until_of (profiles (run_call cfg c s)) k = Some u.
Proof.
  intros Hc Hu Hb. destruct c as [now clks i uri ua client|clks i|clks i status]; cbn [run_call].
  - destruct (enabled cfg) eqn:He; [|unfold check_and_record; by rewrite He].
    rewrite check_and_record_within_cap by done. cbn zeta. cbn [fst snd profiles]. by apply score_keys_banned.
  - unfold record_waf_block. destruct (enabled cfg); [|done]. cbn [with_profiles profiles].
    apply update_keys_until; [|done]; apply waf_block_profile_until.
  - unfold record_response. destruct (enabled cfg); [|done]. cbn [with_profiles profiles].
    apply update_keys_until; [|done]; apply response_profile_until.
Qed.

(** C31. A ban holds: a blocked request leaves one of the keys of its identity under a ban, in
    force already or starting now for the configured time; whatever calls follow, every
    request under that key is blocked until the ban ends, as long as the table of
    profiles stays within its capacity. *)
Theorem ban_enforced (now : Instant) (clks : nat -> Clock) (i : RiskIdentity) (uri : bytes)
    (ua : option bytes) (client : bytes) (s s' : Profiles) (ev : list MetricEvent) :
  within_cap s -> check_and_record cfg now clks i uri ua client s = (s', BBlock, ev) ->
  exists k n u, k ∈ behavior_keys i
    /\ (clks n 2%nat < u \/ u = clks n 11%nat + from_secs (ban_secs cfg))
    /\ forall cs now' clks' i' uri' ua' client',
         Forall (call_before u) cs -> readings_before u clks' -> k ∈ behavior_keys i' ->
         (forall cs', cs' `suffix_of` cs -> within_cap (run_calls cfg cs' s')) ->
         (check_and_record cfg now' clks' i' uri' ua' client' (run_calls cfg cs s')).1.2 = BBlock.
Proof.
  intros Hcap H. assert (enabled cfg = true) as He.
  { destruct (enabled cfg) eqn:He; [done|]. unfold check_and_record in H. rewrite He in H. discriminate H. }
  rewrite check_and_record_within_cap in H by done. cbn zeta in H. injection H as <- Hv <-.
  destruct (score_keys_block _ _ _ _ _ _ BAllow _ ltac:(done) (behavior_keys_nodup i) Hv)
    as (k & n & u & Hk & Hu & Hn).
  exists k, n, u. split; [done|]. split; [done|].
  intros cs now' clks' i' uri' ua' client' Hcs Hr Hk' Hall.
  set (s0 := {| profiles := _; request_counter := _ |}) in *.
  assert (until_of (profiles (run_calls cfg cs s0)) k = Some u) as Hfin.
  { revert Hcs Hall. clear Hv Hr Hn. induction cs as [|c cs IH]; intros Hcs Hall; [done|].
    apply Forall_cons_1 in Hcs as (Hc & Hcs). cbn [run_calls].
    apply run_call_until; [apply Hall; by apply suffix_cons_r| |done].
    apply IH; [done|]. intros cs' Hs. apply Hall. by apply suffix_cons_r. }
  rewrite check_and_record_within_cap; [|by apply Hall|done]. cbn zeta. cbn [fst snd].
  by apply (score_keys_banned _ _ _ _ _ _ _ _ _ _ Hfin Hr).
Qed.

(** Clients are scored apart: as long as the table is within its capacity, no call changes
    the profile of a network, subject or tenant that is not one of the keys of its
    identity; in particular two sites never share a profile. *)
Theorem scores_are_separate (c : BehaviorCall) (s : Profiles) (k : BehaviorKey) :
  within_cap s -> k ∉ behavior_keys (call_identity c) -> profiles (run_call cfg c s) !! k = profiles s !! k.
Proof.
  intros Hc Hk. destruct c as [now clks i uri ua client|clks i|clks i status]; cbn [run_call call_identity] in *.
  - destruct (enabled cfg) eqn:He; [|unfold check_and_record; by rewrite He].
    rewrite check_and_record_within_cap by done. cbn zeta. cbn [fst snd profiles]. by apply score_keys_other.
  - unfold record_waf_block. destruct (enabled cfg); [|done]. by apply update_keys_other.
  - unfold record_response. destruct (enabled cfg); [|done]. by apply update_keys_other.
Qed.
End bans.

(** ** Scores are never negative *)

Definition nonneg (x : f32) : Prop :=
  match x with S754_nan => False | S754_zero _ => True | S754_infinity s | S754_finite s _ _ => s = false end.

Lemma shr_1_nonneg mrs : 0 <= shr_m mrs -> 0 <= shr_m (shr_1 mrs).
Proof. destruct mrs as [[|[p|p|]|p] r s]; cbn; lia. Qed.

Lemma iter_pos_nonneg p : forall mrs, 0 <= shr_m mrs -> 0 <= shr_m (SpecFloat.iter_pos shr_1 p mrs).
Proof.
  induction p as [p IH|p IH|]; intros mrs H; cbn [SpecFloat.iter_pos]; [apply IH, IH, shr_1_nonneg, H|apply IH, IH, H|].
  by apply shr_1_nonneg.
Qed.

Lemma shr_fexp_nonneg prec emax m e l : 0 <= m -> 0 <= shr_m (shr_fexp prec emax m e l).1.
Proof.
  intros H. unfold shr_fexp, shr. assert (0 <= shr_m (shr_record_of_loc m l)) by (by destruct l as [|[]]).
  destruct (fexp prec emax _ - e); cbn [fst]; [done| |done]. by apply iter_pos_nonneg.
Qed.

Lemma binary_round_aux_nonneg prec emax m e l : 0 <= m -> nonneg (binary_round_aux prec emax false m e l).
Proof.
  intros H. unfold binary_round_aux. pose proof (shr_fexp_nonneg prec emax m e l H) as H1.
  destruct (shr_fexp prec emax m e l) as [mrs e']. cbn in H1.
  assert (0 <= round_nearest_even (shr_m mrs) (loc_of_shr_record mrs)) as H2.
  { unfold round_nearest_even. destruct (loc_of_shr_record mrs) as [|[]]; [done| |done|]; [|lia].
    destruct (Z.even _); lia. }
  pose proof (shr_fexp_nonneg prec emax _ e' loc_Exact H2) as H3.
  destruct (shr_fexp prec emax _ e' loc_Exact) as [mrs' e'']. cbn in H3.
  destruct (shr_m mrs'); [done| |lia]. by destruct (Z.leb _ _).
Qed.

Lemma binary_normalize_nonneg prec emax m e : 0 <= m -> nonneg (binary_normalize prec emax m e false).
Proof.
  intros H. destruct m as [|p|p]; [done| |lia]. cbn. unfold binary_round.
  destruct (shl_align _ _ _). by apply binary_round_aux_nonneg.
Qed.

Lemma f32_add_nonneg x y : nonneg x -> nonneg y -> nonneg (f32_add x y).
Proof.
  unfold f32_add, SFadd. destruct x as [sx|sx| |sx mx ex], y as [sy|sy| |sy my ey]; cbn [nonneg]; intros Hx Hy;
    subst; try done; [by destruct sx, sy|].
  by apply binary_normalize_nonneg.
Qed.

Lemma f32_max_zero x : nonneg (f32_max x (f32_of_Z 0)).
Proof. unfold f32_max. by destruct x as [[]|[]| |[] m e]. Qed.

(** ** Profiles stay small *)

Section invariants.
Context {SH : StrHash} {FT : F32Text} {MO : MapOrder BehaviorKey IpProfile} (cfg : BehavioralConfig).

Record profile_ok (p : IpProfile) : Prop := {
  ok_score : nonneg (score p);
  ok_paths : len (unique_paths p) <= MAX_HASHES /\ NoDup (unique_paths p);
  ok_agents : len (user_agents p) <= MAX_HASHES /\ NoDup (user_agents p);
  ok_counters : Forall (fun n => 0 <= n <= u16_max) [waf_blocks p; not_found p; auth_failures p];
}.

Lemma profile_new_ok now : profile_ok (profile_new now).
Proof.
  constructor; cbn; [done|split; [done|constructor]|split; [done|constructor]|].
  repeat constructor; unfold u16_max; lia.
Qed.

Lemma set_score_ok x p : nonneg x -> profile_ok p -> profile_ok (set_score x p).
Proof. by intros Hx []. Qed.

Lemma apply_decay_ok t now p : profile_ok p -> profile_ok (apply_decay t now p).
Proof.
  intros H. unfold apply_decay. destruct (SFltb _ _); [|done].
  destruct H. constructor; try done. cbn. apply f32_max_zero.
Qed.

Lemma add_score_ok t now n p : 0 <= n -> profile_ok p -> profile_ok (add_score t now (f32_of_Z n) p).
Proof.
  intros Hn H. unfold add_score. cbn zeta. pose proof (apply_decay_ok t now p H) as H1.
  apply set_score_ok; [|done]. apply f32_add_nonneg; [apply H1|]. by apply binary_normalize_nonneg.
Qed.

Lemma add_hash_ok l h : len l <= MAX_HASHES /\ NoDup l ->
  len (add_hash l h).1 <= MAX_HASHES /\ NoDup (add_hash l h).1.
Proof.
  intros (Hl & Hn). unfold add_hash. case_bool_decide as Hh; [done|]. cbn [fst].
  destruct (Z.ltb_spec (len l) MAX_HASHES); [|done]. rewrite len_app. change (len [h]) with 1.
  split; [lia|]. apply NoDup_app. split; [done|]. split; [|apply NoDup_singleton].
  intros x Hx ->%list_elem_of_singleton. done.
Qed.

Lemma track_path_ok clk uri p : profile_ok p -> profile_ok (track_path clk uri p).
Proof.
  intros H. unfold track_path. cbn zeta.
  assert (profile_ok (reset_path_window_if_expired (clk 5%nat) (clk 6%nat) p)) as H1.
  { unfold reset_path_window_if_expired. destruct (_ <=? _); [|done]. destruct H. constructor; try done.
    cbn. split; [unfold len, MAX_HASHES; cbn; lia|constructor]. }
  set (q := reset_path_window_if_expired _ _ p) in *.
  assert (forall started flagged, profile_ok (set_paths started (add_hash (unique_paths q) (str_hash (before 63 uri))).1 flagged q)) as H2.
  { intros. destruct H1. constructor; try done. by apply add_hash_ok. }
  destruct (_ && _); [|apply H2]. apply add_score_ok; [lia|]. apply H2.
Qed.

Lemma track_agent_ok clk ua p : profile_ok p -> profile_ok (track_agent clk ua p).
Proof.
  intros H. unfold track_agent. destruct ua as [ua|]; [|by apply add_score_ok].
  destruct (is_empty ua); [by apply add_score_ok|]. cbn zeta.
  assert (forall flagged, profile_ok (set_agents (add_hash (user_agents p) (str_hash ua)).1 flagged p)) as H2.
  { intros. destruct H. constructor; try done. by apply add_hash_ok. }
  destruct (_ && _); [|apply H2]. apply add_score_ok; [lia|]. apply H2.
Qed.

Definition all_ok (m : gmap BehaviorKey IpProfile) : Prop := map_Forall (fun _ p => profile_ok p) m.

Lemma entry_ok now m k : all_ok m -> profile_ok (entry now m k).
Proof. intros H. unfold entry. destruct (m !! k) eqn:E; [by apply (H k)|apply profile_new_ok]. Qed.

Lemma set_seen_ok t p : profile_ok p -> profile_ok (set_seen t p).
Proof. by intros []. Qed.

Lemma score_key_ok clk k i uri ua client m : all_ok m -> all_ok (score_key cfg clk k i uri ua client m).1.1.
Proof.
  intros H. unfold score_key. pose proof (set_seen_ok (clk 1%nat) _ (entry_ok (clk 0%nat) m k H)) as H1.
  set (p0 := set_seen _ _) in *. destruct (is_banned _ p0); [by apply map_Forall_insert_2|].
  pose proof (track_agent_ok clk ua _ (track_path_ok clk uri _ (apply_decay_ok (clk 3%nat) (clk 4%nat) p0 H1))) as H2.
  set (p := track_agent _ _ _) in *. cbn zeta.
  assert (profile_ok (set_score (f32_add (score p) f32_tenth) p)) as H3.
  { apply set_score_ok; [|done]. apply f32_add_nonneg; [apply H2|]. by vm_compute. }
  set (q := set_score _ p) in *.
  destruct (SFleb _ _); [|destruct (SFleb _ _)]; cbn [fst]; apply map_Forall_insert_2; try done.
  by destruct H3.
Qed.

Lemma score_keys_ok keys : forall clks i uri ua client w m, all_ok m ->
  all_ok (score_keys cfg clks keys i uri ua client w m).1.1.
Proof.
  induction keys as [|k keys IH]; intros clks i uri ua client w m H; cbn [score_keys]; [done|].
  pose proof (score_key_ok (clks 0%nat) k i uri ua client m H) as H1.
  destruct (score_key _ _ _ _ _ _ _ _) as [[m' v] ev]. cbn in H1.
  destruct v; [| |done]; (match goal with |- context [score_keys cfg ?a ?b ?c ?d ?e ?f ?g ?h] =>
    specialize (IH a c d e f g h H1); destruct (score_keys cfg a b c d e f g h) as [[m2 w2] ev2] end; done).
Qed.

Lemma omap_ok (f : IpProfile -> option IpProfile) m : (forall p q, profile_ok p -> f p = Some q -> profile_ok q) ->
  all_ok m -> all_ok (omap f m).
Proof.
  intros Hf H k q. rewrite lookup_omap. destruct (m !! k) as [p|] eqn:E; [|done]. cbn.
  apply Hf. by apply (H k).
Qed.

Lemma cleanup_ok now m : all_ok m -> all_ok (cleanup_stale cfg now m).
Proof.
  intros H. unfold cleanup_stale. destruct (_ <=? _); [done|]. cbn zeta.
  match goal with |- context [omap ?f m] => assert (all_ok (omap f m)) as H1; [|set (m' := omap f m) in *] end.
  { apply omap_ok; [|done]. intros p q Hp. destruct (is_stale _ _ _); [done|]. intros [= <-]. by apply apply_decay_ok. }
  destruct (_ <? _); [|done]. intros k p. rewrite lookup_remove_keys. case_decide; [done|]. apply H1.
Qed.

Lemma update_keys_ok f keys : (forall clk p, profile_ok p -> profile_ok (f clk p)) ->
  forall clks m, all_ok m -> all_ok (update_keys f clks keys m).
Proof.
  intros Hf. induction keys as [|k keys IH]; intros clks m H; cbn [update_keys]; [done|].
  apply IH, map_Forall_insert_2; [|done]. by apply Hf, entry_ok.
Qed.

Lemma u16_inc_range n : 0 <= n <= u16_max -> 0 <= u16_saturating_inc n <= u16_max.
Proof. unfold u16_saturating_inc, saturating_add. lia. Qed.

Lemma set_counters_ok w n a p : 0 <= w <= u16_max -> 0 <= n <= u16_max -> 0 <= a <= u16_max ->
  profile_ok p -> profile_ok (set_counters w n a p).
Proof. intros ? ? ? []. constructor; try done. cbn. rewrite !Forall_cons. done. Qed.

Lemma counters_range p : profile_ok p ->
  0 <= waf_blocks p <= u16_max /\ 0 <= not_found p <= u16_max /\ 0 <= auth_failures p <= u16_max.
Proof. intros [_ _ _ H]. rewrite !Forall_cons in H. tauto. Qed.

Lemma waf_block_profile_ok clk p : profile_ok p -> profile_ok (waf_block_profile clk p).
Proof.
  intros H. unfold waf_block_profile. cbn zeta. apply add_score_ok; [lia|].
  destruct (counters_range _ H) as (? & ? & ?). apply set_counters_ok; try done; [by apply u16_inc_range|].
  by apply set_seen_ok.
Qed.

Lemma response_profile_ok status clk p : profile_ok p -> profile_ok (response_profile status clk p).
Proof.
  intros H. unfold response_profile. cbn zeta. destruct (counters_range _ H) as (? & ? & ?).
  pose proof (set_seen_ok (clk 1%nat) p H).
  repeat match goal with |- context [if ?c then _ else _] => destruct c end; [| | |done];
    (apply add_score_ok; [lia|]; apply set_counters_ok; try done; by apply u16_inc_range).
Qed.

Lemma cleanup_cap now m : 0 <= max_tracked cfg -> Z.of_nat (size (cleanup_stale cfg now m)) <= max_tracked cfg.
Proof.
  intros Hm. unfold cleanup_stale. destruct (Z.leb_spec (Z.of_nat (size m)) (max_tracked cfg)) as [L|L]; [done|].
  cbn zeta. set (m' := omap _ m). destruct (Z.ltb_spec (max_tracked cfg) (Z.of_nat (size m'))) as [M|M]; [|done].
  set (entries := map (fun '(k, p) => (k, score p)) (iter_order m')).
  assert (sort_by_score entries ≡ₚ entries) as Hs.
  { clearbody entries. unfold sort_by_score. induction entries as [|x l IH]; cbn; [done|].
    rewrite <- IH at 2. generalize (foldr insert_by_score [] l). clear. intros l.
    induction l as [|y l IH]; cbn; [done|]. destruct (not_greater _ _); [done|]. rewrite IH. constructor. }
  assert (map fst entries ≡ₚ map fst (map_to_list m')) as Hk.
  { subst entries. rewrite map_map. rewrite (iter_order_perm m').
    erewrite (map_ext _ fst); [done|]. by intros []. }
  assert (map fst (sort_by_score entries) ≡ₚ map fst (map_to_list m')) as Hp by (by rewrite Hs).
  rewrite <- firstn_map. set (ks := firstn _ _).
  assert (ks `sublist_of` map fst (sort_by_score entries)) as Hsub by apply sublist_take.
  rewrite size_remove_keys.
  - subst ks. change firstn with (@take BehaviorKey). rewrite length_take, Hp, length_map, length_map_to_list. lia.
  - eapply sublist_NoDup; [|exact Hsub]. rewrite Hp. apply NoDup_fst_map_to_list.
  - intros k Hin. apply (sublist_elem_of _ _ _ Hsub) in Hin || (eapply elem_of_sublist in Hin; [|exact Hsub]).
    rewrite Hp in Hin. apply list_elem_of_fmap in Hin as ([k' p] & -> & Hin). apply elem_of_map_to_list in Hin. eauto.
Qed.

(** In every reachable state each profile is small and well formed: its score is a
    non-negative number, it holds at most 64 distinct paths and 64 distinct agents, and its
    counters stay within 16 bits; and each cleaning brings the table within its capacity. *)
Theorem profiles_bounded (cs : list BehaviorCall) (counter : Z) (now : Instant) : 0 <= max_tracked cfg ->
  let s := run_calls cfg cs {| profiles := ∅; request_counter := counter |} in
  map_Forall (fun _ p => profile_ok p) (profiles s)
  /\ Z.of_nat (size (cleanup_stale cfg now (profiles s))) <= max_tracked cfg.
Proof.
  intros Hm s. split; [|by apply cleanup_cap]. subst s. induction cs as [|c cs IH]; [apply map_Forall_empty|].
  cbn [run_calls]. set (s := run_calls cfg cs _) in *. clearbody s. fold (all_ok (profiles s)) in IH.
  destruct c as [t clks i uri ua client|clks i|clks i status]; cbn [run_call].
  - unfold check_and_record. destruct (enabled cfg); [|done]. cbn [negb].
    set (m := if _ : bool then _ else _). assert (all_ok m) as Hall by (subst m; destruct (_ && _); [by apply cleanup_ok|done]).
    pose proof (score_keys_ok (behavior_keys i) clks i uri ua client BAllow m Hall) as H.
    by destruct (score_keys _ _ _ _ _ _ _ _ _) as [[m' v] ev].
  - unfold record_waf_block. destruct (enabled cfg); [|done]. apply update_keys_ok; [apply waf_block_profile_ok|done].
  - unfold record_response. destruct (enabled cfg); [|done]. apply update_keys_ok; [apply response_profile_ok|done].
Qed.
End invariants.

(** ** Evaluations *)

Definition no_f32_text : F32Text := {| f32_from_str _ := None; f32_one_decimal _ := [] |}.
Definition default_config : BehavioralConfig :=
  {| enabled := true; slow := f32_of_Z 50; block := f32_of_Z 80; ban_secs := 600; max_tracked := 1 |}.
Definition some_client : RiskIdentity := {|
  site := lit "a"; network := V4 1; route := []; session_hash := None; api_key_hash := None; jwt_sub_hash := None;
  jwt_tenant_hash := None; tls_fingerprint := None; http_fingerprint := None; asn := None |}.
Definition empty_profiles : Profiles := {| profiles := ∅; request_counter := 0 |}.
Definition at_time (t : Instant) : nat -> Clock := fun _ _ => t.

Section evaluations.
Program Definition length_hash : StrHash := {| str_hash s := len s mod 2 ^ 64 |}.
Next Obligation. intros s. unfold u64_max. pose proof (Z.mod_pos_bound (len s) (2 ^ 64)). lia. Qed.
Let SH := length_hash.
Let FT := no_f32_text.
Let MO := canonical_order BehaviorKey IpProfile.
#[local] Existing Instances SH FT MO.

(** A client caught four times by the detectors. *)
Definition caught : Profiles :=
  run_calls default_config (replicate 4 (CallWafBlock (at_time 0) some_client)) empty_profiles.

Lemma ban_enforced_witness : exists s' ev,
  check_and_record default_config 0 (at_time 0) some_client (lit "/") (Some (lit "x")) [] caught = (s', BBlock, ev)
  /\ (check_and_record default_config 0 (at_time 0) some_client (lit "/") None [] s').1.2 = BBlock.
Proof.
  assert (check_and_record default_config 0 (at_time 0) some_client (lit "/") (Some (lit "x")) [] caught
     = ((check_and_record default_config 0 (at_time 0) some_client (lit "/") (Some (lit "x")) [] caught).1.1, BBlock,
        (check_and_record default_config 0 (at_time 0) some_client (lit "/") (Some (lit "x")) [] caught).2)) as E
    by (vm_compute; reflexivity).
  eexists _, _. split; [exact E|].
  destruct (ban_enforced default_config 0 (at_time 0) some_client (lit "/") (Some (lit "x")) [] caught _ _
              ltac:(vm_compute; discriminate) E) as (k & n & u & Hk & Hu & H).
  assert (0 < u) as H0 by (destruct Hu as [Hu| ->]; [exact Hu|vm_compute; reflexivity]).
  apply (H [] 0 (at_time 0) some_client (lit "/") None []); [constructor|intros ? ?; exact H0|exact Hk|].
  intros cs' Hs. apply suffix_nil_inv in Hs as ->. vm_compute. discriminate.
Defined.

Lemma scores_are_separate_witness :
  profiles (run_call default_config (CallWafBlock (at_time 0) some_client) empty_profiles)
    !! BJwtSub (lit "a") 1 = None.
Proof.
  rewrite (scores_are_separate default_config (CallWafBlock (at_time 0) some_client) empty_profiles (BJwtSub (lit "a") 1));
    [reflexivity|vm_compute; discriminate|decide_now].
Defined.

Lemma profiles_bounded_witness :
  Z.of_nat (size (cleanup_stale default_config 0 (profiles caught))) <= 1.
Proof.
  apply (profiles_bounded default_config (replicate 4 (CallWafBlock (at_time 0) some_client)) 0 0).
  vm_compute. discriminate.
Defined.

(** The cleaning of a table over its capacity looks at scores and idle times only: the profile of a
    client banned until the tenth minute is dropped after five idle minutes, and its next
    request is let through. *)
Example cleanup_drops_ban :
  let s := (check_and_record default_config 0 (at_time 0) some_client (lit "/") (Some (lit "x")) [] caught).1.1 in
  let m := <[BJwtSub (lit "b") 1 := profile_new (from_secs 301)]> (<[BJwtSub (lit "b") 2 := profile_new (from_secs 301)]> (profiles s)) in
  let s' := {| profiles := m; request_counter := 1000 |} in
  until_of (profiles s) (BNetwork (network_key some_client)) = Some (from_secs 600)
  /\ (check_and_record default_config (from_secs 301) (at_time (from_secs 301)) some_client (lit "/") (Some (lit "x")) [] s').1.2
     = BAllow.
Proof. vm_compute. split; reflexivity. Qed.
End evaluations.
