(* ===== verification/Abuse.v ===== *)
(** * Abuse engine ([src/abuse.rs])

    Quotas against credential stuffing, enumeration, sign-up and recovery floods, counted per
    fingerprint, session, subject and network of a site; rotation of networks under one
    fingerprint; and the challenges shown to browsers.  The ASN database is the class [Mmdb]; the
    hash of the header names the class [NameHash]; files and random bytes are arguments, and so are the
    readings of the clock, numbered in the order of the text. *)

From S2P Require Import Prelude Net ClientIp Window Shield.

Definition DEFAULT_STUFFING : Z := 10.
Definition DEFAULT_ENUMERATION : Z := 20.
Definition DEFAULT_SIGNUP : Z := 5.
Definition DEFAULT_RECOVER : Z := 5.
Definition DEFAULT_WINDOW_SECS : Z := 600.
Definition DEFAULT_CHALLENGE_SCORE : Z := 40.

(** [src/abuse.rs: const IP_ROTATE_NETWORKS + const MAX_KEYS + const SWEEP_EVERY + const MMDB_MAX_BYTES] *)
Definition IP_ROTATE_NETWORKS : Z := 3.
Definition MAX_KEYS : Z := 50000.
Definition SWEEP_EVERY : Z := 256.
Definition MMDB_MAX_BYTES : Z := 64 * 1024 * 1024.

(** ** Reasons and policies *)

(** [src/abuse.rs: enum AbuseReason] *)
Inductive AbuseReason : Set := RStuffing | REnumeration | RSignup | RRecover | RUaWeak | RIpRotate.

#[export] Instance AbuseReason_eq_dec : EqDecision AbuseReason.
Proof. solve_decision. Defined.

(** [src/abuse.rs: AbuseReason::as_str] *)
Definition reason_as_str (r : AbuseReason) : bytes :=
  match r with
  | RStuffing => "stuffing"
  | REnumeration => "enumeration"
  | RSignup => "signup"
  | RRecover => "recover"
  | RUaWeak => "ua_weak"
  | RIpRotate => "ip_rotate"
  end.

(** [src/abuse.rs: AbuseReason::points] *)
Definition points (r : AbuseReason) : Z :=
  match r with
  | RStuffing => 40
  | REnumeration => 30
  | RSignup => 25
  | RRecover => 25
  | RUaWeak => 5
  | RIpRotate => 15
  end.

(** [src/abuse.rs: fn format_reasons] *)
Definition format_reasons (reasons : list AbuseReason) : bytes := join [44] (map reason_as_str reasons).

(** [src/abuse.rs: enum ChallengeKind] *)
Inductive ChallengeKind : Set := CNone | CPow | CExternal.

#[export] Instance ChallengeKind_eq_dec : EqDecision ChallengeKind.
Proof. solve_decision. Defined.

Inductive AbuseError : Type :=
| BadChallenge (other : bytes) | MissingChallengeUrl | MmdbUnreadable | MmdbTooLarge | MmdbInvalid.

(** [src/abuse.rs: ChallengeKind::parse] *)
Definition challenge_parse (raw : bytes) : result AbuseError ChallengeKind :=
  let raw := trim raw in
  if raw =s "none" then Ok CNone
  else if raw =s "pow" then Ok CPow
  else if raw =s "external" then Ok CExternal
  else Err (BadChallenge raw).

(** The [maxminddb] reader: [None] when the bytes are no database, and the number of an address. *)
Class Mmdb : Type := {
  Reader : Type;
  from_source : bytes -> option Reader;
  lookup_asn : Reader -> IpAddr -> option Z;
}.

(** What the file system answers about a path. *)
Inductive FileRead : Type := NotAFile | Unreadable | FileBytes (b : bytes).

Section policy.
Context {DB : Mmdb}.

(** [src/abuse.rs: AsnDb::load] *)
Definition asn_load (file : FileRead) : result AbuseError (option Reader) :=
  match file with
  | NotAFile => Ok None
  | Unreadable => Err MmdbUnreadable
  | FileBytes b =>
      if MMDB_MAX_BYTES <? len b then Err MmdbTooLarge
      else reader ← ok_or MmdbInvalid (from_source b); Ok (Some reader)
  end.

(** [src/abuse.rs: AsnDb::lookup] *)
Definition asn_lookup (reader : Reader) (ip : IpAddr) : option Z := lookup_asn reader ip.

(** [src/abuse.rs: struct AbusePolicy] *)
Record AbusePolicy : Type := {
  stuffing_max : Z; enumeration_max : Z; signup_max : Z; recover_max : Z; window : Duration;
  challenge : ChallengeKind; challenge_url : option bytes; challenge_score : Z; mmdb : option Reader }.

(** [src/abuse.rs: struct AbuseFile] *)
Record AbuseFile : Type := {
  f_mmdb : option bytes; f_stuffing_max : option Z; f_enumeration_max : option Z; f_signup_max : option Z;
  f_recover_max : option Z; f_window_secs : option Z; f_challenge : option bytes;
  f_challenge_url : option bytes; f_challenge_score : option Z }.

(** [Path::join] of an absolute or relative text. *)
Definition path_join (base path : bytes) : bytes :=
  if starts_with path [47] then path
  else if is_empty base || ends_with base [47] then base ++ path
  else base ++ [47] ++ path.

(** [src/abuse.rs: AbuseFile::mmdb_path] *)
Definition mmdb_path (file : AbuseFile) (base_dir : bytes) : option bytes :=
  path_join base_dir <$> trimmed_nonempty (f_mmdb file).

(** [src/abuse.rs: AbuseFile::into_policy] [read] answers for the file of the path. *)
Definition into_policy (file : AbuseFile) (base_dir : bytes) (read : bytes -> FileRead)
  : result AbuseError AbusePolicy :=
  kind ← match f_challenge file with Some raw => challenge_parse raw | None => Ok CNone end;
  if bool_decide (kind = CExternal) && bool_decide (trimmed_nonempty (f_challenge_url file) = None)
  then Err MissingChallengeUrl
  else
    db ← match mmdb_path file base_dir with
         | Some path => asn_load (read path)
         | None => Ok None
         end;
    let at_least_one dflt o := Z.max (default dflt o) 1 in
    Ok {| stuffing_max := at_least_one DEFAULT_STUFFING (f_stuffing_max file);
          enumeration_max := at_least_one DEFAULT_ENUMERATION (f_enumeration_max file);
          signup_max := at_least_one DEFAULT_SIGNUP (f_signup_max file);
          recover_max := at_least_one DEFAULT_RECOVER (f_recover_max file);
          window := from_secs (at_least_one DEFAULT_WINDOW_SECS (f_window_secs file));
          challenge := kind;
          challenge_url := f_challenge_url file;
          challenge_score := default DEFAULT_CHALLENGE_SCORE (f_challenge_score file);
          mmdb := db |}.

(** ** Keys *)

(** [src/abuse.rs: enum QuotaKind] *)
Inductive QuotaKind : Set := Stuffing | Enumeration | Signup | Recover.

(** [src/abuse.rs: enum QuotaDim] *)
Inductive QuotaDim : Type := DFingerprint (fp : Z) | DSession (hash : Z) | DJwtSub (hash : Z) | DNetwork (ip : IpAddr).

(** [src/abuse.rs: struct QuotaKey] *)
Record QuotaKey : Type := { q_site : bytes; q_kind : QuotaKind; q_dim : QuotaDim }.

(** [src/abuse.rs: struct RotateKey] *)
Record RotateKey : Type := { r_site : bytes; r_fingerprint : Z }.

#[export] Instance QuotaKind_eq_dec : EqDecision QuotaKind.
Proof. solve_decision. Defined.
#[export] Instance QuotaDim_eq_dec : EqDecision QuotaDim.
Proof. solve_decision. Defined.
#[export] Instance QuotaKey_eq_dec : EqDecision QuotaKey.
Proof. solve_decision. Defined.
#[export] Instance RotateKey_eq_dec : EqDecision RotateKey.
Proof. solve_decision. Defined.

#[export] Program Instance QuotaKind_countable : Countable QuotaKind :=
  inj_countable' (fun k => match k with Stuffing => 0 | Enumeration => 1 | Signup => 2 | Recover => 3 end)
    (fun n => if n =? 0 then Stuffing else if n =? 1 then Enumeration else if n =? 2 then Signup else Recover) _.
Next Obligation. by intros []. Qed.
#[export] Program Instance QuotaDim_countable : Countable QuotaDim :=
  inj_countable'
    (fun d => match d with DFingerprint f => inl (0, f) | DSession h => inl (1, h) | DJwtSub h => inl (2, h)
              | DNetwork ip => inr ip end)
    (fun x : Z * Z + IpAddr =>
       match x with
       | inl (t, v) => if t =? 0 then DFingerprint v else if t =? 1 then DSession v else DJwtSub v
       | inr ip => DNetwork ip end) _.
Next Obligation. by intros []. Qed.
#[export] Program Instance QuotaKey_countable : Countable QuotaKey :=
  inj_countable' (fun k => (q_site k, q_kind k, q_dim k))
    (fun '(s, k, d) => {| q_site := s; q_kind := k; q_dim := d |}) _.
Next Obligation. by intros []. Qed.
#[export] Program Instance RotateKey_countable : Countable RotateKey :=
  inj_countable' (fun k => (r_site k, r_fingerprint k)) (fun '(s, f) => {| r_site := s; r_fingerprint := f |}) _.
Next Obligation. by intros []. Qed.

(** [src/abuse.rs: fn identity_dims] *)
Definition identity_dims (i : RiskIdentity) : list QuotaDim :=
  match tls_fingerprint i with Some fp => [DFingerprint fp] | None => [] end
  ++ match http_fingerprint i with
     | Some fp => if bool_decide (tls_fingerprint i = Some fp) then [] else [DFingerprint fp]
     | None => [] end
  ++ match session_hash i with Some h => [DSession h] | None => [] end
  ++ match jwt_sub_hash i with Some h => [DJwtSub h] | None => [] end
  ++ [DNetwork (network i)].

Definition quota_keys (i : RiskIdentity) (kind : QuotaKind) : list QuotaKey :=
  map (fun dim => {| q_site := site i; q_kind := kind; q_dim := dim |}) (identity_dims i).

(** The default hasher fed with the names, each followed by a zero byte. *)
Class NameHash : Type := { hash_names : list bytes -> Z }.

(** [src/abuse.rs: fn http_fingerprint] *)
Definition http_fingerprint_of `{NameHash} (header_names : list bytes) : Z :=
  hash_names (map to_ascii_lowercase header_names).

(** ** Paths *)

(** [src/abuse.rs: fn is_stuffing_path] *)
Definition is_stuffing_path (method path : bytes) : bool :=
  eq_ignore_ascii_case method "POST"
  && (one_of path ["/login"; "/auth/token"; "/auth/login"; "/session"] || starts_with path (lit "/login/")).

(** [src/abuse.rs: fn is_enumeration_path] *)
Definition is_enumeration_path (path : bytes) : bool :=
  match base.filter (fun part => is_empty part = false) (split_on 47 path) with
  | [first; _] => one_of first ["users"; "accounts"]
  | _ => false
  end.

(** [src/abuse.rs: fn is_signup_path] *)
Definition is_signup_path (method path : bytes) : bool :=
  eq_ignore_ascii_case method "POST" && one_of path ["/signup"; "/register"; "/auth/register"].

(** [src/abuse.rs: fn is_recover_path] *)
Definition is_recover_path (method path : bytes) : bool :=
  eq_ignore_ascii_case method "POST"
  && one_of path ["/recover-password"; "/forgot-password"; "/password/reset"; "/auth/recover"].

(** [src/abuse.rs: fn skip_html_challenge] *)
Definition skip_html_challenge (accept content_type : option bytes) (has_jwt : bool) : bool :=
  if has_jwt then true
  else if match content_type with
          | Some v => starts_with (to_ascii_lowercase v) (lit "application/json")
          | None => false end then true
  else
    let accept := to_ascii_lowercase (default [] accept) in
    contains accept (lit "application/json") && negb (contains accept (lit "text/html")).

Definition accepts_html (accept : option bytes) : bool :=
  contains (to_ascii_lowercase (default [] accept)) (lit "text/html").

(** [src/abuse.rs: fn wants_html_challenge] *)
Definition wants_html_challenge (kind : ChallengeKind) (accept content_type : option bytes) (has_jwt : bool) : bool :=
  if bool_decide (kind = CNone) then false
  else if skip_html_challenge accept content_type has_jwt then false
  else accepts_html accept.

(** ** The engine *)

(** [src/abuse.rs: struct AbuseEngine] *)
Record AbuseEngine : Type := {
  counters : gmap QuotaKey (list Instant);
  rotations : gmap RotateKey (gset IpAddr);
  hits : Z;
}.

(** [src/abuse.rs: AbuseEngine::new] *)
Definition engine_new : AbuseEngine := {| counters := ∅; rotations := ∅; hits := 0 |}.

(** [src/abuse.rs: enum AbuseVerdict] *)
Inductive AbuseVerdict : Type := AbuseAllow | AbuseBlock (reasons : list AbuseReason) (challenge : bool).

(** [src/abuse.rs: struct AbuseRequest] *)
Record AbuseRequest : Type := {
  method : bytes; path : bytes; ua : option bytes; accept : option bytes; content_type : option bytes;
  has_jwt : bool }.

Definition with_counters (e : AbuseEngine) (m : gmap QuotaKey (list Instant)) : AbuseEngine :=
  {| counters := m; rotations := rotations e; hits := hits e |}.

(** The loop of [hit]; [clk] are its readings. *)
Fixpoint hit_keys (clk : nat -> Instant) (keys : list QuotaKey) (m : gmap QuotaKey (list Instant))
  : gmap QuotaKey (list Instant) :=
  match keys with
  | [] => m
  | k :: keys => hit_keys (fun n => clk (S n)) keys (<[k := row m k ++ [clk O]]> m)
  end.

(** [src/abuse.rs: AbuseEngine::hit] *)
Definition hit (clk : nat -> Instant) (i : RiskIdentity) (kind : QuotaKind) (e : AbuseEngine) : AbuseEngine :=
  with_counters e (hit_keys clk (quota_keys i kind) (counters e)).

Fixpoint over_keys (now : Instant) (max : Z) (window : Duration) (keys : list QuotaKey)
    (m : gmap QuotaKey (list Instant)) : gmap QuotaKey (list Instant) * bool :=
  match keys with
  | [] => (m, false)
  | k :: keys =>
      match m !! k with
      | Some times =>
          let times := retain_window id window now times in
          let m := <[k := times]> m in
          if max <=? len times mod 2 ^ 32 then (m, true) else over_keys now max window keys m
      | None => over_keys now max window keys m
      end
  end.

(** [src/abuse.rs: AbuseEngine::over] *)
Definition over (now : Instant) (i : RiskIdentity) (kind : QuotaKind) (max : Z) (window : Duration)
    (e : AbuseEngine) : AbuseEngine * bool :=
  let '(m, b) := over_keys now max window (quota_keys i kind) (counters e) in (with_counters e m, b).

(** [src/abuse.rs: AbuseEngine::note_rotation] *)
Definition note_rotation (i : RiskIdentity) (e : AbuseEngine) : AbuseEngine :=
  match preferred_fingerprint i with
  | None => e
  | Some fp =>
      let key := {| r_site := site i; r_fingerprint := fp |} in
      let networks := default ∅ (rotations e !! key) in
      let networks := if Z.of_nat (size networks) <? 32 then {[network i]} ∪ networks else networks in
      {| counters := counters e; rotations := <[key := networks]> (rotations e); hits := hits e |}
  end.

(** [src/abuse.rs: AbuseEngine::rotated] *)
Definition rotated (i : RiskIdentity) (e : AbuseEngine) : bool :=
  match preferred_fingerprint i with
  | None => false
  | Some fp =>
      match rotations e !! {| r_site := site i; r_fingerprint := fp |} with
      | Some networks => IP_ROTATE_NETWORKS <=? Z.of_nat (size networks)
      | None => false
      end
  end.

(** [src/abuse.rs: AbuseEngine::maybe_sweep] *)
Definition maybe_sweep (now : Instant) (window : Duration) (e : AbuseEngine) : AbuseEngine :=
  let n := hits e in
  let e := {| counters := counters e; rotations := rotations e; hits := (n + 1) mod 2 ^ 64 |} in
  if negb (n mod SWEEP_EVERY =? 0) then e
  else
    let m := sweep id window now (counters e) in
    {| counters := if MAX_KEYS <? Z.of_nat (size m) then ∅ else m;
       rotations := if MAX_KEYS <? Z.of_nat (size (rotations e)) then ∅ else rotations e;
       hits := hits e |}.

(** A quota on a path of its own: over it, or count the request if it is on the path. *)
Definition quota_step (now : Instant) (clk : nat -> Instant) (i : RiskIdentity) (kind : QuotaKind) (max : Z)
    (window : Duration) (on_path : bool) (e : AbuseEngine) : AbuseEngine * bool :=
  let '(e, b) := over now i kind max window e in
  if b then (e, true) else if on_path then (hit clk i kind e, false) else (e, false).

Definition reason_if (b : bool) (r : AbuseReason) : list AbuseReason := if b then [r] else [].

(** What is decided from the reasons. *)
Definition decide_verdict (policy : AbusePolicy) (request : AbuseRequest) (path : bytes)
    (reasons : list AbuseReason) : AbuseVerdict :=
  let score := fold_right Z.add 0 (map points reasons) in
  let has r := bool_decide (r ∈ reasons) in
  let path_block :=
    (has RStuffing && is_stuffing_path (method request) path)
    || (has REnumeration && is_enumeration_path path)
    || (has RSignup && is_signup_path (method request) path)
    || (has RRecover && is_recover_path (method request) path) in
  let over_score := (challenge_score policy <=? score) && (0 <? challenge_score policy) in
  if negb path_block && negb over_score then AbuseAllow
  else if path_block then
    AbuseBlock reasons
      (wants_html_challenge (challenge policy) (accept request) (content_type request) (has_jwt request))
  else if skip_html_challenge (accept request) (content_type request) (has_jwt request)
          || negb (accepts_html (accept request)) || bool_decide (challenge policy = CNone)
  then AbuseAllow
  else AbuseBlock reasons true.

(** [src/abuse.rs: AbuseEngine::inspect] *)
Definition inspect (clk : nat -> Instant) (policy : AbusePolicy) (i : RiskIdentity) (request : AbuseRequest)
    (e : AbuseEngine) : AbuseEngine * AbuseVerdict :=
  let e := maybe_sweep (clk 0%nat) (window policy) e in
  let e := note_rotation i e in
  let path := before 63 (path request) in
  let '(e, stuffing) := over (clk 1%nat) i Stuffing (stuffing_max policy) (window policy) e in
  let '(e, enumeration) := over (clk 2%nat) i Enumeration (enumeration_max policy) (window policy) e in
  let '(e, signup) :=
    quota_step (clk 3%nat) (fun n => clk (4 + n)%nat) i Signup (signup_max policy) (window policy)
      (is_signup_path (method request) path) e in
  let '(e, recover) :=
    quota_step (clk 10%nat) (fun n => clk (11 + n)%nat) i Recover (recover_max policy) (window policy)
      (is_recover_path (method request) path) e in
  let reasons :=
    reason_if stuffing RStuffing ++ reason_if enumeration REnumeration ++ reason_if signup RSignup
    ++ reason_if recover RRecover
    ++ reason_if (match ua request with Some ua => ua_is_weak ua | None => false end) RUaWeak
    ++ reason_if (rotated i e) RIpRotate in
  (e, decide_verdict policy request path reasons).

(** [src/abuse.rs: AbuseEngine::record_origin_status] *)
Definition record_origin_status (clk : nat -> Instant) (i : RiskIdentity) (method path : bytes) (status : Z)
    (e : AbuseEngine) : AbuseEngine :=
  let path := before 63 path in
  let e := if (status =? 401) && is_stuffing_path method path then hit clk i Stuffing e else e in
  if (status =? 404) && is_enumeration_path path then hit (fun n => clk (10 + n)%nat) i Enumeration e else e.

(** ** Challenges *)

(** A text in which the backquote stands for the double quote. *)
Definition html (lines : list string) : bytes :=
  flat_map (fun line => map (fun c => if c =? 96 then 34 else c) (lit line) ++ [10]) lines.

(** [char::escape]s of the attribute: [s.replace(c, by)]. *)
Definition replace_char (c : Z) (by_ s : bytes) : bytes := flat_map (fun b => if b =? c then by_ else [b]) s.

Definition escape_attribute (url : bytes) : bytes :=
  replace_char 34 (lit "&quot;") (replace_char 62 (lit "&gt;") (replace_char 60 (lit "&lt;")
    (replace_char 38 (lit "&amp;") url))).

(** [src/abuse.rs: fn external_html] *)
Definition external_html (url : bytes) : bytes :=
  html ["<!DOCTYPE html>";
        "<html lang=`pt-BR`>";
        "<head>";
        "<meta charset=`UTF-8`>";
        "<meta name=`viewport` content=`width=device-width, initial-scale=1.0`>";
        "<title>Verificação</title>";
        "</head>";
        "<body>";
        "<p>Complete a verificação e volte a esta página.</p>"]
  ++ lit "<p><a href=" ++ [34] ++ escape_attribute url ++ [34] ++ lit ">Abrir verificação</a></p>" ++ [10]
  ++ html ["</body>"; "</html>"].

(** [format!("{byte:02x}")] *)
Definition hex_byte (b : Z) : bytes :=
  let d n := if n <? 10 then 48 + n else 87 + n in [d (b / 16); d (b mod 16)].

(** [src/abuse.rs: fn random_nonce] [None] when the generator fails. *)
Definition random_nonce (random : option bytes) : bytes :=
  match random with Some buf => flat_map hex_byte buf | None => "ferroada" end.

(** [src/abuse.rs: fn pow_html] *)
Definition pow_html (random : option bytes) : bytes :=
  html ["<!DOCTYPE html>";
        "<html lang=`pt-BR`>";
        "<head>";
        "<meta charset=`UTF-8`>";
        "<meta name=`viewport` content=`width=device-width, initial-scale=1.0`>";
        "<title>Verificação</title>";
        "</head>";
        "<body>";
        "<p>Confirme que não é automação. Isto pode levar alguns segundos.</p>";
        "<noscript><p>Ative o JavaScript ou recarregue daqui a alguns minutos.</p></noscript>";
        "<script>"]
  ++ lit "const nonce = " ++ [34] ++ random_nonce random ++ [34] ++ lit ";" ++ [10]
  ++ html ["const bits = 16;";
           "const status = document.createElement('p');";
           "document.body.appendChild(status);";
           "async function solve() {";
           "  if (!window.crypto || !crypto.subtle) {";
           "    status.textContent = 'Este navegador não consegue concluir a verificação. Recarregue daqui a alguns minutos.';";
           "    return;";
           "  }";
           "  const enc = new TextEncoder();";
           "  try {";
           "    for (let n = 0; n < 50000000; n++) {";
           "      const buf = await crypto.subtle.digest('SHA-256', enc.encode(nonce + ':' + n));";
           "      const view = new DataView(buf);";
           "      if ((view.getUint32(0) >>> (32 - bits)) === 0) {";
           "        status.textContent = 'Verificação local concluída. Recarregue a página. Se o acesso continuar bloqueado, aguarde alguns minutos.';";
           "        return;";
           "      }";
           "    }";
           "    status.textContent = 'Não foi possível concluir a verificação. Recarregue a página.';";
           "  } catch (err) {";
           "    status.textContent = 'A verificação falhou. Recarregue daqui a alguns minutos.';";
           "  }";
           "}";
           "solve();";
           "</script>";
           "</body>";
           "</html>"].

(** [src/abuse.rs: fn plain_block_body] *)
Definition plain_block_body (reasons : list AbuseReason) : bytes :=
  lit "403 Proibido: abuso (" ++ format_reasons reasons ++ lit ")" ++ [10].

(** [src/abuse.rs: fn render_challenge] The content type and the body. *)
Definition render_challenge (policy : AbusePolicy) (reasons : list AbuseReason) (random : option bytes)
  : bytes * bytes :=
  match challenge policy with
  | CPow => (lit "text/html; charset=utf-8", pow_html random)
  | CExternal =>
      (lit "text/html; charset=utf-8", external_html (default (lit "https://invalid.invalid/") (challenge_url policy)))
  | CNone => (lit "text/plain; charset=utf-8", plain_block_body reasons)
  end.

(** [src/abuse.rs: fn record_block] *)
Definition abuse_record_block (site ip uri : bytes) (reasons : list AbuseReason) (challenge : bool) : BlockEvent :=
  let detail := format_reasons reasons in
  let detail := if challenge then detail ++ (if is_empty detail then [] else [44]) ++ lit "challenge" else detail in
  record_block_in site "abuse" ip uri detail.

End policy.

(** ** Sign-up and recovery quotas *)

Section quotas.
Context {DB : Mmdb}.

(** A call to the engine, by any request. *)
Inductive AbuseCall : Type :=
| CallInspect (clk : nat -> Instant) (policy : AbusePolicy) (i : RiskIdentity) (request : AbuseRequest)
| CallOrigin (clk : nat -> Instant) (i : RiskIdentity) (method path : bytes) (status : Z).

Definition call_clock (c : AbuseCall) : nat -> Instant :=
  match c with CallInspect clk _ _ _ | CallOrigin clk _ _ _ _ => clk end.

Definition run_abuse (c : AbuseCall) (e : AbuseEngine) : AbuseEngine :=
  match c with
  | CallInspect clk policy i request => (inspect clk policy i request e).1
  | CallOrigin clk i method path status => record_origin_status clk i method path status e
  end.

(** The two kinds counted by [inspect] itself: their path, their limit and the reading that dates a request. *)
Definition on_path (kind : QuotaKind) (request : AbuseRequest) : bool :=
  match kind with
  | Signup => is_signup_path (method request) (before 63 (path request))
  | Recover => is_recover_path (method request) (before 63 (path request))
  | _ => false
  end.
Definition max_of (kind : QuotaKind) (policy : AbusePolicy) : Z :=
  match kind with Signup => signup_max policy | _ => recover_max policy end.
Definition reading_of (kind : QuotaKind) : nat := match kind with Signup => 3 | _ => 10 end.

(** The dates of the requests let through on the path of [q_kind k] by identities counted under [k]. *)
Fixpoint accepted (k : QuotaKey) (cs : list AbuseCall) (e : AbuseEngine) : list Instant :=
  match cs with
  | [] => []
  | c :: cs =>
      match c with
      | CallInspect clk policy i request =>
          match (inspect clk policy i request e).2 with
          | AbuseAllow => if on_path (q_kind k) request && bool_decide (k ∈ quota_keys i (q_kind k))
                          then [clk (reading_of (q_kind k))] else []
          | AbuseBlock _ _ => []
          end
      | CallOrigin _ _ _ _ _ => []
      end ++ accepted k cs (run_abuse c e)
  end.

(** The readings of the clock never go back. *)
Fixpoint ordered (now : Instant) (cs : list AbuseCall) : Prop :=
  match cs with
  | [] => True
  | c :: cs => now <= call_clock c 0%nat /\ (forall i j, (i <= j)%nat -> call_clock c i <= call_clock c j)
               /\ ordered (call_clock c 20%nat) cs
  end.

(** The table never holds more keys than the engine keeps. *)
Fixpoint within_keys (cs : list AbuseCall) (e : AbuseEngine) : Prop :=
  Z.of_nat (size (counters e)) <= MAX_KEYS
  /\ match cs with [] => True | c :: cs => within_keys cs (run_abuse c e) end.

(** One policy per site, and one window for all. *)
Definition agrees (w : Duration) (k : QuotaKey) (max : Z) (c : AbuseCall) : Prop :=
  match c with
  | CallInspect _ policy i _ => window policy = w /\ (site i = q_site k -> max_of (q_kind k) policy = max)
  | CallOrigin _ _ _ _ _ => True
  end.

(** [r'] shows at [now] and later the same records as [r]. *)
Definition same_view (w : Duration) (now : Instant) (r r' : list Instant) : Prop :=
  (forall t, now <= t -> retain_window id w t r' = retain_window id w t r) /\ len r' <= len r.

Lemma same_view_refl w now r : same_view w now r r.
Proof. done. Qed.

Lemma same_view_trans w n1 n2 r1 r2 r3 : n1 <= n2 -> same_view w n1 r1 r2 -> same_view w n2 r2 r3 -> same_view w n2 r1 r3.
Proof. intros Hn (H1 & H2) (H3 & H4). split; [|lia]. intros t Ht. rewrite H3, H1 by lia. done. Qed.

Lemma same_view_later w n1 n2 r r' : n1 <= n2 -> same_view w n1 r r' -> same_view w n2 r r'.
Proof. intros Hn (H1 & H2). split; [|done]. intros t Ht. apply H1. lia. Qed.

Lemma same_view_retain w now r : same_view w now r (retain_window id w now r).
Proof. split; [|apply retain_length]. intros t Ht. by apply retain_retain. Qed.

Lemma over_keys_row now max w keys : forall m k, same_view w now (row m k) (row (over_keys now max w keys m).1 k).
Proof.
  induction keys as [|x keys IH]; intros m k; cbn [over_keys]; [apply same_view_refl|].
  destruct (m !! x) as [l|] eqn:E; [|apply IH].
  assert (same_view w now (row m k) (row (<[x:=retain_window id w now l]> m) k)) as H.
  { rewrite row_insert. case_decide as Hx; [|apply same_view_refl]. subst x. unfold row. rewrite E. apply same_view_retain. }
  destruct (_ <=? _); cbn [fst]; [done|]. eapply same_view_trans; [|exact H|apply IH]. lia.
Qed.

(** A key found under its limit has been restricted to the window. *)
Lemma over_keys_under now max w keys : forall m k, k ∈ keys -> (over_keys now max w keys m).2 = false ->
  len (retain_window id w now (row m k)) < 2 ^ 32 -> 0 < max -> len (retain_window id w now (row m k)) < max.
Proof.
  induction keys as [|x keys IH]; intros m k Hk; [by apply not_elem_of_nil in Hk|]. cbn [over_keys].
  destruct (m !! x) as [l|] eqn:E.
  - destruct (Z.leb_spec max (len (retain_window id w now l) mod 2 ^ 32)) as [L|L]; [done|].
    intros Hb Hs Hm. destruct (decide (k = x)) as [->|Hx].
    + unfold row in *. rewrite E in *. cbn [default] in *.
      rewrite Z.mod_small in L by (split; [apply len_nonneg|done]). done.
    + apply elem_of_cons in Hk as [?|Hk]; [done|]. specialize (IH _ k Hk Hb).
      rewrite row_insert, decide_False in IH by done. by apply IH.
  - intros Hb Hs Hm. apply elem_of_cons in Hk as [->|Hk]; [|by apply (IH m k Hk)].
    unfold row. rewrite E. done.
Qed.

Lemma hit_keys_other clk keys : forall m k, k ∉ keys -> row (hit_keys clk keys m) k = row m k.
Proof.
  revert clk. induction keys as [|x keys IH]; intros clk m k Hk; cbn [hit_keys]; [done|].
  apply not_elem_of_cons in Hk as (Hx & Hk). rewrite IH by done. by rewrite row_insert, decide_False.
Qed.

Lemma hit_keys_row clk keys : NoDup keys -> forall m k, k ∈ keys ->
  exists n, (n < length keys)%nat /\ row (hit_keys clk keys m) k = row m k ++ [clk n].
Proof.
  intros Hnd. revert clk. induction Hnd as [|x keys Hx Hnd IH]; intros clk m k Hk; [by apply not_elem_of_nil in Hk|].
  cbn [hit_keys]. destruct (decide (k = x)) as [->|Hne].
  - exists 0%nat. split; [cbn; lia|]. rewrite hit_keys_other by done. by rewrite row_insert, decide_True.
  - apply elem_of_cons in Hk as [?|Hk]; [done|]. destruct (IH (fun n => clk (S n)) (<[x:=row m x ++ [clk 0%nat]]> m) k Hk) as (n & Hn & E).
    exists (S n). split; [cbn; lia|]. rewrite E, row_insert, decide_False by done. done.
Qed.

Lemma identity_dims_nodup i : NoDup (identity_dims i).
Proof.
  unfold identity_dims.
  destruct (tls_fingerprint i), (http_fingerprint i), (session_hash i), (jwt_sub_hash i);
    try case_bool_decide; cbn;
    repeat (constructor; [rewrite ?not_elem_of_cons; repeat split; try discriminate; try apply not_elem_of_nil; naive_solver|]);
    constructor.
Qed.

Lemma quota_keys_nodup i kind : NoDup (quota_keys i kind).
Proof.
  unfold quota_keys. apply NoDup_fmap_2; [|apply identity_dims_nodup]. intros x y. by intros [= ->].
Qed.

Lemma quota_keys_length i kind : (length (quota_keys i kind) <= 5)%nat.
Proof.
  unfold quota_keys, identity_dims. rewrite length_map, !length_app.
  destruct (tls_fingerprint i), (http_fingerprint i), (session_hash i), (jwt_sub_hash i);
    try case_bool_decide; cbn; lia.
Qed.

Lemma quota_keys_spec i kind k : k ∈ quota_keys i kind ->
  q_kind k = kind /\ q_site k = site i.
Proof. unfold quota_keys. intros (d & -> & _)%list_elem_of_fmap. done. Qed.

(** A quota step on the row of a key. *)
Lemma quota_step_row now clk i kind max w onp e k :
  let r := row (counters e) k in
  let '(e', b) := quota_step now clk i kind max w onp e in
  exists x, same_view w now r x
    /\ (row (counters e') k = x /\ (k ∈ quota_keys i kind -> b = true \/ onp = false)
        \/ k ∈ quota_keys i kind /\ onp = true /\ b = false
           /\ (len (retain_window id w now r) < 2 ^ 32 -> 0 < max -> len (retain_window id w now r) < max)
           /\ exists n, (n < 5)%nat /\ row (counters e') k = x ++ [clk n]).
Proof.
  intros r. unfold quota_step, over.
  pose proof (over_keys_row now max w (quota_keys i kind) (counters e) k) as H1.
  pose proof (over_keys_under now max w (quota_keys i kind) (counters e) k) as H2.
  destruct (over_keys _ _ _ _ _) as [m b]. cbn [fst snd] in *.
  destruct b; cbn; [exists (row m k); by auto|]. destruct onp; cbn; exists (row m k); [|by auto].
  destruct (decide (k ∈ quota_keys i kind)) as [Hk|Hk].
  - split; [done|]. right. destruct (hit_keys_row clk _ (quota_keys_nodup i kind) m k Hk) as (n & Hn & E).
    pose proof (quota_keys_length i kind). repeat split; [done|by apply H2|]. exists n. split; [lia|done].
  - split; [done|]. left. by rewrite hit_keys_other.
Qed.

Lemma maybe_sweep_row now w e k : Z.of_nat (size (counters e)) <= MAX_KEYS ->
  same_view w now (row (counters e) k) (row (counters (maybe_sweep now w e)) k).
Proof.
  intros Hs. unfold maybe_sweep. destruct (negb _); cbn [counters]; [apply same_view_refl|].
  pose proof (sweep_size id w now (counters e)). rewrite (proj2 (Z.ltb_ge _ _)) by lia.
  rewrite sweep_row_row. apply same_view_retain.
Qed.

Lemma note_rotation_counters i e : counters (note_rotation i e) = counters e.
Proof. unfold note_rotation. by destruct (preferred_fingerprint i). Qed.

(** A request on the path of a quota it exceeds is refused. *)
Lemma decide_verdict_blocks policy request reasons kind : kind = Signup \/ kind = Recover ->
  on_path kind request = true ->
  (match kind with Signup => RSignup | _ => RRecover end) ∈ reasons ->
  decide_verdict policy request (before 63 (path request)) reasons <> AbuseAllow.
Proof.
  intros Hk Hp Hr. unfold decide_verdict.
  match goal with |- context [negb ?b && negb ?o] => assert (b = true) as -> end; [|done].
  destruct Hk as [-> | ->]; cbn in Hp, Hr; rewrite (bool_decide_eq_true_2 _ Hr), Hp; by rewrite ?orb_true_r.
Qed.

(** The row of a key through [inspect]. *)
Lemma inspect_row clk policy i request e k : q_kind k = Signup \/ q_kind k = Recover ->
  (forall i j, (i <= j)%nat -> clk i <= clk j) -> Z.of_nat (size (counters e)) <= MAX_KEYS ->
  let K := q_kind k in let now := clk (reading_of K) in let w := window policy in
  let r := row (counters e) k in let '(e', v) := inspect clk policy i request e in
  exists x, same_view w now r x
    /\ (same_view w (clk 20%nat) x (row (counters e') k)
          /\ (k ∈ quota_keys i K -> on_path K request = true -> v <> AbuseAllow)
        \/ k ∈ quota_keys i K /\ on_path K request = true
           /\ (len (retain_window id w now r) < 2 ^ 32 -> 0 < max_of K policy ->
               len (retain_window id w now r) < max_of K policy)
           /\ exists n, (reading_of K <= n <= 20)%nat
                /\ same_view w (clk 20%nat) (x ++ [clk n]) (row (counters e') k)).
Proof.
  intros HK Hclk Hs K now w r. unfold inspect.
  pose proof (maybe_sweep_row (clk 0%nat) w e k Hs) as V0.
  set (e0 := maybe_sweep _ _ e) in *. rewrite <- (note_rotation_counters i e0) in V0.
  set (e1 := note_rotation i e0) in *. subst w.
  unfold over at 1. pose proof (over_keys_row (clk 1%nat) (stuffing_max policy) (window policy) (quota_keys i Stuffing) (counters e1) k) as V1.
  destruct (over_keys _ _ _ (quota_keys i Stuffing) _) as [m1 b1]. cbn [fst] in V1.
  unfold over at 1. cbn [with_counters counters].
  pose proof (over_keys_row (clk 2%nat) (enumeration_max policy) (window policy) (quota_keys i Enumeration) m1 k) as V2.
  destruct (over_keys _ _ _ (quota_keys i Enumeration) _) as [m2 b2]. cbn [fst] in V2.
  match goal with |- context [quota_step (clk 3%nat) ?c i Signup ?mx ?wd ?onp ?e'] =>
    pose proof (quota_step_row (clk 3%nat) c i Signup mx wd onp e' k) as V3; destruct (quota_step (clk 3%nat) c i Signup mx wd onp e') as [e3 b3] end.
  cbn [with_counters counters] in V3.
  match goal with |- context [quota_step (clk 10%nat) ?c i Recover ?mx ?wd ?onp ?e'] =>
    pose proof (quota_step_row (clk 10%nat) c i Recover mx wd onp e' k) as V4; destruct (quota_step (clk 10%nat) c i Recover mx wd onp e') as [e4 b4] end.
  assert (same_view (window policy) (clk 2%nat) r (row m2 k)) as V.
  { eapply same_view_trans; [apply (Hclk 1%nat 2%nat); lia| |exact V2].
    eapply same_view_trans; [apply (Hclk 0%nat 1%nat); lia|exact V0|exact V1]. }
  clear V0 V1 V2. clearbody e1. subst K now r.
  destruct HK as [HK|HK]; rewrite HK; cbn [reading_of max_of on_path].
  - destruct V4 as (x4 & W4 & D4).
    assert (same_view (window policy) (clk 20%nat) (row (counters e3) k) (row (counters e4) k)) as W.
    { destruct D4 as [(E & _)|(Hk & _)]; [|by apply quota_keys_spec in Hk as (? & _); congruence].
      rewrite E. eapply same_view_later; [|exact W4]. apply Hclk. lia. }
    destruct V3 as (x3 & W3 & D3). exists x3.
    assert (same_view (window policy) (clk 3%nat) (row (counters e) k) x3) as Vx.
    { eapply same_view_trans; [apply (Hclk 2%nat 3%nat); lia|exact V|exact W3]. }
    assert (retain_window id (window policy) (clk 3%nat) (row (counters e) k)
            = retain_window id (window policy) (clk 3%nat) (row m2 k)) as Er.
    { symmetry. apply V, Hclk. lia. }
    split; [done|]. destruct D3 as [(E & Hb)|(Hk & Ho & Hb & Hlt & n & Hn & E)].
    + left. rewrite <- E. split; [done|]. intros Hk Hp. apply (decide_verdict_blocks _ _ _ Signup); [by left|done|].
      destruct (Hb Hk) as [-> | Hf]; [cbn [reason_if]; set_solver|]. cbn [on_path] in Hp. congruence.
    + right. split; [done|]. split; [done|]. split; [by rewrite Er|]. exists (4 + n)%nat. split; [lia|]. by rewrite <- E.
  - destruct V3 as (x3 & W3 & D3).
    assert (same_view (window policy) (clk 10%nat) (row (counters e) k) (row (counters e3) k)) as Vx.
    { destruct D3 as [(E & _)|(Hk & _)]; [|by apply quota_keys_spec in Hk as (? & _); congruence].
      rewrite E. eapply same_view_later, same_view_trans; [| |exact V|exact W3]; apply Hclk; lia. }
    destruct V4 as (x4 & W4 & D4). exists x4.
    assert (retain_window id (window policy) (clk 10%nat) (row (counters e) k)
            = retain_window id (window policy) (clk 10%nat) (row (counters e3) k)) as Er.
    { symmetry. by apply Vx. }
    split; [eapply same_view_trans; [|exact Vx|exact W4]; lia|].
    destruct D4 as [(E & Hb)|(Hk & Ho & Hb & Hlt & n & Hn & E)].
    + left. rewrite <- E. split; [apply same_view_refl|]. intros Hk Hp.
      apply (decide_verdict_blocks _ _ _ Recover); [by right|done|].
      destruct (Hb Hk) as [-> | Hf]; [cbn [reason_if]; set_solver|]. cbn [on_path] in Hp. congruence.
    + right. split; [done|]. split; [done|]. split; [by rewrite Er|]. exists (11 + n)%nat. split; [lia|].
      rewrite <- E. apply same_view_refl.
Qed.

(** *** The invariant *)

Context (w : Duration) (max : Z) (Hmax : 0 < max < 2 ^ 32).

Record quota_ok (now : Instant) (adm r : list Instant) : Prop := {
  qo_past : Forall (fun t => t <= now) adm;
  qo_kept : forall t, now <= t -> len (retain_window id w t adm) <= len (retain_window id w t r);
  qo_row : len (retain_window id w now r) <= max;
  qo_bound : forall a, len (base.filter (within a w) adm) <= max;
}.

Lemma quota_ok_view n1 n2 adm r r' : n1 <= n2 -> same_view w n2 r r' -> quota_ok n1 adm r -> quota_ok n2 adm r'.
Proof.
  intros Hn (V & _) [P S L B]. constructor; [|intros t Ht; rewrite V by done; apply S; lia| |done].
  - eapply Forall_impl; [exact P|]. cbn. intros; lia.
  - rewrite V by done. rewrite <- (retain_retain id w n1 n2) by done.
    pose proof (retain_length id w n2 (retain_window id w n1 r)). lia.
Qed.

Lemma quota_ok_hit n th adm adm' x : n <= th -> quota_ok n adm x -> len (retain_window id w n x) < max ->
  adm' = [n] \/ adm' = [] -> quota_ok th (adm ++ adm') (x ++ [th]).
Proof.
  intros Hn [P S L B] Hlt Ha. constructor.
  - apply Forall_app. split; [eapply Forall_impl; [exact P|]; cbn; intros; lia|].
    destruct Ha as [-> | ->]; repeat constructor. done.
  - intros t Ht. rewrite !retain_app, !len_app. specialize (S t ltac:(lia)).
    assert (len (retain_window id w t adm') <= len (retain_window id w t [th])); [|lia].
    destruct Ha as [-> | ->]; [|apply len_nonneg].
    unfold retain_window. rewrite !filter_cons, !filter_nil. destruct (decide (live id w t n)) as [Hl|Hl].
    + rewrite decide_True; [done|]. unfold live, duration_since, id in *. lia.
    + apply len_nonneg.
  - rewrite retain_app, len_app. rewrite <- (retain_retain id w n th) by done.
    pose proof (retain_length id w th (retain_window id w n x)). pose proof (retain_length id w th [th]).
    change (len [th]) with 1 in *. lia.
  - intros a. rewrite filter_app, len_app. destruct Ha as [-> | ->].
    2: { rewrite filter_nil. change (len (@nil Z)) with 0. specialize (B a). lia. }
    rewrite filter_cons, filter_nil. case_decide as Hw.
    + pose proof (sublist_len _ _ (within_retained a w n adm P Hw)). specialize (S n ltac:(lia)).
      change (len [n]) with 1. lia.
    + change (len (@nil Z)) with 0. specialize (B a). lia.
Qed.

Lemma accepted_bound k cs : q_kind k = Signup \/ q_kind k = Recover -> forall now adm e,
  ordered now cs -> within_keys cs e -> Forall (agrees w k max) cs ->
  quota_ok now adm (row (counters e) k) ->
  forall a, len (base.filter (within a w) (adm ++ accepted k cs e)) <= max.
Proof.
  intros HK. induction cs as [|c cs IH]; intros now adm e Ho Hk Ha Hq a; cbn [accepted].
  { rewrite app_nil_r. apply Hq. }
  destruct Ho as (Hn & Hclk & Ho). destruct Hk as (Hs & Hk). apply Forall_cons_1 in Ha as (Hc & Ha).
  rewrite app_assoc. apply (IH (call_clock c 20%nat)); try done.
  destruct c as [clk policy i request|clk i m p status]; cbn [call_clock run_abuse] in *.
  - destruct Hc as (Hwd & Hmx). pose proof (inspect_row clk policy i request e k HK Hclk Hs) as Hrow.
    cbn zeta in Hrow. rewrite Hwd in Hrow. destruct (inspect clk policy i request e) as [e' v]. cbn [fst snd].
    destruct Hrow as (x & Vx & Hcase).
    assert (clk 0%nat <= clk (reading_of (q_kind k))) by (apply Hclk; lia).
    assert (clk (reading_of (q_kind k)) <= clk 20%nat) by (apply Hclk; destruct HK as [-> | ->]; cbn; lia).
    assert (quota_ok (clk (reading_of (q_kind k))) adm x) as Hx by (eapply quota_ok_view; [|exact Vx|exact Hq]; lia).
    destruct Hcase as [(V' & Hb)|(Hin & Hp & Hlt & n & Hnr & V')].
    + assert (match v with
              | AbuseAllow => if on_path (q_kind k) request && bool_decide (k ∈ quota_keys i (q_kind k))
                              then [clk (reading_of (q_kind k))] else []
              | AbuseBlock _ _ => [] end = []) as ->.
      { destruct v; [|done]. destruct (on_path _ _) eqn:Hp; [|done]. case_bool_decide as Hin; [|done]. by destruct (Hb Hin eq_refl). }
      rewrite app_nil_r. by eapply quota_ok_view; [|exact V'|exact Hx].
    + destruct (quota_keys_spec _ _ _ Hin) as (_ & Hsite). rewrite (Hmx (eq_sym Hsite)) in Hlt.
      destruct Vx as (Vx & _). rewrite <- Vx in Hlt by done.
      pose proof (qo_row _ _ _ Hx).
      eapply quota_ok_view; [apply (Hclk n 20%nat); lia|exact V'|].
      apply (quota_ok_hit (clk (reading_of (q_kind k)))); [apply Hclk; lia|done|apply Hlt; lia|].
      destruct v; [|by right]. destruct (_ && _); [by left|by right].
  - rewrite app_nil_r. eapply quota_ok_view; [| |exact Hq].
    { assert (clk 0%nat <= clk 20%nat) by (apply Hclk; lia). lia. }
    assert (forall clk' kind e0, kind = Stuffing \/ kind = Enumeration ->
      row (counters (hit clk' i kind e0)) k = row (counters e0) k) as Hh.
    { intros clk' kind e0 Hkind. unfold hit. cbn [with_counters counters]. apply hit_keys_other.
      intros (E & _)%quota_keys_spec. destruct HK, Hkind; congruence. }
    unfold record_origin_status. cbn zeta.
    destruct (_ && is_enumeration_path _), (_ && is_stuffing_path _ _); rewrite ?Hh by auto; apply same_view_refl.
Qed.

(** At most [max] sign-ups (and as many recoveries) are let through in any interval as long
    as the window for a fingerprint, session, subject or network of a site, when its policy
    says [max], whatever the other calls to the engine; all policies have the same window, and
    the table never outgrows the number of keys the engine keeps. *)
Theorem abuse_window_bound (k : QuotaKey) (t0 : Instant) (cs : list AbuseCall) (a : Instant) :
  q_kind k = Signup \/ q_kind k = Recover ->
  ordered t0 cs -> within_keys cs engine_new -> Forall (agrees w k max) cs ->
  len (base.filter (within a w) (accepted k cs engine_new)) <= max.
Proof.
  intros HK Ho Hk Ha. apply (accepted_bound k cs HK t0 [] engine_new); try done.
  constructor; [constructor|done| |intros; rewrite filter_nil]; change (len _) with 0; lia.
Qed.
End quotas.

(** ** The link of an external challenge *)

Definition escape_byte (b : Z) : bytes :=
  if b =? 38 then lit "&amp;" else if b =? 60 then lit "&lt;" else if b =? 62 then lit "&gt;"
  else if b =? 34 then lit "&quot;" else [b].

Lemma escape_attribute_bytes url : escape_attribute url = flat_map escape_byte url.
Proof.
  unfold escape_attribute. induction url as [|b url IH]; [done|].
  change (replace_char 38 (lit "&amp;") (b :: url))
    with ((if b =? 38 then lit "&amp;" else [b]) ++ replace_char 38 (lit "&amp;") url).
  unfold replace_char at 1 2 3. rewrite !flat_map_app. fold (replace_char 60 (lit "&lt;") (replace_char 38 (lit "&amp;") url)).
  cbn [flat_map]. rewrite <- IH. unfold replace_char. f_equal. unfold escape_byte.
  destruct (Z.eqb_spec b 38) as [->|]; [done|]. cbn. rewrite app_nil_r.
  destruct (Z.eqb_spec b 60) as [->|]; [done|]. cbn. rewrite app_nil_r.
  destruct (Z.eqb_spec b 62) as [->|]; [done|]. cbn. rewrite app_nil_r. done.
Qed.

(** What a browser reads of the attribute. *)
Definition entities : list (string * Z) := [("&amp;", 38); ("&lt;", 60); ("&gt;", 62); ("&quot;", 34)].
Definition read_entity (s : bytes) : option (Z * bytes) :=
  match list_find (fun e => starts_with s (lit e.1) = true) entities with
  | Some (_, (name, c)) => (fun rest => (c, rest)) <$> strip_prefix (lit name) s
  | None => None
  end.
Fixpoint unescape (fuel : nat) (s : bytes) : bytes :=
  match fuel, s with
  | S fuel, b :: r =>
      match read_entity s with
      | Some (c, rest) => c :: unescape fuel rest
      | None => b :: unescape fuel r
      end
  | _, _ => []
  end.

Lemma read_entity_escape b s :
  match escape_byte b with
  | [c] => c = b /\ (b <> 38 -> read_entity (b :: s) = None)
  | e => read_entity (e ++ s) = Some (b, s)
  end.
Proof.
  unfold escape_byte.
  destruct (Z.eqb_spec b 38) as [->|]; [done|]. destruct (Z.eqb_spec b 60) as [->|]; [done|].
  destruct (Z.eqb_spec b 62) as [->|]; [done|]. destruct (Z.eqb_spec b 34) as [->|]; [done|].
  split; [done|]. intros _. unfold read_entity, entities, starts_with.
  assert (forall name, match lit name with 38 :: _ => True | _ => False end -> strip_prefix (lit name) (b :: s) = None) as H.
  { intros name. destruct (lit name) as [|c l]; [done|]. cbn. destruct (Z.eqb_spec c b) as [->|]; [|done].
    destruct b as [|p|p]; try done. do 6 (destruct p as [p|p|]; try done). }
  cbn [list_find]. rewrite !H by done. done.
Qed.

(** The link of an external challenge cannot leave its attribute: the escaped URL has no
    quote and no angle bracket, and a browser reads back the URL of the policy. *)
Theorem escape_attribute_roundtrip (url : bytes) :
  Forall (fun b => b <> 34 /\ b <> 60 /\ b <> 62) (escape_attribute url)
  /\ unescape (length (escape_attribute url)) (escape_attribute url) = url.
Proof.
  rewrite escape_attribute_bytes. split.
  - induction url as [|b url IH]; [constructor|]. cbn [flat_map]. apply Forall_app. split; [|done].
    unfold escape_byte. destruct (Z.eqb_spec b 38); [|destruct (Z.eqb_spec b 60); [|destruct (Z.eqb_spec b 62);
      [|destruct (Z.eqb_spec b 34)]]]; try (repeat constructor; done).
  - set (fuel := length _). assert (length (flat_map escape_byte url) <= fuel)%nat as Hf by done. clearbody fuel.
    revert fuel Hf. induction url as [|b url IH]; intros fuel Hf; [by destruct fuel|].
    cbn [flat_map] in *. rewrite length_app in Hf.
    pose proof (read_entity_escape b (flat_map escape_byte url)) as H.
    assert (exists c l, escape_byte b = c :: l) as (c & l & E).
    { unfold escape_byte. repeat match goal with |- context [if ?x then _ else _] => destruct x end; cbn; eauto. }
    rewrite E in *. cbn [length] in Hf. destruct fuel as [|fuel]; [lia|]. cbn [app unescape].
    destruct l as [|d l].
    + destruct H as (-> & H). cbn [app] in H |- *. rewrite H; [|intros ->; discriminate E]. f_equal. apply IH. lia.
    + cbn [app] in H |- *. rewrite H. f_equal. apply IH. lia.
Qed.

(** ** Evaluations *)

Definition no_mmdb : Mmdb := {| Reader := Empty_set; from_source _ := None; lookup_asn r _ := match r with end |}.

Section evaluations.
Let DB := no_mmdb.
#[local] Existing Instance DB.

Definition signup_policy (window_secs : Z) : AbusePolicy :=
  {| stuffing_max := 10; enumeration_max := 20; signup_max := 1; recover_max := 5; window := from_secs window_secs;
     challenge := CNone; challenge_url := None; challenge_score := 40; mmdb := None |}.
Definition visitor (s : bytes) : RiskIdentity := {|
  site := s; network := V4 1; route := []; session_hash := None; api_key_hash := None; jwt_sub_hash := None;
  jwt_tenant_hash := None; tls_fingerprint := None; http_fingerprint := None; asn := None |}.
Definition signup_request (p : string) : AbuseRequest := {|
  method := "POST"; path := lit p; ua := None; accept := None; content_type := None; has_jwt := false |}.
Definition signup_call (t : Instant) : AbuseCall :=
  CallInspect (fun n => t + Z.of_nat n) (signup_policy 600) (visitor (lit "a")) (signup_request "/signup").
Definition signup_key : QuotaKey := {| q_site := lit "a"; q_kind := Signup; q_dim := DNetwork (V4 1) |}.

Lemma abuse_window_bound_witness :
  accepted signup_key [signup_call 0; signup_call 100] engine_new = [3]
  /\ len (base.filter (within 0 (from_secs 600)) (accepted signup_key [signup_call 0; signup_call 100] engine_new)) <= 1.
Proof.
  split; [vm_compute; reflexivity|].
  apply (abuse_window_bound (from_secs 600) 1 ltac:(lia) signup_key 0).
  - left. reflexivity.
  - cbn [ordered call_clock signup_call]. repeat split; intros; lia.
  - cbn [within_keys]. repeat split; vm_compute; discriminate.
  - repeat constructor.
Defined.

(** The engine is shared by the sites, but each sweep of the table uses the window of the site
    that makes it: a request to a site with a window of one second drops the records of a
    site whose quota is one sign-up in ten minutes. *)
Example sweep_of_another_site :
  let e1 := run_abuse (signup_call 0) engine_new in
  let e2 := {| counters := counters e1; rotations := rotations e1; hits := 256 |} in
  let other := CallInspect (fun _ => from_secs 2) (signup_policy 1) (visitor (lit "b")) (signup_request "/") in
  let again e := (inspect (fun n => from_secs 3 + Z.of_nat n) (signup_policy 600) (visitor (lit "a"))
                    (signup_request "/signup") e).2 in
  again e2 = AbuseBlock [RSignup] false /\ again (run_abuse other e2) = AbuseAllow.
Proof. vm_compute. split; reflexivity. Qed.

(** The paths of the quotas are compared as they were sent: an encoded letter escapes the quota. *)
Example encoded_path_not_counted :
  is_signup_path "POST" (lit "/signup") = true /\ is_signup_path "POST" (lit "/sign%75p") = false.
Proof. split; reflexivity. Qed.
End evaluations.
