(* ===== verification/Jwks.v ===== *)
(** * JSON Web Key Sets ([src/jwt.rs])

    The keys tokens are verified with: parsing of a key set, its cache with refresh and
    last-known-good, and the small HTTP client that fetches it.  JSON deserialization into the
    documents and base64 belong to other crates: they are the class [JwksText].  Sockets, TLS and DNS are the answers of a transport given as an
    argument; the readings of the clock are arguments. *)

From S2P Require Import Prelude Text Shield.

(** [src/jwt.rs: const DEFAULT_LEEWAY_SECS + const JWKS_TIMEOUT + const JWKS_TTL + const JWKS_MIN_REFRESH + const JWKS_MAX_BODY + const JWKS_MAX_KEYS + const JWKS_MAX_REDIRECTS + const TOKEN_MAX_BYTES + const MAX_JTI + const RSA_MIN_BITS] *)
Definition DEFAULT_LEEWAY_SECS : Z := 60.
Definition JWKS_TIMEOUT : Duration := from_secs 2.
Definition JWKS_TTL : Duration := from_secs 300.
Definition JWKS_MIN_REFRESH : Duration := from_secs 1.
Definition JWKS_MAX_BODY : Z := 64 * 1024.
Definition JWKS_MAX_KEYS : Z := 32.
Definition JWKS_MAX_REDIRECTS : nat := 3.
Definition TOKEN_MAX_BYTES : Z := 8 * 1024.
Definition MAX_JTI : Z := 50000.
Definition RSA_MIN_BITS : Z := 2048.

(** ** Algorithms *)

(** [src/jwt.rs: enum Algorithm] *)
Inductive Algorithm : Set := Rs256 | Es256 | Hs256 | Hs384 | Hs512.

#[export] Instance Algorithm_eq_dec : EqDecision Algorithm.
Proof. solve_decision. Defined.

Inductive JwtError : Type :=
| AlgNone | AlgNeedsListing (other : bytes) | AlgUnsupported (other : bytes)
| NoIssuer | NoAudience | NoHmacEnv | HmacEnvUnset (name : bytes) | HmacEnvEmpty (name : bytes) | HmacEnvUnused
| BindingNoEquals (b : bytes) | BindingLeft (b : bytes) | BindingClaim (b : bytes)
| BindingPath (b : bytes) | BindingBody (b : bytes) | BindingRight (b : bytes)
| PathNotAbsolute (p : bytes) | PathParam (p : bytes)
| JwksMissing | JwksRead | JwksTooLarge | JwksNotUtf8 | JwksInvalid | JwksTooManyKeys | JwksEmpty
| UrlInvalid (u : bytes) | UrlIpv6 (u : bytes) | UrlPort (u : bytes) | UrlNoHost (u : bytes)
| TooManyRedirects | Transport | ResponseIncomplete | StatusMalformed | NoLocation | BadLocation
| HttpStatus (code : Z).

(** [src/jwt.rs: Algorithm::parse] *)
Definition algorithm_parse (raw : bytes) : result JwtError Algorithm :=
  let raw := trim raw in
  if raw =s "RS256" then Ok Rs256
  else if raw =s "ES256" then Ok Es256
  else if raw =s "HS256" then Ok Hs256
  else if raw =s "HS384" then Ok Hs384
  else if raw =s "HS512" then Ok Hs512
  else if one_of raw ["none"; "None"; "NONE"] then Err AlgNone
  else if starts_with (to_ascii_uppercase raw) (lit "HS") then Err (AlgNeedsListing raw)
  else Err (AlgUnsupported raw).

(** [src/jwt.rs: Algorithm::is_hmac] *)
Definition is_hmac (a : Algorithm) : bool :=
  match a with Hs256 | Hs384 | Hs512 => true | _ => false end.

(** The hash functions of [MessageDigest]. *)
Inductive Digest : Set := Sha256 | Sha384 | Sha512.

(** [src/jwt.rs: Algorithm::digest] *)
Definition digest (a : Algorithm) : Digest :=
  match a with Rs256 | Es256 | Hs256 => Sha256 | Hs384 => Sha384 | Hs512 => Sha512 end.

(** ** Key sets *)

(** [src/jwt.rs: struct JwkDoc] *)
Record JwkDoc : Type := {
  kty : bytes; jwk_kid : option bytes; jwk_alg : option bytes; use_ : option bytes;
  jwk_n : option bytes; jwk_e : option bytes; crv : option bytes; jwk_x : option bytes; jwk_y : option bytes }.

(** [src/jwt.rs: enum KeyMaterial] *)
Inductive KeyMaterial : Type := Rsa (n e : bytes) | Ec (x y : bytes).

(** [src/jwt.rs: struct CachedJwk] *)
Record CachedJwk : Type := { key_alg : option Algorithm; material : KeyMaterial }.

Class JwksText : Type := {
  jwks_from_str : bytes -> option (list JwkDoc);
  b64url_decode : bytes -> option bytes;
}.

Section jwks.
Context {JT : JwksText}.

(** The material of a key, when it is usable. *)
Definition jwk_material (jwk : JwkDoc) : option KeyMaterial :=
  let part o := b64url_decode (default [] o) in
  if kty jwk =s "RSA" then
    n ← part (jwk_n jwk); e ← part (jwk_e jwk);
    if is_empty n || is_empty e then None else Some (Rsa n e)
  else if kty jwk =s "EC" then
    if negb (bool_decide (crv jwk = Some (lit "P-256"))) then None
    else x ← part (jwk_x jwk); y ← part (jwk_y jwk); Some (Ec x y)
  else None.

(** The entry a key of the document makes; [None] when it is skipped. *)
Definition jwk_entry (jwk : JwkDoc) : option (bytes * CachedJwk) :=
  if bool_decide (use_ jwk = Some (lit "enc")) then None
  else
    kid ← trimmed_nonempty (jwk_kid jwk);
    alg ← match jwk_alg jwk with
          | Some raw => match algorithm_parse raw with Ok a => Some (Some a) | Err _ => None end
          | None => Some None
          end;
    m ← jwk_material jwk;
    Some (kid, {| key_alg := alg; material := m |}).

Definition insert_entry (out : gmap bytes CachedJwk) (jwk : JwkDoc) : gmap bytes CachedJwk :=
  match jwk_entry jwk with Some (kid, k) => <[kid := k]> out | None => out end.

(** [src/jwt.rs: fn parse_jwks] *)
Definition parse_jwks (body : bytes) : result JwtError (gmap bytes CachedJwk) :=
  keys ← ok_or JwksInvalid (jwks_from_str body);
  if JWKS_MAX_KEYS <? len keys then Err JwksTooManyKeys
  else Ok (fold_left insert_entry keys ∅).

(** ** The cache *)

(** [src/jwt.rs: struct JwksState] *)
Record JwksState : Type := {
  keys : gmap bytes CachedJwk; fetched_at : option Instant; last_attempt : option Instant }.

(** [src/jwt.rs: JwksCache::new] The state it starts with. *)
Definition jwks_new : JwksState := {| keys := ∅; fetched_at := None; last_attempt := None |}.

(** [src/jwt.rs: JwksCache::refresh] [fetched] is the answer of the source. *)
Definition refresh (now : Instant) (fetched : result JwtError bytes) (st : JwksState) : result JwtError JwksState :=
  body ← fetched;
  keys ← parse_jwks body;
  if bool_decide (keys = ∅) then Err JwksEmpty
  else Ok {| keys := keys; fetched_at := Some now; last_attempt := Some now |}.

(** [src/jwt.rs: fn fresh_key] *)
Definition fresh_key (st : JwksState) (kid : bytes) (now : Instant) (ttl : Duration) : option CachedJwk :=
  at_ ← fetched_at st;
  if ttl <=? duration_since now at_ then None else keys st !! kid.

(** [src/jwt.rs: JwksCache::key] [clk] are the readings of the clock and [fetched] the answer of
    the source if it is asked; the result tells whether it was.  [later] is the state found once the fetch
    lock is held, which another caller may have refreshed. *)
Definition jwks_key (ttl min_refresh : Duration) (clk : nat -> Instant) (fetched : result JwtError bytes) (kid : bytes)
    (st later : JwksState) : JwksState * option CachedJwk * bool :=
  let now := clk 0%nat in
  match fresh_key st kid now ttl with
  | Some k => (st, Some k, false)
  | None =>
      let known := bool_decide (is_Some (keys st !! kid)) in
      let stale := match fetched_at st with Some t => ttl <=? duration_since now t | None => true end in
      let recent := match last_attempt st with Some t => duration_since now t <? min_refresh | None => false end in
      if negb stale && (known || recent) then (st, keys st !! kid, false)
      else
        match fresh_key later kid (clk 1%nat) ttl with
        | Some k => (later, Some k, false)
        | None =>
            let st := {| keys := keys later; fetched_at := fetched_at later; last_attempt := Some (clk 2%nat) |} in
            let st :=
              match fetched with
              | Ok body =>
                  match parse_jwks body with
                  | Ok ks => if bool_decide (ks = ∅) then st
                             else {| keys := ks; fetched_at := Some (clk 3%nat); last_attempt := last_attempt st |}
                  | Err _ => st
                  end
              | Err _ => st
              end in
            (st, keys st !! kid, true)
        end
  end.

(** ** Fetching *)

(** [src/jwt.rs: struct ParsedUrl] *)
Record ParsedUrl : Type := { tls : bool; host : bytes; port : Z; url_path : bytes }.

Definition default_port (tls : bool) : Z := if tls then 443 else 80.

(** [src/jwt.rs: fn parse_http_url] *)
Definition parse_http_url (url : bytes) : result JwtError ParsedUrl :=
  '(tls, rest) ←
    match strip_prefix (lit "https://") url with
    | Some rest => Ok (true, rest)
    | None => match strip_prefix (lit "http://") url with
              | Some rest => Ok (false, rest)
              | None => Err (UrlInvalid url)
              end
    end;
  let '(authority, path) :=
    match split_once 47 rest with
    | Some (authority, path) => (authority, 47 :: path)
    | None => (rest, [47])
    end in
  let authority := List.last (split_on 64 authority) authority in
  '(host, port) ←
    match authority with
    | 91 :: bracketed =>
        '(name, after) ← ok_or (UrlIpv6 url) (split_once 93 bracketed);
        match after with
        | 58 :: port => p ← ok_or (UrlPort url) (parse_uint u16_max port); Ok (name, p)
        | _ => Ok (name, default_port tls)
        end
    | _ =>
        match rsplit_once 58 authority with
        | Some (name, port) => p ← ok_or (UrlPort url) (parse_uint u16_max port); Ok (name, p)
        | None => Ok (authority, default_port tls)
        end
    end;
  if is_empty host then Err (UrlNoHost url) else Ok {| tls := tls; host := host; port := port; url_path := path |}.

Definition host_header (u : ParsedUrl) : bytes :=
  if port u =? default_port (tls u) then host u else host u ++ [58] ++ show_dec (port u).

Definition http_request (u : ParsedUrl) : bytes :=
  lit "GET " ++ url_path u ++ lit " HTTP/1.0" ++ [13; 10] ++ lit "Host: " ++ host_header u ++ [13; 10]
  ++ lit "User-Agent: ferroada-jwks" ++ [13; 10] ++ lit "Connection: close" ++ [13; 10; 13; 10].

Fixpoint split_once_str (sep s : bytes) : option (bytes * bytes) :=
  match strip_prefix sep s with
  | Some r => Some ([], r)
  | None =>
      match s with
      | [] => None
      | b :: t => '(a, r) ← split_once_str sep t; Some (b :: a, r)
      end
  end.

(** [str::lines] *)
Definition strip_cr (line : bytes) : bytes := default line (strip_suffix [13] line).
Definition lines (s : bytes) : list bytes :=
  let pieces := split_on 10 s in
  let last := List.last pieces [] in
  map strip_cr (removelast pieces) ++ (if is_empty last then [] else [last]).

(** The last [Location] among the header lines. *)
Definition location_of (header_lines : list bytes) : option bytes :=
  fold_left (fun acc line =>
      match split_once 58 line with
      | Some (name, value) => if eq_ignore_ascii_case name "location" then Some (trim value) else acc
      | None => acc
      end) header_lines None.

(** The reading of a response: a redirection, or the body. *)
Definition read_response (u : ParsedUrl) (raw : bytes) : result JwtError (bytes + bytes) :=
  let text := utf8_lossy raw in
  '(head, body) ← ok_or ResponseIncomplete
    match split_once_str [13; 10; 13; 10] text with Some x => Some x | None => split_once_str [10; 10] text end;
  match lines head with
  | [] => Err ResponseIncomplete
  | status_line :: header_lines =>
      status ← ok_or StatusMalformed (split_whitespace status_line !! 1%nat ≫= parse_uint u16_max);
      if in_range 300 399 status then
        location ← ok_or NoLocation (location_of header_lines);
        if starts_with location (lit "http://") || starts_with location (lit "https://") then Ok (inl location)
        else match location with
             | 47 :: rest =>
                 Ok (inl ((if tls u then lit "https" else lit "http") ++ lit "://" ++ host_header u ++ [47] ++ rest))
             | _ => Err BadLocation
             end
      else if negb (status =? 200) then Err (HttpStatus status)
      else if JWKS_MAX_BODY <? len body then Err JwksTooLarge
      else Ok (inr body)
  end.

(** [src/jwt.rs: fn http_get] [transport] gives what is read, at most [JWKS_MAX_BODY + 4096] bytes, from the server of a URL after a
    request is written to it, or nothing when it fails or the deadline passes; [fuel] is the number of
    requests still allowed. *)
Fixpoint http_get (transport : ParsedUrl -> bytes -> option bytes) (url : bytes) (fuel : nat) : result JwtError bytes :=
  match fuel with
  | O => Err TooManyRedirects
  | S fuel =>
      u ← parse_http_url url;
      raw ← ok_or Transport (transport u (http_request u));
      r ← read_response u (take (Z.to_nat (JWKS_MAX_BODY + 4096)) raw);
      match r with
      | inl next => http_get transport next fuel
      | inr body => Ok body
      end
  end.

(** [src/jwt.rs: enum JwksSource] *)
Inductive JwksSource : Type := SFile (path : bytes) | SUrl (url : bytes).

(** [Path::join] *)
Definition join_path (base path : bytes) : bytes :=
  if starts_with path [47] then path
  else if is_empty base || ends_with base [47] then base ++ path
  else base ++ [47] ++ path.

(** [src/jwt.rs: JwksSource::parse] *)
Definition source_parse (raw base_dir : bytes) : result JwtError JwksSource :=
  let raw := trim raw in
  if is_empty raw then Err JwksMissing
  else if starts_with raw (lit "https://") || starts_with raw (lit "http://") then Ok (SUrl raw)
  else Ok (SFile (join_path base_dir raw)).

(** [src/jwt.rs: JwksSource::fetch] *)
Definition source_fetch (transport : ParsedUrl -> bytes -> option bytes) (read_file : bytes -> option bytes)
    (s : JwksSource) : result JwtError bytes :=
  match s with
  | SFile path =>
      b ← ok_or JwksRead (read_file path);
      if JWKS_MAX_BODY <? len b then Err JwksTooLarge else if is_utf8 b then Ok b else Err JwksNotUtf8
  | SUrl url => http_get transport url (S JWKS_MAX_REDIRECTS)
  end.

End jwks.

(** ** What the cache gives *)

Section cache.
Context {JT : JwksText}.

(** The keys of the cache are the last usable set: a failed, invalid or empty answer changes
    nothing, and the key returned is one of them. *)
Lemma jwks_key_lookup ttl min_refresh clk fetched kid st later :
  let '(st', k, asked) := jwks_key ttl min_refresh clk fetched kid st later in
  k = keys st' !! kid
  /\ (keys st' = keys st \/ keys st' = keys later
      \/ asked = true /\ exists body, fetched = Ok body /\ parse_jwks body = Ok (keys st') /\ keys st' <> ∅).
Proof.
  unfold jwks_key, fresh_key.
  assert (forall s now k, (at_ ← fetched_at s; if ttl <=? duration_since now at_ then None else keys s !! kid) = Some k ->
            Some k = keys s !! kid) as Hf.
  { intros s now k. destruct (fetched_at s) as [t|]; [|done]. cbn. by destruct (_ <=? _). }
  destruct (fetched_at st ≫= _) as [k|] eqn:E; [by apply Hf in E; auto|].
  destruct (_ && _); [by auto|].
  destruct (fetched_at later ≫= _) as [k|] eqn:E'; [by apply Hf in E'; auto|].
  destruct fetched as [body|e]; cbn; [|by auto].
  destruct (parse_jwks body) as [ks|e] eqn:Ep; cbn; [|by auto].
  case_bool_decide; cbn; [by auto|]. split; [done|]. right. right. split; [done|]. by exists body.
Qed.

(** What is fetched is at most 64 KiB. *)
Lemma read_response_bound u raw body : read_response u raw = Ok (inr body) -> len body <= JWKS_MAX_BODY.
Proof.
  unfold read_response. destruct (ok_or _ _) as [[h b]|]; [|done]. cbn.
  destruct (lines h) as [|status_line header_lines]; [done|].
  destruct (ok_or StatusMalformed _) as [status|]; [|done]. cbn.
  destruct (in_range _ _ _).
  - destruct (ok_or _ _) as [loc|]; [|done]. cbn. destruct (_ || _); [done|].
    destruct loc as [|[|p|p] loc]; try done. do 6 (destruct p as [p|p|]; try done).
  - destruct (negb _); [done|]. destruct (Z.ltb_spec JWKS_MAX_BODY (len b)); [done|]. intros [= <-]. done.
Qed.

Lemma source_fetch_bound transport read_file s body :
  source_fetch transport read_file s = Ok body -> len body <= JWKS_MAX_BODY.
Proof.
  destruct s as [path|url]; cbn [source_fetch].
  - destruct (ok_or _ _) as [b|]; [|done]. cbn. destruct (Z.ltb_spec JWKS_MAX_BODY (len b)); [done|].
    destruct (is_utf8 b); [|done]. by intros [= <-].
  - generalize (S JWKS_MAX_REDIRECTS). intros n. revert url. induction n as [|n IH]; intros url; cbn [http_get]; [done|].
    destruct (parse_http_url url) as [u|]; [|done]. cbn. destruct (ok_or _ _) as [raw|]; [|done]. cbn.
    destruct (read_response u _) as [[next|b]|] eqn:E; [apply IH| |done].
    cbn. intros [= <-]. by apply read_response_bound in E.
Qed.
End cache.

(** A redirection to a path of an IPv6 host: the brackets of the host are lost, and the next request
    goes elsewhere. *)
Definition plain_text : JwksText := {| jwks_from_str _ := None; b64url_decode s := Some s |}.
Example ipv6_redirect_misread :
  let u := {| tls := false; host := lit "::1"; port := 80; url_path := lit "/keys" |} in
  parse_http_url (lit "http://[::1]/keys") = Ok u
  /\ read_response u (lit "HTTP/1.0 302 Found" ++ [13; 10] ++ lit "Location: /new" ++ [13; 10; 13; 10])
     = Ok (inl (lit "http://::1/new"))
  /\ parse_http_url (lit "http://::1/new") = Ok {| tls := false; host := lit ":"; port := 1; url_path := lit "/new" |}.
Proof. vm_compute. repeat split. Qed.

(** Once the keys are older than their time to live, every lookup asks the source again, however
    recent the last attempt was: the minimum interval between attempts applies to fresh keys
    only. *)
Example stale_keys_always_ask :
  let st := {| keys := ∅; fetched_at := Some 0; last_attempt := Some (JWKS_TTL + 5) |} in
  (jwks_key (JT := plain_text) JWKS_TTL JWKS_MIN_REFRESH (fun _ => JWKS_TTL + 6) (Err Transport) (lit "k") st st).2 = true.
Proof. reflexivity. Qed.
