(* ===== verification/Jwt.v ===== *)
(** * JWT identity ([src/jwt.rs])

    The policy of a site on bearer tokens: its loading, the authentication of a request, the
    memory of token identifiers, and the bindings of claims to the path and the body.
    Signatures are checked by the class [JwtCrypto] (openssl); the reading of the header
    and of floating point numbers by serde is the class [JwtText]. *)

From S2P Require Import Prelude Text ClientIp Window Shield Route Framing Json Jwks.

(** What the code uses of openssl: a MAC, and verification with an RSA modulus and exponent or an
    uncompressed P-256 point and a raw signature of two 32-byte numbers; [None] and [false] cover
    every error it reports. *)
Class JwtCrypto : Type := {
  hmac : Digest -> bytes -> bytes -> option bytes;
  rsa_verify : bytes -> bytes -> bytes -> bytes -> bool;
  p256_verify : bytes -> bytes -> bytes -> bool;
}.

(** [src/jwt.rs: struct JwtHeader] *)
Record JwtHeader : Type := { h_alg : bytes; h_kid : option bytes; h_typ : option bytes; h_crit : option (list bytes) }.

Class JwtText : Type := {
  header_from_slice : bytes -> option JwtHeader;
  (* [as_f64] of a number, cast to [u64] when it is not negative *)
  f64_as_u64 : bytes -> option Z;
  f64_as_u64_range : forall t n, f64_as_u64 t = Some n -> 0 <= n <= u64_max;
}.

(** ** Bindings and path templates *)

(** [src/jwt.rs: enum BindSource] *)
Inductive BindSource : Type := BPath (name : bytes) | BBody (pointer : bytes).

(** [src/jwt.rs: struct Binding] *)
Record Binding : Type := { claim : bytes; source : BindSource }.

(** [src/jwt.rs: enum PathSeg] *)
Inductive PathSeg : Type := Literal (s : bytes) | Param (name : bytes).

(** [src/jwt.rs: struct PathTemplate] *)
Definition PathTemplate : Type := list PathSeg.

(** [src/jwt.rs: enum JwtFailure] *)
Inductive JwtFailure : Type := Unauthorized (reason : bytes) | Forbidden (reason : bytes).

(** [src/jwt.rs: JwtFailure::status] *)
Definition failure_status (f : JwtFailure) : Z := match f with Unauthorized _ => 401 | Forbidden _ => 403 end.
(** [src/jwt.rs: JwtFailure::reason] *)
Definition failure_reason (f : JwtFailure) : bytes := match f with Unauthorized r | Forbidden r => r end.
(** [src/jwt.rs: JwtFailure::event_type] *)
Definition failure_event_type (f : JwtFailure) : bytes :=
  match f with Unauthorized _ => "jwt" | Forbidden _ => "jwt_binding" end.

(** [src/jwt.rs: fn parse_binding] *)
Definition parse_binding (raw : bytes) : result JwtError Binding :=
  let trimmed := trim raw in
  '(lhs, rhs) ← ok_or (BindingNoEquals trimmed) (split_once_str [61; 61] trimmed);
  let lhs := trim lhs in
  let rhs := trim rhs in
  claim ← ok_or (BindingLeft trimmed) (strip_prefix (lit "jwt.") lhs);
  let claim := trim claim in
  if is_empty claim || bool_decide (46 ∈ claim) then Err (BindingClaim trimmed)
  else
    source ←
      match strip_prefix (lit "path.") rhs with
      | Some name =>
          let name := trim name in
          if is_empty name || bool_decide (46 ∈ name) then Err (BindingPath trimmed) else Ok (BPath name)
      | None =>
          match strip_prefix (lit "body.") rhs with
          | Some name => let name := trim name in
                         if is_empty name then Err (BindingBody trimmed) else Ok (BBody name)
          | None => Err (BindingRight trimmed)
          end
      end;
    Ok {| claim := claim; source := source |}.

(** [src/jwt.rs: fn parse_bindings] *)
Definition parse_bindings (raw : list bytes) : result JwtError (list Binding) := collect parse_binding raw.

Definition path_parts (path : bytes) : list bytes :=
  base.filter (fun part => is_empty part = false) (split_on 47 path).

Definition parse_segment (path part : bytes) : result JwtError PathSeg :=
  match strip_prefix [123] part ≫= strip_suffix [125] with
  | Some name => if is_empty name || bool_decide (123 ∈ name) then Err (PathParam path) else Ok (Param name)
  | None => Ok (Literal part)
  end.

(** [src/jwt.rs: fn parse_path_template] *)
Definition parse_path_template (raw : bytes) : result JwtError PathTemplate :=
  let path := trim raw in
  if negb (starts_with path [47]) then Err (PathNotAbsolute path)
  else collect (parse_segment path) (path_parts path).

(** [src/jwt.rs: fn parse_path_templates] *)
Definition parse_path_templates (raw : list bytes) : result JwtError (list PathTemplate) :=
  collect parse_path_template raw.

(** [src/jwt.rs: fn hex] is [hex_digit].  The loop of [percent_decode_once], with as much fuel as bytes. *)
Fixpoint percent_loop (fuel : nat) (s : bytes) : bytes :=
  match fuel, s with
  | S fuel, b :: r =>
      match (if b =? 37 then match r with
                             | h :: l :: rest => high ← hex_digit h; low ← hex_digit l; Some (16 * high + low, rest)
                             | _ => None
                             end else None) with
      | Some (byte, rest) => byte :: percent_loop fuel rest
      | None => b :: percent_loop fuel r
      end
  | _, _ => []
  end.

(** [src/jwt.rs: fn percent_decode_once] *)
Definition percent_decode_once (input : bytes) : bytes :=
  let out := percent_loop (length input) input in if is_utf8 out then out else input.

(** The parameters of a template on the parts of a path; a later one of the same name wins. *)
Fixpoint match_template (template : PathTemplate) (parts : list bytes) (found : gmap bytes bytes)
  : option (gmap bytes bytes) :=
  match template, parts with
  | [], [] => Some found
  | Literal l :: template, p :: parts => if l =s p then match_template template parts found else None
  | Param name :: template, p :: parts => match_template template parts (<[name := percent_decode_once p]> found)
  | _, _ => None
  end.

(** [src/jwt.rs: fn path_params] *)
Definition path_params (templates : list PathTemplate) (path : bytes) (extra : gmap bytes bytes) : gmap bytes bytes :=
  let path := before 63 path in
  let path := default path (canonical_route_path path) in
  match head (omap (fun t => match_template t (path_parts path) ∅) templates) with
  | Some found => extra ∪ found
  | None => extra
  end.

(** ** Tokens *)

(** [src/jwt.rs: fn value_as_string] *)
Definition value_as_string (v : JsonValue) : option bytes :=
  match v with
  | JString s => Some s
  | JNumber t => Some t
  | JBool b => Some (if b then lit "true" else lit "false")
  | _ => None
  end.

Fixpoint json_descend (v : JsonValue) (parts : list bytes) : option JsonValue :=
  match parts with
  | [] => Some v
  | p :: parts => v ← json_get p v; json_descend v parts
  end.

(** [src/jwt.rs: fn json_field] *)
Definition json_field (root : JsonValue) (dotted : bytes) : option bytes :=
  json_descend root (split_on 46 dotted) ≫= value_as_string.

(** [src/jwt.rs: fn bearer] *)
Definition bearer (authorization : option bytes) : result JwtFailure bytes :=
  value ← ok_or (Unauthorized "missing") (trimmed_nonempty authorization);
  '(scheme, rest) ← ok_or (Unauthorized "missing") (split_once 32 value);
  if negb (eq_ignore_ascii_case scheme "bearer") then Err (Unauthorized "missing")
  else
    let token := trim rest in
    if is_empty token || (TOKEN_MAX_BYTES <? len token) then Err (Unauthorized "malformed") else Ok token.

(** [src/jwt.rs: fn aud_matches] *)
Definition aud_matches (aud : option JsonValue) (expected : bytes) : bool :=
  match aud with
  | Some (JString v) => v =s expected
  | Some (JArray items) => existsb (fun item => bool_decide (as_str item = Some expected)) items
  | _ => false
  end.

(** [src/jwt.rs: struct JwtPrincipal] *)
Record JwtPrincipal : Type := { sub : bytes; tenant : option bytes; claims : gmap bytes bytes }.

(** [src/jwt.rs: struct ValidatedClaims] *)
Record ValidatedClaims : Type := { v_principal : JwtPrincipal; v_jti : bytes; v_exp : Z }.

(** [src/jwt.rs: struct JwtInner + struct JwtPolicy] What does not change once loaded. *)
Record JwtPolicy : Type := {
  issuer : bytes; audience : bytes; algorithms : list Algorithm; bindings : list Binding;
  paths : list PathTemplate; hmac_secret : option bytes; leeway : Z;
  ttl : Duration; min_refresh : Duration; jwks_source : JwksSource }.

(** The state behind a policy: the cached keys, and the identifiers seen with their end. *)
Record JwtState : Type := { jwks : JwksState; jti : gmap Z Z }.

(** [src/jwt.rs: struct JwtSpec] *)
Record JwtSpec : Type := {
  sp_jwks : bytes; sp_issuer : bytes; sp_audience : bytes; sp_algorithms : list bytes; sp_bindings : list bytes;
  sp_paths : list bytes; sp_hmac_secret_env : option bytes }.

(** [src/jwt.rs: fn parse_algorithms] *)
Definition parse_algorithms (raw : list bytes) : result JwtError (list Algorithm) :=
  if is_empty raw then Ok [Rs256; Es256] else collect algorithm_parse raw.

Section jwt.
Context {SH : StrHash} {JT : JwksText} {JX : JwtText} {JC : JwtCrypto} {SJ : SerdeJson} {MO : MapOrder Z Z}.

Definition load_hmac_secret (env : bytes -> option bytes) (algorithms : list Algorithm) (name : option bytes)
  : result JwtError (option bytes) :=
  if existsb is_hmac algorithms then
    name ← ok_or NoHmacEnv (trimmed_nonempty name);
    value ← ok_or (HmacEnvUnset name) (env name);
    if is_empty value then Err (HmacEnvEmpty name) else Ok (Some value)
  else if bool_decide (is_Some name) then Err HmacEnvUnused
  else Ok None.

(** [src/jwt.rs: JwtPolicy::load] [fetch] is the answer of a source. *)
Definition jwt_load (env : bytes -> option bytes) (spec : JwtSpec) (base_dir : bytes) (now : Instant)
    (fetch : JwksSource -> result JwtError bytes) : result JwtError (JwtPolicy * JwtState) :=
  let issuer := trim (sp_issuer spec) in
  let audience := trim (sp_audience spec) in
  if is_empty issuer then Err NoIssuer
  else if is_empty audience then Err NoAudience
  else
    algorithms ← parse_algorithms (sp_algorithms spec);
    secret ← load_hmac_secret env algorithms (sp_hmac_secret_env spec);
    bindings ← parse_bindings (sp_bindings spec);
    templates ← parse_path_templates (sp_paths spec);
    source ← source_parse (sp_jwks spec) base_dir;
    cache ← refresh now (fetch source) jwks_new;
    Ok ({| issuer := issuer; audience := audience; algorithms := algorithms; bindings := bindings;
           paths := templates; hmac_secret := secret; leeway := DEFAULT_LEEWAY_SECS; ttl := JWKS_TTL;
           min_refresh := JWKS_MIN_REFRESH; jwks_source := source |},
        {| jwks := cache; jti := ∅ |}).

(** [src/jwt.rs: JwtPolicy::has_body_bindings] *)
Definition has_body_bindings (p : JwtPolicy) : bool :=
  existsb (fun b => match source b with BBody _ => true | BPath _ => false end) (bindings p).

(** [src/jwt.rs: fn split_token] Header, payload, signed input and signature. *)
Definition split_token (token : bytes) : result JwtFailure (bytes * bytes * bytes * bytes) :=
  let malformed {A} (o : option A) := ok_or (Unauthorized "malformed") o in
  '(header, payload, signature) ←
    malformed match split_on 46 token with
              | [h; p] => Some (h, p, [])
              | [h; p; s] => Some (h, p, s)
              | _ => None
              end;
  if is_empty header || is_empty payload then Err (Unauthorized "malformed")
  else
    header_json ← malformed (b64url_decode header);
    payload_json ← malformed (b64url_decode payload);
    sig ← (if is_empty signature then Ok [] else malformed (b64url_decode signature));
    Ok (header_json, payload_json, header ++ [46] ++ payload, sig).

(** [src/jwt.rs: fn verify_hmac] *)
Definition verify_hmac (alg : Algorithm) (secret input signature : bytes) : result JwtFailure unit :=
  mac ← ok_or (Unauthorized "sig") (hmac (digest alg) secret input);
  if mac =s signature then Ok tt else Err (Unauthorized "sig").

(** [BigNum::num_bits] *)
Definition num_bits (b : bytes) : Z := let v := be_value b in if v =? 0 then 0 else Z.log2 v + 1.

(** [src/jwt.rs: fn verify_rsa] *)
Definition verify_rsa (n e input signature : bytes) : result JwtFailure unit :=
  if num_bits n <? RSA_MIN_BITS then Err (Unauthorized "sig")
  else if rsa_verify n e input signature then Ok tt else Err (Unauthorized "sig").

(** [src/jwt.rs: fn left_pad] *)
Definition left_pad (b : bytes) (size : nat) : option bytes :=
  if (size <? length b)%nat then None else Some (replicate (size - length b) 0 ++ b).

(** [src/jwt.rs: fn verify_es256] *)
Definition verify_es256 (x y input signature : bytes) : result JwtFailure unit :=
  if negb (len signature =? 64) then Err (Unauthorized "sig")
  else
    px ← ok_or (Unauthorized "sig") (left_pad x 32);
    py ← ok_or (Unauthorized "sig") (left_pad y 32);
    if p256_verify ([4] ++ px ++ py) input signature then Ok tt else Err (Unauthorized "sig").

(** What the request finds outside: the clock, the source of keys, and the keys once the fetch lock is held. *)
Record JwtWorld : Type := { w_clock : nat -> Instant; w_fetched : result JwtError bytes; w_later : JwksState -> JwksState }.

(** [src/jwt.rs: fn verify_signature] *)
Definition verify_signature (p : JwtPolicy) (w : JwtWorld) (alg : Algorithm) (kid signing_input signature : bytes)
    (st : JwksState) : JwksState * result JwtFailure unit :=
  if is_hmac alg then
    (st, secret ← ok_or (Unauthorized "alg") (hmac_secret p); verify_hmac alg secret signing_input signature)
  else
    let '(st, key, _) := jwks_key (ttl p) (min_refresh p) (w_clock w) (w_fetched w) kid st (w_later w st) in
    (st, key ← ok_or (Unauthorized "kid") key;
         if match key_alg key with Some a => negb (bool_decide (a = alg)) | None => false end
         then Err (Unauthorized "alg")
         else match alg, material key with
              | Rs256, Rsa n e => verify_rsa n e signing_input signature
              | Es256, Ec x y => verify_es256 x y signing_input signature
              | _, _ => Err (Unauthorized "alg")
              end).

(** [src/jwt.rs: fn unix_claim] *)
Definition unix_claim (payload : JsonValue) (name : bytes) : option Z :=
  match json_get name payload with
  | Some (JNumber t) =>
      match parse_uint u64_max t with
      | Some n => Some n
      | None => match parse_i64 t with
                | Some n => if 0 <=? n then Some n else f64_as_u64 t
                | None => f64_as_u64 t
                end
      end
  | _ => None
  end.

Definition first_some {A} (l : list (option A)) : option A := head (omap id l).

Definition text_claim (payload : JsonValue) (name : bytes) : result JwtFailure bytes :=
  ok_or (Unauthorized name) (trimmed_nonempty (json_get name payload ≫= as_str)).

(** The claims that can be bound. *)
Definition claim_texts (payload : JsonValue) : gmap bytes bytes :=
  match payload with
  | JObject members =>
      fold_left (fun rest '(key, v) =>
        match value_as_string v with Some text => <[key := text]> rest | None => rest end) members ∅
  | _ => ∅
  end.

(** [src/jwt.rs: fn validate_claims] [exp + leeway] wraps. *)
Definition validate_claims (payload : JsonValue) (issuer audience : bytes) (now leeway : Z)
  : result JwtFailure ValidatedClaims :=
  let limit := saturating_add u64_max now leeway in
  iss ← ok_or (Unauthorized "iss") (json_get (lit "iss") payload ≫= as_str);
  if negb (iss =s issuer) then Err (Unauthorized "iss")
  else if negb (aud_matches (json_get (lit "aud") payload) audience) then Err (Unauthorized "aud")
  else
    exp ← ok_or (Unauthorized "exp") (unix_claim payload (lit "exp"));
    if (exp + leeway) mod 2 ^ 64 <? now then Err (Unauthorized "exp")
    else
      nbf ← ok_or (Unauthorized "nbf") (unix_claim payload (lit "nbf"));
      if limit <? nbf then Err (Unauthorized "nbf")
      else
        iat ← ok_or (Unauthorized "iat") (unix_claim payload (lit "iat"));
        if limit <? iat then Err (Unauthorized "iat")
        else
          jti ← text_claim payload (lit "jti");
          sub ← text_claim payload (lit "sub");
          let rest := claim_texts payload in
          let tenant := first_some [rest !! lit "tenant_id"; rest !! lit "tenant"; rest !! lit "tid"] in
          Ok {| v_principal := {| sub := sub; tenant := tenant; claims := rest |}; v_jti := jti; v_exp := exp |}.

(** Every tenth entry of the table, in its order. *)
Fixpoint every_tenth (seen : Z) (l : list (Z * Z)) : list (Z * Z) :=
  match l with
  | [] => []
  | x :: l => let seen := seen + 1 in if seen mod 10 =? 0 then x :: every_tenth seen l else every_tenth seen l
  end.

(** [src/jwt.rs: fn remember_jti] *)
Definition remember_jti (id : bytes) (exp now : Z) (cache : gmap Z Z) : gmap Z Z * result JwtFailure unit :=
  let key := str_hash id in
  let cache :=
    if MAX_JTI <=? Z.of_nat (size cache) then
      let cache := base.filter (fun e : Z * Z => now <= e.2) cache in
      if MAX_JTI <=? Z.of_nat (size cache) then list_to_map (every_tenth 0 (iter_order cache)) else cache
    else cache in
  match cache !! key with
  | Some until => if now <=? until then (cache, Err (Unauthorized "jti")) else (<[key := exp]> cache, Ok tt)
  | None => (<[key := exp]> cache, Ok tt)
  end.

(** What is checked of a token before its signature: algorithm, key identifier, payload, input and signature. *)
Definition read_token (p : JwtPolicy) (authorization : option bytes)
  : result JwtFailure (Algorithm * bytes * JsonValue * bytes * bytes) :=
  token ← bearer authorization;
  '(header_json, payload_json, signing_input, signature) ← split_token token;
  header ← ok_or (Unauthorized "malformed") (header_from_slice header_json);
  if match h_crit header with Some crit => negb (is_empty crit) | None => false end then Err (Unauthorized "crit")
  else if match h_typ header with
          | Some typ => negb (eq_ignore_ascii_case typ "JWT") && negb (eq_ignore_ascii_case typ "at+jwt")
          | None => false
          end then Err (Unauthorized "typ")
  else
    alg ← match algorithm_parse (h_alg header) with
          | Ok alg => if bool_decide (alg ∈ algorithms p) then Ok alg else Err (Unauthorized "alg")
          | Err _ => Err (Unauthorized "alg")
          end;
    kid ← ok_or (Unauthorized "kid") (trimmed_nonempty (h_kid header));
    payload ← ok_or (Unauthorized "malformed") (json_from_str payload_json);
    Ok (alg, kid, payload, signing_input, signature).

(** [src/jwt.rs: JwtPolicy::authenticate] *)
Definition authenticate (p : JwtPolicy) (w : JwtWorld) (authorization : option bytes) (now : Z) (st : JwtState)
  : JwtState * result JwtFailure JwtPrincipal :=
  match read_token p authorization with
  | Err f => (st, Err f)
  | Ok (alg, kid, payload, signing_input, signature) =>
      let '(keys, verified) := verify_signature p w alg kid signing_input signature (jwks st) in
      let st := {| jwks := keys; jti := jti st |} in
      match verified with
      | Err f => (st, Err f)
      | Ok _ =>
          match validate_claims payload (issuer p) (audience p) now (leeway p) with
          | Err f => (st, Err f)
          | Ok c =>
              let '(seen, r) := remember_jti (v_jti c) (saturating_add u64_max (v_exp c) (leeway p)) now (jti st) in
              let st := {| jwks := jwks st; jti := seen |} in
              match r with
              | Err f => (st, Err f)
              | Ok _ => (st, Ok (v_principal c))
              end
          end
      end
  end.

(** ** Bindings of a request *)

(** A binding holds when both sides are there and equal. *)
Definition check_binding (lhs rhs : option bytes) : result JwtFailure unit :=
  l ← ok_or (Forbidden "binding") lhs;
  r ← ok_or (Forbidden "binding") rhs;
  if l =s r then Ok tt else Err (Forbidden "binding").

Fixpoint check_path_bindings (bs : list Binding) (principal : JwtPrincipal) (params : gmap bytes bytes)
  : result JwtFailure unit :=
  match bs with
  | [] => Ok tt
  | b :: bs =>
      match source b with
      | BPath name =>
          _ ← check_binding (claims principal !! claim b) (params !! name);
          check_path_bindings bs principal params
      | BBody _ => check_path_bindings bs principal params
      end
  end.

(** [src/jwt.rs: JwtPolicy::bind_path] *)
Definition bind_path (p : JwtPolicy) (principal : JwtPrincipal) (path : bytes) (extra : gmap bytes bytes)
  : result JwtFailure unit :=
  check_path_bindings (bindings p) principal (path_params (paths p) path extra).

Fixpoint check_body_bindings (bs : list Binding) (principal : JwtPrincipal) (json : JsonValue)
  : result JwtFailure unit :=
  match bs with
  | [] => Ok tt
  | b :: bs =>
      match source b with
      | BBody pointer =>
          _ ← check_binding (claims principal !! claim b) (json_field json pointer);
          check_body_bindings bs principal json
      | BPath _ => check_body_bindings bs principal json
      end
  end.

(** [src/jwt.rs: JwtPolicy::bind_body] *)
Definition bind_body (p : JwtPolicy) (principal : JwtPrincipal) (body : bytes) : result JwtFailure unit :=
  if negb (has_body_bindings p) then Ok tt
  else if forallb is_ascii_whitespace body then Ok tt
  else
    json ← ok_or (Forbidden "binding") (json_from_str body);
    check_body_bindings (bindings p) principal json.

End jwt.

(** ** Authentication *)

Section theorems.
Context {SH : StrHash} {JT : JwksText} {JX : JwtText} {JC : JwtCrypto} {SJ : SerdeJson} {MO : MapOrder Z Z}.

Lemma ok_or_inv {E A} (e : E) (o : option A) a : ok_or e o = Ok a -> o = Some a.
Proof. destruct o; [by intros [= ->]|done]. Qed.

Lemma parse_i64_max s m : parse_i64 s = Some m -> m <= i64_max.
Proof.
  destruct s as [|b s]; [done|]. destruct (decide (b = 45)) as [->|Hb].
  - cbn. destruct (parse_digits _ s) as [v|] eqn:E; [|done]. cbn. intros [= <-].
    apply parse_digits_range in E. unfold i64_max in *. lia.
  - assert (parse_i64 (b :: s) = parse_uint i64_max (b :: s)) as ->.
    { unfold parse_i64. destruct b as [|p|p]; try done. do 6 (destruct p as [p|p|]; try done). }
    intros E. apply parse_uint_range in E. lia.
Qed.

Lemma unix_claim_nonneg payload name n : unix_claim payload name = Some n -> 0 <= n <= u64_max.
Proof.
  unfold unix_claim. destruct (json_get name payload) as [[]|]; try done.
  destruct (parse_uint u64_max text) as [m|] eqn:E; [intros [= <-]; by apply parse_uint_range in E|].
  destruct (parse_i64 text) as [m|] eqn:Ei; [|apply f64_as_u64_range].
  destruct (Z.leb_spec 0 m); [|apply f64_as_u64_range]. intros [= <-].
  split; [done|]. apply parse_i64_max in Ei. unfold i64_max, u64_max in *. lia.
Qed.

(** What the claims of an accepted token satisfy. *)
Definition claims_valid (p : JwtPolicy) (payload : JsonValue) (now : Z) (c : ValidatedClaims) : Prop :=
  json_get (lit "iss") payload = Some (JString (issuer p))
  /\ aud_matches (json_get (lit "aud") payload) (audience p) = true
  /\ unix_claim payload (lit "exp") = Some (v_exp c) /\ now <= v_exp c + leeway p
  /\ (exists nbf, unix_claim payload (lit "nbf") = Some nbf /\ nbf <= now + leeway p)
  /\ (exists iat, unix_claim payload (lit "iat") = Some iat /\ iat <= now + leeway p)
  /\ v_jti c <> [] /\ sub (v_principal c) <> [] /\ claims (v_principal c) = claim_texts payload.

Lemma trimmed_nonempty_some o s : trimmed_nonempty o = Some s -> s <> [].
Proof.
  unfold trimmed_nonempty. destruct o as [v|]; [|done]. destruct (is_empty (trim v)) eqn:E; [done|].
  intros [= <-]. by apply is_empty_false.
Qed.

Lemma validate_claims_valid p payload now c : 0 <= leeway p ->
  validate_claims payload (issuer p) (audience p) now (leeway p) = Ok c -> claims_valid p payload now c.
Proof.
  intros Hl. unfold validate_claims.
  destruct (json_get (lit "iss") payload ≫= as_str) as [iss|] eqn:Ei; [|done]. cbn [mbind result_bind ok_or negb].
  destruct (iss =s issuer p) eqn:Eiss; [|done]. apply bytes_eqb_eq in Eiss as ->. cbn [mbind result_bind ok_or negb].
  destruct (aud_matches _ _) eqn:Ea; [|done]. cbn [mbind result_bind ok_or negb].
  destruct (unix_claim payload (lit "exp")) as [exp|] eqn:Ee; [|done]. cbn [mbind result_bind ok_or negb].
  destruct (Z.ltb_spec ((exp + leeway p) mod 2 ^ 64) now) as [L|L]; [done|].
  destruct (unix_claim payload (lit "nbf")) as [nbf|] eqn:En; [|done]. cbn [mbind result_bind ok_or negb].
  destruct (Z.ltb_spec (saturating_add u64_max now (leeway p)) nbf) as [Ln|Ln]; [done|].
  destruct (unix_claim payload (lit "iat")) as [iat|] eqn:Et; [|done]. cbn [mbind result_bind ok_or negb].
  destruct (Z.ltb_spec (saturating_add u64_max now (leeway p)) iat) as [Lt|Lt]; [done|].
  unfold text_claim.
  destruct (trimmed_nonempty (json_get (lit "jti") payload ≫= as_str)) as [j|] eqn:Ej; [|done]. cbn [mbind result_bind ok_or negb].
  destruct (trimmed_nonempty (json_get (lit "sub") payload ≫= as_str)) as [s|] eqn:Es; [|done]. cbn [mbind result_bind ok_or negb].
  intros [= <-]. unfold claims_valid. cbn [v_exp v_jti v_principal sub claims].
  pose proof (unix_claim_nonneg _ _ _ Ee). unfold saturating_add in *.
  split; [destruct (json_get (lit "iss") payload) as [[]|]; cbn in Ei; congruence|].
  split; [done|]. split; [done|]. split.
  { pose proof (Z.mod_le (exp + leeway p) (2 ^ 64)). lia. }
  split; [exists nbf; split; [done|lia]|]. split; [exists iat; split; [done|lia]|].
  split; [by apply trimmed_nonempty_some in Ej|]. split; [by apply trimmed_nonempty_some in Es|done].
Qed.

Lemma validate_claims_jti p payload now c :
  validate_claims payload (issuer p) (audience p) now (leeway p) = Ok c -> text_claim payload (lit "jti") = Ok (v_jti c).
Proof.
  unfold validate_claims.
  repeat match goal with
  | |- (?o ≫= _) = Ok c -> _ => let E := fresh "E" in destruct o eqn:E; cbn [mbind result_bind]; [|done]
  | |- (if ?b then Err _ else _) = Ok c -> _ => destruct b; [done|]
  end.
  by intros [= <-].
Qed.

(** The signature was made with the secret of the policy, or verifies under a key of the set that
    has the identifier of the token and is meant for its algorithm. *)
Definition signature_verified (p : JwtPolicy) (st : JwtState) (alg : Algorithm) (kid input signature : bytes) : Prop :=
  match alg with
  | Hs256 | Hs384 | Hs512 => exists secret, hmac_secret p = Some secret /\ hmac (digest alg) secret input = Some signature
  | Rs256 => exists k n e, keys (jwks st) !! kid = Some k /\ material k = Rsa n e
      /\ (key_alg k = None \/ key_alg k = Some alg) /\ RSA_MIN_BITS <= num_bits n /\ rsa_verify n e input signature = true
  | Es256 => exists k x y px py, keys (jwks st) !! kid = Some k /\ material k = Ec x y
      /\ (key_alg k = None \/ key_alg k = Some alg) /\ len signature = 64
      /\ left_pad x 32 = Some px /\ left_pad y 32 = Some py /\ p256_verify ([4] ++ px ++ py) input signature = true
  end.

Lemma verify_signature_ok p w alg kid input signature st st' :
  verify_signature p w alg kid input signature st = (st', Ok tt) ->
  forall seen, signature_verified p {| jwks := st'; jti := seen |} alg kid input signature.
Proof.
  unfold verify_signature. intros H seen. destruct (is_hmac alg) eqn:Eh.
  - injection H as <- H. destruct (hmac_secret p) as [secret|] eqn:Es; [|done]. cbn in H. unfold verify_hmac in H.
    destruct (hmac (digest alg) secret input) as [mac|] eqn:Em; [|done]. cbn in H.
    destruct (mac =s signature) eqn:Eq; [|done]. apply bytes_eqb_eq in Eq as ->.
    destruct alg; try done; by exists secret.
  - pose proof (jwks_key_lookup (ttl p) (min_refresh p) (w_clock w) (w_fetched w) kid st (w_later w st)) as Hk.
    destruct (jwks_key _ _ _ _ _ _ _) as [[s k] asked]. injection H as -> H. destruct Hk as (-> & _).
    destruct (keys st' !! kid) as [k|] eqn:Ek; [|done]. cbn in H.
    destruct (match key_alg k with Some a => _ | None => false end) eqn:Ea; [done|].
    assert (key_alg k = None \/ key_alg k = Some alg) as Hka.
    { destruct (key_alg k) as [a|]; [|by left]. apply negb_false_iff, bool_decide_eq_true in Ea as ->. by right. }
    destruct alg; try done; cbn [signature_verified].
    + destruct (material k) as [n e|x y] eqn:Em; [|done]. unfold verify_rsa in H.
      destruct (Z.ltb_spec (num_bits n) RSA_MIN_BITS); [done|]. destruct (rsa_verify n e input signature) eqn:Ev; [|done].
      exists k, n, e. auto.
    + destruct (material k) as [n e|x y] eqn:Em; [done|]. unfold verify_es256 in H.
      destruct (Z.eqb_spec (len signature) 64); [|done]. cbn in H.
      destruct (left_pad x 32) as [px|] eqn:Ex; [|done]. destruct (left_pad y 32) as [py|] eqn:Ey; [|done]. cbn in H.
      destruct (p256_verify _ input signature) eqn:Ev; [|done].
      exists k, x, y, px, py. auto 10.
Qed.

(** An accepted token, taken apart. *)
Lemma authenticate_ok p w auth now st st' principal :
  authenticate p w auth now st = (st', Ok principal) ->
  exists alg kid payload input signature c,
    read_token p auth = Ok (alg, kid, payload, input, signature)
    /\ validate_claims payload (issuer p) (audience p) now (leeway p) = Ok c /\ principal = v_principal c
    /\ signature_verified p st' alg kid input signature
    /\ remember_jti (v_jti c) (saturating_add u64_max (v_exp c) (leeway p)) now (jti st) = (jti st', Ok tt).
Proof.
  unfold authenticate. destruct (read_token p auth) as [[[[[alg kid] payload] input] signature]|]; [|done].
  destruct (verify_signature p w alg kid input signature (jwks st)) as [ks [[]|]] eqn:Ev; [|done].
  destruct (validate_claims _ _ _ _ _) as [c|] eqn:Ec; [|done].
  destruct (remember_jti _ _ _ _) as [seen [[]|]] eqn:Er; [|done]. intros [= <- <-].
  exists alg, kid, payload, input, signature, c. split; [done|]. split; [done|]. split; [done|].
  split; [|done]. by eapply verify_signature_ok.
Qed.

Lemma read_token_algorithm p auth alg kid payload input signature :
  read_token p auth = Ok (alg, kid, payload, input, signature) -> alg ∈ algorithms p /\ kid <> [].
Proof.
  unfold read_token. destruct (bearer auth) as [token|]; [|done]. cbn [mbind result_bind ok_or negb].
  destruct (split_token token) as [[[[h pl] i] s]|]; [|done]. cbn [mbind result_bind ok_or negb].
  destruct (header_from_slice h) as [header|]; [|done]. cbn [mbind result_bind ok_or negb].
  destruct (match h_crit header with Some _ => _ | None => _ end); [done|].
  destruct (match h_typ header with Some _ => _ | None => _ end); [done|].
  destruct (algorithm_parse (h_alg header)) as [a|]; [|done]. case_bool_decide as Ha; [|done]. cbn [mbind result_bind ok_or negb].
  destruct (trimmed_nonempty (h_kid header)) as [k|] eqn:Ek; [|done]. cbn [mbind result_bind ok_or negb].
  destruct (json_from_str pl) as [v|]; [|done]. cbn [mbind result_bind ok_or negb]. intros [= <- <- <- <- <-].
  split; [done|]. by apply trimmed_nonempty_some in Ek.
Qed.

(** C32. An accepted token has an algorithm of the allow list, a signature verified with the secret
    of the policy or under the key of its identifier, meant for that algorithm, and
    claims that name the issuer and the audience of the policy and hold at this time; the
    principal is what the signed payload says. *)
Theorem authenticate_sound (p : JwtPolicy) (w : JwtWorld) (auth : option bytes) (now : Z) (st st' : JwtState)
    (principal : JwtPrincipal) :
  0 <= leeway p -> authenticate p w auth now st = (st', Ok principal) ->
  exists alg kid payload input signature c,
    read_token p auth = Ok (alg, kid, payload, input, signature)
    /\ alg ∈ algorithms p /\ signature_verified p st' alg kid input signature
    /\ claims_valid p payload now c /\ principal = v_principal c.
Proof.
  intros Hl (alg & kid & payload & input & signature & c & Hr & Hc & -> & Hs & _)%authenticate_ok.
  exists alg, kid, payload, input, signature, c. split; [done|].
  split; [by apply read_token_algorithm in Hr as (? & _)|]. split; [done|].
  split; [by apply validate_claims_valid|done].
Qed.

(** *** Single use *)

(** The identifier [h] is remembered at least until [until], or [until] has passed. *)
Definition remembered (h until now : Z) (seen : gmap Z Z) : Prop :=
  (exists u, seen !! h = Some u /\ until <= u) \/ until < now.

Lemma remember_jti_small id exp now cache : Z.of_nat (size cache) < MAX_JTI ->
  remember_jti id exp now cache =
  match cache !! str_hash id with
  | Some until => if now <=? until then (cache, Err (Unauthorized "jti")) else (<[str_hash id := exp]> cache, Ok tt)
  | None => (<[str_hash id := exp]> cache, Ok tt)
  end.
Proof. intros H. unfold remember_jti. by rewrite (proj2 (Z.leb_gt _ _)). Qed.

Lemma authenticate_remembers p w auth now st h until n0 : Z.of_nat (size (jti st)) < MAX_JTI -> n0 <= now ->
  remembered h until n0 (jti st) -> remembered h until now (jti (authenticate p w auth now st).1).
Proof.
  intros Hs Hn Hr. assert (remembered h until now (jti st)) as Hr' by (destruct Hr; [by left|right; lia]). clear Hr Hn.
  unfold authenticate. destruct (read_token p auth) as [[[[[alg kid] payload] input] signature]|]; [|done].
  destruct (verify_signature _ _ _ _ _ _ _) as [ks [[]|]]; [|done].
  destruct (validate_claims _ _ _ _ _) as [c|]; [|done]. cbn [jti jwks].
  rewrite remember_jti_small by done. destruct Hr' as [(u & Hu & Hle)|Hlt].
  2: { destruct (jti st !! _) as [v|]; [destruct (now <=? v)|]; by right. }
  destruct (decide (str_hash (v_jti c) = h)) as [<-|Hne].
  - rewrite Hu. destruct (Z.leb_spec now u) as [L|L]; cbn; [left; by exists u|right; lia].
  - destruct (jti st !! str_hash _) as [v|]; [destruct (now <=? v)|]; cbn; left; exists u;
      rewrite ?lookup_insert_ne by done; done.
Qed.

Record JwtCall : Type := { c_world : JwtWorld; c_auth : option bytes; c_now : Z }.
Definition run_jwt (p : JwtPolicy) (c : JwtCall) (st : JwtState) : JwtState :=
  (authenticate p (c_world c) (c_auth c) (c_now c) st).1.

(** The calls after time [now], in order, from a state; the memory stays under its capacity. *)
Fixpoint calls_within (p : JwtPolicy) (now : Z) (cs : list JwtCall) (st : JwtState) : Prop :=
  Z.of_nat (size (jti st)) < MAX_JTI
  /\ match cs with [] => True | c :: cs => now <= c_now c /\ calls_within p (c_now c) cs (run_jwt p c st) end.
Fixpoint run_all (p : JwtPolicy) (cs : list JwtCall) (st : JwtState) : JwtState :=
  match cs with [] => st | c :: cs => run_all p cs (run_jwt p c st) end.
Fixpoint last_time (now : Z) (cs : list JwtCall) : Z :=
  match cs with [] => now | c :: cs => last_time (c_now c) cs end.

Lemma run_all_remembers p cs : forall now st h until, calls_within p now cs st ->
  remembered h until now (jti st) ->
  remembered h until (last_time now cs) (jti (run_all p cs st)) /\ Z.of_nat (size (jti (run_all p cs st))) < MAX_JTI.
Proof.
  induction cs as [|c cs IH]; intros now st h until (Hs & Hc) Hr; cbn [run_all]; [done|].
  destruct Hc as (Hn & Hc). cbn [last_time]. apply (IH (c_now c) _ _ _ Hc). by eapply authenticate_remembers.
Qed.

(** C33. A token is accepted once: after it was, and as long as the memory of identifiers is under its
    capacity, the same authorization is refused whenever it comes back, and so is any
    token with the same identifier until the first one expires. *)
Theorem jwt_single_use (p : JwtPolicy) (w w2 : JwtWorld) (auth auth2 : option bytes) (now now2 : Z)
    (st st1 st2 : JwtState) (cs : list JwtCall) (principal principal2 : JwtPrincipal)
    (alg alg2 : Algorithm) (kid kid2 input input2 signature signature2 : bytes) (payload payload2 : JsonValue) :
  0 <= leeway p -> now2 <= u64_max -> Z.of_nat (size (jti st)) < MAX_JTI ->
  authenticate p w auth now st = (st1, Ok principal) ->
  calls_within p now cs st1 -> last_time now cs <= now2 ->
  authenticate p w2 auth2 now2 (run_all p cs st1) = (st2, Ok principal2) ->
  read_token p auth = Ok (alg, kid, payload, input, signature) ->
  read_token p auth2 = Ok (alg2, kid2, payload2, input2, signature2) ->
  auth2 <> auth
  /\ (text_claim payload2 (lit "jti") = text_claim payload (lit "jti") ->
      exists exp, unix_claim payload (lit "exp") = Some exp /\ exp + leeway p < now2).
Proof.
  intros Hl Hu Hs H1 Hc Ht H2 Hr1 Hr2.
  destruct (authenticate_ok _ _ _ _ _ _ _ H1) as (a1 & k1 & p1 & i1 & s1 & c1 & E1 & V1 & _ & _ & R1).
  destruct (authenticate_ok _ _ _ _ _ _ _ H2) as (a2 & k2 & p2 & i2 & s2 & c2 & E2 & V2 & _ & _ & R2).
  rewrite Hr1 in E1. rewrite Hr2 in E2. injection E1 as <- <- <- <- <-. injection E2 as <- <- <- <- <-.
  rewrite remember_jti_small in R1 by done.
  assert (jti st1 !! str_hash (v_jti c1) = Some (saturating_add u64_max (v_exp c1) (leeway p))) as Hin.
  { destruct (jti st !! str_hash (v_jti c1)) as [v|]; [destruct (now <=? v); [done|]|];
      injection R1 as <-; by rewrite lookup_insert_eq. }
  destruct (run_all_remembers p cs now st1 (str_hash (v_jti c1)) (saturating_add u64_max (v_exp c1) (leeway p)) Hc)
    as (Hrem & Hsize); [left; by eexists; split; [exact Hin|]|].
  rewrite remember_jti_small in R2 by done.
  pose proof (validate_claims_valid _ _ _ _ Hl V1) as (_ & _ & Ee1 & _).
  assert (text_claim payload2 (lit "jti") = text_claim payload (lit "jti") -> v_exp c1 + leeway p < now2) as Hexp.
  { intros Ej. assert (v_jti c2 = v_jti c1) as Ejti.
    { apply validate_claims_jti in V1, V2. congruence. }
    rewrite Ejti in R2. unfold saturating_add in *. destruct Hrem as [(u & Hu2 & Hle)|Hlt]; [|lia].
    rewrite Hu2 in R2. destruct (Z.leb_spec now2 u); [done|]. lia. }
  split; [|intros Ej; exists (v_exp c1); auto].
  intros ->. rewrite Hr1 in Hr2. injection Hr2 as <- <- <- <- <-.
  specialize (Hexp eq_refl).
  pose proof (validate_claims_valid _ _ _ _ Hl V2) as (_ & _ & Ee2 & Hn2 & _).
  rewrite Ee1 in Ee2. injection Ee2 as E. lia.
Qed.

(** ** Bindings *)

Lemma check_binding_ok lhs rhs : check_binding lhs rhs = Ok tt <-> exists v, lhs = Some v /\ rhs = Some v.
Proof.
  unfold check_binding. destruct lhs as [l|]; [|split; [done|naive_solver]].
  destruct rhs as [r|]; cbn; [|split; [done|naive_solver]].
  destruct (l =s r) eqn:E.
  - apply bytes_eqb_eq in E as ->. split; [by exists r|done].
  - split; [done|]. intros (v & [= ->] & [= ->]). by rewrite bytes_eqb_refl in E.
Qed.

Lemma check_path_bindings_ok bs principal params : check_path_bindings bs principal params = Ok tt <->
  forall b name, b ∈ bs -> source b = BPath name ->
    exists v, claims principal !! claim b = Some v /\ params !! name = Some v.
Proof.
  induction bs as [|b bs IH]; cbn [check_path_bindings]; [split; [|done]; intros _ b name Hb; by apply not_elem_of_nil in Hb|].
  destruct (source b) as [name|pointer] eqn:Es.
  - pose proof (check_binding_ok (claims principal !! claim b) (params !! name)) as Hb.
    destruct (check_binding _ _) as [[]|f].
    + change (Ok tt ≫= fun _ => check_path_bindings bs principal params) with (check_path_bindings bs principal params).
      rewrite IH. split; [|intros H b' n Hb' E; apply (H b' n); [by right|done]].
      intros H b' n [->|Hb']%elem_of_cons E; [|by apply (H b' n)]. assert (n = name) as -> by congruence. by apply Hb.
    + split; [done|]. intros H. destruct Hb as (_ & Hb). assert (Err f = Ok tt); [|done].
      apply Hb, H; [left|done].
  - rewrite IH. split; [|intros H b' n Hb' E; apply (H b' n); [by right|done]].
    intros H b' n [->|Hb']%elem_of_cons E; [congruence|by apply (H b' n)].
Qed.

Lemma check_body_bindings_ok bs principal json : check_body_bindings bs principal json = Ok tt <->
  forall b pointer, b ∈ bs -> source b = BBody pointer ->
    exists v, claims principal !! claim b = Some v /\ json_field json pointer = Some v.
Proof.
  induction bs as [|b bs IH]; cbn [check_body_bindings]; [split; [|done]; intros _ b name Hb; by apply not_elem_of_nil in Hb|].
  destruct (source b) as [name|pointer] eqn:Es.
  - rewrite IH. split; [|intros H b' n Hb' E; apply (H b' n); [by right|done]].
    intros H b' n [->|Hb']%elem_of_cons E; [congruence|by apply (H b' n)].
  - pose proof (check_binding_ok (claims principal !! claim b) (json_field json pointer)) as Hb.
    destruct (check_binding _ _) as [[]|f].
    + change (Ok tt ≫= fun _ => check_body_bindings bs principal json) with (check_body_bindings bs principal json).
      rewrite IH. split; [|intros H b' n Hb' E; apply (H b' n); [by right|done]].
      intros H b' n [->|Hb']%elem_of_cons E; [|by apply (H b' n)]. assert (n = pointer) as -> by congruence. by apply Hb.
    + split; [done|]. intros H. destruct Hb as (_ & Hb). assert (Err f = Ok tt); [|done].
      apply Hb, H; [left|done].
Qed.

(** The bindings of a policy are enforced: a request passes exactly when each binding to the
    path equates a claim of the principal with that parameter of the canonical path, and
    each binding to a body that is not blank equates a claim with that field of its JSON. *)
Theorem bindings_enforced (p : JwtPolicy) (principal : JwtPrincipal) (path body : bytes) (extra : gmap bytes bytes) :
  (bind_path p principal path extra = Ok tt <->
     forall b name, b ∈ bindings p -> source b = BPath name ->
       exists v, claims principal !! claim b = Some v /\ path_params (paths p) path extra !! name = Some v)
  /\ (forallb is_ascii_whitespace body = false ->
      (bind_body p principal body = Ok tt <->
         forall b pointer, b ∈ bindings p -> source b = BBody pointer ->
           exists v json, claims principal !! claim b = Some v /\ json_from_str body = Some json
                          /\ json_field json pointer = Some v)).
Proof.
  split; [apply check_path_bindings_ok|]. intros Hb. unfold bind_body. rewrite Hb.
  destruct (has_body_bindings p) eqn:Eh; cbn [negb].
  - destruct (json_from_str body) as [json|].
    + change (ok_or _ (Some json) ≫= _) with (check_body_bindings (bindings p) principal json).
      rewrite check_body_bindings_ok. naive_solver.
    + split; [done|]. intros H. apply existsb_exists in Eh as (b & Hin & Es). apply list_elem_of_In in Hin.
      destruct (source b) as [|pointer] eqn:E; [done|]. destruct (H b pointer Hin E) as (? & ? & _ & ? & _). done.
  - split; [|done]. intros _ b pointer Hin E. exfalso. apply not_true_iff_false in Eh. apply Eh.
    apply existsb_exists. exists b. rewrite E. split; [by apply list_elem_of_In|done].
Qed.
End theorems.

(** ** Evaluations *)

Definition demo_payload (id : string) : JsonValue :=
  JObject [(lit "iss", JString (lit "i")); (lit "aud", JArray [JString (lit "a")]); (lit "exp", JNumber (lit "1000"));
           (lit "nbf", JNumber (lit "0")); (lit "iat", JNumber (lit "0")); (lit "jti", JString (lit id));
           (lit "sub", JString (lit "u"))].
Definition demo_serde : SerdeJson := {|
  json_from_str t := if t =s "p" then Some (demo_payload "1") else if t =s "q" then Some (demo_payload "22") else None;
  json_to_string _ := None |}.
Program Definition demo_text : JwtText := {|
  header_from_slice _ := Some {| h_alg := lit "HS256"; h_kid := Some (lit "k"); h_typ := None; h_crit := None |};
  f64_as_u64 _ := None |}.
Next Obligation. done. Qed.
Definition demo_crypto : JwtCrypto := {|
  hmac _ _ _ := Some (lit "mac"); rsa_verify _ _ _ _ := false; p256_verify _ _ _ := false |}.
Program Definition demo_hash : StrHash := {| str_hash s := len s mod 2 ^ 64 |}.
Next Obligation. intros s. unfold u64_max. pose proof (Z.mod_pos_bound (len s) (2 ^ 64)). lia. Qed.
Definition demo_policy : JwtPolicy := {|
  issuer := lit "i"; audience := lit "a"; algorithms := [Hs256]; bindings := []; paths := [];
  hmac_secret := Some (lit "secret"); leeway := 60; ttl := JWKS_TTL; min_refresh := JWKS_MIN_REFRESH;
  jwks_source := SFile [] |}.
Definition demo_state : JwtState := {| jwks := jwks_new; jti := ∅ |}.
Definition demo_world : JwtWorld := {| w_clock _ := 0; w_fetched := Err JwksMissing; w_later st := st |}.

Section evaluations.
Let SH := demo_hash.
Let JT := plain_text.
Let JX := demo_text.
Let JC := demo_crypto.
Let SJ := demo_serde.
Let MO := canonical_order Z Z.
#[local] Existing Instances SH JT JX JC SJ MO.

Definition demo_auth (p : string) : option bytes := Some (lit "Bearer h." ++ lit p ++ lit ".mac").
Definition demo_principal (p : string) : JwtPrincipal :=
  {| sub := lit "u"; tenant := None; claims := claim_texts (demo_payload p) |}.

Lemma authenticate_sound_witness : exists st',
  authenticate demo_policy demo_world (demo_auth "p") 500 demo_state = (st', Ok (demo_principal "1"))
  /\ Hs256 ∈ algorithms demo_policy.
Proof.
  assert (authenticate demo_policy demo_world (demo_auth "p") 500 demo_state
          = ((authenticate demo_policy demo_world (demo_auth "p") 500 demo_state).1, Ok (demo_principal "1"))) as E
    by (vm_compute; reflexivity).
  eexists. split; [exact E|].
  destruct (authenticate_sound demo_policy demo_world (demo_auth "p") 500 demo_state _ _ ltac:(vm_compute; discriminate) E)
    as (alg & kid & payload & input & signature & c & _ & Ha & _).
  destruct alg; [| |exact Ha| |]; exfalso; revert Ha; vm_compute; intros Ha; inversion Ha as [|? ? ? Hn]; inversion Hn.
Defined.

Lemma jwt_single_use_witness : exists st1 st2,
  authenticate demo_policy demo_world (demo_auth "p") 500 demo_state = (st1, Ok (demo_principal "1"))
  /\ authenticate demo_policy demo_world (demo_auth "q") 600 st1 = (st2, Ok (demo_principal "22"))
  /\ demo_auth "q" <> demo_auth "p".
Proof.
  set (st1 := (authenticate demo_policy demo_world (demo_auth "p") 500 demo_state).1).
  set (st2 := (authenticate demo_policy demo_world (demo_auth "q") 600 st1).1).
  assert (authenticate demo_policy demo_world (demo_auth "p") 500 demo_state = (st1, Ok (demo_principal "1"))) as E1
    by (vm_compute; reflexivity).
  assert (authenticate demo_policy demo_world (demo_auth "q") 600 st1 = (st2, Ok (demo_principal "22"))) as E2
    by (vm_compute; reflexivity).
  exists st1, st2. split; [exact E1|]. split; [exact E2|].
  apply (jwt_single_use demo_policy demo_world demo_world (demo_auth "p") (demo_auth "q") 500 600 demo_state st1 st2 []
           (demo_principal "1") (demo_principal "22") Hs256 Hs256 (lit "k") (lit "k") (lit "h.p") (lit "h.q")
           (lit "mac") (lit "mac") (demo_payload "1") (demo_payload "22")).
  - vm_compute. discriminate.
  - vm_compute. discriminate.
  - vm_compute. reflexivity.
  - exact E1.
  - cbn [calls_within]. split; [vm_compute; reflexivity|exact I].
  - vm_compute. discriminate.
  - exact E2.
  - reflexivity.
  - reflexivity.
Defined.

Lemma bindings_enforced_witness :
  bind_body {| issuer := []; audience := []; algorithms := [];
               bindings := [{| claim := lit "sub"; source := BBody (lit "sub") |}]; paths := [];
               hmac_secret := None; leeway := 60; ttl := 0; min_refresh := 0; jwks_source := SFile [] |}
    (demo_principal "1") (lit "p") = Ok tt.
Proof.
  apply (bindings_enforced _ (demo_principal "1") [] (lit "p") ∅); [reflexivity|].
  intros b pointer [->|H]%elem_of_cons E; [|inversion H].
  injection E as <-. exists (lit "u"), (demo_payload "1"). split; [vm_compute; reflexivity|split; reflexivity].
Defined.
End evaluations.
