(* ===== verification/Authz.v ===== *)
(** * Authorization callback ([src/authz.rs], [src/proxy.rs], [src/config.rs])

    Routes that ask the application's decision service, over a Unix socket, whether a
    principal may act on a resource.  The socket is a list of what its operations give; JSON is
    the class [SerdeJson] and the reading of the answer the class [AuthzText]. *)

From S2P Require Import Prelude Text Net Json Window Shield Route Framing Jwks Jwt.

(** [src/authz.rs: const DEFAULT_TIMEOUT + const MAX_TIMEOUT + const MAX_RESPONSE] *)
Definition DEFAULT_TIMEOUT : Duration := from_millis 50.
Definition MAX_TIMEOUT : Duration := from_millis 200.
Definition MAX_RESPONSE : Z := 8 * 1024.

(** [src/authz.rs: enum FailMode] *)
Inductive FailMode : Set := FailClosed | FailOpen.

(** [src/authz.rs: enum ResourceSelector] *)
Inductive ResourceSelector : Type := SelPath (name : bytes) | SelBody (pointer : bytes).

(** [src/authz.rs: struct AuthzPolicy] *)
Record AuthzPolicy : Type := {
  socket : bytes; action : bytes; resource : ResourceSelector; fail_mode : FailMode; timeout : Duration }.

(** [src/authz.rs: enum AuthzVerdict] *)
Inductive AuthzVerdict : Type := AuthzAllow | AuthzDeny | AuthzUnavailable (detail : bytes).

(** [src/authz.rs: struct AuthzRequest] *)
Record AuthzRequest : Type := { rq_principal : bytes; rq_action : bytes; rq_resource : bytes; rq_tenant : option bytes }.

Inductive AuthzError : Type :=
| SocketEmpty | SocketNotLocal | SocketNotUnix (raw : bytes) | SocketNoPath | SocketNotAbsolute (p : bytes)
| ActionEmpty | ResourcePath (r : bytes) | ResourceBody (r : bytes) | ResourceUnknown (r : bytes)
| BadFailMode (m : bytes) | BadTimeout (ms : Z).

(** ** Policies *)

(** [src/authz.rs: fn parse_unix_socket] *)
Definition parse_unix_socket (raw : bytes) : result AuthzError bytes :=
  let raw := trim raw in
  if is_empty raw then Err SocketEmpty
  else
    let lower := to_ascii_lowercase raw in
    if starts_with lower (lit "http://") || starts_with lower (lit "https://")
       || starts_with lower (lit "tcp://") || starts_with lower (lit "grpc://")
    then Err SocketNotLocal
    else
      path ← ok_or (SocketNotUnix raw) (strip_prefix (lit "unix://") raw);
      let path := trim path in
      if is_empty path then Err SocketNoPath
      else if negb (starts_with path [47]) then Err (SocketNotAbsolute path)
      else Ok path.

(** [src/authz.rs: fn parse_resource] *)
Definition parse_resource (raw : bytes) : result AuthzError ResourceSelector :=
  let trimmed := trim raw in
  match strip_prefix (lit "path.") trimmed with
  | Some name =>
      let name := trim name in
      if is_empty name || bool_decide (46 ∈ name) then Err (ResourcePath trimmed) else Ok (SelPath name)
  | None =>
      match strip_prefix (lit "body.") trimmed with
      | Some name => let name := trim name in
                     if is_empty name then Err (ResourceBody trimmed) else Ok (SelBody name)
      | None => Err (ResourceUnknown trimmed)
      end
  end.

(** [src/authz.rs: fn parse_fail_mode] *)
Definition parse_fail_mode (raw : bytes) : result AuthzError FailMode :=
  let raw := trim raw in
  if raw =s "closed" then Ok FailClosed else if raw =s "open" then Ok FailOpen else Err (BadFailMode raw).

(** [src/authz.rs: fn parse_timeout] *)
Definition parse_timeout (timeout_ms : option Z) : result AuthzError Duration :=
  match timeout_ms with
  | None => Ok DEFAULT_TIMEOUT
  | Some ms => if ms =? 0 then Err (BadTimeout ms)
               else if MAX_TIMEOUT / 1000000 <? ms then Err (BadTimeout ms)
               else Ok (from_millis ms)
  end.

(** [src/authz.rs: AuthzPolicy::parse] *)
Definition authz_parse (socket action resource fail_mode : bytes) (timeout_ms : option Z)
  : result AuthzError AuthzPolicy :=
  socket ← parse_unix_socket socket;
  let action := trim action in
  if is_empty action then Err ActionEmpty
  else
    resource ← parse_resource resource;
    fail_mode ← parse_fail_mode fail_mode;
    timeout ← parse_timeout timeout_ms;
    Ok {| socket := socket; action := action; resource := resource; fail_mode := fail_mode; timeout := timeout |}.

(** [src/authz.rs: AuthzPolicy::needs_body] *)
Definition needs_body (p : AuthzPolicy) : bool := match resource p with SelBody _ => true | SelPath _ => false end.

(** The part of a route this component reads: its prefix and its callback. *)
Record AuthzRoute : Type := { route_prefix : bytes; route_authz : option AuthzPolicy }.

(** [src/config.rs: Backend::authz_for] *)
Definition authz_for (routes : list AuthzRoute) (uri : bytes) : option AuthzPolicy :=
  match canonical_route_path (before 63 uri) with
  | None => head (omap route_authz routes)
  | Some path =>
      let matching :=
        base.filter (fun r => bool_decide (is_Some (route_authz r)) && path_matches_prefix path (route_prefix r) = true) routes in
      last (sort_by_key (fun r => len (route_prefix r)) matching) ≫= route_authz
  end.

(** ** The exchange *)

(** [serde_json::from_slice::<AuthzWireResponse>]: the field [allow]. *)
Class AuthzText : Type := { allow_from_slice : bytes -> option bool }.

(** [src/authz.rs: fn encode_http_post] *)
Definition encode_http_post (json : bytes) : bytes :=
  lit "POST /authorize HTTP/1.1" ++ [13; 10] ++ lit "Host: authz" ++ [13; 10]
  ++ lit "Content-Type: application/json" ++ [13; 10] ++ lit "Content-Length: " ++ show_dec (len json) ++ [13; 10]
  ++ lit "Connection: close" ++ [13; 10; 13; 10] ++ json.

(** [src/authz.rs: struct HttpResponse] *)
Record HttpResponse : Type := { status : Z; body : bytes }.

(** The declared length: an error, or the last one given. *)
Fixpoint content_length_of (lines : list bytes) (acc : option Z) : result bytes (option Z) :=
  match lines with
  | [] => Ok acc
  | line :: lines =>
      match split_once 58 line with
      | Some (name, value) =>
          if eq_ignore_ascii_case name "content-length" then
            n ← ok_or (lit "protocol") (parse_uint usize_max (trim value)); content_length_of lines (Some n)
          else content_length_of lines acc
      | None => content_length_of lines acc
      end
  end.

(** [src/authz.rs: fn try_parse_http] *)
Definition try_parse_http (raw : bytes) : option (result bytes HttpResponse) :=
  match split_once_str [13; 10; 13; 10] raw with
  | None => None
  | Some (head, rest) =>
      if negb (is_utf8 head) then Some (Err (lit "protocol"))
      else
        let lines := split_str [13; 10] head in
        match split_whitespace (default [] (hd_error lines)) !! 1%nat with
        | None => Some (Err (lit "protocol"))
        | Some token =>
            match parse_uint u16_max token with
            | None => Some (Err (lit "protocol"))
            | Some status =>
                match content_length_of (tail lines) None with
                | Err e => Some (Err e)
                | Ok (Some n) =>
                    if len rest <? n then None
                    else Some (Ok {| status := status; body := take (Z.to_nat n) rest |})
                | Ok None => Some (Ok {| status := status; body := rest |})
                end
            end
        end
  end.

(** What an operation on the socket gives; an empty chunk is the end of the stream.  [IoTimeout] is the
    end of the time allowed, wherever it falls. *)
Inductive Io (A : Type) : Type := IoOk (a : A) | IoError | IoTimeout.
Arguments IoOk {A} a.
Arguments IoError {A}.
Arguments IoTimeout {A}.

Section exchange.
Context {AT : AuthzText} {SJ : SerdeJson} {JT : JwksText}.

(** [src/authz.rs: fn parse_allow_body] *)
Definition parse_allow_body (status : Z) (body : bytes) : result bytes AuthzVerdict :=
  if negb (status =? 200) then Err (lit "protocol")
  else
    allow ← ok_or (lit "protocol") (allow_from_slice body);
    Ok (if allow : bool then AuthzAllow else AuthzDeny).

Definition answer_of (r : result bytes HttpResponse) : result bytes AuthzVerdict :=
  r ← r; parse_allow_body (status r) (body r).

(** The reading loop; a chunk has at most 2048 bytes. *)
Fixpoint read_answer (reads : list (Io bytes)) (buf : bytes) : result bytes AuthzVerdict :=
  let at_end := match try_parse_http buf with Some r => answer_of r | None => Err (lit "protocol") end in
  match reads with
  | [] => at_end
  | IoTimeout :: _ => Err (lit "timeout")
  | IoError :: _ => Err (lit "timeout")
  | IoOk chunk :: reads =>
      if is_empty chunk then at_end
      else
        let buf := buf ++ chunk in
        if MAX_RESPONSE <? len buf then Err (lit "protocol")
        else match try_parse_http buf with
             | Some r => answer_of r
             | None => read_answer reads buf
             end
  end.

Definition wire_json (r : AuthzRequest) : JsonValue :=
  JObject ([(lit "principal", JString (rq_principal r)); (lit "action", JString (rq_action r));
            (lit "resource", JString (rq_resource r))]
           ++ match rq_tenant r with Some t => [(lit "tenant", JString t)] | None => [] end).

(** What happens on the socket: the connection, the writing, and the readings. *)
Record Exchange : Type := { connected : Io unit; written : Io unit; reads : list (Io bytes) }.

(** [src/authz.rs: fn query_socket @340-400] *)
Definition query_socket (request : AuthzRequest) (x : Exchange) : result bytes AuthzVerdict :=
  match json_to_string (wire_json request) with
  | None => Err (lit "protocol")
  | Some _ =>
      match connected x with
      | IoError => Err (lit "connect")
      | IoTimeout => Err (lit "timeout")
      | IoOk _ =>
          match written x with
          | IoError => Err (lit "connect")
          | IoTimeout => Err (lit "timeout")
          | IoOk _ => read_answer (reads x) []
          end
      end
  end.

(** [src/authz.rs: AuthzPolicy::decide] [exchange] is what the service makes of the bytes written to it. *)
Definition authz_decide (request : AuthzRequest) (exchange : bytes -> Exchange) : AuthzVerdict :=
  let payload := match json_to_string (wire_json request) with Some json => encode_http_post json | None => [] end in
  match query_socket request (exchange payload) with
  | Ok v => v
  | Err detail => AuthzUnavailable detail
  end.

(** [src/authz.rs: AuthzPolicy::extract_resource] *)
Definition extract_resource (p : AuthzPolicy) (path body : bytes) (jwt : option JwtPolicy) (extra : gmap bytes bytes)
  : option bytes :=
  match resource p with
  | SelPath name =>
      (match jwt with Some policy => path_params (paths policy) path extra | None => extra end) !! name
  | SelBody pointer =>
      if forallb is_ascii_whitespace body then None
      else json ← json_from_str body; json_field json pointer
  end.

(** ** The stage of the pipeline *)

Inductive StageAnswer : Type := Continue | Answer403 (reason : bytes).

(** [src/metrics.rs: fn record_authz_unavailable] *)
Definition record_authz_unavailable (site client uri detail : bytes) : MetricEvent :=
  Observed (record_block_in site "authz_unavailable" client uri detail).

(** [src/proxy.rs: FerroadaProxy::reject_authz_deny] *)
Definition reject_authz_deny (site client uri detail : bytes) : StageAnswer * list MetricEvent :=
  (Answer403 (lit "não autorizado"), [Blocked (record_block_in site "authz" client uri detail)]).

(** [src/proxy.rs: FerroadaProxy::reject_authz_unavailable] *)
Definition reject_authz_unavailable (p : AuthzPolicy) (site client uri detail : bytes) : StageAnswer * list MetricEvent :=
  (match fail_mode p with
   | FailClosed => Answer403 (lit "serviço de autorização indisponível")
   | FailOpen => Continue
   end, [record_authz_unavailable site client uri detail]).

(** [src/proxy.rs: FerroadaProxy::apply_authz] *)
Definition apply_authz (routes : list AuthzRoute) (jwt : option JwtPolicy) (principal : option JwtPrincipal)
    (extra : gmap bytes bytes) (exchange : AuthzPolicy -> bytes -> Exchange) (site client uri body : bytes)
  : StageAnswer * list MetricEvent :=
  match authz_for routes uri with
  | None => (Continue, [])
  | Some policy =>
      let path := before 63 uri in
      match principal with
      | None => reject_authz_deny site client uri (lit "principal")
      | Some principal =>
          match extract_resource policy path body jwt extra with
          | None => reject_authz_deny site client uri (lit "resource")
          | Some resource =>
              match authz_decide {| rq_principal := sub principal; rq_action := action policy;
                                    rq_resource := resource; rq_tenant := tenant principal |} (exchange policy) with
              | AuthzAllow => (Continue, [])
              | AuthzDeny => reject_authz_deny site client uri (action policy)
              | AuthzUnavailable detail => reject_authz_unavailable policy site client uri detail
              end
          end
      end
  end.

End exchange.

(** ** The answer of the service *)

Lemma strip_prefix_app p s q r : strip_prefix p s = Some r -> strip_prefix p (s ++ q) = Some (r ++ q).
Proof. intros ->%strip_prefix_spec. apply strip_prefix_spec. by rewrite app_assoc. Qed.

Lemma strip_prefix_none_app p s q : (length p <= length s)%nat -> strip_prefix p s = None -> strip_prefix p (s ++ q) = None.
Proof.
  revert s. induction p as [|b p IH]; intros [|c s] Hl; cbn in *; [done|done|lia|].
  destruct (b =? c); [apply IH; lia|done].
Qed.

Lemma split_once_str_spec sep s a b : split_once_str sep s = Some (a, b) -> s = a ++ sep ++ b.
Proof.
  revert a. induction s as [|c s IH]; intros a; cbn [split_once_str].
  - destruct (strip_prefix sep []) eqn:E; [|done]. intros [= <- <-]. by apply strip_prefix_spec in E.
  - destruct (strip_prefix sep (c :: s)) eqn:E; [intros [= <- <-]; by apply strip_prefix_spec in E|].
    destruct (split_once_str sep s) as [[x y]|]; [|done]. cbn. intros [= <- <-]. by rewrite (IH x).
Qed.

(** The first separator stays the first when bytes follow. *)
Lemma split_once_str_app sep s q a b :
  split_once_str sep s = Some (a, b) -> split_once_str sep (s ++ q) = Some (a, b ++ q).
Proof.
  revert a. induction s as [|c s IH]; intros a; cbn [split_once_str].
  - destruct (strip_prefix sep []) as [r|] eqn:E; [|done]. intros [= <- <-].
    apply (strip_prefix_app _ _ q) in E. cbn [app] in E. by destruct q; cbn [split_once_str app] in *; rewrite E.
  - destruct (strip_prefix sep (c :: s)) as [r|] eqn:E.
    + intros [= <- <-]. apply (strip_prefix_app _ _ q) in E. cbn [app split_once_str] in *. by rewrite E.
    + destruct (split_once_str sep s) as [[x y]|] eqn:Es; [|done]. cbn [mbind option_bind]. intros [= <- <-].
      pose proof (split_once_str_spec _ _ _ _ Es) as Hs.
      assert (length sep <= length (c :: s))%nat as Hl by (rewrite Hs; cbn; rewrite !length_app; lia).
      apply (strip_prefix_none_app _ _ q Hl) in E. cbn [app split_once_str] in *. rewrite E, (IH x) by done. done.
Qed.

(** A response that declares the length of its body. *)
Definition framed (raw : bytes) (r : HttpResponse) : Prop :=
  try_parse_http raw = Some (Ok r)
  /\ exists head rest, split_once_str [13; 10; 13; 10] raw = Some (head, rest)
     /\ content_length_of (tail (split_str [13; 10] head)) None = Ok (Some (len rest)).

Lemma framed_prefix p q r : framed (p ++ q) r -> q <> [] -> try_parse_http p = None.
Proof.
  intros (Hp & head & rest & Hs & Hc) Hq. unfold try_parse_http in *.
  destruct (split_once_str [13; 10; 13; 10] p) as [[h b]|] eqn:E; [|done].
  apply (split_once_str_app _ _ q) in E. rewrite E in Hs, Hp. injection Hs as -> <-.
  destruct (negb (is_utf8 head)); [done|]. cbn zeta in *.
  destruct (split_whitespace _ !! 1%nat) as [token|]; [|done].
  destruct (parse_uint u16_max token) as [st|]; [|done]. rewrite Hc.
  rewrite (proj2 (Z.ltb_lt _ _)); [done|]. rewrite len_app. destruct q; [done|]. rewrite len_cons.
  pose proof (len_nonneg q). lia.
Qed.

Section answers.
Context {AT : AuthzText} {SJ : SerdeJson} {JT : JwksText}.

Lemma read_answer_framed chunks : forall buf r, framed (buf ++ concat chunks) r ->
  Forall (fun c => c <> []) chunks -> len (buf ++ concat chunks) <= MAX_RESPONSE ->
  (chunks = [] -> buf = [] -> False) ->
  read_answer (map IoOk chunks) buf = parse_allow_body (status r) (body r).
Proof.
  induction chunks as [|c chunks IH]; intros buf r Hf Hne Hl Hx.
  - cbn [concat map read_answer] in *. rewrite app_nil_r in Hf. by destruct Hf as (-> & _).
  - apply Forall_cons_1 in Hne as (Hc & Hne). cbn [concat map read_answer] in *.
    destruct (is_empty c) eqn:Ec; [by apply is_empty_true in Ec|]. cbn zeta.
    rewrite app_assoc in Hf, Hl. pose proof (len_nonneg (concat chunks)). rewrite len_app in Hl.
    rewrite (proj2 (Z.ltb_ge _ _)) by lia.
    destruct (concat chunks) as [|x l] eqn:Econ.
    + rewrite app_nil_r in Hf. by destruct Hf as (-> & _).
    + rewrite (framed_prefix _ _ _ Hf) by done. apply IH; try done.
      * by rewrite len_app.
      * by destruct chunks.
Qed.

(** An answer that declares its length is read the same however the socket cuts it: every way
    of splitting it in pieces gives the verdict of the whole answer. *)
Theorem answer_any_segmentation (chunks : list bytes) (r : HttpResponse) :
  framed (concat chunks) r -> Forall (fun c => c <> []) chunks -> len (concat chunks) <= MAX_RESPONSE ->
  read_answer (map IoOk chunks) [] = parse_allow_body (status r) (body r).
Proof.
  intros Hf Hne Hl. apply read_answer_framed; try done. intros -> _. destruct Hf as (H & _). done.
Qed.

(** ** The stage *)

Lemma authz_for_covered routes uri path r p : canonical_route_path (before 63 uri) = Some path ->
  r ∈ routes -> route_authz r = Some p -> path_matches_prefix path (route_prefix r) = true ->
  exists p', authz_for routes uri = Some p'.
Proof.
  intros Hp Hr Ha Hm. unfold authz_for. rewrite Hp. cbn zeta.
  set (m := base.filter _ routes).
  assert (r ∈ sort_by_key (fun r => len (route_prefix r)) m) as Hin.
  { rewrite sort_by_key_perm. apply list_elem_of_filter. rewrite Ha, Hm. split; [|done]. done. }
  destruct (last (sort_by_key _ m)) as [x|] eqn:El.
  - apply last_Some_elem_of in El. rewrite sort_by_key_perm in El. apply list_elem_of_filter in El as (Hx & _).
    apply andb_true_iff in Hx as (Hx%bool_decide_eq_true & _). destruct Hx as (p' & Hp'). by exists p'.
  - apply last_None in El. rewrite El in Hin. by apply not_elem_of_nil in Hin.
Qed.

Lemma authz_for_undecodable routes uri r p : canonical_route_path (before 63 uri) = None ->
  r ∈ routes -> route_authz r = Some p -> exists p', authz_for routes uri = Some p'.
Proof.
  intros Hp Hr Ha. unfold authz_for. rewrite Hp.
  assert (p ∈ omap route_authz routes) as H by (apply list_elem_of_omap; eauto).
  destruct (omap route_authz routes) as [|x l]; [by apply not_elem_of_nil in H|]. by exists x.
Qed.

(** No request reaches a guarded route unasked: when a route that covers the path of a request has a
    callback (or the path cannot be decoded and some route has one), the request
    continues only with a principal and a resource, and only if the service allows it, or
    could not answer and the policy says to fail open; whatever is not let through is
    answered 403 and reported. *)
Theorem authz_mediation (routes : list AuthzRoute) (jwt : option JwtPolicy) (principal : option JwtPrincipal)
    (extra : gmap bytes bytes) (exchange : AuthzPolicy -> bytes -> Exchange) (site client uri body : bytes)
    (r : AuthzRoute) (p : AuthzPolicy) :
  r ∈ routes -> route_authz r = Some p ->
  match canonical_route_path (before 63 uri) with
  | Some path => path_matches_prefix path (route_prefix r) = true
  | None => True
  end ->
  let a := apply_authz routes jwt principal extra exchange site client uri body in
  exists policy, authz_for routes uri = Some policy
    /\ (a.1 = Continue -> exists who what,
          principal = Some who /\ extract_resource policy (before 63 uri) body jwt extra = Some what
          /\ let v := authz_decide {| rq_principal := sub who; rq_action := action policy; rq_resource := what;
                                      rq_tenant := tenant who |} (exchange policy) in
             v = AuthzAllow \/ (fail_mode policy = FailOpen /\ exists d, v = AuthzUnavailable d))
    /\ (a.1 <> Continue -> exists e, a.2 = [e]).
Proof.
  intros Hr Ha Hp a. assert (exists policy, authz_for routes uri = Some policy) as (policy & Hpol).
  { destruct (canonical_route_path _) as [path|] eqn:E; [by eapply authz_for_covered|by eapply authz_for_undecodable]. }
  exists policy. split; [done|]. subst a. unfold apply_authz. rewrite Hpol. cbn zeta.
  destruct principal as [who|]; [|split; [done|by eexists]].
  destruct (extract_resource policy _ body jwt extra) as [what|]; [|split; [done|by eexists]].
  destruct (authz_decide _ _) as [| |detail] eqn:Ev; cbn.
  - split; [|done]. intros _. exists who, what. rewrite Ev. auto.
  - split; [done|by eexists].
  - destruct (fail_mode policy) eqn:Ef; cbn; (split; [|by eexists]); [done|].
    intros _. exists who, what. rewrite Ev. eauto 10.
Qed.
End answers.

(** ** Evaluations *)

Section evaluations.
Definition allow_text : AuthzText := {|
  allow_from_slice b := if b =s "true" then Some true else if b =s "false" then Some false else None |}.
Let AT := allow_text.
Let SJ : SerdeJson := {| json_from_str _ := None; json_to_string _ := Some [] |}.
#[local] Existing Instances AT SJ.

Definition with_length : bytes := lit "HTTP/1.1 200 OK" ++ [13; 10] ++ lit "Content-Length: 5" ++ [13; 10; 13; 10] ++ lit "false".

Lemma answer_any_segmentation_witness :
  read_answer (map IoOk [take 30 with_length; drop 30 with_length]) [] = Ok AuthzDeny.
Proof.
  rewrite (answer_any_segmentation [take 30 with_length; drop 30 with_length] {| status := 200; body := lit "false" |}).
  - reflexivity.
  - split; [vm_compute; reflexivity|]. eexists _, _. split; [vm_compute; reflexivity|vm_compute; reflexivity].
  - repeat constructor; vm_compute; discriminate.
  - vm_compute. discriminate.
Defined.

Definition guarded : AuthzPolicy := {|
  socket := lit "/run/authz"; action := lit "read"; resource := SelPath (lit "id"); fail_mode := FailOpen;
  timeout := DEFAULT_TIMEOUT |}.
Definition guarded_routes : list AuthzRoute := [{| route_prefix := lit "/a"; route_authz := Some guarded |}].
Definition someone : JwtPrincipal := {| sub := lit "u"; tenant := None; claims := ∅ |}.
Definition some_id : gmap bytes bytes := {[ lit "id" := lit "1" ]}.

Lemma authz_mediation_witness : exists policy,
  authz_for guarded_routes (lit "/a/b") = Some policy
  /\ (apply_authz guarded_routes None None ∅ (fun _ _ => {| connected := IoError; written := IoError; reads := [] |})
        [] [] (lit "/a/b") []).1 = Answer403 (lit "não autorizado").
Proof.
  destruct (authz_mediation guarded_routes None None ∅
              (fun _ _ => {| connected := IoError; written := IoError; reads := [] |}) [] [] (lit "/a/b") []
              {| route_prefix := lit "/a"; route_authz := Some guarded |} guarded
              ltac:(left) eq_refl ltac:(vm_compute; reflexivity)) as (policy & Hp & _).
  exists policy. split; [exact Hp|reflexivity].
Defined.

(** Without a declared length the answer is taken as complete as soon as its head is there: a
    refusal whose body comes in the next piece counts as no answer, and a route that fails open
    lets the request through. *)
Example split_refusal_fails_open :
  let head := lit "HTTP/1.1 200 OK" ++ [13; 10] ++ lit "Connection: close" ++ [13; 10; 13; 10] in
  let stage pieces :=
    (apply_authz guarded_routes None (Some someone) some_id
       (fun _ _ => {| connected := IoOk tt; written := IoOk tt; reads := map IoOk pieces |}) [] [] (lit "/a/b") []).1 in
  stage [head ++ lit "false"] = Answer403 (lit "não autorizado") /\ stage [head; lit "false"] = Continue.
Proof. vm_compute. split; reflexivity. Qed.
End evaluations.
