(* ===== verification/Schema.v ===== *)
(** * JSON Schema as the OpenAPI policy checks it ([src/openapi.rs])

    References within a document, the checking of values against schemas, and the coercion of
    text parameters.  The recursion of the code is bounded by a depth, which is the structural argument here: [schema_ok] at depth [S d] calls the code at depth
    [S d] and itself at depth [d].  Equality of numbers and their reading as [f64] belong to
    [serde_json] and [std]: they are the class [JsonNumbers]. *)

From S2P Require Import Prelude Json.

Class JsonNumbers : Type := {
  (* equality of two numbers, given the text they print as *)
  number_eqb : bytes -> bytes -> bool;
  number_eqb_refl : forall t, number_eqb t t = true;
  (* a text read as [f64] and made a number, when it is finite: what it prints as *)
  float_number : bytes -> option bytes;
}.

(** [src/openapi.rs: const MAX_REF_DEPTH + const MAX_SCHEMA_DEPTH] *)
Definition MAX_REF_DEPTH : nat := 32.
Definition MAX_SCHEMA_DEPTH : nat := 32.

(** [src/openapi.rs: struct Fail] *)
Record Fail : Type := { pointer : bytes; reason : bytes }.
Definition fail {A} (pointer : bytes) (reason : string) : result Fail A := Err {| pointer := pointer; reason := reason |}.

(** ** Accessors of [serde_json::Value] *)

Definition as_array (v : JsonValue) : option (list JsonValue) := match v with JArray l => Some l | _ => None end.
Definition as_object (v : JsonValue) : option (list (bytes * JsonValue)) := match v with JObject m => Some m | _ => None end.
Definition as_bool (v : JsonValue) : option bool := match v with JBool b => Some b | _ => None end.
Definition strings (l : list JsonValue) : list bytes := omap as_str l.
Definition properties (schema : JsonValue) : option (list (bytes * JsonValue)) := json_get (lit "properties") schema ≫= as_object.
Definition declared (key : bytes) (schema : JsonValue) : option JsonValue := properties schema ≫= get_member key.
Definition has (key : string) (v : JsonValue) : bool := bool_decide (is_Some (json_get key v)).
Definition get_string (key : string) (v : JsonValue) : option bytes := json_get key v ≫= as_str.
Definition get_array (key : string) (v : JsonValue) : option (list JsonValue) := json_get key v ≫= as_array.
Definition get_bool (key : string) (v : JsonValue) : option bool := json_get key v ≫= as_bool.

(** [str::replace] with a pattern of two characters. *)
Fixpoint replace_pair (a b c : Z) (s : bytes) : bytes :=
  match s with
  | x :: r =>
      match r with
      | y :: t => if (x =? a) && (y =? b) then c :: replace_pair a b c t else x :: replace_pair a b c r
      | [] => [x]
      end
  | [] => []
  end.
Definition replace_byte (c : Z) (by_ s : bytes) : bytes := flat_map (fun b => if b =? c then by_ else [b]) s.

(** [src/openapi.rs: fn json_pointer_escape] *)
Definition json_pointer_escape (key : bytes) : bytes := replace_byte 47 (lit "~1") (replace_byte 126 (lit "~0") key).
Definition unescape_segment (raw : bytes) : bytes := replace_pair 126 48 126 (replace_pair 126 49 47 raw).

(** [src/openapi.rs: fn child_pointer] *)
Definition child_pointer (parent key : bytes) : bytes := parent ++ [47] ++ json_pointer_escape key.

Fixpoint descend (v : JsonValue) (segments : list bytes) : option JsonValue :=
  match segments with
  | [] => Some v
  | raw :: segments =>
      let key := unescape_segment raw in
      v ← match v with
          | JObject members => get_member key members
          | JArray items => i ← parse_uint usize_max key; items !! Z.to_nat i
          | _ => None
          end;
      descend v segments
  end.

(** [src/openapi.rs: fn json_pointer] *)
Definition json_pointer (doc : JsonValue) (rel : bytes) : option JsonValue :=
  match rel with
  | 35 :: rel =>
      match rel with
      | [] => Some doc
      | 47 :: _ => descend doc (tail (split_on 47 rel))
      | _ => None
      end
  | _ => None
  end.

Section schema.
Context {JN : JsonNumbers}.

(** Equality of values; the members of objects are kept sorted by key. *)
Fixpoint json_eqb (a b : JsonValue) : bool :=
  match a, b with
  | JNull, JNull => true
  | JBool x, JBool y => Bool.eqb x y
  | JNumber s, JNumber t => number_eqb s t
  | JString s, JString t => s =s t
  | JArray l, JArray k =>
      (fix go l k := match l, k with
                     | [], [] => true
                     | x :: l, y :: k => json_eqb x y && go l k
                     | _, _ => false end) l k
  | JObject l, JObject k =>
      (fix go (l k : list (bytes * JsonValue)) :=
         match l, k with
         | [], [] => true
         | (n, x) :: l, (m, y) :: k => (n =s m) && json_eqb x y && go l k
         | _, _ => false end) l k
  | _, _ => false
  end.

(** [src/openapi.rs: fn type_names] *)
Definition type_names (schema : JsonValue) : list bytes :=
  match json_get "type" schema with
  | Some (JString t) => [t]
  | Some (JArray items) => strings items
  | _ => []
  end.
Definition has_type (t : string) (schema : JsonValue) : bool := existsb (fun x => x =s t) (type_names schema).

(** [src/openapi.rs: fn deref] *)
Fixpoint deref (doc node : JsonValue) (depth : nat) : result Fail JsonValue :=
  match get_string "$ref" node with
  | None => Ok node
  | Some rel =>
      match depth with
      | O => fail [] "depth"
      | S depth =>
          target ← ok_or {| pointer := []; reason := lit "ref" |} (json_pointer doc rel);
          deref doc target depth
      end
  end.

(** [src/openapi.rs: fn is_json_integer] *)
Definition is_json_integer (v : JsonValue) : bool :=
  match v with
  | JNumber t => bool_decide (is_Some (parse_i64 t)) || bool_decide (is_Some (parse_uint u64_max t))
  | _ => false
  end.

Definition is_null (v : JsonValue) : bool := match v with JNull => true | _ => false end.

(** [src/openapi.rs: fn composition_allows_additional] *)
Fixpoint composition_allows_additional (doc schema : JsonValue) (depth : nat) : bool :=
  match depth with
  | O => false
  | S depth =>
      match get_string "$ref" schema ≫= json_pointer doc with
      | Some target => composition_allows_additional doc target depth
      | None => false
      end
      || bool_decide (get_bool "additionalProperties" schema = Some true)
      || match get_array "allOf" schema with
         | Some all => existsb (fun sub => composition_allows_additional doc sub depth) all
         | None => false
         end
  end.

(** [src/openapi.rs: fn collect_property_names] The names added. *)
Fixpoint collect_property_names (doc schema : JsonValue) (depth : nat) : list bytes :=
  match depth with
  | O => []
  | S depth =>
      match get_string "$ref" schema ≫= json_pointer doc with
      | Some target => collect_property_names doc target depth
      | None => []
      end
      ++ match properties schema with Some props => map fst props | None => [] end
      ++ match get_array "allOf" schema with
         | Some all => flat_map (fun sub => collect_property_names doc sub depth) all
         | None => []
         end
  end.

(** Every element passes, in order. *)
Fixpoint check_all {A} (f : A -> result Fail unit) (l : list A) : result Fail unit :=
  match l with
  | [] => Ok tt
  | x :: l => _ ← f x; check_all f l
  end.

Section node.
(** [rec schema instance pointer strict]: the checking one level deeper. *)
Context (doc : JsonValue) (rec : JsonValue -> JsonValue -> bytes -> bool -> result Fail unit).

(** [src/openapi.rs: fn deny_undeclared] *)
Definition deny_undeclared (schema : JsonValue) (members : list (bytes * JsonValue)) (pointer : bytes)
    (depth : nat) (strict : bool) : result Fail unit :=
  if composition_allows_additional doc schema depth then Ok tt
  else if negb strict && negb (bool_decide (get_bool "additionalProperties" schema = Some false)) then Ok tt
  else
    let allowed := collect_property_names doc schema depth in
    check_all (fun '(key, value) =>
        if bool_decide (key ∈ allowed) then Ok tt
        else
          let child := child_pointer pointer key in
          match json_get "additionalProperties" schema with
          | Some (JBool true) => Ok tt
          | Some (JBool false) | None => fail child "additionalProperties"
          | Some subschema => rec subschema value child true
          end) members.

(** [src/openapi.rs: fn check_array] *)
Definition check_array (schema instance : JsonValue) (pointer : bytes) : result Fail unit :=
  match instance with
  | JArray items =>
      match json_get "items" schema with
      | Some item_schema =>
          check_all (fun '(index, item) => rec item_schema item (pointer ++ [47] ++ show_dec (Z.of_nat index)) true)
            (zip (seq 0 (length items)) items)
      | None => Ok tt
      end
  | _ => fail pointer "type"
  end.

(** [src/openapi.rs: fn check_object] *)
Definition check_object (schema instance : JsonValue) (pointer : bytes) (strict : bool) : result Fail unit :=
  match instance with
  | JObject members =>
      _ ← check_all (fun name => if bool_decide (is_Some (get_member name members)) then Ok tt
                                 else fail (child_pointer pointer name) "required")
            (strings (default [] (get_array "required" schema)));
      check_all (fun '(key, value) =>
          let child := child_pointer pointer key in
          match declared key schema with
          | Some sub => rec sub value child true
          | None =>
              match json_get "additionalProperties" schema with
              | Some (JBool false) => fail child "additionalProperties"
              | Some (JBool true) => Ok tt
              | Some subschema => rec subschema value child true
              | None => if strict then fail child "additionalProperties" else Ok tt
              end
          end) members
  | _ => fail pointer "type"
  end.

(** [src/openapi.rs: fn check_type] *)
Definition check_type (schema : JsonValue) (type_name : bytes) (instance : JsonValue) (pointer : bytes)
    (strict : bool) : result Fail unit :=
  let demand (b : bool) := if b then Ok tt else fail pointer "type" in
  if type_name =s "null" then demand (is_null instance)
  else if type_name =s "boolean" then demand (match instance with JBool _ => true | _ => false end)
  else if type_name =s "string" then demand (match instance with JString _ => true | _ => false end)
  else if type_name =s "integer" then demand (is_json_integer instance)
  else if type_name =s "number" then demand (match instance with JNumber _ => true | _ => false end)
  else if type_name =s "array" then check_array schema instance pointer
  else if type_name =s "object" then check_object schema instance pointer strict
  else Ok tt.

(** The last part of [schema_ok]: the types. *)
Definition check_types (schema instance : JsonValue) (pointer : bytes) (strict : bool) : result Fail unit :=
  let object_strict := strict && negb (has "allOf" schema) in
  match json_get "type" schema with
  | Some (JString t) => check_type schema t instance pointer object_strict
  | Some (JArray types) =>
      if existsb (fun t => is_ok (check_type schema t instance pointer object_strict)) (strings types)
      then Ok tt else fail pointer "type"
  | None =>
      if has "properties" schema || has "additionalProperties" schema || has "required" schema
      then check_type schema "object" instance pointer object_strict
      else if has "items" schema then check_type schema "array" instance pointer object_strict
      else Ok tt
  | _ => Ok tt
  end.

(** The compositions. *)
Definition check_compositions (schema instance : JsonValue) (pointer : bytes) (depth : nat) (strict : bool)
  : result Fail unit :=
  _ ← match get_array "allOf" schema with
      | Some all =>
          _ ← check_all (fun sub => rec sub instance pointer false) all;
          match instance with
          | JObject members => deny_undeclared schema members pointer depth strict
          | _ => Ok tt
          end
      | None => Ok tt
      end;
  _ ← match get_array "anyOf" schema with
      | Some any =>
          if negb (is_empty any) && forallb (fun sub => negb (is_ok (rec sub instance pointer false))) any
          then fail pointer "anyOf" else Ok tt
      | None => Ok tt
      end;
  match get_array "oneOf" schema with
  | Some one =>
      if negb (is_empty one)
         && negb (len (base.filter (fun sub => is_ok (rec sub instance pointer false) = true) one) =? 1)
      then fail pointer "oneOf" else Ok tt
  | None => Ok tt
  end.

(** What the checks of a null value decide: [Some] ends the checking. *)
Definition check_null (schema instance : JsonValue) (pointer : bytes) : option (result Fail unit) :=
  if is_null instance then
    if bool_decide (get_bool "nullable" schema = Some true) then Some (Ok tt)
    else if has_type "null" schema then Some (Ok tt)
    else if is_empty (type_names schema) && negb (has "enum" schema) && negb (has "const" schema)
            && negb (has "properties" schema) then Some (Ok tt)
    else if negb (is_empty (type_names schema)) then Some (fail pointer "type")
    else None
  else None.

(** The part of [schema_ok] after references. *)
Definition check_node (schema instance : JsonValue) (pointer : bytes) (depth : nat) (strict : bool)
  : result Fail unit :=
  if match json_get "const" schema with Some cst => negb (json_eqb instance cst) | None => false end
  then fail pointer "enum"
  else if match get_array "enum" schema with
          | Some en => negb (existsb (fun v => json_eqb v instance) en)
          | None => false
          end
  then fail pointer "enum"
  else
    match check_null schema instance pointer with
    | Some r => r
    | None =>
        _ ← check_compositions schema instance pointer depth strict;
        check_types schema instance pointer strict
    end.
End node.

Definition remove_member (key : bytes) (v : JsonValue) : JsonValue :=
  match v with
  | JObject members => JObject (base.filter (fun m => (m.1 =s key) = false) members)
  | _ => v
  end.
Definition member_count (v : JsonValue) : Z := match v with JObject members => len members | _ => 0 end.

(** [src/openapi.rs: fn schema_ok] *)
Fixpoint schema_ok (doc : JsonValue) (depth : nat) (schema instance : JsonValue) (pointer : bytes) (strict : bool)
  : result Fail unit :=
  match depth with
  | O => fail pointer "depth"
  | S deeper =>
      let rec := schema_ok doc deeper in
      match get_string "$ref" schema with
      | Some rel =>
          target ← ok_or {| pointer := pointer; reason := lit "ref" |} (json_pointer doc rel);
          if 1 <? member_count schema then
            _ ← rec target instance pointer false;
            _ ← rec (remove_member "$ref" schema) instance pointer false;
            match instance with
            | JObject members => deny_undeclared doc rec schema members pointer depth strict
            | _ => Ok tt
            end
          else rec target instance pointer strict
      | None => check_node doc rec schema instance pointer depth strict
      end
  end.

(** ** Text parameters *)

(** [Value::from(n)] for a signed integer. *)
Definition json_of_i64 (n : Z) : JsonValue := JNumber (if n <? 0 then 45 :: show_dec (- n) else show_dec n).

Definition parse_bool (raw : bytes) : option bool :=
  if raw =s "true" then Some true else if raw =s "false" then Some false else None.

(** [src/openapi.rs: fn validate_stringy] *)
Definition validate_stringy (doc schema : JsonValue) (raw : bytes) : result Fail unit :=
  schema ← deref doc schema MAX_REF_DEPTH;
  let check v := schema_ok doc MAX_SCHEMA_DEPTH schema v [] true in
  (* a type that reads the text decides; one that cannot read it needs [string] *)
  let attempt (t : string) (read : option JsonValue) (next : result Fail unit) :=
    if has_type t schema then
      match read with
      | Some v => check v
      | None => if has_type "string" schema then next else fail [] "type"
      end
    else next in
  attempt "integer" (json_of_i64 <$> parse_i64 raw)
    (attempt "number" (JNumber <$> float_number raw)
      (attempt "boolean" (JBool <$> parse_bool raw)
        (check (JString raw)))).

(** [src/openapi.rs: fn coerce_item] *)
Definition coerce_item (doc schema : JsonValue) (raw : bytes) : result Fail JsonValue :=
  schema ← deref doc schema MAX_REF_DEPTH;
  let read (t : string) (o : option JsonValue) (next : JsonValue) :=
    if has_type t schema then default next o else next in
  Ok (read "integer" (json_of_i64 <$> parse_i64 raw)
       (read "number" (JNumber <$> float_number raw)
         (read "boolean" (JBool <$> parse_bool raw) (JString raw)))).

Definition string_schema : JsonValue := JObject [(lit "type", JString (lit "string"))].

(** [src/openapi.rs: fn validate_query_values] *)
Definition validate_query_values (doc schema : JsonValue) (values : list bytes) : result Fail unit :=
  schema ← deref doc schema MAX_REF_DEPTH;
  if has_type "array" schema then
    let items := default string_schema (json_get "items" schema) in
    arr ← collect (coerce_item doc items) values;
    schema_ok doc MAX_SCHEMA_DEPTH schema (JArray arr) [] true
  else check_all (validate_stringy doc schema) values.


(** ** What an accepted object may hold *)

(** The schemas a schema is made of: itself, what its reference leads to, and the parts of its [allOf], and theirs in turn; whatever
    stands in its [anyOf], its [oneOf] or its [required] is none of them. *)
Inductive includes (doc : JsonValue) : JsonValue -> JsonValue -> Prop :=
  | includes_self schema : includes doc schema schema
  | includes_ref schema rel target part : get_string "$ref" schema = Some rel -> json_pointer doc rel = Some target ->
      includes doc target part -> includes doc schema part
  | includes_all schema all sub part : get_array "allOf" schema = Some all -> sub ∈ all -> includes doc sub part -> includes doc schema part.

(** A name is declared when it is one of the [properties] of such a schema. *)
Definition declares (doc schema : JsonValue) (key : bytes) : Prop := exists part sub, includes doc schema part /\ declared key part = Some sub.

(** Other members are let in only where such a schema says so itself. *)
Definition open_schema (doc schema : JsonValue) : Prop :=
  exists part, includes doc schema part /\ json_get "additionalProperties" part = Some (JBool true).

(** The schema given for the members that are not declared, behind bare references; [true] and [false] are none. *)
Inductive for_others (doc : JsonValue) : JsonValue -> JsonValue -> Prop :=
  | others_here schema sub : json_get "additionalProperties" schema = Some sub -> as_bool sub = None -> for_others doc schema sub
  | others_target schema rel target sub : get_string "$ref" schema = Some rel -> member_count schema <= 1 -> json_pointer doc rel = Some target ->
      for_others doc target sub -> for_others doc schema sub.

Definition TYPE_NAMES : list string := ["null"; "boolean"; "string"; "integer"; "number"; "array"; "object"].
Definition known_types (types : list bytes) : bool := forallb (fun t => one_of t TYPE_NAMES) types.

(** The schemas that say what an object holds: a composition of all its parts, a reference with members beside it, a type, or the
    members that stand for the type [object]. *)
Fixpoint describes_object (doc : JsonValue) (depth : nat) (schema : JsonValue) : bool :=
  match depth with
  | O => false
  | S depth =>
      match get_string "$ref" schema with
      | Some rel =>
          (1 <? member_count schema)
          || match json_pointer doc rel with Some target => describes_object doc depth target | None => false end
      | None =>
          bool_decide (is_Some (get_array "allOf" schema))
          || (negb (has "allOf" schema)
              && match json_get "type" schema with
                 | Some (JString t) => one_of t TYPE_NAMES
                 | Some (JArray types) => known_types (strings types)
                 | Some _ => false
                 | None => has "properties" schema || has "additionalProperties" schema || has "required" schema
                 end)
      end
  end.

(** A schema without reference and without [allOf] is all there is of it. *)
Lemma includes_flat doc schema part : get_string "$ref" schema = None -> get_array "allOf" schema = None -> includes doc schema part -> part = schema.
Proof. intros Hr Ha H. inversion H; congruence. Qed.

Lemma closed_flat doc schema : get_string "$ref" schema = None -> get_array "allOf" schema = None ->
  json_get "additionalProperties" schema <> Some (JBool true) -> ~ open_schema doc schema.
Proof. intros Hr Ha Hn (part & Hi & Hp). apply includes_flat in Hi as ->; done. Qed.

Lemma check_all_ok {A} (f : A -> result Fail unit) (l : list A) :
  check_all f l = Ok tt <-> Forall (fun x => f x = Ok tt) l.
Proof.
  induction l as [|x l IH]; simpl; [split; [constructor | done]|].
  rewrite Forall_cons. destruct (f x) as [[]|e]; cbn [mbind result_bind]; [rewrite IH; tauto|].
  split; [done | intros [? ?]; done].
Qed.

(** A member an object of the schema may have. *)
Definition member_ok (doc : JsonValue) (depth : nat) (schema : JsonValue) (pointer : bytes) (m : bytes * JsonValue) : Prop :=
  declares doc schema m.1 \/
  exists d sub, (d < depth)%nat /\ for_others doc schema sub /\ schema_ok doc d sub m.2 (child_pointer pointer m.1) true = Ok tt.

Section members.
Context (doc : JsonValue).

Lemma declared_name schema props key : properties schema = Some props -> key ∈ map fst props -> exists sub, declared key schema = Some sub.
Proof.
  intros Hp Hk. unfold declared. rewrite Hp. cbn [mbind option_bind]. unfold get_member.
  destruct (List.find _ props) as [[k v]|] eqn:Ef; [by exists v|].
  apply list_elem_of_fmap in Hk as ([k v] & -> & Hin). apply list_elem_of_In in Hin. apply List.find_none with (x := (k, v)) in Ef; [|done].
  cbn [fst] in Ef. by rewrite bytes_eqb_refl in Ef.
Qed.

(** The names the code collects are declared. *)
Lemma collected_declared depth : forall schema key, key ∈ collect_property_names doc schema depth -> declares doc schema key.
Proof.
  induction depth as [|d IH]; intros schema key; cbn [collect_property_names]; [by intros ?%elem_of_nil|].
  rewrite !elem_of_app. intros [Hr | [Hp | Ha]].
  - destruct (get_string "$ref" schema) as [rel|] eqn:Er; cbn [mbind option_bind] in Hr; [|by apply elem_of_nil in Hr].
    destruct (json_pointer doc rel) as [target|] eqn:Et; [|by apply elem_of_nil in Hr].
    apply IH in Hr as (part & sub & Hi & Hd). exists part, sub. split; [by eapply includes_ref|done].
  - destruct (properties schema) as [props|] eqn:Ep; [|by apply elem_of_nil in Hp].
    destruct (declared_name _ _ _ Ep Hp) as [sub Hs]. exists schema, sub. split; [apply includes_self|done].
  - destruct (get_array "allOf" schema) as [all|] eqn:Ea; [|by apply elem_of_nil in Ha].
    apply list_elem_of_In, in_flat_map in Ha as (s & Hs & Hk). apply list_elem_of_In in Hs, Hk.
    apply IH in Hk as (part & sub & Hi & Hd). exists part, sub. split; [by eapply includes_all|done].
Qed.

(** Where the code lets other members in, a schema says so. *)
Lemma additional_open depth : forall schema, composition_allows_additional doc schema depth = true -> open_schema doc schema.
Proof.
  induction depth as [|d IH]; intros schema; cbn [composition_allows_additional]; [done|].
  intros [[Hr | Hb]%orb_true_iff | Ha]%orb_true_iff.
  - destruct (get_string "$ref" schema) as [rel|] eqn:Er; cbn [mbind option_bind] in Hr; [|done].
    destruct (json_pointer doc rel) as [target|] eqn:Et; [|done].
    apply IH in Hr as (part & Hi & Hp). exists part. split; [by eapply includes_ref|done].
  - apply bool_decide_eq_true in Hb. unfold get_bool in Hb. destruct (json_get "additionalProperties" schema) as [[|[]| | | |]|] eqn:Ej; try done.
    exists schema. split; [apply includes_self|done].
  - destruct (get_array "allOf" schema) as [all|] eqn:Ea; [|done]. apply existsb_exists in Ha as (s & Hs & Hk). apply list_elem_of_In in Hs.
    apply IH in Hk as (part & Hi & Hp). exists part. split; [by eapply includes_all|done].
Qed.

Lemma closed_collected schema depth : ~ open_schema doc schema -> composition_allows_additional doc schema depth = false.
Proof. intros Hc. destruct (composition_allows_additional doc schema depth) eqn:E; [|done]. by destruct Hc; eapply additional_open. Qed.

Lemma closed_here schema : ~ open_schema doc schema -> json_get "additionalProperties" schema <> Some (JBool true).
Proof. intros Hc Ha. apply Hc. exists schema. split; [apply includes_self|done]. Qed.

(** The member passed the schema for the others. *)
Lemma other_member_ok schema d pointer m sub : ~ open_schema doc schema -> json_get "additionalProperties" schema = Some sub -> sub <> JBool false ->
  schema_ok doc d sub m.2 (child_pointer pointer m.1) true = Ok tt -> member_ok doc (S d) schema pointer m.
Proof.
  intros Hc Ha Hf Hs. right. exists d, sub. split; [lia|]. split; [|done]. apply others_here; [done|].
  apply closed_here in Hc. rewrite Ha in Hc. destruct sub as [|[]| | | |]; done.
Qed.

Lemma deny_undeclared_members schema members pointer d : ~ open_schema doc schema ->
  deny_undeclared doc (schema_ok doc d) schema members pointer (S d) true = Ok tt -> Forall (member_ok doc (S d) schema pointer) members.
Proof.
  intros Hc H. unfold deny_undeclared in H. rewrite (closed_collected _ _ Hc) in H. cbn [negb andb] in H.
  apply check_all_ok in H. eapply Forall_impl; [exact H|]. intros [key value] Hm.
  case_bool_decide as Hk; [left; by apply collected_declared in Hk|].
  destruct (json_get "additionalProperties" schema) as [sub|] eqn:Ha; [|done]. apply (other_member_ok _ _ _ _ sub); try done.
  - intros ->. done.
  - destruct sub as [|[]| | | |]; try done. by destruct (closed_here _ Hc).
Qed.

Lemma check_object_members schema members pointer d : ~ open_schema doc schema ->
  check_object (schema_ok doc d) schema (JObject members) pointer true = Ok tt -> Forall (member_ok doc (S d) schema pointer) members.
Proof.
  intros Hc H. unfold check_object in H.
  destruct (check_all _ (strings _)) as [[]|]; cbn [mbind result_bind] in H; [|done].
  apply check_all_ok in H. eapply Forall_impl; [exact H|]. intros [key value] Hm. cbn beta iota zeta in Hm.
  destruct (declared key schema) as [sub|] eqn:Ed; [left; exists schema, sub; split; [apply includes_self|done]|].
  destruct (json_get "additionalProperties" schema) as [sub|] eqn:Ha; [|done]. apply (other_member_ok _ _ _ _ sub); try done.
  - intros ->. done.
  - destruct sub as [|[]| | | |]; try done. by destruct (closed_here _ Hc).
Qed.

(** A known type other than [object] refuses an object. *)
Lemma check_type_object schema t members pointer d : ~ open_schema doc schema -> one_of t TYPE_NAMES = true ->
  check_type (schema_ok doc d) schema t (JObject members) pointer true = Ok tt -> Forall (member_ok doc (S d) schema pointer) members.
Proof.
  intros Hc Ht. unfold one_of, TYPE_NAMES in Ht. cbn [existsb] in Ht. rewrite orb_false_r in Ht.
  unfold check_type, check_array, is_json_integer, is_null.
  repeat match goal with |- context [if ?b then _ else _] => destruct b; [try done|] end;
    [by apply check_object_members | done].
Qed.

Lemma check_types_members schema members pointer d :
  ~ open_schema doc schema ->
  negb (has "allOf" schema)
  && match json_get "type" schema with
     | Some (JString t) => one_of t TYPE_NAMES
     | Some (JArray types) => known_types (strings types)
     | Some _ => false
     | None => has "properties" schema || has "additionalProperties" schema || has "required" schema
     end = true ->
  check_types (schema_ok doc d) schema (JObject members) pointer true = Ok tt -> Forall (member_ok doc (S d) schema pointer) members.
Proof.
  intros Hc Hd. apply andb_true_iff in Hd as [Hall Hd]. unfold check_types. rewrite Hall. cbn [andb].
  destruct (json_get "type" schema) as [[| | |t|types|]|]; try done.
  - by apply check_type_object.
  - unfold known_types in Hd. rewrite forallb_forall in Hd.
    destruct (existsb _ _) eqn:Ee; [|done]. intros _. apply existsb_exists in Ee as (t & Hin & Ht).
    destruct (check_type _ _ t _ _ _) as [[]|] eqn:Ec; [|done]. apply (check_type_object _ t); [done| |done]. by apply Hd.
  - rewrite Hd. apply check_type_object; [done | reflexivity].
Qed.
End members.

(** Mass assignment: an object that passes a schema describing objects, in the strict mode a body is checked in, holds no member
    but those the schema, its references and the parts of its [allOf] declare, unless one of them sets
    [additionalProperties: true], or gives a schema for the other members, which the member then passes. *)
Lemma undeclared_members (doc schema : JsonValue) (depth : nat) (pointer : bytes) (members : list (bytes * JsonValue)) :
  describes_object doc depth schema = true ->
  ~ open_schema doc schema ->
  schema_ok doc depth schema (JObject members) pointer true = Ok tt -> Forall (member_ok doc depth schema pointer) members.
Proof.
  revert schema. induction depth as [|d IH]; [done|]. intros schema Hd Hc H. cbn [schema_ok] in H. cbn [describes_object] in Hd.
  destruct (get_string "$ref" schema) as [rel|] eqn:Er.
  - destruct (json_pointer doc rel) as [target|] eqn:Et; [|done]. cbn [ok_or mbind result_bind] in H.
    destruct (Z.ltb_spec 1 (member_count schema)).
    + destruct (schema_ok doc d target _ _ false) as [[]|]; [|done]. cbn [mbind result_bind] in H.
      destruct (schema_ok doc d (remove_member _ _) _ _ false) as [[]|]; [|done]. cbn [mbind result_bind] in H.
      by apply deny_undeclared_members.
    + assert (~ open_schema doc target) as Hct by (intros (part & Hi & Hp); apply Hc; exists part; split; [by eapply includes_ref|done]).
      eapply Forall_impl; [by apply IH|]. intros m [(part & sub & Hi & Hs) | (d' & sub & ? & ? & ?)].
      * left. exists part, sub. split; [by eapply includes_ref|done].
      * right. exists d', sub. split; [lia|]. split; [by eapply others_target|done].
  - unfold check_node in H.
    destruct (match json_get "const" schema with Some _ => _ | None => _ end); [done|].
    destruct (match get_array "enum" schema with Some _ => _ | None => _ end); [done|].
    cbn [check_null is_null] in H. unfold check_compositions in H.
    destruct (get_array "allOf" schema) as [all|] eqn:Ea.
    + destruct (check_all _ all) as [[]|]; [|done]. cbn [mbind result_bind] in H.
      destruct (deny_undeclared _ _ _ _ _ _ _) as [[]|] eqn:Eu; [|done]. by apply deny_undeclared_members.
    + rewrite bool_decide_false in Hd by (by intros []). cbn [orb mbind result_bind] in Hd, H.
      destruct (match get_array "anyOf" schema with Some _ => _ | None => _ end) as [[]|]; [|done]. cbn [mbind result_bind] in H.
      destruct (match get_array "oneOf" schema with Some _ => _ | None => _ end) as [[]|]; [|done]. cbn [mbind result_bind] in H.
      by apply check_types_members.
Qed.


(** ** Where a failure points *)

(** A pointer below a value: to the value, into a member or an item of it, or to a member an object lacks. *)
Inductive locates : JsonValue -> bytes -> Prop :=
| locates_here v : locates v []
| locates_member members key x rest : (key, x) ∈ members -> locates x rest ->
    locates (JObject members) ([47] ++ json_pointer_escape key ++ rest)
| locates_missing members key : get_member key members = None ->
    locates (JObject members) ([47] ++ json_pointer_escape key)
| locates_item items i x rest : items !! i = Some x -> locates x rest ->
    locates (JArray items) ([47] ++ show_dec (Z.of_nat i) ++ rest).

Definition points_into (v : JsonValue) (parent : bytes) (m : result Fail unit) : Prop :=
  match m with Ok _ => True | Err f => exists rest, pointer f = parent ++ rest /\ locates v rest end.

Lemma points_fail v parent reason : points_into v parent (fail parent reason).
Proof. exists []. rewrite app_nil_r. split; [done | constructor]. Qed.

Lemma points_bind v parent (m k : result Fail unit) :
  points_into v parent m -> points_into v parent k -> points_into v parent (_ ← m; k).
Proof. by destruct m. Qed.

Lemma points_all {A} v parent (f : A -> result Fail unit) (l : list A) :
  (forall x, x ∈ l -> points_into v parent (f x)) -> points_into v parent (check_all f l).
Proof.
  induction l as [|x l IH]; intros H; simpl; [done|]. apply points_bind; [apply H; constructor|].
  apply IH. intros y Hy. apply H. by constructor.
Qed.

Lemma points_ok v parent : points_into v parent (Ok tt).
Proof. done. Qed.

(** Into a member: what points into its value points into the object. *)
Lemma points_member members parent key x m : (key, x) ∈ members ->
  points_into x (child_pointer parent key) m -> points_into (JObject members) parent m.
Proof.
  intros Hin. destruct m as [|f]; [done|]. intros (rest & Hp & Hl).
  exists ([47] ++ json_pointer_escape key ++ rest). rewrite Hp. unfold child_pointer.
  rewrite <- !app_assoc. split; [done|]. by eapply locates_member.
Qed.

Lemma points_item items parent i x m : items !! i = Some x ->
  points_into x (parent ++ [47] ++ show_dec (Z.of_nat i)) m -> points_into (JArray items) parent m.
Proof.
  intros Hin. destruct m as [|f]; [done|]. intros (rest & Hp & Hl).
  exists ([47] ++ show_dec (Z.of_nat i) ++ rest). rewrite Hp, <- !app_assoc. split; [done|]. by eapply locates_item.
Qed.

Create HintDb points.
#[local] Hint Resolve points_ok points_fail points_bind : points.

Section pointers.
Context (doc : JsonValue) (rec : JsonValue -> JsonValue -> bytes -> bool -> result Fail unit)
  (Hrec : forall schema v parent strict, points_into v parent (rec schema v parent strict)).
#[local] Hint Resolve Hrec : points.

Lemma points_deny schema members parent depth strict :
  points_into (JObject members) parent (deny_undeclared doc rec schema members parent depth strict).
Proof.
  unfold deny_undeclared. destruct (composition_allows_additional doc schema depth); [done|].
  destruct (negb strict && _); [done|]. apply points_all. intros [key value] Hin. case_bool_decide; [done|].
  apply (points_member _ _ key value); [done|].
  destruct (json_get "additionalProperties" schema) as [[| [|] | | | |]|]; auto with points.
Qed.

Lemma points_array schema v parent : points_into v parent (check_array rec schema v parent).
Proof.
  unfold check_array. destruct v as [| | | |items|]; auto with points.
  destruct (json_get "items" schema) as [sub|]; [|done]. apply points_all. intros [i x] Hin.
  apply elem_of_lookup_zip_with in Hin as (j & a & b & [= -> ->] & Hj & Hx).
  apply lookup_seq in Hj as [-> _]. by eapply points_item; [apply Hx|].
Qed.

Lemma points_object schema v parent strict : points_into v parent (check_object rec schema v parent strict).
Proof.
  unfold check_object. destruct v as [| | | | |members]; auto with points. apply points_bind.
  - apply points_all. intros name _. case_bool_decide as Hm; [done|].
    exists ([47] ++ json_pointer_escape name). split; [done|]. apply locates_missing. by apply eq_None_not_Some.
  - apply points_all. intros [key value] Hin. apply (points_member _ _ key value); [done|].
    destruct (declared key schema); auto with points.
    destruct (json_get "additionalProperties" schema) as [[| [|] | | | |]|]; auto with points.
    destruct strict; auto with points.
Qed.
#[local] Hint Resolve points_deny points_array points_object : points.

Lemma points_type schema t v parent strict : points_into v parent (check_type rec schema t v parent strict).
Proof. unfold check_type. repeat case_match; auto with points. Qed.
#[local] Hint Resolve points_type : points.

Lemma points_types schema v parent strict : points_into v parent (check_types rec schema v parent strict).
Proof. unfold check_types. repeat case_match; auto with points. Qed.

Lemma points_compositions schema v parent depth strict :
  points_into v parent (check_compositions doc rec schema v parent depth strict).
Proof.
  unfold check_compositions. apply points_bind.
  - destruct (get_array "allOf" schema); [|done]. apply points_bind; [|destruct v; auto with points].
    apply points_all. auto with points.
  - apply points_bind; repeat case_match; auto with points.
Qed.
#[local] Hint Resolve points_types points_compositions : points.

Lemma points_node schema v parent depth strict : points_into v parent (check_node doc rec schema v parent depth strict).
Proof.
  unfold check_node, check_null. repeat case_match; simplify_eq; auto with points.
Qed.
End pointers.

(** Whatever a check refuses, the pointer it reports leads into the value that was checked: through members it has and items
    within bounds, with [~] and [/] escaped, to a value in it or to a member one of its objects lacks. *)
Theorem fail_pointer_located (doc schema v : JsonValue) (depth : nat) (parent : bytes) (strict : bool) (f : Fail) :
  schema_ok doc depth schema v parent strict = Err f -> exists rest, pointer f = parent ++ rest /\ locates v rest.
Proof.
  cut (forall schema v parent strict, points_into v parent (schema_ok doc depth schema v parent strict)).
  { intros H E. specialize (H schema v parent strict). by rewrite E in H. }
  clear. induction depth as [|d IH]; intros schema v parent strict; [apply points_fail|]. cbn [schema_ok].
  destruct (get_string "$ref" schema) as [rel|]; [|by apply points_node].
  destruct (json_pointer doc rel) as [target|]; cbn [ok_or mbind result_bind].
  - destruct (1 <? member_count schema); [|apply IH]. do 2 (apply points_bind; [apply IH|]).
    destruct v; try done. by apply points_deny.
  - exists []. rewrite app_nil_r. split; [done | constructor].
Qed.

End schema.

(** ** Segments of a pointer *)

Definition escape_byte (b : Z) : bytes := if b =? 126 then [126; 48] else if b =? 47 then [126; 49] else [b].

Lemma json_pointer_escape_bytes key : json_pointer_escape key = flat_map escape_byte key.
Proof.
  unfold json_pointer_escape, replace_byte. induction key as [|b key IH]; [done|]. simpl.
  rewrite flat_map_app, IH. f_equal. unfold escape_byte.
  destruct (Z.eqb_spec b 126) as [-> | Hb]; [done|]. simpl. by destruct (b =? 47).
Qed.

Lemma replace_pair_skip a b c x s : x <> a -> replace_pair a b c (x :: s) = x :: replace_pair a b c s.
Proof. intros Hx. destruct s as [|y s]; [done|]. simpl. by destruct (Z.eqb_spec x a). Qed.

(** What [json_pointer] reads of a segment [child_pointer] wrote is the key. *)
Lemma unescape_escape key : unescape_segment (json_pointer_escape key) = key.
Proof.
  rewrite json_pointer_escape_bytes. unfold unescape_segment.
  assert (replace_pair 126 49 47 (flat_map escape_byte key) = replace_byte 126 (lit "~0") key) as ->.
  { induction key as [|b key IH]; [done|]. cbn [flat_map replace_byte]. unfold escape_byte at 1.
    destruct (Z.eqb_spec b 126) as [-> | H1]; [|destruct (Z.eqb_spec b 47) as [-> | H2]].
    - cbn [app]. change (replace_pair 126 49 47 (126 :: 48 :: flat_map escape_byte key))
        with (126 :: replace_pair 126 49 47 (48 :: flat_map escape_byte key)).
      rewrite replace_pair_skip, IH by done. done.
    - change (47 :: replace_pair 126 49 47 (flat_map escape_byte key) = 47 :: replace_byte 126 (lit "~0") key).
      by rewrite IH.
    - cbn [app]. rewrite replace_pair_skip, IH by done. done. }
  induction key as [|b key IH]; [done|]. cbn [flat_map replace_byte].
  destruct (Z.eqb_spec b 126) as [-> | H1].
  - change (126 :: replace_pair 126 48 126 (replace_byte 126 (lit "~0") key) = 126 :: key). by rewrite IH.
  - cbn [app]. rewrite replace_pair_skip by done. f_equal. exact IH.
Qed.

Section evaluations.
Definition plain_numbers : JsonNumbers :=
  {| number_eqb := bytes_eqb; number_eqb_refl := bytes_eqb_refl; float_number _ := None |}.

Lemma fail_pointer_located_witness :
  let schema := JObject [(lit "items", JObject [(lit "type", JString (lit "integer"))])] in
  exists rest, lit "/1" = [] ++ rest /\ locates (JArray [JNumber (lit "1"); JNull]) rest.
Proof.
  intros schema.
  apply (fail_pointer_located (JN := plain_numbers) JNull schema (JArray [JNumber (lit "1"); JNull]) 3 [] true
    {| pointer := lit "/1"; reason := lit "type" |}).
  vm_compute. reflexivity.
Defined.
End evaluations.
