(* ===== verification/OpenApi.v ===== *)
(** * OpenAPI policy ([src/openapi.rs], [src/proxy.rs])

    The specification compiled at load ([compile]), the choice of the operation for a request
    ([match_path]), the checking of its envelope ([validate_envelope]) and of its body
    ([validate_body]), and the two stages of the proxy that apply them.  Schemas are checked by [Schema]; JSON is the class [SerdeJson] and YAML the class [YamlText]. *)

From S2P Require Import Prelude Text Json Window Route Schema.

(** [serde_yaml::from_str::<Value>] *)
Class YamlText : Type := { yaml_from_str : bytes -> option JsonValue }.

(** [src/openapi.rs: enum UnknownEndpoint] *)
Inductive UnknownEndpoint : Set := Observe | Deny.

(** [src/openapi.rs: UnknownEndpoint::parse] [None] is the panic of the load. *)
Definition UnknownEndpoint_parse (raw : bytes) : option UnknownEndpoint :=
  if trim raw =s "observe" then Some Observe else if trim raw =s "deny" then Some Deny else None.

(** [src/openapi.rs: enum Segment] *)
Inductive Segment : Type := Literal (s : bytes) | Param (name : bytes).

(** [src/openapi.rs: struct CompiledParam] *)
Record CompiledParam : Type := { p_name : bytes; p_required : bool; p_schema : JsonValue }.

(** [src/openapi.rs: struct CompiledMedia] *)
Record CompiledMedia : Type := { pattern : bytes; m_schema : JsonValue }.

(** [src/openapi.rs: struct CompiledBody] *)
Record CompiledBody : Type := { b_required : bool; content : list CompiledMedia }.

(** [src/openapi.rs: struct CompiledOp] *)
Record CompiledOp : Type := {
  path_params : list CompiledParam; query_params : list CompiledParam;
  header_params : list CompiledParam; cookie_params : list CompiledParam;
  op_body : option CompiledBody }.

(** [src/openapi.rs: struct CompiledPath] *)
Record CompiledPath : Type := { template : bytes; segments : list Segment; methods : gmap bytes CompiledOp }.

(** [src/openapi.rs: struct CompiledSpec] *)
Record CompiledSpec : Type := { doc : JsonValue; paths : list CompiledPath; prefixes : list bytes }.

(** [src/openapi.rs: struct OpenApiPolicy] *)
Record OpenApiPolicy : Type := { spec : CompiledSpec; unknown_endpoint : option UnknownEndpoint }.

(** [src/openapi.rs: struct CompiledParamSlot] *)
Record CompiledParamSlot : Type := { location : bytes; slot_param : CompiledParam }.

(** [src/openapi.rs: struct MatchedOp] *)
Record MatchedOp : Type := { m_template : bytes; m_method : bytes; m_op : CompiledOp; m_doc : JsonValue }.

(** [src/openapi.rs: enum EnvelopeVerdict] *)
Inductive EnvelopeVerdict : Type :=
| EnvAllow (matched : MatchedOp) | EnvObserve (detail : bytes) | EnvDeny (detail : bytes).

(** [src/openapi.rs: enum BodyVerdict] *)
Inductive BodyVerdict : Type := BodyAllow | BodyDeny (detail : bytes).

Inductive SpecError : Type :=
| NotUtf8 | BadJson | BadYaml | Swagger | BadVersion | NoVersion | NoPaths
| BadRef (rel : bytes) | ParamNoName | ParamNoIn | ParamIn (location : bytes)
| TemplateRoot | TemplateParam (raw : bytes) | TemplateSegment (raw : bytes).

Definition or_fail {A} (e : SpecError) (o : option A) : fueled SpecError A :=
  match o with Some a => Done a | None => Failed e end.
Definition of_result {E A} (m : result E A) : fueled E A :=
  match m with Ok a => Done a | Err e => Failed e end.
Fixpoint collect_fueled {E A B} (f : A -> fueled E B) (l : list A) : fueled E (list B) :=
  match l with
  | [] => Done []
  | x :: r => y ← f x; ys ← collect_fueled f r; Done (y :: ys)
  end.

(** ** The document *)

Section document.
Context {SJ : SerdeJson} {YT : YamlText}.

(** [src/openapi.rs: fn parse_document] *)
Definition parse_document (text : bytes) : result SpecError JsonValue :=
  if negb (is_utf8 text) then Err NotUtf8
  else if starts_with (trim_start text) [123] then ok_or BadJson (json_from_str text)
  else ok_or BadYaml (yaml_from_str text).

(** [src/openapi.rs: fn openapi_version] A number equal to 3.0 or 3.1 prints as one of three texts. *)
Definition openapi_version (doc : JsonValue) : result SpecError unit :=
  if has "swagger" doc && negb (has "openapi" doc) then Err Swagger
  else
    match json_get "openapi" doc with
    | Some (JString raw) => if starts_with raw "3.0" || starts_with raw "3.1" then Ok tt else Err BadVersion
    | Some (JNumber t) => if one_of t ["3"; "3.0"; "3.1"] then Ok tt else Err BadVersion
    | Some _ => Err BadVersion
    | None => Err NoVersion
    end.

(** [src/openapi.rs: fn server_path_prefix] *)
Definition server_path_prefix (url : bytes) : bytes :=
  let trimmed := trim url in
  let rest := match strip_prefix (lit "https://") trimmed with
              | Some rest => rest
              | None => default trimmed (strip_prefix (lit "http://") trimmed)
              end in
  match (if starts_with rest [47] then Some rest
         else (fun '(_, tail) => 47 :: tail) <$> split_once 47 rest) with
  | None => []
  | Some path => rev (trim_start_matches 47 (rev (before 63 path)))
  end.

(** [src/openapi.rs: fn server_prefixes] *)
Definition server_prefixes (doc : JsonValue) : list bytes :=
  match get_array "servers" doc with
  | None => [[]]
  | Some servers =>
      let push prefixes server :=
        match get_string "url" server with
        | None => prefixes
        | Some url =>
            let prefix := server_path_prefix url in
            if is_empty prefix || bool_decide (prefix ∈ prefixes) then prefixes else prefixes ++ [prefix]
        end in
      sort_by_key (fun p => - len p) (fold_left push servers [[]])
  end.

(** [src/openapi.rs: fn parse_template] *)
Definition parse_template (template : bytes) : result SpecError (list Segment) :=
  if negb (starts_with template [47]) then Err TemplateRoot
  else
    collect (fun raw =>
        match strip_prefix [123] raw ≫= strip_suffix [125] with
        | Some name =>
            if is_empty name || existsb (fun b => (b =? 123) || (b =? 125) || (b =? 47)) name
            then Err (TemplateParam raw) else Ok (Param name)
        | None => if bool_decide (123 ∈ raw) then Err (TemplateSegment raw) else Ok (Literal raw)
        end)
      (base.filter (fun raw => is_empty raw = false) (split_on 47 template)).

Definition is_literal (s : Segment) : bool := match s with Literal _ => true | Param _ => false end.

(** [src/openapi.rs: fn literal_count] *)
Definition literal_count (segments : list Segment) : Z := len (base.filter (fun s => is_literal s = true) segments).

(** [src/openapi.rs: fn freeze] Nothing bounds the references followed: the recursion takes fuel. *)
Fixpoint freeze (fuel : nat) (doc node : JsonValue) : fueled SpecError JsonValue :=
  match fuel with
  | O => NoFuel
  | S fuel =>
      match get_string "$ref" node with
      | Some rel =>
          if 1 <? member_count node then
            _ ← or_fail (BadRef rel) (json_pointer doc rel); Done node
          else
            target ← or_fail (BadRef rel) (json_pointer doc rel);
            if has "$ref" target then freeze fuel doc target else Done target
      | None => Done node
      end
  end.

Definition empty_schema : JsonValue := JObject [].

(** [src/openapi.rs: fn parse_params] *)
Definition parse_params (fuel : nat) (doc : JsonValue) (node : option JsonValue)
  : fueled SpecError (list CompiledParamSlot) :=
  match node ≫= as_array with
  | None => Done []
  | Some list =>
      collect_fueled (fun item =>
          item ← freeze fuel doc item;
          name ← or_fail ParamNoName (get_string "name" item);
          location ← or_fail ParamNoIn (get_string "in" item);
          let required := default (location =s "path") (get_bool "required" item) in
          schema ← freeze fuel doc (default string_schema (json_get "schema" item));
          Done {| location := location;
                  slot_param := {| p_name := name; p_required := required; p_schema := schema |} |}) list
  end.

(** [src/openapi.rs: fn parse_body] *)
Definition parse_body (fuel : nat) (doc : JsonValue) (node : option JsonValue)
  : fueled SpecError (option CompiledBody) :=
  match node with
  | None => Done None
  | Some node =>
      node ← freeze fuel doc node;
      let required := default false (get_bool "required" node) in
      match json_get "content" node ≫= as_object with
      | None => Done (Some {| b_required := required; content := [] |})
      | Some content =>
          medias ← collect_fueled (fun '(pattern, media) =>
                       schema ← freeze fuel doc (default empty_schema (json_get "schema" media));
                       Done {| pattern := to_ascii_lowercase pattern; m_schema := schema |}) content;
          Done (Some {| b_required := required; content := medias |})
      end
  end.

(** [*existing = extra] for the first slot of the same place and name, or [push]. *)
Fixpoint put_slot (extra : CompiledParamSlot) (slots : list CompiledParamSlot) : list CompiledParamSlot :=
  match slots with
  | [] => [extra]
  | slot :: slots =>
      if (location slot =s location extra) && (p_name (slot_param slot) =s p_name (slot_param extra))
      then extra :: slots else slot :: put_slot extra slots
  end.

Definition param_names (segments : list Segment) : list bytes :=
  omap (fun s => match s with Param name => Some name | Literal _ => None end) segments.

Definition slots_in (place : string) (slots : list CompiledParamSlot) : list CompiledParam :=
  map slot_param (base.filter (fun s => (location s =s place) = true) slots).

(** The parameters of the template that no parameter declares. *)
Definition add_param (params : list CompiledParam) (name : bytes) : list CompiledParam :=
  if existsb (fun p => p_name p =s name) params then params
  else params ++ [{| p_name := name; p_required := true; p_schema := string_schema |}].

(** [src/openapi.rs: fn compile_op] *)
Definition compile_op (fuel : nat) (doc op : JsonValue) (shared : list CompiledParamSlot) (segments : list Segment)
  : fueled SpecError CompiledOp :=
  extras ← parse_params fuel doc (json_get "parameters" op);
  let slots := fold_left (fun slots extra => put_slot extra slots) extras shared in
  _ ← of_result (collect (fun slot => if one_of (location slot) ["path"; "query"; "header"; "cookie"] then Ok tt
                                      else Err (ParamIn (location slot))) slots);
  let in_path := fold_left add_param (param_names segments) (slots_in "path" slots) in
  body ← parse_body fuel doc (json_get "requestBody" op);
  Done {| path_params := map (fun p => {| p_name := p_name p; p_required := true; p_schema := p_schema p |}) in_path;
          query_params := slots_in "query" slots; header_params := slots_in "header" slots;
          cookie_params := slots_in "cookie" slots; op_body := body |}.

Definition METHODS : list string := ["get"; "put"; "post"; "delete"; "options"; "head"; "patch"; "trace"].

(** The operations of one path. *)
Definition compile_methods (fuel : nat) (doc item : JsonValue) (shared : list CompiledParamSlot)
    (segments : list Segment) : fueled SpecError (gmap bytes CompiledOp) :=
  ops ← collect_fueled (fun m : string =>
            match json_get m item with
            | None => Done None
            | Some node =>
                node ← freeze fuel doc node;
                op ← compile_op fuel doc node shared segments;
                Done (Some (lit m, op))
            end) METHODS;
  Done (list_to_map (omap id ops)).

(** One entry of [paths]; [None] is an entry left out. *)
Definition compile_path (fuel : nat) (doc : JsonValue) (entry : bytes * JsonValue)
  : fueled SpecError (option CompiledPath) :=
  let '(template, item) := entry in
  if starts_with template "x-" then Done None
  else
    item ← freeze fuel doc item;
    shared ← parse_params fuel doc (json_get "parameters" item);
    segments ← of_result (parse_template template);
    methods ← compile_methods fuel doc item shared segments;
    Done (if decide (methods = ∅) then None
          else Some {| template := template; segments := segments; methods := methods |}).

(** [compiled.sort_by(..)]: more literal segments first, then more segments; the sort is stable. *)
Definition by_specificity (l : list CompiledPath) : list CompiledPath :=
  sort_by_key (fun p => - literal_count (segments p)) (sort_by_key (fun p => - len (segments p)) l).

(** [src/openapi.rs: fn compile] *)
Definition compile (fuel : nat) (text : bytes) : fueled SpecError CompiledSpec :=
  doc ← of_result (parse_document text);
  _ ← of_result (openapi_version doc);
  paths ← or_fail NoPaths (json_get "paths" doc ≫= as_object);
  compiled ← collect_fueled (compile_path fuel doc) paths;
  Done {| doc := doc; paths := by_specificity (omap id compiled); prefixes := server_prefixes doc |}.

(** [src/openapi.rs: OpenApiPolicy::from_bytes + OpenApiPolicy::from_str] *)
Definition from_bytes (fuel : nat) (text : bytes) (unknown : option UnknownEndpoint) : fueled SpecError OpenApiPolicy :=
  spec ← compile fuel text; Done {| spec := spec; unknown_endpoint := unknown |}.
End document.

(** ** The choice of an operation *)

(** [src/openapi.rs: fn strip_prefix] *)
Definition strip_server_prefix (path prefix : bytes) : option bytes :=
  if is_empty prefix then Some path
  else if path =s prefix then Some [47]
  else
    match strip_prefix prefix path with
    | Some rest => if is_empty rest then Some [47] else if starts_with rest [47] then Some rest else None
    | None => None
    end.

(** [path.split('/').filter(|part| !part.is_empty())] *)
Definition path_parts (path : bytes) : list bytes := base.filter (fun part => is_empty part = false) (split_on 47 path).

(** The loop of [match_segments]: literals compared, parameters inserted. *)
Fixpoint match_parts (segments : list Segment) (parts : list bytes) (params : gmap bytes bytes) : option (gmap bytes bytes) :=
  match segments, parts with
  | Literal literal :: segments, part :: parts => if literal =s part then match_parts segments parts params else None
  | Param name :: segments, part :: parts => match_parts segments parts (<[name := part]> params)
  | _, _ => Some params
  end.

(** [src/openapi.rs: fn match_segments] *)
Definition match_segments (segments : list Segment) (path : bytes) : option (gmap bytes bytes) :=
  let parts := path_parts path in
  if negb (len parts =? len segments) then None else match_parts segments parts ∅.

(** The first element that [f] takes. *)
Fixpoint find_map {A B} (f : A -> option B) (l : list A) : option B :=
  match l with
  | [] => None
  | x :: l => match f x with Some y => Some y | None => find_map f l end
  end.

(** [src/openapi.rs: fn match_path] *)
Definition match_path (spec : CompiledSpec) (path method : bytes) : option (bytes * gmap bytes bytes * CompiledOp) :=
  find_map (fun prefix =>
      stripped ← strip_server_prefix path prefix;
      find_map (fun compiled =>
          params ← match_segments (segments compiled) stripped;
          op ← methods compiled !! method;
          Some (template compiled, params, op)) (paths spec)) (prefixes spec).

(** [src/openapi.rs: fn match_path_any_method] *)
Definition match_path_any_method (spec : CompiledSpec) (path : bytes) : bool :=
  existsb (fun prefix =>
      match strip_server_prefix path prefix with
      | Some stripped => existsb (fun compiled => bool_decide (is_Some (match_segments (segments compiled) stripped))) (paths spec)
      | None => false
      end) (prefixes spec).

(** The path as the specification sees it. *)
Definition normalized_path (path : bytes) : bytes := default (before 63 path) (canonical_route_path (before 63 path)).

(** [src/openapi.rs: OpenApiPolicy::path_params] *)
Definition policy_path_params (p : OpenApiPolicy) (path : bytes) : gmap bytes bytes :=
  default ∅ (find_map (fun prefix =>
      stripped ← strip_server_prefix (normalized_path path) prefix;
      find_map (fun compiled => match_segments (segments compiled) stripped) (paths (spec p))) (prefixes (spec p))).

(** ** What a request carries *)

(** The loop of [percent_decode_plus]: what is not an escape stays. *)
Fixpoint decode_escapes (s : bytes) : bytes :=
  match s with
  | [] => []
  | a :: r =>
      match r with
      | b :: c :: t =>
          if a =? 37 then
            match hex_value b, hex_value c with
            | Some high, Some low => Z.lor (Z.shiftl high 4) low :: decode_escapes t
            | _, _ => a :: decode_escapes r
            end
          else a :: decode_escapes r
      | _ => a :: decode_escapes r
      end
  end.

(** [src/openapi.rs: fn percent_decode_plus + fn hex_value] *)
Definition percent_decode_plus (input : bytes) : bytes :=
  utf8_lossy (decode_escapes (map (fun b => if b =? 43 then 32 else b) input)).

(** [src/openapi.rs: fn parse_query] *)
Definition parse_query (query : bytes) : gmap bytes (list bytes) :=
  if is_empty query then ∅
  else
    fold_left (fun (map : gmap bytes (list bytes)) part =>
        if is_empty part then map
        else
          let '(key, value) := default (part, []) (split_once 61 part) in
          let key := percent_decode_plus key in
          <[key := default [] (map !! key) ++ [percent_decode_plus value]]> map)
      (split_on 38 query) ∅.

(** [src/openapi.rs: fn header_values] *)
Definition header_values (headers : list (bytes * bytes)) (name : bytes) : list bytes :=
  map snd (base.filter (fun h => eq_ignore_ascii_case h.1 name = true) headers).

(** [src/openapi.rs: fn cookie_map] *)
Definition cookie_map (headers : list (bytes * bytes)) : gmap bytes bytes :=
  fold_left (fun (map : gmap bytes bytes) cookie =>
      match split_once 61 (trim cookie) with
      | Some (name, raw) => <[name := raw]> map
      | None => map
      end)
    (flat_map (split_on 59) (header_values headers "cookie")) ∅.

(** [src/openapi.rs: fn media_type_key] *)
Definition media_type_key (content_type : bytes) : bytes := to_ascii_lowercase (trim (before 59 content_type)).

(** [src/openapi.rs: fn media_matches] *)
Definition media_matches (pattern key : bytes) : bool :=
  if (pattern =s "*/*") || (pattern =s key) then true
  else match strip_suffix (lit "/*") pattern with
       | Some prefix => starts_with key (prefix ++ [47])
       | None => false
       end.

(** [src/openapi.rs: fn matching_media] *)
Definition matching_media (content : list CompiledMedia) (content_type : bytes) : option CompiledMedia :=
  List.find (fun media => media_matches (pattern media) (media_type_key content_type)) content.

(** [src/openapi.rs: fn content_allowed] *)
Definition content_allowed (content : list CompiledMedia) (content_type : bytes) : bool :=
  bool_decide (is_Some (matching_media content content_type)).

(** [src/openapi.rs: fn is_json_media] *)
Definition is_json_media (pattern content_type : bytes) : bool :=
  let key := media_type_key content_type in
  (key =s "application/json") || ends_with key "+json"
  || (pattern =s "application/json") || ends_with pattern "+json".

(** [src/openapi.rs: OpenApiPolicy::unknown_action] *)
Definition unknown_action (p : OpenApiPolicy) (require_complete : bool) : UnknownEndpoint :=
  default (if require_complete then Deny else Observe) (unknown_endpoint p).

(** [src/openapi.rs: fn named_pointer] *)
Definition named_pointer (name pointer : bytes) : bytes :=
  if is_empty pointer then 47 :: name
  else if starts_with pointer [47] then pointer else 47 :: pointer.

(** ** The envelope *)

Section envelope.
Context {JN : JsonNumbers} {SJ : SerdeJson}.

(** What a parameter that fails says, after the method and the template. *)
Definition param_failure (place : string) (p : CompiledParam) (f : Fail) : bytes :=
  lit place ++ [32] ++ named_pointer (p_name p) (pointer f) ++ [32] ++ reason f.
Definition param_required (place : string) (p : CompiledParam) : bytes :=
  lit place ++ lit " /" ++ p_name p ++ lit " required".

(** One parameter: absent values, the values found, how they are checked. *)
Definition check_param {V} (place : string) (p : CompiledParam) (found : option V) (required : bool)
    (validate : V -> result Fail unit) : result bytes unit :=
  match found with
  | None => if required then Err (param_required place p) else Ok tt
  | Some v => map_err (param_failure place p) (validate v)
  end.

Definition check_path_param (doc : JsonValue) (params : gmap bytes bytes) (p : CompiledParam) : result bytes unit :=
  check_param "path" p (params !! p_name p) true (validate_stringy doc (p_schema p)).
Definition check_query_param (doc : JsonValue) (query : gmap bytes (list bytes)) (p : CompiledParam) : result bytes unit :=
  check_param "query" p (query !! p_name p) (p_required p) (validate_query_values doc (p_schema p)).
Definition check_header_param (doc : JsonValue) (headers : list (bytes * bytes)) (p : CompiledParam) : result bytes unit :=
  let found := header_values headers (p_name p) in
  check_param "header" p (if is_empty found then None else Some found) (p_required p) (validate_query_values doc (p_schema p)).
Definition check_cookie_param (doc : JsonValue) (cookies : gmap bytes bytes) (p : CompiledParam) : result bytes unit :=
  check_param "cookie" p (cookies !! p_name p) (p_required p) (validate_stringy doc (p_schema p)).

Fixpoint each {A} (f : A -> result bytes unit) (l : list A) : result bytes unit :=
  match l with
  | [] => Ok tt
  | x :: l => _ ← f x; each f l
  end.

(** The checks of the operation found, in order: path, query, headers, cookies, type of the body. *)
Definition check_operation (doc : JsonValue) (op : CompiledOp) (params : gmap bytes bytes) (query : option bytes)
    (headers : list (bytes * bytes)) (content_type : option bytes) : result bytes unit :=
  _ ← each (check_path_param doc params) (path_params op);
  _ ← each (check_query_param doc (parse_query (default [] query))) (query_params op);
  _ ← each (check_header_param doc headers) (header_params op);
  _ ← each (check_cookie_param doc (cookie_map headers)) (cookie_params op);
  match op_body op, content_type with
  | Some body, Some ct => if content_allowed (content body) ct then Ok tt else Err (lit "unknown_content_type")
  | _, _ => Ok tt
  end.

(** [src/openapi.rs: OpenApiPolicy::validate_envelope + fn deny] *)
Definition validate_envelope (p : OpenApiPolicy) (method path : bytes) (query : option bytes)
    (headers : list (bytes * bytes)) (content_type : option bytes) (require_complete : bool) : EnvelopeVerdict :=
  let method_lc := to_ascii_lowercase method in
  let normalized := normalized_path path in
  match match_path (spec p) normalized method_lc with
  | None =>
      if match_path_any_method (spec p) normalized
      then EnvDeny (method ++ [32] ++ normalized ++ lit " unknown_method")
      else
        let detail := method ++ [32] ++ normalized ++ lit " unknown_endpoint" in
        match unknown_action p require_complete with Deny => EnvDeny detail | Observe => EnvObserve detail end
  | Some (template, params, op) =>
      match check_operation (doc (spec p)) op params query headers content_type with
      | Err rest => EnvDeny (method ++ [32] ++ template ++ [32] ++ rest)
      | Ok _ => EnvAllow {| m_template := template; m_method := method_lc; m_op := op; m_doc := doc (spec p) |}
      end
  end.

(** ** The body *)

(** [src/openapi.rs: MatchedOp::validate_body] *)
Definition validate_body (m : MatchedOp) (content_type : option bytes) (body : bytes) : BodyVerdict :=
  let say rest := BodyDeny (to_ascii_uppercase (m_method m) ++ [32] ++ m_template m ++ [32] ++ rest) in
  match op_body (m_op m) with
  | None => BodyAllow
  | Some spec_body =>
      if forallb is_ascii_whitespace body then
        if b_required spec_body then say (lit "body required") else BodyAllow
      else
        match content_type with
        | None => say (lit "unknown_content_type")
        | Some ct =>
            match matching_media (content spec_body) ct with
            | None => say (lit "unknown_content_type")
            | Some media =>
                if negb (is_json_media (pattern media) ct) then BodyAllow
                else
                  match json_from_str body with
                  | None => say (lit "body parse")
                  | Some parsed =>
                      match schema_ok (m_doc m) MAX_SCHEMA_DEPTH (m_schema media) parsed [] true with
                      | Err f => say (lit "body " ++ (if is_empty (pointer f) then [47] else pointer f) ++ [32] ++ reason f)
                      | Ok _ => BodyAllow
                      end
                  end
            end
        end
  end.

(** ** The two stages of the proxy *)

(** What a stage does: the request goes on, with the operation it matched; an observation is
    recorded; or the request is refused with 403, the block recorded. *)
Inductive OpenApiStage : Type :=
| StageOn (matched : option MatchedOp) | StageObserved (detail : bytes) | StageRefused (detail : bytes).

(** [src/proxy.rs: FerroadaProxy::apply_openapi_envelope] *)
Definition apply_openapi_envelope (policy : option OpenApiPolicy) (method uri : bytes) (headers : list (bytes * bytes))
    (content_type : option bytes) (require_complete : bool) : OpenApiStage :=
  match policy with
  | None => StageOn None
  | Some policy =>
      let path := before 63 uri in
      let query := snd <$> split_once 63 uri in
      match validate_envelope policy method path query headers content_type require_complete with
      | EnvAllow matched => StageOn (Some matched)
      | EnvObserve detail => StageObserved detail
      | EnvDeny detail => StageRefused detail
      end
  end.

(** [src/proxy.rs: FerroadaProxy::apply_openapi_body] *)
Definition apply_openapi_body (matched : option MatchedOp) (content_type : option bytes) (body : bytes) : OpenApiStage :=
  match matched with
  | None => StageOn None
  | Some m =>
      match validate_body m content_type body with
      | BodyAllow => StageOn None
      | BodyDeny detail => StageRefused detail
      end
  end.
End envelope.

(** ** The operation chosen *)

Lemma find_map_some {A B} (f : A -> option B) l y :
  find_map f l = Some y <-> exists l1 x l2, l = l1 ++ x :: l2 /\ f x = Some y /\ Forall (fun z => f z = None) l1.
Proof.
  induction l as [|x l IH]; simpl; [split; [done | intros ([|? ?] & ? & ? & ? & _); done]|].
  destruct (f x) as [z|] eqn:E.
  - split; [intros [= ->]; exists [], x, l; auto|]. intros ([|x' l1] & x'' & l2 & [= -> ->] & Hy & Hn); [congruence|].
    apply Forall_cons_1 in Hn as [Hn _]. congruence.
  - rewrite IH. split.
    + intros (l1 & x' & l2 & -> & Hy & Hn). exists (x :: l1), x', l2. auto.
    + intros ([|x' l1] & x'' & l2 & [= -> ->] & Hy & Hn); [congruence|]. apply Forall_cons_1 in Hn as [_ Hn]. eauto 10.
Qed.

Lemma find_map_none {A B} (f : A -> option B) l : find_map f l = None <-> Forall (fun z => f z = None) l.
Proof.
  induction l as [|x l IH]; simpl; [split; [constructor | done]|]. rewrite Forall_cons, <- IH.
  destruct (f x); split; [done | by intros [? ?] | auto | tauto].
Qed.

(** A path of the specification that serves a path and a method, behind a prefix of the servers. *)
Definition serves (spec : CompiledSpec) (prefix path method : bytes) (c : CompiledPath) (params : gmap bytes bytes) (op : CompiledOp) : Prop :=
  c ∈ paths spec /\ exists stripped, strip_server_prefix path prefix = Some stripped
    /\ match_segments (segments c) stripped = Some params /\ methods c !! method = Some op.

Definition ordered (l : list CompiledPath) : Prop :=
  StronglySorted (fun a b => literal_count (segments b) <= literal_count (segments a)) l.

Lemma strongly_sorted_weaken {A} (R R' : A -> A -> Prop) l :
  (forall a b, R a b -> R' a b) -> StronglySorted R l -> StronglySorted R' l.
Proof.
  intros Himp. induction 1 as [|x l Hs IH Hf]; constructor; [done|]. eapply Forall_impl; [exact Hf|]. auto.
Qed.

Lemma by_specificity_ordered l : ordered (by_specificity l).
Proof.
  unfold ordered, by_specificity. eapply strongly_sorted_weaken; [|apply sort_by_key_sorted]. cbv beta. lia.
Qed.

Lemma strongly_sorted_split {A} (R : A -> A -> Prop) l1 x l2 y :
  StronglySorted R (l1 ++ x :: l2) -> y ∈ l2 -> R x y.
Proof.
  induction l1 as [|z l1 IH]; simpl; intros H Hy; apply StronglySorted_inv in H as [Hs Hf].
  - by apply (Forall_forall (R x)) with l2.
  - by apply IH.
Qed.

Lemma prefixes_ordered doc : StronglySorted (fun a b => len b <= len a) (server_prefixes doc).
Proof.
  unfold server_prefixes. destruct (get_array _ _); [|repeat constructor].
  eapply strongly_sorted_weaken; [|apply sort_by_key_sorted]. cbv beta. lia.
Qed.

Section choice.
Context {SJ : SerdeJson} {YT : YamlText}.

Lemma wp_post {E A} (m : fueled E A) a Q : m = Done a -> wp m Q -> Q a.
Proof. by intros ->. Qed.

(** What [compile] gives is sorted: the paths by their literal segments, the prefixes by length. *)
Lemma compile_ordered fuel text s :
  compile fuel text = Done s -> ordered (paths s) /\ StronglySorted (fun a b => len b <= len a) (prefixes s).
Proof.
  unfold compile. destruct (parse_document text) as [d|]; [|done]. cbn [of_result mbind fueled_bind].
  destruct (openapi_version d) as [[]|]; [|done]. cbn [of_result mbind fueled_bind].
  destruct (json_get "paths" d ≫= as_object) as [ps|]; [|done]. cbn [or_fail mbind fueled_bind].
  destruct (collect_fueled _ ps) as [c| |]; [|done|done]. cbn [mbind fueled_bind]. intros [= <-].
  split; [apply by_specificity_ordered | apply prefixes_ordered].
Qed.

(** The operation [match_path] picks serves the request, behind a prefix of the servers; no longer
    prefix has a path for it, and every path the specification has for it behind the same prefix has at most as many literal segments. *)
Definition best_operation (s : CompiledSpec) (path method : bytes) (c : CompiledPath) (params : gmap bytes bytes) (op : CompiledOp) : Prop :=
  exists prefix, prefix ∈ prefixes s /\ serves s prefix path method c params op
    /\ (forall c' params' op', serves s prefix path method c' params' op' ->
          literal_count (segments c') <= literal_count (segments c))
    /\ (forall prefix' c' params' op', prefix' ∈ prefixes s -> len prefix < len prefix' ->
          ~ serves s prefix' path method c' params' op').

(** In a compiled specification the operation chosen for a method and a path is one of its own that serves them; no path behind
    a longer server prefix serves them, and none behind the same prefix with more literal segments.  None is chosen exactly when no
    path behind any prefix serves them. *)
Theorem match_path_most_literal (fuel : nat) (text : bytes) (s : CompiledSpec) (path method : bytes) :
  compile fuel text = Done s ->
  (forall t params op, match_path s path method = Some (t, params, op) ->
     exists c, template c = t /\ best_operation s path method c params op)
  /\ (match_path s path method = None <->
     forall prefix c params op, prefix ∈ prefixes s -> ~ serves s prefix path method c params op).
Proof.
  intros [Hp Hx]%compile_ordered. unfold match_path. split.
  - intros t params op (x1 & prefix & x2 & Ex & H & Hn)%find_map_some.
    destruct (strip_server_prefix path prefix) as [stripped|] eqn:Es; [|done]. cbn [mbind option_bind] in H.
    apply find_map_some in H as (c1 & c & c2 & Ec & H & Hm).
    destruct (match_segments (segments c) stripped) as [ps|] eqn:Em; [|done]. cbn [mbind option_bind] in H.
    destruct (methods c !! method) as [o|] eqn:Eo; [|done]. injection H as <- <- <-.
    exists c. split; [done|]. exists prefix. repeat split.
    + rewrite Ex. apply elem_of_app. right. left.
    + rewrite Ec. apply elem_of_app. right. left.
    + eauto.
    + intros c' ps' o' (Hin & st & Hst & Hms & Ho). rewrite Es in Hst. injection Hst as <-.
      rewrite Ec in Hin. apply elem_of_app in Hin as [Hin | Hin].
      * rewrite Forall_forall in Hm. specialize (Hm _ Hin). by rewrite Hms in Hm; cbn in Hm; rewrite Ho in Hm.
      * apply elem_of_cons in Hin as [-> | Hin]; [done|]. unfold ordered in Hp. rewrite Ec in Hp.
        by apply (strongly_sorted_split _ _ _ _ _ Hp).
    + intros prefix' c' ps' o' Hin Hlen (Hc & st & Hst & Hms & Ho). rewrite Ex in Hin.
      apply elem_of_app in Hin as [Hin | Hin].
      * rewrite Forall_forall in Hn. specialize (Hn _ Hin). rewrite Hst in Hn. cbn [mbind option_bind] in Hn.
        apply find_map_none in Hn. rewrite Forall_forall in Hn. specialize (Hn _ Hc). cbv beta in Hn.
        by rewrite Hms in Hn; cbn in Hn; rewrite Ho in Hn.
      * apply elem_of_cons in Hin as [-> | Hin]; [lia|]. rewrite Ex in Hx.
        apply (strongly_sorted_split _ _ _ _ _ Hx) in Hin. lia.
  - rewrite find_map_none, Forall_forall. split.
    + intros H prefix c ps o Hin (Hc & st & Hst & Hms & Ho). specialize (H _ Hin). rewrite Hst in H. cbn [mbind option_bind] in H.
      apply find_map_none in H. rewrite Forall_forall in H. specialize (H _ Hc). cbv beta in H.
      by rewrite Hms in H; cbn in H; rewrite Ho in H.
    + intros H prefix Hin. destruct (strip_server_prefix path prefix) as [st|] eqn:Es; [|done]. cbn [mbind option_bind].
      apply find_map_none, Forall_forall. intros c Hc.
      destruct (match_segments (segments c) st) as [ps|] eqn:Em; [|done]. cbn [mbind option_bind].
      destruct (methods c !! method) as [o|] eqn:Eo; [|done]. edestruct (H prefix c ps o Hin). split; [done|]. eauto.
Qed.
End choice.

(** ** The envelope *)

Section verdicts.
Context {JN : JsonNumbers} {SJ : SerdeJson}.

Lemma each_ok {A} (f : A -> result bytes unit) l : each f l = Ok tt <-> Forall (fun x => f x = Ok tt) l.
Proof.
  induction l as [|x l IH]; simpl; [split; [constructor | done]|]. rewrite Forall_cons.
  destruct (f x) as [[]|]; cbn [mbind result_bind]; [rewrite IH; tauto|]. split; [done | by intros [? ?]].
Qed.

Lemma check_param_ok {V} place p (found : option V) required validate :
  check_param place p found required validate = Ok tt <->
  match found with Some v => validate v = Ok tt | None => required = false end.
Proof.
  unfold check_param. destruct found as [v|]; [|by destruct required].
  destruct (validate v) as [[]|]; simpl; split; congruence.
Qed.

(** What an operation asks of a request. *)
Record fits_operation (d : JsonValue) (op : CompiledOp) (params : gmap bytes bytes) (query : option bytes)
    (headers : list (bytes * bytes)) (content_type : option bytes) : Prop := {
  fits_path : forall q, q ∈ path_params op ->
    exists raw, params !! p_name q = Some raw /\ validate_stringy d (p_schema q) raw = Ok tt;
  fits_query : forall q, q ∈ query_params op ->
    match parse_query (default [] query) !! p_name q with
    | Some values => validate_query_values d (p_schema q) values = Ok tt
    | None => p_required q = false
    end;
  fits_headers : forall q, q ∈ header_params op ->
    match header_values headers (p_name q) with
    | [] => p_required q = false
    | values => validate_query_values d (p_schema q) values = Ok tt
    end;
  fits_cookies : forall q, q ∈ cookie_params op ->
    match cookie_map headers !! p_name q with
    | Some raw => validate_stringy d (p_schema q) raw = Ok tt
    | None => p_required q = false
    end;
  fits_media : forall body ct, op_body op = Some body -> content_type = Some ct ->
    exists media, media ∈ content body /\ media_matches (pattern media) (media_type_key ct) = true;
}.

Lemma content_allowed_iff content ct :
  content_allowed content ct = true <->
  exists media, media ∈ content /\ media_matches (pattern media) (media_type_key ct) = true.
Proof.
  unfold content_allowed, matching_media. rewrite bool_decide_eq_true. split.
  - intros [m Hm]. apply List.find_some in Hm as [Hin H]. exists m. by rewrite list_elem_of_In.
  - intros (m & Hin & H). destruct (List.find _ content) eqn:E; [done|].
    apply List.find_none with (x := m) in E; [congruence|]. by apply list_elem_of_In.
Qed.

Lemma each_iff {A} (f : A -> result bytes unit) l (P : A -> Prop) :
  (forall x, f x = Ok tt <-> P x) -> (exists a, each f l = Ok a) <-> forall x, x ∈ l -> P x.
Proof.
  intros Hf. rewrite <- Forall_forall. split; [intros [[] H] | intros H; exists tt]; apply each_ok in H || apply each_ok;
    (eapply Forall_impl; [exact H|]; intros x; apply Hf).
Qed.

Lemma path_param_ok d params q : check_path_param d params q = Ok tt <->
  exists raw, params !! p_name q = Some raw /\ validate_stringy d (p_schema q) raw = Ok tt.
Proof.
  unfold check_path_param. rewrite check_param_ok. destruct (params !! p_name q) as [raw|]; split;
    [eauto | by intros (? & [= <-] & ?) | done | by intros (? & ? & _)].
Qed.

Lemma header_param_ok d headers q : check_header_param d headers q = Ok tt <->
  match header_values headers (p_name q) with
  | [] => p_required q = false | values => validate_query_values d (p_schema q) values = Ok tt end.
Proof. unfold check_header_param. rewrite check_param_ok. by destruct (header_values _ _). Qed.

Lemma media_ok (body : option CompiledBody) (ct : option bytes) :
  match body, ct with
  | Some body, Some c => if content_allowed (content body) c then Ok tt else Err (lit "unknown_content_type")
  | _, _ => Ok tt
  end = Ok tt <->
  forall b c, body = Some b -> ct = Some c ->
    exists media, media ∈ content b /\ media_matches (pattern media) (media_type_key c) = true.
Proof.
  destruct body as [body|], ct as [c|]; try (split; [intros _ ? ? [=] [=] | done]; fail).
  destruct (content_allowed (content body) c) eqn:E; split; try done.
  - intros _ ? ? [= <-] [= <-]. by apply content_allowed_iff.
  - intros H. specialize (H _ _ eq_refl eq_refl). apply content_allowed_iff in H. congruence.
Qed.

Lemma check_operation_ok d op params query headers ct :
  check_operation d op params query headers ct = Ok tt <-> fits_operation d op params query headers ct.
Proof.
  pose proof (each_iff _ (path_params op) _ (path_param_ok d params)) as H1.
  pose proof (each_iff (check_query_param d (parse_query (default [] query))) (query_params op) _
    (fun q => check_param_ok "query" q _ _ _)) as H2.
  pose proof (each_iff _ (header_params op) _ (header_param_ok d headers)) as H3.
  pose proof (each_iff (check_cookie_param d (cookie_map headers)) (cookie_params op) _
    (fun q => check_param_ok "cookie" q _ _ _)) as H4.
  pose proof (media_ok (op_body op) ct) as H5. unfold check_operation. rewrite bind_ok. split.
  - intros (a1 & E1 & (a2 & E2 & (a3 & E3 & (a4 & E4 & E5)%bind_ok)%bind_ok)%bind_ok).
    split; [apply H1 | apply H2 | apply H3 | apply H4 | by apply H5]; eauto.
  - intros [P1 P2 P3 P4 P5]. apply H1 in P1 as [a1 E1]. apply H2 in P2 as [a2 E2]. apply H3 in P3 as [a3 E3].
    apply H4 in P4 as [a4 E4]. exists a1. split; [done|]. rewrite E2. cbn [mbind result_bind]. rewrite E3. cbn [mbind result_bind].
    rewrite E4. cbn [mbind result_bind]. by apply H5.
Qed.

(** A request passes the envelope exactly when an operation is found for its method and path and the request carries what that
    operation asks: every path parameter; every required parameter of the query, the headers and the cookies; values that all
    satisfy their schemas; and a media type the body declares, when it names one. *)
Theorem envelope_allow_iff (p : OpenApiPolicy) (method path : bytes) (query : option bytes) (headers : list (bytes * bytes))
    (content_type : option bytes) (require_complete : bool) (m : MatchedOp) :
  validate_envelope p method path query headers content_type require_complete = EnvAllow m <->
  exists params,
    match_path (spec p) (normalized_path path) (to_ascii_lowercase method) = Some (m_template m, params, m_op m)
    /\ fits_operation (doc (spec p)) (m_op m) params query headers content_type
    /\ m_method m = to_ascii_lowercase method /\ m_doc m = doc (spec p).
Proof.
  unfold validate_envelope. split.
  - destruct (match_path _ _ _) as [[[t params] op]|].
    + destruct (check_operation _ _ _ _ _ _) as [[]|] eqn:Ec; [|done]. intros [= <-]. apply check_operation_ok in Ec. eauto 10.
    + destruct (match_path_any_method _ _); [done|]. by destruct (unknown_action _ _).
  - destruct m as [t mm op d]. cbn. intros (params & -> & Hf & -> & ->).
    apply check_operation_ok in Hf. by rewrite Hf.
Qed.

(** A path the specification does not know, or not for the method: refused for a method, and for an endpoint unless the policy
    observes, which a route that requires complete inspection does only when it says so. *)
Lemma unknown_request (p : OpenApiPolicy) method path query headers ct rc :
  match_path (spec p) (normalized_path path) (to_ascii_lowercase method) = None ->
  (match_path_any_method (spec p) (normalized_path path) = true
   \/ unknown_endpoint p = Some Deny \/ (rc = true /\ unknown_endpoint p = None)) ->
  exists detail, validate_envelope p method path query headers ct rc = EnvDeny detail.
Proof.
  intros Hm H. unfold validate_envelope. rewrite Hm. unfold unknown_action.
  destruct (match_path_any_method _ _); [eauto|]. destruct H as [? | [-> | [-> ->]]]; [done | eauto | eauto].
Qed.

(** C34. Mass assignment: let the operation's body have a JSON media type whose schema describes objects (by its type, by [properties],
    [required] or [additionalProperties], by [allOf], or behind references to such a schema; a schema with [oneOf] or [anyOf] alone does
    not), and let neither it nor a schema it refers to or lists in [allOf] say [additionalProperties: true].  Then a body that is an object
    passes only if every member is one of the [properties] of those schemas, or passes the schema that is given for the others. *)
Theorem body_members_declared (m : MatchedOp) (ct body : bytes) (spec_body : CompiledBody) (media : CompiledMedia)
    (members : list (bytes * JsonValue)) :
  op_body (m_op m) = Some spec_body -> matching_media (content spec_body) ct = Some media ->
  is_json_media (pattern media) ct = true -> json_from_str body = Some (JObject members) ->
  forallb is_ascii_whitespace body = false ->
  describes_object (m_doc m) MAX_SCHEMA_DEPTH (m_schema media) = true ->
  ~ open_schema (m_doc m) (m_schema media) ->
  apply_openapi_body (Some m) (Some ct) body = StageOn None ->
  Forall (fun member => declares (m_doc m) (m_schema media) member.1
            \/ exists d sub, (d < MAX_SCHEMA_DEPTH)%nat /\ for_others (m_doc m) (m_schema media) sub
                 /\ schema_ok (m_doc m) d sub member.2 (child_pointer [] member.1) true = Ok tt) members.
Proof.
  intros Hb Hm Hj Hp Hw Hd Hc. unfold apply_openapi_body, validate_body. rewrite Hb, Hw, Hm, Hj, Hp. cbn [negb].
  destruct (schema_ok _ _ _ _ _ _) as [[]|] eqn:E; [|done]. intros _. by apply undeclared_members.
Qed.
End verdicts.

(** ** Templates and paths *)

(** A path written from a template and values for its parameters. *)
Definition part_of (params : gmap bytes bytes) (s : Segment) : bytes :=
  match s with Literal l => l | Param name => default [] (params !! name) end.
Definition write_path (segments : list Segment) (params : gmap bytes bytes) : bytes :=
  flat_map (fun s => 47 :: part_of params s) segments.

Definition plain_part (part : bytes) : Prop := part <> [] /\ 47 ∉ part.

Lemma filter_plain (p : bytes) parts : p <> [] ->
  base.filter (fun part : bytes => is_empty part = false) (p :: parts)
  = p :: base.filter (fun part : bytes => is_empty part = false) parts.
Proof. intros H. rewrite filter_cons. destruct p; [done|]. by rewrite decide_True. Qed.

Lemma path_parts_write parts : Forall plain_part parts -> path_parts (flat_map (cons 47) parts) = parts.
Proof.
  intros H. unfold path_parts. destruct parts as [|p parts]; [done|]. cbn [flat_map app].
  assert (forall p parts, Forall plain_part (p :: parts) ->
    base.filter (fun part => is_empty part = false) (split_on 47 (p ++ flat_map (cons 47) parts)) = p :: parts) as Hs.
  { clear. intros p parts. revert p. induction parts as [|q parts IH]; intros p [[Hne Hin] Hp]%Forall_cons_1; cbn [flat_map app].
    - rewrite app_nil_r, split_on_none by done. by rewrite filter_plain.
    - rewrite split_on_app, filter_app, IH by done. rewrite split_on_none by done.
      cbn [app]. change ([p] ++ q :: parts) with (p :: q :: parts).
      change (base.filter (fun part : list Z => is_empty part = false) [p] ++ q :: parts = p :: q :: parts).
      by rewrite filter_plain. }
  change (47 :: p ++ flat_map (cons 47) parts) with ([] ++ 47 :: (p ++ flat_map (cons 47) parts)).
  rewrite split_on_app, filter_app, Hs by done. done.
Qed.

Lemma match_parts_write segments params acc :
  (forall name, name ∈ param_names segments -> is_Some (params !! name)) ->
  (forall name raw, acc !! name = Some raw -> params !! name = Some raw) ->
  exists out, match_parts segments (map (part_of params) segments) acc = Some out
    /\ forall name, out !! name = if decide (name ∈ param_names segments) then params !! name else acc !! name.
Proof.
  revert acc. induction segments as [|[l|n] segments IH]; intros acc Hd Ha; cbn [map match_parts part_of].
  - exists acc. split; [done|]. intros name. rewrite decide_False by (by apply not_elem_of_nil). done.
  - rewrite bytes_eqb_refl. by apply IH.
  - destruct (Hd n) as [raw Hraw]; [by left|]. rewrite Hraw. cbn [default].
    destruct (IH (<[n:=raw]> acc)) as (out & Hm & Ho).
    + intros name Hn. apply Hd. by right.
    + intros name r. destruct (decide (n = name)) as [<- | Hne]; [rewrite lookup_insert_eq; congruence|].
      rewrite lookup_insert_ne by done. apply Ha.
    + exists out. split; [done|]. intros name. rewrite Ho. change (param_names (Param n :: segments)) with (n :: param_names segments).
      destruct (decide (name ∈ param_names segments)) as [Hin | Hnin].
      * rewrite decide_True by (by right). done.
      * destruct (decide (n = name)) as [<- | Hne].
        -- rewrite lookup_insert_eq, decide_True by (by left). done.
        -- rewrite lookup_insert_ne by done. rewrite decide_False; [done|]. intros [-> | ?]%elem_of_cons; done.
Qed.

(** Reading back: a path written from a template with values for its parameters, none empty or with a slash, matches the template,
    and the parameters read are the values written. *)
Theorem match_segments_write (segs : list Segment) (params : gmap bytes bytes) :
  (forall name, is_Some (params !! name) <-> name ∈ param_names segs) ->
  Forall plain_part (map (part_of params) segs) ->
  match_segments segs (write_path segs params) = Some params.
Proof.
  intros Hd Hp. unfold match_segments, write_path.
  assert (flat_map (fun s => 47 :: part_of params s) segs = flat_map (cons 47) (map (part_of params) segs)) as ->.
  { clear. induction segs; simpl; congruence. }
  rewrite path_parts_write by done. unfold len. rewrite length_map, Z.eqb_refl. cbn [negb].
  destruct (match_parts_write segs params ∅) as (out & Hm & Ho).
  - intros name. apply Hd.
  - intros name raw. by rewrite lookup_empty.
  - unfold match_segments. rewrite Hm. f_equal. apply map_eq. intros name. rewrite Ho.
    destruct (decide _) as [|Hn]; [done|]. rewrite lookup_empty. symmetry. apply eq_None_not_Some. by rewrite Hd.
Qed.

(** ** References followed at load *)

(** References that only lead to references, and come back. *)
Lemma freeze_cycle (doc : JsonValue) (cycle : JsonValue -> Prop) :
  (forall node, cycle node -> exists rel target, get_string "$ref" node = Some rel /\ member_count node <= 1
     /\ json_pointer doc rel = Some target /\ has "$ref" target = true /\ cycle target) ->
  forall fuel node, cycle node -> freeze fuel doc node = NoFuel.
Proof.
  intros Hc. induction fuel as [|fuel IH]; intros node Hn; [done|].
  destruct (Hc _ Hn) as (rel & target & Hr & Hm & Hj & Hh & Ht). cbn [freeze]. rewrite Hr.
  rewrite (proj2 (Z.ltb_ge _ _)) by done. rewrite Hj. cbn [or_fail mbind fueled_bind]. rewrite Hh. by apply IH.
Qed.

(** When every chain of bare references gets shorter by some measure, enough fuel gives an answer. *)
Lemma freeze_terminates (doc : JsonValue) (rank : bytes -> nat) :
  (forall rel target rel', json_pointer doc rel = Some target -> get_string "$ref" target = Some rel' ->
     (rank rel' < rank rel)%nat) ->
  forall node fuel, (match get_string "$ref" node with Some rel => S (rank rel) | None => O end < fuel)%nat ->
  freeze fuel doc node <> NoFuel.
Proof.
  intros Hr node fuel. revert node. induction fuel as [|fuel IH]; intros node Hf; [lia|]. cbn [freeze].
  destruct (get_string "$ref" node) as [rel|] eqn:En; [|done].
  destruct (json_pointer doc rel) as [target|] eqn:Ej; [|by destruct (1 <? member_count node)].
  cbn [or_fail mbind fueled_bind]. destruct (1 <? member_count node); [done|].
  destruct (has "$ref" target); [|done]. apply IH.
  destruct (get_string "$ref" target) as [rel'|] eqn:Et; [|lia].
  specialize (Hr _ _ _ Ej Et). lia.
Qed.

(** ** Evaluations *)

Section evaluations.
Definition obj (l : list (string * JsonValue)) : JsonValue := JObject (map (fun '(k, v) => (lit k, v)) l).
Definition str (s : string) : JsonValue := JString (lit s).
Definition text_numbers : JsonNumbers := plain_numbers.

Definition pet_schema : JsonValue :=
  obj [("properties", obj [("name", obj [("type", str "string")])]); ("required", JArray [str "name"]); ("type", str "object")].
Definition pets_doc : JsonValue :=
  obj [("components", obj [("schemas", obj [("Pet", pet_schema)])]);
       ("openapi", str "3.0.3");
       ("paths", obj [
          ("/pets/mine", obj [("get", obj [])]);
          ("/pets/{id}", obj [
             ("get", obj []);
             ("post", obj [("requestBody",
                obj [("content", obj [("application/json",
                   obj [("schema", obj [("$ref", str "#/components/schemas/Pet")])])])])])])]);
       ("servers", JArray [obj [("url", str "https://api.example/v1")]])].
Definition pet_members : list (bytes * JsonValue) := [(lit "name", str "rex")].
Definition pets_json : SerdeJson := {|
  json_from_str b := if b =s "{pets" then Some pets_doc else if b =s "rex" then Some (JObject pet_members) else None;
  json_to_string _ := None |}.
Definition no_yaml : YamlText := {| yaml_from_str _ := None |}.
Let JN := text_numbers.
Let SJ := pets_json.
Let YT := no_yaml.
#[local] Existing Instances JN SJ YT.

Definition pets_spec : CompiledSpec :=
  match compile 4 (lit "{pets") with
  | Done s => s
  | _ => {| doc := JNull; paths := []; prefixes := [] |}
  end.
Definition post_pet : MatchedOp :=
  match match_path pets_spec (lit "/v1/pets/7") (lit "post") with
  | Some (t, _, op) => {| m_template := t; m_method := lit "post"; m_op := op; m_doc := doc pets_spec |}
  | None => {| m_template := []; m_method := []; m_doc := JNull;
               m_op := {| path_params := []; query_params := []; header_params := []; cookie_params := []; op_body := None |} |}
  end.

Lemma match_path_most_literal_witness :
  exists c, template c = lit "/pets/mine" /\
    exists params op, best_operation pets_spec (lit "/v1/pets/mine") (lit "get") c params op.
Proof.
  destruct (match_path pets_spec (lit "/v1/pets/mine") (lit "get")) as [[[t params] op]|] eqn:E; [|by vm_compute in E].
  assert (t = lit "/pets/mine") as -> by (vm_compute in E; injection E as <- _ _; reflexivity).
  assert (compile 4 (lit "{pets") = Done pets_spec) as Hc by (vm_compute; reflexivity).
  destruct (proj1 (match_path_most_literal 4 (lit "{pets") pets_spec (lit "/v1/pets/mine") (lit "get") Hc) _ _ _ E) as (c & Ht & Hb).
  exists c. split; [exact Ht|]. by exists params, op.
Defined.

Lemma match_segments_write_witness :
  match_segments [Literal (lit "pets"); Param (lit "id")] (lit "/pets/7") = Some {[ lit "id" := lit "7" ]}.
Proof.
  assert (write_path [Literal (lit "pets"); Param (lit "id")] {[ lit "id" := lit "7" ]} = lit "/pets/7") as <-
    by (vm_compute; reflexivity).
  apply (match_segments_write [Literal (lit "pets"); Param (lit "id")] {[ lit "id" := lit "7" ]}).
  - intros name. rewrite lookup_singleton_is_Some. cbn. rewrite list_elem_of_singleton. split; congruence.
  - repeat constructor; decide_now || done.
Defined.

Definition pet_body : CompiledBody := default {| b_required := true; content := [] |} (op_body (m_op post_pet)).
Definition pet_media : CompiledMedia := default {| pattern := []; m_schema := JNull |} (head (content pet_body)).

Lemma body_members_declared_witness :
  Forall (fun member => declares (m_doc post_pet) (m_schema pet_media) member.1
            \/ exists d sub, (d < MAX_SCHEMA_DEPTH)%nat /\ for_others (m_doc post_pet) (m_schema pet_media) sub
                 /\ schema_ok (m_doc post_pet) d sub member.2 (child_pointer [] member.1) true = Ok tt) pet_members.
Proof.
  apply (body_members_declared post_pet (lit "application/json") (lit "rex") pet_body pet_media pet_members); try (vm_compute; reflexivity).
  apply closed_flat; [vm_compute; reflexivity..|]. vm_compute. discriminate.
Defined.

(** A composition of alternatives says nothing of other members: an object with a member no alternative declares
    passes it, in the strict mode of bodies. *)
Example one_of_admits_undeclared :
  let schema := obj [("oneOf", JArray [pet_schema])] in
  schema_ok JNull MAX_SCHEMA_DEPTH schema (obj [("admin", JBool true); ("name", str "rex")]) [] true = Ok tt
  /\ schema_ok JNull MAX_SCHEMA_DEPTH pet_schema (obj [("admin", JBool true); ("name", str "rex")]) [] true
     = fail (lit "/admin") "additionalProperties".
Proof. vm_compute. split; reflexivity. Qed.

(** Null passes a composition whatever its parts ask, where a schema of the same type refuses it. *)
Example null_skips_composition :
  schema_ok JNull MAX_SCHEMA_DEPTH (obj [("allOf", JArray [obj [("type", str "string")]])]) JNull [] true = Ok tt
  /\ schema_ok JNull MAX_SCHEMA_DEPTH (obj [("type", str "string")]) JNull [] true = fail [] "type".
Proof. vm_compute. split; reflexivity. Qed.

(** A path item that refers to itself is followed for ever. *)
Example freeze_self_reference :
  let node := obj [("$ref", str "#/paths/~1a")] in
  forall fuel, freeze fuel (obj [("openapi", str "3.0.0"); ("paths", obj [("/a", node)])]) node = NoFuel.
Proof.
  intros node fuel. apply (freeze_cycle _ (eq node)); [|done]. intros ? <-.
  exists (lit "#/paths/~1a"), node. repeat split; vm_compute; congruence.
Qed.

Example envelope_verdicts :
  let p := {| spec := pets_spec; unknown_endpoint := None |} in
  validate_envelope p (lit "DELETE") (lit "/v1/pets/7") None [] None true = EnvDeny (lit "DELETE /v1/pets/7 unknown_method")
  /\ validate_envelope p (lit "GET") (lit "/v1/cats") None [] None true = EnvDeny (lit "GET /v1/cats unknown_endpoint")
  /\ validate_envelope p (lit "GET") (lit "/v1/cats") None [] None false = EnvObserve (lit "GET /v1/cats unknown_endpoint")
  /\ validate_body post_pet (Some (lit "text/xml")) (lit "x") = BodyDeny (lit "POST /pets/{id} unknown_content_type").
Proof. vm_compute. repeat split. Qed.
End evaluations.
