(* ===== verification/WafEngine.v ===== *)
(** * The second layer of the WAF ([src/waf_l1.rs], [src/waf_engine.rs], [src/proxy.rs])

    The settings of the rule engine that runs beside the proxy, per site and route; what is kept from it (routes, media types,
    parameters); the request it is sent over a Unix socket and the reading of its answer; and the stage of the proxy that acts on
    the verdict.  A setting the program rejects makes it panic: the operations that read it
    return [None].  The socket is a list of what its operations give. *)

From S2P Require Import Prelude Text Net Json Http Window Route Shield Inspection Authz.
From S2P Require Framing.

(** ** Settings *)

(** [src/waf_l1.rs: const DEFAULT_ANOMALY_THRESHOLD + const MIN_PARANOIA + const MAX_PARANOIA] *)
Definition DEFAULT_ANOMALY_THRESHOLD : Z := 5.
Definition MIN_PARANOIA : Z := 1.
Definition MAX_PARANOIA : Z := 4.

(** [src/waf_l1.rs: struct L1Settings] *)
Record L1Settings : Type := {
  blocking_paranoia : Z; executing_paranoia : Z; shadow : bool; anomaly_score_threshold : Z; exclude : bool }.

(** [src/waf_l1.rs: struct L1ExclusionFile] *)
Record L1ExclusionFile : Type := {
  xf_prefix : option bytes; xf_parameters : list bytes; xf_content_types : list bytes }.

(** [src/waf_l1.rs: struct L1File] *)
Record L1File : Type := {
  f_blocking : option Z; f_executing : option Z; f_shadow : option bool; f_threshold : option Z;
  f_exclude : option bool; f_exclusions : list L1ExclusionFile }.
Definition L1File_default : L1File := {|
  f_blocking := None; f_executing := None; f_shadow := None; f_threshold := None; f_exclude := None; f_exclusions := [] |}.

(** [src/waf_l1.rs: L1Settings::default_crs] *)
Definition default_crs : L1Settings := {|
  blocking_paranoia := 1; executing_paranoia := 1; shadow := false;
  anomaly_score_threshold := DEFAULT_ANOMALY_THRESHOLD; exclude := false |}.

(** [src/waf_l1.rs: L1Settings::overlay] *)
Definition l1_overlay (s : L1Settings) (patch : L1File) : L1Settings :=
  let blocking := default (blocking_paranoia s) (f_blocking patch) in
  {| blocking_paranoia := blocking;
     executing_paranoia := default (Z.max (executing_paranoia s) blocking) (f_executing patch);
     shadow := default (shadow s) (f_shadow patch);
     anomaly_score_threshold := default (anomaly_score_threshold s) (f_threshold patch);
     exclude := default (exclude s) (f_exclude patch) |}.

(** [src/waf_l1.rs: fn validate_paranoia] *)
Definition validate_paranoia (value : Z) : option unit :=
  if in_range MIN_PARANOIA MAX_PARANOIA value then Some tt else None.

(** [src/waf_l1.rs: L1Settings::validated] *)
Definition validated (s : L1Settings) : option L1Settings :=
  _ ← validate_paranoia (blocking_paranoia s);
  _ ← validate_paranoia (executing_paranoia s);
  if executing_paranoia s <? blocking_paranoia s then None
  else if (anomaly_score_threshold s =? 0) || (10000 <? anomaly_score_threshold s) then None
  else Some s.

(** [src/waf_l1.rs: struct L1Exclusion] *)
Record L1Exclusion : Type := { prefix : option bytes; parameters : list bytes; content_types : list bytes }.

(** [src/waf_l1.rs: fn normalize_media_type] *)
Definition normalize_media_type (raw : bytes) : bytes := to_ascii_lowercase (trim (before 59 raw)).

(** [src/waf_l1.rs: L1Exclusion::from_file] *)
Definition exclusion_from_file (file : L1ExclusionFile) (prefix : option bytes) : option L1Exclusion :=
  let parameters := base.filter (fun name : bytes => is_empty name = false) (map trim (xf_parameters file)) in
  let content_types := base.filter (fun value : bytes => is_empty value = false) (map normalize_media_type (xf_content_types file)) in
  if bool_decide (prefix = None) && is_empty parameters && is_empty content_types then None
  else Some {| prefix := prefix; parameters := parameters; content_types := content_types |}.

(** [src/waf_l1.rs: L1Exclusion::skips_engine] *)
Definition skips_engine (x : L1Exclusion) : bool :=
  is_empty (parameters x) && (bool_decide (is_Some (prefix x)) || negb (is_empty (content_types x))).

(** [src/waf_l1.rs: L1Exclusion::matches + fn prefix_matches] The prefix matching of routes. *)
Definition exclusion_matches (x : L1Exclusion) (path media : option bytes) : bool :=
  match prefix x with
  | None => true
  | Some prefix => match path with Some path => path_matches_prefix path prefix | None => false end
  end
  && (is_empty (content_types x)
      || match media with Some media => existsb (fun allowed => allowed =s media) (content_types x) | None => false end).

(** [src/waf_l1.rs: struct L1RequestPolicy] *)
Record L1RequestPolicy : Type := { skip : bool; settings : L1Settings; exclude_parameters : list bytes }.

(** The names of an exclusion added to those already excluded. *)
Definition add_parameter (names : list bytes) (parameter : bytes) : list bytes :=
  if existsb (fun existing => eq_ignore_ascii_case existing parameter) names then names else names ++ [parameter].

(** The overlays of the matching routes, shortest prefix first, each validated. *)
Definition overlay_routes (settings : L1Settings) (patches : list (bytes * L1File)) (path : bytes) : option L1Settings :=
  fold_left (fun settings patch => s ← settings; validated (l1_overlay s patch.2))
    (sort_by_key (fun patch => len patch.1)
      (base.filter (fun patch => path_matches_prefix path patch.1 = true) patches))
    (Some settings).

(** [src/waf_l1.rs: fn resolve] *)
Definition resolve (settings : L1Settings) (patches : list (bytes * L1File)) (exclusions : list L1Exclusion)
    (path content_type : option bytes) : option L1RequestPolicy :=
  settings ← match path with Some path => overlay_routes settings patches path | None => Some settings end;
  let media := match normalize_media_type <$> content_type with
               | Some media => if is_empty media then None else Some media
               | None => None
               end in
  let matching := base.filter (fun x => exclusion_matches x path media = true) exclusions in
  Some {| skip := exclude settings || existsb skips_engine matching;
          settings := settings;
          exclude_parameters := fold_left (fun names x => fold_left add_parameter (parameters x) names) matching [] |}.

(** ** What the engine is not shown *)

(** [src/waf_l1.rs: fn param_excluded] *)
Definition param_excluded (key : bytes) (names : list bytes) : bool :=
  existsb (fun name => eq_ignore_ascii_case name key) names.

Definition pair_key (pair : bytes) : bytes := default pair (fst <$> split_once 61 pair).

(** The pairs that stay. *)
Definition kept_pairs (names : list bytes) (query : bytes) : list bytes :=
  base.filter (fun pair => (is_empty pair || param_excluded (pair_key pair) names) = false) (split_on 38 query).

(** [src/waf_l1.rs: fn strip_query_params] *)
Definition strip_query_params (uri : bytes) (names : list bytes) : bytes :=
  if is_empty names then uri
  else
    match split_once 63 uri with
    | None => uri
    | Some (path, query) =>
        let kept := kept_pairs names query in
        if is_empty kept then path else path ++ [63] ++ join [38] kept
    end.

(** [src/waf_l1.rs: fn strip_form_body] *)
Definition strip_form_body (body : bytes) (names : list bytes) : bytes :=
  if negb (is_utf8 body) then body else join [38] (kept_pairs names body).

Section strip.
Context {SJ : SerdeJson}.

(** [src/waf_l1.rs: fn strip_json_object_keys] *)
Definition strip_json_object_keys (body : bytes) (names : list bytes) : bytes :=
  match json_from_str body with
  | Some (JObject members) =>
      default body (json_to_string (JObject (base.filter (fun m => param_excluded m.1 names = false) members)))
  | _ => body
  end.

(** [src/waf_l1.rs: fn strip_excluded_body] *)
Definition strip_excluded_body (body : bytes) (content_type : option bytes) (names : list bytes) : bytes :=
  if is_empty names || is_empty body then body
  else
    let media := normalize_media_type (default [] content_type) in
    if media =s "application/x-www-form-urlencoded" then strip_form_body body names
    else if (media =s "application/json") || ends_with media "+json" then strip_json_object_keys body names
    else body.
End strip.

(** ** The engine *)

(** [src/waf_engine.rs: const DEFAULT_TIMEOUT + const DEFAULT_SOCKET + const MAX_RESPONSE] *)
Definition ENGINE_TIMEOUT : Duration := from_millis 500.
Definition DEFAULT_SOCKET : bytes := lit "/run/coraza/waf.sock".
Definition ENGINE_MAX_RESPONSE : Z := 64 * 1024.

(** [src/waf_engine.rs: enum WafEngineKind] *)
Inductive WafEngineKind : Set := Native | Coraza.

#[export] Instance WafEngineKind_eq_dec : EqDecision WafEngineKind.
Proof. solve_decision. Defined.

(** [src/waf_engine.rs: struct WafEngine] *)
Record WafEngine : Type := { kind : WafEngineKind; socket : bytes; timeout : Duration }.

(** [src/waf_engine.rs: WafEngine::native] *)
Definition native : WafEngine := {| kind := Native; socket := DEFAULT_SOCKET; timeout := ENGINE_TIMEOUT |}.

(** A variable trimmed, when something is left of it. *)
Definition filled (raw : option bytes) : option bytes :=
  match trim <$> raw with Some v => if is_empty v then None else Some v | None => None end.

(** [src/waf_engine.rs: fn parse_engine] *)
Definition parse_engine (raw : option bytes) : option WafEngineKind :=
  match filled raw with
  | None => Some Native
  | Some value =>
      let value := to_ascii_lowercase value in
      if value =s "native" then Some Native else if value =s "coraza" then Some Coraza else None
  end.

(** [src/waf_engine.rs: fn parse_timeout] *)
Definition parse_engine_timeout (raw : option bytes) : option Duration :=
  match filled raw with
  | None => Some ENGINE_TIMEOUT
  | Some value =>
      ms ← parse_uint u64_max value;
      if (ms =? 0) || (30000 <? ms) then None else Some (from_millis ms)
  end.

(** [src/waf_engine.rs: WafEngine::from_env] The default socket is not empty: the last check never panics. *)
Definition engine_from_env (env : Env) : option WafEngine :=
  kind ← parse_engine (env "WAF_ENGINE");
  timeout ← parse_engine_timeout (env "WAF_SIDECAR_TIMEOUT_MS");
  let socket := default DEFAULT_SOCKET (filled (env "WAF_SIDECAR_SOCKET")) in
  if bool_decide (kind = Coraza) && is_empty socket then None
  else Some {| kind := kind; socket := socket; timeout := timeout |}.

(** [src/waf_engine.rs: WafEngine::is_coraza] *)
Definition is_coraza (e : WafEngine) : bool := bool_decide (kind e = Coraza).

(** [src/waf_engine.rs: enum L1Verdict] *)
Inductive L1Verdict : Type :=
| Skipped
| L1Allow (rule_ids : list Z) (score : Z)
| L1Block (rule_ids : list Z) (message : bytes) (score : Z)
| Unavailable.

(** [src/waf_engine.rs: struct InspectRequest] *)
Record InspectRequest : Type := {
  ir_method : bytes; ir_uri : bytes; ir_protocol : bytes; ir_headers : list (bytes * bytes);
  ir_body : bytes; ir_client_ip : bytes; ir_policy : L1Settings; ir_exclude_parameters : list bytes }.

(** [src/waf_engine.rs: struct InspectWireResponse] *)
Record InspectWireResponse : Type := { action : bytes; rule_ids : list Z; msg : bytes; score : Z }.

(** [serde_json::from_slice::<InspectWireResponse>] *)
Class EngineText : Type := { inspect_from_slice : bytes -> option InspectWireResponse }.

(** [src/waf_engine.rs: fn l1_detail] *)
Definition l1_detail (rule_ids : list Z) (message : bytes) (score : Z) : bytes :=
  let ids := if is_empty rule_ids then lit "unknown" else join [44] (map show_dec rule_ids) in
  let base := lit "CRS " ++ ids ++ lit " score=" ++ show_dec score in
  if is_empty message then base else base ++ lit ": " ++ message.

(** *** Base 64 *)

Definition TABLE : bytes := lit "ABCDEFGHIJKLMNOPQRSTUVWXYZabcdefghijklmnopqrstuvwxyz0123456789+/".
Definition sextet (n shift : Z) : Z := nth (Z.to_nat (Z.land (Z.shiftr n shift) 63)) TABLE 0.

(** [src/waf_engine.rs: fn b64_encode] *)
Fixpoint b64_encode (s : bytes) : bytes :=
  match s with
  | [] => []
  | a :: [] => let n := Z.shiftl a 16 in [sextet n 18; sextet n 12; 61; 61]
  | a :: b :: [] =>
      let n := Z.lor (Z.shiftl a 16) (Z.shiftl b 8) in [sextet n 18; sextet n 12; sextet n 6; 61]
  | a :: b :: c :: r =>
      let n := Z.lor (Z.lor (Z.shiftl a 16) (Z.shiftl b 8)) c in
      sextet n 18 :: sextet n 12 :: sextet n 6 :: sextet n 0 :: b64_encode r
  end.

(** *** The exchange *)

Definition header_json (h : bytes * bytes) : JsonValue := JArray [JString h.1; JString h.2].

(** [src/waf_engine.rs: struct InspectWire + struct InspectWirePolicy] *)
Definition inspect_wire (r : InspectRequest) : JsonValue :=
  JObject [
    (lit "method", JString (ir_method r)); (lit "uri", JString (ir_uri r)); (lit "protocol", JString (ir_protocol r));
    (lit "headers", JArray (map header_json (ir_headers r)));
    (lit "body_b64", JString (b64_encode (ir_body r))); (lit "client_ip", JString (ir_client_ip r));
    (lit "policy", JObject [
      (lit "blocking_paranoia", JNumber (show_dec (blocking_paranoia (ir_policy r))));
      (lit "executing_paranoia", JNumber (show_dec (executing_paranoia (ir_policy r))));
      (lit "anomaly_score_threshold", JNumber (show_dec (anomaly_score_threshold (ir_policy r))));
      (lit "exclude_parameters", JArray (map JString (ir_exclude_parameters r)))])].

Section exchange.
Context {ET : EngineText} {SJ : SerdeJson}.

(** [src/waf_engine.rs: fn encode_inspect_json] *)
Definition encode_inspect_json (r : InspectRequest) : option bytes := json_to_string (inspect_wire r).

(** [src/waf_engine.rs: fn encode_http_post] *)
Definition engine_http_post (path json : bytes) : bytes :=
  lit "POST " ++ path ++ lit " HTTP/1.1" ++ [13; 10] ++ lit "Host: coraza" ++ [13; 10]
  ++ lit "Content-Type: application/json" ++ [13; 10] ++ lit "Content-Length: " ++ show_dec (len json) ++ [13; 10]
  ++ lit "Connection: close" ++ [13; 10; 13; 10] ++ json.

(** [src/waf_engine.rs: fn encode_http_get] *)
Definition engine_http_get (path : bytes) : bytes :=
  lit "GET " ++ path ++ lit " HTTP/1.1" ++ [13; 10] ++ lit "Host: coraza" ++ [13; 10]
  ++ lit "Connection: close" ++ [13; 10; 13; 10].

(** [src/waf_engine.rs: fn try_parse_http + struct HttpResponse] The function of the same name in [src/authz.rs], the texts of its errors aside. *)
Definition engine_parse_http (raw : bytes) : option (result bytes HttpResponse) := try_parse_http raw.

(** [src/waf_engine.rs: fn parse_inspect_body] *)
Definition parse_inspect_body (status : Z) (body : bytes) : result bytes L1Verdict :=
  if negb (status =? 200) then Err (lit "sidecar HTTP " ++ show_dec status)
  else
    parsed ← ok_or (lit "JSON do sidecar") (inspect_from_slice body);
    let action := to_ascii_lowercase (action parsed) in
    if action =s "allow" then Ok (L1Allow (rule_ids parsed) (score parsed))
    else if action =s "deny" then Ok (L1Block (rule_ids parsed) (msg parsed) (score parsed))
    else Err (lit "ação L1 desconhecida: " ++ action).

Definition engine_answer (r : result bytes HttpResponse) : result bytes L1Verdict :=
  r ← r; parse_inspect_body (status r) (body r).

(** The reading loop; a chunk has at most 8192 bytes, and an empty one is the end. *)
Fixpoint read_engine (reads : list (Io bytes)) (buf : bytes) : result bytes L1Verdict :=
  let at_end := match engine_parse_http buf with
                | Some r => engine_answer r
                | None => Err (lit "resposta HTTP incompleta do sidecar")
                end in
  match reads with
  | [] => at_end
  | IoTimeout :: _ => Err (lit "timeout")
  | IoError :: _ => Err (lit "read")
  | IoOk chunk :: reads =>
      if is_empty chunk then at_end
      else
        let buf := buf ++ chunk in
        if ENGINE_MAX_RESPONSE <? len buf then Err (lit "resposta do sidecar excede o teto")
        else match engine_parse_http buf with
             | Some r => engine_answer r
             | None => read_engine reads buf
             end
  end.

(** [src/waf_engine.rs: fn inspect_socket @425-471] *)
Definition inspect_socket (request : InspectRequest) (exchange : bytes -> Exchange) : result bytes L1Verdict :=
  json ← ok_or (lit "json") (encode_inspect_json request);
  let x := exchange (engine_http_post (lit "/inspect") json) in
  match connected x with
  | IoError => Err (lit "connect")
  | IoTimeout => Err (lit "timeout")
  | IoOk _ =>
      match written x with
      | IoError => Err (lit "write")
      | IoTimeout => Err (lit "timeout")
      | IoOk _ => read_engine (reads x) []
      end
  end.

(** [src/waf_engine.rs: WafEngine::inspect] *)
Definition inspect (e : WafEngine) (request : InspectRequest) (exchange : bytes -> Exchange) : L1Verdict :=
  if negb (is_coraza e) then Skipped
  else match inspect_socket request exchange with Ok v => v | Err _ => Unavailable end.

(** The reading loop of [probe_ready]: it stops at the first response it can read. *)
Fixpoint read_ready (reads : list (Io bytes)) (buf : bytes) : bool :=
  let at_end := match engine_parse_http buf with Some (Ok r) => status r =? 200 | _ => false end in
  match reads with
  | [] => at_end
  | IoTimeout :: _ | IoError :: _ => false
  | IoOk chunk :: reads =>
      if is_empty chunk then at_end
      else
        let buf := buf ++ chunk in
        if ENGINE_MAX_RESPONSE <? len buf then false
        else match engine_parse_http buf with
             | Some (Ok r) => status r =? 200
             | _ => read_ready reads buf
             end
  end.

(** [src/waf_engine.rs: fn probe_ready] *)
Definition probe_ready (exchange : bytes -> Exchange) : bool :=
  let x := exchange (engine_http_get (lit "/readyz")) in
  match connected x with
  | IoOk _ => match written x with IoOk _ => read_ready (reads x) [] | _ => false end
  | _ => false
  end.

(** ** The stage of the proxy *)

(** [src/config.rs: Backend::l1_for] *)
Definition l1_for (settings : L1Settings) (patches : list (bytes * L1File)) (exclusions : list L1Exclusion)
    (uri : bytes) (content_type : option bytes) : option L1RequestPolicy :=
  resolve settings patches exclusions (canonical_route_path (before 63 uri)) content_type.

(** What the stage leaves: an answer, the events recorded, the inspection counters raised, the event type and the rules noted, and whether
    a block was counted against the client. *)
Record L1Outcome : Type := {
  l1_answer : StageAnswer; l1_events : list MetricEvent; l1_counters : list bytes;
  l1_event : bytes; l1_noted : list Z; l1_waf_block : bool }.
Definition l1_pass (events : list MetricEvent) : L1Outcome := {|
  l1_answer := Continue; l1_events := events; l1_counters := []; l1_event := []; l1_noted := []; l1_waf_block := false |}.

(** [src/metrics.rs: fn record_l1_shadow] *)
Definition record_l1_shadow (site client uri detail : bytes) : MetricEvent :=
  Observed (record_block_in site "waf_l1_shadow" client uri detail).

(** [src/waf_engine.rs: fn record_unavailable] and [metrics::record_waf_engine_unavailable]. *)
Definition record_unavailable (site client uri detail : bytes) : MetricEvent :=
  Observed (record_block_in site "waf_engine_unavailable" client uri detail).

(** What the proxy makes of a verdict. *)
Definition act_on_verdict (verdict : L1Verdict) (l1 : L1RequestPolicy) (policy : InspectionPolicy) (site client uri : bytes)
  : L1Outcome :=
  match verdict with
  | Skipped => l1_pass []
  | L1Allow rule_ids score =>
      l1_pass (if shadow (settings l1) && negb (is_empty rule_ids)
               then [record_l1_shadow site client uri (l1_detail rule_ids [] score)] else [])
  | L1Block rule_ids message score =>
      let detail := l1_detail rule_ids message score in
      if shadow (settings l1) then l1_pass [record_l1_shadow site client uri detail]
      else {| l1_answer := Answer403 detail; l1_events := [Blocked (record_block_in site "waf_l1" client uri detail)];
              l1_counters := []; l1_event := lit "waf_l1"; l1_noted := rule_ids; l1_waf_block := true |}
  | Unavailable =>
      let seen := record_unavailable site client uri (lit "TimedOut") in
      match disposition policy TimedOut with
      | Deny =>
          let '(counter, events) := record_inspection_outcome TimedOut client uri true site in
          {| l1_answer := Answer403 (lit "tempo esgotado (TimedOut)"); l1_events := seen :: events;
             l1_counters := [counter]; l1_event := []; l1_noted := []; l1_waf_block := true |}
      | Monitor =>
          let '(counter, events) := record_inspection_outcome TimedOut client uri false site in
          {| l1_answer := Continue; l1_events := seen :: events; l1_counters := [counter];
             l1_event := []; l1_noted := []; l1_waf_block := false |}
      | Allow => l1_pass [seen]
      end
  end.

(** What the engine is asked about a request. *)
Definition l1_request {H} `{HeaderMap H} (l1 : L1RequestPolicy) (method protocol uri client : bytes) (headers : H)
    (content_type : option bytes) (body : bytes) (body_is_decoded : bool) : InspectRequest :=
  let shown := strip_excluded_body body content_type (exclude_parameters l1) in
  {| ir_method := method; ir_uri := strip_query_params uri (exclude_parameters l1); ir_protocol := protocol;
     ir_headers := Framing.l1_header_pairs headers shown body_is_decoded; ir_body := shown; ir_client_ip := client;
     ir_policy := settings l1; ir_exclude_parameters := exclude_parameters l1 |}.

(** [src/proxy.rs: FerroadaProxy::apply_l1] [l1] is what [Backend::l1_for] gives: nothing without a backend, and [Some None] when it panics. *)
Definition apply_l1 {H} `{HeaderMap H} (e : WafEngine) (skip_body_waf : bool) (l1 : option (option L1RequestPolicy)) (policy : InspectionPolicy)
    (method protocol uri client site : bytes) (headers : H) (content_type : option bytes)
    (body : bytes) (body_is_decoded : bool) (exchange : bytes -> Exchange) : option L1Outcome :=
  if skip_body_waf || negb (is_coraza e) then Some (l1_pass [])
  else
    match l1 with
    | None => Some (l1_pass [])
    | Some None => None
    | Some (Some l1) =>
        if skip l1 then Some (l1_pass [])
        else
          let request := l1_request l1 method protocol uri client headers content_type body body_is_decoded in
          Some (act_on_verdict (inspect e request exchange) l1 policy site client uri)
    end.
End exchange.

(** ** Loading *)

(** [src/config.rs: fn merge_l1_files] *)
Definition merge_l1_files (base overlay : L1File) : L1File :=
  let pick {A} (o b : option A) := match o with Some _ => o | None => b end in
  {| f_blocking := pick (f_blocking overlay) (f_blocking base);
     f_executing := pick (f_executing overlay) (f_executing base);
     f_shadow := pick (f_shadow overlay) (f_shadow base);
     f_threshold := pick (f_threshold overlay) (f_threshold base);
     f_exclude := pick (f_exclude overlay) (f_exclude base);
     f_exclusions := if is_empty (f_exclusions overlay) then f_exclusions base else f_exclusions overlay |}.

(** [src/config.rs: fn parse_l1_exclusions] *)
Definition parse_l1_exclusions (files : list L1ExclusionFile) : option (list L1Exclusion) :=
  mapM (M := option) (fun file =>
      match xf_prefix file with
      | None => exclusion_from_file file None
      | Some raw =>
          match parse_path_prefixes [raw] with
          | Ok (prefix :: _) => exclusion_from_file file (Some prefix)
          | _ => None
          end
      end) files.

(** [src/config.rs: fn merge_l1_exclusions] *)
Definition merge_l1_exclusions (base overlay : list L1Exclusion) : list L1Exclusion := base ++ overlay.

(** [src/config.rs: fn validate_l1_routes] *)
Definition validate_l1_routes (settings : L1Settings) (routes : list (bytes * L1File)) : option unit :=
  _ ← validated settings;
  fold_left (fun ok route =>
      _ ← ok;
      _ ← validated (l1_overlay settings route.2);
      if is_empty (f_exclusions route.2) then Some tt else None) routes (Some tt).

(** ** Settings in range *)

Definition settings_ok (s : L1Settings) : Prop :=
  1 <= blocking_paranoia s <= executing_paranoia s /\ executing_paranoia s <= 4
  /\ 1 <= anomaly_score_threshold s <= 10000.

(** What is not negative, as the unsigned integers of a file are. *)
Definition settings_unsigned (s : L1Settings) : Prop := 0 <= anomaly_score_threshold s.
Definition file_unsigned (f : L1File) : Prop := forall t, f_threshold f = Some t -> 0 <= t.

Lemma validated_spec s : settings_unsigned s -> forall t, validated s = Some t <-> t = s /\ settings_ok s.
Proof.
  intros Hu t. unfold settings_unsigned in Hu. unfold validated, validate_paranoia, in_range, settings_ok, MIN_PARANOIA, MAX_PARANOIA.
  destruct (Z.leb_spec 1 (blocking_paranoia s)), (Z.leb_spec (blocking_paranoia s) 4),
    (Z.leb_spec 1 (executing_paranoia s)), (Z.leb_spec (executing_paranoia s) 4); cbn [andb mbind option_bind];
    try (split; [done | intros [_ ?]; lia]).
  destruct (Z.ltb_spec (executing_paranoia s) (blocking_paranoia s)); [split; [done | intros [_ ?]; lia]|].
  destruct (Z.eqb_spec (anomaly_score_threshold s) 0); [split; [done | intros [_ ?]; lia]|].
  destruct (Z.ltb_spec 10000 (anomaly_score_threshold s)); cbn [orb]; [split; [done | intros [_ ?]; lia]|].
  split; [intros [= <-]; split; [done | lia] | by intros [-> _]].
Qed.

Lemma overlay_unsigned s f : settings_unsigned s -> file_unsigned f -> settings_unsigned (l1_overlay s f).
Proof.
  unfold settings_unsigned, l1_overlay. cbn. intros Hs Hf. destruct (f_threshold f) as [t|] eqn:E; [by apply Hf | done].
Qed.

Lemma fold_none {A B} (f : A -> B -> option A) l : fold_left (fun a x => a' ← a; f a' x) l None = None.
Proof. by induction l. Qed.

Lemma overlay_all_ok l : forall s t, settings_ok s -> Forall (fun p : bytes * L1File => file_unsigned p.2) l ->
  fold_left (fun settings patch => s ← settings; validated (l1_overlay s patch.2)) l (Some s) = Some t -> settings_ok t.
Proof.
  induction l as [|p l IH]; intros s t Hs Hf; cbn [fold_left]; [by intros [= <-]|].
  apply Forall_cons_1 in Hf as [Hp Hf]. cbn [mbind option_bind].
  destruct (validated (l1_overlay s p.2)) as [s'|] eqn:E; [|by rewrite fold_none].
  apply IH; [|done]. apply validated_spec in E as [-> ?]; [done|]. apply overlay_unsigned; [|done].
  unfold settings_unsigned, settings_ok in *. lia.
Qed.

(** Whatever the routes that match a request change, the engine is asked with settings in range: the level that blocks is
    between one and the level that runs, which is at most four, and the threshold is between 1 and 10000. *)
Theorem resolve_in_range (s : L1Settings) (patches : list (bytes * L1File)) (exclusions : list L1Exclusion)
    (path content_type : option bytes) (p : L1RequestPolicy) :
  settings_ok s -> Forall (fun patch => file_unsigned patch.2) patches ->
  resolve s patches exclusions path content_type = Some p -> settings_ok (settings p).
Proof.
  intros Hs Hf. unfold resolve. destruct path as [path|]; [|by intros [= <-]].
  destruct (overlay_routes s patches path) as [t|] eqn:E; [|done]. intros [= <-]. cbn.
  eapply overlay_all_ok; [exact Hs | | exact E]. apply Forall_forall. intros x Hx.
  rewrite sort_by_key_perm in Hx. apply list_elem_of_filter in Hx as [_ Hx].
  by apply (Forall_forall (fun patch => file_unsigned patch.2)) with patches.
Qed.

(** A route that changes nothing of the levels on top of settings in range keeps them in range; so does one whose own overlay of the
    site's settings was validated, when it is the only one to match. *)
Lemma resolve_single (s : L1Settings) patch exclusions path content_type :
  settings_ok s -> file_unsigned patch.2 -> validated (l1_overlay s patch.2) <> None ->
  resolve s [patch] exclusions path content_type <> None.
Proof.
  intros Hs Hf Hv. unfold resolve. destruct path as [path|]; [|done]. unfold overlay_routes.
  rewrite filter_cons. destruct (decide _); rewrite filter_nil; cbn; [|done].
  by destruct (validated (l1_overlay s patch.2)).
Qed.

(** ** What is kept from the engine *)

(** The pairs left in a stripped query are those of the query, in order, that are not empty and whose name is not excluded. *)
Lemma strip_query_pairs (path query : bytes) (names : list bytes) : 63 ∉ path -> names <> [] ->
  kept_pairs names query <> [] ->
  exists stripped, strip_query_params (path ++ [63] ++ query) names = path ++ [63] ++ stripped
    /\ split_on 38 stripped = kept_pairs names query.
Proof.
  intros Hp Hn Hk. unfold strip_query_params. apply is_empty_false in Hn as ->.
  rewrite (proj2 (split_once_spec 63 (path ++ [63] ++ query) path query)) by done.
  rewrite (proj2 (is_empty_false _) Hk). eexists. split; [done|]. apply split_on_join; [done|].
  apply Forall_forall. intros x [_ Hx]%list_elem_of_filter. by eapply split_on_no_sep.
Qed.

(** ** Base 64 *)

Definition sextet_of (c : Z) : option Z := Z.of_nat <$> (fst <$> list_find (eq c) TABLE).

(** The reading of base 64: groups of four characters, the last one padded. *)
Fixpoint b64_decode (s : bytes) : option bytes :=
  match s with
  | [] => Some []
  | w :: x :: y :: z :: r =>
      p ← sextet_of w; q ← sextet_of x;
      if (y =? 61) && (z =? 61) && is_empty r then Some [p * 4 + q / 16]
      else
        t ← sextet_of y;
        if (z =? 61) && is_empty r then Some [p * 4 + q / 16; q mod 16 * 16 + t / 4]
        else
          u ← sextet_of z; rest ← b64_decode r;
          Some (p * 4 + q / 16 :: q mod 16 * 16 + t / 4 :: t mod 4 * 64 + u :: rest)
  | _ => None
  end.

Lemma lor_shift a b k : 0 <= k -> 0 <= b < 2 ^ k -> Z.lor (Z.shiftl a k) b = a * 2 ^ k + b.
Proof.
  intros Hk Hb. rewrite Z.shiftl_mul_pow2 by done.
  pose proof (Z.add_lor_land (a * 2 ^ k) b) as H. enough (Z.land (a * 2 ^ k) b = 0) as E by (rewrite E in H; lia).
  apply Z.bits_inj'. intros n Hn. rewrite Z.land_spec, Z.bits_0. destruct (Z.ltb_spec n k).
  - by rewrite Z.mul_pow2_bits_low.
  - rewrite <- (Z.mod_small b (2 ^ k)) by done. rewrite Z.mod_pow2_bits_high by lia. apply andb_false_r.
Qed.

Lemma sextet_value n shift : 0 <= shift -> Z.land (Z.shiftr n shift) 63 = n / 2 ^ shift mod 64.
Proof. intros H. rewrite Z.shiftr_div_pow2 by done. change 63 with (Z.ones 6). by rewrite Z.land_ones. Qed.

Lemma sextet_of_nth i : 0 <= i < 64 -> sextet_of (nth (Z.to_nat i) TABLE 0) = Some i /\ nth (Z.to_nat i) TABLE 0 <> 61.
Proof.
  intros Hi.
  assert (forallb (fun k => bool_decide (sextet_of (nth k TABLE 0) = Some (Z.of_nat k)) && negb (nth k TABLE 0 =? 61)) (seq 0 64)
          = true) as H by (vm_compute; reflexivity).
  rewrite forallb_forall in H. specialize (H (Z.to_nat i)).
  rewrite <- list_elem_of_In, elem_of_seq in H. specialize (H ltac:(lia)).
  apply andb_true_iff in H as [H1 H2]. apply bool_decide_eq_true in H1. rewrite Z2Nat.id in H1 by lia.
  split; [done|]. by apply negb_true_iff, Z.eqb_neq in H2.
Qed.

(** A sextet of a number, read back. *)
Lemma sextet_read n shift : 0 <= shift -> sextet_of (sextet n shift) = Some (n / 2 ^ shift mod 64) /\ sextet n shift <> 61.
Proof.
  intros H. unfold sextet. rewrite sextet_value by done. apply sextet_of_nth. apply Z.mod_pos_bound. lia.
Qed.

Lemma list_three_ind {A} (P : list A -> Prop) :
  P [] -> (forall a, P [a]) -> (forall a b, P [a; b]) -> (forall a b c r, P r -> P (a :: b :: c :: r)) -> forall l, P l.
Proof.
  intros H0 H1 H2 H3. apply list_length_ind. intros [|a [|b [|c r]]] IH; [done..|]. apply H3, IH. cbn. lia.
Qed.

(** Reading back: what [b64_encode] writes of any bytes decodes to them; the engine inspects the body it was given. *)
Theorem b64_roundtrip (s : bytes) : Forall is_byte s -> b64_decode (b64_encode s) = Some s.
Proof.
  unfold is_byte. induction s as [|a|a b|a b c r IH] using list_three_ind; intros Hs; repeat (apply Forall_cons_1 in Hs as [? Hs]).
  - done.
  - cbn [b64_encode b64_decode]. set (n := Z.shiftl a 16).
    assert (n = a * 65536) as Hn by (unfold n; rewrite Z.shiftl_mul_pow2 by lia; reflexivity).
    destruct (sextet_read n 18) as [-> _]; [lia|]. destruct (sextet_read n 12) as [-> _]; [lia|].
    cbn [mbind option_bind Z.eqb Pos.eqb andb is_empty]. do 2 f_equal. Z.div_mod_to_equations. lia.
  - cbn [b64_encode b64_decode]. set (n := Z.lor _ _).
    assert (n = a * 65536 + b * 256) as Hn.
    { unfold n. rewrite (Z.shiftl_mul_pow2 b) by lia. rewrite lor_shift by lia. reflexivity. }
    destruct (sextet_read n 18) as [-> _]; [lia|]. destruct (sextet_read n 12) as [-> _]; [lia|].
    destruct (sextet_read n 6) as [-> H6]; [lia|]. apply Z.eqb_neq in H6 as ->.
    cbn [mbind option_bind Z.eqb Pos.eqb andb is_empty]. repeat f_equal; Z.div_mod_to_equations; lia.
  - cbn [b64_encode b64_decode]. set (n := Z.lor _ _).
    assert (n = a * 65536 + b * 256 + c) as Hn.
    { unfold n. rewrite (Z.shiftl_mul_pow2 b) by lia. rewrite (lor_shift a) by lia.
      replace (a * 2 ^ 16 + b * 2 ^ 8) with (Z.shiftl (a * 256 + b) 8) by (rewrite Z.shiftl_mul_pow2; lia).
      rewrite lor_shift by lia. lia. }
    destruct (sextet_read n 18) as [-> _]; [lia|]. destruct (sextet_read n 12) as [-> _]; [lia|].
    destruct (sextet_read n 6) as [-> H6]; [lia|]. apply Z.eqb_neq in H6 as ->.
    destruct (sextet_read n 0) as [-> Hz]; [lia|]. apply Z.eqb_neq in Hz as ->.
    rewrite IH by done. cbn [mbind option_bind andb]. repeat f_equal; Z.div_mod_to_equations; lia.
Qed.

(** ** The stage *)

Section stage.
Context {ET : EngineText} {SJ : SerdeJson}.

Definition decided (v : L1Verdict) : Prop := match v with L1Allow _ _ | L1Block _ _ _ => True | _ => False end.

Lemma parse_inspect_decided st b v : parse_inspect_body st b = Ok v -> decided v.
Proof.
  unfold parse_inspect_body. destruct (negb _); [done|]. destruct (inspect_from_slice b) as [r|]; [|done].
  cbn [ok_or mbind result_bind]. destruct (_ =s _); [by intros [= <-]|]. destruct (_ =s _); [by intros [= <-] | done].
Qed.

Lemma engine_answer_decided r v : engine_answer r = Ok v -> decided v.
Proof. destruct r as [r|]; [|done]. apply parse_inspect_decided. Qed.

Lemma read_engine_decided reads : forall buf v, read_engine reads buf = Ok v -> decided v.
Proof.
  assert (forall buf v, match engine_parse_http buf with
                        | Some r => engine_answer r
                        | None => Err (lit "resposta HTTP incompleta do sidecar") end = Ok v -> decided v) as Hend.
  { intros buf v. destruct (engine_parse_http buf) as [r|]; [|done]. apply engine_answer_decided. }
  induction reads as [|[chunk| |] reads IH]; intros buf v; cbn [read_engine]; [apply Hend | | done | done].
  destruct (is_empty chunk); [apply Hend|]. cbn zeta. destruct (_ <? _); [done|].
  destruct (engine_parse_http (buf ++ chunk)) as [r|]; [apply engine_answer_decided | apply IH].
Qed.

Lemma inspect_socket_decided request exchange v : inspect_socket request exchange = Ok v -> decided v.
Proof.
  unfold inspect_socket. destruct (encode_inspect_json request); [|done]. cbn [ok_or mbind result_bind]. cbn zeta.
  destruct (connected _); [|done..]. destruct (written _); [|done..]. apply read_engine_decided.
Qed.

(** The engine refuses: it answers that the request is to be blocked, outside of shadow mode; or it gives no answer, and the
    route requires complete inspection. *)
Definition engine_refuses (p : L1RequestPolicy) (policy : InspectionPolicy) (answer : result bytes L1Verdict) : Prop :=
  match answer with
  | Ok (L1Block _ _ _) => shadow (settings p) = false
  | Ok _ => False
  | Err _ => require_complete policy = true
  end.

(** An outcome that answers exactly when [P], and counts a block exactly when it answers. *)
Definition answers_when (o : L1Outcome) (P : Prop) : Prop :=
  ((exists reason, l1_answer o = Answer403 reason) <-> P)
  /\ (l1_waf_block o = true <-> exists reason, l1_answer o = Answer403 reason).

Lemma answers_never o P : l1_answer o = Continue -> l1_waf_block o = false -> ~ P -> answers_when o P.
Proof.
  intros Ha Hb HP. unfold answers_when. rewrite Ha, Hb. split; split; [by intros [? ?] | done | done | by intros [? ?]].
Qed.

Lemma answers_always o reason P : l1_answer o = Answer403 reason -> l1_waf_block o = true -> P -> answers_when o P.
Proof. intros Ha Hb HP. unfold answers_when. rewrite Ha, Hb. split; split; eauto. Qed.

Lemma act_answers (answer : result bytes L1Verdict) p policy site client uri :
  (forall v, answer = Ok v -> decided v) ->
  answers_when (act_on_verdict (match answer with Ok v => v | Err _ => Unavailable end) p policy site client uri)
    (engine_refuses p policy answer).
Proof.
  intros Hd. destruct answer as [v|err]; cbn [engine_refuses].
  - specialize (Hd v eq_refl). destruct v as [|ids sc|ids m sc|]; try done; cbn [act_on_verdict].
    { apply answers_never; [done | done | intros []]. }
    destruct (shadow (settings p)); [by apply answers_never | by eapply answers_always].
  - cbn [act_on_verdict]. unfold disposition, record_inspection_outcome. cbn.
    destruct (require_complete policy); [by eapply answers_always | by apply answers_never].
Qed.

(** The second layer answers 403, and counts a block against the client, exactly when the engine is on, the protocol did not
    skip inspection, the request's site is known and nothing excludes the
    request, and the engine refuses; a silent, broken or slow engine refuses where inspection must be complete. *)
Theorem l1_refuses_iff {H} `{HeaderMap H} (e : WafEngine) (skip_body_waf : bool) (l1 : option (option L1RequestPolicy)) (policy : InspectionPolicy)
    (method protocol uri client site : bytes) (headers : H) (ct : option bytes) (body : bytes)
    (body_is_decoded : bool) (exchange : bytes -> Exchange) (o : L1Outcome) :
  apply_l1 e skip_body_waf l1 policy method protocol uri client site headers ct body body_is_decoded exchange = Some o ->
  ((exists reason, l1_answer o = Answer403 reason) <->
     skip_body_waf = false /\ kind e = Coraza /\ exists p, l1 = Some (Some p) /\ skip p = false /\
     engine_refuses p policy
       (inspect_socket (l1_request p method protocol uri client headers ct body body_is_decoded) exchange))
  /\ (l1_waf_block o = true <-> exists reason, l1_answer o = Answer403 reason).
Proof.
  assert (forall P, ~ P -> Some (l1_pass []) = Some o -> answers_when o P) as Hpass.
  { intros P HP [= <-]. by apply answers_never. }
  unfold apply_l1, inspect, is_coraza. destruct skip_body_waf; cbn [orb]; [apply Hpass; by intros [? _]|].
  case_bool_decide as Hk; cbn [negb]; [|apply Hpass; by intros (_ & ? & _)].
  destruct l1 as [[p|]|]; [|done|apply Hpass; by intros (_ & _ & ? & ? & _)].
  destruct (skip p) eqn:Hs; [apply Hpass; intros (_ & _ & ? & [= <-] & ? & _); congruence|]. cbn zeta. intros [= <-].
  set (answer := inspect_socket _ _).
  destruct (act_answers answer p policy site client uri) as [H1 H2]; [apply inspect_socket_decided|].
  split; [|exact H2]. rewrite H1. split; [eauto 10 | by intros (_ & _ & ? & [= <-] & _ & ?)].
Qed.
End stage.

(** ** Evaluations *)

Section evaluations.
Definition deny_text : EngineText := {|
  inspect_from_slice b :=
    if b =s "deny" then Some {| action := lit "deny"; rule_ids := [942100]; msg := lit "sqli"; score := 5 |} else None |}.
Let ET := deny_text.
Let SJ : SerdeJson := {| json_from_str _ := None; json_to_string _ := Some [] |}.
#[local] Existing Instances ET SJ.

Definition engine_reply (body : bytes) : Exchange := {|
  connected := IoOk tt; written := IoOk tt;
  reads := [IoOk (lit "HTTP/1.1 200 OK" ++ [13; 10] ++ lit "Content-Length: 4" ++ [13; 10; 13; 10] ++ body)] |}.
Definition silent : Exchange := {| connected := IoOk tt; written := IoOk tt; reads := [IoTimeout] |}.
Definition coraza : WafEngine := {| kind := Coraza; socket := DEFAULT_SOCKET; timeout := ENGINE_TIMEOUT |}.
Definition plain_l1 : L1RequestPolicy := {| skip := false; settings := default_crs; exclude_parameters := [lit "token"] |}.

Lemma resolve_in_range_witness :
  settings_ok {| blocking_paranoia := 1; executing_paranoia := 4; shadow := false; anomaly_score_threshold := 5; exclude := false |}.
Proof.
  apply (resolve_in_range default_crs
    [(lit "/", {| f_blocking := None; f_executing := Some 4; f_shadow := None; f_threshold := None; f_exclude := None; f_exclusions := [] |})]
    [] (Some (lit "/a")) None
    {| skip := false; exclude_parameters := [];
       settings := {| blocking_paranoia := 1; executing_paranoia := 4; shadow := false; anomaly_score_threshold := 5; exclude := false |} |}).
  - vm_compute. repeat split; congruence.
  - repeat constructor. intros t [=].
  - vm_compute. reflexivity.
Defined.

Lemma b64_roundtrip_witness : b64_decode (b64_encode (lit "ferroada")) = Some (lit "ferroada").
Proof. apply b64_roundtrip. unfold is_byte. repeat constructor; vm_compute; congruence. Defined.

#[local] Existing Instance assoc_headers.
Definition refusal (exchange : Exchange) (policy : InspectionPolicy) : option L1Outcome :=
  apply_l1 coraza false (Some (Some plain_l1)) policy (lit "GET") (lit "HTTP/1.1") (lit "/?token=1&q=2") (lit "192.0.2.1")
    (lit "site") ([] : list (bytes * bytes)) None [] false (fun _ => exchange).

Definition refused : L1Outcome := default (l1_pass []) (refusal silent fail_closed).

Lemma l1_refuses_iff_witness : exists reason, l1_answer refused = Answer403 reason.
Proof.
  assert (refusal silent fail_closed = Some refused) as Hr by (vm_compute; reflexivity).
  apply (proj1 (l1_refuses_iff coraza false (Some (Some plain_l1)) fail_closed (lit "GET") (lit "HTTP/1.1")
    (lit "/?token=1&q=2") (lit "192.0.2.1") (lit "site") ([] : list (bytes * bytes)) None [] false (fun _ => silent) refused Hr)).
  split; [reflexivity|]. split; [reflexivity|]. exists plain_l1. split; [reflexivity|]. split; [reflexivity|].
  vm_compute. reflexivity.
Defined.

Example refusals :
  (exists o, refusal (engine_reply (lit "deny")) open = Some o /\ l1_answer o = Answer403 (lit "CRS 942100 score=5: sqli"))
  /\ (exists o, refusal silent open = Some o /\ l1_answer o = Continue)
  /\ strip_query_params (lit "/?token=1&q=2") [lit "token"] = lit "/?q=2"
  /\ b64_encode (lit "Man") = lit "TWFu" /\ b64_encode (lit "M") = lit "TQ==".
Proof. split; [|split]; [eexists; split; vm_compute; reflexivity..|]. vm_compute. repeat split. Qed.

(** Each route is validated on the settings of the site, but the routes that match a request add up: two routes the load accepts
    make the resolution of a request panic. *)
Example routes_add_up_to_panic :
  let level b e := {| f_blocking := b; f_executing := e; f_shadow := None; f_threshold := None; f_exclude := None; f_exclusions := [] |} in
  let routes := [(lit "/", level (Some 3) None); (lit "/api", level None (Some 2))] in
  validate_l1_routes default_crs routes = Some tt
  /\ l1_for default_crs routes [] (lit "/api") None = None
  /\ l1_for default_crs routes [] (lit "/other") None <> None.
Proof. vm_compute. repeat split; congruence. Qed.
End evaluations.
