(* ===== verification/Config.v ===== *)
(** * Configuration ([src/config.rs])

    The file an operator writes, as deserialization gives it ([ConfigFile], by the class [TomlText]); the assembly of one
    [Backend] per site from the parts the other components load; the table of hosts; and the choice of the backend for a request
    and of what its routes ask.  The program panics on a configuration it rejects: here an error.  What loading reads of its environment (variables, files,
    names, key sets) is a [World]. *)

From S2P Require Import Prelude Text Net Json Window Shield Route Inspection Grpc Dlp Graphql Origin Waf Abuse Jwks Jwt Authz.
From S2P Require Import Schema OpenApi WafEngine Protocol RateLimit.

(** ** The file *)

(** [src/config.rs: enum BackendSpec] *)
Inductive BackendSpec : Type := One (url : bytes) | Many (urls : list bytes).

(** [src/config.rs: BackendSpec::urls] *)
Definition spec_urls (s : BackendSpec) : list bytes := match s with One url => [url] | Many urls => urls end.

(** [src/config.rs: const DEFAULT_HEALTH_PATH] *)
Definition DEFAULT_HEALTH_PATH : bytes := lit "/health/ready".

(** [src/config.rs: enum OpenApiFile + struct OpenApiTable] *)
Inductive OpenApiFile : Type := OpenApiPath (path : bytes) | OpenApiTable (path : bytes) (unknown_endpoint : option bytes).

(** [src/config.rs: struct JwtFile] *)
Record JwtFile : Type := {
  jf_jwks : bytes; jf_issuer : bytes; jf_audience : bytes; jf_algorithms : list bytes; jf_bindings : list bytes;
  jf_paths : list bytes; jf_hmac_secret_env : option bytes }.

(** [src/config.rs: struct AuthorizationFile] *)
Record AuthorizationFile : Type := {
  af_socket : bytes; af_action : bytes; af_resource : bytes; af_fail_mode : bytes; af_timeout_ms : option Z }.

(** [src/config.rs: struct DlpFieldFile] *)
Record DlpFieldFile : Type := { df_path : bytes; df_detector : bytes }.

(** [src/config.rs: struct SiteRouteEntry] *)
Record SiteRouteEntry : Type := {
  re_prefix : bytes; re_inspection : InspectionPolicyFile; re_l1 : L1File; re_graphql : option GraphqlFile;
  re_dlp : list DlpFieldFile; re_authorization : option AuthorizationFile }.

(** [src/config.rs: struct SiteEntry] A gRPC table is the path of its descriptor and the rest. *)
Record SiteEntry : Type := {
  se_hosts : list bytes; se_backend : BackendSpec; se_health_path : option bytes;
  se_client_cert : option bytes; se_client_key : option bytes; se_complete : list bytes; se_profile : option bytes;
  se_routes : list SiteRouteEntry; se_l1 : L1File; se_openapi : option OpenApiFile; se_jwt : option JwtFile;
  se_graphql : option GraphqlFile; se_grpc : option (bytes * GrpcFile); se_dlp : list DlpFieldFile; se_abuse : option AbuseFile }.

(** [src/config.rs: struct ConfigFile + struct WafSection] *)
Record ConfigFile : Type := {
  cf_default_backend : option bytes; cf_sites : list SiteEntry; cf_default_complete : list bytes;
  cf_default_profile : option bytes; cf_protocols : ProtocolsSection; cf_l1 : L1File }.

(** [toml::from_str::<ConfigFile>] *)
Class TomlText : Type := {
  toml_from_str : bytes -> option ConfigFile;
  (* thresholds are read as [u32] *)
  toml_unsigned : forall s f, toml_from_str s = Some f ->
    file_unsigned (cf_l1 f) /\ Forall (fun site => file_unsigned (se_l1 site)) (cf_sites f);
}.

(** Certificates and keys of PEM files: the chain, and the key. *)
Class PemText : Type := { stack_from_pem : bytes -> option (list bytes); private_key_from_pem : bytes -> option bytes }.

(** ** What loading gives *)

(** [src/config.rs: struct RouteInspection] *)
Record SiteRoute : Type := {
  sr_prefix : bytes; sr_patch : InspectionPolicyFile; sr_l1 : L1File; sr_graphql : option GraphqlPolicy;
  sr_dlp_fields : list DlpField; sr_authz : option AuthzPolicy }.

(** [src/config.rs: struct SiteL1] *)
Record SiteL1 : Type := { l1_settings : L1Settings; l1_exclusions : list L1Exclusion }.

(** [src/config.rs: SiteL1::default] *)
Definition SiteL1_default : SiteL1 := {| l1_settings := default_crs; l1_exclusions := [] |}.

(** What loading fails with. *)
Inductive LoadError : Type :=
| BadToml | BadProtocols (e : ParseError) | BadL1 | BadL1Exclusion | BadPrefix | BadProfile | BadAction
| NoBackend | DuplicateBackend (url : bytes) | MixedSchemes | BadScheme (url : bytes) | Unresolved (authority : bytes)
| BadHealthPath (path : bytes) | LoneCertificate | CertificateUnreadable | CertificateInvalid | KeyInvalid
| SpecUnreadable (path : bytes) | SpecInvalid (e : SpecError) | UnknownEndpointInvalid
| JwtInvalid (e : JwtError) | GraphqlInvalid | DescriptorUnreadable (path : bytes) | GrpcInvalid (e : GrpcError)
| DlpTooMany | DlpInvalid (e : DlpError) | AbuseInvalid (e : AbuseError)
| AuthzInvalid (e : AuthzError) | AuthzWithoutJwt | AuthzDuplicate (prefix : bytes)
| SpoolWithoutComplete | L1ExclusionsInRoute | NoHost | DuplicateHost (host : bytes) | NoSites | NoTarget.

(** What loading reads: variables, files, the database of networks, the addresses of names, key sets and the clock. *)
Record World : Type := {
  w_var : bytes -> option bytes; w_read : bytes -> option bytes; w_mmdb : bytes -> FileRead;
  w_addrs : bytes -> Z -> list SocketAddr; w_fetch : JwksSource -> result JwtError bytes; w_now : Instant }.
Definition w_env (w : World) : Env := fun name => w_var w (lit name).

(** ** Loading as a computation

    It may fail or run out of fuel (references of an OpenAPI document), and it makes the quota books of the GraphQL policies, numbered in order. *)

Definition Load (A : Type) : Type := Z -> fueled LoadError (A * Z).
#[export] Instance load_ret : MRet Load := fun A a books => Done (a, books).
#[export] Instance load_bind : MBind Load := fun A B f m books =>
  match m books with Done (a, books) => f a books | Failed e => Failed e | NoFuel => NoFuel end.

Definition reject {A} (e : LoadError) : Load A := fun _ => Failed e.
Definition give {A} (a : A) : Load A := fun books => Done (a, books).
Definition ensure (b : bool) (e : LoadError) : Load unit := if b then give tt else reject e.
Definition from_option {A} (e : LoadError) (o : option A) : Load A := match o with Some a => give a | None => reject e end.
Definition from_result {E A} (f : E -> LoadError) (m : result E A) : Load A := match m with Ok a => give a | Err e => reject (f e) end.
Definition from_fueled {E A} (f : E -> LoadError) (m : fueled E A) : Load A := fun books =>
  match m with Done a => Done (a, books) | Failed e => Failed (f e) | NoFuel => NoFuel end.
Definition fresh_book : Load Z := fun books => Done (books, books + 1).

Definition load_option {A B} (f : A -> Load B) (o : option A) : Load (option B) :=
  match o with Some a => b ← f a; give (Some b) | None => give None end.
Fixpoint load_all {A B} (f : A -> Load B) (l : list A) : Load (list B) :=
  match l with [] => give [] | x :: l => y ← f x; ys ← load_all f l; give (y :: ys) end.
Fixpoint load_fold {A S} (f : S -> A -> Load S) (l : list A) (s : S) : Load S :=
  match l with [] => give s | x :: l => s ← f s x; load_fold f l s end.

(** [Path::join], and the absolute paths it leaves. *)
Definition resolve_path (spec base : bytes) : bytes := path_join base spec.

Section load.
Context {UC : UnicodeCase} {SJ : SerdeJson} {YT : YamlText} {D : Descriptors} {DB : Mmdb}
  {JT : JwksText} {PT : PemText} {TT : TomlText}.
Context (w : World) (fuel : nat).

(** [src/config.rs: struct Backend] *)
Record Backend : Type := {
  b_addr : SocketAddr; b_host : bytes; b_site_scope : bytes; b_redirect_host : option bytes; b_tls : bool;
  b_origins : list OriginEndpoint; b_health_path : bytes; b_origin_mtls : option (list bytes * bytes);
  b_waf_profile : WafProfile; b_routes : list SiteRoute; b_l1 : SiteL1; b_openapi : option OpenApiPolicy;
  b_jwt : option (JwtPolicy * JwtState); b_graphql : option GraphqlPolicy; b_grpc : option GrpcInner;
  b_dlp_fields : list DlpField; b_abuse : option AbusePolicy }.

(** [src/config.rs: struct Config] *)
Record Config : Type := {
  route_table : gmap bytes nat; backends : list Backend; default_idx : option nat; protocols : ProtocolMatrix }.

(** ** Parts of a site *)

Definition load_prefixes (raw : list bytes) : Load (list bytes) := from_result (fun _ => BadPrefix) (parse_path_prefixes raw).

(** [src/config.rs: fn load_openapi] *)
Definition load_openapi (file : OpenApiFile) (base_dir : bytes) : Load OpenApiPolicy :=
  let '(spec, unknown) := match file with OpenApiPath path => (path, None) | OpenApiTable path unknown => (path, unknown) end in
  unknown ← load_option (fun raw => from_option UnknownEndpointInvalid (UnknownEndpoint_parse raw)) unknown;
  let path := resolve_path spec base_dir in
  text ← from_option (SpecUnreadable path) (w_read w path);
  from_fueled SpecInvalid (OpenApi.from_bytes fuel text unknown).

(** [src/config.rs: fn load_jwt] *)
Definition load_jwt (file : JwtFile) (base_dir : bytes) : Load (JwtPolicy * JwtState) :=
  from_result JwtInvalid
    (jwt_load (w_var w)
       {| sp_jwks := jf_jwks file; sp_issuer := jf_issuer file; sp_audience := jf_audience file;
          sp_algorithms := jf_algorithms file; sp_bindings := jf_bindings file; sp_paths := jf_paths file;
          sp_hmac_secret_env := jf_hmac_secret_env file |} base_dir (w_now w) (w_fetch w)).

(** [src/config.rs: fn load_grpc] *)
Definition load_grpc (descriptor : bytes) (file : GrpcFile) (base_dir : bytes) : Load GrpcInner :=
  let path := resolve_path descriptor base_dir in
  b ← from_option (DescriptorUnreadable path) (w_read w path);
  from_result GrpcInvalid (Grpc.from_bytes b file).

(** [src/config.rs: fn load_graphql] *)
Definition load_graphql (file : GraphqlFile) (route_prefix : option bytes) : Load GraphqlPolicy :=
  paths ← load_prefixes (f_paths file);
  let paths := if is_empty paths then match route_prefix with Some prefix => [prefix] | None => paths end else paths in
  book ← fresh_book;
  from_option GraphqlInvalid (Graphql.from_file (w_env w) book file paths).

(** [src/config.rs: fn load_authz] *)
Definition load_authz {J} (file : AuthorizationFile) (jwt : option J) : Load AuthzPolicy :=
  policy ← from_result AuthzInvalid
    (authz_parse (af_socket file) (af_action file) (af_resource file) (af_fail_mode file) (af_timeout_ms file));
  match jwt with None => reject AuthzWithoutJwt | Some _ => give policy end.

(** [src/config.rs: fn parse_dlp_fields] *)
Definition parse_dlp_fields (files : list DlpFieldFile) : Load (list DlpField) :=
  _ ← ensure (len files <=? MAX_FIELDS) DlpTooMany;
  load_all (fun f => from_result DlpInvalid (parse_field (df_path f) (df_detector f))) files.

(** A route entry merged into the first route of its prefix, or a new one at the end. *)
Definition merge_into (route : SiteRoute) (patch : InspectionPolicyFile) (l1 : L1File) (graphql : option GraphqlPolicy)
    (dlp_fields : list DlpField) (authz : option AuthzPolicy) : Load SiteRoute :=
  authz ← match authz, sr_authz route with
          | Some _, Some _ => reject (AuthzDuplicate (sr_prefix route))
          | Some policy, None => give (Some policy)
          | None, existing => give existing
          end;
  give {| sr_prefix := sr_prefix route; sr_patch := merge_patches (sr_patch route) patch;
          sr_l1 := merge_l1_files (sr_l1 route) l1;
          sr_graphql := match graphql, sr_graphql route with
                        | Some overlay, Some base => Some (Graphql.overlay base overlay)
                        | Some overlay, None => Some overlay
                        | None, existing => existing
                        end;
          sr_dlp_fields := sr_dlp_fields route ++ dlp_fields; sr_authz := authz |}.

Fixpoint merge_route (new : SiteRoute) (routes : list SiteRoute) : Load (list SiteRoute) :=
  match routes with
  | [] => give [new]
  | r :: routes =>
      if sr_prefix r =s sr_prefix new then
        r ← merge_into r (sr_patch new) (sr_l1 new) (sr_graphql new) (sr_dlp_fields new) (sr_authz new); give (r :: routes)
      else routes ← merge_route new routes; give (r :: routes)
  end.

(** One entry, its parts loaded. *)
Definition load_route {J} (jwt : option J) (entry : SiteRouteEntry) : Load SiteRoute :=
  prefixes ← load_prefixes [re_prefix entry];
  prefix ← from_option BadPrefix (head prefixes);
  dlp_fields ← parse_dlp_fields (re_dlp entry);
  graphql ← load_option (fun file => load_graphql file (Some prefix)) (re_graphql entry);
  authz ← load_option (fun file => load_authz file jwt) (re_authorization entry);
  give {| sr_prefix := prefix; sr_patch := re_inspection entry; sr_l1 := re_l1 entry; sr_graphql := graphql;
          sr_dlp_fields := dlp_fields; sr_authz := authz |}.

(** [src/config.rs: fn merge_inspection_routes] *)
Definition merge_routes {J} (complete_prefixes : list bytes) (entries : list SiteRouteEntry) (jwt : option J)
  : Load (list SiteRoute) :=
  load_fold (fun routes entry => new ← load_route jwt entry; merge_route new routes) entries
    (map (fun p => {| sr_prefix := p; sr_patch := fail_closed_patch; sr_l1 := L1File_default; sr_graphql := None;
                      sr_dlp_fields := []; sr_authz := None |}) complete_prefixes).

(** [src/config.rs: fn parse_origin_url] *)
Definition parse_origin_url (url : bytes) : Load OriginEndpoint :=
  let tls := starts_with url (lit "https://") in
  without_scheme ← from_option (BadScheme url)
    match strip_prefix (lit "https://") url with Some r => Some r | None => strip_prefix (lit "http://") url end;
  let authority := before 47 without_scheme in
  let default_port := if tls then 443 else 80 in
  let '(host, port) := match rsplit_once 58 authority with
                       | Some (h, p) => (h, default default_port (parse_uint u16_max p))
                       | None => (authority, default_port)
                       end in
  addr ← from_option (Unresolved authority) (head (w_addrs w host port));
  give {| o_addr := addr; o_host := host; o_tls := tls |}.

(** The origins of a site, none twice. *)
Definition load_origin (origins : list OriginEndpoint) (url : bytes) : Load (list OriginEndpoint) :=
  origin ← parse_origin_url url;
  _ ← ensure (negb (existsb (fun o => bool_decide (o_addr o = o_addr origin)) origins)) (DuplicateBackend url);
  give (origins ++ [origin]).

(** [src/config.rs: fn resolve_site] *)
Definition resolve_site (urls : list bytes) (complete : list bytes) (entries : list SiteRouteEntry)
    (waf_profile : WafProfile) (l1 : SiteL1) (openapi : option OpenApiPolicy) (jwt : option (JwtPolicy * JwtState))
  : Load Backend :=
  _ ← ensure (negb (is_empty urls)) NoBackend;
  origins ← load_fold load_origin urls [];
  first ← from_option NoBackend (head origins);
  _ ← ensure (forallb (fun o => Bool.eqb (o_tls o) (o_tls first)) origins) MixedSchemes;
  routes ← merge_routes complete entries jwt;
  give {| b_addr := o_addr first; b_host := o_host first; b_site_scope := to_ascii_lowercase (o_host first);
          b_redirect_host := None; b_tls := o_tls first; b_origins := origins; b_health_path := DEFAULT_HEALTH_PATH;
          b_origin_mtls := None; b_waf_profile := waf_profile; b_routes := routes; b_l1 := l1; b_openapi := openapi;
          b_jwt := jwt; b_graphql := None; b_grpc := None; b_dlp_fields := []; b_abuse := None |}.

Fixpoint has_whitespace (s : bytes) : bool :=
  match s with [] => false | _ :: r => bool_decide (is_Some (ws_head s)) || has_whitespace r end.

(** [src/config.rs: fn parse_health_path] *)
Definition parse_health_path (raw : option bytes) : Load bytes :=
  let path := trim (default DEFAULT_HEALTH_PATH raw) in
  _ ← ensure (negb (is_empty path || negb (starts_with path [47]) || contains path [63] || contains path [35]
                    || has_whitespace path)) (BadHealthPath path);
  give path.

(** [src/config.rs: fn read_origin_mtls] *)
Definition read_origin_mtls (cert key base_dir : bytes) : Load (list bytes * bytes) :=
  cert_pem ← from_option CertificateUnreadable (w_read w (resolve_path cert base_dir));
  key_pem ← from_option CertificateUnreadable (w_read w (resolve_path key base_dir));
  certificates ← from_option CertificateInvalid (stack_from_pem cert_pem);
  _ ← ensure (negb (is_empty certificates)) CertificateInvalid;
  private_key ← from_option KeyInvalid (private_key_from_pem key_pem);
  give (certificates, private_key).

(** [src/config.rs: fn load_origin_mtls] *)
Definition load_origin_mtls (cert key : option bytes) (base_dir : bytes) : Load (option (list bytes * bytes)) :=
  match cert, key with
  | None, None => give None
  | Some cert, Some key => k ← read_origin_mtls cert key base_dir; give (Some k)
  | _, _ => reject LoneCertificate
  end.

(** ** What a request's route asks

    The other components read a part of each route. *)

Definition inspection_routes (b : Backend) : list RouteInspection :=
  map (fun r => {| Inspection.prefix := sr_prefix r; patch := sr_patch r |}) (b_routes b).
Definition l1_patches (b : Backend) : list (bytes * L1File) := map (fun r => (sr_prefix r, sr_l1 r)) (b_routes b).
Definition authz_routes (b : Backend) : list AuthzRoute :=
  map (fun r => {| route_prefix := sr_prefix r; route_authz := sr_authz r |}) (b_routes b).

Definition backend_inspection_policy (b : Backend) (uri : bytes) : option InspectionPolicy :=
  inspection_policy (inspection_routes b) uri.
Definition backend_l1_for (b : Backend) (uri : bytes) (content_type : option bytes) : option L1RequestPolicy :=
  l1_for (l1_settings (b_l1 b)) (l1_patches b) (l1_exclusions (b_l1 b)) uri content_type.
Definition backend_authz_for (b : Backend) (uri : bytes) : option AuthzPolicy := authz_for (authz_routes b) uri.

(** The routes of a path that [has] something to say, shortest prefix first. *)
Definition matching_routes (has : SiteRoute -> bool) (b : Backend) (path : bytes) : list SiteRoute :=
  sort_by_key (fun r => len (sr_prefix r))
    (base.filter (fun r => has r && path_matches_prefix path (sr_prefix r) = true) (b_routes b)).

(** [src/config.rs: Backend::uses_spool] [None] is a panic. *)
Definition uses_spool (b : Backend) : option bool :=
  fold_left (fun acc r => found ← acc;
      if found : bool then Some true
      else policy ← backend_inspection_policy b (sr_prefix r); Some (bool_decide (is_Some (max_decoded_body policy))))
    (b_routes b) (Some false).

(** [src/config.rs: Backend::dlp_fields_for] *)
Definition dlp_fields_for (b : Backend) (uri : bytes) : list DlpField :=
  match canonical_route_path (before 63 uri) with
  | None => b_dlp_fields b
  | Some path =>
      b_dlp_fields b ++ flat_map sr_dlp_fields (matching_routes (fun r => negb (is_empty (sr_dlp_fields r))) b path)
  end.

(** [src/config.rs: Backend::graphql_for] *)
Definition graphql_for (b : Backend) (uri : bytes) : option GraphqlPolicy :=
  match canonical_route_path (before 63 uri) with
  | None => b_graphql b
  | Some path =>
      fold_left (fun policy r =>
          match sr_graphql r, policy with
          | None, _ => policy
          | Some overlay, Some base => Some (Graphql.overlay base overlay)
          | Some overlay, None => Some overlay
          end)
        (matching_routes (fun r => bool_decide (is_Some (sr_graphql r))) b path) (b_graphql b)
  end.

(** ** Assembly *)

Definition load_profile (name : option bytes) : Load WafProfile :=
  from_option BadProfile match name with Some name => profile_parse name | None => WAF_PROFILE (w_env w) end.

(** The checks of a backend's routes. *)
Definition validate_backend (b : Backend) : Load unit :=
  _ ← from_option SpoolWithoutComplete (validate_spool_routes (inspection_routes b));
  from_option BadL1 (validate_l1_routes (l1_settings (b_l1 b)) (l1_patches b)).

(** What a site's file makes of its backend. *)
Definition load_site (l1_defaults : L1Settings) (global_exclusions : list L1Exclusion) (base_dir : bytes) (site : SiteEntry)
  : Load Backend :=
  settings ← from_option BadL1 (validated (l1_overlay l1_defaults (se_l1 site)));
  exclusions ← from_option BadL1Exclusion (parse_l1_exclusions (f_exclusions (se_l1 site)));
  openapi ← load_option (fun file => load_openapi file base_dir) (se_openapi site);
  jwt ← load_option (fun file => load_jwt file base_dir) (se_jwt site);
  graphql ← load_option (fun file => load_graphql file None) (se_graphql site);
  grpc ← load_option (fun '(descriptor, file) => load_grpc descriptor file base_dir) (se_grpc site);
  complete ← load_prefixes (se_complete site);
  profile ← load_profile (se_profile site);
  b ← resolve_site (spec_urls (se_backend site)) complete (se_routes site) profile
        {| l1_settings := settings; l1_exclusions := merge_l1_exclusions global_exclusions exclusions |} openapi jwt;
  health_path ← parse_health_path (se_health_path site);
  mtls ← load_origin_mtls (se_client_cert site) (se_client_key site) base_dir;
  dlp_fields ← parse_dlp_fields (se_dlp site);
  abuse ← load_option (fun file => from_result AbuseInvalid (into_policy file base_dir (w_mmdb w))) (se_abuse site);
  scope ← from_option NoHost match head (se_hosts site) with
                             | Some host => let host := to_ascii_lowercase (trim host) in if is_empty host then None else Some host
                             | None => None
                             end;
  let b := {| b_addr := b_addr b; b_host := b_host b; b_site_scope := scope; b_redirect_host := Some scope; b_tls := b_tls b;
              b_origins := b_origins b; b_health_path := health_path; b_origin_mtls := mtls; b_waf_profile := b_waf_profile b;
              b_routes := b_routes b; b_l1 := b_l1 b; b_openapi := b_openapi b; b_jwt := b_jwt b; b_graphql := graphql;
              b_grpc := grpc; b_dlp_fields := dlp_fields; b_abuse := abuse |} in
  _ ← validate_backend b;
  give b.

(** The hosts of a site entered in the table; one already there is refused. *)
Definition add_host (idx : nat) (table : gmap bytes nat) (host : bytes) : Load (gmap bytes nat) :=
  let key := to_lowercase (trim host) in
  _ ← ensure (bool_decide (table !! key = None)) (DuplicateHost key);
  give (<[key := idx]> table).

Definition add_site (l1_defaults : L1Settings) (global_exclusions : list L1Exclusion) (base_dir : bytes)
    (acc : list Backend * gmap bytes nat) (site : SiteEntry) : Load (list Backend * gmap bytes nat) :=
  b ← load_site l1_defaults global_exclusions base_dir site;
  table ← load_fold (add_host (length acc.1)) (se_hosts site) acc.2;
  give (acc.1 ++ [b], table).

(** The backend of the hosts no site declares. *)
Definition load_default (l1_defaults : L1Settings) (global_exclusions : list L1Exclusion) (complete : list bytes)
    (profile : WafProfile) (url : bytes) : Load Backend :=
  b ← resolve_site [url] complete [] profile {| l1_settings := l1_defaults; l1_exclusions := global_exclusions |} None None;
  let b := {| b_addr := b_addr b; b_host := b_host b; b_site_scope := lit "__default__"; b_redirect_host := b_redirect_host b;
              b_tls := b_tls b; b_origins := b_origins b; b_health_path := b_health_path b; b_origin_mtls := b_origin_mtls b;
              b_waf_profile := b_waf_profile b; b_routes := b_routes b; b_l1 := b_l1 b; b_openapi := b_openapi b;
              b_jwt := b_jwt b; b_graphql := b_graphql b; b_grpc := b_grpc b; b_dlp_fields := b_dlp_fields b;
              b_abuse := b_abuse b |} in
  _ ← validate_backend b;
  give b.

(** [src/config.rs: Config::from_toml_in + Config::from_toml + Config::try_from_toml_in] *)
Definition from_toml_in (contents base_dir : bytes) : Load Config :=
  file ← from_option BadToml (toml_from_str contents);
  protocols ← from_result BadProtocols (from_section (cf_protocols file));
  l1_defaults ← from_option BadL1 (validated (l1_overlay default_crs (cf_l1 file)));
  global_exclusions ← from_option BadL1Exclusion (parse_l1_exclusions (f_exclusions (cf_l1 file)));
  '(backends, table) ← load_fold (add_site l1_defaults global_exclusions base_dir) (cf_sites file) ([], ∅);
  default_paths ← load_prefixes (cf_default_complete file);
  default_profile ← load_profile (cf_default_profile file);
  default ← load_option (load_default l1_defaults global_exclusions default_paths default_profile) (cf_default_backend file);
  let all := backends ++ match default with Some b => [b] | None => [] end in
  _ ← ensure (negb (is_empty all)) NoSites;
  give {| route_table := table; backends := all;
          default_idx := match default with Some _ => Some (length backends) | None => None end; protocols := protocols |}.

(** [src/config.rs: Config::from_target_url + fn resolve_url] *)
Definition from_target_url (target_url : bytes) : Load Config :=
  complete ← load_prefixes match w_env w "WAF_REQUIRE_COMPLETE_PATHS" with Some v => split_on 44 v | None => [] end;
  profile ← from_option BadProfile (WAF_PROFILE (w_env w));
  b ← resolve_site [target_url] complete [] profile SiteL1_default None None;
  give {| route_table := ∅; backends := [b]; default_idx := Some O; protocols := default_matrix |}.

(** [src/config.rs: Config::load] *)
Definition load_config (cwd : bytes) : Load Config :=
  match w_read w (lit "ferroada.toml") with
  | Some contents => from_toml_in contents cwd
  | None =>
      target_url ← from_option NoTarget (w_env w "TARGET_URL");
      from_target_url target_url
  end.

(** ** The table of hosts *)

(** [src/config.rs: Config::resolve] *)
Definition resolve_host (c : Config) (host_header : bytes) : option Backend :=
  let host := to_lowercase (before 58 host_header) in
  match route_table c !! host with
  | Some idx => backends c !! idx
  | None => idx ← default_idx c; backends c !! idx
  end.

(** [src/config.rs: Config::is_multi_site] *)
Definition is_multi_site (c : Config) : bool := bool_decide (route_table c <> ∅).

(** [src/config.rs: Config::origin_groups] *)
Definition origin_groups (c : Config) : list (list SocketAddr) := map (fun b => map o_addr (b_origins b)) (backends c).

(** [src/config.rs: Config::backend_addresses] *)
Definition backend_addresses (c : Config) : list SocketAddr := concat (origin_groups c).

(** [src/config.rs: Config::has_multi_origin] *)
Definition has_multi_origin (c : Config) : bool := existsb (fun b => 1 <? len (b_origins b)) (backends c).

(** [src/config.rs: Config::has_spool_routes] *)
Definition has_spool_routes (c : Config) : option bool :=
  fold_left (fun acc b => found ← acc; if found : bool then Some true else uses_spool b) (backends c) (Some false).

(** ** The files a configuration names *)

(** [src/config.rs: fn looks_like_url] *)
Definition looks_like_url (value : bytes) : bool :=
  starts_with (trim value) (lit "http://") || starts_with (trim value) (lit "https://").

(** The files of a site: the path as written, and where it is. *)
Definition site_files (base_dir : bytes) (site : SiteEntry) : list (bytes * bytes) :=
  let local spec := (spec, resolve_path spec base_dir) in
  let optional (o : option bytes) := match o with Some spec => [local spec] | None => [] end in
  match se_openapi site with
  | Some (OpenApiPath path) | Some (OpenApiTable path _) => [local path]
  | None => []
  end
  ++ match se_jwt site with Some jwt => if looks_like_url (jf_jwks jwt) then [] else [local (jf_jwks jwt)] | None => [] end
  ++ match se_grpc site with Some (descriptor, _) => [local descriptor] | None => [] end
  ++ optional (se_client_cert site) ++ optional (se_client_key site)
  ++ match se_abuse site with
     | Some abuse => match mmdb_path abuse base_dir with Some path => [(path, path)] | None => [] end
     | None => []
     end.

(** [src/config.rs: fn referenced_policy_files + fn push_local_file] *)
Definition referenced_policy_files (contents base_dir : bytes) : option (list (bytes * bytes)) :=
  file ← toml_from_str contents; Some (flat_map (site_files base_dir) (cf_sites file)).
End load.

(** ** Reasoning about loading *)

Lemma load_bind_done {A B} (m : Load A) (f : A -> Load B) k b k' :
  (m ≫= f) k = Done (b, k') <-> exists a j, m k = Done (a, j) /\ f a j = Done (b, k').
Proof.
  unfold mbind, load_bind. destruct (m k) as [[a j]|e|]; split; [eauto | by intros (? & ? & [= <- <-] & ?) | done | | done | ];
    by intros (? & ? & ? & ?).
Qed.

Lemma ensure_done b e k u k' : ensure b e k = Done (u, k') <-> b = true /\ k' = k.
Proof. unfold ensure. destruct b; cbn; split; [by intros [= _ <-] | by intros [_ ->]; destruct u | done | by intros [? _]]. Qed.

Lemma from_option_done {A} e (o : option A) k a k' : from_option e o k = Done (a, k') <-> o = Some a /\ k' = k.
Proof. unfold from_option. destruct o; cbn; split; [by intros [= <- <-] | by intros [[= <-] ->] | done | by intros [? _]]. Qed.

Lemma give_done {A} (a : A) k b k' : give a k = Done (b, k') <-> b = a /\ k' = k.
Proof. unfold give. split; [by intros [= <- <-] | by intros [-> ->]]. Qed.

(** Takes apart a loading that succeeded, one step at a time. *)
Ltac load_inv H :=
  lazymatch type of H with
  | (_ ≫= _) _ = Done (_, _) =>
      let E := fresh "E" in apply load_bind_done in H as (? & ? & E & H); load_inv E; load_inv H
  | ensure _ _ _ = Done _ => apply ensure_done in H as [H ->]
  | from_option _ _ _ = Done _ => apply from_option_done in H as [H ->]
  | give _ _ = Done _ => apply give_done in H as [-> ->]
  | _ => idtac
  end.

Lemma load_option_done {A B} (f : A -> Load B) o k r k' : load_option f o k = Done (r, k') ->
  match o with None => r = None /\ k' = k | Some a => exists b, r = Some b /\ f a k = Done (b, k') end.
Proof. destruct o as [a|]; cbn [load_option]; intros H; load_inv H; eauto. Qed.

(** What holds of the part of a list already gone through, and of the state reached. *)
Lemma load_fold_prefix {A S} (f : S -> A -> Load S) (P : list A -> S -> Prop) :
  (forall pre x s s' k k', P pre s -> f s x k = Done (s', k') -> P (pre ++ [x]) s') ->
  forall l pre s0 s k k', P pre s0 -> load_fold f l s0 k = Done (s, k') -> P (pre ++ l) s.
Proof.
  intros Hstep. induction l as [|x l IH]; intros pre s0 s k k' HP H; cbn [load_fold] in H.
  - load_inv H. by rewrite app_nil_r.
  - load_inv H. replace (pre ++ x :: l) with ((pre ++ [x]) ++ l) by (by rewrite <- app_assoc).
    eapply IH; [|exact H]. by eapply Hstep.
Qed.

Lemma load_fold_invariant {A S} (f : S -> A -> Load S) (P : S -> Prop) l s0 s k k' :
  (forall x s s' k k', x ∈ l -> P s -> f s x k = Done (s', k') -> P s') ->
  P s0 -> load_fold f l s0 k = Done (s, k') -> P s.
Proof.
  revert s0 k. induction l as [|x l IH]; intros s0 k Hstep HP H; cbn [load_fold] in H; load_inv H; [done|].
  eapply IH; [| |exact H].
  - intros y t t' j j' Hy. apply Hstep. by right.
  - eapply Hstep; [by left | exact HP | done].
Qed.

(** ** Hosts and sites *)

Section hosts.
Context {UC : UnicodeCase} {SJ : SerdeJson} {YT : YamlText} {D : Descriptors} {DB : Mmdb}
  {JT : JwksText} {PT : PemText} {TT : TomlText}.
Context (w : World) (fuel : nat).

(** How a declared host is kept. *)
Definition host_key (host : bytes) : bytes := to_lowercase (trim host).

Lemma add_hosts_table idx hosts table table' k k' :
  load_fold (add_host idx) hosts table k = Done (table', k') ->
  forall h i, table' !! h = Some i <-> table !! h = Some i \/ (i = idx /\ exists host, host ∈ hosts /\ h = host_key host).
Proof.
  intros H. change hosts with ([] ++ hosts).
  refine (load_fold_prefix (add_host idx) (fun pre t => forall h i, t !! h = Some i <->
    table !! h = Some i \/ (i = idx /\ exists host, host ∈ pre /\ h = host_key host)) _ hosts [] table table' k k' _ H).
  - clear. intros pre host t t' k k' HP H h i. unfold add_host in H. load_inv H.
    apply bool_decide_eq_true in E. fold (host_key host) in *.
    destruct (decide (host_key host = h)) as [<- | Hne].
    + rewrite lookup_insert_eq. split.
      * intros [= <-]. right. split; [done|]. exists host. split; [apply elem_of_app; right; left | done].
      * intros [Ht | [-> _]]; [|done]. assert (t !! host_key host = Some i) as Hs by (apply HP; by left). congruence.
    + rewrite lookup_insert_ne by done. rewrite HP. split; (intros [Ht | [-> (y & Hx & ->)]]; [by left|]; right; split; [done|]).
      * exists y. split; [apply elem_of_app; by left | done].
      * exists y. split; [|done]. apply elem_of_app in Hx as [Hx | Hx]; [done|]. by apply list_elem_of_singleton in Hx as ->.
  - intros h i. split; [by left | intros [? | (_ & x & Hx & _)]; [done | by apply not_elem_of_nil in Hx]].
Qed.

(** The first host of a site, trimmed and in lower case. *)
Definition scope_of (site : SiteEntry) : option bytes := to_ascii_lowercase ∘ trim <$> head (se_hosts site).

(** What a loaded backend keeps. *)
Record backend_ok (b : Backend) : Prop := {
  ok_first : exists o, head (b_origins b) = Some o /\ b_addr b = o_addr o /\ b_host b = o_host o;
  ok_schemes : Forall (fun o => o_tls o = b_tls b) (b_origins b);
  ok_distinct : NoDup (map o_addr (b_origins b));
  ok_l1 : settings_ok (l1_settings (b_l1 b));
  ok_authz : b_jwt b = None -> Forall (fun r => sr_authz r = None) (b_routes b);
  ok_spool : forall r, r ∈ b_routes b -> exists policy, backend_inspection_policy b (sr_prefix r) = Some policy
    /\ (max_decoded_body policy <> None -> Inspection.require_complete policy = true);
}.

Lemma load_origins_ok urls origins k k' : load_fold (load_origin w) urls [] k = Done (origins, k') ->
  NoDup (map o_addr origins).
Proof.
  apply (load_fold_invariant (load_origin w) (fun s => NoDup (map o_addr s))); [|constructor].
  clear. intros url s s' k k' _ Hd H. unfold load_origin in H. load_inv H.
  apply negb_true_iff in E0. rewrite map_app. cbn. apply NoDup_app. split; [done|]. split; [|apply NoDup_singleton].
  intros a Ha ->%list_elem_of_singleton. apply list_elem_of_fmap in Ha as (o & Ho & Hin).
  assert (existsb (fun o' => bool_decide (o_addr o' = o_addr x)) s = true) as He; [|congruence].
  apply existsb_exists. exists o. split; [by apply list_elem_of_In | by apply bool_decide_eq_true].
Qed.

Definition unguarded (r : SiteRoute) : Prop := sr_authz r = None.

Lemma load_route_unguarded {J} entry r k k' : load_route w (None : option J) entry k = Done (r, k') -> unguarded r.
Proof.
  unfold load_route. intros H. load_inv H. apply load_option_done in E3.
  unfold unguarded. cbn. destruct (re_authorization entry) as [file|]; [|by destruct E3].
  destruct E3 as (b & -> & Hl). unfold load_authz in Hl. load_inv Hl. done.
Qed.

Lemma merge_route_unguarded new routes : unguarded new -> Forall unguarded routes ->
  forall routes' k k', merge_route new routes k = Done (routes', k') -> Forall unguarded routes'.
Proof.
  intros Hn. induction routes as [|r routes IH]; intros Hr routes' k k' H; cbn [merge_route] in H.
  - load_inv H. by repeat constructor.
  - apply Forall_cons_1 in Hr as [Hr Hrs]. destruct (_ =s _); load_inv H; constructor; try done.
    + unfold merge_into in E. load_inv E. unfold unguarded in *. rewrite Hn, Hr in E0. cbn.
      by load_inv E0.
    + by eapply IH.
Qed.

Lemma merge_routes_unguarded {J} complete entries routes k k' :
  merge_routes w complete entries (None : option J) k = Done (routes, k') -> Forall unguarded routes.
Proof.
  apply load_fold_invariant.
  - intros entry rs rs' j j' _ Hrs H. load_inv H. eapply merge_route_unguarded; [|exact Hrs|exact H].
    by eapply load_route_unguarded.
  - apply Forall_forall. intros r (p & -> & _)%list_elem_of_fmap. done.
Qed.

Lemma validate_spool_loop routes todo : validate_spool_routes_loop routes todo = Some tt ->
  forall r, r ∈ todo -> exists policy, inspection_policy routes (Inspection.prefix r) = Some policy
    /\ (max_decoded_body policy <> None -> Inspection.require_complete policy = true).
Proof.
  induction todo as [|r todo IH]; intros H r' Hin; [by apply not_elem_of_nil in Hin|]. cbn [validate_spool_routes_loop] in H.
  destruct (inspection_policy routes (Inspection.prefix r)) as [policy|] eqn:Ep; [|done]. cbn [mbind option_bind] in H.
  destruct (bool_decide _ && negb _) eqn:Eb; [done|]. apply elem_of_cons in Hin as [-> | Hin]; [|by apply IH].
  exists policy. split; [done|]. intros Hm. apply andb_false_iff in Eb as [Eb | Eb].
  - apply bool_decide_eq_false in Eb. destruct (max_decoded_body policy); [|done]. by destruct Eb.
  - by apply negb_false_iff in Eb.
Qed.

(** What [resolve_site] makes of its arguments. *)
Lemma resolve_site_done urls complete entries profile l1 openapi jwt b k k' :
  resolve_site w urls complete entries profile l1 openapi jwt k = Done (b, k') ->
  (exists o, head (b_origins b) = Some o /\ b_addr b = o_addr o /\ b_host b = o_host o)
  /\ Forall (fun o => o_tls o = b_tls b) (b_origins b) /\ NoDup (map o_addr (b_origins b))
  /\ b_l1 b = l1 /\ b_jwt b = jwt /\ (jwt = None -> Forall unguarded (b_routes b)).
Proof.
  unfold resolve_site. intros H. load_inv H. cbn. split; [eauto|]. split.
  { apply Forall_forall. intros o Ho. rewrite forallb_forall in E2. specialize (E2 o).
    rewrite <- list_elem_of_In in E2. specialize (E2 Ho). by apply Bool.eqb_prop in E2. }
  split; [by eapply load_origins_ok|]. split; [done|]. split; [done|]. intros ->. by eapply merge_routes_unguarded.
Qed.

Lemma validate_backend_done b k u k' : validate_backend b k = Done (u, k') ->
  forall r, r ∈ b_routes b -> exists policy, backend_inspection_policy b (sr_prefix r) = Some policy
    /\ (max_decoded_body policy <> None -> Inspection.require_complete policy = true).
Proof.
  unfold validate_backend. intros H. load_inv H. intros r Hr. destruct x.
  apply (validate_spool_loop _ _ E {| Inspection.prefix := sr_prefix r; patch := sr_patch r |}).
  apply list_elem_of_fmap. by exists r.
Qed.

Lemma load_site_ok l1_defaults exclusions base_dir site b k k' :
  settings_ok l1_defaults -> file_unsigned (se_l1 site) ->
  load_site w fuel l1_defaults exclusions base_dir site k = Done (b, k') ->
  backend_ok b /\ Some (b_site_scope b) = scope_of site.
Proof.
  intros Hs Hf H. unfold load_site in H. load_inv H.
  apply validated_spec in E as [-> Hok]; [|apply overlay_unsigned; [unfold settings_unsigned, settings_ok in *; lia | done]].
  apply resolve_site_done in E7 as (H1 & H2 & H3 & H4 & H5 & H6).
  pose proof (validate_backend_done _ _ _ _ E13) as Hv. cbn in Hv |- *.
  split; [|unfold scope_of; destruct (head (se_hosts site)); cbn in E12 |- *; [destruct (is_empty _); congruence | done]].
  split; cbn; try done; [by rewrite H4|]. rewrite H5. intros Hj. apply H6. exact Hj.
Qed.

(** A host that a site of the list declares, and the number of that site. *)
Definition declares (sites : list SiteEntry) (h : bytes) (i : nat) : Prop :=
  exists site host, sites !! i = Some site /\ host ∈ se_hosts site /\ h = host_key host.

(** What is known after the sites gone through. *)
Definition sites_loaded (sites : list SiteEntry) (acc : list Backend * gmap bytes nat) : Prop :=
  length acc.1 = length sites
  /\ (forall h i, acc.2 !! h = Some i <-> declares sites h i)
  /\ (forall i site, sites !! i = Some site -> exists b, acc.1 !! i = Some b /\ backend_ok b /\ Some (b_site_scope b) = scope_of site).

Lemma add_site_loaded l1_defaults exclusions base_dir sites acc site acc' k k' :
  settings_ok l1_defaults -> file_unsigned (se_l1 site) -> sites_loaded sites acc ->
  add_site w fuel l1_defaults exclusions base_dir acc site k = Done (acc', k') -> sites_loaded (sites ++ [site]) acc'.
Proof.
  intros Hs Hf (Hl & Ht & Hb) H. unfold add_site in H. load_inv H.
  apply load_site_ok in E as [Hok Hsc]; [|done..]. pose proof (add_hosts_table _ _ _ _ _ _ E0) as Hadd.
  split; [|split]; cbn [fst snd].
  - rewrite !length_app. cbn. lia.
  - intros h i. rewrite Hadd, Ht. unfold declares. split.
    + intros [(s & host & Hi & Hin & ->) | (-> & host & Hin & ->)].
      * exists s, host. rewrite lookup_app_l by (by eapply lookup_lt_Some). done.
      * exists site, host. rewrite Hl, lookup_app_r, Nat.sub_diag by done. done.
    + intros (s & host & Hi & Hin & ->). apply lookup_app_Some in Hi as [Hi | [Hge Hi]]; [left; eauto 10|]. right.
      apply list_lookup_singleton_Some in Hi as [Hi <-]. split; [lia | by exists host].
  - intros i s Hi. apply lookup_app_Some in Hi as [Hi | [Hge Hi]].
    + destruct (Hb _ _ Hi) as (b & Hbi & Hbok). exists b. rewrite lookup_app_l by (by eapply lookup_lt_Some). done.
    + apply list_lookup_singleton_Some in Hi as [Hi <-]. exists x. rewrite lookup_app_r by lia.
      replace (i - length acc.1)%nat with O by lia. done.
Qed.

Lemma load_sites l1_defaults exclusions base_dir all : settings_ok l1_defaults -> Forall (fun site => file_unsigned (se_l1 site)) all ->
  forall acc k k', load_fold (add_site w fuel l1_defaults exclusions base_dir) all ([], ∅) k = Done (acc, k') -> sites_loaded all acc.
Proof.
  intros Hs Hall.
  assert (forall todo pre s0 s j j', sites_loaded pre s0 -> Forall (fun site => file_unsigned (se_l1 site)) todo ->
    load_fold (add_site w fuel l1_defaults exclusions base_dir) todo s0 j = Done (s, j') -> sites_loaded (pre ++ todo) s) as Hgen.
  { induction todo as [|site todo IH]; intros pre s0 s j j' Hp Hf H; cbn [load_fold] in H; load_inv H.
    - by rewrite app_nil_r.
    - apply Forall_cons_1 in Hf as [Hfs Hf]. replace (pre ++ site :: todo) with ((pre ++ [site]) ++ todo) by (by rewrite <- app_assoc).
      eapply IH; [|exact Hf|exact H]. by eapply add_site_loaded. }
  intros acc k k' H. refine (Hgen all [] ([], ∅) acc k k' _ Hall H).
  split; [done|]. split; [|by intros i ? ?]. intros h i. cbn [snd]. rewrite lookup_empty. split; [done|].
  by intros (? & ? & ? & _).
Qed.

Lemma load_default_ok l1_defaults exclusions complete profile url b k k' : settings_ok l1_defaults ->
  load_default w l1_defaults exclusions complete profile url k = Done (b, k') ->
  backend_ok b /\ b_site_scope b = lit "__default__".
Proof.
  intros Hs H. unfold load_default in H. load_inv H.
  apply resolve_site_done in E as (H1 & H2 & H3 & H4 & H5 & H6).
  pose proof (validate_backend_done _ _ _ _ E0) as Hv. cbn in Hv |- *.
  split; [|done]. split; cbn; try done; [by rewrite H4|]. rewrite H5. intros _. by apply H6.
Qed.

(** What a loaded configuration is made of: the sites of the file, then the default backend. *)
Lemma from_toml_parts contents base_dir c k k' : from_toml_in w fuel contents base_dir k = Done (c, k') ->
  exists file bs, toml_from_str contents = Some file /\ sites_loaded (cf_sites file) (bs, route_table c)
    /\ match cf_default_backend file with
       | None => backends c = bs /\ default_idx c = None
       | Some _ => exists b, backends c = bs ++ [b] /\ default_idx c = Some (length bs)
                     /\ backend_ok b /\ b_site_scope b = lit "__default__"
       end.
Proof.
  unfold from_toml_in. intros H. load_inv H. destruct x4 as [bs table]. load_inv H.
  destruct (toml_unsigned _ _ E) as [Hf Hfs].
  apply validated_spec in E1 as [-> Hok]; [|by apply overlay_unsigned].
  apply load_sites in E3; [|done..]. exists x, bs. split; [done|]. split; [done|].
  apply load_option_done in E6. destruct (cf_default_backend x) as [url|].
  - destruct E6 as (b & -> & Hl). apply load_default_ok in Hl as [Hb Hsc]; [|done]. exists b. done.
  - destruct E6 as [-> _]. by rewrite app_nil_r.
Qed.

(** C35. In a configuration that loads, a request whose host, without its port and whatever its case, a site declares goes to the backend of that site; any other
    goes to the default backend, or nowhere when there is none.  No host belongs to two sites. *)
Theorem host_routing (contents base_dir : bytes) (c : Config) (k k' : Z) (file : ConfigFile) (header : bytes) :
  from_toml_in w fuel contents base_dir k = Done (c, k') -> toml_from_str contents = Some file ->
  let key := to_lowercase (before 58 header) in
  (forall i j, declares (cf_sites file) key i -> declares (cf_sites file) key j -> i = j)
  /\ (forall i site, cf_sites file !! i = Some site -> declares (cf_sites file) key i ->
        exists b, resolve_host c header = Some b /\ backends c !! i = Some b /\ Some (b_site_scope b) = scope_of site)
  /\ ((forall i, ~ declares (cf_sites file) key i) ->
        match cf_default_backend file with
        | None => resolve_host c header = None
        | Some _ => exists b, resolve_host c header = Some b /\ b_site_scope b = lit "__default__"
        end).
Proof.
  intros H Hfile key. apply from_toml_parts in H as (f & bs & Hf & (Hl & Ht & Hb) & Hd). rewrite Hfile in Hf. injection Hf as <-.
  cbn [fst snd] in *. unfold resolve_host. fold key. split; [|split].
  - intros i j Hi Hj. apply Ht in Hi, Hj. congruence.
  - intros i site Hi Hdec. apply Ht in Hdec. rewrite Hdec. destruct (Hb _ _ Hi) as (b & Hbi & _ & Hsc).
    assert (backends c !! i = Some b) as Hcb; [|by rewrite Hcb; eauto].
    destruct (cf_default_backend file); [destruct Hd as (b' & -> & _) | by destruct Hd as [-> _]].
    by rewrite lookup_app_l by (by eapply lookup_lt_Some).
  - intros Hno. destruct (route_table c !! key) as [i|] eqn:Ei; [by apply Ht, Hno in Ei|].
    destruct (cf_default_backend file); [|by destruct Hd as [_ ->]].
    destruct Hd as (b & -> & -> & _ & Hsc). exists b. cbn [mbind option_bind].
    rewrite lookup_app_r, Nat.sub_diag by done. done.
Qed.

(** C36. Every backend of a configuration that loads is well formed: it has origins, of one scheme and none twice, the first of them its
    address; its engine settings are in range; it has callbacks only with an identity to ask about; and a route that spools bodies
    requires complete inspection. *)
Theorem loaded_backends_ok (contents base_dir : bytes) (c : Config) (k k' : Z) :
  from_toml_in w fuel contents base_dir k = Done (c, k') -> Forall backend_ok (backends c).
Proof.
  intros H. apply from_toml_parts in H as (file & bs & _ & (Hl & _ & Hb) & Hd). cbn [fst] in *.
  assert (Forall backend_ok bs) as Hbs.
  { apply Forall_lookup. intros i b Hi. assert (is_Some (cf_sites file !! i)) as [site Hs].
    { apply lookup_lt_is_Some. rewrite <- Hl. by eapply lookup_lt_Some. }
    destruct (Hb _ _ Hs) as (b' & Hi' & Hok & _). congruence. }
  destruct (cf_default_backend file); [destruct Hd as (b & -> & _ & Hok & _) | by destruct Hd as [-> _]].
  apply Forall_app. split; [done|]. by constructor.
Qed.
End hosts.

(** ** Evaluations *)

Section evaluations.
Definition no_route : SiteRouteEntry := {|
  re_prefix := lit "/api"; re_inspection := {| f_require_complete := Some true; f_on_truncated := None; f_on_parse_error := None;
                                               f_max_decoded_body := Some (lit "1MiB") |};
  re_l1 := L1File_default; re_graphql := None; re_dlp := []; re_authorization := None |}.
Definition demo_site (hosts : list string) (url : string) : SiteEntry := {|
  se_hosts := map lit hosts; se_backend := One (lit url); se_health_path := None; se_client_cert := None; se_client_key := None;
  se_complete := []; se_profile := None; se_routes := [no_route]; se_l1 := L1File_default; se_openapi := None; se_jwt := None;
  se_graphql := None; se_grpc := None; se_dlp := []; se_abuse := None |}.
Definition no_protocols : ProtocolsSection := {|
  s_http_1_0 := None; s_http_1_1 := None; s_http_2 := None; s_http_3 := None; s_websocket := None; s_grpc := None;
  s_brotli := None; s_multipart := None; s_sse := None; s_json := None; s_gzip_deflate := None;
  s_unknown_http_version := None; s_unknown_upgrade := None; s_unknown_encoding := None; s_unknown_content_type := None |}.
Definition demo_file : ConfigFile := {|
  cf_default_backend := None; cf_default_complete := []; cf_default_profile := None; cf_protocols := no_protocols;
  cf_l1 := L1File_default;
  cf_sites := [demo_site ["App.example"; "www.app.example"] "http://10.0.0.1:8080"; demo_site ["api.example"] "http://10.0.0.2"] |}.
Definition demo_toml : TomlText.
Proof.
  refine {| toml_from_str s := if s =s "demo" then Some demo_file else None |}.
  intros s f. destruct (s =s "demo"); [|done]. intros [= <-]. split; [done|]. by repeat constructor.
Defined.
Definition demo_world : World := {|
  w_var _ := None; w_read _ := None; w_mmdb _ := NotAFile; w_now := 0;
  w_addrs host port := if host =s "10.0.0.1" then [SocketV4 1 port] else [SocketV4 2 port];
  w_fetch _ := Err JwksRead |}.
Definition no_pem : PemText := {| stack_from_pem _ := None; private_key_from_pem _ := None |}.
Let UC := ascii_case.
Let SJ := no_json.
Let YT := no_yaml.
Let D := demo_descriptors.
Let DB := no_mmdb.
Let JT := plain_text.
Let PT := no_pem.
Let TT := demo_toml.
#[local] Existing Instances UC SJ YT D DB JT PT TT.

Definition demo_load : fueled LoadError (Config * Z) := from_toml_in demo_world 1 (lit "demo") (lit ".") 0.
Definition demo_config : Config :=
  match demo_load with
  | Done (c, _) => c
  | _ => {| route_table := ∅; backends := []; default_idx := None; protocols := default_matrix |}
  end.

Lemma demo_loads : demo_load = Done (demo_config, 0).
Proof. vm_compute. reflexivity. Qed.

Lemma host_routing_witness :
  exists b, resolve_host demo_config (lit "APP.example:8443") = Some b
    /\ backends demo_config !! 0%nat = Some b /\ Some (b_site_scope b) = Some (lit "app.example").
Proof.
  refine (proj1 (proj2 (host_routing demo_world 1 (lit "demo") (lit ".") demo_config 0 0 demo_file (lit "APP.example:8443") _ _))
    0%nat (demo_site ["App.example"; "www.app.example"] "http://10.0.0.1:8080") _ _).
  - exact demo_loads.
  - reflexivity.
  - reflexivity.
  - exists (demo_site ["App.example"; "www.app.example"] "http://10.0.0.1:8080"), (lit "App.example").
    split; [reflexivity|]. split; [left | reflexivity].
Defined.

Lemma loaded_backends_ok_witness : Forall backend_ok (backends demo_config).
Proof. exact (loaded_backends_ok demo_world 1 (lit "demo") (lit ".") demo_config 0 0 demo_loads). Defined.

Example demo_backends :
  map b_site_scope (backends demo_config) = [lit "app.example"; lit "api.example"]
  /\ map b_addr (backends demo_config) = [SocketV4 1 8080; SocketV4 2 80]
  /\ (resolve_host demo_config (lit "nobody.example") = None)
  /\ uses_spool <$> head (backends demo_config) = Some (Some true).
Proof. vm_compute. repeat split. Qed.

(** A port that is no port is silently the port of the scheme. *)
Example bad_port_ignored :
  parse_origin_url demo_world (lit "http://10.0.0.2:80800") 0
  = Done ({| o_addr := SocketV4 2 80; o_host := lit "10.0.0.2"; o_tls := false |}, 0).
Proof. vm_compute. reflexivity. Qed.
End evaluations.
