(* ===== verification/Policy.v ===== *)
(** * Versioned policy snapshots ([src/policy.rs])

    The blob a configuration is compiled to, its version and its signature; the loading of a live policy from the file or from the environment; the store, which a
    reload that fails leaves as it was.  Hashing and signatures are the classes [Sha256] and [PolicyCrypto].  A reload reads its
    files twice, once for the blob and once for the configuration: the two readings are two worlds. *)

From S2P Require Import Prelude Text Net Json Window Shield Route Inspection Grpc Spool Graphql Abuse Jwks Jwt Authz.
From S2P Require Import Schema OpenApi WafEngine Config.

(** [src/policy.rs: const SNAPSHOT_FORMAT + const DEFAULT_TOML + const DEFAULT_SIG + const DEFAULT_PID] *)
Definition SNAPSHOT_FORMAT : Z := 1.
Definition DEFAULT_TOML : bytes := lit "ferroada.toml".
Definition DEFAULT_SIG : bytes := lit "ferroada.policy.sig".

(** [src/policy.rs: const ED25519_KEY_LEN + const ED25519_SIG_LEN] *)
Definition ED25519_KEY_LEN : Z := 32.
Definition ED25519_SIG_LEN : Z := 64.

(** Ed25519 and base 64 of the crates: public keys of PEM text and of 32 bytes, the verification of a signature ([None] is an
    error of the library), and the decoding of base 64. *)
Class PolicyCrypto : Type := {
  PublicKey : Type;
  public_from_pem : bytes -> option PublicKey;
  public_from_raw : bytes -> option PublicKey;
  verify_oneshot : PublicKey -> bytes -> bytes -> option bool;
  base64_decode : bytes -> option bytes;
}.

(** ** Hexadecimal *)

Definition HEX : bytes := lit "0123456789abcdef".

(** [src/policy.rs: fn hex_encode] *)
Definition hex_encode (b : bytes) : bytes :=
  flat_map (fun byte => [nth (Z.to_nat (Z.shiftr byte 4)) HEX 0; nth (Z.to_nat (Z.land byte 15)) HEX 0]) b.

(** [src/policy.rs: fn hex_val] *)
Definition hex_val (byte : Z) : option Z :=
  if in_range 48 57 byte then Some (byte - 48)
  else if in_range 97 102 byte then Some (byte - 97 + 10)
  else if in_range 65 70 byte then Some (byte - 65 + 10)
  else None.

Fixpoint hex_pairs (s : bytes) : option bytes :=
  match s with
  | a :: b :: r => hi ← hex_val a; lo ← hex_val b; rest ← hex_pairs r; Some (Z.lor (Z.shiftl hi 4) lo :: rest)
  | _ => Some []
  end.

(** [src/policy.rs: fn hex_decode] *)
Definition hex_decode (text : bytes) : option bytes :=
  let text := trim text in
  if negb (len text mod 2 =? 0) || is_empty text then None
  else if negb (forallb is_ascii_hexdigit text) then None
  else hex_pairs text.

(** ** Snapshots *)

(** [BTreeMap::insert]: the entries stay sorted by key. *)
Fixpoint bytes_le (a b : bytes) : bool :=
  match a, b with
  | [], _ => true
  | _ :: _, [] => false
  | x :: a, y :: b => (x <? y) || ((x =? y) && bytes_le a b)
  end.
Fixpoint btree_insert {V} (key : bytes) (v : V) (m : list (bytes * V)) : list (bytes * V) :=
  match m with
  | [] => [(key, v)]
  | (k, x) :: r =>
      if key =s k then (key, v) :: r
      else if bytes_le key k then (key, v) :: m else (k, x) :: btree_insert key v r
  end.

Inductive PolicyError : Type :=
| FileMissing (path : bytes) | TomlInvalid | Attachment (key : bytes) | Serialize
| KeyInvalidText | KeyPem | KeyLength (n : Z) | KeyRaw | SignatureMissing (path : bytes) | SignatureText | SignatureLength
| VerifyError | SignatureInvalid | TargetMissing | ConfigRefused (e : LoadError) | SpoolRefused (e : PrepareError) | PolicyPanic
| PinnedPolicy.

(** [src/policy.rs: struct PolicySnapshot] *)
Record PolicySnapshot : Type := { policy_version : bytes; blob : bytes; signed : bool }.

Section policy.
Context {UC : UnicodeCase} {SJ : SerdeJson} {YT : YamlText} {D : Descriptors} {DB : Mmdb}
  {JT : JwksText} {PT : PemText} {TT : TomlText} {H256 : Graphql.Sha256} {PC : PolicyCrypto}.

(** [src/policy.rs: fn sha256_hex] *)
Definition sha256_hex (b : bytes) : bytes := lit "sha256:" ++ hex_encode (sha256 b).

(** [src/policy.rs: fn version_of] *)
Definition version_of (blob : bytes) : bytes := sha256_hex blob.

(** [src/policy.rs: fn compile_ir + struct PolicyIr] *)
Definition compile_ir (source body : bytes) (attachments : list (bytes * bytes)) : result PolicyError bytes :=
  ok_or Serialize (json_to_string (JObject [
    (lit "format", JNumber (show_dec SNAPSHOT_FORMAT)); (lit "source", JString source); (lit "body", JString body);
    (lit "attachments", JObject (map (fun '(k, v) => (k, JString v)) attachments))])).

(** The digests of the files named. *)
Fixpoint digest_files (w : World) (files : list (bytes * bytes)) (acc : list (bytes * bytes))
  : result PolicyError (list (bytes * bytes)) :=
  match files with
  | [] => Ok acc
  | (key, file) :: files =>
      b ← ok_or (Attachment key) (w_read w file); digest_files w files (btree_insert key (sha256_hex b) acc)
  end.

(** [src/policy.rs: fn compile_toml_blob] *)
Definition compile_toml_blob (w : World) (contents base_dir : bytes) : result PolicyError (bytes * bytes) :=
  files ← ok_or TomlInvalid (referenced_policy_files contents base_dir);
  attachments ← digest_files w files [];
  blob ← compile_ir (lit "toml") contents attachments;
  Ok (blob, version_of blob).

(** ** Signatures *)

(** [src/policy.rs: fn decode_signature] *)
Definition decode_signature (b : bytes) : result PolicyError bytes :=
  if len b =? ED25519_SIG_LEN then Ok b
  else if negb (is_utf8 b) then Err SignatureText
  else
    let text := trim b in
    let right_size (o : option bytes) := match o with
                                         | Some d => if len d =? ED25519_SIG_LEN then Some d else None
                                         | None => None
                                         end in
    match right_size (hex_decode text) with
    | Some d => Ok d
    | None => ok_or SignatureLength (right_size (base64_decode text))
    end.

(** [src/policy.rs: fn decode_key_bytes] *)
Definition decode_key_bytes (text : bytes) : result PolicyError bytes :=
  match hex_decode text with
  | Some d => Ok d
  | None => ok_or KeyInvalidText (base64_decode (trim text))
  end.

(** [src/policy.rs: fn parse_public_key] The two characters of an escaped line end are one line end. *)
Definition parse_public_key (raw : bytes) : result PolicyError PublicKey :=
  let pem := replace_pair 92 110 10 (trim raw) in
  if contains pem (lit "BEGIN") then ok_or KeyPem (public_from_pem pem)
  else
    b ← decode_key_bytes (trim raw);
    if negb (len b =? ED25519_KEY_LEN) then Err (KeyLength (len b)) else ok_or KeyRaw (public_from_raw b).

(** A variable that holds more than white space. *)
Definition nonblank (o : option bytes) : option bytes :=
  match o with Some v => if is_empty (trim v) then None else Some v | None => None end.

(** [src/policy.rs: fn signature_path] *)
Definition signature_path (w : World) : bytes := default DEFAULT_SIG (nonblank (w_env w "FERROADA_POLICY_SIG")).

(** [src/policy.rs: fn read_signature] *)
Definition read_signature (w : World) : result PolicyError bytes :=
  b ← ok_or (SignatureMissing (signature_path w)) (w_read w (signature_path w)); decode_signature b.

(** [src/policy.rs: fn verify_ed25519] *)
Definition verify_ed25519 (key : PublicKey) (blob signature : bytes) : result PolicyError bool :=
  ok_or VerifyError (verify_oneshot key signature blob).

(** [src/policy.rs: fn verify_if_configured] *)
Definition verify_if_configured (w : World) (blob : bytes) : result PolicyError bool :=
  match nonblank (w_env w "FERROADA_POLICY_PUBKEY") with
  | None => Ok false
  | Some raw =>
      pubkey ← parse_public_key raw;
      signature ← read_signature w;
      ok ← verify_ed25519 pubkey blob signature;
      if ok : bool then Ok true else Err SignatureInvalid
  end.

(** ** Live policies *)

(** [src/policy.rs: struct LivePolicy] *)
Record LivePolicy : Type := { lp_config : Config; lp_snapshot : PolicySnapshot; lp_spool : SpoolRuntime }.

(** [src/policy.rs: enum PolicyOrigin] *)
Inductive PolicyOrigin : Type := OriginToml (path : bytes) | OriginEnv | OriginPinned.

(** What a load meets: the world when the blob is made and verified, the world when the configuration is read, the spool directory and
    the number of the next quota book. *)
Record Occasion : Type := { at_blob : World; at_config : World; spool_dir : DirState; next_book : Z; load_fuel : nat }.

(** [src/policy.rs: fn live_from_config] *)
Definition live_from_config (w : World) (dir : DirState) (config : Config) (blob version : bytes) (signed : bool)
  : fueled PolicyError LivePolicy :=
  match has_spool_routes config with
  | None => Failed PolicyPanic
  | Some routes =>
      match (boot routes dir).2 with
      | Err e => Failed (SpoolRefused e)
      | Ok _ => Done {| lp_config := config; lp_spool := runtime_from_config (w_env w) routes;
                        lp_snapshot := {| policy_version := version; blob := blob; signed := signed |} |}
      end
  end.

(** [Config::try_from_..]: a panic is an error. *)
Definition try_config (m : Load Config) (books : Z) : fueled PolicyError Config :=
  match m books with Done (c, _) => Done c | Failed e => Failed (ConfigRefused e) | NoFuel => NoFuel end.

(** [src/policy.rs: fn base_dir] [Path::parent] of a path with a name. *)
Definition base_dir (path : bytes) : bytes :=
  match rsplit_once 47 path with
  | Some (parent, _) => if is_empty parent then (if starts_with path [47] then [47] else lit ".") else parent
  | None => lit "."
  end.

(** [src/policy.rs: fn load_toml] *)
Definition load_toml (o : Occasion) (path : bytes) : fueled PolicyError LivePolicy :=
  contents ← of_result (ok_or (FileMissing path) (w_read (at_blob o) path));
  '(blob, version) ← of_result (compile_toml_blob (at_blob o) contents (base_dir path));
  signed ← of_result (verify_if_configured (at_blob o) blob);
  config ← try_config (from_toml_in (at_config o) (load_fuel o) contents (base_dir path)) (next_book o);
  live_from_config (at_config o) (spool_dir o) config blob version signed.

(** [src/policy.rs: fn env_policy_body] *)
Definition env_policy_body (w : World) (target : bytes) : bytes :=
  lit "TARGET_URL=" ++ target
  ++ match nonblank (w_env w "WAF_REQUIRE_COMPLETE_PATHS") with
     | Some paths => [10] ++ lit "WAF_REQUIRE_COMPLETE_PATHS=" ++ paths
     | None => []
     end.

(** [src/policy.rs: fn load_env] *)
Definition load_env (o : Occasion) : fueled PolicyError LivePolicy :=
  target ← of_result (ok_or TargetMissing (w_env (at_blob o) "TARGET_URL"));
  let body := env_policy_body (at_blob o) target in
  blob ← of_result (compile_ir (lit "env") body []);
  signed ← of_result (verify_if_configured (at_blob o) blob);
  config ← try_config (from_target_url (at_config o) target) (next_book o);
  live_from_config (at_config o) (spool_dir o) config blob (version_of blob) signed.

(** [src/policy.rs: PolicyOrigin::load] *)
Definition origin_load (origin : PolicyOrigin) (o : Occasion) : fueled PolicyError LivePolicy :=
  match origin with
  | OriginToml path => load_toml o path
  | OriginEnv => load_env o
  | OriginPinned => Failed PinnedPolicy
  end.

(** ** The store *)

(** [src/policy.rs: struct PolicyStore] *)
Record PolicyStore : Type := { live : LivePolicy; origin : PolicyOrigin }.

(** [src/policy.rs: PolicyStore::boot + PolicyStore::from_toml_path + PolicyStore::from_live] *)
Definition store_boot (o : Occasion) (toml_is_file : bool) : fueled PolicyError PolicyStore :=
  let origin := if toml_is_file then OriginToml DEFAULT_TOML else OriginEnv in
  live ← origin_load origin o;
  Done {| live := live; origin := origin |}.

(** [src/policy.rs: struct ReloadOutcome] *)
Record ReloadOutcome : Type := { version : bytes; previous : bytes }.

(** [src/policy.rs: PolicyStore::try_reload] The store, and what the caller gets. *)
Definition try_reload (s : PolicyStore) (o : Occasion) : PolicyStore * fueled PolicyError ReloadOutcome :=
  let previous := policy_version (lp_snapshot (live s)) in
  match origin_load (origin s) o with
  | Done l => ({| live := l; origin := origin s |}, Done {| version := policy_version (lp_snapshot l); previous := previous |})
  | Failed e => (s, Failed e)
  | NoFuel => (s, NoFuel)
  end.

(** The store after the reloads of a process, in order. *)
Definition run_reloads (s : PolicyStore) (os : list Occasion) : PolicyStore := fold_left (fun s o => (try_reload s o).1) os s.

(** ** What a load gives *)

Lemma fueled_bind_done {E A B} (m : fueled E A) (f : A -> fueled E B) b :
  m ≫= f = Done b <-> exists a, m = Done a /\ f a = Done b.
Proof. destruct m; cbn; split; eauto; [by intros (? & [= <-] & ?) | done | by intros (? & ? & ?) | done | by intros (? & ? & ?)]. Qed.

Lemma of_result_done {E A} (m : result E A) a : of_result m = Done a <-> m = Ok a.
Proof. destruct m; cbn; split; congruence. Qed.

(** A blob verified under the key a world configures. *)
Definition verified_by (w : World) (blob : bytes) : Prop :=
  exists raw key signature, nonblank (w_env w "FERROADA_POLICY_PUBKEY") = Some raw /\ parse_public_key raw = Ok key
    /\ read_signature w = Ok signature /\ verify_oneshot key signature blob = Some true.

Lemma verify_if_configured_spec w blob b : verify_if_configured w blob = Ok b ->
  (b = false /\ nonblank (w_env w "FERROADA_POLICY_PUBKEY") = None) \/ (b = true /\ verified_by w blob).
Proof.
  unfold verify_if_configured. destruct (nonblank _) as [raw|] eqn:En; [|intros [= <-]; by left].
  destruct (parse_public_key raw) as [key|] eqn:Ek; [|done]. cbn [mbind result_bind].
  destruct (read_signature w) as [sig|] eqn:Es; [|done]. cbn [mbind result_bind].
  unfold verify_ed25519. destruct (verify_oneshot key sig blob) as [[|]|] eqn:Ev; [|done|done].
  intros [= <-]. right. split; [done|]. exists raw, key, sig. done.
Qed.

Lemma live_from_config_done w dir c b v sg l : live_from_config w dir c b v sg = Done l ->
  lp_config l = c /\ lp_snapshot l = {| policy_version := v; blob := b; signed := sg |}.
Proof.
  unfold live_from_config. destruct (has_spool_routes c); [|done]. by destruct (boot _ dir).2; [intros [= <-]|].
Qed.

(** The promise of a snapshot made in a world: its version is the digest of its blob; it is signed exactly when the world configures
    a key, and then the key verifies the blob. *)
Definition snapshot_ok (w : World) (s : PolicySnapshot) : Prop :=
  policy_version s = version_of (blob s)
  /\ (signed s = false -> nonblank (w_env w "FERROADA_POLICY_PUBKEY") = None)
  /\ (signed s = true -> verified_by w (blob s)).

Lemma snapshot_made w blob sg :
  verify_if_configured w blob = Ok sg -> snapshot_ok w {| policy_version := version_of blob; blob := blob; signed := sg |}.
Proof.
  intros [[-> Hn] | [-> Hv]]%verify_if_configured_spec; (split; [done|]); split; done.
Qed.

Lemma origin_load_ok origin o l : origin_load origin o = Done l -> snapshot_ok (at_blob o) (lp_snapshot l).
Proof.
  destruct origin as [path| |]; cbn [origin_load]; [| |done].
  - unfold load_toml. rewrite fueled_bind_done. intros (contents & _ & H). apply fueled_bind_done in H as ([b v] & Hb & H).
    apply of_result_done in Hb. apply fueled_bind_done in H as (sg & Hs & H). apply of_result_done in Hs.
    apply fueled_bind_done in H as (c & _ & H). apply live_from_config_done in H as [_ ->].
    unfold compile_toml_blob in Hb. destruct (referenced_policy_files _ _); [|done]. cbn [ok_or mbind result_bind] in Hb.
    destruct (digest_files _ _ _); [|done]. cbn [mbind result_bind] in Hb. destruct (compile_ir _ _ _); [|done].
    injection Hb as <- <-. by apply snapshot_made.
  - unfold load_env. rewrite fueled_bind_done. intros (target & _ & H). apply fueled_bind_done in H as (b & _ & H).
    apply fueled_bind_done in H as (sg & Hs & H). apply of_result_done in Hs.
    apply fueled_bind_done in H as (c & _ & H). apply live_from_config_done in H as [_ ->]. by apply snapshot_made.
Qed.

(** The first live policy, and those the reloads of a process install. *)
Lemma live_from_occasion s os :
  live (run_reloads s os) = live s \/ exists o, o ∈ os /\ origin_load (origin s) o = Done (live (run_reloads s os)).
Proof.
  assert (forall os s, origin (run_reloads s os) = origin s) as Horigin.
  { clear. induction os as [|o os IH]; intros s; [done|].
    change (run_reloads s (o :: os)) with (run_reloads (try_reload s o).1 os). rewrite IH. unfold try_reload. by destruct (origin_load _ _). }
  induction os as [|o os IH] using rev_ind; [by left|]. unfold run_reloads in *. rewrite fold_left_app. cbn [fold_left].
  set (s' := fold_left _ os s) in *. specialize (Horigin os s). unfold run_reloads in Horigin. fold s' in Horigin.
  unfold try_reload. rewrite Horigin. destruct (origin_load (origin s) o) as [l|e|] eqn:E; cbn [fst live].
  - right. exists o. split; [apply elem_of_app; right; left | done].
  - destruct IH as [-> | (o' & Ho & ?)]; [by left|]. right. exists o'. split; [apply elem_of_app; by left | done].
  - destruct IH as [-> | (o' & Ho & ?)]; [by left|]. right. exists o'. split; [apply elem_of_app; by left | done].
Qed.

(** A reload that fails, whatever the reason, leaves the policy in force as it was; one that succeeds installs what it loaded
    and reports the old and the new version. *)
Theorem reload_last_known_good (s s' : PolicyStore) (o : Occasion) (r : fueled PolicyError ReloadOutcome) :
  try_reload s o = (s', r) ->
  match r with
  | Done out => origin_load (origin s) o = Done (live s') /\ origin s' = origin s
      /\ version out = policy_version (lp_snapshot (live s')) /\ previous out = policy_version (lp_snapshot (live s))
  | _ => s' = s
  end.
Proof. unfold try_reload. by destruct (origin_load (origin s) o) as [l|e|] eqn:E; intros [= <- <-]. Qed.

(** C37. From a boot that succeeds, whatever reloads follow, the policy in force has the digest of its blob as its version, and
    was made on one of these occasions; and when each of them configures a key, its blob was verified under that key. *)
Theorem live_policy_verified (o : Occasion) (toml : bool) (s : PolicyStore) (os : list Occasion) :
  store_boot o toml = Done s ->
  let snapshot := lp_snapshot (live (run_reloads s os)) in
  policy_version snapshot = version_of (blob snapshot)
  /\ ((forall o', o' ∈ o :: os -> nonblank (w_env (at_blob o') "FERROADA_POLICY_PUBKEY") <> None) ->
        signed snapshot = true /\ exists o', o' ∈ o :: os /\ verified_by (at_blob o') (blob snapshot)).
Proof.
  intros Hb snapshot. unfold store_boot in Hb. apply fueled_bind_done in Hb as (l & Hl & [= <-]).
  set (s := {| live := l; origin := if toml then OriginToml DEFAULT_TOML else OriginEnv |}) in *.
  assert (exists o', o' ∈ o :: os /\ snapshot_ok (at_blob o') snapshot) as (o' & Ho' & H1 & H2 & H3).
  { destruct (live_from_occasion s os) as [E | (o' & Ho & E)].
    - exists o. split; [left|]. unfold snapshot. rewrite E. by eapply origin_load_ok.
    - exists o'. split; [by right|]. by eapply origin_load_ok. }
  split; [done|]. intros Hk. destruct (signed snapshot) eqn:Es; [|by destruct (Hk o'); [|apply H2]].
  split; [done|]. exists o'. split; [done|]. by apply H3.
Qed.
End policy.

(** ** Evaluations *)

Section evaluations.
Definition mtls_site : SiteEntry := {|
  se_hosts := [lit "app.example"]; se_backend := One (lit "http://10.0.0.1"); se_health_path := None;
  se_client_cert := Some (lit "cert.pem"); se_client_key := Some (lit "key.pem");
  se_complete := []; se_profile := None; se_routes := []; se_l1 := L1File_default; se_openapi := None; se_jwt := None;
  se_graphql := None; se_grpc := None; se_dlp := []; se_abuse := None |}.
Definition mtls_file : ConfigFile := {|
  cf_default_backend := None; cf_default_complete := []; cf_default_profile := None; cf_protocols := no_protocols;
  cf_l1 := L1File_default; cf_sites := [mtls_site] |}.
Definition mtls_toml : TomlText.
Proof.
  refine {| toml_from_str s := if s =s "demo" then Some mtls_file else None |}.
  intros s f. destruct (s =s "demo"); [|done]. intros [= <-]. split; [done|]. by repeat constructor.
Defined.

(** A codec that writes the attachments only, and a library that takes the text of a file for its chain. *)
Definition attachments_json : SerdeJson := {|
  json_from_str _ := None;
  json_to_string v := match json_get "attachments" v with
                      | Some (JObject members) => Some (flat_map (fun m => m.1 ++ match m.2 with JString s => s | _ => [] end) members)
                      | _ => None
                      end |}.
Definition text_pem : PemText := {| stack_from_pem b := Some [b]; private_key_from_pem b := Some b |}.
Definition text_hash : Graphql.Sha256 := {| sha256 b := b |}.
Definition trusting : PolicyCrypto := {|
  PublicKey := unit; public_from_pem _ := None; public_from_raw _ := Some tt;
  verify_oneshot _ _ _ := Some true; base64_decode b := Some b |}.
Let UC := ascii_case.
Let SJ := attachments_json.
Let YT := no_yaml.
Let D := demo_descriptors.
Let DB := no_mmdb.
Let JT := plain_text.
Let PT := text_pem.
Let TT := mtls_toml.
Let H256 := text_hash.
Let PC := trusting.
#[local] Existing Instances UC SJ YT D DB JT PT TT H256 PC.

Definition mtls_world (cert : string) : World := {|
  w_var name := if name =s "FERROADA_POLICY_PUBKEY" then Some (lit "key-of-thirty-two-bytes-long-key") else None;
  w_read path := if path =s "ferroada.toml" then Some (lit "demo")
                 else if path =s "./cert.pem" then Some (lit cert)
                 else if path =s "./key.pem" then Some (lit "K")
                 else if path =s "ferroada.policy.sig" then Some (repeat 7 64)
                 else None;
  w_mmdb _ := NotAFile; w_now := 0; w_addrs host port := [SocketV4 1 port]; w_fetch _ := Err JwksRead |}.
Definition quiet (cert : string) : Occasion := {|
  at_blob := mtls_world cert; at_config := mtls_world cert; spool_dir := Missing; next_book := 0; load_fuel := 1 |}.
Definition moving : Occasion := {|
  at_blob := mtls_world "A"; at_config := mtls_world "B"; spool_dir := Missing; next_book := 0; load_fuel := 1 |}.

Definition booted : PolicyStore :=
  match store_boot (quiet "A") true with
  | Done s => s
  | _ => {| origin := OriginPinned;
            live := {| lp_config := {| route_table := ∅; backends := []; default_idx := None; protocols := Protocol.default_matrix |};
                       lp_snapshot := {| policy_version := []; blob := []; signed := false |};
                       lp_spool := runtime_off |} |}
  end.

Lemma booted_ok : store_boot (quiet "A") true = Done booted.
Proof. vm_compute. reflexivity. Qed.

Lemma reload_last_known_good_witness :
  (try_reload booted {| at_blob := demo_world; at_config := demo_world; spool_dir := Missing; next_book := 0; load_fuel := 1 |}).1 = booted.
Proof.
  exact (reload_last_known_good booted _ {| at_blob := demo_world; at_config := demo_world; spool_dir := Missing; next_book := 0; load_fuel := 1 |}
    (Failed (FileMissing (lit "ferroada.toml"))) ltac:(vm_compute; reflexivity)).
Defined.

Lemma live_policy_verified_witness : signed (lp_snapshot (live (run_reloads booted [quiet "B"]))) = true.
Proof.
  refine (proj1 (proj2 (live_policy_verified (quiet "A") true booted [quiet "B"] booted_ok) _)).
  intros o' Ho. assert (nonblank (w_env (at_blob o') "FERROADA_POLICY_PUBKEY") = Some (lit "key-of-thirty-two-bytes-long-key")) as E.
  { repeat (apply elem_of_cons in Ho as [-> | Ho]; [vm_compute; reflexivity|]). by apply not_elem_of_nil in Ho. }
  rewrite E. discriminate.
Defined.

(** The files a policy names are read once for the blob whose signature is verified, and again for the configuration: what
    changes between the two runs under a snapshot that says otherwise. *)
Example attachment_changes_after_verification :
  match store_boot moving true with
  | Done s => signed (lp_snapshot (live s)) = true
      /\ blob (lp_snapshot (live s)) = blob (lp_snapshot (live booted))
      /\ map b_origin_mtls (backends (lp_config (live s))) = [Some ([lit "B"], lit "K")]
      /\ map b_origin_mtls (backends (lp_config (live booted))) = [Some ([lit "A"], lit "K")]
  | _ => False
  end.
Proof. vm_compute. repeat split. Qed.
End evaluations.
