(* ===== verification/Stage.v ===== *)
(** * Stages of the request filter ([src/proxy.rs])

    A stage reads and changes the state the requests share, leaves marks (events, counters, what the context of the request notes)
    and either goes on with a value, answers the client itself, fails, or panics.  Stages compose as a monad; the lemmas at the end
    take apart a composition that went on.  Then the answers the proxy writes. *)

From S2P Require Import Prelude Net Shield Protocol Inspection Http.
From S2P Require Dlp.

(** An answer of the proxy: nothing of it comes from the origin. *)
Record Reply : Type := { rp_status : Z; rp_headers : list (bytes * bytes); rp_body : bytes }.

(** What is left behind besides the state: a call to [metrics::record_*], the inspection counter raised, the protocol counter
    raised, what an answer held ([metrics::record_dlp]), and what the context of the request keeps for the log ([note_event], [note_rule_ids], [note_outcome]). *)
Inductive Mark : Type :=
| Metric (e : MetricEvent) | Counted (name : bytes) | SeenProtocol (m : option ProtocolMetric) | SeenDlp (e : Dlp.DlpEvent)
| NotedEvent (event_type : bytes) | NotedRules (ids : list Z) | NotedOutcome (o : InspectionOutcome).

Inductive Flow (A : Type) : Type := Next (a : A) | Answer (r : Reply) | Fails | Panics.
Arguments Next {A} a.
Arguments Answer {A} r.
Arguments Fails {A}.
Arguments Panics {A}.

Definition Stage (S A : Type) : Type := S -> S * list Mark * Flow A.

Section Monad.
Context {S : Type}.

Definition ret {A} (a : A) : Stage S A := fun s => (s, [], Next a).
Definition bind {A B} (m : Stage S A) (k : A -> Stage S B) : Stage S B := fun s =>
  let '(s, l, f) := m s in
  match f with
  | Next a => let '(s, l', f) := k a s in (s, l ++ l', f)
  | Answer r => (s, l, Answer r)
  | Fails => (s, l, Fails)
  | Panics => (s, l, Panics)
  end.

(** The state is read, changed by an operation that gives a value, or left. *)
Definition operate {A} (f : S -> S * A) : Stage S A := fun s => let '(s, a) := f s in (s, [], Next a).
Definition mark (l : list Mark) : Stage S unit := fun s => (s, l, Next tt).
Definition answer {A} (r : Reply) : Stage S A := fun s => (s, [], Answer r).
Definition fails {A} : Stage S A := fun s => (s, [], Fails).
(** An operation that may panic ([None]). *)
Definition or_panic {A} (o : option A) : Stage S A := fun s =>
  (s, [], match o with Some a => Next a | None => Panics end).
Definition when (b : bool) (m : Stage S unit) : Stage S unit := if b then m else ret tt.
End Monad.

Declare Scope stage_scope.
Notation "'let!' x ':=' m 'in' k" := (bind m (fun x => k))
  (at level 10, x name, m at level 200, k at level 200) : stage_scope.
Notation "'let!' ' p ':=' m 'in' k" := (bind m (fun x => match x with p => k end))
  (at level 10, p pattern, m at level 200, k at level 200) : stage_scope.
Notation "m ;;; k" := (bind m (fun _ => k)) (at level 100, k at level 200, right associativity) : stage_scope.
#[global] Open Scope stage_scope.

Definition metrics (l : list MetricEvent) : list Mark := map Metric l.
Definition blocked (l : list BlockEvent) : list Mark := map (fun e => Metric (Blocked e)) l.

(** [src/proxy.rs: FerroadaCtx::note_event] The event type the log reads is the last one noted. *)
Definition note_event (event_type : bytes) : list Mark := if is_empty event_type then [] else [NotedEvent event_type].
(** [src/proxy.rs: FerroadaCtx::note_rule_ids] *)
Definition note_rule_ids (ids : list Z) : list Mark := if is_empty ids then [] else [NotedRules ids].
(** [src/proxy.rs: FerroadaCtx::note_outcome] *)
Definition note_outcome (o : InspectionOutcome) : list Mark := [NotedOutcome o].

(** ** Taking compositions apart *)

Lemma bind_next {S A B} (m : Stage S A) (k : A -> Stage S B) s s' l b :
  bind m k s = (s', l, Next b) ->
  exists s1 l1 a l2, m s = (s1, l1, Next a) /\ k a s1 = (s', l2, Next b) /\ l = l1 ++ l2.
Proof.
  unfold bind. destruct (m s) as [[s1 l1] [a|r| |]] eqn:Em; [|done..].
  destruct (k a s1) as [[s2 l2] f] eqn:Ek. intros [= <- <- ->]. exists s1, l1, a, l2. done.
Qed.

Lemma bind_answer {S A B} (m : Stage S A) (k : A -> Stage S B) s s' l r :
  bind m k s = (s', l, Answer r) ->
  m s = (s', l, Answer r)
  \/ exists s1 l1 a l2, m s = (s1, l1, Next a) /\ k a s1 = (s', l2, Answer r) /\ l = l1 ++ l2.
Proof.
  unfold bind. destruct (m s) as [[s1 l1] [a|r'| |]] eqn:Em; [|intros [= -> -> ->]; by left|intros [=]|intros [=]].
  destruct (k a s1) as [[s2 l2] f] eqn:Ek. intros [= <- <- ->]. right. exists s1, l1, a, l2. done.
Qed.

Lemma bind_assoc {S A B C} (m : Stage S A) (k : A -> Stage S B) (j : B -> Stage S C) s :
  bind (bind m k) j s = bind m (fun a => bind (k a) j) s.
Proof.
  unfold bind. destruct (m s) as [[s1 l1] [a|r| |]]; [|done..].
  destruct (k a s1) as [[s2 l2] [b|r| |]]; [|done..]. destruct (j b s2) as [[s3 l3] f]. by rewrite app_assoc.
Qed.

Lemma bind_ret_l {S A B} (a : A) (k : A -> Stage S B) s : bind (ret a) k s = k a s.
Proof. unfold bind, ret. by destruct (k a s) as [[s1 l] f]. Qed.

(** A stage whose continuation was reached went on; the stages of this shape say what that takes. *)
Lemma operate_next {S A} (f : S -> S * A) s s' l a : operate f s = (s', l, Next a) -> f s = (s', a) /\ l = [].
Proof. unfold operate. destruct (f s). by intros [= <- <- <-]. Qed.
Lemma or_panic_next {S A} (o : option A) (s s' : S) l a : or_panic o s = (s', l, Next a) -> o = Some a /\ s' = s /\ l = [].
Proof. unfold or_panic. destruct o; by intros [= <- <- <-]. Qed.
Lemma mark_next {S} l (s s' : S) l' u : mark l s = (s', l', Next u) -> s' = s /\ l' = l.
Proof. by intros [= <- <- _]. Qed.
Lemma ret_next {S A} (a b : A) (s s' : S) l : ret a s = (s', l, Next b) -> s' = s /\ l = [] /\ a = b.
Proof. by intros [= <- <- <-]. Qed.

(** ** Answers *)

Section Answers.
Context {H : Type} `{HM : HeaderMap H} {S : Type}.
(** Whether the client takes what is written to it. *)
Context (writes : bool).

(** [ResponseHeader::build], the header fields, [write_response_header] and [write_response_body]. *)
Definition write (status : Z) (fields : list (bytes * bytes)) (body : bytes) : Stage S Reply :=
  if forallb (fun f => accepts f.1 f.2) fields && writes
  then ret {| rp_status := status; rp_headers := fields; rp_body := body |} else fails.

Definition content_type_of (charset : bool) : bytes * bytes :=
  (lit "Content-Type", if charset then lit "text/plain; charset=utf-8" else lit "text/plain").
Definition content_length_of (body : bytes) : bytes * bytes := (lit "Content-Length", show_dec (len body)).
Definition simple (status : Z) (charset : bool) (extra : list (bytes * bytes)) (body : bytes) : Stage S Reply :=
  write status (content_type_of charset :: content_length_of body :: extra) body.

Definition line (l : bytes) : bytes := l ++ [10].
Definition send {A} (m : Stage S Reply) : Stage S A := let! r := m in answer r.

(** [src/proxy.rs: FerroadaProxy::send_429] *)
Definition send_429 {A} (reason : bytes) (retry_after : Z) : Stage S A :=
  send (simple 429 false [(lit "Retry-After", show_dec retry_after)] (line (lit "429 Muitas requisições: " ++ reason))).
(** [src/proxy.rs: FerroadaProxy::send_400] *)
Definition send_400 {A} (reason : bytes) : Stage S A :=
  send (simple 400 false [] (line (lit "400 Requisição inválida: " ++ reason))).
(** [src/proxy.rs: FerroadaProxy::send_408] *)
Definition send_408 {A} (status : Z) : Stage S A :=
  send (simple status true [] (line (show_dec status ++ lit " Tempo esgotado ao ler a requisição"))).
(** [src/proxy.rs: FerroadaProxy::send_401] *)
Definition send_401 {A} (reason : bytes) : Stage S A :=
  send (simple 401 true [(lit "WWW-Authenticate", lit "Bearer")] (line (lit "401 Não autorizado: " ++ reason))).
(** [src/proxy.rs: FerroadaProxy::send_403] *)
Definition send_403 {A} (reason : bytes) : Stage S A :=
  send (simple 403 false [] (line (lit "403 Proibido: " ++ reason))).
(** [src/proxy.rs: FerroadaProxy::send_431] *)
Definition send_431 {A} : Stage S A := send (simple 431 true [] (line (lit "431 Headers da requisição muito grandes"))).
(** [src/proxy.rs: FerroadaProxy::send_502] *)
Definition send_502 {A} : Stage S A := send (simple 502 true [] (line (lit "502 Resposta bloqueada pelo DLP"))).
(** [src/proxy.rs: FerroadaProxy::send_503] *)
Definition send_503 {A} : Stage S A :=
  send (simple 503 true [(lit "Retry-After", lit "1")] (line (lit "503 Serviço temporariamente sobrecarregado"))).
(** [src/proxy.rs: FerroadaProxy::send_413] *)
Definition send_413 {A} (uri client_addr : bytes) (max_body : Z) (site_scope : bytes) : Stage S A :=
  mark [Metric (Blocked (record_block_in site_scope "size_limit" client_addr uri (lit "Body size > max " ++ show_dec max_body)))] ;;;
  send (simple 413 false [] (line (lit "413 Corpo da requisição muito grande"))).
(** [src/proxy.rs: FerroadaProxy::send_body_timeout] *)
Definition send_body_timeout {A} (client_addr uri site_scope : bytes) : Stage S A :=
  let '(outcome, (counter, events)) := on_body_read_timeout client_addr uri site_scope in
  mark (Counted counter :: metrics events) ;;; send_408 (denied_status outcome).

(** [src/proxy.rs: FerroadaProxy::request_filter @655-668] The answer to a host that is not served. *)
Definition write_421 : Stage S Reply := simple 421 false [] (line (lit "421 Destino incorreto")).

(** None of these goes on. *)
Lemma write_next status fields body (s s' : S) l r : write status fields body s = (s', l, Next r) ->
  s' = s /\ l = [] /\ r = {| rp_status := status; rp_headers := fields; rp_body := body |}.
Proof. unfold write. destruct (_ && _); [|done]. by intros [= <- <- <-]. Qed.

Lemma send_never {A} (m : Stage S Reply) s s' l (a : A) : send m s <> (s', l, Next a).
Proof. unfold send. intros (s1 & l1 & r & l2 & _ & Hk & _)%bind_next. done. Qed.
End Answers.

(** Closes a goal with a hypothesis saying that an answer went on. *)
Ltac never_next :=
  exfalso;
  repeat match goal with
    | H : bind (mark _) _ _ = (_, _, Next _) |- _ => apply bind_next in H as (? & ? & ? & ? & _ & H & _)
    end;
  match goal with
  | H : send _ _ = (_, _, Next _) |- _ => by apply send_never in H
  | H : _ = (_, _, Next _) |- _ => by apply send_never in H
  | H : answer _ _ = (_, _, Next _) |- _ => discriminate H
  end.
