(* ===== verification/Pipeline.v ===== *)
(** * The request filter ([src/proxy.rs])

    What a request goes through before the proxy opens a connection to the origin, in the order of [request_filter]: the
    components of the development composed as stages over the state the requests share. *)

From S2P Require Import Prelude Net Http Inspection Stage.
From S2P Require IpText Window Shield ClientIp Framing Budget Spool Protocol Waf Json Route Grpc Graphql Jwks Jwt Authz.
From S2P Require Schema OpenApi WafEngine Origin RateLimit Behavioral Abuse Dlp Config Upstream.

(** ** Settings *)

(** [src/proxy.rs: static RISK_SESSION_COOKIE] *)
Definition RISK_SESSION_COOKIE (env : Env) : bytes := default (lit "session") (env "RISK_SESSION_COOKIE").
(** [src/proxy.rs: static RISK_API_KEY_HEADER] *)
Definition RISK_API_KEY_HEADER (env : Env) : bytes := default (lit "X-API-Key") (env "RISK_API_KEY_HEADER").

Fixpoint has_whitespace (s : bytes) : bool :=
  match s with [] => false | _ :: r => bool_decide (is_Some (ws_head s)) || has_whitespace r end.

(** [src/proxy.rs: static HTTPS_REDIRECT_HOST] [None] is a panic. *)
Definition HTTPS_REDIRECT_HOST (env : Env) : option (option bytes) :=
  match env "HTTPS_REDIRECT_HOST" with
  | None => Some None
  | Some value =>
      let value := trim value in
      if is_empty value || existsb (fun c => bool_decide (c ∈ value)) (lit "/\@") || has_whitespace value then None
      else Some (Some value)
  end.

(** [src/otel.rs: const MAX_ROUTE] *)
Definition MAX_ROUTE : Z := 128.
(** [src/otel.rs: fn sanitize_route] [None] is a panic. *)
Definition sanitize_route (uri : bytes) : option bytes :=
  let path := before 35 (before 63 uri) in
  let path := if is_empty path then lit "/" else path in
  if len path <=? MAX_ROUTE then Some path else Shield.slice_to path (Z.to_nat MAX_ROUTE).

(** [src/otel.rs: fn event_type_from_waf_reason] *)
Definition event_type_from_waf_reason (reason : bytes) : bytes :=
  let lower := to_ascii_lowercase reason in
  if contains lower (lit "sql") then lit "sqli"
  else if contains lower (lit "xss") then lit "xss"
  else if contains lower (lit "path traversal") then lit "path_traversal"
  else if contains lower (lit "crlf") then lit "crlf"
  else if contains lower (lit "jndi") then lit "jndi"
  else if contains lower (lit "wordpress") || contains lower (lit "access denied") then lit "sensitive_path"
  else lit "waf".

(** [src/proxy.rs: fn http_version_token] *)
Definition http_version_token (v : Protocol.Version) : bytes :=
  match v with Protocol.HTTP_10 => lit "HTTP/1.0" | Protocol.HTTP_2 => lit "HTTP/2.0" | _ => lit "HTTP/1.1" end.

(** [src/proxy.rs: fn incomplete_inspection_reason] *)
Definition incomplete_inspection_reason (o : InspectionOutcome) : bytes :=
  match o with
  | ParseError => lit "JSON inválido (ParseError)"
  | TimedOut => lit "tempo esgotado (TimedOut)"
  | BudgetExceeded => lit "orçamento de inspeção esgotado (BudgetExceeded)"
  | _ => lit "Inspeção WAF completa obrigatória nesta rota"
  end.

(** The gzip and deflate encodings, as the body stage tells them. *)
Definition decodes (content_encoding : option bytes) : bool :=
  match content_encoding with
  | Some enc => one_of (to_ascii_lowercase (trim enc)) ["gzip"; "x-gzip"; "deflate"]
  | None => false
  end.

(** ** The request *)

(** A read of the body: a chunk (with what the file operations give if it is spooled), the deadline, or an error of the
    connection.  The body ends where the list ends. *)
Inductive BodyRead : Type := BodyChunk (chunk : bytes) (io : Spool.PushIo) | BodyTimeout | BodyFailed.

(** What Pingora's session tells of the request. *)
Record Session (H : Type) : Type := {
  ss_method : bytes; ss_path : bytes; ss_path_and_query : option bytes; ss_authority : option bytes;
  ss_version : Protocol.Version; ss_headers : H; ss_raw : bytes; ss_socket : option bytes;
  ss_tls : bool; ss_tls_fingerprint : option Z; ss_body_empty : bool; ss_reads : list BodyRead;
  ss_retry_buffer : option bytes }.
Arguments ss_method {H}. Arguments ss_path {H}. Arguments ss_path_and_query {H}. Arguments ss_authority {H}.
Arguments ss_version {H}. Arguments ss_headers {H}. Arguments ss_raw {H}. Arguments ss_socket {H}. Arguments ss_tls {H}.
Arguments ss_tls_fingerprint {H}. Arguments ss_body_empty {H}. Arguments ss_reads {H}. Arguments ss_retry_buffer {H}.

(** What the stages find outside: the clocks of each component, and what the services, the files and the client answer. *)
Record World : Type := {
  w_jwt : Jwt.JwtWorld; w_unix_now : Z; w_abuse : nat -> Instant; w_random : option bytes;
  w_behavior_now : Instant; w_behavior : nat -> Behavioral.Clock; w_block : nat -> Behavioral.Clock;
  w_rate : Instant * Instant * Instant; w_graphql : Instant * Instant;
  w_engine : bytes -> Authz.Exchange; w_authz : Authz.AuthzPolicy -> bytes -> Authz.Exchange;
  w_spool_read : bool; w_spool_replay : bool; w_probe : Origin.Site -> bool; w_writes : bool }.

(** ** The proxy *)

#[local] Existing Instances Behavioral.BehaviorKey_eq_dec Behavioral.BehaviorKey_countable RateLimit.RateKey_eq_dec RateLimit.RateKey_countable
  Shield.ShieldVerdict_eq_dec Dlp.DlpAction_eq_dec.

Section Pipeline.
Context {H : Type} {HM : HeaderMap H} {SJ : Json.SerdeJson} {UC : Shield.UnicodeCase} {SH : ClientIp.StrHash}
  {JT : Jwks.JwksText} {JX : Jwt.JwtText} {JC : Jwt.JwtCrypto} {MJ : Window.MapOrder Z Z}
  {FT : Behavioral.F32Text} {MB : Window.MapOrder Behavioral.BehaviorKey Behavioral.IpProfile}
  {MR : Window.MapOrder RateLimit.RateKey (list Instant)} {RX : Waf.Regexes} {INF : Waf.Inflate}
  {JN : Schema.JsonNumbers} {ET : WafEngine.EngineText} {AT : Authz.AuthzText} {S256 : Graphql.Sha256}
  {NH : Abuse.NameHash} {D : Grpc.Descriptors} {DB : Abuse.Mmdb}.

Abbreviation Backend := (@Config.Backend D DB).

(** [src/proxy.rs: struct FerroadaProxy] What does not change between requests; [px_version] is the version of the policy in force. *)
Record FerroadaProxy : Type := {
  px_config : @Config.Config D DB; px_version : bytes; px_trusted : ClientIp.TrustedProxies; px_client_ip : ClientIp.ClientIpConfig;
  px_proxy_protocol : bool; px_dlp_action : Dlp.DlpAction; px_origin_secret : Upstream.OriginSecretConfig; px_engine : WafEngine.WafEngine;
  px_extra_retries : Z; px_env : Env }.

(** What requests share, and what the one at hand holds of it: its slot, its reservation, its spool. *)
Record Live : Type := MkLive {
  concurrency : Budget.ConcurrencyState; guard : bool; jwt : Jwt.JwtState; abuse : Abuse.AbuseEngine;
  profiles : Behavioral.Profiles; limiter : RateLimit.RateLimiter; books : Graphql.Books;
  requests : Budget.ByteBudget; held : Budget.Holder; spool : Spool.SpoolRuntime; handle : option Spool.SpoolHandle;
  pools : Origin.OriginPools }.

Abbreviation Stg := (Stage Live).

(** The part of the state each component works on.  [jwt] is the state behind the policy of the site the request is for. *)
Definition on_slots {A} (f : Budget.ConcurrencyState -> bool -> Budget.ConcurrencyState * bool * A) : Stg A := operate (fun s =>
  let '(c, g, a) := f (concurrency s) (guard s) in
  (MkLive c g (jwt s) (abuse s) (profiles s) (limiter s) (books s) (requests s) (held s) (spool s) (handle s) (pools s), a)).
Definition on_jwt {A} (f : Jwt.JwtState -> Jwt.JwtState * A) : Stg A := operate (fun s =>
  let '(j, a) := f (jwt s) in
  (MkLive (concurrency s) (guard s) j (abuse s) (profiles s) (limiter s) (books s) (requests s) (held s) (spool s) (handle s) (pools s), a)).
Definition on_abuse {A} (f : Abuse.AbuseEngine -> Abuse.AbuseEngine * A) : Stg A := operate (fun s =>
  let '(e, a) := f (abuse s) in
  (MkLive (concurrency s) (guard s) (jwt s) e (profiles s) (limiter s) (books s) (requests s) (held s) (spool s) (handle s) (pools s), a)).
Definition on_profiles {A} (f : Behavioral.Profiles -> Behavioral.Profiles * A) : Stg A := operate (fun s =>
  let '(p, a) := f (profiles s) in
  (MkLive (concurrency s) (guard s) (jwt s) (abuse s) p (limiter s) (books s) (requests s) (held s) (spool s) (handle s) (pools s), a)).
Definition on_limiter {A} (f : RateLimit.RateLimiter -> RateLimit.RateLimiter * A) : Stg A := operate (fun s =>
  let '(l, a) := f (limiter s) in
  (MkLive (concurrency s) (guard s) (jwt s) (abuse s) (profiles s) l (books s) (requests s) (held s) (spool s) (handle s) (pools s), a)).
Definition on_books {A} (f : Graphql.Books -> Graphql.Books * A) : Stg A := operate (fun s =>
  let '(b, a) := f (books s) in
  (MkLive (concurrency s) (guard s) (jwt s) (abuse s) (profiles s) (limiter s) b (requests s) (held s) (spool s) (handle s) (pools s), a)).
Definition on_requests {A} (f : Budget.ByteBudget -> Budget.Holder -> Budget.ByteBudget * Budget.Holder * A) : Stg A := operate (fun s =>
  let '(b, h, a) := f (requests s) (held s) in
  (MkLive (concurrency s) (guard s) (jwt s) (abuse s) (profiles s) (limiter s) (books s) b h (spool s) (handle s) (pools s), a)).
Definition on_spool {A} (f : Spool.SpoolRuntime -> option Spool.SpoolHandle -> Spool.SpoolRuntime * option Spool.SpoolHandle * A) : Stg A :=
  operate (fun s =>
  let '(rt, h, a) := f (spool s) (handle s) in
  (MkLive (concurrency s) (guard s) (jwt s) (abuse s) (profiles s) (limiter s) (books s) (requests s) (held s) rt h (pools s), a)).
Definition on_pools (f : Origin.OriginPools -> option Origin.OriginPools) : Stg unit := fun s =>
  match f (pools s) with
  | Some p => (MkLive (concurrency s) (guard s) (jwt s) (abuse s) (profiles s) (limiter s) (books s) (requests s) (held s)
                 (spool s) (handle s) p, [], Next tt)
  | None => (s, [], Panics)
  end.

(** [src/proxy.rs: struct FerroadaCtx @389-404] What the context of a request knows of it once it is routed and identified. *)
Record FerroadaCtx : Type := {
  request_uri : bytes; client_addr : bytes; site_scope : bytes; backend : Backend; inspection : InspectionPolicy;
  request_https : bool; principal : option Jwt.JwtPrincipal; risk_identity : option ClientIp.RiskIdentity;
  request_content_type : option bytes; request_content_encoding : option bytes; skip_body_waf : bool }.

Definition event_path (uri : bytes) : bytes := before 63 uri.
Definition block_in (site type client uri detail : bytes) : list Mark :=
  [Metric (Blocked (Shield.record_block_in site type client uri detail))].
Definition block_at (type client uri detail : bytes) : list Mark :=
  [Metric (Blocked (Shield.record_block type client uri detail))].

Section Stages.
Context (px : FerroadaProxy) (w : World).
Abbreviation env := (px_env px).
Abbreviation wr := (w_writes w).
Abbreviation cfg := (Behavioral.behavioral_config env).

(** [behavioral::record_waf_block], when the client has a risk identity. *)
Definition waf_block (risk : option ClientIp.RiskIdentity) : Stg unit :=
  match risk with
  | Some i => on_profiles (fun p => (Behavioral.record_waf_block cfg (w_block w) i p, tt))
  | None => ret tt
  end.

(** [record_inspection_outcome] *)
Definition mark_outcome (o : InspectionOutcome) (client uri : bytes) (denied : bool) (site : bytes) : Stg unit :=
  let '(counter, events) := record_inspection_outcome o client uri denied site in mark (Counted counter :: metrics events).

(** *** Before the site is known *)

(** [src/proxy.rs: FerroadaProxy::request_filter @543-577] The address of the client, and whether the peer is trusted. *)
Definition client_address (ss : Session H) : bytes * bool :=
  let socket_addr := default (lit "unknown") (ss_socket ss) in
  let socket_ip := Framing.parse_addr_ip socket_addr in
  let peer_is_trusted := px_proxy_protocol px
    || match socket_ip with Some ip => ClientIp.is_trusted (px_trusted px) ip | None => false end in
  let extra_header := ClientIp.extra_header (px_client_ip px) ≫= get_str (ss_headers ss) in
  let resolved := ClientIp.resolve_sources (px_trusted px) socket_ip (get_str (ss_headers ss) "X-Forwarded-For")
    (get_str (ss_headers ss) "Forwarded") extra_header (px_client_ip px) in
  (match resolved with Some ip => IpText.show_ip ip | None => socket_addr end, peer_is_trusted).

(** [src/proxy.rs: FerroadaProxy::request_filter @579-588] *)
Definition take_slot (client uri : bytes) : Stg unit :=
  let! ok := on_slots (fun c g => let '(c, ok) := Budget.acquire c in (c, g || ok, ok)) in
  if ok then ret tt
  else mark (block_at "concurrency_limit" client uri "Maximum in-flight requests reached") ;;; send_503 wr.

(** [src/proxy.rs: FerroadaProxy::request_filter @596-610] *)
Definition is_https (ss : Session H) (peer_is_trusted : bool) : bool :=
  ss_tls ss
  || peer_is_trusted && match get_str (ss_headers ss) "X-Forwarded-Proto" with
                        | Some value => eq_ignore_ascii_case (trim (before 44 value)) "https"
                        | None => false
                        end.

(** A check of the shield: its events, and the answer when it blocks. *)
Definition shield_gate (r : Shield.ShieldVerdict * list BlockEvent) (bad : Shield.ShieldVerdict) (refuse : Stg unit) : Stg unit :=
  mark (blocked r.2) ;;; if bool_decide (r.1 = bad) then refuse else ret tt.

(** [src/proxy.rs: FerroadaProxy::request_filter @612-669] The size of the head, and the host it names. *)
Definition check_head (ss : Session H) (client uri : bytes) : Stg unit :=
  let fields := hm_iter (ss_headers ss) in
  let header_bytes := fold_left (fun n f => n + saturating_add usize_max (len f.1) (len f.2)) fields 0 in
  let host := get_str (ss_headers ss) "Host" in
  shield_gate (Shield.check_headers env (len fields) header_bytes uri client) Shield.BlockHeaders (send_431 wr) ;;;
  shield_gate (Shield.check_host_authority host (ss_authority ss) uri client) Shield.BlockHost
    (send_400 wr "Host e :authority divergentes") ;;;
  match host with
  | Some hv => shield_gate (Shield.check_host env hv uri client) Shield.BlockHost (send (write_421 wr))
  | None => ret tt
  end.

Definition site_of (b : Backend) : Origin.Site :=
  {| Origin.addr := Config.b_addr b; Origin.host := Config.b_host b; Origin.site_scope := Config.b_site_scope b;
     Origin.tls := Config.b_tls b; Origin.origins := Config.b_origins b;
     Origin.origin_mtls := (fun m => concat m.1 ++ m.2) <$> Config.b_origin_mtls b |}.

(** [src/proxy.rs: FerroadaProxy::request_filter @671-716] The site the host names, and what its routes ask of the inspection. *)
Definition route_request (ss : Session H) (client uri : bytes) : Stg (Backend * InspectionPolicy) :=
  let host := default [] (get_str (ss_headers ss) "Host") in
  match Config.resolve_host (px_config px) host with
  | None =>
      let! r := write_421 wr in
      mark (block_at "host" client uri (lit "No site for host: " ++ host)) ;;; answer r
  | Some b =>
      on_pools (Origin.sync (w_probe w) (px_version px) (map site_of (Config.backends (px_config px)))) ;;;
      let! policy := or_panic (Config.backend_inspection_policy b uri) in
      ret (b, policy)
  end.

(** [src/proxy.rs: FerroadaProxy::request_filter @718-768] *)
Definition force_https (b : Backend) (https : bool) (client uri : bytes) : Stg unit :=
  let site := Config.b_site_scope b in
  if bool_decide (env "FORCE_HTTPS" = Some (lit "true")) && negb https then
    let! fallback := or_panic (HTTPS_REDIRECT_HOST env) in
    match match Config.b_redirect_host b with Some host => Some host | None => fallback end with
    | None =>
        mark (block_in site "host" client uri "No trusted HTTPS redirect host configured") ;;; send (write_421 wr)
    | Some host =>
        let body := line (lit "301 Movido permanentemente") in
        let! r := write wr 301 [(lit "Location", lit "https://" ++ host ++ uri); content_type_of false; content_length_of body] body in
        mark (block_in site "https_redirect" client uri "redirecionamento HTTP→HTTPS") ;;; answer r
    end
  else ret tt.

(** *** Who asks *)

(** [src/proxy.rs: FerroadaProxy::reject_jwt] *)
Definition reject_jwt {A} (site client uri : bytes) (failure : Jwt.JwtFailure) : Stg A :=
  mark (note_event (Jwt.failure_event_type failure)
        ++ block_in site (Jwt.failure_event_type failure) client uri (Jwt.failure_reason failure)) ;;;
  match failure with
  | Jwt.Unauthorized _ => send_401 wr "token inválido ou ausente"
  | Jwt.Forbidden _ => send_403 wr "identidade não corresponde ao recurso"
  end.

Definition openapi_params (b : Backend) (path : bytes) : gmap bytes bytes :=
  match Config.b_openapi b with Some spec => OpenApi.policy_path_params spec path | None => ∅ end.

(** [src/proxy.rs: FerroadaProxy::apply_jwt_identity] *)
Definition apply_jwt_identity (ss : Session H) (b : Backend) (client uri : bytes) : Stg (option Jwt.JwtPrincipal) :=
  match Config.b_jwt b with
  | None => ret None
  | Some (policy, _) =>
      let! outcome := on_jwt (Jwt.authenticate policy (w_jwt w) (get_str (ss_headers ss) "Authorization") (w_unix_now w)) in
      match outcome with
      | Ok principal =>
          let path := before 63 uri in
          match Jwt.bind_path policy principal path (openapi_params b path) with
          | Ok _ => ret (Some principal)
          | Err failure => reject_jwt (Config.b_site_scope b) client uri failure
          end
      | Err failure => reject_jwt (Config.b_site_scope b) client uri failure
      end
  end.

(** [src/proxy.rs: FerroadaProxy::request_filter @774-804] *)
Definition risk_of (ss : Session H) (b : Backend) (principal : option Jwt.JwtPrincipal) (client uri : bytes)
  : option ClientIp.RiskIdentity :=
  let session_id := get_str (ss_headers ss) "Cookie" ≫= fun value => Framing.cookie_value value (RISK_SESSION_COOKIE env) in
  let api_key := get_str (ss_headers ss) (RISK_API_KEY_HEADER env) in
  ip ← Framing.parse_addr_ip client;
  let i := ClientIp.risk_identity (Config.b_site_scope b) ip uri session_id api_key in
  let i := match principal with Some p => ClientIp.set_jwt (Some (Jwt.sub p)) (Jwt.tenant p) i | None => i end in
  let i := ClientIp.set_fingerprints (ss_tls_fingerprint ss)
             (Some (Abuse.http_fingerprint_of (map fst (hm_iter (ss_headers ss))))) i in
  let db : option Abuse.Reader := Config.b_abuse b ≫= Abuse.mmdb in
  Some match db ≫= fun db => Abuse.lookup_asn db ip with
       | Some asn => ClientIp.set_asn (Some asn) i
       | None => i
       end.

(** [src/proxy.rs: FerroadaProxy::send_abuse] *)
Definition send_abuse {A} (policy : Abuse.AbusePolicy) (site client uri : bytes) (reasons : list Abuse.AbuseReason) (challenge : bool)
  : Stg A :=
  mark (note_event "abuse" ++ [Metric (Blocked (Abuse.abuse_record_block site client uri reasons challenge))]) ;;;
  let '(content_type, body) :=
    if challenge then Abuse.render_challenge policy reasons (w_random w)
    else (lit "text/plain; charset=utf-8", Abuse.plain_block_body reasons) in
  send (write wr 403
    ((lit "Content-Type", content_type) :: content_length_of body
     :: match Abuse.challenge policy, Abuse.challenge_url policy with
        | Abuse.CExternal, Some url => if challenge then [(lit "Location", url)] else []
        | _, _ => []
        end) body).

(** [src/proxy.rs: FerroadaProxy::request_filter @806-852] *)
Definition apply_abuse (ss : Session H) (b : Backend) (risk : option ClientIp.RiskIdentity) (has_jwt : bool) (client uri : bytes) : Stg unit :=
  match risk, Config.b_abuse b with
  | Some identity, Some policy =>
      let request := {| Abuse.method := ss_method ss; Abuse.path := ss_path ss; Abuse.ua := get_str (ss_headers ss) "User-Agent";
                        Abuse.accept := get_str (ss_headers ss) "Accept"; Abuse.content_type := get_str (ss_headers ss) "Content-Type";
                        Abuse.has_jwt := has_jwt |} in
      let! verdict := on_abuse (Abuse.inspect (w_abuse w) policy identity request) in
      match verdict with
      | Abuse.AbuseBlock reasons challenge => send_abuse policy (Config.b_site_scope b) client uri reasons challenge
      | Abuse.AbuseAllow => ret tt
      end
  | _, _ => ret tt
  end.

(** [src/proxy.rs: FerroadaProxy::request_filter @854-873] *)
Definition apply_behavioral (ss : Session H) (risk : option ClientIp.RiskIdentity) (client uri : bytes) : Stg unit :=
  match risk with
  | None => ret tt
  | Some identity =>
      let ua := get_str (ss_headers ss) "User-Agent" in
      let! '(verdict, events) := on_profiles (fun p =>
        let '(p, v, ev) := Behavioral.check_and_record cfg (w_behavior_now w) (w_behavior w) identity uri ua client p in (p, (v, ev))) in
      mark (metrics events) ;;;
      match verdict with
      | Behavioral.BBlock => send_403 wr "Bloqueado temporariamente por atividade suspeita"
      | Behavioral.BThrottle => send_429 wr "Muitas requisições suspeitas" 30
      | Behavioral.BAllow => ret tt
      end
  end.
(** *** The head *)

(** [src/proxy.rs: FerroadaProxy::request_filter @875-985] Framing, client, method, target and declared length; the last number is
    the ceiling of the body on the wire. *)
Definition check_request (ss : Session H) (site client uri : bytes) (policy : InspectionPolicy) : Stg (option Z) :=
  shield_gate (Framing.check_framing (ss_raw ss) (get_str (ss_headers ss) "Transfer-Encoding") uri client site)
    Shield.BlockSmuggling (send_400 wr "Requisição inválida: inconsistência nos cabeçalhos HTTP") ;;;
  shield_gate (Shield.check_user_agent env (default [] (get_str (ss_headers ss) "User-Agent")) uri client site)
    Shield.BlockBadBot (send_403 wr "Bloqueado: identificação de cliente suspeita") ;;;
  shield_gate (Shield.check_method env (ss_method ss) uri client site)
    Shield.BlockMethod (mark (note_event "method") ;;; send (simple wr 405 false [] (line (lit "405 Método não permitido")))) ;;;
  let! uri_verdict := or_panic (Shield.check_uri_length env uri client site) in
  shield_gate uri_verdict Shield.BlockUriLength (send (simple wr 414 false [] (line (lit "414 URI muito longa")))) ;;;
  let content_length := get_str (ss_headers ss) "Content-Length" ≫= parse_uint usize_max in
  let route_body_limit := default (Shield.max_body_size env) (max_decoded_body policy) in
  match content_length with
  | Some cl => if route_body_limit <? cl then send_413 wr uri client route_body_limit site else ret content_length
  | None => ret content_length
  end.

(** [src/proxy.rs: FerroadaProxy::request_filter @987-1004] *)
Definition apply_rate_limit (risk : option ClientIp.RiskIdentity) (uri : bytes) : Stg unit :=
  match risk with
  | None => ret tt
  | Some identity =>
      let! '(ok, events, window) := on_limiter (fun rl =>
        let '(rl, ok, ev) := RateLimit.check (w_rate w).1.1 (w_rate w).1.2 (w_rate w).2 identity uri rl in
        (rl, (ok, ev, RateLimit.window_secs rl))) in
      mark (blocked events) ;;;
      if ok : bool then ret tt
      else mark (note_event "rate_limit") ;;;
           send (simple wr 429 false [(lit "Retry-After", show_dec window)] (line (lit "429 Muitas requisições")))
  end.

(** [src/proxy.rs: FerroadaProxy::request_filter @1006-1046] What the matrix of protocols says: whether the body skips the WAF. *)
Definition apply_protocols (ss : Session H) (b : Backend) (policy : InspectionPolicy) (client uri : bytes) : Stg bool :=
  let content_type := get_str (ss_headers ss) "Content-Type" in
  let grpc_policy := bool_decide (is_Some (Config.b_grpc b)) in
  let verdict := Protocol.evaluate (Config.protocols (px_config px))
    {| Protocol.version := ss_version ss; Protocol.upgrade := get_str (ss_headers ss) "Upgrade";
       Protocol.content_encoding := get_str (ss_headers ss) "Content-Encoding"; Protocol.content_type := content_type;
       Protocol.require_complete := require_complete policy; Protocol.grpc_policy := grpc_policy |} in
  mark [SeenProtocol (Protocol.record verdict client uri (Config.b_site_scope b))] ;;;
  if bool_decide (is_Some (Protocol.blocked_status verdict)) then
    send_403 wr match verdict with
                | Protocol.Unsupported protocol _ => Protocol.deny_reason protocol
                | Protocol.Inspect => lit "protocolo não suportado"
                end
  else ret (Protocol.skips_body_waf verdict || grpc_policy && Grpc.is_grpc_content_type content_type).

(** The values the WAF looks at: every field but [Authorization]. *)
Definition waf_values (h : H) : list bytes :=
  omap to_str (map snd (base.filter (fun f => ~ named "authorization" f) (hm_iter h))).

(** [src/proxy.rs: FerroadaProxy::request_filter @1048-1074] *)
Definition apply_waf_request (ss : Session H) (b : Backend) (risk : option ClientIp.RiskIdentity) (client uri : bytes) : Stg unit :=
  let '(verdict, events) := Waf.inspect_request_with_profile uri (waf_values (ss_headers ss)) client
    (Config.b_waf_profile b) (Config.b_site_scope b) in
  mark (metrics events) ;;;
  match verdict with
  | Waf.WafAllow => ret tt
  | Waf.WafBlock reason =>
      mark (note_event (event_type_from_waf_reason reason)) ;;; waf_block risk ;;; send_403 wr reason
  end.

Abbreviation outside_contract := "requisição fora do contrato OpenAPI".

(** [FerroadaProxy::apply_openapi_envelope], with what the proxy records and answers; the operation matched. *)
Definition openapi_envelope (ctx : FerroadaCtx) (method : bytes) (h : H) : Stg (option OpenApi.MatchedOp) :=
  match OpenApi.apply_openapi_envelope (Config.b_openapi (backend ctx)) method (request_uri ctx)
          (Framing.request_header_pairs h) (request_content_type ctx) (require_complete (inspection ctx)) with
  | OpenApi.StageOn matched => ret matched
  | OpenApi.StageObserved detail =>
      mark [Metric (Observed (Shield.record_block_in (site_scope ctx) "openapi_observe" (client_addr ctx) (request_uri ctx) detail))] ;;;
      ret None
  | OpenApi.StageRefused detail =>
      mark (note_event "openapi" ++ block_in (site_scope ctx) "openapi" (client_addr ctx) (request_uri ctx) detail) ;;;
      send_403 wr outside_contract
  end.

(** What a policy says of a parse error: [FerroadaProxy::deny_grpc_parse] and the same steps for GraphQL. *)
Definition parse_error_stage (ctx : FerroadaCtx) (reason : bytes) : Stg unit :=
  let event_uri := event_path (request_uri ctx) in
  match disposition (inspection ctx) ParseError with
  | Deny => mark_outcome ParseError (client_addr ctx) event_uri true (site_scope ctx) ;;; send_403 wr reason
  | Monitor => mark_outcome ParseError (client_addr ctx) event_uri false (site_scope ctx)
  | Allow => ret tt
  end.

(** [src/proxy.rs: FerroadaProxy::deny_grpc_parse] *)
Definition deny_grpc_parse (ctx : FerroadaCtx) : Stg unit := parse_error_stage ctx "gRPC inválido (ParseError)".

Definition refuse_grpc {A} (ctx : FerroadaCtx) (failure : Grpc.GrpcFailure) : Stg A :=
  mark (block_in (site_scope ctx) "grpc" (client_addr ctx) (event_path (request_uri ctx)) (Grpc.detail failure)) ;;;
  send_403 wr (lit "método gRPC recusado (" ++ Grpc.detail failure ++ lit ")").

(** [src/proxy.rs: FerroadaProxy::apply_grpc_headers] The deadline the origin is given. *)
Definition apply_grpc_headers (ctx : FerroadaCtx) (method : bytes) (h : H) : Stg (option bytes) :=
  match Config.b_grpc (backend ctx) with
  | None => ret None
  | Some policy =>
      let grpc_timeout := get_str h "grpc-timeout" in
      match Grpc.check_headers policy method (request_uri ctx) (request_content_type ctx) grpc_timeout with
      | Grpc.Skip => ret None
      | Grpc.GAllow timeout => ret match timeout with Some t => Some t | None => grpc_timeout end
      | Grpc.GDeny Grpc.GrpcParseError => deny_grpc_parse ctx ;;; ret None
      | Grpc.GDeny failure => mark (note_event "grpc") ;;; refuse_grpc ctx failure
      end
  end.

(** [src/proxy.rs: FerroadaProxy::apply_grpc_body] *)
Definition apply_grpc_body (ctx : FerroadaCtx) (method body : bytes) : Stg unit :=
  match Config.b_grpc (backend ctx) with
  | None => ret tt
  | Some policy =>
      let! verdict := or_panic (Grpc.check_body policy method (request_uri ctx) (request_content_type ctx) body) in
      match verdict with
      | Grpc.Skip | Grpc.GAllow _ => ret tt
      | Grpc.GDeny Grpc.GrpcParseError => deny_grpc_parse ctx
      | Grpc.GDeny failure => refuse_grpc ctx failure
      end
  end.

(** [src/proxy.rs: FerroadaProxy::apply_graphql] *)
Definition apply_graphql (ctx : FerroadaCtx) (method body : bytes) : Stg unit :=
  match Config.graphql_for (backend ctx) (request_uri ctx) with
  | None => ret tt
  | Some policy =>
      let identity := {| Graphql.id_sub := if bool_decide (is_Some (Config.b_jwt (backend ctx))) then Jwt.sub <$> principal ctx else None;
                         Graphql.id_ip := client_addr ctx |} in
      let! verdict := on_books (fun books => Graphql.check policy books (w_graphql w).1 (w_graphql w).2 method (request_uri ctx)
        (request_content_type ctx) body identity (site_scope ctx)) in
      match verdict with
      | Done Graphql.Skip | Done Graphql.Allow => ret tt
      | Done (Graphql.Deny Graphql.ParseError) => parse_error_stage ctx "GraphQL inválido (ParseError)"
      | Done (Graphql.Deny failure) =>
          mark (block_in (site_scope ctx) "graphql" (client_addr ctx) (event_path (request_uri ctx)) (Graphql.detail failure)) ;;;
          send_403 wr (lit "consulta GraphQL recusada (" ++ Graphql.detail failure ++ lit ")")
      | Failed e => match e with end
      | NoFuel => or_panic None
      end
  end.

(** [FerroadaProxy::apply_openapi_body], with what the proxy records and answers. *)
Definition openapi_body (ctx : FerroadaCtx) (matched : option OpenApi.MatchedOp) (body : bytes) : Stg unit :=
  match OpenApi.apply_openapi_body matched (request_content_type ctx) body with
  | OpenApi.StageOn _ => ret tt
  | OpenApi.StageObserved _ => ret tt
  | OpenApi.StageRefused detail =>
      mark (block_in (site_scope ctx) "openapi" (client_addr ctx) (request_uri ctx) detail) ;;; send_403 wr outside_contract
  end.

(** [src/proxy.rs: FerroadaProxy::apply_jwt_body] *)
Definition apply_jwt_body (ctx : FerroadaCtx) (body : bytes) : Stg unit :=
  match Config.b_jwt (backend ctx) with
  | None => ret tt
  | Some (policy, _) =>
      if negb (Jwt.has_body_bindings policy) then ret tt
      else
        match principal ctx with
        | None => ret tt
        | Some p =>
            match Jwt.bind_body policy p body with
            | Ok _ => ret tt
            | Err failure => reject_jwt (site_scope ctx) (client_addr ctx) (request_uri ctx) failure
            end
        end
  end.

(** [FerroadaProxy::apply_l1], with what the proxy records and answers. *)
Definition l1_stage (ctx : FerroadaCtx) (ss : Session H) (h : H) (body : bytes) (decoded : bool) : Stg unit :=
  let! o := or_panic (WafEngine.apply_l1 (px_engine px) (skip_body_waf ctx)
    (Some (Config.backend_l1_for (backend ctx) (request_uri ctx) (request_content_type ctx))) (inspection ctx) (ss_method ss)
    (http_version_token (ss_version ss)) (request_uri ctx) (client_addr ctx) (site_scope ctx) h (request_content_type ctx)
    body decoded (w_engine w)) in
  mark (metrics (WafEngine.l1_events o) ++ map Counted (WafEngine.l1_counters o)
        ++ note_event (WafEngine.l1_event o) ++ note_rule_ids (WafEngine.l1_noted o)) ;;;
  (if WafEngine.l1_waf_block o then waf_block (risk_identity ctx) else ret tt) ;;;
  match WafEngine.l1_answer o with
  | Authz.Answer403 reason => send_403 wr reason
  | Authz.Continue => ret tt
  end.

(** [FerroadaProxy::apply_authz], with what the proxy notes and answers. *)
Definition authz_stage (ctx : FerroadaCtx) (body : bytes) : Stg unit :=
  let b := backend ctx in
  let '(reply, events) := Authz.apply_authz (Config.authz_routes b) (fst <$> Config.b_jwt b) (principal ctx)
    (openapi_params b (event_path (request_uri ctx))) (w_authz w) (site_scope ctx) (client_addr ctx) (request_uri ctx) body in
  mark (flat_map (fun e => match e with
                           | Blocked b | Observed b => note_event (ev_type b) ++ [Metric e]
                           end) events) ;;;
  match reply with
  | Authz.Answer403 reason => send_403 wr reason
  | Authz.Continue => ret tt
  end.

(** The checks that read the body, in their order. *)
Definition body_policies (ctx : FerroadaCtx) (ss : Session H) (matched : option OpenApi.MatchedOp) (body : bytes) : Stg unit :=
  openapi_body ctx matched body ;;;
  apply_jwt_body ctx body ;;;
  apply_graphql ctx (ss_method ss) body ;;;
  apply_grpc_body ctx (ss_method ss) body ;;;
  authz_stage ctx body.
(** *** The body *)

(** [src/proxy.rs: FerroadaProxy::request_filter @1086-1124] The bytes the inspection may need are reserved before a byte is read. *)
Definition reserve_body (ctx : FerroadaCtx) (content_length : option Z) : Stg unit :=
  let max_body := default (Shield.max_body_size env) (max_decoded_body (inspection ctx)) in
  let reservation := default usize_max
    (if bool_decide (is_Some (max_decoded_body (inspection ctx)))
     then Budget.spool_inspection_reservation content_length max_body (request_content_encoding ctx)
     else Budget.request_inspection_reservation content_length (Shield.max_body_size env) (request_content_encoding ctx)) in
  let! ok := on_requests (Budget.reserve_request reservation) in
  if ok : bool then ret tt
  else
    mark_outcome BudgetExceeded (client_addr ctx) (request_uri ctx) true (site_scope ctx) ;;;
    mark (block_in (site_scope ctx) "request_buffer_limit" (client_addr ctx) (request_uri ctx)
            "Global request-body buffer budget exhausted") ;;;
    send_503 wr.

(** [src/proxy.rs: FerroadaProxy::request_filter @1126-1139] *)
Definition answer_expect (h : H) : Stg H :=
  match get h "Expect" with
  | Some value =>
      if eq_ignore_ascii_case value "100-continue" then if wr then ret (remove_header "Expect" h) else fails else ret h
  | None => ret h
  end.

Definition spool_refused {A} (ctx : FerroadaCtx) (detail : bytes) : Stg A :=
  mark (block_at "spool_limit" (client_addr ctx) (request_uri ctx) detail) ;;; send_503 wr.

(** [src/proxy.rs: FerroadaProxy::request_filter @1146-1199] The body of a spooled route. *)
Fixpoint read_spool (ctx : FerroadaCtx) (max_body : Z) (reads : list BodyRead) : Stg unit :=
  match reads with
  | [] => ret tt
  | BodyTimeout :: _ => send_body_timeout wr (client_addr ctx) (request_uri ctx) (site_scope ctx)
  | BodyFailed :: _ => fails
  | BodyChunk chunk io :: reads =>
      let! pushed := on_spool (fun rt h =>
        match h with
        | None => (rt, h, None)
        | Some h => let '(rt, h, r) := Spool.push io chunk rt h in (rt, Some h, Some r)
        end) in
      let! r := or_panic pushed in
      match r with
      | Ok _ => read_spool ctx max_body reads
      | Err Spool.Overflow => send_413 wr (request_uri ctx) (client_addr ctx) max_body (site_scope ctx)
      | Err _ => spool_refused ctx "Spool budget exhausted"
      end
  end.

(** The same loop over a route without a spool. *)
Fixpoint read_wire (ctx : FerroadaCtx) (buf : Budget.BoundedBodyBuffer) (reads : list BodyRead) : Stg Budget.BoundedBodyBuffer :=
  match reads with
  | [] => ret buf
  | BodyTimeout :: _ => send_body_timeout wr (client_addr ctx) (request_uri ctx) (site_scope ctx)
  | BodyFailed :: _ => fails
  | BodyChunk chunk _ :: reads =>
      let '(buf, ok) := Budget.buffer_push chunk buf in
      if ok : bool then read_wire ctx buf reads
      else send_413 wr (request_uri ctx) (client_addr ctx) (Shield.max_body_size env) (site_scope ctx)
  end.

(** An empty body is announced as one. *)
Definition announce_empty (h : H) : Stg H :=
  match insert_header "Content-Length" "0" (remove_header "Transfer-Encoding" h) with Some h => ret h | None => fails end.

(** [SpoolHandle::inspect_bytes] *)
Definition spooled_bytes (ctx : FerroadaCtx) (io : bool) (failed : bytes) : Stg bytes :=
  let! read := on_spool (fun rt h =>
    match h with
    | None => (rt, h, None)
    | Some h => let '(h, r) := Spool.inspect_bytes io h in (rt, Some h, Some r)
    end) in
  let! r := or_panic read in
  match r with Ok body => ret body | Err _ => spool_refused ctx failed end.

(** Where the body is held once read: in the buffer of the context, or in the spool. *)
Inductive Held : Type := InBuffer (body : bytes) | InSpool (empty : bool).

(** [src/proxy.rs: FerroadaProxy::request_filter @1141-1226] The whole body is read, and the head completed when there was none. *)
Definition receive_body (ctx : FerroadaCtx) (ss : Session H) (h : H) : Stg (H * Held) :=
  match max_decoded_body (inspection ctx) with
  | Some max_body =>
      let! _ := on_spool (fun rt _ => (rt, Some (Spool.handle_new max_body), tt)) in
      read_spool ctx max_body (ss_reads ss) ;;;
      let! empty := on_spool (fun rt h => (rt, h, match h with Some h => Spool.h_len h =? 0 | None => false end)) in
      let! h := if empty : bool then announce_empty h else ret h in
      ret (h, InSpool empty)
  | None =>
      let! buf := read_wire ctx (Budget.buffer_new (Shield.max_body_size env)) (ss_reads ss) in
      let body := Budget.buf_bytes buf in
      if is_empty body then let! h := announce_empty h in ret (h, InBuffer body)
      else if bool_decide (ss_retry_buffer ss = Some body) then ret (h, InBuffer body)
      else
        mark (block_in (site_scope ctx) "request_buffer_limit" (client_addr ctx) (request_uri ctx)
                "Pingora request replay buffer was incomplete") ;;;
        send_503 wr
  end.

Definition wire_of (ctx : FerroadaCtx) (body : Held) : Stg bytes :=
  match body with
  | InBuffer body => ret body
  | InSpool _ => spooled_bytes ctx (w_spool_read w) "Spool inspect read failed"
  end.

(** [src/proxy.rs: FerroadaProxy::request_filter @1228-1329] The WAF reads the body, decoded; what is left is the decoded body. *)
Definition apply_waf_body (ctx : FerroadaCtx) (wire : bytes) : Stg Waf.InspectionBody :=
  let text_limit := default Waf.default_inspect_text_limit (max_decoded_body (inspection ctx)) in
  let inflate_limit := default Waf.default_inflate_limit (max_decoded_body (inspection ctx)) in
  let inspect_body := Waf.inflate_for_inspect_limited wire (request_content_encoding ctx) inflate_limit in
  let '(waf, events) := Waf.inspect_body_limited (Waf.body_bytes inspect_body) (request_uri ctx) (client_addr ctx)
    (request_content_type ctx) text_limit (site_scope ctx) in
  let status := combine (Waf.body_status inspect_body) (Waf.status waf) in
  let record := mark_outcome status (client_addr ctx) (request_uri ctx) in
  mark (metrics events) ;;;
  match Waf.verdict waf with
  | Waf.WafAllow =>
      match disposition (inspection ctx) status with
      | Allow | Monitor => record false (site_scope ctx) ;;; ret inspect_body
      | Deny =>
          record true (site_scope ctx) ;;; waf_block (risk_identity ctx) ;;;
          send_403 wr (incomplete_inspection_reason status)
      end
  | Waf.WafBlock reason =>
      mark (note_outcome status ++ note_event (event_type_from_waf_reason reason)) ;;;
      record false (site_scope ctx) ;;; waf_block (risk_identity ctx) ;;; send_403 wr reason
  end.

(** [src/proxy.rs: FerroadaProxy::request_filter @1330-1341] The body the later checks read. *)
Definition body_shown (ctx : FerroadaCtx) (wire : bytes) (inspected : Waf.InspectionBody) : bytes * bool :=
  let decoded := decodes (request_content_encoding ctx)
                 && negb (bool_decide (Waf.body_status inspected = UnsupportedEncoding)) in
  (if decoded then Waf.body_bytes inspected else wire, decoded).

(** [src/proxy.rs: FerroadaProxy::request_filter @1363-1383] Whether a policy reads the body of a request the WAF does not. *)
Definition policy_reads_body (ctx : FerroadaCtx) (matched : option OpenApi.MatchedOp) : bool :=
  let b := backend ctx in
  bool_decide (is_Some matched)
  || match Config.b_jwt b with Some (policy, _) => Jwt.has_body_bindings policy | None => false end
  || bool_decide (is_Some (Config.graphql_for b (request_uri ctx)))
  || bool_decide (is_Some (Config.b_grpc b))
  || match Config.backend_authz_for b (request_uri ctx) with Some policy => Authz.needs_body policy | None => false end.

(** [src/proxy.rs: FerroadaProxy::request_filter @1342-1427] The checks of a body that was received. *)
Definition inspect_received (ctx : FerroadaCtx) (ss : Session H) (h : H) (matched : option OpenApi.MatchedOp) (body : Held) : Stg unit :=
  if negb (skip_body_waf ctx) then
    let! wire := wire_of ctx body in
    let! inspected := apply_waf_body ctx wire in
    let '(shown, decoded) := body_shown ctx wire inspected in
    l1_stage ctx ss h shown decoded ;;; body_policies ctx ss matched shown
  else if policy_reads_body ctx matched then
    let! wire := wire_of ctx body in body_policies ctx ss matched wire
  else authz_stage ctx match body with InBuffer body => body | InSpool _ => [] end.

(** How a request that passed goes on: Pingora proxies it, or its answer is committed here, with the body that is sent. *)
Inductive Passage : Type := Proxied | Committed (body : bytes).

(** What the filter leaves of a request that passed. *)
Record Cleared : Type := {
  a_ctx : FerroadaCtx; a_head : H; a_matched : option OpenApi.MatchedOp; a_grpc_timeout : option bytes; a_passage : Passage }.

(** [src/proxy.rs: FerroadaProxy::request_filter @1465-1477] *)
Definition commit_point (h : H) (body : bytes) : Passage :=
  if bool_decide (px_dlp_action px = Dlp.DBlock) && negb (contains_key h "Upgrade") then Committed body else Proxied.

(** [src/proxy.rs: FerroadaProxy::request_filter @1429-1464] *)
Definition pass_body (ctx : FerroadaCtx) (h : H) (body : Held) : Stg Passage :=
  match body with
  | InSpool false =>
      (* replay_spool_to_origin *)
      let! data := spooled_bytes ctx (w_spool_replay w) "Spool replay read failed" in ret (Committed data)
  | InSpool true => ret (commit_point h [])
  | InBuffer body => ret (commit_point h body)
  end.

(** *** The filter *)

(** [src/proxy.rs: FerroadaProxy::request_filter @770-873] The request up to its shape: its site and who asks.  *)
Definition identify (ss : Session H) (b : Backend) (client uri : bytes)
  : Stg (option Jwt.JwtPrincipal * option ClientIp.RiskIdentity) :=
  let! principal := apply_jwt_identity ss b client uri in
  let risk := risk_of ss b principal client uri in
  apply_abuse ss b risk (bool_decide (is_Some principal)) client uri ;;;
  apply_behavioral ss risk client uri ;;;
  ret (principal, risk).

(** The checks of the head of an identified request, to the context of its body. *)
Definition admit_head (ss : Session H) (b : Backend) (policy : InspectionPolicy) (https : bool) (client uri : bytes)
    (who : option Jwt.JwtPrincipal * option ClientIp.RiskIdentity) : Stg (FerroadaCtx * option Z) :=
  let '(principal, risk) := who in
  let! content_length := check_request ss (Config.b_site_scope b) client uri policy in
  apply_rate_limit risk uri ;;;
  let! skip := apply_protocols ss b policy client uri in
  apply_waf_request ss b risk client uri ;;;
  ret ({| request_uri := uri; client_addr := client; site_scope := Config.b_site_scope b; backend := b; inspection := policy;
          request_https := https; principal := principal; risk_identity := risk;
          request_content_type := get_str (ss_headers ss) "Content-Type";
          request_content_encoding := get_str (ss_headers ss) "Content-Encoding"; skip_body_waf := skip |}, content_length).

(** [src/proxy.rs: FerroadaProxy::request_filter @1086-1464] *)
Definition admit_body (ctx : FerroadaCtx) (ss : Session H) (content_length : option Z) (matched : option OpenApi.MatchedOp)
  : Stg (H * Passage) :=
  let h := ss_headers ss in
  if negb (ss_body_empty ss) then
    reserve_body ctx content_length ;;;
    let! h := answer_expect h in
    let! '(h, body) := receive_body ctx ss h in
    inspect_received ctx ss h matched body ;;;
    let! passage := pass_body ctx h body in ret (h, passage)
  else
    l1_stage ctx ss h [] false ;;;
    body_policies ctx ss matched [] ;;;
    ret (h, commit_point h []).

(** [src/proxy.rs: FerroadaProxy::request_filter] *)
Definition request_filter (ss : Session H) : Stg Cleared :=
  let! _ := or_panic (sanitize_route (ss_path ss)) in
  let uri := default (lit "/") (ss_path_and_query ss) in
  let '(client, peer_is_trusted) := client_address ss in
  take_slot client uri ;;;
  check_head ss client uri ;;;
  let https := is_https ss peer_is_trusted in
  let! '(b, policy) := route_request ss client uri in
  force_https b https client uri ;;;
  let! who := identify ss b client uri in
  let! '(ctx, content_length) := admit_head ss b policy https client uri who in
  let! matched := openapi_envelope ctx (ss_method ss) (ss_headers ss) in
  let! grpc_timeout := apply_grpc_headers ctx (ss_method ss) (ss_headers ss) in
  let! '(h, passage) := admit_body ctx ss content_length matched in
  ret {| a_ctx := ctx; a_head := h; a_matched := matched; a_grpc_timeout := grpc_timeout; a_passage := passage |}.
End Stages.

(** What the request held is given back when its context is dropped: the slot, the reservation ([Budget.guard_drop],
    [Budget.release_request]) and the spool ([Spool.handle_drop]). *)
Definition settle (s : Live) : Live :=
  MkLive (if guard s then Budget.guard_drop (concurrency s) else concurrency s) false (jwt s) (abuse s) (profiles s) (limiter s)
    (books s) (fst (Budget.release_request (requests s) (held s))) (Budget.idle 0)
    (match handle s with Some h => Spool.handle_drop (spool s) h | None => spool s end) None (pools s).
End Pipeline.
