(* ===== verification/Mediation.v ===== *)
(** * What the request filter guarantees ([src/proxy.rs])

    A request that goes on passed every stage, on the bytes that are sent; whatever happens to a request, what it held of the shared
    budgets comes back; and a request that is not identified charges no counter. *)

From S2P Require Import Prelude Net Http Inspection Stage Pipeline.
From S2P Require IpText Window Shield ClientIp Framing Budget Spool Protocol Waf Json Route Grpc Graphql Jwks Jwt Authz.
From S2P Require Schema OpenApi WafEngine Origin RateLimit Behavioral Abuse Dlp Config Upstream.

#[local] Existing Instances Behavioral.BehaviorKey_eq_dec Behavioral.BehaviorKey_countable RateLimit.RateKey_eq_dec RateLimit.RateKey_countable
  Shield.ShieldVerdict_eq_dec Dlp.DlpAction_eq_dec.

(** ** Stages that end the request *)

(** A stage that never goes on. *)
Definition stops {S A} (m : Stage S A) : Prop := forall s s' l a, m s <> (s', l, Next a).

Lemma stops_answer {S A} r : stops (S := S) (A := A) (answer r).
Proof. done. Qed.
Lemma stops_fails {S A} : stops (S := S) (A := A) fails.
Proof. done. Qed.
Lemma stops_bind_r {S A B} (m : Stage S A) (k : A -> Stage S B) : (forall a, stops (k a)) -> stops (bind m k).
Proof. intros Hk s s' l b (s1 & l1 & a & l2 & _ & H & _)%bind_next. by apply Hk in H. Qed.
Lemma stops_bind_l {S A B} (m : Stage S A) (k : A -> Stage S B) : stops m -> stops (bind m k).
Proof. intros Hm s s' l b (s1 & l1 & a & l2 & H & _)%bind_next. by apply Hm in H. Qed.
Lemma stops_send {S A} (m : Stage S Reply) : stops (A := A) (send m).
Proof. apply stops_bind_r. intros r. apply stops_answer. Qed.

Create HintDb stages.
#[export] Hint Resolve stops_answer stops_fails stops_send : stages.
#[export] Hint Extern 4 (stops (bind _ _)) => apply stops_bind_r; intros : stages.
#[export] Hint Extern 5 (stops (match ?x with _ => _ end)) => destruct x : stages.

(** [stopped]: the hypothesis says that a stage that never goes on went on. *)
Ltac stopped H :=
  exfalso; revert H;
  match goal with |- ?m ?s = (?s', ?l, Next ?a) -> False => apply (fun h : stops m => h s s' l a) end;
  unfold send_400, send_401, send_403, send_408, send_413, send_429, send_431, send_502, send_503, send_body_timeout, reject_jwt,
    spool_refused, refuse_grpc, send_abuse;
  repeat match goal with |- stops (match ?x with _ => _ end) => destruct x end;
  solve [eauto 8 with stages].

(** The parts of a composition that went on. *)
Ltac next_part H :=
  let s := fresh "s" in let l := fresh "l" in let a := fresh "a" in let E := fresh "E" in
  apply bind_next in H as (s & l & a & ? & E & H & _).

Tactic Notation "next" hyp(H) := next_part H.
Tactic Notation "next" hyp(H) "giving" ident(a) ident(E) :=
  let s := fresh "s" in let l := fresh "l" in apply bind_next in H as (s & l & a & ? & E & H & _).

(** ** Stages that leave the resources of the request alone *)

Section Frames.
Context {H : Type} {HM : HeaderMap H} {SJ : Json.SerdeJson} {UC : Shield.UnicodeCase} {SH : ClientIp.StrHash}
  {JT : Jwks.JwksText} {JX : Jwt.JwtText} {JC : Jwt.JwtCrypto} {MJ : Window.MapOrder Z Z}
  {FT : Behavioral.F32Text} {MB : Window.MapOrder Behavioral.BehaviorKey Behavioral.IpProfile}
  {MR : Window.MapOrder RateLimit.RateKey (list Instant)} {RX : Waf.Regexes} {INF : Waf.Inflate}
  {JN : Schema.JsonNumbers} {ET : WafEngine.EngineText} {AT : Authz.AuthzText} {S256 : Graphql.Sha256}
  {NH : Abuse.NameHash} {D : Grpc.Descriptors} {DB : Abuse.Mmdb}.

(** Whatever the stage does, [f] of the state is kept. *)
Definition keeps {A B} (f : Live -> B) (m : Stage Live A) : Prop := forall s s' l x, m s = (s', l, x) -> f s' = f s.

Context {B : Type} (f : Live -> B).

Lemma keeps_ret {A} (a : A) : keeps f (ret a).
Proof. by intros s s' l x [= <- _ _]. Qed.
Lemma keeps_mark l : keeps f (mark l).
Proof. by intros s s' l' x [= <- _ _]. Qed.
Lemma keeps_answer {A} r : keeps (A := A) f (answer r).
Proof. by intros s s' l x [= <- _ _]. Qed.
Lemma keeps_fails {A} : keeps (A := A) f fails.
Proof. by intros s s' l x [= <- _ _]. Qed.
Lemma keeps_or_panic {A} (o : option A) : keeps f (or_panic o).
Proof. by intros s s' l x [= <- _ _]. Qed.
Lemma keeps_bind {A C} (m : Stage Live A) (k : A -> Stage Live C) : keeps f m -> (forall a, keeps f (k a)) -> keeps f (bind m k).
Proof.
  intros Hm Hk s s' l x. unfold bind. destruct (m s) as [[s1 l1] [a|r| |]] eqn:E; [|by intros [= <- _ _]; apply (Hm _ _ _ _ E)..].
  destruct (k a s1) as [[s2 l2] y] eqn:E2. intros [= <- _ _]. rewrite (Hk a _ _ _ _ E2). apply (Hm _ _ _ _ E).
Qed.
Lemma keeps_write wr status fields body : keeps f (write wr status fields body).
Proof. unfold write. destruct (_ && _); [apply keeps_ret|apply keeps_fails]. Qed.
Lemma keeps_operate {A} (g : Live -> Live * A) : (forall s, f (g s).1 = f s) -> keeps f (operate g).
Proof. intros Hg s s' l x. unfold operate. specialize (Hg s). destruct (g s). by intros [= <- _ _]. Qed.
End Frames.

#[export] Hint Resolve keeps_ret keeps_mark keeps_answer keeps_fails keeps_or_panic keeps_write : stages.

(** [keeping]: the stage is a composition of stages that keep it, which [tac] proves of the operations. *)
Ltac keeping tac :=
  repeat first
    [ progress intros
    | apply keeps_bind
    | solve [eauto with stages]
    | match goal with |- keeps _ (match ?x with _ => _ end) => destruct x end
    | progress (unfold send, simple, shield_gate, send_400, send_401, send_403, send_408, send_413, send_429, send_431, send_502, send_503,
        send_body_timeout, write_421, mark_outcome)
    | tac ].

(** ** What the stages change *)

Section Stages.
Context {H : Type} {HM : HeaderMap H} {SJ : Json.SerdeJson} {UC : Shield.UnicodeCase} {SH : ClientIp.StrHash}
  {JT : Jwks.JwksText} {JX : Jwt.JwtText} {JC : Jwt.JwtCrypto} {MJ : Window.MapOrder Z Z}
  {FT : Behavioral.F32Text} {MB : Window.MapOrder Behavioral.BehaviorKey Behavioral.IpProfile}
  {MR : Window.MapOrder RateLimit.RateKey (list Instant)} {RX : Waf.Regexes} {INF : Waf.Inflate}
  {JN : Schema.JsonNumbers} {ET : WafEngine.EngineText} {AT : Authz.AuthzText} {S256 : Graphql.Sha256}
  {NH : Abuse.NameHash} {D : Grpc.Descriptors} {DB : Abuse.Mmdb}.

(** What a request holds until it ends, with the counters it holds it of. *)
Definition resources (s : Live) := (concurrency s, guard s, requests s, held s, spool s, handle s).
(** What counts against a client. *)
Definition charges (s : Live) := (abuse s, profiles s, limiter s, books s).

Lemma resources_on_jwt {A} (f : _ -> _ * A) : keeps resources (on_jwt f).
Proof. apply keeps_operate. intros s. by destruct (f (jwt s)). Qed.
Lemma resources_on_abuse {A} (f : _ -> _ * A) : keeps resources (on_abuse f).
Proof. apply keeps_operate. intros s. by destruct (f (abuse s)). Qed.
Lemma resources_on_profiles {A} (f : _ -> _ * A) : keeps resources (on_profiles f).
Proof. apply keeps_operate. intros s. by destruct (f (profiles s)). Qed.
Lemma resources_on_limiter {A} (f : _ -> _ * A) : keeps resources (on_limiter f).
Proof. apply keeps_operate. intros s. by destruct (f (limiter s)). Qed.
Lemma resources_on_books {A} (f : _ -> _ * A) : keeps resources (on_books f).
Proof. apply keeps_operate. intros s. by destruct (f (books s)). Qed.
Lemma resources_on_pools f : keeps resources (on_pools f).
Proof. intros s s' l x. unfold on_pools. destruct (f (pools s)); by intros [= <- _ _]. Qed.

Lemma charges_on_jwt {A} (f : _ -> _ * A) : keeps charges (on_jwt f).
Proof. apply keeps_operate. intros s. by destruct (f (jwt s)). Qed.
Lemma charges_on_slots {A} (f : _ -> _ -> _ * _ * A) : keeps charges (on_slots f).
Proof. apply keeps_operate. intros s. by destruct (f (concurrency s) (guard s)) as [[? ?] ?]. Qed.
Lemma charges_on_pools f : keeps charges (on_pools f).
Proof. intros s s' l x. unfold on_pools. destruct (f (pools s)); by intros [= <- _ _]. Qed.

#[local] Hint Resolve resources_on_jwt resources_on_abuse resources_on_profiles resources_on_limiter resources_on_books
  resources_on_pools charges_on_jwt charges_on_slots charges_on_pools : stages.

Context (px : FerroadaProxy) (w : World).

(** *** Stages that touch neither the slot, nor the reservations, nor the spool *)

Lemma head_resources ss client uri : keeps resources (check_head px w ss client uri).
Proof. unfold check_head. keeping idtac. Qed.
Lemma route_resources ss client uri : keeps resources (route_request px w ss client uri).
Proof. unfold route_request. keeping idtac. Qed.
Lemma https_resources b https client uri : keeps resources (force_https px w b https client uri).
Proof. unfold force_https. keeping idtac. Qed.
Lemma reject_jwt_keeps {A B} (f : Live -> B) site client uri failure : keeps f (reject_jwt (A := A) w site client uri failure).
Proof. unfold reject_jwt. keeping idtac. Qed.
#[local] Hint Resolve reject_jwt_keeps : stages.
Lemma jwt_resources ss b client uri : keeps resources (apply_jwt_identity w ss b client uri).
Proof. unfold apply_jwt_identity. keeping idtac. Qed.
#[local] Hint Resolve jwt_resources : stages.
Lemma identify_resources ss b client uri : keeps resources (identify px w ss b client uri).
Proof. unfold identify, apply_abuse, apply_behavioral, send_abuse. keeping idtac. Qed.
Lemma admit_head_resources ss b policy https client uri who : keeps resources (admit_head px w ss b policy https client uri who).
Proof.
  unfold admit_head, check_request, apply_rate_limit, apply_protocols, apply_waf_request, waf_block. keeping idtac.
Qed.
Lemma envelope_resources ctx method h : keeps resources (openapi_envelope w ctx method h).
Proof. unfold openapi_envelope. keeping idtac. Qed.
Lemma grpc_headers_resources ctx method h : keeps resources (apply_grpc_headers w ctx method h).
Proof. unfold apply_grpc_headers, deny_grpc_parse, parse_error_stage, refuse_grpc. keeping idtac. Qed.
Lemma expect_resources h : keeps resources (answer_expect w h).
Proof. unfold answer_expect. keeping idtac. Qed.
Lemma authz_resources ctx body : keeps resources (authz_stage w ctx body).
Proof. unfold authz_stage. keeping idtac. Qed.
Lemma l1_resources ctx ss h body decoded : keeps resources (l1_stage px w ctx ss h body decoded).
Proof. unfold l1_stage, waf_block. keeping idtac. Qed.
#[local] Hint Resolve authz_resources : stages.
Lemma policies_resources ctx ss matched body : keeps resources (body_policies w ctx ss matched body).
Proof.
  unfold body_policies, openapi_body, apply_jwt_body, apply_graphql, apply_grpc_body, deny_grpc_parse, parse_error_stage, refuse_grpc.
  keeping idtac.
Qed.
Lemma waf_body_resources ctx wire : keeps resources (apply_waf_body px w ctx wire).
Proof. unfold apply_waf_body, waf_block. keeping idtac. Qed.
(** *** The resources a request holds *)

(** The state a request starts from: it holds nothing, and the counters are in range. *)
Record ready (s : Live) : Prop := {
  r_guard : guard s = false; r_held : held s = Budget.idle 0; r_handle : handle s = None;
  r_slots : 0 <= Budget.current (Budget.in_flight (concurrency s)) <= Budget.budget_max (Budget.in_flight (concurrency s));
  r_slots_max : Budget.budget_max (Budget.in_flight (concurrency s)) <= usize_max;
  r_requests : 0 <= Budget.current (requests s) <= Budget.budget_max (requests s);
  r_requests_max : Budget.budget_max (requests s) <= usize_max;
  r_spool : Spool.runtime_ok (spool s) }.

(** What the request holds at [s], of the counters as they were at [s0]. *)
Record accounted (s0 s : Live) : Prop := {
  ac_slot : if guard s then Budget.acquire (concurrency s0) = (concurrency s, true) else concurrency s = concurrency s0;
  ac_held : exists r, held s = Budget.idle r /\ 0 <= r /\ Budget.current (requests s) = Budget.current (requests s0) + r
    /\ Budget.current (requests s) <= Budget.budget_max (requests s0)
    /\ Budget.budget_max (requests s) = Budget.budget_max (requests s0);
  ac_spool : match handle s with
             | Some h => Spool.owns (spool s0) (spool s) h
             | None => spool s = spool s0
             end }.

Lemma accounted_resources s0 s s' : resources s' = resources s -> accounted s0 s -> accounted s0 s'.
Proof. intros [= E1 E2 E3 E4 E5 E6] [A1 A2 A3]. constructor; rewrite ?E1, ?E2, ?E3, ?E4, ?E5, ?E6; done. Qed.

(** From [P] on: [R] of the value and the state if the stage goes on, [Q] however else it ends. *)
Definition leads (P : Live -> Prop) {A} (R : A -> Live -> Prop) (Q : Live -> Prop) (m : Stage Live A) : Prop :=
  forall s s' l x, P s -> m s = (s', l, x) -> match x with Next a => R a s' | _ => Q s' end.
Definition stable (P : Live -> Prop) : Prop := forall s s', resources s' = resources s -> P s -> P s'.

Lemma leads_bind (P Q : Live -> Prop) {A C} (R : A -> Live -> Prop) (T : C -> Live -> Prop) (m : Stage Live A) (k : A -> Stage Live C) :
  leads P R Q m -> (forall a, leads (R a) T Q (k a)) -> leads P T Q (bind m k).
Proof.
  intros Hm Hk s s' l x Hs. unfold bind. destruct (m s) as [[s1 l1] y] eqn:E. pose proof (Hm _ _ _ _ Hs E) as H1.
  destruct y as [a|r| |]; [|by intros [= <- _ <-]..].
  destruct (k a s1) as [[s2 l2] y] eqn:E2. intros [= <- _ <-]. apply (Hk a _ _ _ _ H1 E2).
Qed.

(** A stage that keeps the resources, and what it establishes by going on. *)
Lemma leads_keeps (P Q : Live -> Prop) {A} (F : A -> Prop) (m : Stage Live A) :
  stable P -> (forall s, P s -> Q s) -> keeps resources m -> (forall s s' l a, m s = (s', l, Next a) -> F a) ->
  leads P (fun a s => P s /\ F a) Q m.
Proof.
  intros HP HQ Hm HF s s' l x Hs E. assert (P s') by (apply (HP s); [apply (Hm _ _ _ _ E)|done]).
  destruct x; auto. split; [done|]. apply (HF _ _ _ _ E).
Qed.

Lemma leads_given (P Q : Live -> Prop) {A} (F : Prop) (R : A -> Live -> Prop) (m : Stage Live A) :
  (F -> leads P R Q m) -> leads (fun s => P s /\ F) R Q m.
Proof. intros Hm s s' l x [Hs HF]. by apply Hm. Qed.

Lemma leads_weaken (P P' Q Q' : Live -> Prop) {A} (R R' : A -> Live -> Prop) (m : Stage Live A) :
  leads P' R' Q' m -> (forall s, P s -> P' s) -> (forall a s, R' a s -> R a s) -> (forall s, Q' s -> Q s) -> leads P R Q m.
Proof. intros Hm H1 H2 H3 s s' l x Hs E. specialize (Hm s s' l x (H1 _ Hs) E). destruct x; auto. Qed.

(** Before the spool is made. *)
Definition unspooled (s0 s : Live) : Prop := accounted s0 s /\ handle s = None.

Lemma accounted_stable s0 : stable (accounted s0).
Proof. intros s s'. apply accounted_resources. Qed.
Lemma unspooled_stable s0 : stable (unspooled s0).
Proof. intros s s' E [Ha Hh]. split; [by apply (accounted_resources s0 s)|]. by injection E as _ _ _ _ _ ->. Qed.

Lemma unspooled_accounted s0 s : unspooled s0 s -> accounted s0 s.
Proof. by intros [? _]. Qed.

Lemma max_body_nonneg env : 0 <= Shield.max_body_size env.
Proof.
  unfold Shield.max_body_size, Shield.MAX_BODY_SIZE.
  pose proof (env_positive_range env "MAX_BODY_SIZE" usize_max Shield.DEFAULT_MAX_BODY ltac:(vm_compute; split; congruence)).
  unfold Shield.MAX_REPLAYABLE_BODY. lia.
Qed.

(** A stage that keeps the resources. *)
Lemma unspooled_keeps s0 {A} (m : Stage Live A) : keeps resources m ->
  leads (unspooled s0) (fun _ => unspooled s0) (accounted s0) m.
Proof.
  intros Hm. eapply leads_weaken; [apply (leads_keeps (unspooled s0) (accounted s0) (fun _ => True)) | done | by intros ? ? [? _] | done];
    eauto using unspooled_stable, unspooled_accounted.
Qed.
Lemma accounted_keeps s0 {A} (m : Stage Live A) : keeps resources m ->
  leads (accounted s0) (fun _ => accounted s0) (accounted s0) m.
Proof.
  intros Hm. eapply leads_weaken; [apply (leads_keeps (accounted s0) (accounted s0) (fun _ => True)) | done | by intros ? ? [? _] | done];
    eauto using accounted_stable.
Qed.

Lemma slot_accounted s0 client uri : ready s0 ->
  leads (eq s0) (fun _ => unspooled s0) (accounted s0) (take_slot w client uri).
Proof.
  intros [Hg Hh Hn H1 H2 H3 H4 H5].
  assert (forall c ok, Budget.acquire (concurrency s0) = (c, ok) -> unspooled s0
    (MkLive c ok (jwt s0) (abuse s0) (profiles s0) (limiter s0) (books s0) (requests s0) (held s0) (spool s0) (handle s0) (pools s0))) as Ha.
  { intros c ok Hc. split; [|exact Hn]. constructor; cbn.
    - destruct ok; [done|]. unfold Budget.acquire in Hc. destruct (_ <? _); by injection Hc.
    - exists 0. rewrite Hh. repeat split; try done; lia.
    - by rewrite Hn. }
  unfold take_slot. apply (leads_bind _ _ (fun _ => unspooled s0)); [|intros [|]; apply unspooled_keeps; keeping idtac].
  intros s s' l x <- E. unfold on_slots, operate in E. destruct (Budget.acquire (concurrency s0)) as [c ok] eqn:Ec.
  injection E as <- _ <-. rewrite Hg. by apply Ha.
Qed.

Lemma reservation_nonneg n m encoding k : (forall j, n = Some j -> 0 <= j) -> 0 <= m ->
  Budget.request_inspection_reservation n m encoding = Some k \/ Budget.spool_inspection_reservation n m encoding = Some k -> 0 <= k.
Proof.
  intros Hn Hm. assert (0 <= Z.min (default m n) m) as Hmin.
  { destruct n as [j|]; cbn; [specialize (Hn j eq_refl)|]; lia. }
  assert (0 <= Budget.inflate_buffer_bytes m /\ 0 <= Budget.max_inflate_buffer_bytes) as [Hi Hj].
  { unfold Budget.max_inflate_buffer_bytes, Budget.inflate_buffer_bytes, Budget.MAX_INFLATE_FOR_INSPECT, saturating_add, usize_max, u64_max. lia. }
  intros [H0|H0]; revert H0.
  - unfold Budget.request_inspection_reservation, checked_mul, checked_add. cbv zeta. destruct (_ <=? _); [|done]. cbn [mbind option_bind].
    destruct (Budget.reserves_inflated_body _); [destruct (_ <=? _); [|done]|]; intros [= <-]; lia.
  - unfold Budget.spool_inspection_reservation, checked_add. cbv zeta.
    destruct (Budget.reserves_inflated_body _); [destruct (_ <=? _); [|done]|]; intros [= <-]; lia.
Qed.

Lemma reserve_accounted s0 ctx n : (forall j, n = Some j -> 0 <= j) -> ceiling_ok (inspection ctx) ->
  leads (unspooled s0) (fun _ => unspooled s0) (accounted s0) (reserve_body px w ctx n).
Proof.
  intros Hn Hc. unfold reserve_body. set (reservation := default usize_max _).
  assert (0 <= Shield.max_body_size (px_env px)) as Hm by apply max_body_nonneg.
  assert (0 <= reservation) as Hr.
  { unfold reservation. destruct (bool_decide _) eqn:Eb; [destruct (Budget.spool_inspection_reservation _ _ _) as [k|] eqn:E
      |destruct (Budget.request_inspection_reservation _ _ _) as [k|] eqn:E]; cbn; try (unfold usize_max, u64_max; lia).
    - apply bool_decide_eq_true in Eb as [m Em]. rewrite Em in E. cbn in E. apply Hc in Em.
      apply (reservation_nonneg n m (request_content_encoding ctx)); [done|lia|by right].
    - eapply reservation_nonneg; [exact Hn|exact Hm|by left]. }
  apply (leads_bind _ _ (fun _ => unspooled s0)); [|intros [|]; apply unspooled_keeps; keeping idtac].
  intros s s' l x [[A1 (r & A2 & A3 & A4 & A5 & A6) A7] Hs] E. unfold on_requests, operate, Budget.reserve_request in E.
  destruct (Budget.reserve reservation (requests s)) as [b ok] eqn:Eb. apply Budget.reserve_spec in Eb as [Hbm Hb].
  destruct ok; injection E as <- _ <-; (split; [|exact Hs]); constructor; cbn; try done.
  - exists (Budget.reserved (held s) + reservation). rewrite A2. cbn. repeat split; try lia; congruence.
  - exists r. subst b. repeat split; done.
Qed.
(** An operation on the spool that keeps what the handle owns. *)
Lemma on_spool_accounted s0 {A} (f : Spool.SpoolRuntime -> option Spool.SpoolHandle -> Spool.SpoolRuntime * option Spool.SpoolHandle * A) :
  (forall rt h rt' h' a, f rt h = (rt', h', a) ->
     match h with Some h => Spool.owns (spool s0) rt h | None => rt = spool s0 end ->
     match h' with Some h => Spool.owns (spool s0) rt' h | None => rt' = spool s0 end) ->
  leads (accounted s0) (fun _ => accounted s0) (accounted s0) (on_spool f).
Proof.
  intros Hf s s' l x [A1 A2 A3] E. unfold on_spool, operate in E. specialize (Hf (spool s) (handle s)).
  destruct (f (spool s) (handle s)) as [[rt h] a]. injection E as <- _ <-. constructor; cbn; [done|exact A2|by eapply Hf].
Qed.

Lemma read_spool_accounted s0 ctx max_body reads : Spool.runtime_ok (spool s0) ->
  leads (accounted s0) (fun _ => accounted s0) (accounted s0) (read_spool w ctx max_body reads).
Proof.
  intros H0. induction reads as [|[chunk io| |] reads IH]; cbn [read_spool]; [apply accounted_keeps; keeping idtac| |apply accounted_keeps; keeping idtac..].
  apply (leads_bind _ _ (fun _ => accounted s0)).
  - apply on_spool_accounted. intros rt [h|] rt' h' a; [|by intros [= <- <- _]].
    destruct (Spool.push io chunk rt h) as [[rt1 h1] r] eqn:E. intros [= <- <- _] Ho. apply (Spool.push_owns _ _ _ _ _ _ _ _ H0 Ho E).
  - intros pushed. apply (leads_bind _ _ (fun _ => accounted s0)); [apply accounted_keeps; keeping idtac|].
    intros [[]|e]; [exact IH|]. unfold spool_refused. destruct e; apply accounted_keeps; keeping idtac.
Qed.

Lemma spooled_bytes_accounted s0 ctx io failed :
  leads (accounted s0) (fun _ => accounted s0) (accounted s0) (spooled_bytes w ctx io failed).
Proof.
  unfold spooled_bytes, spool_refused. apply (leads_bind _ _ (fun _ => accounted s0)).
  - apply on_spool_accounted. intros rt [h|] rt' h' a; [|by intros [= <- <- _]].
    destruct (Spool.inspect_bytes io h) as [h1 r] eqn:E. intros [= <- <- _]. by apply (Spool.inspect_keeps io h h1 r).
  - intros read. apply accounted_keeps. keeping idtac.
Qed.

Lemma read_wire_resources ctx buf reads : keeps resources (read_wire px w ctx buf reads).
Proof.
  revert buf. induction reads as [|[chunk io| |] reads IH]; intros buf; cbn [read_wire]; [keeping idtac| |keeping idtac..].
  destruct (Budget.buffer_push chunk buf) as [buf' [|]]; [apply IH|keeping idtac].
Qed.

Lemma announce_resources (h : H) : keeps resources (announce_empty h).
Proof. unfold announce_empty. keeping idtac. Qed.
#[local] Hint Resolve read_wire_resources announce_resources : stages.

Lemma receive_accounted s0 ctx ss h : Spool.runtime_ok (spool s0) ->
  leads (unspooled s0) (fun _ => accounted s0) (accounted s0) (receive_body px w ctx ss h).
Proof.
  intros H0. unfold receive_body. destruct (max_decoded_body (inspection ctx)) as [max_body|].
  2: { eapply leads_weaken; [apply accounted_keeps; keeping idtac | apply unspooled_accounted | done | done]. }
  apply (leads_bind _ _ (fun _ => accounted s0)).
  { intros s s' l x [[A1 A2 A3] Hh] E. injection E as <- _ <-. rewrite Hh in A3. constructor; cbn; try done.
    rewrite A3. by apply Spool.new_owns. }
  intros _. apply (leads_bind _ _ (fun _ => accounted s0)); [by apply read_spool_accounted|]. intros _.
  apply (leads_bind _ _ (fun _ => accounted s0)); [apply on_spool_accounted; by intros rt h' rt' h'' a [= <- <- _]|].
  intros empty. apply accounted_keeps. keeping idtac.
Qed.

Lemma inspect_accounted s0 ctx ss h matched body :
  leads (accounted s0) (fun _ => accounted s0) (accounted s0) (inspect_received px w ctx ss h matched body).
Proof.
  assert (leads (accounted s0) (fun _ => accounted s0) (accounted s0) (wire_of w ctx body)) as Hw.
  { destruct body; [apply accounted_keeps; keeping idtac|apply spooled_bytes_accounted]. }
  unfold inspect_received. destruct (negb _).
  - apply (leads_bind _ _ (fun _ => accounted s0)); [exact Hw|]. intros wire.
    apply (leads_bind _ _ (fun _ => accounted s0)); [apply accounted_keeps, waf_body_resources|]. intros inspected.
    destruct (body_shown ctx wire inspected) as [shown decoded].
    apply accounted_keeps, keeps_bind; [apply l1_resources|intros _; apply policies_resources].
  - destruct (policy_reads_body ctx matched); [|apply accounted_keeps, authz_resources].
    apply (leads_bind _ _ (fun _ => accounted s0)); [exact Hw|]. intros wire. apply accounted_keeps, policies_resources.
Qed.

Lemma admit_body_accounted s0 ctx ss n matched : Spool.runtime_ok (spool s0) ->
  (forall j, n = Some j -> 0 <= j) -> ceiling_ok (inspection ctx) ->
  leads (unspooled s0) (fun _ => accounted s0) (accounted s0) (admit_body px w ctx ss n matched).
Proof.
  intros H0 Hn Hc. unfold admit_body. destruct (negb _).
  - apply (leads_bind _ _ (fun _ => unspooled s0)); [by apply reserve_accounted|]. intros _.
    apply (leads_bind _ _ (fun _ => unspooled s0)); [apply unspooled_keeps, expect_resources|]. intros h.
    apply (leads_bind _ _ (fun _ => accounted s0)); [by apply receive_accounted|]. intros [h' body].
    apply (leads_bind _ _ (fun _ => accounted s0)); [apply inspect_accounted|]. intros _.
    apply (leads_bind _ _ (fun _ => accounted s0)); [|intros passage; apply accounted_keeps; keeping idtac].
    unfold pass_body. destruct body as [body|[|]]; [apply accounted_keeps; keeping idtac..|].
    apply (leads_bind _ _ (fun _ => accounted s0)); [apply spooled_bytes_accounted|intros; apply accounted_keeps; keeping idtac].
  - eapply leads_weaken; [apply accounted_keeps | apply unspooled_accounted | done | done].
    apply keeps_bind; [apply l1_resources|]. intros _. apply keeps_bind; [apply policies_resources|]. keeping idtac.
Qed.

Lemma route_next ss client uri s s' l b policy : route_request px w ss client uri s = (s', l, Next (b, policy)) ->
  Config.resolve_host (px_config px) (default [] (get_str (ss_headers ss) "Host")) = Some b
  /\ Config.backend_inspection_policy b uri = Some policy.
Proof.
  unfold route_request. destruct (Config.resolve_host _ _) as [b'|]; intros E; [|stopped E].
  next E. next E. apply or_panic_next in E1 as (Hp & _ & _). apply ret_next in E as (_ & _ & [= -> ->]). done.
Qed.

Lemma check_request_next ss site client uri policy s s' l n : check_request px w ss site client uri policy s = (s', l, Next n) ->
  n = get_str (ss_headers ss) "Content-Length" ≫= parse_uint usize_max.
Proof.
  unfold check_request. intros E. do 5 next E. destruct (_ ≫= _) as [cl|]; [|by apply ret_next in E as (_ & _ & <-)].
  destruct (_ <? _); [stopped E|by apply ret_next in E as (_ & _ & <-)].
Qed.
Lemma ready_spool s : ready s -> Spool.runtime_ok (spool s).
Proof. by intros []. Qed.

Lemma filter_accounted s0 ss : ready s0 -> leads (eq s0) (fun _ => accounted s0) (accounted s0) (request_filter px w ss).
Proof.
  intros Hready. unfold request_filter.
  apply (leads_bind _ _ (fun _ => eq s0)).
  { intros s s' l x <- E. injection E as <- _ <-. destruct Hready. destruct (sanitize_route (ss_path ss)); [done|].
    constructor; [by rewrite r_guard0|exists 0; rewrite r_held0; repeat split; try done; lia|by rewrite r_handle0]. }
  intros _. destruct (client_address px ss) as [client peer].
  apply (leads_bind _ _ (fun _ => unspooled s0)); [by apply slot_accounted|]. intros _.
  apply (leads_bind _ _ (fun _ => unspooled s0)); [apply unspooled_keeps, head_resources|]. intros _.
  apply (leads_bind _ _ (fun r s => unspooled s0 s /\ ceiling_ok r.2)).
  { apply leads_keeps; [apply unspooled_stable|apply unspooled_accounted|apply route_resources|].
    intros s s' l [b policy] E. apply route_next in E as [_ Hp]. apply (inspection_ceiling _ _ _ Hp). }
  intros [b policy]. apply leads_given. cbn [snd]. intros Hc.
  apply (leads_bind _ _ (fun _ => unspooled s0)); [apply unspooled_keeps, https_resources|]. intros _.
  apply (leads_bind _ _ (fun _ => unspooled s0)); [apply unspooled_keeps, identify_resources|]. intros who.
  apply (leads_bind _ _ (fun r s => unspooled s0 s /\ inspection r.1 = policy /\ (forall j, r.2 = Some j -> 0 <= j))).
  { apply leads_keeps; [apply unspooled_stable|apply unspooled_accounted|apply admit_head_resources|].
    intros s s' l [ctx n] E. unfold admit_head in E. destruct who as [principal risk]. next E. do 3 next E.
    apply ret_next in E as (_ & _ & [= <- <-]). split; [done|]. apply check_request_next in E0 as ->. cbn [snd].
    intros j. destruct (get_str _ _) as [v|]; [|done]. apply parse_uint_nonneg. }
  intros [ctx n]. apply leads_given. cbn [fst snd]. intros [<- Hn].
  apply (leads_bind _ _ (fun _ => unspooled s0)); [apply unspooled_keeps, envelope_resources|]. intros matched.
  apply (leads_bind _ _ (fun _ => unspooled s0)); [apply unspooled_keeps, grpc_headers_resources|]. intros timeout.
  apply (leads_bind _ _ (fun _ => accounted s0)); [apply admit_body_accounted; auto using ready_spool|].
  intros [h passage]. apply accounted_keeps. keeping idtac.
Qed.

Lemma settle_accounted s0 s : ready s0 -> accounted s0 s ->
  concurrency (settle s) = concurrency s0 /\ requests (settle s) = requests s0
  /\ Spool.rt_bytes (spool (settle s)) = Spool.rt_bytes (spool s0) /\ Spool.rt_files (spool (settle s)) = Spool.rt_files (spool s0)
  /\ Spool.rt_disk (spool (settle s)) = Spool.rt_disk (spool s0).
Proof.
  intros [Hg Hh Hn H1 H2 H3 H4 H5] [A1 (r & Hr & Hr0 & Hc & Hle & Hmax) A3]. cbn. split; [|split].
  - destruct (guard s); [|done]. unfold Budget.acquire in A1. destruct (Z.ltb_spec (Budget.current (Budget.in_flight (concurrency s0))) (Budget.budget_max (Budget.in_flight (concurrency s0)))); [|by injection A1].
    injection A1 as <-. unfold Budget.guard_drop, Budget.set_current. cbn. unfold usize_max, u64_max in *.
    rewrite wrapping_sub_small by lia. destruct (concurrency s0) as [[c m]]. cbn. do 2 f_equal. lia.
  - rewrite Hr. cbn. pose proof (Budget.release_exact r (requests s) ltac:(lia) ltac:(lia)) as E.
    assert (Budget.budget_max (Budget.release r (requests s)) = Budget.budget_max (requests s)) as Em
      by (unfold Budget.release; by destruct (0 <? r)).
    destruct (Budget.release r (requests s)), (requests s0). cbn in *. f_equal; lia.
  - destruct (handle s) as [h|]; [by apply Spool.drop_restores|by rewrite A3].
Qed.

(** C5. Whatever becomes of a request (it goes on, an answer of the proxy, an error of the connection or a panic), once its context is
    dropped the slot it took, the bytes it reserved, and the memory, file and disk of its spool are all given back. *)
Theorem request_leaves_nothing (ss : Session H) (s s' : Live) (l : list Mark) (outcome : Flow Cleared) :
  ready s -> request_filter px w ss s = (s', l, outcome) ->
  concurrency (settle s') = concurrency s /\ requests (settle s') = requests s
  /\ Spool.rt_bytes (spool (settle s')) = Spool.rt_bytes (spool s) /\ Spool.rt_files (spool (settle s')) = Spool.rt_files (spool s)
  /\ Spool.rt_disk (spool (settle s')) = Spool.rt_disk (spool s).
Proof.
  intros Hs E. apply (settle_accounted s s' Hs). pose proof (filter_accounted s ss Hs s s' l outcome eq_refl E). by destruct outcome.
Qed.
(** *** The head of a request that goes on *)

Lemma gate_next r bad refuse s s' l u : stops refuse -> shield_gate r bad refuse s = (s', l, Next u) -> r.1 <> bad.
Proof.
  intros Hr E Hb. unfold shield_gate in E. next E. rewrite bool_decide_true in E by done. by apply Hr in E.
Qed.

(** The client speaks TLS to the proxy, or a peer that is trusted (it is on the list, or every peer announces its clients) says that
    its client does. *)
Definition over_https (ss : Session H) : Prop :=
  ss_tls ss = true
  \/ (px_proxy_protocol px = true
      \/ exists socket ip, ss_socket ss = Some socket /\ Framing.parse_addr_ip socket = Some ip /\ ClientIp.is_trusted (px_trusted px) ip = true)
     /\ exists proto, get_str (ss_headers ss) "X-Forwarded-Proto" = Some proto
        /\ to_ascii_lowercase (trim (before 44 proto)) = lit "https".

Lemma https_over ss : is_https ss (client_address px ss).2 = true -> over_https ss.
Proof.
  unfold is_https, over_https, client_address. cbn [snd]. intros [?|[Hp Hx]%andb_true_iff]%orb_true_iff; [by left|right]. split.
  - apply orb_true_iff in Hp as [?|Hp]; [by left|right]. destruct (ss_socket ss) as [socket|]; cbn in Hp.
    + destruct (Framing.parse_addr_ip socket) as [ip|] eqn:Ei; [|done]. by exists socket, ip.
    + vm_compute in Hp. done.
  - destruct (get_str _ _) as [proto|]; [|done]. exists proto. split; [done|]. unfold eq_ignore_ascii_case in Hx.
    apply bytes_eqb_eq in Hx. rewrite Hx. done.
Qed.

(** What the filter found in the head: the site of the host, and no objection of the shield, the protocol matrix or the WAF. *)
Record head_clean (ss : Session H) (ctx : FerroadaCtx) : Prop := {
  hc_uri : request_uri ctx = default (lit "/") (ss_path_and_query ss);
  hc_client : client_addr ctx = (client_address px ss).1;
  hc_site : Config.resolve_host (px_config px) (default [] (get_str (ss_headers ss) "Host")) = Some (backend ctx);
  hc_scope : site_scope ctx = Config.b_site_scope (backend ctx);
  hc_policy : Config.backend_inspection_policy (backend ctx) (request_uri ctx) = Some (inspection ctx);
  hc_size : (Shield.check_headers (px_env px) (len (hm_iter (ss_headers ss)))
              (fold_left (fun n f => n + saturating_add usize_max (len f.1) (len f.2)) (hm_iter (ss_headers ss)) 0)
              (request_uri ctx) (client_addr ctx)).1 <> Shield.BlockHeaders;
  hc_authority : (Shield.check_host_authority (get_str (ss_headers ss) "Host") (ss_authority ss)
                   (request_uri ctx) (client_addr ctx)).1 <> Shield.BlockHost;
  hc_host : forall hv, get_str (ss_headers ss) "Host" = Some hv ->
    (Shield.check_host (px_env px) hv (request_uri ctx) (client_addr ctx)).1 <> Shield.BlockHost;
  hc_https : px_env px "FORCE_HTTPS" = Some (lit "true") -> over_https ss;
  hc_type : request_content_type ctx = get_str (ss_headers ss) "Content-Type";
  hc_encoding : request_content_encoding ctx = get_str (ss_headers ss) "Content-Encoding";
  hc_framing : (Framing.check_framing (ss_raw ss) (get_str (ss_headers ss) "Transfer-Encoding")
                 (request_uri ctx) (client_addr ctx) (site_scope ctx)).1 <> Shield.BlockSmuggling;
  hc_agent : (Shield.check_user_agent (px_env px) (default [] (get_str (ss_headers ss) "User-Agent"))
               (request_uri ctx) (client_addr ctx) (site_scope ctx)).1 <> Shield.BlockBadBot;
  hc_method : (Shield.check_method (px_env px) (ss_method ss) (request_uri ctx) (client_addr ctx) (site_scope ctx)).1 <> Shield.BlockMethod;
  hc_target : exists r, Shield.check_uri_length (px_env px) (request_uri ctx) (client_addr ctx) (site_scope ctx) = Some r
    /\ r.1 <> Shield.BlockUriLength;
  hc_length : forall n, get_str (ss_headers ss) "Content-Length" ≫= parse_uint usize_max = Some n ->
    n <= default (Shield.max_body_size (px_env px)) (max_decoded_body (inspection ctx));
  hc_protocol : exists verdict, Protocol.blocked_status verdict = None
    /\ verdict = Protocol.evaluate (Config.protocols (px_config px))
         {| Protocol.version := ss_version ss; Protocol.upgrade := get_str (ss_headers ss) "Upgrade";
            Protocol.content_encoding := request_content_encoding ctx; Protocol.content_type := request_content_type ctx;
            Protocol.require_complete := require_complete (inspection ctx);
            Protocol.grpc_policy := bool_decide (is_Some (Config.b_grpc (backend ctx))) |}
    /\ skip_body_waf ctx = Protocol.skips_body_waf verdict
         || bool_decide (is_Some (Config.b_grpc (backend ctx))) && Grpc.is_grpc_content_type (request_content_type ctx);
  hc_waf : (Waf.inspect_request_with_profile (request_uri ctx) (waf_values (ss_headers ss)) (client_addr ctx)
             (Config.b_waf_profile (backend ctx)) (site_scope ctx)).1 = Waf.WafAllow }.

(** *** Who asks, of a request that goes on *)

(** What the request is told from, and how it stands: from [s] to [s'] each component judged it once, on the state it then kept. *)
Definition abuse_request (ss : Session H) (has_jwt : bool) : Abuse.AbuseRequest := {|
  Abuse.method := ss_method ss; Abuse.path := ss_path ss; Abuse.ua := get_str (ss_headers ss) "User-Agent";
  Abuse.accept := get_str (ss_headers ss) "Accept"; Abuse.content_type := get_str (ss_headers ss) "Content-Type";
  Abuse.has_jwt := has_jwt |}.

Record identified (ss : Session H) (ctx : FerroadaCtx) (s s' : Live) : Prop := {
  id_jwt : match Config.b_jwt (backend ctx) with
           | None => principal ctx = None /\ jwt s' = jwt s
           | Some (policy, _) => exists p,
               Jwt.authenticate policy (w_jwt w) (get_str (ss_headers ss) "Authorization") (w_unix_now w) (jwt s) = (jwt s', Ok p)
               /\ principal ctx = Some p
               /\ Jwt.bind_path policy p (before 63 (request_uri ctx)) (openapi_params (backend ctx) (before 63 (request_uri ctx))) = Ok tt
           end;
  id_risk : risk_identity ctx = risk_of px ss (backend ctx) (principal ctx) (client_addr ctx) (request_uri ctx);
  id_abuse : match risk_identity ctx, Config.b_abuse (backend ctx) with
             | Some i, Some policy =>
                 Abuse.inspect (w_abuse w) policy i (abuse_request ss (bool_decide (is_Some (principal ctx)))) (abuse s)
                 = (abuse s', Abuse.AbuseAllow)
             | _, _ => abuse s' = abuse s
             end;
  id_behavior : match risk_identity ctx with
                | Some i => exists ev,
                    Behavioral.check_and_record (Behavioral.behavioral_config (px_env px)) (w_behavior_now w) (w_behavior w) i
                      (request_uri ctx) (get_str (ss_headers ss) "User-Agent") (client_addr ctx) (profiles s)
                    = (profiles s', Behavioral.BAllow, ev)
                | None => profiles s' = profiles s
                end;
  id_rate : match risk_identity ctx with
            | Some i => exists ev,
                RateLimit.check (w_rate w).1.1 (w_rate w).1.2 (w_rate w).2 i (request_uri ctx) (limiter s) = (limiter s', true, ev)
            | None => limiter s' = limiter s
            end }.

(** What the four keep. *)
Definition standing (s : Live) := (jwt s, abuse s, profiles s, limiter s).

(** The operation behind a stage that works on one component. *)
Lemma on_jwt_next {A} (f : _ -> _ * A) s s' l a : on_jwt f s = (s', l, Next a) ->
  f (jwt s) = (jwt s', a) /\ standing s' = (jwt s', abuse s, profiles s, limiter s).
Proof. unfold on_jwt. intros [E _]%operate_next. destruct (f (jwt s)) as [c b]. by injection E as <- <-. Qed.
Lemma on_abuse_next {A} (f : _ -> _ * A) s s' l a : on_abuse f s = (s', l, Next a) ->
  f (abuse s) = (abuse s', a) /\ standing s' = (jwt s, abuse s', profiles s, limiter s).
Proof. unfold on_abuse. intros [E _]%operate_next. destruct (f (abuse s)) as [c b]. by injection E as <- <-. Qed.
Lemma on_profiles_next {A} (f : _ -> _ * A) s s' l a : on_profiles f s = (s', l, Next a) ->
  f (profiles s) = (profiles s', a) /\ standing s' = (jwt s, abuse s, profiles s', limiter s).
Proof. unfold on_profiles. intros [E _]%operate_next. destruct (f (profiles s)) as [c b]. by injection E as <- <-. Qed.
Lemma on_limiter_next {A} (f : _ -> _ * A) s s' l a : on_limiter f s = (s', l, Next a) ->
  f (limiter s) = (limiter s', a) /\ standing s' = (jwt s, abuse s, profiles s, limiter s').
Proof. unfold on_limiter. intros [E _]%operate_next. destruct (f (limiter s)) as [c b]. by injection E as <- <-. Qed.
Lemma on_books_next {A} (f : _ -> _ * A) s s' l a : on_books f s = (s', l, Next a) -> exists c, f (books s) = (c, a).
Proof. unfold on_books. intros [E _]%operate_next. destruct (f (books s)) as [c b]. injection E as _ <-. eauto. Qed.

Lemma jwt_identity_next ss b client uri s s' l who : apply_jwt_identity w ss b client uri s = (s', l, Next who) ->
  match Config.b_jwt b with
  | None => who = None /\ jwt s' = jwt s
  | Some (policy, _) => exists p,
      Jwt.authenticate policy (w_jwt w) (get_str (ss_headers ss) "Authorization") (w_unix_now w) (jwt s) = (jwt s', Ok p)
      /\ who = Some p /\ Jwt.bind_path policy p (before 63 uri) (openapi_params b (before 63 uri)) = Ok tt
  end /\ standing s' = (jwt s', abuse s, profiles s, limiter s).
Proof.
  unfold apply_jwt_identity. destruct (Config.b_jwt b) as [[policy st0]|]; intros E; [|by apply ret_next in E as (-> & _ & <-)].
  next E. apply on_jwt_next in E0 as [E0 Hs]. destruct a as [p|failure]; [|stopped E].
  destruct (Jwt.bind_path _ _ _ _) as [[]|failure] eqn:Eb; [|stopped E]. apply ret_next in E as (-> & _ & <-).
  split; [by exists p|done].
Qed.

Lemma abuse_next ss b risk has client uri s s' l u : apply_abuse w ss b risk has client uri s = (s', l, Next u) ->
  match risk, Config.b_abuse b with
  | Some i, Some policy => Abuse.inspect (w_abuse w) policy i (abuse_request ss has) (abuse s) = (abuse s', Abuse.AbuseAllow)
  | _, _ => abuse s' = abuse s
  end /\ standing s' = (jwt s, abuse s', profiles s, limiter s).
Proof.
  unfold apply_abuse. intros E. destruct risk as [i|], (Config.b_abuse b) as [policy|]; try by apply ret_next in E as (-> & _ & _).
  next E. apply on_abuse_next in E0 as [E0 Hs]. destruct a; [|stopped E]. apply ret_next in E as (-> & _ & _). split; [exact E0|done].
Qed.

Lemma behavioral_next ss risk client uri s s' l u : apply_behavioral px w ss risk client uri s = (s', l, Next u) ->
  match risk with
  | Some i => exists ev, Behavioral.check_and_record (Behavioral.behavioral_config (px_env px)) (w_behavior_now w) (w_behavior w) i uri
      (get_str (ss_headers ss) "User-Agent") client (profiles s) = (profiles s', Behavioral.BAllow, ev)
  | None => profiles s' = profiles s
  end /\ standing s' = (jwt s, abuse s, profiles s', limiter s).
Proof.
  unfold apply_behavioral. intros E. destruct risk as [i|]; [|by apply ret_next in E as (-> & _ & _)].
  next E. apply on_profiles_next in E0 as [E0 Hs]. destruct a as [v ev]. apply bind_next in E as (s1 & l1 & [] & ? & Em & E & _).
  apply mark_next in Em as [-> _]. destruct v; [|stopped E..]. apply ret_next in E as (-> & _ & _).
  destruct (Behavioral.check_and_record _ _ _ _ _ _ _ (profiles s)) as [[p' v] ev'] eqn:Ei. split; [exists ev; congruence|done].
Qed.

Lemma rate_next risk uri s s' l u : apply_rate_limit w risk uri s = (s', l, Next u) ->
  match risk with
  | Some i => exists ev, RateLimit.check (w_rate w).1.1 (w_rate w).1.2 (w_rate w).2 i uri (limiter s) = (limiter s', true, ev)
  | None => limiter s' = limiter s
  end /\ standing s' = (jwt s, abuse s, profiles s, limiter s').
Proof.
  unfold apply_rate_limit. intros E. destruct risk as [i|]; [|by apply ret_next in E as (-> & _ & _)].
  next E. apply on_limiter_next in E0 as [E0 Hs]. destruct a as [[ok ev] win]. apply bind_next in E as (s1 & l1 & [] & ? & Em & E & _).
  apply mark_next in Em as [-> _]. destruct ok; [|stopped E]. apply ret_next in E as (-> & _ & _).
  destruct (RateLimit.check _ _ _ _ _ (limiter s)) as [[rl' ok] ev'] eqn:Ei. split; [exists ev; congruence|done].
Qed.
Lemma https_next b https client uri s s' l u : force_https px w b https client uri s = (s', l, Next u) ->
  px_env px "FORCE_HTTPS" = Some (lit "true") -> https = true.
Proof.
  unfold force_https. intros E Hf. rewrite bool_decide_true in E by done. destruct https; [done|]. cbn [andb negb] in E.
  next E. destruct (match Config.b_redirect_host b with Some _ => _ | None => _ end); stopped E.
Qed.

Lemma head_next ss client uri s s' l u : check_head px w ss client uri s = (s', l, Next u) ->
  (Shield.check_headers (px_env px) (len (hm_iter (ss_headers ss)))
     (fold_left (fun n f => n + saturating_add usize_max (len f.1) (len f.2)) (hm_iter (ss_headers ss)) 0) uri client).1
    <> Shield.BlockHeaders
  /\ (Shield.check_host_authority (get_str (ss_headers ss) "Host") (ss_authority ss) uri client).1 <> Shield.BlockHost
  /\ forall hv, get_str (ss_headers ss) "Host" = Some hv -> (Shield.check_host (px_env px) hv uri client).1 <> Shield.BlockHost.
Proof.
  unfold check_head. intros E. next E. next E. apply gate_next in E0; [|apply stops_send]. apply gate_next in E1; [|apply stops_send].
  split; [done|]. split; [done|]. intros hv Hh. rewrite Hh in E. apply gate_next in E; [done|apply stops_send].
Qed.

Lemma protocols_next ss b policy client uri s s' l skip : apply_protocols px w ss b policy client uri s = (s', l, Next skip) ->
  exists verdict, Protocol.blocked_status verdict = None
    /\ verdict = Protocol.evaluate (Config.protocols (px_config px))
         {| Protocol.version := ss_version ss; Protocol.upgrade := get_str (ss_headers ss) "Upgrade";
            Protocol.content_encoding := get_str (ss_headers ss) "Content-Encoding";
            Protocol.content_type := get_str (ss_headers ss) "Content-Type";
            Protocol.require_complete := require_complete policy;
            Protocol.grpc_policy := bool_decide (is_Some (Config.b_grpc b)) |}
    /\ skip = Protocol.skips_body_waf verdict
         || bool_decide (is_Some (Config.b_grpc b)) && Grpc.is_grpc_content_type (get_str (ss_headers ss) "Content-Type").
Proof.
  unfold apply_protocols. intros E. next E. case_bool_decide as Hb; [stopped E|]. apply ret_next in E as (_ & _ & <-).
  eexists. split; [|split; reflexivity]. by apply eq_None_not_Some.
Qed.

Lemma waf_request_next ss b risk client uri s s' l u : apply_waf_request px w ss b risk client uri s = (s', l, Next u) ->
  (Waf.inspect_request_with_profile uri (waf_values (ss_headers ss)) client (Config.b_waf_profile b) (Config.b_site_scope b)).1 = Waf.WafAllow.
Proof.
  unfold apply_waf_request. destruct (Waf.inspect_request_with_profile _ _ _ _ _) as [verdict events]. intros E. next E.
  destruct verdict; [done|stopped E].
Qed.

(** The shield's checks of the request proper. *)
Lemma request_checks_next ss site client uri policy s s' l n : check_request px w ss site client uri policy s = (s', l, Next n) ->
  (Framing.check_framing (ss_raw ss) (get_str (ss_headers ss) "Transfer-Encoding") uri client site).1 <> Shield.BlockSmuggling
  /\ (Shield.check_user_agent (px_env px) (default [] (get_str (ss_headers ss) "User-Agent")) uri client site).1 <> Shield.BlockBadBot
  /\ (Shield.check_method (px_env px) (ss_method ss) uri client site).1 <> Shield.BlockMethod
  /\ (exists r, Shield.check_uri_length (px_env px) uri client site = Some r /\ r.1 <> Shield.BlockUriLength)
  /\ (forall n, get_str (ss_headers ss) "Content-Length" ≫= parse_uint usize_max = Some n ->
       n <= default (Shield.max_body_size (px_env px)) (max_decoded_body policy)).
Proof.
  unfold check_request. intros E. do 5 next E. apply gate_next in E0; [|apply stops_send]. apply gate_next in E1; [|apply stops_send].
  apply gate_next in E2; [|apply stops_bind_r; intros; apply stops_send]. apply gate_next in E4; [|apply stops_send].
  apply or_panic_next in E3 as (Hu & _ & _). repeat (split; [done|]). split; [eauto|]. intros m Hm. rewrite Hm in E.
  destruct (Z.ltb_spec (default (Shield.max_body_size (px_env px)) (max_decoded_body policy)) m); [stopped E|lia].
Qed.

(** *** The other stages leave it as it stands when they go on *)

Definition steady {A} (m : Stage Live A) : Prop := forall s s' l a, m s = (s', l, Next a) -> standing s' = standing s.

Lemma steady_keeps {A} (m : Stage Live A) : keeps standing m -> steady m.
Proof. intros Hm s s' l a E. apply (Hm _ _ _ _ E). Qed.
Lemma steady_stops {A} (m : Stage Live A) : stops m -> steady m.
Proof. intros Hm s s' l a E. by apply Hm in E. Qed.
Lemma steady_bind {A B} (m : Stage Live A) (k : A -> Stage Live B) : steady m -> (forall a, steady (k a)) -> steady (bind m k).
Proof. intros Hm Hk s s' l b (s1 & l1 & a & l2 & E1 & E2 & _)%bind_next. by rewrite (Hk _ _ _ _ _ E2), (Hm _ _ _ _ E1). Qed.

Lemma standing_on_slots {A} (f : _ -> _ -> _ * _ * A) : keeps standing (on_slots f).
Proof. apply keeps_operate. intros s. by destruct (f (concurrency s) (guard s)) as [[? ?] ?]. Qed.
Lemma standing_on_books {A} (f : _ -> _ * A) : keeps standing (on_books f).
Proof. apply keeps_operate. intros s. by destruct (f (books s)). Qed.
Lemma standing_on_requests {A} (f : _ -> _ -> _ * _ * A) : keeps standing (on_requests f).
Proof. apply keeps_operate. intros s. by destruct (f (requests s) (held s)) as [[? ?] ?]. Qed.
Lemma standing_on_spool {A} (f : _ -> _ -> _ * _ * A) : keeps standing (on_spool f).
Proof. apply keeps_operate. intros s. by destruct (f (spool s) (handle s)) as [[? ?] ?]. Qed.
Lemma standing_on_pools f : keeps standing (on_pools f).
Proof. intros s s' l x. unfold on_pools. destruct (f (pools s)); by intros [= <- _ _]. Qed.
#[local] Hint Resolve standing_on_slots standing_on_books standing_on_requests standing_on_spool standing_on_pools : stages.

Lemma read_spool_standing ctx max reads : keeps standing (read_spool w ctx max reads).
Proof. induction reads as [|[chunk io| |] reads IH]; cbn [read_spool]; unfold spool_refused; keeping ltac:(exact IH). Qed.
Lemma read_wire_standing ctx reads : forall buf, keeps standing (read_wire px w ctx buf reads).
Proof.
  induction reads as [|[chunk io| |] reads IH]; intros buf; cbn [read_wire]; [keeping idtac| |keeping idtac..].
  destruct (Budget.buffer_push chunk buf) as [buf' [|]]; [apply IH|keeping idtac].
Qed.
Lemma spooled_standing ctx io failed : keeps standing (spooled_bytes w ctx io failed).
Proof. unfold spooled_bytes, spool_refused. keeping idtac. Qed.
#[local] Hint Resolve read_spool_standing read_wire_standing spooled_standing : stages.

Lemma slot_standing client uri : keeps standing (take_slot w client uri).
Proof. unfold take_slot. keeping idtac. Qed.
Lemma check_head_standing ss client uri : keeps standing (check_head px w ss client uri).
Proof. unfold check_head. keeping idtac. Qed.
Lemma route_standing ss client uri : keeps standing (route_request px w ss client uri).
Proof. unfold route_request. keeping idtac. Qed.
Lemma force_https_standing b https client uri : keeps standing (force_https px w b https client uri).
Proof. unfold force_https. keeping idtac. Qed.
Lemma envelope_standing ctx method h : keeps standing (openapi_envelope w ctx method h).
Proof. unfold openapi_envelope. keeping idtac. Qed.
Lemma grpc_standing ctx method h : keeps standing (apply_grpc_headers w ctx method h).
Proof. unfold apply_grpc_headers, deny_grpc_parse, parse_error_stage, refuse_grpc. keeping idtac. Qed.

Lemma policies_standing ctx ss matched body : keeps standing (body_policies w ctx ss matched body).
Proof.
  unfold body_policies, openapi_body, apply_jwt_body, apply_graphql, apply_grpc_body, deny_grpc_parse, parse_error_stage, refuse_grpc,
    authz_stage, reject_jwt.
  keeping idtac.
Qed.

Lemma l1_steady ctx ss h body decoded : steady (l1_stage px w ctx ss h body decoded).
Proof.
  intros s s' l a E. unfold l1_stage in E. next E giving o Eo. apply or_panic_next in Eo as (Eo & -> & _).
  apply bind_next in E as (s1 & l1 & [] & ? & Em & E & _). apply mark_next in Em as [-> _].
  destruct (WafEngine.l1_answer o) eqn:Ea; [|stopped E]. destruct (WafEngine.l1_waf_block o) eqn:Eb.
  - apply (WafEngine.l1_refuses_iff _ _ _ _ _ _ _ _ _ _ _ _ _ _ _ Eo) in Eb as [reason Hr]. congruence.
  - next E. apply ret_next in E0 as (-> & _ & _). by apply ret_next in E as (-> & _ & _).
Qed.

Lemma waf_body_steady ctx wire : steady (apply_waf_body px w ctx wire).
Proof.
  unfold apply_waf_body. cbv zeta. destruct (Waf.inspect_body_limited _ _ _ _ _ _) as [waf events].
  apply steady_bind; [apply steady_keeps; keeping idtac|]. intros _.
  destruct (Waf.verdict waf); [destruct (disposition _ _)|]; cbv iota;
    first [apply steady_keeps; solve [keeping idtac]|apply steady_stops; unfold mark_outcome; solve [eauto 8 with stages]].
Qed.

Lemma waf_request_steady ss b risk client uri : steady (apply_waf_request px w ss b risk client uri).
Proof.
  unfold apply_waf_request. destruct (Waf.inspect_request_with_profile _ _ _ _ _) as [verdict events].
  apply steady_bind; [apply steady_keeps; keeping idtac|]. intros _.
  destruct verdict; [apply steady_keeps; keeping idtac|apply steady_stops; solve [eauto 8 with stages]].
Qed.

Lemma admit_body_steady ctx ss n matched : steady (admit_body px w ctx ss n matched).
Proof.
  assert (forall h body, steady (inspect_received px w ctx ss h matched body)) as Hi.
  { intros h body. assert (keeps standing (wire_of w ctx body)) as Hw by (unfold wire_of; keeping idtac).
    unfold inspect_received. destruct (negb _); [|destruct (policy_reads_body _ _)].
    - apply steady_bind; [by apply steady_keeps|]. intros wire. apply steady_bind; [apply waf_body_steady|]. intros inspected.
      destruct (body_shown _ _ _). apply steady_bind; [apply l1_steady|]. intros _. apply steady_keeps, policies_standing.
    - apply steady_bind; [by apply steady_keeps|]. intros wire. apply steady_keeps, policies_standing.
    - apply steady_keeps. unfold authz_stage. keeping idtac. }
  unfold admit_body. destruct (negb _).
  - apply steady_bind; [apply steady_keeps; unfold reserve_body; keeping idtac|]. intros _.
    apply steady_bind; [apply steady_keeps; unfold answer_expect; keeping idtac|]. intros h.
    apply steady_bind; [apply steady_keeps; unfold receive_body, announce_empty; keeping idtac|]. intros [h' body].
    apply steady_bind; [apply Hi|]. intros _. apply steady_keeps. unfold pass_body. keeping idtac.
  - apply steady_bind; [apply l1_steady|]. intros _.
    apply steady_bind; [apply steady_keeps, policies_standing|]. intros _. apply steady_keeps. keeping idtac.
Qed.

(** The four stages of [identify] and [admit_head] that judge the client, between others that leave it as it stands. *)
Lemma identify_next ss b client uri s s' l principal risk : identify px w ss b client uri s = (s', l, Next (principal, risk)) ->
  risk = risk_of px ss b principal client uri
  /\ match Config.b_jwt b with
     | None => principal = None /\ jwt s' = jwt s
     | Some (policy, _) => exists p,
         Jwt.authenticate policy (w_jwt w) (get_str (ss_headers ss) "Authorization") (w_unix_now w) (jwt s) = (jwt s', Ok p)
         /\ principal = Some p /\ Jwt.bind_path policy p (before 63 uri) (openapi_params b (before 63 uri)) = Ok tt
     end
  /\ match risk, Config.b_abuse b with
     | Some i, Some policy =>
         Abuse.inspect (w_abuse w) policy i (abuse_request ss (bool_decide (is_Some principal))) (abuse s) = (abuse s', Abuse.AbuseAllow)
     | _, _ => abuse s' = abuse s
     end
  /\ match risk with
     | Some i => exists ev,
         Behavioral.check_and_record (Behavioral.behavioral_config (px_env px)) (w_behavior_now w) (w_behavior w) i uri
           (get_str (ss_headers ss) "User-Agent") client (profiles s) = (profiles s', Behavioral.BAllow, ev)
     | None => profiles s' = profiles s
     end
  /\ limiter s' = limiter s.
Proof.
  unfold identify. intros E. next E giving pr Ej. next E giving u1 Ea. next E giving u2 Eb. apply ret_next in E as (-> & _ & [= <- <-]).
  apply jwt_identity_next in Ej as [Hj [= J1 J2 J3]]. apply abuse_next in Ea as [Ha [= A1 A2 A3]].
  apply behavioral_next in Eb as [Hb [= B1 B2 B3]].
  rewrite J1, <- B2 in Ha. rewrite A2, J2 in Hb. rewrite B1, A1, B3, A3, J3. done.
Qed.

Lemma admit_head_next ss b policy https client uri who s s' l ctx n :
  admit_head px w ss b policy https client uri who s = (s', l, Next (ctx, n)) ->
  (exists skip, ctx = {| request_uri := uri; client_addr := client; site_scope := Config.b_site_scope b; backend := b; inspection := policy;
      request_https := https; principal := who.1; risk_identity := who.2;
      request_content_type := get_str (ss_headers ss) "Content-Type";
      request_content_encoding := get_str (ss_headers ss) "Content-Encoding"; skip_body_waf := skip |}
    /\ exists s1 s2 l2, apply_protocols px w ss b policy client uri s1 = (s2, l2, Next skip))
  /\ (exists s1 l1, check_request px w ss (Config.b_site_scope b) client uri policy s = (s1, l1, Next n))
  /\ (exists s1 s2 l2 u, apply_waf_request px w ss b who.2 client uri s1 = (s2, l2, Next u))
  /\ match who.2 with
     | Some i => exists ev, RateLimit.check (w_rate w).1.1 (w_rate w).1.2 (w_rate w).2 i uri (limiter s) = (limiter s', true, ev)
     | None => limiter s' = limiter s
     end
  /\ (jwt s', abuse s', profiles s') = (jwt s, abuse s, profiles s).
Proof.
  destruct who as [pr risk]. unfold admit_head. intros E. next E giving n1 Ec. next E giving u1 Er. next E giving skip Ep. next E giving u2 Ew.
  apply ret_next in E as (-> & _ & [= <- <-]). cbn [fst snd]. split; [eexists; split; [done|eauto]|].
  assert (keeps standing (check_request px w ss (Config.b_site_scope b) client uri policy)) as K1 by (unfold check_request; keeping idtac).
  assert (keeps standing (apply_protocols px w ss b policy client uri)) as K2 by (unfold apply_protocols; keeping idtac).
  pose proof (K1 _ _ _ _ Ec) as [= C1 C2 C3 C4]. pose proof (K2 _ _ _ _ Ep) as [= P1 P2 P3 P4].
  pose proof (waf_request_steady _ _ _ _ _ _ _ _ _ Ew) as [= W1 W2 W3 W4].
  apply rate_next in Er as [Hr [= R1 R2 R3]]. split; [eauto|]. split; [eauto 10|].
  rewrite C4 in Hr. rewrite W4, P4. split; [done|]. congruence.
Qed.

Lemma filter_next ss s s' l a : request_filter px w ss s = (s', l, Next a) ->
  head_clean ss (a_ctx a) /\ identified ss (a_ctx a) s s'
  /\ (exists s1 s2 l1, openapi_envelope w (a_ctx a) (ss_method ss) (ss_headers ss) s1 = (s2, l1, Next (a_matched a)))
  /\ (exists s1 s2 l1, apply_grpc_headers w (a_ctx a) (ss_method ss) (ss_headers ss) s1 = (s2, l1, Next (a_grpc_timeout a)))
  /\ exists s1 l1 n, admit_body px w (a_ctx a) ss n (a_matched a) s1 = (s', l1, Next (a_head a, a_passage a)).
Proof.
  unfold request_filter. intros E. next E giving r0 Eroute. destruct (client_address px ss) as [client peer] eqn:Ec.
  next E giving r1 Eslot. next E giving r2 Ehead. next E giving r3 Esite. destruct r3 as [b policy]. next E giving r4 Ehttps.
  next E giving who Ewho. next E giving r5 Eadmit. destruct r5 as [ctx n]. next E giving matched Eenv. next E giving timeout Egrpc.
  next E giving r6 Ebody. destruct r6 as [h passage]. apply ret_next in E as (<- & _ & <-).
  cbn [a_ctx a_matched a_grpc_timeout a_head a_passage].
  apply or_panic_next in Eroute as (_ & -> & _).
  pose proof (slot_standing _ _ _ _ _ _ Eslot) as K1. pose proof (check_head_standing _ _ _ _ _ _ _ Ehead) as K2.
  pose proof (route_standing _ _ _ _ _ _ _ Esite) as K3. pose proof (force_https_standing _ _ _ _ _ _ _ _ Ehttps) as K4.
  pose proof (envelope_standing _ _ _ _ _ _ _ Eenv) as K7. pose proof (grpc_standing _ _ _ _ _ _ _ Egrpc) as K8.
  pose proof (admit_body_steady _ _ _ _ _ _ _ _ Ebody) as K9.
  assert (standing s4 = standing s) as [= S1 S2 S3 S4] by congruence. assert (standing s' = standing s6) as [= T1 T2 T3 T4] by congruence.
  apply head_next in Ehead as (Hh1 & Hh2 & Hh3). apply route_next in Esite as [Hr Hp]. pose proof (https_next _ _ _ _ _ _ _ _ Ehttps) as Hs.
  destruct who as [pr risk]. apply identify_next in Ewho as (-> & Hj & Ha & Hb & Hl).
  apply admit_head_next in Eadmit as ((skip & -> & (t1 & t2 & m2 & Eproto)) & (t3 & m3 & Echecks) & (t4 & t5 & m4 & u4 & Ewaf) & Hrate & [= U1 U2 U3]).
  apply request_checks_next in Echecks as (Hq1 & Hq2 & Hq3 & Hq4 & Hq5). apply protocols_next in Eproto as (v & Hv1 & Hv2 & Hv3).
  apply waf_request_next in Ewaf. cbn [fst snd] in Hrate.
  rewrite S1, <- U1, <- T1 in Hj. rewrite S2, <- U2, <- T2 in Ha. rewrite S3, <- U3, <- T3 in Hb. rewrite Hl, S4, <- T4 in Hrate.
  split; [constructor; cbn; try done; [exact (eq_sym (f_equal fst Ec))| |eauto]|].
  { intros Hf. apply https_over. rewrite Ec. exact (Hs Hf). }
  split; [constructor; cbn; done|]. split; [eauto|]. split; [eauto|]. eauto.
Qed.

(** C2. Complete mediation of the head: a request that goes on is for a site that is served; where HTTPS is required the client speaks TLS
    to the proxy, or a trusted peer says that its client does; and neither the shield, the protocol matrix nor the WAF objects to its head; it was matched by the OpenAPI contract in force unless the contract only
    observes. *)
Theorem forwarded_head_clean (ss : Session H) (s s' : Live) (l : list Mark) (a : Cleared) :
  request_filter px w ss s = (s', l, Next a) ->
  head_clean ss (a_ctx a)
  /\ forall detail, OpenApi.apply_openapi_envelope (Config.b_openapi (backend (a_ctx a))) (ss_method ss) (request_uri (a_ctx a))
       (Framing.request_header_pairs (ss_headers ss)) (request_content_type (a_ctx a)) (require_complete (inspection (a_ctx a)))
     <> OpenApi.StageRefused detail.
Proof.
  intros (Hh & _ & (s1 & s2 & l1 & Ho) & _)%filter_next. split; [done|]. intros detail Hr. unfold openapi_envelope in Ho.
  rewrite Hr in Ho. stopped Ho.
Qed.
(** *** Every client with an address has a risk identity *)

Lemma forwarded_ip_ok v ip : ClientIp.parse_forwarded_ip v = Some ip -> ip_ok ip.
Proof.
  unfold ClientIp.parse_forwarded_ip. destruct (parse_ip v) as [a|] eqn:E; [intros [= <-]; by apply (parse_ip_ok v)|].
  destruct (parse_socket_addr v) as [a|] eqn:Es; [|done]. intros [= <-]. by apply (IpText.parse_socket_ok v).
Qed.

Lemma forwarded_value_ok v ip : ClientIp.parse_forwarded_for_value v = Some ip -> ip_ok ip.
Proof.
  unfold ClientIp.parse_forwarded_for_value. set (value := match v with [] => v | _ => _ end). destruct (_ || _); [done|].
  assert (forall u, (match split_once 93 u with Some (inside, _) => parse_ip inside | None => None end) = Some ip -> ip_ok ip) as Hin.
  { intros u. destruct (split_once 93 u) as [[inside rest]|]; [|done]. apply parse_ip_ok. }
  repeat case_match; try apply forwarded_ip_ok; apply parse_ip_ok || done.
Qed.

Lemma forwarded_param_ok v ip : ClientIp.parse_forwarded_for_param v = Some ip -> ip_ok ip.
Proof.
  unfold ClientIp.parse_forwarded_for_param. induction (split_on 59 v) as [|p rest IH]; [done|].
  destruct (split_once 61 (trim p)) as [[name raw]|]; [|exact IH].
  destruct (negb _); [exact IH|]. apply forwarded_value_ok.
Qed.

Lemma walk_hops_ok trusted parse hops : (forall v ip, parse v = Some ip -> ip_ok ip) ->
  forall client, ip_ok client -> ip_ok (ClientIp.walk_hops trusted parse client hops).
Proof.
  intros Hp. induction hops as [|v hops IH]; intros client Hc; cbn; [done|]. destruct (negb _); [done|].
  destruct (parse v) eqn:E; [|done]. apply IH. by apply (Hp v).
Qed.

Lemma resolve_step_ok t xff fwd extra mode current source : ip_ok current ->
  ip_ok (ClientIp.resolve_step t xff fwd extra mode current source).
Proof.
  intros Hc. destruct source; cbn; try done.
  - destruct (bool_decide _); [|done]. unfold ClientIp.walk_forwarded. destruct (negb _); [done|]. destruct fwd; [|done].
    apply walk_hops_ok; [apply forwarded_param_ok|done].
  - unfold ClientIp.walk_xff. destruct (negb _); [done|]. destruct xff; [|done].
    apply walk_hops_ok; [intros v ip; apply forwarded_ip_ok|done].
  - destruct (ClientIp.trusted_contains t current); [|done]. destruct extra as [v|]; [|done]. cbn.
    destruct (ClientIp.parse_single_ip v) as [ip|] eqn:E; [|done]. by apply (forwarded_ip_ok (trim v)).
Qed.

Lemma resolve_sources_ok t peer xff fwd extra config ip : ip_ok peer ->
  ClientIp.resolve_sources t (Some peer) xff fwd extra config = Some ip -> ip_ok ip.
Proof.
  intros Hp. cbn. intros [= <-]. revert peer Hp. induction (ClientIp.order config) as [|source order IH]; intros peer Hp; cbn; [done|].
  by apply IH, resolve_step_ok.
Qed.

Lemma parse_addr_ok v ip : Framing.parse_addr_ip v = Some ip -> ip_ok ip.
Proof.
  unfold Framing.parse_addr_ip. destruct (parse_socket_addr v) as [a|] eqn:E; [|apply parse_ip_ok].
  intros [= <-]. by apply (IpText.parse_socket_ok v).
Qed.

Lemma parse_addr_shown ip : ip_ok ip -> is_Some (Framing.parse_addr_ip (IpText.show_ip ip)).
Proof. intros Hok. unfold Framing.parse_addr_ip. destruct (parse_socket_addr _); [done|]. by rewrite IpText.parse_shown_ip. Qed.

Lemma client_has_address ss socket ip : ss_socket ss = Some socket -> Framing.parse_addr_ip socket = Some ip ->
  is_Some (Framing.parse_addr_ip (client_address px ss).1).
Proof.
  intros Hs Hip. unfold client_address. rewrite Hs. cbn [default from_option id]. rewrite Hip. cbn [fst].
  destruct (ClientIp.resolve_sources _ _ _ _ _ _) as [c|] eqn:E; [|by rewrite Hip].
  apply parse_addr_shown. apply (resolve_sources_ok _ _ _ _ _ _ _ (parse_addr_ok _ _ Hip) E).
Qed.

(** C3. Complete mediation of identity.  A request of a client with an address, of which the filter decides on its own (nothing else
    runs between), goes on only if each component judged it once, on what it kept when the request came, and keeps what that judgement
    left: on a site with a JWT policy the policy authenticated the token and its claims match the path; the client has a risk identity;
    and with that identity the abuse policy of the site, the behaviour scores and the rate limiter let exactly this request pass. *)
Theorem forwarded_identified (ss : Session H) (s s' : Live) (l : list Mark) (a : Cleared) (socket : bytes) (ip : IpAddr) :
  request_filter px w ss s = (s', l, Next a) -> ss_socket ss = Some socket -> Framing.parse_addr_ip socket = Some ip ->
  identified ss (a_ctx a) s s' /\ is_Some (risk_identity (a_ctx a))
  /\ Config.resolve_host (px_config px) (default [] (get_str (ss_headers ss) "Host")) = Some (backend (a_ctx a))
  /\ request_uri (a_ctx a) = default (lit "/") (ss_path_and_query ss) /\ client_addr (a_ctx a) = (client_address px ss).1.
Proof.
  intros (Hh & Hi & _)%filter_next Hs Hip. split; [done|]. split; [|by destruct Hh].
  rewrite (id_risk _ _ _ _ Hi), (hc_client _ _ Hh). unfold risk_of.
  destruct (client_has_address ss socket ip Hs Hip) as [c Hc]. rewrite Hc. cbn [mbind option_bind]. by eexists.
Qed.
(** *** The body of a request that goes on *)

(** The chunks of a body read to its end. *)
Fixpoint body_of (reads : list BodyRead) : bytes :=
  match reads with BodyChunk chunk _ :: reads => chunk ++ body_of reads | _ => [] end.
Definition complete (reads : list BodyRead) : Prop := Forall (fun r => exists chunk io, r = BodyChunk chunk io) reads.
Definition received (ss : Session H) : bytes := if ss_body_empty ss then [] else body_of (ss_reads ss).

Lemma buffer_push_ok chunk buf buf' : Budget.buffer_push chunk buf = (buf', true) ->
  Budget.buf_bytes buf' = Budget.buf_bytes buf ++ chunk /\ Budget.buf_max buf' = Budget.buf_max buf
  /\ len (Budget.buf_bytes buf') <= Budget.buf_max buf.
Proof.
  unfold Budget.buffer_push, checked_add. destruct (_ <=? usize_max); [|done].
  destruct (Z.ltb_spec (Budget.buf_max buf) (len (Budget.buf_bytes buf) + len chunk)); intros [= <-]. cbn. rewrite len_app. auto.
Qed.

Lemma read_wire_next ctx reads : forall buf s s' l buf', read_wire px w ctx buf reads s = (s', l, Next buf') ->
  len (Budget.buf_bytes buf) <= Budget.buf_max buf ->
  complete reads /\ Budget.buf_bytes buf' = Budget.buf_bytes buf ++ body_of reads
  /\ len (Budget.buf_bytes buf') <= Budget.buf_max buf.
Proof.
  induction reads as [|[chunk io| |] reads IH]; intros buf s s' l buf'; cbn [read_wire body_of]; intros E Hl.
  - apply ret_next in E as (_ & _ & <-). rewrite app_nil_r. split; [constructor|done].
  - destruct (Budget.buffer_push chunk buf) as [b [|]] eqn:Eb; [|stopped E]. apply buffer_push_ok in Eb as (Hb & Hm & Hle).
    rewrite <- Hm in Hle. destruct (IH _ _ _ _ _ E Hle) as (Hc & Hb' & Hle'). rewrite Hb', Hb, app_assoc, <- Hm.
    rewrite Hb', Hb in Hle'. split; [constructor; eauto|]. done.
  - stopped E.
  - stopped E.
Qed.

(** The spool of the request holds [data], under its ceiling. *)
Definition spool_holds (max : Z) (data : bytes) (s : Live) : Prop := exists h, handle s = Some h /\ Spool.holds h data
  /\ Spool.h_max h = max /\ Spool.h_len h <= max.

Lemma read_spool_next ctx max max_body reads : forall data s s' l u, read_spool w ctx max_body reads s = (s', l, Next u) ->
  spool_holds max data s -> complete reads /\ spool_holds max (data ++ body_of reads) s'.
Proof.
  induction reads as [|[chunk io| |] reads IH]; intros data s s' l u; cbn [read_spool body_of]; intros E (h & Hh & Hd & Hm & Hl).
  - apply ret_next in E as (-> & _ & _). rewrite app_nil_r. split; [constructor|by exists h].
  - next E giving pushed Ep. next E giving r Er. apply or_panic_next in Er as (-> & -> & _).
    unfold on_spool in Ep. apply operate_next in Ep as [Ep _]. rewrite Hh in Ep.
    destruct (Spool.push io chunk (spool s) h) as [[rt1 h1] r1] eqn:Epush. injection Ep as <- ->.
    destruct r as [[]|e]; [|destruct e; stopped E]. apply (IH (data ++ chunk)) in E as [Hc Hs].
    + rewrite app_assoc. split; [constructor; eauto|done].
    + exists h1. split; [done|]. destruct (Spool.push_ceiling _ _ _ _ _ _ Epush) as [Hm1 Hl1].
      split; [by apply (Spool.push_holds io chunk (spool s) h rt1)|]. rewrite Hm1, Hm in *. auto.
  - stopped E.
  - stopped E.
Qed.

Lemma spooled_bytes_next ctx io failed max data s s' l body : spooled_bytes w ctx io failed s = (s', l, Next body) ->
  spool_holds max data s -> body = data /\ spool_holds max data s'.
Proof.
  unfold spooled_bytes. intros E (h & Hh & Hd & Hm & Hl). next E giving read Er. next E giving r Ep. apply or_panic_next in Ep as (-> & -> & _).
  unfold on_spool in Er. apply operate_next in Er as [Er _]. rewrite Hh in Er.
  destruct (Spool.inspect_bytes io h) as [h1 r1] eqn:Ei. injection Er as <- ->. destruct r as [b|e]; [|stopped E].
  apply ret_next in E as (-> & _ & <-). destruct (Spool.inspect_holds io h h1 data b Hd Ei) as [-> Hh1]. split; [done|].
  exists h1. split; [done|]. split; [done|]. unfold Spool.inspect_bytes in Ei. repeat case_match; injection Ei as <- _; done.
Qed.

Lemma spool_holds_resources max data s s' : resources s' = resources s -> spool_holds max data s -> spool_holds max data s'.
Proof. intros [= _ _ _ _ _ E] (h & Hh & Hd). exists h. rewrite E. done. Qed.

Lemma len_zero {A} (x : list A) : len x = 0 <-> x = [].
Proof. destruct x; cbn; [done|]. split; [|done]. unfold len. cbn. lia. Qed.

(** Where the body is once it was received. *)
Definition holds_body (ctx : FerroadaCtx) (ss : Session H) (body : Held) (s : Live) : Prop :=
  match body with
  | InBuffer data => data = received ss /\ (data = [] \/ ss_retry_buffer ss = Some data)
  | InSpool empty => exists max, max_decoded_body (inspection ctx) = Some max /\ spool_holds max (received ss) s
      /\ (empty = true <-> received ss = [])
  end.

Lemma holds_body_resources ctx ss body s s' : resources s' = resources s -> holds_body ctx ss body s -> holds_body ctx ss body s'.
Proof.
  intros E. destruct body as [data|empty]; cbn; [done|]. intros (max & Hm & Hs & He). exists max.
  split; [done|]. split; [by apply (spool_holds_resources _ _ s)|done].
Qed.

Lemma receive_next ctx ss h s s' l h' body : ceiling_ok (inspection ctx) -> ss_body_empty ss = false -> receive_body px w ctx ss h s = (s', l, Next (h', body)) ->
  complete (ss_reads ss) /\ holds_body ctx ss body s'
  /\ len (received ss) <= default (Shield.max_body_size (px_env px)) (max_decoded_body (inspection ctx)).
Proof.
  intros Hceil Hne. unfold receive_body, received. rewrite Hne. destruct (max_decoded_body (inspection ctx)) as [max_body|] eqn:Hmax; intros E.
  - next E giving u Enew. next E giving v Eread. next E giving empty Eempty. next E giving h1 Eh. apply ret_next in E as (-> & _ & [= <- <-]).
    destruct (read_spool_next ctx max_body max_body (ss_reads ss) [] _ _ _ _ Eread) as [Hc (hd & Hhd & Hd & Hm & Hl)].
    { unfold on_spool in Enew. apply operate_next in Enew as [[= <- _] _]. exists (Spool.handle_new max_body). cbn.
      repeat split; try done. specialize (Hceil _ Hmax). lia. }
    split; [done|]. cbn [app] in Hd. pose proof (proj1 Hd) as Hlen. unfold on_spool in Eempty. apply operate_next in Eempty as [Eempty _].
    rewrite Hhd in Eempty. injection Eempty as <- <-.
    assert (keeps resources (if Spool.h_len hd =? 0 then announce_empty h else ret h)) as Hk by keeping idtac. apply Hk in Eh.
    split; [|cbn; lia]. apply (holds_body_resources ctx ss _ _ _ Eh). exists max_body. split; [done|]. unfold received. rewrite Hne.
    split; [exact (ex_intro _ hd (conj eq_refl (conj Hd (conj Hm Hl))))|]. rewrite Hlen, Z.eqb_eq. apply len_zero.
  - next E giving buf Eread. destruct (read_wire_next _ _ _ _ _ _ _ Eread) as (Hc & Hb & Hl); [apply max_body_nonneg|].
    cbn [Budget.buffer_new Budget.buf_bytes Budget.buf_max app] in Hb, Hl. rewrite Hb in E, Hl. split; [done|]. split; [|exact Hl].
    unfold holds_body, received. rewrite Hne. destruct (is_empty _) eqn:Ee.
    + next E giving h1 Eh. apply ret_next in E as (_ & _ & [= _ <-]). split; [done|]. left. by apply is_empty_true.
    + case_bool_decide as Hr; [|stopped E]. apply ret_next in E as (_ & _ & [= _ <-]). auto.
Qed.
(** The policies that read the body have no objection to [body]. *)
Record policies_passed (ctx : FerroadaCtx) (ss : Session H) (matched : option OpenApi.MatchedOp) (body : bytes) : Prop := {
  pp_openapi : forall detail, OpenApi.apply_openapi_body matched (request_content_type ctx) body <> OpenApi.StageRefused detail;
  pp_jwt : forall policy st p, Config.b_jwt (backend ctx) = Some (policy, st) -> Jwt.has_body_bindings policy = true ->
    principal ctx = Some p -> Jwt.bind_body policy p body = Ok tt;
  pp_graphql : forall policy, Config.graphql_for (backend ctx) (request_uri ctx) = Some policy -> exists identity books books' verdict,
    Graphql.check policy books (w_graphql w).1 (w_graphql w).2 (ss_method ss) (request_uri ctx) (request_content_type ctx) body identity
      (site_scope ctx) = (books', Done verdict)
    /\ (verdict = Graphql.Skip \/ verdict = Graphql.Allow
        \/ verdict = Graphql.Deny Graphql.ParseError /\ disposition (inspection ctx) ParseError <> Deny);
  pp_grpc : forall policy, Config.b_grpc (backend ctx) = Some policy -> exists verdict,
    Grpc.check_body policy (ss_method ss) (request_uri ctx) (request_content_type ctx) body = Some verdict
    /\ ((forall failure, verdict <> Grpc.GDeny failure)
        \/ verdict = Grpc.GDeny Grpc.GrpcParseError /\ disposition (inspection ctx) ParseError <> Deny);
  pp_authz : (Authz.apply_authz (Config.authz_routes (backend ctx)) (fst <$> Config.b_jwt (backend ctx)) (principal ctx)
    (openapi_params (backend ctx) (event_path (request_uri ctx))) (w_authz w) (site_scope ctx) (client_addr ctx) (request_uri ctx)
    body).1 = Authz.Continue }.

Lemma authz_next ctx body s s' l u : authz_stage w ctx body s = (s', l, Next u) ->
  (Authz.apply_authz (Config.authz_routes (backend ctx)) (fst <$> Config.b_jwt (backend ctx)) (principal ctx)
    (openapi_params (backend ctx) (event_path (request_uri ctx))) (w_authz w) (site_scope ctx) (client_addr ctx) (request_uri ctx)
    body).1 = Authz.Continue.
Proof.
  unfold authz_stage. destruct (Authz.apply_authz _ _ _ _ _ _ _ _ _) as [reply events]. intros E. next E. destruct reply; [done|stopped E].
Qed.

Lemma parse_error_next ctx reason s s' l u : parse_error_stage w ctx reason s = (s', l, Next u) ->
  disposition (inspection ctx) ParseError <> Deny.
Proof. unfold parse_error_stage. destruct (disposition _ _); intros E; [done..|]. unfold mark_outcome in E. stopped E. Qed.

Lemma policies_next ctx ss matched body s s' l u : body_policies w ctx ss matched body s = (s', l, Next u) ->
  policies_passed ctx ss matched body.
Proof.
  unfold body_policies. intros E. next E giving u1 Eopen. next E giving u2 Ejwt. next E giving u3 Egql. next E giving u4 Egrpc.
  constructor; [..|by apply authz_next in E].
  - intros detail Hr. unfold openapi_body in Eopen. rewrite Hr in Eopen. stopped Eopen.
  - intros policy st p Hj Hb Hp. unfold apply_jwt_body in Ejwt. rewrite Hj, Hb, Hp in Ejwt. cbn [negb] in Ejwt.
    destruct (Jwt.bind_body policy p body) as [[]|failure]; [done|]. stopped Ejwt.
  - intros policy Hp. unfold apply_graphql in Egql. rewrite Hp in Egql. next Egql giving verdict Eg. apply on_books_next in Eg as [books' Eg].
    destruct verdict as [verdict|e|]; [|destruct e|by apply or_panic_next in Egql as (? & _)]. eexists _, _, books', verdict. split; [exact Eg|].
    destruct verdict as [| |[]]; [auto|auto|right; right; split; [done|by apply parse_error_next in Egql]|stopped Egql].
  - intros policy Hp. unfold apply_grpc_body in Egrpc. rewrite Hp in Egrpc. next Egrpc giving verdict Ev.
    apply or_panic_next in Ev as (Ev & _ & _). exists verdict. split; [done|].
    destruct verdict as [|t|[|rpc]]; [by left|by left|right; split; [done|by apply parse_error_next in Egrpc]|stopped Egrpc].
Qed.

(** The WAF read [body] and lets it pass. *)
Definition waf_passed (ctx : FerroadaCtx) (body : bytes) : Prop :=
  let inspected := Waf.inflate_for_inspect_limited body (request_content_encoding ctx)
    (default Waf.default_inflate_limit (max_decoded_body (inspection ctx))) in
  let waf := (Waf.inspect_body_limited (Waf.body_bytes inspected) (request_uri ctx) (client_addr ctx) (request_content_type ctx)
    (default Waf.default_inspect_text_limit (max_decoded_body (inspection ctx))) (site_scope ctx)).1 in
  Waf.verdict waf = Waf.WafAllow /\ disposition (inspection ctx) (combine (Waf.body_status inspected) (Waf.status waf)) <> Deny.

(** What the later checks are shown of [body]. *)
Definition shown_of (ctx : FerroadaCtx) (body : bytes) : bytes * bool :=
  body_shown ctx body (Waf.inflate_for_inspect_limited body (request_content_encoding ctx)
    (default Waf.default_inflate_limit (max_decoded_body (inspection ctx)))).

Lemma waf_body_next ctx wire s s' l inspected : apply_waf_body px w ctx wire s = (s', l, Next inspected) ->
  waf_passed ctx wire /\ body_shown ctx wire inspected = shown_of ctx wire.
Proof.
  unfold apply_waf_body, waf_passed, shown_of. cbv zeta. set (b := Waf.inflate_for_inspect_limited _ _ _).
  destruct (Waf.inspect_body_limited _ _ _ _ _ _) as [waf events]. cbn [fst]. intros E. next E.
  destruct (Waf.verdict waf) as [|reason]; [|unfold mark_outcome in E; stopped E].
  destruct (disposition _ _) eqn:Ed; [next E; apply ret_next in E as (_ & _ & <-); done..|unfold mark_outcome in E; stopped E].
Qed.

Lemma l1_next ctx ss h body decoded s s' l u : l1_stage px w ctx ss h body decoded s = (s', l, Next u) ->
  exists o, WafEngine.apply_l1 (px_engine px) (skip_body_waf ctx)
    (Some (Config.backend_l1_for (backend ctx) (request_uri ctx) (request_content_type ctx))) (inspection ctx) (ss_method ss)
    (http_version_token (ss_version ss)) (request_uri ctx) (client_addr ctx) (site_scope ctx) h (request_content_type ctx)
    body decoded (w_engine w) = Some o /\ WafEngine.l1_answer o = Authz.Continue.
Proof.
  unfold l1_stage. intros E. next E giving o Eo. apply or_panic_next in Eo as (Eo & _ & _). exists o. split; [done|]. next E. next E.
  destruct (WafEngine.l1_answer o); [done|stopped E].
Qed.
(** A policy that takes the resource from the path does not look at the body. *)
Lemma authz_ignores_body routes jwt who extra exchange site client uri body body' :
  (forall policy, Authz.authz_for routes uri = Some policy -> Authz.needs_body policy = false) ->
  Authz.apply_authz routes jwt who extra exchange site client uri body = Authz.apply_authz routes jwt who extra exchange site client uri body'.
Proof.
  intros Hn. unfold Authz.apply_authz. destruct (Authz.authz_for routes uri) as [policy|]; [|done]. specialize (Hn policy eq_refl).
  destruct who; [|done]. unfold Authz.needs_body, Authz.extract_resource in *. by destruct (Authz.resource policy).
Qed.

(** Nothing else reads the body: every policy passes, whatever it is. *)
Lemma unread_passes ctx ss matched body body' : policy_reads_body ctx matched = false ->
  (Authz.apply_authz (Config.authz_routes (backend ctx)) (fst <$> Config.b_jwt (backend ctx)) (principal ctx)
    (openapi_params (backend ctx) (event_path (request_uri ctx))) (w_authz w) (site_scope ctx) (client_addr ctx) (request_uri ctx)
    body').1 = Authz.Continue -> policies_passed ctx ss matched body.
Proof.
  unfold policy_reads_body. rewrite !orb_false_iff. intros ((((Hm & Hj) & Hg) & Hr) & Hz) Ha.
  apply bool_decide_eq_false in Hm, Hg, Hr. constructor.
  - destruct matched; [by destruct Hm|]. done.
  - intros policy st p Hp Hb. rewrite Hp in Hj. congruence.
  - intros policy Hp. destruct Hg. by rewrite Hp.
  - intros policy Hp. destruct Hr. by rewrite Hp.
  - rewrite <- Ha. f_equal. apply authz_ignores_body. intros policy Hp. unfold Config.backend_authz_for in Hz. by rewrite Hp in Hz.
Qed.

(** The engine has no objection to [body], shown under the head [h]. *)
Definition l1_passed (ctx : FerroadaCtx) (ss : Session H) (h : H) (body : bytes) (decoded : bool) : Prop :=
  exists o, WafEngine.apply_l1 (px_engine px) (skip_body_waf ctx)
    (Some (Config.backend_l1_for (backend ctx) (request_uri ctx) (request_content_type ctx))) (inspection ctx) (ss_method ss)
    (http_version_token (ss_version ss)) (request_uri ctx) (client_addr ctx) (site_scope ctx) h (request_content_type ctx)
    body decoded (w_engine w) = Some o /\ WafEngine.l1_answer o = Authz.Continue.

(** What was checked of the body. *)
Definition body_checked (ctx : FerroadaCtx) (ss : Session H) (matched : option OpenApi.MatchedOp) (h : H) : Prop :=
  let body := received ss in
  if ss_body_empty ss then l1_passed ctx ss h [] false /\ policies_passed ctx ss matched []
  else if skip_body_waf ctx then policies_passed ctx ss matched body
  else waf_passed ctx body /\ l1_passed ctx ss h (shown_of ctx body).1 (shown_of ctx body).2
       /\ policies_passed ctx ss matched (shown_of ctx body).1.

(** The body that is sent on: Pingora replays its own copy, a committed request sends the one given. *)
Definition sends (ss : Session H) (passage : Passage) : Prop :=
  match passage with
  | Committed sent => sent = received ss
  | Proxied => received ss = [] \/ ss_retry_buffer ss = Some (received ss)
  end.

Lemma wire_next ctx ss body s s' l wire : wire_of w ctx body s = (s', l, Next wire) -> holds_body ctx ss body s ->
  wire = received ss /\ holds_body ctx ss body s'.
Proof.
  destruct body as [data|empty]; cbn; intros E.
  - apply ret_next in E as (-> & _ & <-). intros [-> ?]. done.
  - intros (max & Hm & Hs & He). destruct (spooled_bytes_next _ _ _ _ _ _ _ _ _ E Hs) as [-> Hs']. eauto 10.
Qed.

Lemma inspect_next ctx ss h matched body s s' l u : inspect_received px w ctx ss h matched body s = (s', l, Next u) ->
  ss_body_empty ss = false -> holds_body ctx ss body s ->
  body_checked ctx ss matched h /\ holds_body ctx ss body s'.
Proof.
  unfold inspect_received, body_checked. intros E Hne Hb. rewrite Hne. destruct (skip_body_waf ctx) eqn:Hskip; cbn [negb] in E.
  - destruct (policy_reads_body ctx matched) eqn:Hr.
    + next E giving wire Ew. destruct (wire_next _ _ _ _ _ _ _ Ew Hb) as [-> Hb1]. split; [by apply policies_next in E|].
      apply (holds_body_resources _ _ _ s0); [|done]. by apply policies_resources in E.
    + split; [eapply unread_passes; [exact Hr|exact (authz_next _ _ _ _ _ _ E)]|].
      apply (holds_body_resources _ _ _ s); [|done]. by apply authz_resources in E.
  - next E giving wire Ew. destruct (wire_next _ _ _ _ _ _ _ Ew Hb) as [-> Hb1]. next E giving inspected Ei.
    destruct (waf_body_next _ _ _ _ _ _ Ei) as [Hw Hs]. rewrite Hs in E. destruct (shown_of ctx (received ss)) as [shown decoded].
    next E giving v El. split; [split; [done|]; split; [by apply l1_next in El|by apply policies_next in E]|].
    apply waf_body_resources in Ei. apply l1_resources in El. apply policies_resources in E.
    apply (holds_body_resources _ _ _ s0); [congruence|done].
Qed.

Lemma commit_sends ss h data : data = received ss -> (data = [] \/ ss_retry_buffer ss = Some data) -> sends ss (commit_point px h data).
Proof. intros -> Hr. unfold commit_point. destruct (_ && _); done. Qed.

Lemma pass_next ctx ss h body s s' l passage : pass_body px w ctx h body s = (s', l, Next passage) -> holds_body ctx ss body s ->
  sends ss passage.
Proof.
  destruct body as [data|empty]; cbn; [intros E [Hd Hr]; apply ret_next in E as (_ & _ & <-); by apply commit_sends|].
  intros E (max & Hm & Hs & He). destruct empty.
  - apply ret_next in E as (_ & _ & <-). apply commit_sends; [symmetry; by apply He|by left].
  - next E giving data Ed. destruct (spooled_bytes_next _ _ _ _ _ _ _ _ _ Ed Hs) as [-> _]. by apply ret_next in E as (_ & _ & <-).
Qed.

(** When the WAF and the rule engine do not read the body: the matrix of protocols has lines for the request and all of them only
    watch it or let it by, or it is gRPC of a site with a gRPC policy, which reads it instead. *)
Definition body_unread (ss : Session H) (ctx : FerroadaCtx) : Prop :=
  Protocol.skips_body_waf (Protocol.evaluate (Config.protocols (px_config px))
    {| Protocol.version := ss_version ss; Protocol.upgrade := get_str (ss_headers ss) "Upgrade";
       Protocol.content_encoding := get_str (ss_headers ss) "Content-Encoding"; Protocol.content_type := get_str (ss_headers ss) "Content-Type";
       Protocol.require_complete := require_complete (inspection ctx);
       Protocol.grpc_policy := bool_decide (is_Some (Config.b_grpc (backend ctx))) |}) = true
  \/ is_Some (Config.b_grpc (backend ctx)) /\ Grpc.is_grpc_content_type (get_str (ss_headers ss) "Content-Type") = true.

Lemma unread_iff ss ctx : head_clean ss ctx -> (skip_body_waf ctx = true <-> body_unread ss ctx).
Proof.
  intros Hh. destruct (hc_protocol _ _ Hh) as (verdict & _ & -> & Hs). rewrite Hs, (hc_type _ _ Hh), (hc_encoding _ _ Hh).
  unfold body_unread. by rewrite orb_true_iff, andb_true_iff, bool_decide_eq_true.
Qed.

(** C1. Complete mediation of the body: the body a request is sent with is the one that was received, whole and under the ceiling of its
    route.  The OpenAPI contract, the claims of the token, the GraphQL and gRPC policies and the authorization service let pass that body, or
    what it decodes to; so do the WAF (which may have read it in part where the route does not demand more) and the rule engine, except when
    the matrix of protocols only watches the protocol of the request or the request is gRPC of a site with a gRPC policy. *)
Theorem forwarded_body_inspected (ss : Session H) (s s' : Live) (l : list Mark) (a : Cleared) :
  request_filter px w ss s = (s', l, Next a) ->
  (ss_body_empty ss = false -> complete (ss_reads ss))
  /\ len (received ss) <= default (Shield.max_body_size (px_env px)) (max_decoded_body (inspection (a_ctx a)))
  /\ body_checked (a_ctx a) ss (a_matched a) (a_head a) /\ sends ss (a_passage a)
  /\ Config.resolve_host (px_config px) (default [] (get_str (ss_headers ss) "Host")) = Some (backend (a_ctx a))
  /\ (skip_body_waf (a_ctx a) = true <-> body_unread ss (a_ctx a)).
Proof.
  intros (Hh & _ & _ & _ & (s1 & l1 & n & E))%filter_next.
  pose proof (conj (hc_site _ _ Hh) (unread_iff _ _ Hh)) as Hun.
  assert (ceiling_ok (inspection (a_ctx a))) as Hc by apply (inspection_ceiling _ _ _ (hc_policy _ _ Hh)).
  unfold admit_body in E. unfold body_checked. destruct (ss_body_empty ss) eqn:He; cbn [negb] in E.
  - unfold received. rewrite He. next E giving u El. next E giving v Ep. apply ret_next in E as (_ & _ & [= <- Hp]).
    split; [done|]. split; [|split; [split; [by apply l1_next in El|by apply policies_next in Ep]|]].
    + change (len []) with 0. destruct (max_decoded_body _) as [m|] eqn:Em; cbn; [specialize (Hc m Em); lia|apply max_body_nonneg].
    + split; [|done]. rewrite <- Hp. apply commit_sends; [unfold received; by rewrite He|by left].
  - next E giving u Er. next E giving h1 Eh. next E giving r Ebody. destruct r as [h body]. next E giving v Ei. next E giving passage Ep.
    apply ret_next in E as (_ & _ & [= <- <-]). destruct (receive_next _ _ _ _ _ _ _ _ Hc He Ebody) as (Hcomp & Hb & Hlen).
    destruct (inspect_next _ _ _ _ _ _ _ _ _ Ei He Hb) as [Hchk Hb']. unfold body_checked in Hchk. rewrite He in Hchk.
    split; [done|]. split; [done|]. split; [done|]. split; [by apply (pass_next _ _ _ _ _ _ _ _ Ep)|done].
Qed.
(** *** Who is not identified is not counted *)

(** The single-use tokens seen, and what counts against a client. *)
Definition ledger (s : Live) := (jwt s, charges s).

Lemma ledger_on_slots {A} (f : _ -> _ -> _ * _ * A) : keeps ledger (on_slots f).
Proof. apply keeps_operate. intros s. by destruct (f (concurrency s) (guard s)) as [[? ?] ?]. Qed.
Lemma ledger_on_pools f : keeps ledger (on_pools f).
Proof. intros s s' l x. unfold on_pools. destruct (f (pools s)); by intros [= <- _ _]. Qed.
#[local] Hint Resolve ledger_on_slots ledger_on_pools : stages.

(** A stage that keeps [f] and establishes [F] by going on. *)
Lemma leads_ledger {X} (f : Live -> X) s0 (Q : Live -> Prop) {A} (F : A -> Prop) (m : Stage Live A) :
  keeps f m -> (forall s, f s = f s0 -> Q s) -> (forall s s' l a, m s = (s', l, Next a) -> F a) ->
  leads (fun s => f s = f s0) (fun a s => f s = f s0 /\ F a) Q m.
Proof.
  intros Hm HQ HF s s' l x Hs E. assert (f s' = f s0) by (rewrite <- Hs; apply (Hm _ _ _ _ E)).
  destruct x; eauto.
Qed.

Lemma refused_identity ss b policy st0 client uri s0 : Config.b_jwt b = Some (policy, st0) ->
  (forall p, (Jwt.authenticate policy (w_jwt w) (get_str (ss_headers ss) "Authorization") (w_unix_now w) (jwt s0)).2 = Ok p ->
     Jwt.bind_path policy p (before 63 uri) (openapi_params b (before 63 uri)) <> Ok tt) ->
  leads (fun s => ledger s = ledger s0) (fun _ _ => False) (fun s => charges s = charges s0) (identify px w ss b client uri).
Proof.
  intros Hj Hrefused. apply (leads_bind _ _ (fun _ _ => False)); [|by intros a s s' l x []].
  intros s s' l x Hs E. assert (charges s' = charges s) as Hc.
  { assert (keeps charges (apply_jwt_identity w ss b client uri)) as Hk; [|by apply Hk in E].
    unfold apply_jwt_identity, reject_jwt. keeping idtac. }
  assert (jwt s = jwt s0 /\ charges s = charges s0) as [Hjwt Hs1] by (split; [exact (f_equal fst Hs)|exact (f_equal snd Hs)]). rewrite Hs1 in Hc. destruct x as [who|reply| |]; [|done..].
  unfold apply_jwt_identity in E. rewrite Hj in E. next E giving outcome Eo. unfold on_jwt in Eo. apply operate_next in Eo as [Eo _].
  rewrite Hjwt in Eo. destruct (Jwt.authenticate _ _ _ _ _) as [j o]. injection Eo as _ ->. destruct outcome as [p|failure]; [|stopped E].
  specialize (Hrefused p eq_refl). destruct (Jwt.bind_path _ _ _ _) as [[]|failure]; [done|stopped E].
Qed.

(** C4. A request whose token the site refuses (or whose claims do not match the path) is stopped before it is counted: neither the abuse
    counters, the behaviour scores, the rate limiter nor the GraphQL quotas change, so a forged identity spends nobody's quota. *)
Theorem unidentified_not_counted (ss : Session H) (s s' : Live) (l : list Mark) (outcome : Flow Cleared) (b : @Config.Backend D DB)
    (policy : Jwt.JwtPolicy) (st0 : Jwt.JwtState) :
  Config.resolve_host (px_config px) (default [] (get_str (ss_headers ss) "Host")) = Some b -> Config.b_jwt b = Some (policy, st0) ->
  (forall p, (Jwt.authenticate policy (w_jwt w) (get_str (ss_headers ss) "Authorization") (w_unix_now w) (jwt s)).2 = Ok p ->
     let path := before 63 (default (lit "/") (ss_path_and_query ss)) in Jwt.bind_path policy p path (openapi_params b path) <> Ok tt) ->
  request_filter px w ss s = (s', l, outcome) ->
  (forall a, outcome <> Next a) /\ charges s' = charges s.
Proof.
  intros Hb Hj Hrefused E.
  assert (leads (fun s1 => ledger s1 = ledger s) (fun (_ : Cleared) _ => False) (fun s1 => charges s1 = charges s) (request_filter px w ss)) as Hl.
  2: { specialize (Hl s s' l outcome eq_refl E). by destruct outcome. }
  assert (forall s1, ledger s1 = ledger s -> charges s1 = charges s) as HQ by (intros s1 Hs1; exact (f_equal snd Hs1)).
  unfold request_filter. destruct (client_address px ss) as [client peer].
  do 3 (eapply leads_bind;
    [apply (leads_ledger ledger s _ (fun _ => True)); [unfold take_slot, check_head; keeping idtac|done|done]
    |intros ?; apply leads_given; intros _]).
  eapply leads_bind; [apply (leads_ledger ledger s _ (fun r => r.1 = b))|].
  - unfold route_request. keeping idtac.
  - done.
  - intros s1 s2 l1 [b' pol] Er. apply route_next in Er as [Hr _]. cbn in *. congruence.
  - intros [b' pol]. apply leads_given. cbn [fst]. intros ->.
    eapply leads_bind; [apply (leads_ledger ledger s _ (fun _ => True)); [unfold force_https; keeping idtac|done|done]|].
    intros []. apply leads_given. intros _. eapply leads_bind; [by apply (refused_identity ss b policy st0)|]. by intros ? s1 s2 l1 x [].
Qed.
End Stages.

(** ** Evaluations *)

Section evaluations.
Definition shout : Graphql.Sha256 := {| Graphql.sha256 b := b |}.
Definition count_names : Abuse.NameHash := {| Abuse.hash_names l := len l |}.
Definition no_inflate : Waf.Inflate := {| Waf.gzip_reads _ := [Waf.RError]; Waf.deflate_reads _ := [Waf.RError] |}.
Let HM := assoc_headers.
Let SJ := Json.no_json.
Let UC := Shield.ascii_case.
Let SH := Jwt.demo_hash.
Let JT := Jwks.plain_text.
Let JX := Jwt.demo_text.
Let JC := Jwt.demo_crypto.
Let MJ := Window.canonical_order Z Z.
Let FT := Behavioral.no_f32_text.
Let MB := Window.canonical_order Behavioral.BehaviorKey Behavioral.IpProfile.
Let MR := Window.canonical_order RateLimit.RateKey (list Instant).
Let RX := Waf.literal_regexes.
Let INF := no_inflate.
Let JN := Schema.plain_numbers.
Let ET := WafEngine.deny_text.
Let AT := Authz.allow_text.
Let S256 := shout.
Let NH := count_names.
Let D := Grpc.demo_descriptors.
Let DB := Abuse.no_mmdb.
#[local] Existing Instances HM SJ UC SH JT JX JC MJ FT MB MR RX INF JN ET AT S256 NH D DB.

(** The proxy of the two demonstration sites, with no variable set. *)
Definition demo_proxy : FerroadaProxy := {|
  px_config := Config.demo_config; px_version := lit "v1"; px_trusted := {| ClientIp.networks := [] |};
  px_client_ip := ClientIp.default_config; px_proxy_protocol := false; px_dlp_action := Dlp.DBlock;
  px_origin_secret := Upstream.default_origin_secret;
  px_engine := WafEngine.native; px_extra_retries := 0; px_env := fun _ => None |}.
Definition calm : World := {|
  w_jwt := Jwt.demo_world; w_unix_now := 0; w_abuse := fun _ => 0; w_random := None; w_behavior_now := 0;
  w_behavior := fun _ _ => 0; w_block := fun _ _ => 0; w_rate := (0, 0, 0); w_graphql := (0, 0);
  w_engine := fun _ => WafEngine.silent; w_authz := fun _ _ => WafEngine.silent; w_spool_read := true; w_spool_replay := true;
  w_probe := fun _ => true; w_writes := true |}.
Definition fresh : Live :=
  MkLive (Budget.concurrency_from_env (fun _ => None)) false Jwt.demo_state Abuse.engine_new Behavioral.empty_profiles
    (RateLimit.new 10 60 100) ∅ {| Budget.current := 0; Budget.budget_max := 67108864 |} (Budget.idle 0)
    {| Spool.rt_dir := Some (lit "/spool"); Spool.rt_bytes := {| Budget.current := 0; Budget.budget_max := 67108864 |};
       Spool.rt_files := {| Budget.current := 0; Budget.budget_max := 4 |}; Spool.rt_seq := 1; Spool.rt_disk := [] |}
    None {| Origin.version := []; Origin.sites := ∅ |}.
Definition disk : Spool.PushIo :=
  {| Spool.io_pid := 1; Spool.io_nanos := 2; Spool.io_open := true; Spool.io_first := Spool.WDone; Spool.io_second := Spool.WDone |}.

(** A body sent in two chunks, under the route that spools it or elsewhere. *)
Definition post (target : string) (chunks : list string) : Session (list (bytes * bytes)) := {|
  ss_method := lit "POST"; ss_path := lit target; ss_path_and_query := Some (lit target); ss_authority := None;
  ss_version := Protocol.HTTP_11;
  ss_headers := [(lit "Host", lit "app.example"); (lit "User-Agent", lit "Mozilla/5.0"); (lit "Content-Type", lit "text/plain")];
  ss_raw := lit "POST"; ss_socket := Some (lit "192.0.2.7:5000"); ss_tls := false; ss_tls_fingerprint := None;
  ss_body_empty := false; ss_reads := map (fun c => BodyChunk (lit c) disk) chunks;
  ss_retry_buffer := Some (flat_map lit chunks) |}.

Definition run (ss : Session (list (bytes * bytes))) := request_filter demo_proxy calm ss fresh.

(** What a request leaves, when it goes on. *)
Lemma goes_on {S A} (r : S * list Mark * Flow A) : (if r.2 is Next _ then true else false) = true ->
  exists a, r = (r.1.1, r.1.2, Next a).
Proof. destruct r as [[s l] [a|reply| |]]; try done. by eexists. Qed.

Lemma request_leaves_nothing_witness :
  Spool.rt_files (spool (settle (run (post "/api/x" ["hello "; "world"])).1.1)) = {| Budget.current := 0; Budget.budget_max := 4 |}.
Proof.
  apply (request_leaves_nothing demo_proxy calm (post "/api/x" ["hello "; "world"]) fresh
           (run (post "/api/x" ["hello "; "world"])).1.1 (run (post "/api/x" ["hello "; "world"])).1.2
           (run (post "/api/x" ["hello "; "world"])).2).
  - constructor; try reflexivity; vm_compute; repeat split; congruence.
  - vm_compute. reflexivity.
Defined.

Lemma forwarded_head_clean_witness : exists a, (run (post "/x" ["hello "; "world"])).2 = Next a
  /\ Config.resolve_host Config.demo_config (lit "app.example") = Some (backend (a_ctx a)).
Proof.
  destruct (goes_on (run (post "/x" ["hello "; "world"])) ltac:(vm_compute; reflexivity)) as [a E].
  exists a. split; [by rewrite E|].
  exact (hc_site _ _ _ (proj1 (forwarded_head_clean demo_proxy calm (post "/x" ["hello "; "world"]) fresh _ _ a E))).
Defined.

Lemma forwarded_identified_witness : exists a, (run (post "/x" ["hello "; "world"])).2 = Next a
  /\ is_Some (risk_identity (a_ctx a)).
Proof.
  destruct (goes_on (run (post "/x" ["hello "; "world"])) ltac:(vm_compute; reflexivity)) as [a E].
  exists a. split; [by rewrite E|].
  exact (proj1 (proj2 (forwarded_identified demo_proxy calm (post "/x" ["hello "; "world"]) fresh _ _ a (lit "192.0.2.7:5000")
    (V4 3221225991) E eq_refl ltac:(vm_compute; reflexivity)))).
Defined.

Lemma forwarded_body_inspected_witness : exists a, (run (post "/api/x" ["hello "; "world"])).2 = Next a
  /\ sends (post "/api/x" ["hello "; "world"]) (a_passage a).
Proof.
  destruct (goes_on (run (post "/api/x" ["hello "; "world"])) ltac:(vm_compute; reflexivity)) as [a E].
  exists a. split; [by rewrite E|].
  exact (proj1 (proj2 (proj2 (proj2 (forwarded_body_inspected demo_proxy calm (post "/api/x" ["hello "; "world"]) fresh _ _ a E))))).
Defined.

(** The same proxy before a site that asks for a token. *)
Definition with_jwt (b : @Config.Backend D DB) : @Config.Backend D DB := {|
  Config.b_addr := Config.b_addr b; Config.b_host := Config.b_host b; Config.b_site_scope := Config.b_site_scope b;
  Config.b_redirect_host := Config.b_redirect_host b; Config.b_tls := Config.b_tls b; Config.b_origins := Config.b_origins b;
  Config.b_health_path := Config.b_health_path b; Config.b_origin_mtls := Config.b_origin_mtls b;
  Config.b_waf_profile := Config.b_waf_profile b; Config.b_routes := Config.b_routes b; Config.b_l1 := Config.b_l1 b;
  Config.b_openapi := Config.b_openapi b; Config.b_jwt := Some (Jwt.demo_policy, Jwt.demo_state); Config.b_graphql := Config.b_graphql b;
  Config.b_grpc := Config.b_grpc b; Config.b_dlp_fields := Config.b_dlp_fields b; Config.b_abuse := Config.b_abuse b |}.
Definition guarded_proxy : FerroadaProxy := {|
  px_config := {| Config.route_table := Config.route_table Config.demo_config; Config.backends := map with_jwt (Config.backends Config.demo_config);
                  Config.default_idx := None; Config.protocols := Config.protocols Config.demo_config |};
  px_version := lit "v1"; px_trusted := {| ClientIp.networks := [] |}; px_client_ip := ClientIp.default_config;
  px_proxy_protocol := false; px_dlp_action := Dlp.DBlock; px_origin_secret := Upstream.default_origin_secret;
  px_engine := WafEngine.native; px_extra_retries := 0; px_env := fun _ => None |}.

Lemma unidentified_not_counted_witness :
  charges (request_filter guarded_proxy calm (post "/x" ["hello"]) fresh).1.1 = charges fresh.
Proof.
  assert (Config.b_jwt <$> Config.resolve_host (px_config guarded_proxy) (lit "app.example") = Some (Some (Jwt.demo_policy, Jwt.demo_state)))
    as Hr by (vm_compute; reflexivity).
  destruct (Config.resolve_host (px_config guarded_proxy) (lit "app.example")) as [b|] eqn:Hb; [|discriminate Hr]. injection Hr as Hj.
  destruct (request_filter guarded_proxy calm (post "/x" ["hello"]) fresh) as [[s' l] outcome] eqn:E.
  refine (proj2 (unidentified_not_counted guarded_proxy calm (post "/x" ["hello"]) fresh s' l outcome b Jwt.demo_policy Jwt.demo_state
    Hb Hj _ E)).
  intros p Hp. exfalso. revert Hp. vm_compute. discriminate.
Defined.

(** What stops a request: a layered path traversal, a path the WAF knows, a method, a host no site names. *)
Example refusals_of_the_filter :
  let status r := match r.2 with Answer r => Some (rp_status r) | _ => None end in
  status (run (post "/x?f=%2e%2e%2f" ["hello"])) = Some 403
  /\ status (run (post "/.env" ["hello"])) = Some 403
  /\ status (request_filter demo_proxy calm {| ss_method := lit "TRACE"; ss_path := lit "/x"; ss_path_and_query := None; ss_authority := None;
       ss_version := Protocol.HTTP_11; ss_headers := [(lit "Host", lit "app.example"); (lit "User-Agent", lit "Mozilla/5.0")];
       ss_raw := []; ss_socket := None; ss_tls := false; ss_tls_fingerprint := None; ss_body_empty := true; ss_reads := [];
       ss_retry_buffer := None |} fresh) = Some 405
  /\ status (request_filter demo_proxy calm {| ss_method := lit "GET"; ss_path := lit "/x"; ss_path_and_query := None; ss_authority := None;
       ss_version := Protocol.HTTP_11; ss_headers := [(lit "Host", lit "other.example")]; ss_raw := []; ss_socket := None; ss_tls := false;
       ss_tls_fingerprint := None; ss_body_empty := true; ss_reads := []; ss_retry_buffer := None |} fresh) = Some 421.
Proof. vm_compute. repeat split. Qed.
End evaluations.
