(* ===== verification/Headers.v ===== *)
(** * Response headers ([src/headers.rs])

    The headers removed from the answers of origins and the ones set on them, against the interface of header maps. *)

From S2P Require Import Prelude Http.

(** [src/headers.rs: const STRIP_HEADERS] *)
Definition STRIP_HEADERS : list bytes := map lit ["Server"; "X-Powered-By"; "X-AspNet-Version"; "X-Debug-Token"; "X-Runtime"].

Section Headers.
Context {H : Type} {HM : HeaderMap H}.
Implicit Types (h : H).

(** [src/headers.rs: fn strip_server_headers] *)
Definition strip_server_headers h : H := remove_all STRIP_HEADERS h.

(** [let _ = resp.insert_header(n, v)] *)
Definition put (n v : bytes) h : H := default h (insert_header n v h).

(** [src/headers.rs: fn apply_security_headers] *)
Definition apply_security_headers (env : Env) h : H :=
  if negb match env "SECURITY_HEADERS" with Some v => negb (v =s "false") | None => true end then h
  else
    let h := put "X-Content-Type-Options" "nosniff" h in
    let h := put "X-XSS-Protection" "0" h in
    let h := put "Referrer-Policy" "strict-origin-when-cross-origin" h in
    let h := put "X-Permitted-Cross-Domain-Policies" "none" h in
    let force_https := match env "FORCE_HTTPS" with Some v => v =s "true" | None => false end in
    let h := if force_https then put "Strict-Transport-Security" "max-age=31536000; includeSubDomains" h else h in
    let frame_options := default (lit "SAMEORIGIN") (env "FRAME_OPTIONS") in
    let h := if negb (eq_ignore_ascii_case frame_options "off") && negb (is_empty (trim frame_options))
             then put "X-Frame-Options" (trim frame_options) h else h in
    let h := match env "PERMISSIONS_POLICY" with
             | Some policy => if negb (is_empty policy) then put "Permissions-Policy" policy h else h
             | None => h
             end in
    match env "CSP_POLICY" with
    | Some csp => if negb (is_empty csp) then put "Content-Security-Policy" csp h else h
    | None => h
    end.

(** ** What a decorated answer carries *)

(** The fields the environment asks for. *)
Definition security_fields (env : Env) : list (bytes * bytes) :=
  if negb match env "SECURITY_HEADERS" with Some v => negb (v =s "false") | None => true end then []
  else
    [(lit "X-Content-Type-Options", lit "nosniff"); (lit "X-XSS-Protection", lit "0");
     (lit "Referrer-Policy", lit "strict-origin-when-cross-origin"); (lit "X-Permitted-Cross-Domain-Policies", lit "none")]
    ++ (if match env "FORCE_HTTPS" with Some v => v =s "true" | None => false end
        then [(lit "Strict-Transport-Security", lit "max-age=31536000; includeSubDomains")] else [])
    ++ (let frame_options := default (lit "SAMEORIGIN") (env "FRAME_OPTIONS") in
        if negb (eq_ignore_ascii_case frame_options "off") && negb (is_empty (trim frame_options))
        then [(lit "X-Frame-Options", trim frame_options)] else [])
    ++ match env "PERMISSIONS_POLICY" with
       | Some policy => if negb (is_empty policy) then [(lit "Permissions-Policy", policy)] else []
       | None => []
       end
    ++ match env "CSP_POLICY" with
       | Some csp => if negb (is_empty csp) then [(lit "Content-Security-Policy", csp)] else []
       | None => []
       end.

Definition put_all (fields : list (bytes * bytes)) h : H := fold_left (fun h f => put f.1 f.2 h) fields h.

Lemma put_all_app a b h : put_all (a ++ b) h = put_all b (put_all a h).
Proof. apply fold_left_app. Qed.

Lemma security_put_all env h : apply_security_headers env h = put_all (security_fields env) h.
Proof.
  unfold apply_security_headers, security_fields. destruct (negb _); [done|]. rewrite !put_all_app. cbn zeta.
  destruct (match env "FORCE_HTTPS" with Some v => _ | None => _ end), (_ && _), (env "PERMISSIONS_POLICY") as [p|],
    (env "CSP_POLICY") as [c|]; try destruct (negb (is_empty p)); try destruct (negb (is_empty c)); reflexivity.
Qed.

Lemma get_all_put n v h m :
  get_all (put n v h) m = if eq_ignore_ascii_case n m && accepts n v then [v] else get_all h m.
Proof.
  unfold put. destruct (insert_header n v h) as [h'|] eqn:E; cbn [default from_option id].
  - rewrite (get_all_insert n v h h' m E). destruct (eq_ignore_ascii_case n m); [|done].
    assert (accepts n v = true) as -> by (apply (insert_accepts n v h); by eexists). done.
  - assert (accepts n v = false) as ->; [|by rewrite andb_false_r].
    apply not_true_is_false. rewrite <- (insert_accepts n v h), E. by intros [? ?].
Qed.

(** The last field of a name, among those a header map takes. *)
Definition last_set (fields : list (bytes * bytes)) (m : bytes) : option bytes :=
  snd <$> find (fun f => eq_ignore_ascii_case f.1 m && accepts f.1 f.2) (rev fields).

Lemma get_all_put_all fields h m :
  get_all (put_all fields h) m = match last_set fields m with Some v => [v] | None => get_all h m end.
Proof.
  induction fields as [|f fields IH] using rev_ind; [done|].
  rewrite put_all_app. unfold last_set in *. rewrite rev_app_distr. cbn [put_all fold_left rev app find]. rewrite get_all_put.
  destruct (_ && _); [done|]. exact IH.
Qed.

(** What a header of a decorated answer says: nothing of the server, the value the environment asks for, or what the origin sent. *)
Lemma decorated_values env h m :
  get_all (apply_security_headers env (strip_server_headers h)) m
  = match last_set (security_fields env) m with
    | Some v => [v]
    | None => if existsb (fun n => eq_ignore_ascii_case n m) STRIP_HEADERS then [] else get_all h m
    end.
Proof. rewrite security_put_all, get_all_put_all. unfold strip_server_headers. by rewrite get_all_remove_all. Qed.

(** The names that may be set, in order. *)
Definition SECURITY_NAMES : list bytes :=
  map lit ["X-Content-Type-Options"; "X-XSS-Protection"; "Referrer-Policy"; "X-Permitted-Cross-Domain-Policies";
           "Strict-Transport-Security"; "X-Frame-Options"; "Permissions-Policy"; "Content-Security-Policy"].

Lemma security_names env : sublist (map fst (security_fields env)) SECURITY_NAMES.
Proof.
  unfold security_fields. destruct (negb _); [apply sublist_nil_l|]. cbn zeta.
  destruct (match env "FORCE_HTTPS" with Some v => _ | None => _ end), (_ && _), (env "PERMISSIONS_POLICY") as [p|],
    (env "CSP_POLICY") as [c|]; try destruct (negb (is_empty p)); try destruct (negb (is_empty c));
    cbn [map fst app]; unfold SECURITY_NAMES; cbn [map];
    repeat first [apply sublist_skip | apply sublist_cons | apply sublist_nil].
Qed.

Lemma last_set_named env m v : last_set (security_fields env) m = Some v -> existsb (fun n => eq_ignore_ascii_case n m) SECURITY_NAMES = true.
Proof.
  unfold last_set. destruct (find _ _) as [f|] eqn:E; [|done]. intros _. apply find_some in E as [Hf Hn].
  apply andb_true_iff in Hn as [Hn _]. rewrite <- in_rev in Hf. apply existsb_exists. exists f.1. split; [|done].
  apply list_elem_of_In, (elem_of_sublist (map fst (security_fields env))); [|apply security_names]. by apply list_elem_of_In, in_map.
Qed.

(** No field that is set names the server. *)
Lemma security_not_stripped env n : n ∈ STRIP_HEADERS -> last_set (security_fields env) n = None.
Proof.
  intros Hn. destruct (last_set _ n) as [v|] eqn:E; [|done]. apply last_set_named in E. exfalso. revert E.
  assert (forallb (fun b => negb (existsb (fun a => eq_ignore_ascii_case a b) SECURITY_NAMES)) STRIP_HEADERS = true) as Hall
    by (vm_compute; reflexivity).
  rewrite forallb_forall in Hall. specialize (Hall n). rewrite list_elem_of_In in Hn. by destruct (existsb _ _); [specialize (Hall Hn)|].
Qed.

Lemma last_set_distinct fields n v : NoDup (map (fun f => to_ascii_lowercase f.1) fields) -> (n, v) ∈ fields -> accepts n v = true ->
  last_set fields n = Some v.
Proof.
  intros Hd Hin Ha. unfold last_set. induction fields as [|f fields IH] using rev_ind; [by apply not_elem_of_nil in Hin|].
  rewrite map_app in Hd. apply NoDup_app in Hd as (Hd & Hx & _). rewrite rev_app_distr. cbn [rev app find].
  apply elem_of_app in Hin as [Hin|Hin%list_elem_of_singleton].
  - destruct (eq_ignore_ascii_case f.1 n) eqn:E; cbn [andb]; [|by apply IH]. exfalso. apply eq_ignore_true in E.
    apply (Hx (to_ascii_lowercase n)).
    + apply list_elem_of_fmap. by exists (n, v).
    + cbn. rewrite E. by apply list_elem_of_singleton.
  - subst f. cbn [fst snd]. by rewrite eq_ignore_refl, Ha.
Qed.

Lemma security_distinct env : NoDup (map (fun f => to_ascii_lowercase f.1) (security_fields env)).
Proof.
  rewrite <- (map_map fst to_ascii_lowercase). eapply sublist_NoDup; [|apply (fmap_sublist to_ascii_lowercase), security_names].
  apply (bool_decide_unpack _). vm_compute. exact I.
Qed.

(** Every answer of an origin that is passed on hides the server, carries the security headers the environment asks for, and keeps
    every other header as the origin sent it. *)
Theorem decorated_headers (env : Env) (h : H) :
  let h' := apply_security_headers env (strip_server_headers h) in
  (forall n, n ∈ STRIP_HEADERS -> get_all h' n = [])
  /\ (forall n v, (n, v) ∈ security_fields env -> accepts n v = true -> get_all h' n = [v])
  /\ (forall m, existsb (fun n => eq_ignore_ascii_case n m) (STRIP_HEADERS ++ SECURITY_NAMES) = false -> get_all h' m = get_all h m).
Proof.
  cbv zeta. setoid_rewrite decorated_values. split; [|split].
  - intros n Hn. rewrite security_not_stripped by done.
    assert (existsb (fun a => eq_ignore_ascii_case a n) STRIP_HEADERS = true) as ->; [|done].
    apply existsb_exists. exists n. split; [by apply list_elem_of_In|apply eq_ignore_refl].
  - intros n v Hin Ha. by rewrite (last_set_distinct _ n v (security_distinct env) Hin Ha).
  - intros m Hm. rewrite existsb_app in Hm. apply orb_false_iff in Hm as [Hm1 Hm2]. rewrite Hm1.
    destruct (last_set _ m) as [v|] eqn:E; [|done]. apply last_set_named in E. congruence.
Qed.
End Headers.
