(* ===== verification/Egress.v ===== *)
(** * The answer of the origin ([src/proxy.rs])

    What happens to the answer of an origin before the client sees it: the headers are decorated, the body is held back and
    inspected for sensitive data, and either everything is sent on or the proxy answers in its place.  A request whose answer is
    committed here ([commit_origin_response]) is sent to the origin by the proxy itself; otherwise Pingora calls the response filters
    chunk by chunk. *)

From S2P Require Import Prelude Net Http Inspection Headers Stage Pipeline Mediation.
From S2P Require IpText Window Shield ClientIp Framing Budget Spool Protocol Waf Json Route Grpc Graphql Jwks Jwt Authz.
From S2P Require Schema OpenApi WafEngine Origin RateLimit Behavioral Abuse Dlp Config Upstream.

#[local] Existing Instances Behavioral.BehaviorKey_eq_dec Behavioral.BehaviorKey_countable RateLimit.RateKey_eq_dec RateLimit.RateKey_countable
  Shield.ShieldVerdict_eq_dec Dlp.DlpAction_eq_dec.

(** [src/proxy.rs: static MAX_RESPONSE_BUFFER] *)
Definition MAX_RESPONSE_BUFFER (env : Env) : Z := Budget.env_bytes env "DLP_MAX_RESPONSE_BYTES" (1024 * 1024).

(** What an exchange with an origin gives: whether the connection (and TLS) comes up, whether the request is written, and the reads. *)
Record Wire : Type := { wi_connected : bool; wi_written : bool; wi_reads : Framing.reads }.

(** The clocks and what the origin does. *)
Record OriginWorld : Type := {
  ow_ready : Instant; ow_pick : Instant; ow_reported : Instant; ow_response : nat -> Behavioral.Clock; ow_abuse : nat -> Instant;
  ow_wire : Origin.PickedOrigin -> bytes -> bytes -> Wire; ow_sent : bool }.

(** [src/proxy.rs: struct FerroadaCtx @395-399] What the answer says of itself, and whether its body is left alone. *)
Record ResponseCtx : Type := { content_type : option bytes; response_content_encoding : option bytes; skip_dlp : bool }.

Section Egress.
Context {H : Type} {HM : HeaderMap H} {SJ : Json.SerdeJson} {UC : Shield.UnicodeCase} {SH : ClientIp.StrHash}
  {JT : Jwks.JwksText} {JX : Jwt.JwtText} {JC : Jwt.JwtCrypto} {MJ : Window.MapOrder Z Z}
  {FT : Behavioral.F32Text} {MB : Window.MapOrder Behavioral.BehaviorKey Behavioral.IpProfile}
  {MR : Window.MapOrder RateLimit.RateKey (list Instant)} {RX : Waf.Regexes} {INF : Waf.Inflate}
  {JN : Schema.JsonNumbers} {ET : WafEngine.EngineText} {AT : Authz.AuthzText} {S256 : Graphql.Sha256}
  {NH : Abuse.NameHash} {D : Grpc.Descriptors} {DB : Abuse.Mmdb} {DE : Dlp.DlpEngine}.
(** The status codes [http::StatusCode] takes. *)
Context (valid_status : Z -> bool).
Context (px : FerroadaProxy) (w : World) (ow : OriginWorld).
Abbreviation env := (px_env px).
Abbreviation wr := (w_writes w).

Definition with_pools {A} (f : Origin.OriginPools -> Origin.OriginPools * A) : Stage Live A := operate (fun s =>
  let '(p, a) := f (pools s) in
  (MkLive (concurrency s) (guard s) (jwt s) (abuse s) (profiles s) (limiter s) (books s) (requests s) (held s) (spool s) (handle s) p, a)).

Definition block_of (ctx : FerroadaCtx) (type detail : bytes) : list Mark := block_at type (client_addr ctx) (request_uri ctx) detail.
Definition observe_of (ctx : FerroadaCtx) (type detail : bytes) : list Mark :=
  [Metric (Observed (Shield.record_block type (client_addr ctx) (request_uri ctx) detail))].

(** *** Origins *)

(** [src/proxy.rs: FerroadaProxy::shed_unhealthy_origin] *)
Definition shed_unhealthy_origin (ctx : FerroadaCtx) : Stage Live unit :=
  let site := site_of (backend ctx) in
  if negb (Origin.is_balanced site) then ret tt
  else
    let! ready := with_pools (fun p => (p, Origin.has_ready (ow_ready ow) p site)) in
    if ready : bool then ret tt
    else
      mark (note_event "503" ++ block_in (site_scope ctx) "503" (client_addr ctx) (request_uri ctx) "Nenhum origin saudável") ;;;
      send_503 wr.

(** [src/proxy.rs: FerroadaProxy::pick_origin] *)
Definition pick_origin (ctx : FerroadaCtx) (tried : list SocketAddr) : Stage Live (option Origin.PickedOrigin) :=
  with_pools (fun p => Origin.pick (ow_pick ow) p (site_of (backend ctx)) tried).

(** *** Inspection of the answer *)

(** [src/proxy.rs: FerroadaProxy::inspect_response_dlp] *)
Definition inspect_response_dlp (ctx : FerroadaCtx) (rc : ResponseCtx) (body : bytes) : option (Dlp.DlpResult * list Dlp.DlpEvent) :=
  Dlp.sanitize_encoded_body_with env body (content_type rc) (response_content_encoding rc) (MAX_RESPONSE_BUFFER env) (px_dlp_action px)
    (Config.dlp_fields_for (backend ctx) (request_uri ctx)).

Definition reject_incomplete : bool := Dlp.reject_incomplete_response (px_dlp_action px).
(** The answer is kept from the client. *)
Definition withheld (r : Dlp.DlpResult) : bool := reject_incomplete && (negb (Dlp.inspection_complete r) || Dlp.found_sensitive r).
Definition withheld_detail (r : Dlp.DlpResult) : bytes :=
  if negb (Dlp.inspection_complete r) then lit "Compressed response could not be inspected within the configured limit"
  else lit "DLP blocked a response with sensitive data".

(** Why the body of an answer is left alone. *)
Definition response_skip_reason (status : Z) (h : H) : option bytes :=
  if contains_key h "Signature" || contains_key h "Signature-Input" || contains_key h "Content-Signature"
  then Some (lit "Signed response was not transformed")
  else if (status =? 101) || contains_key h "Upgrade" then Some (lit "Upgraded response was not transformed")
  else Dlp.skip_reason env (get_str h "Content-Type") (get_str h "Content-Encoding").

Definition RECOMPUTED_HEADERS : list bytes := map lit ["Content-Length"; "ETag"; "Content-MD5"; "Digest"; "Content-Digest"; "Repr-Digest"].

(** What an answer of 401, 403 or 404 counts against the client. *)
Definition record_status (ctx : FerroadaCtx) (method : bytes) (status : Z) : Stage Live unit :=
  match risk_identity ctx with
  | Some identity =>
      if (status =? 401) || (status =? 403) || (status =? 404) then
        on_profiles (fun p => (Behavioral.record_response (Behavioral.behavioral_config env) (ow_response ow) identity status p, tt)) ;;;
        if bool_decide (is_Some (Config.b_abuse (backend ctx)))
        then on_abuse (fun e => (Abuse.record_origin_status (ow_abuse ow) identity method (request_uri ctx) status e, tt))
        else ret tt
      else ret tt
  | None => ret tt
  end.

Definition limit_reached := lit "DLP buffer limit reached".

(** [src/proxy.rs: FerroadaProxy::decorate_origin_response] An error is the status of the answer that replaces this one. *)
Definition decorate_origin_response (ctx : FerroadaCtx) (method : bytes) (status : Z) (h : H) : Stage Live (result Z (H * ResponseCtx)) :=
  record_status ctx method status ;;;
  let reason := response_skip_reason status h in
  let rc := {| content_type := get_str h "Content-Type"; response_content_encoding := get_str h "Content-Encoding";
               skip_dlp := bool_decide (is_Some reason) |} in
  let dlp_capable := negb (skip_dlp rc) in
  let partial_response := (status =? 206) || contains_key h "Content-Range" in
  let oversized := match Framing.response_content_length h with Some cl => MAX_RESPONSE_BUFFER env <? cl | None => false end in
  if dlp_capable && reject_incomplete && oversized then
    mark (note_event "dlp_partial_block" ++ block_of ctx "dlp_partial_block" limit_reached) ;;; ret (Err 502)
  else if partial_response && dlp_capable then
    mark (note_event "dlp_partial_block"
          ++ block_of ctx "dlp_partial_block" "Textual partial response cannot be inspected safely") ;;; ret (Err 502)
  else
    mark match reason with Some r => observe_of ctx "dlp_skip" r | None => [] end ;;;
    let h := if skip_dlp rc then h else remove_all RECOMPUTED_HEADERS h in
    ret (Ok (apply_security_headers env (strip_server_headers h), rc)).

(** [src/proxy.rs: FerroadaProxy::response_filter] *)
Definition response_filter (ctx : FerroadaCtx) (attempts : Origin.Attempts) (method : bytes) (status : Z) (h : H)
  : Stage Live (result Z (H * ResponseCtx)) :=
  with_pools (fun p => (Origin.mark_origin_outcome (ow_reported ow) p (site_of (backend ctx)) attempts status, tt)) ;;;
  decorate_origin_response ctx method status h.

(** *** An answer committed by the proxy *)

(** [src/proxy.rs: fn origin_roundtrip_blocking] *)
Definition origin_roundtrip_blocking (picked : Origin.PickedOrigin) (head body : bytes) (max_response : Z)
  : Framing.Outcome (result Framing.IoError (Z * H * bytes)) :=
  let x := ow_wire ow picked head body in
  if wi_connected x && wi_written x then Framing.read_http11_response_sync valid_status (wi_reads x) max_response
  else Framing.Returns (Err Framing.ReadError).

(** An answer as the client gets it. *)
Record Delivered : Type := { dl_status : Z; dl_headers : H; dl_body : bytes }.

(** The head of the request the proxy sends itself; [None] is a panic, [Some None] a header that is refused. *)
Definition committed_head (ctx : FerroadaCtx) (ss : Session H) (h : H) (timeout : option bytes) (picked : Origin.PickedOrigin) (body : bytes)
  : option (option bytes * list MetricEvent) :=
  let stamp := {| Upstream.backend_host := Config.b_host (backend ctx); Upstream.origin_host := Some (Origin.p_host picked);
                  Upstream.client_addr := client_addr ctx; Upstream.request_https := request_https ctx;
                  Upstream.request_uri := request_uri ctx; Upstream.grpc_timeout := timeout |} in
  '(req, events) ← Upstream.stamp_upstream_request stamp (px_origin_secret px) h;
  Some (Framing.http11_request_head (ss_method ss) (ss_path_and_query ss)
          <$> insert_header "Content-Length" (show_dec (len body)) (remove_header "Transfer-Encoding" req), events).

(** A failure of the exchange. *)
Definition origin_refused {A} (ctx : FerroadaCtx) (picked : Origin.PickedOrigin) : Stage Live A :=
  with_pools (fun p => (Origin.record_failure (ow_reported ow) p (site_of (backend ctx)) (Origin.p_addr picked), tt)) ;;;
  mark (note_event "503" ++ block_in (site_scope ctx) "503" (client_addr ctx) (request_uri ctx) "Origin recusou a conexão") ;;;
  send_503 wr.

Definition refuse_response {A} (ctx : FerroadaCtx) (detail : bytes) : Stage Live A :=
  mark (note_event "dlp_partial_block" ++ block_of ctx "dlp_partial_block" detail) ;;; send_502 wr.

(** The body of a committed answer, inspected. *)
Definition committed_body (ctx : FerroadaCtx) (rc : ResponseCtx) (origin_body : bytes) : Stage Live bytes :=
  if skip_dlp rc then ret origin_body
  else
    let! '(result, events) := or_panic (inspect_response_dlp ctx rc origin_body) in
    mark (map SeenDlp events) ;;;
    if withheld result then refuse_response ctx (withheld_detail result)
    else
      mark (if negb (Dlp.inspection_complete result)
            then observe_of ctx "dlp_skip" "Compressed response could not be inspected within the configured limit" else []) ;;;
      ret (Dlp.r_bytes result).

(** What is done with an answer of the origin. *)
Definition commit_answer (ctx : FerroadaCtx) (ss : Session H) (status : Z) (resp : H) (origin_body : bytes) : Stage Live Delivered :=
  let declared_len := Framing.response_content_length resp in
  let! decorated := decorate_origin_response ctx (ss_method ss) status resp in
  match decorated with
  | Err code => if code =? 502 then send_502 wr else fails
  | Ok (resp, rc) =>
      let truncated := match declared_len with
                       | Some cl => len origin_body <? cl
                       | None => MAX_RESPONSE_BUFFER env <=? len origin_body
                       end in
      if reject_incomplete && truncated then refuse_response ctx limit_reached
      else
        let! out := committed_body ctx rc origin_body in
        match insert_header "Content-Length" (show_dec (len out)) resp with
        | Some resp => if ow_sent ow then ret {| dl_status := status; dl_headers := resp; dl_body := out |} else fails
        | None => fails
        end
  end.

(** [src/proxy.rs: FerroadaProxy::commit_origin_response] The panic of the task that reads the answer is a failure of the exchange;
    that the reading never runs out of fuel is [Framing.decode_chunked_correct]. *)
Definition commit_origin_response (ctx : FerroadaCtx) (ss : Session H) (h : H) (timeout : option bytes) (body : bytes) : Stage Live Delivered :=
  shed_unhealthy_origin ctx ;;;
  let! picked := pick_origin ctx [] in
  match picked with
  | None =>
      mark (block_in (site_scope ctx) "503" (client_addr ctx) (request_uri ctx) "Nenhum origin saudável") ;;; send_503 wr
  | Some picked =>
      let! '(head, events) := or_panic (committed_head ctx ss h timeout picked body) in
      mark (metrics events) ;;;
      match head with
      | None => fails
      | Some head =>
          match origin_roundtrip_blocking picked head body (MAX_RESPONSE_BUFFER env) with
          | Framing.Returns (Ok (status, resp, origin_body)) => commit_answer ctx ss status resp origin_body
          | _ => origin_refused ctx picked
          end
      end
  end.

(** [src/proxy.rs: FerroadaProxy::request_filter @1429-1477] The filter with the answer it commits, if any. *)
Definition filter_and_commit (ss : Session H) : Stage Live (Cleared * option Delivered) :=
  let! a := request_filter px w ss in
  match a_passage a with
  | Proxied => ret (a, None)
  | Committed body => let! d := commit_origin_response (a_ctx a) ss (a_head a) (a_grpc_timeout a) body in ret (a, Some d)
  end.

(** *** An answer passed on by Pingora, chunk by chunk *)

(** The budget of held answers, what this one reserved of it, the bytes held back, and whether the rest passes as it comes. *)
Record Streaming : Type := MkStreaming {
  st_budget : Budget.ByteBudget; st_held : Budget.Holder; st_buffer : Budget.BoundedBodyBuffer; st_skip : bool }.

(** [src/proxy.rs: FerroadaProxy::new_ctx @487-528] The response side of a new context. *)
Definition new_streaming (budget : Budget.ByteBudget) : Streaming :=
  MkStreaming budget (Budget.idle 0) (Budget.buffer_new (MAX_RESPONSE_BUFFER env)) false.

(** [src/proxy.rs: FerroadaProxy::response_body_filter @1658-1664] A chunk is held back, unless the answer or the budget is full; then
    what was reserved is released. *)
Definition hold_chunk (b : bytes) (s : Streaming) : Streaming * bool :=
  let '(buffer, fits) := Budget.buffer_push b (st_buffer s) in
  let '(budget, held, ok) := if fits then Budget.reserve_dlp (len b) (st_budget s) (st_held s) else (st_budget s, st_held s, false) in
  if ok : bool then (MkStreaming budget held buffer (st_skip s), true)
  else let '(budget, held) := Budget.release_dlp budget held in (MkStreaming budget held (st_buffer s) (st_skip s), false).

Definition take_buffer : Stage Streaming bytes := operate (fun s =>
  let '(buffer, held_back) := Budget.buffer_take (st_buffer s) in (MkStreaming (st_budget s) (st_held s) buffer (st_skip s), held_back)).
Definition release_held : Stage Streaming unit := operate (fun s =>
  let '(budget, held) := Budget.release_dlp (st_budget s) (st_held s) in (MkStreaming budget held (st_buffer s) (st_skip s), tt)).
Definition pass_rest : Stage Streaming unit := operate (fun s => (MkStreaming (st_budget s) (st_held s) (st_buffer s) true, tt)).

(** [src/proxy.rs: FerroadaProxy::response_body_filter] What goes out in the place of the chunk, or the status of the error. *)
Definition response_body_filter (ctx : FerroadaCtx) (rc : ResponseCtx) (body : option bytes) (end_of_stream : bool)
  : Stage Streaming (result Z (option bytes)) :=
  let! skip := operate (fun s => (s, st_skip s)) in
  if skip : bool then ret (Ok body)
  else
    let! fits := match body with Some b => operate (hold_chunk b) | None => ret true end in
    if negb fits then
      if reject_incomplete then
        mark (note_event "dlp_partial_block" ++ block_of ctx "dlp_partial_block" limit_reached) ;;; ret (Err 502)
      else
        pass_rest ;;;
        let! flushed := take_buffer in
        mark (observe_of ctx "dlp_skip" limit_reached) ;;; ret (Ok (Some (flushed ++ default [] body)))
    else if end_of_stream then
      let! buffered := take_buffer in
      let! '(result, events) := or_panic (inspect_response_dlp ctx rc buffered) in
      mark (map SeenDlp events) ;;;
      release_held ;;;
      if withheld result then
        mark (note_event "dlp_partial_block" ++ block_of ctx "dlp_partial_block" (withheld_detail result)) ;;; ret (Err 502)
      else
        mark (if negb (Dlp.inspection_complete result)
              then observe_of ctx "dlp_skip" "Compressed response could not be inspected within the configured limit" else []) ;;;
        ret (Ok (Some (Dlp.r_bytes result)))
    else ret (Ok None).

(** A call of the filter, with what other answers hold of the budget by then. *)
Record BodyCall : Type := { bc_chunk : option bytes; bc_end : bool; bc_others : Z }.

(** Other answers reserve and release; the counter moves with them. *)
Definition others_move (n : Z) : Stage Streaming unit := operate (fun s =>
  (MkStreaming (Budget.set_current (st_budget s) (Budget.current (st_budget s) + n)) (st_held s) (st_buffer s) (st_skip s), tt)).
(** They do so too after the call that ended this answer. *)
Fixpoint others_go_on (others : Z) (calls : list BodyCall) : Stage Streaming unit :=
  match calls with
  | [] => ret tt
  | c :: calls => others_move (bc_others c - others) ;;; others_go_on (bc_others c) calls
  end.

(** The calls for one answer: all that went out, and the error that ended it; [others] is what other answers hold before. *)
Fixpoint stream_body (ctx : FerroadaCtx) (rc : ResponseCtx) (others : Z) (calls : list BodyCall) : Stage Streaming (bytes * option Z) :=
  match calls with
  | [] => ret ([], None)
  | c :: calls =>
      others_move (bc_others c - others) ;;;
      let! r := response_body_filter ctx rc (bc_chunk c) (bc_end c) in
      match r with
      | Err code => others_go_on (bc_others c) calls ;;; ret ([], Some code)
      | Ok out => let! '(rest, error) := stream_body ctx rc (bc_others c) calls in ret (default [] out ++ rest, error)
      end
  end.

(** *** When there is no answer *)

(** [src/proxy.rs: FerroadaProxy::proxy_upstream_filter] *)
Definition proxy_upstream_filter (ctx : FerroadaCtx) : Stage Live bool := shed_unhealthy_origin ctx ;;; ret true.

(** [src/proxy.rs: FerroadaProxy::request_body_filter] The body of a spooled request, chunk by chunk; [None] is an error of 503. *)
Definition request_body_filter (ctx : FerroadaCtx) (read : nat -> option nat) (body : option bytes) : Stage Live (result Z (option bytes)) :=
  let! replay := on_spool (fun rt h =>
    match h with
    | None => (rt, h, None)
    | Some h => let '(h, r) := Spool.next_replay_chunk read h in (rt, Some h, Some r)
    end) in
  match replay with
  | Some (Ok chunk) => ret (Ok chunk)
  | Some (Err _) => mark (block_of ctx "spool_limit" "Spool replay failed") ;;; ret (Err 503)
  | None => ret (Ok body)
  end.

(** [src/proxy.rs: FerroadaProxy::fail_to_proxy] The status reported, and the answer written: [None] when there was one already. *)
Definition fail_to_proxy (ctx : FerroadaCtx) (error : option Z) (response_written : bool) : Stage Live (Z * option Z) :=
  let code := default 502 error in
  if response_written then ret (code, None)
  else
    (if code =? 503
     then mark (note_event "503" ++ block_in (site_scope ctx) "503" (client_addr ctx) (request_uri ctx) "Nenhum origin saudável")
     else ret tt) ;;;
    ret (code, Some code).

(** [src/proxy.rs: FerroadaProxy::suppress_error_log] *)
Definition suppress_error_log (error : option Z) : bool :=
  match error with Some code => (code =? 403) || (code =? 413) || (code =? 503) | None => false end.

(** *** The log *)

(** The event the context of the request ends with. *)
Definition event_of (l : list Mark) : bytes :=
  fold_left (fun e m => match m with NotedEvent t => t | _ => e end) l [].

(** [src/proxy.rs: FerroadaProxy::logging @1734-1756] *)
Definition decision (event_type : bytes) (origin_responded : bool) (status : option Z) : bytes :=
  if event_type =s "https_redirect" then lit "allow"
  else if negb (is_empty event_type) then lit "deny"
  else if origin_responded then lit "allow"
  else match status with
       | Some code => if 400 <=? code then lit "deny" else lit "allow"
       | None => lit "allow"
       end.
End Egress.

(** ** What the client may see *)

Section Delivery.
Context {H : Type} {HM : HeaderMap H} {SJ : Json.SerdeJson} {UC : Shield.UnicodeCase} {SH : ClientIp.StrHash}
  {JT : Jwks.JwksText} {JX : Jwt.JwtText} {JC : Jwt.JwtCrypto} {MJ : Window.MapOrder Z Z}
  {FT : Behavioral.F32Text} {MB : Window.MapOrder Behavioral.BehaviorKey Behavioral.IpProfile}
  {MR : Window.MapOrder RateLimit.RateKey (list Instant)} {RX : Waf.Regexes} {INF : Waf.Inflate}
  {JN : Schema.JsonNumbers} {ET : WafEngine.EngineText} {AT : Authz.AuthzText} {S256 : Graphql.Sha256}
  {NH : Abuse.NameHash} {D : Grpc.Descriptors} {DB : Abuse.Mmdb} {DE : Dlp.DlpEngine}.
Context (valid_status : Z -> bool) (px : FerroadaProxy) (w : World) (ow : OriginWorld).
Abbreviation env := (px_env px).
Abbreviation max := (MAX_RESPONSE_BUFFER env).

(** What the context keeps of an answer. *)
Definition response_ctx (status : Z) (h : H) : ResponseCtx :=
  {| content_type := get_str h "Content-Type"; response_content_encoding := get_str h "Content-Encoding";
     skip_dlp := bool_decide (is_Some (response_skip_reason px status h)) |}.
Definition decorated (status : Z) (h : H) : H :=
  apply_security_headers env (strip_server_headers (if skip_dlp (response_ctx status h) then h else remove_all RECOMPUTED_HEADERS h)).
Definition is_partial (status : Z) (h : H) : bool := (status =? 206) || contains_key h "Content-Range".

Lemma decorate_next ctx method status h s s' l h' rc :
  decorate_origin_response px ow ctx method status h s = (s', l, Next (Ok (h', rc))) ->
  h' = decorated status h /\ rc = response_ctx status h /\ (skip_dlp rc = false -> is_partial status h = false).
Proof.
  unfold decorate_origin_response. intros E. next E. cbv zeta in E. change {| content_type := _ |} with (response_ctx status h) in E.
  destruct (_ && _ && _); [next E; by apply ret_next in E as (_ & _ & ?)|].
  destruct (((status =? 206) || contains_key h "Content-Range") && _) eqn:Ep; [next E; by apply ret_next in E as (_ & _ & ?)|].
  next E. apply ret_next in E as (_ & _ & [= <- <-]). split; [done|]. split; [done|]. intros Hs. rewrite Hs in Ep.
  by rewrite andb_true_r in Ep.
Qed.

(** The inspection of an answer ends, and finds nothing. *)
Definition clean (ctx : FerroadaCtx) (rc : ResponseCtx) (body : bytes) : Prop := exists r events,
  inspect_response_dlp px ctx rc body = Some (r, events) /\ Dlp.inspection_complete r = true /\ Dlp.found_sensitive r = false.

Lemma withheld_block r : px_dlp_action px = Dlp.DBlock -> withheld px r = false ->
  Dlp.inspection_complete r = true /\ Dlp.found_sensitive r = false.
Proof. unfold withheld, reject_incomplete. intros ->. cbn. by destruct (Dlp.inspection_complete r), (Dlp.found_sensitive r). Qed.

Lemma inspect_contract ctx rc body : exists r events, inspect_response_dlp px ctx rc body = Some (r, events)
  /\ Dlp.dlp_contract body (px_dlp_action px) (r, events).
Proof.
  unfold inspect_response_dlp.
  destruct (Dlp.sanitize_encoded_body_contract env body (content_type rc) (response_content_encoding rc) max (px_dlp_action px)
    (Config.dlp_fields_for (backend ctx) (request_uri ctx))) as ([r ev] & Hr & Hc). eauto.
Qed.

Lemma committed_body_next ctx rc body s s' l out : px_dlp_action px = Dlp.DBlock ->
  committed_body px w ctx rc body s = (s', l, Next out) -> out = body /\ (skip_dlp rc = true \/ clean ctx rc body).
Proof.
  intros Ha. unfold committed_body. destruct (skip_dlp rc); intros E; [apply ret_next in E as (_ & _ & <-); auto|].
  next E giving r Er. apply or_panic_next in Er as (Er & _ & _). destruct r as [r events]. next E.
  destruct (withheld px r) eqn:Ew; [unfold refuse_response in E; stopped E|]. next E. apply ret_next in E as (_ & _ & <-).
  destruct (withheld_block r Ha Ew) as [Hc Hf]. destruct (inspect_contract ctx rc body) as (r' & ev' & Hr & Hk & _).
  rewrite Er in Hr. injection Hr as <- <-. split; [apply Hk; by rewrite Ha|]. right. by exists r, events.
Qed.

(** The whole of the answer was read. *)
Definition whole (h : H) (body : bytes) : Prop :=
  match Framing.response_content_length h with Some n => n <= len body | None => len body < max end.

Lemma answer_next ctx ss status resp body s s' l d : px_dlp_action px = Dlp.DBlock ->
  commit_answer px w ow ctx ss status resp body s = (s', l, Next d) ->
  dl_status d = status /\ dl_body d = body /\ whole resp body
  /\ (is_Some (response_skip_reason px status resp) \/ is_partial status resp = false /\ clean ctx (response_ctx status resp) body)
  /\ insert_header "Content-Length" (show_dec (len body)) (decorated status resp) = Some (dl_headers d).
Proof.
  intros Ha. unfold commit_answer. cbv zeta. intros E. next E giving r Ed. destruct r as [[h' rc]|code];
    [|destruct (code =? 502); stopped E].
  apply decorate_next in Ed as (-> & -> & Hp). unfold reject_incomplete in E. rewrite Ha in E. cbn [Dlp.reject_incomplete_response andb] in E.
  destruct (match Framing.response_content_length resp with Some _ => _ | None => _ end) eqn:Et; [unfold refuse_response in E; stopped E|].
  next E giving out Eo. apply committed_body_next in Eo as [-> Hc]; [|done].
  destruct (insert_header _ _ _) as [h|]; [|stopped E]. destruct (ow_sent ow); [|stopped E].
  apply ret_next in E as (_ & _ & <-). cbn. repeat (split; [done|]). split; [|split; [|done]].
  - unfold whole. destruct (Framing.response_content_length resp); lia.
  - destruct Hc as [Hs|Hc]; [left; by apply bool_decide_eq_true in Hs|].
    destruct (skip_dlp (response_ctx status resp)) eqn:Es; [left; by apply bool_decide_eq_true in Es|right; auto].
Qed.

(** What a decorated answer carries. *)
Lemma delivered_headers status resp n headers : insert_header "Content-Length" n (decorated status resp) = Some headers ->
  get_all headers "Content-Length" = [n]
  /\ (forall name, name ∈ STRIP_HEADERS -> get_all headers name = [])
  /\ (forall name v, (name, v) ∈ security_fields env -> accepts name v = true -> get_all headers name = [v]).
Proof.
  intros Hi. set (h0 := if skip_dlp (response_ctx status resp) then resp else remove_all RECOMPUTED_HEADERS resp).
  destruct (decorated_headers env h0) as (H1 & H2 & _). fold (decorated status resp) in H1, H2.
  assert (forall name, name ∈ STRIP_HEADERS ++ SECURITY_NAMES -> eq_ignore_ascii_case "Content-Length" name = false) as Hn.
  { apply Forall_forall. apply (bool_decide_unpack _). vm_compute. exact I. }
  split; [by rewrite (get_all_insert _ _ _ _ _ Hi)|]. split.
  - intros name Hin. rewrite (get_all_insert _ _ _ _ _ Hi), Hn by (apply elem_of_app; auto). by apply H1.
  - intros name v Hin Ha. rewrite (get_all_insert _ _ _ _ _ Hi), Hn; [by apply H2|]. apply elem_of_app. right.
    apply (elem_of_sublist (map fst (security_fields env))); [|apply security_names]. apply list_elem_of_fmap. by exists (name, v).
Qed.

(** C7. Under the blocking action an answer the proxy commits is the whole answer of the origin it picked, to the request that was
    cleared, byte for byte; its body is of a kind that is not inspected, or was inspected to its end with nothing found; and its head says
    its length, hides the server and carries the security headers. *)
Theorem committed_answer_vetted (ctx : FerroadaCtx) (ss : Session H) (h : H) (timeout : option bytes) (body : bytes) (s s' : Live)
    (l : list Mark) (d : Delivered) :
  px_dlp_action px = Dlp.DBlock -> commit_origin_response valid_status px w ow ctx ss h timeout body s = (s', l, Next d) ->
  (exists picked head events resp, committed_head px ctx ss h timeout picked body = Some (Some head, events)
    /\ origin_roundtrip_blocking valid_status ow picked head body max = Framing.Returns (Ok (dl_status d, resp, dl_body d))
    /\ whole resp (dl_body d)
    /\ (is_Some (response_skip_reason px (dl_status d) resp)
        \/ is_partial (dl_status d) resp = false /\ clean ctx (response_ctx (dl_status d) resp) (dl_body d)))
  /\ get_all (dl_headers d) "Content-Length" = [show_dec (len (dl_body d))]
  /\ (forall n, n ∈ STRIP_HEADERS -> get_all (dl_headers d) n = [])
  /\ (forall n v, (n, v) ∈ security_fields env -> accepts n v = true -> get_all (dl_headers d) n = [v]).
Proof.
  intros Ha. unfold commit_origin_response. intros E. next E. next E giving picked Ep. destruct picked as [picked|]; [|stopped E].
  next E giving r Eh. apply or_panic_next in Eh as (Eh & _ & _). destruct r as [head events]. next E. destruct head as [head|]; [|stopped E].
  destruct (origin_roundtrip_blocking _ _ _ _ _ _) as [[[[status resp] origin_body]|e]| |] eqn:Er;
    [|unfold origin_refused in E; stopped E..].
  apply answer_next in E as (<- & <- & Hw & Hc & Hi); [|done]. split; [by exists picked, head, events, resp|].
  by apply (delivered_headers (dl_status d) resp).
Qed.

(** *** Answers passed on chunk by chunk *)

Definition chunk_of (c : BodyCall) : bytes := default [] (bc_chunk c).
Definition chunks_of (calls : list BodyCall) : bytes := concat (map chunk_of calls).

(** The calls for an answer that arrived to its end: the last one says so. *)
Fixpoint ends (calls : list BodyCall) : Prop :=
  match calls with [] => False | [c] => bc_end c = true | c :: calls => bc_end c = false /\ ends calls end.

(** What other answers hold in the end. *)
Definition others_after (others : Z) (calls : list BodyCall) : Z := fold_left (fun _ c => bc_others c) calls others.
(** Nobody holds less than nothing or more than the budget. *)
Definition others_ok (limit : Z) (calls : list BodyCall) : Prop := Forall (fun c => 0 <= bc_others c <= limit) calls.

(** The others' part of the counter moves with them. *)
Lemma others_move_run d s : exists s', others_move d s = (s', [], Next tt) /\ st_held s' = st_held s /\ st_skip s' = st_skip s
  /\ Budget.current (st_budget s') = Budget.current (st_budget s) + d.
Proof. by eexists. Qed.

Lemma others_go_run calls : forall o s, Budget.current (st_budget s) = o -> exists s' l,
  others_go_on o calls s = (s', l, Next tt) /\ st_held s' = st_held s /\ Budget.current (st_budget s') = others_after o calls.
Proof.
  induction calls as [|c calls IH]; intros o s Hc; [by eexists _, _|]. cbn [others_go_on].
  destruct (others_move_run (bc_others c - o) s) as (s1 & E & Hh & _ & Hb).
  destruct (IH (bc_others c) s1 ltac:(lia)) as (s' & l & E' & Hh' & Hc'). unfold bind. rewrite E, E'.
  eexists _, _. split; [reflexivity|]. split; [congruence|exact Hc'].
Qed.

(** Once the rest passes, it passes as it comes. *)
Lemma stream_passes ctx rc calls : forall o s, st_skip s = true -> Budget.current (st_budget s) = o ->
  exists s' l, stream_body px ctx rc o calls s = (s', l, Next (chunks_of calls, None))
    /\ st_held s' = st_held s /\ Budget.current (st_budget s') = others_after o calls.
Proof.
  induction calls as [|c calls IH]; intros o s Hs Hc; [by eexists _, _|]. cbn [stream_body].
  destruct (others_move_run (bc_others c - o) s) as (s1 & E1 & Hh & Hs1 & Hb). rewrite Hs in Hs1.
  destruct (IH (bc_others c) s1 Hs1 ltac:(lia)) as (s' & l & E & Hh' & Hc'). unfold bind at 1. rewrite E1.
  unfold response_body_filter. unfold bind at 1 2, operate at 1. rewrite Hs1. cbn [ret app]. unfold bind. rewrite E.
  cbn. eexists _, _. split; [reflexivity|]. split; [congruence|exact Hc'].
Qed.

(** Whether the answer is held back to its end: neither the ceiling of one answer nor the budget of all is passed on the way. *)
Definition chunk_fits (limit before : Z) (c : BodyCall) : bool :=
  match bc_chunk c with
  | None => true
  | Some b => (before + len b <=? max) && (bc_others c + before + len b <=? limit)
  end.
Fixpoint fits (limit before : Z) (calls : list BodyCall) : bool :=
  match calls with [] => true | c :: calls => chunk_fits limit before c && fits limit (before + len (chunk_of c)) calls end.

(** The state of an answer of which [pre] is held back. *)
Definition holding (budget : Budget.ByteBudget) (pre : bytes) : Streaming :=
  MkStreaming budget (Budget.idle (len pre)) {| Budget.buf_bytes := pre; Budget.buf_max := max |} false.

Lemma max_range : 0 < max <= usize_max.
Proof.
  unfold MAX_RESPONSE_BUFFER, Budget.env_bytes.
  pose proof (env_positive_range env "DLP_MAX_RESPONSE_BYTES" usize_max (1024 * 1024) ltac:(vm_compute; split; congruence)). lia.
Qed.

Lemma hold_chunk_holding budget pre b n : Budget.budget_max budget <= usize_max ->
  hold_chunk b (holding (Budget.set_current budget (n + len pre)) pre)
  = (if (len pre + len b <=? max) && (n + len pre + len b <=? Budget.budget_max budget)
     then (holding (Budget.set_current budget (n + len pre + len b)) (pre ++ b), true)
     else (MkStreaming (Budget.release (len pre) (Budget.set_current budget (n + len pre))) (Budget.idle 0)
             {| Budget.buf_bytes := pre; Budget.buf_max := max |} false, false)).
Proof.
  intros Hb. pose proof max_range as Hm. unfold hold_chunk, Budget.buffer_push, checked_add. cbn [holding st_buffer Budget.buf_bytes Budget.buf_max].
  destruct (Z.leb_spec (len pre + len b) max) as [L|L]; cbn [andb].
  - rewrite (proj2 (Z.leb_le _ _)) by lia. rewrite (proj2 (Z.ltb_ge _ _)) by lia.
    unfold Budget.reserve_dlp, Budget.reserve, checked_add. cbn [holding st_budget st_held Budget.current Budget.set_current Budget.budget_max].
    destruct (Z.leb_spec (n + len pre + len b) (Budget.budget_max budget)) as [L1|L1].
    + rewrite (proj2 (Z.leb_le _ usize_max)) by lia. rewrite (proj2 (Z.leb_le _ _)) by lia.
      unfold holding. rewrite len_app. done.
    + destruct (_ <=? usize_max); [|done]. by rewrite (proj2 (Z.leb_gt _ _)) by lia.
  - destruct (_ <=? usize_max); [|done]. by rewrite (proj2 (Z.ltb_lt _ _)) by lia.
Qed.

(** What becomes of an answer that is inspected. *)
Definition inspected (ctx : FerroadaCtx) (rc : ResponseCtx) (body out : bytes) (error : option Z) : Prop := exists r events,
  inspect_response_dlp px ctx rc body = Some (r, events)
  /\ if withheld px r then out = [] /\ error = Some 502 else out = Dlp.r_bytes r /\ error = None.
(** What becomes of one that outgrows the buffer. *)
Definition outgrown (body out : bytes) (error : option Z) : Prop :=
  if reject_incomplete px then out = [] /\ error = Some 502 else out = body /\ error = None.

Lemma release_back r n b : 0 <= n <= usize_max -> 0 <= r -> Budget.current (Budget.release r (Budget.set_current b (n + r))) = n.
Proof.
  intros Hn Hr. unfold Budget.release. destruct (Z.ltb_spec 0 r); cbn; [|lia]. unfold wrapping_sub, usize_max, u64_max in *.
  rewrite Z.mod_small; lia.
Qed.

(** The chunk is kept, or the state is that of an answer that outgrew the buffer. *)
Lemma keep_chunk_holding budget pre c : Budget.budget_max budget <= usize_max -> 0 <= bc_others c <= usize_max ->
  let s := holding (Budget.set_current budget (bc_others c + len pre)) pre in
  exists s', match bc_chunk c with Some b => operate (hold_chunk b) | None => ret true end s
             = (s', [], Next (chunk_fits (Budget.budget_max budget) (len pre) c))
    /\ if chunk_fits (Budget.budget_max budget) (len pre) c
       then s' = holding (Budget.set_current budget (bc_others c + len (pre ++ chunk_of c))) (pre ++ chunk_of c)
       else st_held s' = Budget.idle 0 /\ Budget.buf_bytes (st_buffer s') = pre /\ Budget.current (st_budget s') = bc_others c.
Proof.
  intros Hb Hn s. unfold chunk_fits, chunk_of. destruct (bc_chunk c) as [b|]; cbn [default from_option id].
  - unfold operate. subst s. rewrite hold_chunk_holding by done. rewrite len_app, Z.add_assoc.
    destruct (_ && _); eexists; (split; [reflexivity|]); [done|]. split; [done|]. split; [done|]. apply release_back; [done|apply len_nonneg].
  - exists s. by rewrite app_nil_r.
Qed.

(** One call on an answer that is held back. *)
Lemma filter_holding ctx rc budget pre c : Budget.budget_max budget <= usize_max -> 0 <= bc_others c <= usize_max ->
  exists s' l r, response_body_filter px ctx rc (bc_chunk c) (bc_end c) (holding (Budget.set_current budget (bc_others c + len pre)) pre) = (s', l, Next r)
    /\ if chunk_fits (Budget.budget_max budget) (len pre) c && negb (bc_end c)
       then r = Ok None /\ s' = holding (Budget.set_current budget (bc_others c + len (pre ++ chunk_of c))) (pre ++ chunk_of c)
       else st_held s' = Budget.idle 0 /\ Budget.current (st_budget s') = bc_others c
         /\ if chunk_fits (Budget.budget_max budget) (len pre) c
            then exists res events, inspect_response_dlp px ctx rc (pre ++ chunk_of c) = Some (res, events)
              /\ r = if withheld px res then Err 502 else Ok (Some (Dlp.r_bytes res))
            else if reject_incomplete px then r = Err 502 else r = Ok (Some (pre ++ chunk_of c)) /\ st_skip s' = true.
Proof.
  intros Hb Hn. destruct (keep_chunk_holding budget pre c Hb Hn) as (s1 & E & Hs1). unfold response_body_filter. unfold bind at 1, operate at 1.
  cbn [holding st_skip]. fold (holding (Budget.set_current budget (bc_others c + len pre)) pre). unfold bind at 1. rewrite E.
  destruct (chunk_fits _ _ c); cbn [negb andb].
  - subst s1. destruct (bc_end c); cbn [negb]; [|eexists _, _, _; split; [reflexivity|done]].
    destruct (inspect_contract ctx rc (pre ++ chunk_of c)) as (res & events & Hi & _).
    unfold bind, take_buffer, release_held, operate, or_panic, mark, ret. cbn. rewrite Hi.
    pose proof (release_back (len (pre ++ chunk_of c)) (bc_others c) budget Hn (len_nonneg _)) as Hrel.
    destruct (withheld px res) eqn:Ew; (eexists _, _, _; split; [reflexivity|]); cbn; (split; [done|]); (split; [exact Hrel|]);
      exists res, events; by rewrite Ew.
  - destruct Hs1 as (Hh & Hbuf & Hc). destruct (reject_incomplete px); [eexists _, _, _; split; [reflexivity|done]|].
    unfold bind, pass_rest, take_buffer, operate, mark, ret. cbn. rewrite Hbuf. eexists _, _, _. split; [reflexivity|].
    cbn. split; [done|]. split; [done|]. unfold chunk_of. done.
Qed.

Lemma others_move_holding o n budget pre : Budget.current budget = o + len pre ->
  others_move (n - o) (holding budget pre) = (holding (Budget.set_current budget (n + len pre)) pre, [], Next tt).
Proof.
  intros Hc. unfold others_move, operate, holding. cbn. rewrite Hc. replace (o + len pre + (n - o)) with (n + len pre) by lia. done.
Qed.

(** The calls that follow the one an answer outgrew the buffer with. *)
Lemma stream_outgrown ctx rc c calls s1 r pre :
  st_held s1 = Budget.idle 0 /\ Budget.current (st_budget s1) = bc_others c
    /\ (if reject_incomplete px then r = Err 502 else r = Ok (Some (pre ++ chunk_of c)) /\ st_skip s1 = true) ->
  exists s' l out error,
    match r with
    | Err code => others_go_on (bc_others c) calls ;;; ret ([], Some code)
    | Ok out => let! '(rest, error) := stream_body px ctx rc (bc_others c) calls in ret (default [] out ++ rest, error)
    end s1 = (s', l, Next (out, error))
    /\ st_held s' = Budget.idle 0 /\ Budget.current (st_budget s') = others_after (bc_others c) calls
    /\ outgrown (pre ++ chunk_of c ++ chunks_of calls) out error.
Proof.
  intros (Hh & Hcur & Hr). unfold outgrown. destruct (reject_incomplete px).
  - subst r. destruct (others_go_run calls (bc_others c) s1 Hcur) as (s' & l & E & Hh' & Hc'). unfold bind. rewrite E.
    eexists _, _, _, _. split; [reflexivity|]. split; [congruence|done].
  - destruct Hr as [-> Hs]. destruct (stream_passes ctx rc calls (bc_others c) s1 Hs Hcur) as (s' & l & E & Hh' & Hc').
    unfold bind. rewrite E. eexists _, _, _, _. split; [reflexivity|]. split; [congruence|]. split; [done|].
    cbn [default from_option id]. by rewrite <- app_assoc.
Qed.

Lemma stream_holding ctx rc limit calls : limit <= usize_max -> ends calls -> others_ok limit calls ->
  forall o budget pre, Budget.budget_max budget = limit -> Budget.current budget = o + len pre ->
  exists s' l out error, stream_body px ctx rc o calls (holding budget pre) = (s', l, Next (out, error))
    /\ st_held s' = Budget.idle 0 /\ Budget.current (st_budget s') = others_after o calls
    /\ if fits limit (len pre) calls then inspected ctx rc (pre ++ chunks_of calls) out error
       else outgrown (pre ++ chunks_of calls) out error.
Proof.
  intros Hl. induction calls as [|c calls IH]; [done|]. intros Hends [Hn Hok]%Forall_cons o budget pre Hb Hc. cbn [stream_body fits].
  unfold bind at 1. rewrite others_move_holding by done. unfold bind at 1.
  destruct (filter_holding ctx rc budget pre c) as (s1 & l1 & r & E & Hr); [lia|lia|]. rewrite E. rewrite Hb in Hr. clear E.
  unfold chunks_of. cbn [map concat]. fold (chunks_of calls). unfold others_after. cbn [fold_left]. fold (others_after (bc_others c) calls).
  assert (chunk_fits limit (len pre) c = true -> bc_end c = true -> calls = []) as Hlast.
  { intros _ He. destruct calls; [done|]. destruct Hends as [Hends _]. congruence. }
  destruct (chunk_fits limit (len pre) c) eqn:Hf, (bc_end c) eqn:He; cbn [andb negb] in *.
  - destruct Hr as (Hh & Hcur & res & ev & Hi & ->). rewrite (Hlast eq_refl eq_refl). cbn [fits chunks_of map concat others_after fold_left others_go_on stream_body].
    rewrite app_nil_r. destruct (withheld px res) eqn:Ew; (eexists _, _, _, _; split; [reflexivity|]; split; [done|]; split; [done|];
      exists res, ev; split; [done|]); rewrite Ew; [done|]. by rewrite app_nil_r.
  - destruct Hr as [-> ->]. assert (ends calls) as Hends' by (destruct calls; [cbn in Hends; congruence|apply Hends]).
    destruct (IH Hends' Hok (bc_others c) (Budget.set_current budget (bc_others c + len (pre ++ chunk_of c))) (pre ++ chunk_of c) Hb eq_refl)
      as (s' & l & out & error & E & Hh & Hcur & Hout).
    unfold bind at 1. rewrite E. eexists _, _, _, _. split; [reflexivity|]. split; [done|]. split; [done|]. rewrite <- len_app, app_assoc. exact Hout.
  - destruct (stream_outgrown ctx rc c calls s1 r pre Hr) as (s' & l & out & error & E & Hout). rewrite E.
    eexists _, _, _, _. split; [reflexivity|exact Hout].
  - destruct (stream_outgrown ctx rc c calls s1 r pre Hr) as (s' & l & out & error & E & Hout). rewrite E.
    eexists _, _, _, _. split; [reflexivity|exact Hout].
Qed.

(** C8. The filter of the chunks of an answer that arrives to its end does what inspecting the whole answer at once would: the answer goes
    out whole, redacted as the inspection says, or (under the blocking action) not a byte of it does, because something was found, because
    it could not be inspected, or because it outgrew the buffer; only without that action does an answer that outgrows the buffer go out as
    it came; an answer that is not inspected passes as it comes.  However it ends, nothing of the shared budget stays reserved: its counter
    is what the other answers hold, whatever they reserved and released between the calls. *)
Theorem streamed_answer_reference (ctx : FerroadaCtx) (rc : ResponseCtx) (budget : Budget.ByteBudget) (calls : list BodyCall) :
  Budget.budget_max budget <= usize_max -> others_ok (Budget.budget_max budget) calls -> ends calls ->
  exists s' l out error,
    stream_body px ctx rc (Budget.current budget) calls (MkStreaming budget (Budget.idle 0) (Budget.buffer_new max) (skip_dlp rc))
      = (s', l, Next (out, error))
    /\ st_held s' = Budget.idle 0 /\ Budget.current (st_budget s') = others_after (Budget.current budget) calls
    /\ if skip_dlp rc then out = chunks_of calls /\ error = None
       else if fits (Budget.budget_max budget) 0 calls then inspected ctx rc (chunks_of calls) out error
       else outgrown (chunks_of calls) out error.
Proof.
  intros Hb Hok Hends. destruct (skip_dlp rc).
  - destruct (stream_passes ctx rc calls (Budget.current budget) (MkStreaming budget (Budget.idle 0) (Budget.buffer_new max) true))
      as (s' & l & E & Hh & Hc); [done..|]. eexists _, _, _, _. split; [exact E|]. done.
  - refine (stream_holding ctx rc _ calls Hb Hends Hok (Budget.current budget) budget [] eq_refl _). change (len (A:=Z) []) with 0. lia.
Qed.

(** *** What the pools learn of a committed answer *)

Lemma pools_on_profiles {A} (f : _ -> _ * A) : keeps pools (on_profiles f).
Proof. apply keeps_operate. intros s. by destruct (f (profiles s)). Qed.
Lemma pools_on_abuse {A} (f : _ -> _ * A) : keeps pools (on_abuse f).
Proof. apply keeps_operate. intros s. by destruct (f (abuse s)). Qed.
#[local] Hint Resolve pools_on_profiles pools_on_abuse : stages.

Lemma answer_pools ctx ss status resp body : keeps pools (commit_answer px w ow ctx ss status resp body).
Proof.
  unfold commit_answer, decorate_origin_response, record_status, committed_body, refuse_response, withheld_detail, block_of, observe_of.
  keeping idtac.
Qed.

(** The answer of an origin the proxy commits is not reported to the pools, whatever its status: they are as the choice of the origin
    left them.  An answer that Pingora passes on is reported ([response_filter]), so one of 500 or more marks the origin down there only. *)
Theorem committed_answer_unreported (ctx : FerroadaCtx) (ss : Session H) (h : H) (timeout : option bytes) (body : bytes) (s s' : Live)
    (l : list Mark) (d : Delivered) :
  commit_origin_response valid_status px w ow ctx ss h timeout body s = (s', l, Next d) ->
  pools s' = (Origin.pick (ow_pick ow) (pools s) (site_of (backend ctx)) []).1.
Proof.
  unfold commit_origin_response. intros E. next E giving u Es. next E giving picked Ep.
  assert (pools s0 = pools s) as Hs.
  { unfold shed_unhealthy_origin in Es. destruct (negb _); [by apply ret_next in Es as (-> & _)|]. next Es giving ready Er.
    unfold with_pools in Er. apply operate_next in Er as [Er _]. injection Er as <- _.
    destruct ready; [by apply ret_next in Es as (-> & _)|stopped Es]. }
  unfold pick_origin, with_pools in Ep. apply operate_next in Ep as [Ep _]. rewrite Hs in Ep.
  destruct (Origin.pick _ _ _ _) as [p r]. injection Ep as <- ->. cbn [fst].
  destruct picked as [picked|]; [|stopped E]. next E giving r Eh. apply or_panic_next in Eh as (_ & -> & _). destruct r as [head events].
  next E giving v Em. apply mark_next in Em as [-> _]. destruct head as [head|]; [|stopped E].
  destruct (origin_roundtrip_blocking _ _ _ _ _ _) as [[[[status resp] origin_body]|e]| |]; [|unfold origin_refused in E; stopped E..].
  by apply answer_pools in E.
Qed.
End Delivery.

(** ** Evaluations *)

Section evaluations.
Let HM := assoc_headers.
Let SJ := Json.no_json.
Let UC := Shield.ascii_case.
Let SH := Jwt.demo_hash.
Let JT := Jwks.plain_text.
Let JX := Jwt.demo_text.
Let JC := Jwt.demo_crypto.
Let MJ := Window.canonical_order Z Z.
Let FT := Behavioral.no_f32_text.
Let MB := Window.canonical_order Behavioral.BehaviorKey Behavioral.IpProfile.
Let MR := Window.canonical_order RateLimit.RateKey (list Instant).
Let RX := Waf.literal_regexes.
Let INF := no_inflate.
Let JN := Schema.plain_numbers.
Let ET := WafEngine.deny_text.
Let AT := Authz.allow_text.
Let S256 := shout.
Let NH := count_names.
Let D := Grpc.demo_descriptors.
Let DB := Abuse.no_mmdb.
Let DE := Dlp.Toy.engine.
#[local] Existing Instances HM SJ UC SH JT JX JC MJ FT MB MR RX INF JN ET AT S256 NH D DB DE.

(** An origin that answers with [body], and says so. *)
Definition answering (status : string) (body : string) : OriginWorld := {|
  ow_ready := 0; ow_pick := 0; ow_reported := 0; ow_response := fun _ _ => 0; ow_abuse := fun _ => 0; ow_sent := true;
  ow_wire := fun _ _ _ => {| wi_connected := true; wi_written := true;
    wi_reads := [Ok (lit "HTTP/1.1 " ++ lit status ++ [13; 10] ++ lit "Server: nginx" ++ [13; 10] ++ lit "Content-Type: text/plain" ++ [13; 10]
                     ++ lit "Content-Length: " ++ show_dec (len (lit body)) ++ [13; 10; 13; 10]); Ok (lit body)] |} |}.
Definition any_status (c : Z) : bool := (100 <=? c) && (c <=? 999).
Definition greeting : Session (list (bytes * bytes)) := post "/x" ["hello "; "world"].

Definition exchange (status body : string) := filter_and_commit any_status demo_proxy calm (answering status body) greeting fresh.

(** A greeting passes, a card number does not. *)
Example exchanges :
  match (exchange "200 OK" "all good").2 with Next (_, Some d) => dl_body d =s "all good" | _ => false end = true
  /\ match (exchange "200 OK" "4111 1111 1111 1111").2 with Answer r => rp_status r | _ => 0 end = 502.
Proof. vm_compute. split; reflexivity. Qed.

Lemma committed_answer_vetted_witness : exists ctx s' l d,
  commit_origin_response any_status demo_proxy calm (answering "200 OK" "all good") ctx greeting (ss_headers greeting) None (lit "hello world") fresh
  = (s', l, Next d) /\ get_all (dl_headers d) "Server" = [].
Proof.
  assert (match (run greeting).2 with
          | Next a => match (commit_origin_response any_status demo_proxy calm (answering "200 OK" "all good") (a_ctx a) greeting
                              (ss_headers greeting) None (lit "hello world") fresh).2 with Next _ => true | _ => false end
          | _ => false
          end = true) as E by (vm_compute; reflexivity).
  destruct (run greeting).2 as [a| | |]; [|discriminate E..].
  destruct (commit_origin_response _ _ _ _ _ _ _ _ _ _) as [[s' l] [d| | |]] eqn:Ec in E; [|discriminate E..].
  exists (a_ctx a), s', l, d. split; [exact Ec|].
  refine (proj1 (proj2 (proj2 (committed_answer_vetted any_status demo_proxy calm (answering "200 OK" "all good") (a_ctx a) greeting
    (ss_headers greeting) None (lit "hello world") fresh s' l d eq_refl Ec))) (lit "Server") _).
  left.
Defined.

Definition plain : ResponseCtx := {| content_type := Some (lit "text/plain"); response_content_encoding := None; skip_dlp := false |}.
Definition two_calls : list BodyCall :=
  [{| bc_chunk := Some (lit "all "); bc_end := false; bc_others := 10 |}; {| bc_chunk := Some (lit "good"); bc_end := true; bc_others := 0 |}].

Lemma streamed_answer_reference_witness : exists a s' l out error,
  (run greeting).2 = Next a
  /\ stream_body demo_proxy (a_ctx a) plain 30 two_calls
      (MkStreaming {| Budget.current := 30; Budget.budget_max := 100 |} (Budget.idle 0) (Budget.buffer_new (MAX_RESPONSE_BUFFER (fun _ => None))) false)
     = (s', l, Next (out, error))
  /\ Budget.current (st_budget s') = 0 /\ inspected demo_proxy (a_ctx a) plain (lit "all good") out error.
Proof.
  destruct (goes_on (run greeting) ltac:(vm_compute; reflexivity)) as [a E].
  destruct (streamed_answer_reference demo_proxy (a_ctx a) plain {| Budget.current := 30; Budget.budget_max := 100 |} two_calls
    ltac:(vm_compute; discriminate) ltac:(repeat constructor; vm_compute; discriminate) ltac:(vm_compute; auto))
    as (s' & l & out & error & Es & Hh & Hc & Ho).
  exists a, s', l, out, error. split; [by rewrite E|]. split; [exact Es|]. split; [exact Hc|exact Ho].
Defined.
End evaluations.
