(* ===== verification/Logbook.v ===== *)
(** * What the log says of a request ([src/proxy.rs])

    The span of a request says whether it was denied ([Egress.decision]), from the last event its context noted.  A request the filter
    refuses is logged as denied, and one that goes on as allowed, with one exception: authorization that fails open. *)

From S2P Require Import Prelude Net Http Inspection Stage Pipeline Mediation Egress.
From S2P Require IpText Window Shield ClientIp Framing Budget Spool Protocol Waf Json Route Grpc Graphql Jwks Jwt Authz.
From S2P Require Schema OpenApi WafEngine Origin RateLimit Behavioral Abuse Dlp Config Upstream.

#[local] Existing Instances Behavioral.BehaviorKey_eq_dec Behavioral.BehaviorKey_countable RateLimit.RateKey_eq_dec RateLimit.RateKey_countable
  Shield.ShieldVerdict_eq_dec Dlp.DlpAction_eq_dec.

(** ** What stages note *)

Definition unavailable : bytes := lit "authz_unavailable".
Definition redirect : bytes := lit "https_redirect".

(** The events noted satisfy [P]. *)
Definition noted (P : bytes -> Prop) (l : list Mark) : Prop := forall e, NotedEvent e ∈ l -> P e.
(** An event that is logged as a denial. *)
Definition denies (e : bytes) : Prop := e <> [] /\ e <> redirect.

(** [notes m]: whatever the stage comes to, the events it notes are denials; where it goes on they are all [unavailable]. *)
Definition notes {S A} (m : Stage S A) : Prop := forall s s' l x, m s = (s', l, x) ->
  noted denies l /\ match x with Next _ => noted (eq unavailable) l | _ => True end.

Lemma noted_app P l l' : noted P (l ++ l') <-> noted P l /\ noted P l'.
Proof. unfold noted. setoid_rewrite elem_of_app. naive_solver. Qed.
Lemma noted_nil P : noted P [].
Proof. intros e He. by apply not_elem_of_nil in He. Qed.
Lemma noted_none P l : Forall (fun m => match m with NotedEvent _ => False | _ => True end) l -> noted P l.
Proof. intros Hl e He. rewrite Forall_forall in Hl. by destruct (Hl _ He). Qed.
Lemma noted_event (P : bytes -> Prop) e : (e <> [] -> P e) -> noted P (note_event e).
Proof.
  intros HP e'. unfold note_event. destruct (is_empty e) eqn:E; [intros H; by apply not_elem_of_nil in H|].
  intros [= ->]%list_elem_of_singleton. apply HP. by apply is_empty_false.
Qed.

Lemma notes_bind {S A B} (m : Stage S A) (k : A -> Stage S B) : notes m -> (forall a, notes (k a)) -> notes (bind m k).
Proof.
  intros Hm Hk s s' l x. unfold bind. destruct (m s) as [[s1 l1] y] eqn:E. destruct (Hm _ _ _ _ E) as [H1 H2].
  destruct y as [a|r| |]; [|by intros [= _ <- <-]..]. destruct (k a s1) as [[s2 l2] z] eqn:E2. destruct (Hk _ _ _ _ _ E2) as [H3 H4].
  intros [= _ <- <-]. rewrite !noted_app. split; [done|]. destruct z; [|done..]. by rewrite noted_app.
Qed.

(** A stage that does not go on may note any denial. *)
Lemma notes_stops {S A} (l : list Mark) (m : Stage S A) : noted denies l -> notes m -> stops m ->
  notes (bind (mark l) (fun _ => m)).
Proof.
  intros Hl Hm Hs s s' l' x. unfold bind, mark. destruct (m s) as [[s1 l1] y] eqn:E. destruct (Hm _ _ _ _ E) as [H1 H2].
  destruct y; [by apply Hs in E|..]; intros [= _ <- <-]; by rewrite noted_app.
Qed.

Lemma notes_mark {S} l : Forall (fun m => match m with NotedEvent _ => False | _ => True end) l -> notes (S := S) (mark l).
Proof. intros Hl s s' l' x [= _ <- <-]. split; by apply noted_none. Qed.
Lemma notes_silent {S A} (m : Stage S A) : (forall s, (m s).1.2 = []) -> notes m.
Proof. intros Hm s s' l x E. specialize (Hm s). rewrite E in Hm. cbn in Hm. subst l. split; [|destruct x; [|done..]]; apply noted_nil. Qed.

Lemma notes_ret {S A} (a : A) : notes (S := S) (ret a).
Proof. by apply notes_silent. Qed.
Lemma notes_answer {S A} r : notes (S := S) (A := A) (answer r).
Proof. by apply notes_silent. Qed.
Lemma notes_fails {S A} : notes (S := S) (A := A) fails.
Proof. by apply notes_silent. Qed.
Lemma notes_or_panic {S A} (o : option A) : notes (S := S) (or_panic o).
Proof. by apply notes_silent. Qed.
Lemma notes_operate {S A} (f : S -> S * A) : notes (operate f).
Proof. apply notes_silent. intros s. unfold operate. by destruct (f s). Qed.
Lemma notes_write {H S} {HM : HeaderMap H} writes status fields body : notes (S := S) (write writes status fields body).
Proof. apply notes_silent. intros s. unfold write. by destruct (_ && _). Qed.

Lemma notes_given {S A B} (o : option A) (k : A -> Stage S B) : (forall a, o = Some a -> notes (k a)) -> notes (bind (or_panic o) k).
Proof.
  intros Hk. destruct o as [a|]; [|by apply notes_silent]. intros s s' l x E. apply (Hk a eq_refl s s').
  unfold bind, or_panic in E. by destruct (k a s) as [[? ?] ?].
Qed.

Create HintDb notes.
#[export] Hint Resolve notes_ret notes_answer notes_fails notes_or_panic notes_operate notes_write : notes.

Lemma denies_waf reason : denies (event_type_from_waf_reason reason).
Proof. unfold event_type_from_waf_reason. repeat match goal with |- context [if ?x then _ else _] => destruct x end; split; vm_compute; discriminate. Qed.
Lemma denies_jwt failure : denies (Jwt.failure_event_type failure).
Proof. destruct failure; split; vm_compute; discriminate. Qed.
#[export] Hint Resolve denies_waf denies_jwt : notes.

(** Marks that are not events of the log. *)
Lemma quiet_metrics l : Forall (fun m => match m with NotedEvent _ => False | _ => True end) (metrics l).
Proof. by apply Forall_map, Forall_forall. Qed.
Lemma quiet_counted l : Forall (fun m => match m with NotedEvent _ => False | _ => True end) (map Counted l).
Proof. by apply Forall_map, Forall_forall. Qed.
Lemma quiet_rules l : Forall (fun m => match m with NotedEvent _ => False | _ => True end) (note_rule_ids l).
Proof. unfold note_rule_ids. destruct (is_empty l); repeat constructor. Qed.
Lemma quiet_blocked l : Forall (fun m => match m with NotedEvent _ => False | _ => True end) (blocked l).
Proof. by apply Forall_map, Forall_forall. Qed.
#[export] Hint Resolve quiet_metrics quiet_blocked quiet_counted quiet_rules : notes.

Ltac quiet := unfold block_in, block_at; repeat first [solve [eauto with notes] | apply Forall_app_2 | apply Forall_cons_2; [exact I|] | apply Forall_nil_2].
Ltac denial :=
  match goal with
  | |- noted _ (_ ++ _) => apply noted_app; split; denial
  | |- noted _ (note_event _) => apply noted_event; intros _; first [solve [auto with notes] | split; vm_compute; discriminate]
  | |- noted _ _ => apply noted_none; quiet
  end.

(** [noting]: the stage is a composition of stages that note what they may. *)
Ltac noting :=
  repeat first
    [ progress intros
    | solve [eauto with notes]
    | apply notes_mark; solve [quiet]
    | apply notes_stops; [solve [denial] | | solve [eauto 8 with stages]]
    | apply notes_bind
    | match goal with |- notes (match ?x with _ => _ end) => destruct x end
    | progress (unfold send, simple, shield_gate, send_400, send_401, send_403, send_408, send_413, send_429, send_431, send_502, send_503,
        send_body_timeout, write_421, mark_outcome, note_rule_ids, note_outcome) ].

(** ** The stages of the filter *)

Section Filter.
Context {H : Type} {HM : HeaderMap H} {SJ : Json.SerdeJson} {UC : Shield.UnicodeCase} {SH : ClientIp.StrHash}
  {JT : Jwks.JwksText} {JX : Jwt.JwtText} {JC : Jwt.JwtCrypto} {MJ : Window.MapOrder Z Z}
  {FT : Behavioral.F32Text} {MB : Window.MapOrder Behavioral.BehaviorKey Behavioral.IpProfile}
  {MR : Window.MapOrder RateLimit.RateKey (list Instant)} {RX : Waf.Regexes} {INF : Waf.Inflate}
  {JN : Schema.JsonNumbers} {ET : WafEngine.EngineText} {AT : Authz.AuthzText} {S256 : Graphql.Sha256}
  {NH : Abuse.NameHash} {D : Grpc.Descriptors} {DB : Abuse.Mmdb}.
Context (px : FerroadaProxy) (w : World).

Lemma notes_on_pools f : notes (on_pools f).
Proof. apply notes_silent. intros s. unfold on_pools. by destruct (f (pools s)). Qed.
#[local] Hint Resolve notes_on_pools : notes.

Lemma notes_slot client uri : notes (take_slot w client uri).
Proof. unfold take_slot, on_slots. noting. Qed.
Lemma notes_head ss client uri : notes (check_head px w ss client uri).
Proof. unfold check_head. noting. Qed.
Lemma notes_route ss client uri : notes (route_request px w ss client uri).
Proof. unfold route_request. noting. Qed.
Lemma notes_https b https client uri : notes (force_https px w b https client uri).
Proof. unfold force_https. noting. Qed.

Lemma notes_identify ss b client uri : notes (identify px w ss b client uri).
Proof. unfold identify, apply_jwt_identity, reject_jwt, apply_abuse, send_abuse, apply_behavioral, on_jwt, on_abuse, on_profiles. noting. Qed.

Lemma notes_admit_head ss b policy https client uri who : notes (admit_head px w ss b policy https client uri who).
Proof. unfold admit_head, check_request, apply_rate_limit, apply_protocols, apply_waf_request, waf_block, on_limiter, on_profiles. noting. Qed.

Lemma notes_envelope ctx method h : notes (openapi_envelope w ctx method h).
Proof. unfold openapi_envelope. noting. Qed.
Lemma notes_parse_error ctx reason : notes (parse_error_stage w ctx reason).
Proof. unfold parse_error_stage. noting. Qed.
#[local] Hint Resolve notes_parse_error : notes.
Lemma notes_grpc_headers ctx method h : notes (apply_grpc_headers w ctx method h).
Proof. unfold apply_grpc_headers, refuse_grpc, deny_grpc_parse. noting. Qed.

(** The engine's event is noted only with the refusal. *)
Lemma l1_event_denies ctx (ss : Session H) h body decoded o :
  WafEngine.apply_l1 (px_engine px) (skip_body_waf ctx)
    (Some (Config.backend_l1_for (backend ctx) (request_uri ctx) (request_content_type ctx))) (inspection ctx) (ss_method ss)
    (http_version_token (ss_version ss)) (request_uri ctx) (client_addr ctx) (site_scope ctx) h (request_content_type ctx)
    body decoded (w_engine w) = Some o ->
  WafEngine.l1_event o = [] \/ denies (WafEngine.l1_event o) /\ WafEngine.l1_answer o <> Authz.Continue.
Proof.
  unfold WafEngine.apply_l1. destruct (_ || _); [by intros [= <-]; left|]. destruct (Config.backend_l1_for _ _ _) as [p|]; [|done].
  destruct (WafEngine.skip p); [by intros [= <-]; left|]. cbv zeta. intros [= <-]. unfold WafEngine.act_on_verdict.
  destruct (WafEngine.inspect _ _ _) as [|ids score|ids message score|]; [by left|by left| |].
  - destruct (WafEngine.shadow _); [by left|right]. split; [split; vm_compute; discriminate|done].
  - left. by destruct (disposition _ _).
Qed.

Lemma notes_l1 ctx ss h body decoded : notes (l1_stage px w ctx ss h body decoded).
Proof.
  unfold l1_stage. apply notes_given. intros o E%l1_event_denies. unfold waf_block, on_profiles.
  destruct (WafEngine.l1_answer o) as [|reason].
  - destruct E as [->|[_ ?]]; [|done]. apply notes_bind; [apply notes_mark; change (note_event []) with (@nil Mark); quiet|noting].
  - apply notes_stops; [|noting|eauto 8 with stages]. apply noted_app; split; [denial|]. apply noted_app; split; [denial|].
    apply noted_app; split; [|denial]. apply noted_event. intros Hne. by destruct E as [E|[E _]].
Qed.

(** Authorization notes a refusal, or that the service could not be asked. *)
Lemma notes_authz ctx body : notes (authz_stage w ctx body).
Proof.
  unfold authz_stage. destruct (Authz.apply_authz _ _ _ _ _ _ _ _ _) as [reply events] eqn:E.
  set (l := flat_map _ events).
  assert (noted denies l /\ (reply = Authz.Continue -> noted (eq unavailable) l)) as [Hl Hc].
  { subst l. unfold Authz.apply_authz in E.
    repeat match goal with H : match ?x with _ => _ end = _ |- _ => destruct x end;
      unfold Authz.reject_authz_deny, Authz.reject_authz_unavailable in E; injection E as <- <-; cbn [flat_map app];
      (split; [|intros Hr; try discriminate Hr]); try apply noted_nil; rewrite ?app_nil_r;
      try (apply noted_app; split; [apply noted_event; intros _; first [reflexivity|split; vm_compute; discriminate]|apply noted_none; quiet]). }
  destruct reply; [|apply notes_stops; [done|noting|eauto 8 with stages]]. apply notes_bind; [|noting].
  intros s s' l' x [= _ <- <-]. auto.
Qed.
#[local] Hint Resolve notes_l1 notes_authz : notes.

Lemma notes_policies ctx ss matched body : notes (body_policies w ctx ss matched body).
Proof. unfold body_policies, openapi_body, apply_jwt_body, reject_jwt, apply_graphql, apply_grpc_body, refuse_grpc, deny_grpc_parse, on_books. noting. Qed.
Lemma notes_waf_body ctx wire : notes (apply_waf_body px w ctx wire).
Proof. unfold apply_waf_body, waf_block, on_profiles. noting. Qed.
Lemma notes_read_spool ctx max_body reads : notes (read_spool w ctx max_body reads).
Proof. induction reads as [|[] reads IH]; cbn [read_spool]; unfold on_spool, spool_refused; noting. Qed.
Lemma notes_read_wire ctx reads : forall buf, notes (read_wire px w ctx buf reads).
Proof. induction reads as [|[] reads IH]; intros buf; cbn [read_wire]; noting. Qed.
Lemma notes_spooled ctx io failed : notes (spooled_bytes w ctx io failed).
Proof. unfold spooled_bytes, on_spool, spool_refused. noting. Qed.
#[local] Hint Resolve notes_policies notes_waf_body notes_read_spool notes_read_wire notes_spooled : notes.

Lemma notes_admit_body ctx ss n matched : notes (admit_body px w ctx ss n matched).
Proof.
  unfold admit_body, reserve_body, answer_expect, receive_body, announce_empty, inspect_received, wire_of, pass_body, on_requests, on_spool.
  noting.
Qed.

#[local] Hint Resolve notes_slot notes_head notes_route notes_https notes_identify notes_admit_head notes_envelope notes_grpc_headers
  notes_admit_body : notes.

Lemma notes_filter ss : notes (request_filter px w ss).
Proof. unfold request_filter. destruct (client_address px ss) as [client peer]. noting. Qed.

(** The event a context ends with is one that was noted. *)
Lemma event_of_noted (P : bytes -> Prop) l : noted P l -> event_of l = [] \/ P (event_of l).
Proof.
  unfold event_of. induction l as [|m l IH] using rev_ind; [by left|]. rewrite noted_app, fold_left_app. intros [Hl Hm]. cbn [fold_left].
  destruct m; try by apply IH. right. apply Hm, list_elem_of_singleton. done.
Qed.

(** The log tells the truth: a request the filter answers with an error is logged as denied; one that goes on is logged as allowed
    when the origin answers, whatever it answers, unless the authorization service could not be asked and fails open. *)
Theorem decision_truthful (ss : Session H) (s s' : Live) (l : list Mark) (outcome : Flow Cleared) :
  request_filter px w ss s = (s', l, outcome) ->
  (forall r, outcome = Answer r -> 400 <= rp_status r -> decision (event_of l) false (Some (rp_status r)) = lit "deny")
  /\ (forall a status, outcome = Next a -> event_of l <> unavailable -> decision (event_of l) true status = lit "allow").
Proof.
  intros [Hd Hn]%notes_filter. split.
  - intros r _ Hr. unfold decision. destruct (event_of_noted _ _ Hd) as [->|[Hne Hnr]]; [cbn; by rewrite (proj2 (Z.leb_le _ _))|].
    destruct (event_of l =s "https_redirect") eqn:E; [by apply bytes_eqb_eq in E|]. by apply is_empty_false in Hne as ->.
  - intros a status -> Hu. destruct (event_of_noted _ _ Hn) as [->|Hx]; [done|by destruct Hu].
Qed.

(** A request let through because the authorization service could not be asked is logged as denied, although it reaches the origin. *)
Lemma fail_open_logged_denied ctx body s policy who what detail :
  Authz.authz_for (Config.authz_routes (backend ctx)) (request_uri ctx) = Some policy -> Authz.fail_mode policy = Authz.FailOpen ->
  principal ctx = Some who ->
  Authz.extract_resource policy (before 63 (request_uri ctx)) body (fst <$> Config.b_jwt (backend ctx))
    (openapi_params (backend ctx) (event_path (request_uri ctx))) = Some what ->
  Authz.authz_decide {| Authz.rq_principal := Jwt.sub who; Authz.rq_action := Authz.action policy; Authz.rq_resource := what;
                        Authz.rq_tenant := Jwt.tenant who |} (w_authz w policy) = Authz.AuthzUnavailable detail ->
  exists l, authz_stage w ctx body s = (s, l, Next tt) /\ forall status, decision (event_of l) true status = lit "deny".
Proof.
  intros Hp Hf Hw Hr Hd. unfold authz_stage, Authz.apply_authz. rewrite Hp, Hw. cbv zeta. rewrite Hr, Hd.
  unfold Authz.reject_authz_unavailable. rewrite Hf. eexists. split; [reflexivity|]. intros status. reflexivity.
Qed.
End Filter.

(** ** Evaluations *)

Lemma decision_truthful_witness : exists s' l a, run greeting = (s', l, Next a) /\ decision (event_of l) true (Some 403) = lit "allow".
Proof.
  destruct (goes_on (run greeting) ltac:(vm_compute; reflexivity)) as [a E].
  exists (run greeting).1.1, (run greeting).1.2, a. split; [exact E|].
  refine (proj2 (decision_truthful _ _ _ _ _ _ _ E) a (Some 403) eq_refl _). vm_compute. discriminate.
Defined.
