(* ===== verification/AdminText.v ===== *)
(** * Texts of the dashboard ([src/dashboard_auth.rs], [src/dashboard_oidc.rs])

    Forms, cookies, bearer tokens, the comparison of secrets and the settings of the operators' interface, with the round trip of
    form encoding. *)

From S2P Require Import Prelude Text Shield Framing.

(** ** Settings *)

(** [src/dashboard_auth.rs: fn env_nonempty] *)
Definition env_nonempty (env : Env) (name : string) : option bytes := trimmed_nonempty (env name).

(** [src/dashboard_auth.rs: fn env_set] *)
Definition env_set (env : Env) (name : string) : gset bytes :=
  match env_nonempty env name with
  | Some raw => list_to_set (base.filter (fun part => part <> []) (map trim (split_on 44 raw)))
  | None => ∅
  end.

(** [src/dashboard_auth.rs: fn env_u64] *)
Definition env_u64 (env : Env) (name : string) (dflt : Z) : Z := env_positive env name u64_max dflt.

(** [src/dashboard_auth.rs: fn nonempty_token] *)
Definition nonempty_token (token : option bytes) : option bytes := trimmed_nonempty token.

(** ** Roles *)

(** [src/dashboard_auth.rs: enum Role] *)
Inductive Role : Set := Viewer | Operator.
#[export] Instance Role_eq_dec : EqDecision Role.
Proof. solve_decision. Defined.

(** [src/dashboard_auth.rs: Role::as_str] *)
Definition role_as_str (r : Role) : bytes := match r with Viewer => lit "viewer" | Operator => lit "operator" end.
(** [src/dashboard_auth.rs: Role::can_reload] *)
Definition can_reload (r : Role) : bool := match r with Operator => true | Viewer => false end.

(** ** Secrets *)

(** [src/dashboard_auth.rs: const TOKEN_MAX] *)
Definition TOKEN_MAX : Z := 1024.

(** [src/dashboard_auth.rs: fn constant_time_eq] *)
Definition constant_time_eq (provided expected : bytes) : bool :=
  if negb (len provided =? len expected) then false
  else fold_left (fun difference '(a, b) => Z.lor difference (Z.lxor a b)) (zip provided expected) 0 =? 0.

(** [src/dashboard_auth.rs: fn bearer] *)
Definition bearer (authorization : option bytes) : option bytes :=
  value ← trimmed_nonempty authorization;
  '(scheme, rest) ← split_once 32 value;
  if negb (eq_ignore_ascii_case scheme "bearer") then None
  else
    let token := trim rest in
    if is_empty token || (TOKEN_MAX <? len token) then None else Some token.

Definition hex_char (n : Z) : Z := if n <? 10 then 48 + n else 87 + n.
(** [src/dashboard_auth.rs: fn hex_encode] *)
Definition hex_encode (raw : bytes) : bytes := flat_map (fun b => [hex_char (Z.shiftr b 4); hex_char (Z.land b 15)]) raw.

(** ** Forms *)

(** [src/dashboard_auth.rs: fn hex_nibble] *)
Definition hex_nibble (value : Z) : option Z :=
  if in_range 48 57 value then Some (value - 48)
  else if in_range 97 102 value then Some (value - 97 + 10)
  else if in_range 65 70 value then Some (value - 65 + 10)
  else None.

(** The loop of [form_decode]. *)
Fixpoint percent_decode (s : bytes) : bytes :=
  match s with
  | [] => []
  | b :: rest =>
      if b =? 37 then
        match rest with
        | h :: l :: rest' =>
            match hex_nibble h, hex_nibble l with
            | Some high, Some low => Z.lor (Z.shiftl high 4) low :: percent_decode rest'
            | _, _ => b :: percent_decode rest
            end
        | _ => b :: percent_decode rest
        end
      else b :: percent_decode rest
  end.

(** [src/dashboard_auth.rs: fn form_decode] *)
Definition form_decode (raw : bytes) : bytes :=
  let plus := map (fun b => if b =? 43 then 32 else b) raw in
  let out := percent_decode plus in
  if is_utf8 out then out else plus.

Definition unreserved (b : Z) : bool :=
  in_range 65 90 b || in_range 97 122 b || in_range 48 57 b || existsb (Z.eqb b) [45; 95; 46; 126].
Definition upper_hex_char (n : Z) : Z := if n <? 10 then 48 + n else 55 + n.

(** [src/dashboard_oidc.rs: fn form_encode] *)
Definition form_encode (raw : bytes) : bytes :=
  flat_map (fun b => if unreserved b then [b] else if b =? 32 then [43]
                     else [37; upper_hex_char (Z.shiftr b 4); upper_hex_char (Z.land b 15)]) raw.

Fixpoint find_pair (pairs : list bytes) (name : bytes) : option bytes :=
  match pairs with
  | [] => None
  | kv :: pairs =>
      match split_once 61 kv with
      | Some (key, value) => if key =s name then Some (form_decode value) else find_pair pairs name
      | None => find_pair pairs name
      end
  end.

(** [src/dashboard_auth.rs: fn query_param] *)
Definition query_param (query : option bytes) (name : bytes) : option bytes := query ← query; find_pair (split_on 38 query) name.

Fixpoint find_field (pairs : list bytes) (name : bytes) : option bytes :=
  match pairs with
  | [] => None
  | kv :: pairs =>
      match split_once 61 kv with
      | Some (key, value) => if key =s name then Some (form_decode value) else find_field pairs name
      | None => if kv =s name then Some [] else find_field pairs name
      end
  end.

(** [src/dashboard_auth.rs: fn form_field] *)
Definition form_field (body name : bytes) : option bytes := find_field (split_on 38 body) name.

Fixpoint find_cookie (parts : list bytes) (name : bytes) : option bytes :=
  match parts with
  | [] => None
  | part :: parts =>
      match split_once 61 (trim part) with
      | Some (key, value) => if trim key =s name then Some (trim value) else find_cookie parts name
      | None => find_cookie parts name
      end
  end.

(** [src/dashboard_auth.rs: fn cookie_value] *)
Definition cookie_value (header : option bytes) (name : bytes) : option bytes := header ← header; find_cookie (split_on 59 header) name.

(** [src/dashboard_auth.rs: fn credentials_in_query] *)
Definition credentials_in_query (path : bytes) (query : option bytes) : bool :=
  match query with
  | None => false
  | Some query =>
      let callback := path =s "/oidc/callback" in
      existsb (fun kv =>
        let key := to_ascii_lowercase (trim (before 61 kv)) in
        if one_of key ["token"; "access_token"; "id_token"; "client_secret"; "code_verifier"; "refresh_token"] then true
        else (key =s "code") && negb callback) (split_on 38 query)
  end.

(** [src/dashboard_auth.rs: const COOKIE_NAME] *)
Definition COOKIE_NAME : bytes := lit "ferroada_admin".

(** [src/dashboard_auth.rs: fn session_cookie] *)
Definition session_cookie (id : bytes) (ttl : Duration) (secure : bool) : bytes :=
  COOKIE_NAME ++ lit "=" ++ id ++ lit "; HttpOnly; SameSite=Strict; Path=/; Max-Age=" ++ show_dec (ttl / from_secs 1)
  ++ (if secure then lit "; Secure" else []).

(** ** Properties *)

Lemma fold_differences l : forall d, fold_left (fun difference '(a, b) => Z.lor difference (Z.lxor a b)) l d = 0
  <-> d = 0 /\ Forall (fun p => p.1 = p.2) l.
Proof.
  induction l as [|[a b] l IH]; intros d; cbn [fold_left]; [split; [by auto|by intros [? _]]|].
  rewrite IH, Z.lor_eq_0_iff, Z.lxor_eq_0_iff, Forall_cons. cbn. tauto.
Qed.

(** Comparing without stopping at the first difference is equality. *)
Lemma constant_time_eq_spec a b : constant_time_eq a b = true <-> a = b.
Proof.
  unfold constant_time_eq. destruct (Z.eqb_spec (len a) (len b)) as [Hl|Hl]; cbn [negb].
  - rewrite Z.eqb_eq, fold_differences. unfold len in Hl. split.
    + intros [_ Hf]. revert b Hl Hf. induction a as [|x a IH]; intros [|y b] Hl Hf; cbn in *; try done; try lia.
      apply Forall_cons in Hf as [Hx Hf]. cbn in Hx. subst. f_equal. apply IH; [lia|done].
    + intros <-. split; [done|]. clear. induction a as [|x a IH]; cbn; constructor; done.
  - split; [done|]. by intros ->.
Qed.

(** *** Form encoding *)

Definition all_bytes : list Z := map Z.of_nat (seq 0 256).
Lemma byte_listed b : is_byte b -> In b all_bytes.
Proof. intros Hb. apply in_map_iff. exists (Z.to_nat b). unfold is_byte in Hb. split; [lia|]. apply in_seq. lia. Qed.

(** A property of bytes decided by trying them all. *)
Lemma every_byte (P : Z -> bool) : forallb P all_bytes = true -> forall b, is_byte b -> P b = true.
Proof. rewrite forallb_forall. intros HP b Hb. by apply HP, byte_listed. Qed.

Definition encode_byte (b : Z) : bytes :=
  if unreserved b then [b] else if b =? 32 then [43] else [37; upper_hex_char (Z.shiftr b 4); upper_hex_char (Z.land b 15)].

Definition unplus (s : bytes) : bytes := map (fun b => if b =? 43 then 32 else b) s.

(** How each byte is written: kept, or an escape that reads back. *)
Lemma encode_byte_cases b : is_byte b ->
  (exists c, unplus (encode_byte b) = [b] /\ b <> 37 /\ c = b)
  \/ exists h l x y, unplus (encode_byte b) = [37; h; l] /\ hex_nibble h = Some x /\ hex_nibble l = Some y /\ Z.lor (Z.shiftl x 4) y = b.
Proof.
  intros Hb.
  assert ((match unplus (encode_byte b) with
           | [c] => (c =? b) && negb (b =? 37)
           | [p; h; l] => (p =? 37) && match hex_nibble h, hex_nibble l with Some x, Some y => Z.lor (Z.shiftl x 4) y =? b | _, _ => false end
           | _ => false
           end) = true) as H by (revert b Hb; apply every_byte; vm_compute; reflexivity).
  destruct (unplus (encode_byte b)) as [|p [|h [|l [|? ?]]]]; try done.
  - left. exists b. apply andb_true_iff in H as [->%Z.eqb_eq H]. apply negb_true_iff, Z.eqb_neq in H. done.
  - right. apply andb_true_iff in H as [->%Z.eqb_eq H]. destruct (hex_nibble h) as [x|] eqn:Eh, (hex_nibble l) as [y|] eqn:El; try done.
    apply Z.eqb_eq in H. by exists h, l, x, y.
Qed.

Lemma percent_decode_encode s : Forall is_byte s -> percent_decode (unplus (form_encode s)) = s.
Proof.
  induction 1 as [|b s Hb _ IH]; [done|]. change (form_encode (b :: s)) with (encode_byte b ++ form_encode s).
  unfold unplus. rewrite map_app. fold (unplus (encode_byte b)) (unplus (form_encode s)).
  destruct (encode_byte_cases b Hb) as [(_ & -> & Hp & _)|(h & l & x & y & -> & Hx & Hy & Hxy)]; cbn [app percent_decode].
  - destruct (Z.eqb_spec b 37); [done|]. by rewrite IH.
  - cbn. rewrite Hx, Hy, Hxy, IH. done.
Qed.

(** Encoding then decoding a text gives it back. *)
Lemma form_roundtrip s : Forall is_byte s -> is_utf8 s = true -> form_decode (form_encode s) = s.
Proof.
  intros Hb Hu. unfold form_decode. fold (unplus (form_encode s)). cbv zeta. rewrite percent_decode_encode by done. by rewrite Hu.
Qed.

(** What is written has none of the characters that separate fields. *)
Lemma form_encode_plain s c : Forall is_byte s -> c ∈ form_encode s -> c <> 38 /\ c <> 61.
Proof.
  intros Hs Hc. apply list_elem_of_In, in_flat_map in Hc as (b & Hin & Hc).
  assert (is_byte b) as Hb by (rewrite Forall_forall in Hs; by apply Hs, list_elem_of_In).
  assert (forallb (fun c => negb (c =? 38) && negb (c =? 61)) (encode_byte b) = true) as Hall
    by (revert b Hb Hin Hc; clear; intros b Hb _ _; revert b Hb; apply every_byte; vm_compute; reflexivity).
  rewrite forallb_forall in Hall. specialize (Hall c Hc). lia.
Qed.

(** A query written as [name=value] pairs with the values encoded. *)
Definition write_pair (p : bytes * bytes) : bytes := p.1 ++ 61 :: form_encode p.2.
Definition write_query (pairs : list (bytes * bytes)) : bytes := join [38] (map write_pair pairs).

Definition pair_ok (p : bytes * bytes) : Prop := (38 ∉ p.1) /\ (61 ∉ p.1) /\ Forall is_byte p.2 /\ is_utf8 p.2 = true.

Lemma split_pair p : pair_ok p -> split_once 61 (write_pair p) = Some (p.1, form_encode p.2).
Proof. intros (_ & H & _). unfold write_pair. by apply split_once_spec. Qed.

Lemma find_pair_written pairs name : Forall pair_ok pairs ->
  find_pair (map write_pair pairs) name = snd <$> List.find (fun p => p.1 =s name) pairs.
Proof.
  induction 1 as [|p pairs Hp _ IH]; [done|]. cbn [map find_pair List.find]. rewrite (split_pair p Hp).
  destruct (p.1 =s name); [|done]. destruct Hp as (_ & _ & Hb & Hu). cbn. by rewrite form_roundtrip.
Qed.

(** Reading a written query gives the value of the first pair of a name. *)
Lemma query_param_written pairs name : pairs <> [] -> Forall pair_ok pairs ->
  query_param (Some (write_query pairs)) name = snd <$> List.find (fun p => p.1 =s name) pairs.
Proof.
  intros Hne Hp. unfold query_param, write_query. cbn [mbind option_bind]. rewrite split_on_join; [by apply find_pair_written|by destruct pairs|].
  apply Forall_map. apply (Forall_impl _ _ _ Hp). intros p (H1 & _ & Hb & _). unfold write_pair. rewrite elem_of_app, elem_of_cons.
  intros [?|[?|Hc]]; [done|done|]. by destruct (form_encode_plain _ _ Hb Hc).
Qed.

(** The credential of a query that is read by name is one that is refused in it. *)
Lemma credential_refused path query name v : one_of name ["token"; "access_token"; "id_token"; "client_secret"; "code_verifier"; "refresh_token"] = true ->
  query_param query name = Some v -> credentials_in_query path query = true.
Proof.
  intros Hn. destruct query as [q|]; [|done]. cbn [query_param credentials_in_query mbind option_bind]. intros Hq. apply existsb_exists.
  induction (split_on 38 q) as [|kv l IH]; [done|]. cbn [find_pair] in Hq. destruct (split_once 61 kv) as [[key value]|] eqn:E.
  - destruct (key =s name) eqn:Ek; [|destruct (IH Hq) as (x & ? & ?); exists x; split; [by right|done]].
    apply bytes_eqb_eq in Ek as ->. exists kv. split; [by left|]. rewrite before_split_once, E.
    assert (to_ascii_lowercase (trim name) = name) as ->; [|by rewrite Hn].
    unfold one_of in Hn. apply existsb_exists in Hn as (x & Hx & ->%bytes_eqb_eq). cbn in Hx.
    repeat (destruct Hx as [<-|Hx]; [vm_compute; reflexivity|]). done.
  - destruct (IH Hq) as (x & ? & ?). exists x. split; [by right|done].
Qed.
