(* ===== verification/Oidc.v ===== *)
(** * Sign-in of operators ([src/dashboard_oidc.rs])

    The authorization code flow with PKCE: the settings and their discovery, the request to the identity provider, the exchange of
    the code, and the verification of the identity token.  The documents serde reads are the class [OidcText]; sockets, DNS and TLS are
    a transport given as an argument, as are the clock and the random bytes. *)

From S2P Require Import Prelude Text Shield Json Jwks AdminText.
From S2P Require Jwt Graphql WafEngine.

(** [src/dashboard_oidc.rs: const HTTP_MAX_BODY + const HTTP_MAX_REDIRECTS + const LEEWAY_SECS] *)
Definition HTTP_MAX_BODY : Z := 64 * 1024.
Definition HTTP_MAX_REDIRECTS : nat := 3.
Definition LEEWAY_SECS : Z := 60.

(** One constructor per message. *)
Inductive OidcError : Set :=
| NoOidcIssuer | NoClientId | NoRedirectUri | BadIssuer | IssuerUserinfo | BadRedirectUri | EndpointsIncomplete
| DiscoveryJson | DiscoveryIssuer | DiscoveryPkce
| OidcUrl | OidcUserinfo | OidcIpv6 | OidcPort | OidcNoHost
| OidcRedirects | OidcTransport | OidcTimeout | OidcRead | OidcIncomplete | OidcEmpty | OidcStatusMalformed | OidcTooLarge
| OidcNoLocation | OidcBadLocation | OidcHttp (status : Z)
| BadCode | BadTokenAnswer | NoIdToken | BadJwt | BadCrit | BadAlg | BadKid | BadJwks | BadSig | BadIss | BadAud | BadExp | BadNbf | BadIat
| BadNonce | NoRole | NoSub | NoRandom.

(** [src/dashboard_oidc.rs: struct Discovery] *)
Record Discovery : Type := {
  d_issuer : bytes; d_authorization : bytes; d_token : bytes; d_jwks : bytes; d_methods : option (list bytes) }.

(** [src/dashboard_oidc.rs: struct JwtHeader] *)
Record OidcHeader : Type := { oh_alg : bytes; oh_kid : option bytes; oh_crit : option (list bytes) }.

(** The documents serde reads: the answer of the token endpoint ([TokenResponse], its [id_token]), the discovery document, the header
    of a token, and the keys of a set (whose [alg] this code does not read). *)
Class OidcText : Type := {
  token_from_str : bytes -> option (option bytes);
  discovery_from_str : bytes -> option Discovery;
  oidc_header_from_slice : bytes -> option OidcHeader;
}.

(** [src/dashboard_oidc.rs: struct OidcConfig] *)
Record OidcConfig : Type := {
  oc_issuer : bytes; client_id : bytes; client_secret : option bytes; redirect_uri : bytes; authorization_endpoint : bytes;
  token_endpoint : bytes; jwks_uri : bytes; scopes : bytes; role_claim : bytes; operators : gset bytes; viewers : gset bytes }.

(** [src/dashboard_oidc.rs: struct PendingOidc] *)
Record PendingOidc : Type := { verifier : bytes; nonce : bytes }.

(** [src/dashboard_oidc.rs: struct OidcIdentity] *)
Record OidcIdentity : Type := { oi_subject : bytes; oi_role : Role }.

(** ** The HTTP client *)

(** A read of the connection. *)
Inductive NetRead : Type := NetData (chunk : bytes) | NetTimeout | NetError.

(** [src/dashboard_oidc.rs: fn read_limited] The connection ends where the list ends. *)
Fixpoint read_limited (reads : list NetRead) (room : Z) : result OidcError bytes :=
  if room <=? 0 then Ok []
  else match reads with
  | [] | NetData [] :: _ => Ok []
  | NetTimeout :: _ => Err OidcTimeout
  | NetError :: _ => Err OidcRead
  | NetData chunk :: reads =>
      let got := take (Z.to_nat room) chunk in
      rest ← read_limited reads (room - len got); Ok (got ++ rest)
  end.

(** [src/dashboard_oidc.rs: fn read_http] *)
Definition read_http (reads : list NetRead) : result OidcError (Z * option bytes * bytes) :=
  raw ← read_limited reads (HTTP_MAX_BODY + 4096);
  let text := utf8_lossy raw in
  '(head, body) ← ok_or OidcIncomplete
    match split_once_str [13; 10; 13; 10] text with Some x => Some x | None => split_once_str [10; 10] text end;
  match lines head with
  | [] => Err OidcEmpty
  | status_line :: header_lines =>
      status ← ok_or OidcStatusMalformed (split_whitespace status_line !! 1%nat ≫= parse_uint u16_max);
      if HTTP_MAX_BODY <? len body then Err OidcTooLarge else Ok (status, location_of header_lines, body)
  end.

(** [src/dashboard_oidc.rs: fn parse_http_url] *)
Definition parse_oidc_url (url : bytes) : result OidcError ParsedUrl :=
  '(tls, rest) ←
    match strip_prefix (lit "https://") url with
    | Some rest => Ok (true, rest)
    | None => match strip_prefix (lit "http://") url with Some rest => Ok (false, rest) | None => Err OidcUrl end
    end;
  if bool_decide (64 ∈ rest) then Err OidcUserinfo
  else
    let '(authority, path) :=
      match split_once 47 rest with Some (authority, path) => (authority, 47 :: path) | None => (rest, [47]) end in
    '(host, port) ←
      match authority with
      | 91 :: bracketed =>
          '(name, after) ← ok_or OidcIpv6 (split_once 93 bracketed);
          match after with
          | 58 :: port => p ← ok_or OidcPort (parse_uint u16_max port); Ok (name, p)
          | _ => Ok (name, default_port tls)
          end
      | _ =>
          match rsplit_once 58 authority with
          | Some (name, port) => p ← ok_or OidcPort (parse_uint u16_max port); Ok (name, p)
          | None => Ok (authority, default_port tls)
          end
      end;
    if is_empty host then Err OidcNoHost else Ok {| tls := tls; host := host; port := port; url_path := path |}.

(** [src/dashboard_oidc.rs: fn host_header] *)
Definition oidc_host_header (u : ParsedUrl) : bytes := host_header u.

(** [src/dashboard_oidc.rs: fn connect + fn resolve_host + fn remaining] What a server gives to a request: nothing when it cannot be
    reached, or not in time. *)
Definition Net : Type := ParsedUrl -> bytes -> option (list NetRead).

Definition crlf : bytes := [13; 10].

(** [src/dashboard_oidc.rs: fn http_get] [fuel] is the number of requests still allowed. *)
Fixpoint oidc_get (net : Net) (url : bytes) (fuel : nat) : result OidcError bytes :=
  match fuel with
  | O => Err OidcRedirects
  | S fuel =>
      u ← parse_oidc_url url;
      let request := lit "GET " ++ url_path u ++ lit " HTTP/1.0" ++ crlf ++ lit "Host: " ++ oidc_host_header u ++ crlf
        ++ lit "User-Agent: ferroada-oidc" ++ crlf ++ lit "Connection: close" ++ crlf ++ crlf in
      reads ← ok_or OidcTransport (net u request);
      '(status, location, body) ← read_http reads;
      if in_range 300 399 status then
        location ← ok_or OidcNoLocation location;
        if starts_with location (lit "http://") || starts_with location (lit "https://") then oidc_get net location fuel
        else match location with
             | 47 :: rest =>
                 oidc_get net ((if tls u then lit "https" else lit "http") ++ lit "://" ++ oidc_host_header u ++ 47 :: rest) fuel
             | _ => Err OidcBadLocation
             end
      else if negb (status =? 200) then Err (OidcHttp status)
      else Ok body
  end.

(** [src/dashboard_oidc.rs: fn http_post] *)
Definition oidc_post (net : Net) (url form : bytes) : result OidcError bytes :=
  u ← parse_oidc_url url;
  let request := lit "POST " ++ url_path u ++ lit " HTTP/1.0" ++ crlf ++ lit "Host: " ++ oidc_host_header u ++ crlf
    ++ lit "User-Agent: ferroada-oidc" ++ crlf ++ lit "Content-Type: application/x-www-form-urlencoded" ++ crlf
    ++ lit "Content-Length: " ++ show_dec (len form) ++ crlf ++ lit "Connection: close" ++ crlf ++ crlf ++ form in
  reads ← ok_or OidcTransport (net u request);
  '(status, _, body) ← read_http reads;
  if negb (status =? 200) then Err BadTokenAnswer else Ok body.

(** ** The settings *)

(** [src/dashboard_oidc.rs: fn trim_slash] *)
Definition trim_slash (raw : bytes) : bytes :=
  rev ((fix go (s : bytes) := match s with 47 :: r => go r | _ => s end) (rev (trim raw))).

Section Oidc.
Context {OT : OidcText} {SJ : SerdeJson} {JT : JwksText} {JC : Jwt.JwtCrypto} {S256 : Graphql.Sha256}.

(** [src/dashboard_oidc.rs: fn discover] *)
Definition discover (net : Net) (issuer : bytes) : result OidcError (bytes * bytes * bytes) :=
  body ← oidc_get net (issuer ++ lit "/.well-known/openid-configuration") (S HTTP_MAX_REDIRECTS);
  doc ← ok_or DiscoveryJson (discovery_from_str body);
  if negb (trim_slash (d_issuer doc) =s issuer) then Err DiscoveryIssuer
  else if match d_methods doc with Some methods => negb (existsb (fun m => m =s "S256") methods) | None => false end then Err DiscoveryPkce
  else Ok (d_authorization doc, d_token doc, d_jwks doc).

Definition OIDC_KEYS : list string :=
  ["DASHBOARD_OIDC_ISSUER"; "DASHBOARD_OIDC_CLIENT_ID"; "DASHBOARD_OIDC_CLIENT_SECRET"; "DASHBOARD_OIDC_REDIRECT_URI";
   "DASHBOARD_OIDC_AUTHORIZATION_ENDPOINT"; "DASHBOARD_OIDC_TOKEN_ENDPOINT"; "DASHBOARD_OIDC_JWKS_URI"; "DASHBOARD_OIDC_SCOPES";
   "DASHBOARD_OIDC_ROLE_CLAIM"; "DASHBOARD_OIDC_OPERATORS"; "DASHBOARD_OIDC_VIEWERS"].

Definition http_scheme (url : bytes) : bool := starts_with url (lit "https://") || starts_with url (lit "http://").

(** [src/dashboard_oidc.rs: OidcConfig::from_env] *)
Definition oidc_from_env (env : Env) (net : Net) : result OidcError (option OidcConfig) :=
  let var := env_nonempty env in
  let set name dflt := match var name with Some _ => env_set env name | None => {[ lit dflt ]} end in
  if negb (existsb (fun name => bool_decide (is_Some (var name))) OIDC_KEYS) then Ok None
  else
    issuer ← ok_or NoOidcIssuer (var "DASHBOARD_OIDC_ISSUER");
    client_id ← ok_or NoClientId (var "DASHBOARD_OIDC_CLIENT_ID");
    redirect_uri ← ok_or NoRedirectUri (var "DASHBOARD_OIDC_REDIRECT_URI");
    let issuer := trim_slash issuer in
    if negb (http_scheme issuer) then Err BadIssuer
    else if bool_decide (64 ∈ issuer) then Err IssuerUserinfo
    else if negb (http_scheme redirect_uri) then Err BadRedirectUri
    else
      '(authorization, token, jwks) ←
        match var "DASHBOARD_OIDC_AUTHORIZATION_ENDPOINT", var "DASHBOARD_OIDC_TOKEN_ENDPOINT", var "DASHBOARD_OIDC_JWKS_URI" with
        | Some a, Some t, Some j => Ok (a, t, j)
        | None, None, None => discover net issuer
        | _, _, _ => Err EndpointsIncomplete
        end;
      Ok (Some {| oc_issuer := issuer; client_id := client_id; client_secret := var "DASHBOARD_OIDC_CLIENT_SECRET";
                  redirect_uri := redirect_uri; authorization_endpoint := authorization; token_endpoint := token; jwks_uri := jwks;
                  scopes := default (lit "openid") (var "DASHBOARD_OIDC_SCOPES");
                  role_claim := default (lit "ferroada_role") (var "DASHBOARD_OIDC_ROLE_CLAIM");
                  operators := set "DASHBOARD_OIDC_OPERATORS" "operator"; viewers := set "DASHBOARD_OIDC_VIEWERS" "viewer" |}).

(** ** The request for an identity *)

(** [URL_SAFE_NO_PAD.encode] *)
Definition b64url_encode (raw : bytes) : bytes :=
  map (fun c => if c =? 43 then 45 else if c =? 47 then 95 else c) (base.filter (fun c => c <> 61) (WafEngine.b64_encode raw)).

(** [src/dashboard_oidc.rs: fn generate_pkce] [raw] are the random bytes. *)
Definition generate_pkce (raw : option bytes) : result OidcError (bytes * bytes) :=
  raw ← ok_or NoRandom raw;
  let verifier := b64url_encode raw in
  Ok (verifier, b64url_encode (Graphql.sha256 verifier)).

(** The fields of the request, in order. *)
Definition authorize_fields (c : OidcConfig) (state nonce challenge : bytes) : list (bytes * bytes) :=
  [(lit "client_id", client_id c); (lit "redirect_uri", redirect_uri c); (lit "scope", scopes c); (lit "state", state);
   (lit "nonce", nonce); (lit "code_challenge", challenge)].

(** [src/dashboard_oidc.rs: OidcConfig::authorize_url] *)
Definition authorize_url (c : OidcConfig) (state nonce challenge : bytes) : bytes :=
  authorization_endpoint c ++ [if bool_decide (63 ∈ authorization_endpoint c) then 38 else 63] ++ lit "response_type=code"
  ++ flat_map (fun p => 38 :: write_pair p) (authorize_fields c state nonce challenge)
  ++ lit "&code_challenge_method=S256".

(** [src/dashboard_oidc.rs: OidcConfig::start_pkce] The three draws of random bytes. *)
Definition start_pkce (c : OidcConfig) (r1 r2 r3 : option bytes) : result OidcError (PendingOidc * bytes * bytes) :=
  '(v, challenge) ← generate_pkce r1;
  state ← ok_or NoRandom (hex_encode <$> r2);
  n ← ok_or NoRandom (hex_encode <$> r3);
  Ok ({| verifier := v; nonce := n |}, state, authorize_url c state n challenge).

(** ** The identity token *)

(** [src/dashboard_oidc.rs: fn claim_values] *)
Definition claim_values (payload : JsonValue) (claim : bytes) : list bytes :=
  match json_get claim payload with
  | Some (JString text) => [text]
  | Some (JArray items) => omap as_str items
  | _ => []
  end.

(** [src/dashboard_oidc.rs: fn map_role] *)
Definition map_role (claims : JsonValue) (claim : bytes) (operators viewers : gset bytes) : option Role :=
  let values := claim_values claims claim in
  if existsb (fun v => bool_decide (v ∈ operators)) values then Some Operator
  else if existsb (fun v => bool_decide (v ∈ viewers)) values then Some Viewer
  else None.

Definition oidc_entry (jwk : JwkDoc) : option (bytes * KeyMaterial) :=
  if bool_decide (use_ jwk = Some (lit "enc")) then None
  else kid ← trimmed_nonempty (jwk_kid jwk); m ← jwk_material jwk; Some (kid, m).

(** [src/dashboard_oidc.rs: fn parse_jwks] *)
Definition parse_oidc_jwks (body : bytes) : result OidcError (gmap bytes KeyMaterial) :=
  keys ← ok_or BadJwks (jwks_from_str body);
  if 32 <? len keys then Err BadJwks
  else
    let out := fold_left (fun out jwk => match oidc_entry jwk with Some (kid, k) => <[kid := k]> out | None => out end) keys ∅ in
    if bool_decide (out = ∅) then Err BadJwks else Ok out.

(** [src/dashboard_oidc.rs: fn split_jwt] *)
Definition split_jwt (token : bytes) : result OidcError (bytes * bytes * bytes * bytes) :=
  match split_on 46 token with
  | header :: payload :: rest =>
      let signature := default [] (head rest) in
      if bool_decide (1 < length rest)%nat || is_empty header || is_empty payload then Err BadJwt
      else
        h ← ok_or BadJwt (b64url_decode header);
        p ← ok_or BadJwt (b64url_decode payload);
        s ← (if is_empty signature then Ok [] else ok_or BadJwt (b64url_decode signature));
        Ok (h, p, header ++ [46] ++ payload, s)
  | _ => Err BadJwt
  end.

(** [src/dashboard_oidc.rs: fn verify_rsa] *)
Definition oidc_verify_rsa (n e input signature : bytes) : bool :=
  if Jwt.num_bits n <? RSA_MIN_BITS then false else Jwt.rsa_verify n e input signature.

(** [src/dashboard_oidc.rs: fn verify_es256 + fn ecdsa_raw_to_der + fn left_pad] *)
Definition oidc_verify_es256 (x y input signature : bytes) : bool :=
  if negb (len signature =? 64) then false
  else match Jwt.left_pad x 32, Jwt.left_pad y 32 with
       | Some px, Some py => Jwt.p256_verify ([4] ++ px ++ py) input signature
       | _, _ => false
       end.

(** [src/dashboard_oidc.rs: fn unix_claim] *)
Definition oidc_unix_claim (payload : JsonValue) (name : bytes) : option Z :=
  match json_get name payload with
  | Some (JNumber t) =>
      match parse_uint u64_max t with
      | Some n => Some n
      | None => n ← parse_i64 t; if 0 <=? n then Some n else None
      end
  | _ => None
  end.

(** [src/dashboard_oidc.rs: fn aud_matches] *)
Definition oidc_aud_matches (aud : option JsonValue) (expected : bytes) : bool := Jwt.aud_matches aud expected.

(** A claim that may be absent is not too far ahead. *)
Definition not_ahead (payload : JsonValue) (name : bytes) (now : Z) : bool :=
  match oidc_unix_claim payload name with Some t => t <=? saturating_add u64_max now LEEWAY_SECS | None => true end.

(** [src/dashboard_oidc.rs: fn verify_id_token @307-339] The claims. [exp + LEEWAY_SECS] wraps. *)
Definition check_claims (c : OidcConfig) (expected_nonce : bytes) (now : Z) (payload : JsonValue) : result OidcError JsonValue :=
  iss ← ok_or BadIss (json_get (lit "iss") payload ≫= as_str);
  if negb (trim_slash iss =s oc_issuer c) then Err BadIss
  else if negb (oidc_aud_matches (json_get (lit "aud") payload) (client_id c)) then Err BadAud
  else
    exp ← ok_or BadExp (oidc_unix_claim payload (lit "exp"));
    if (exp + LEEWAY_SECS) mod 2 ^ 64 <? now then Err BadExp
    else if negb (not_ahead payload (lit "nbf") now) then Err BadNbf
    else if negb (not_ahead payload (lit "iat") now) then Err BadIat
    else
      got ← ok_or BadNonce (json_get (lit "nonce") payload ≫= as_str);
      if negb (got =s expected_nonce) then Err BadNonce else Ok payload.

(** [src/dashboard_oidc.rs: fn verify_id_token] *)
Definition verify_id_token (net : Net) (now : Z) (token : bytes) (c : OidcConfig) (expected_nonce : bytes) : result OidcError JsonValue :=
  '(header_json, payload_json, signing_input, signature) ← split_jwt token;
  header ← ok_or BadJwt (oidc_header_from_slice header_json);
  if match oh_crit header with Some crit => negb (is_empty crit) | None => false end then Err BadCrit
  else if negb (one_of (oh_alg header) ["RS256"; "ES256"]) then Err BadAlg
  else
    kid ← ok_or BadKid (trimmed_nonempty (oh_kid header));
    body ← oidc_get net (jwks_uri c) (S HTTP_MAX_REDIRECTS);
    keys ← parse_oidc_jwks body;
    key ← ok_or BadKid (keys !! kid);
    _ ← match key with
        | Rsa n e => if oh_alg header =s "RS256" then if oidc_verify_rsa n e signing_input signature then Ok tt else Err BadSig else Err BadAlg
        | Ec x y => if oh_alg header =s "ES256" then if oidc_verify_es256 x y signing_input signature then Ok tt else Err BadSig else Err BadAlg
        end;
    payload ← ok_or BadJwt (json_from_str payload_json);
    check_claims c expected_nonce now payload.

(** The form that redeems a code. *)
Definition exchange_form (c : OidcConfig) (code : bytes) (pending : PendingOidc) : bytes :=
  lit "grant_type=authorization_code"
  ++ flat_map (fun p => 38 :: write_pair p)
       ([(lit "code", code); (lit "redirect_uri", redirect_uri c); (lit "client_id", client_id c); (lit "code_verifier", verifier pending)]
        ++ match client_secret c with Some secret => [(lit "client_secret", secret)] | None => [] end).

(** [src/dashboard_oidc.rs: OidcConfig::exchange] *)
Definition exchange (net : Net) (now : Z) (c : OidcConfig) (code : bytes) (pending : PendingOidc) : result OidcError OidcIdentity :=
  if is_empty code || (4096 <? len code) then Err BadCode
  else
    body ← oidc_post net (token_endpoint c) (exchange_form c code pending);
    answer ← ok_or BadTokenAnswer (token_from_str body);
    id_token ← ok_or NoIdToken answer;
    claims ← verify_id_token net now id_token c (nonce pending);
    role ← ok_or NoRole (map_role claims (role_claim c) (operators c) (viewers c));
    subject ← ok_or NoSub (trimmed_nonempty (json_get (lit "sub") claims ≫= as_str));
    Ok {| oi_subject := subject; oi_role := role |}.
End Oidc.

(** ** What an identity rests on *)

Section Soundness.
Context {OT : OidcText} {SJ : SerdeJson} {JT : JwksText} {JC : Jwt.JwtCrypto} {S256 : Graphql.Sha256}.

(** A token the provider signed: the key of its header, from the keys of the provider, verifies it with the algorithm it names. *)
Definition signed_by_provider (net : Net) (c : OidcConfig) (token : bytes) (payload : JsonValue) : Prop :=
  exists header_json payload_json signing_input signature header kid body keys key,
    split_jwt token = Ok (header_json, payload_json, signing_input, signature)
    /\ oidc_header_from_slice header_json = Some header /\ trimmed_nonempty (oh_kid header) = Some kid
    /\ oidc_get net (jwks_uri c) (S HTTP_MAX_REDIRECTS) = Ok body /\ parse_oidc_jwks body = Ok keys /\ keys !! kid = Some key
    /\ (match key with
        | Rsa n e => oh_alg header = lit "RS256" /\ oidc_verify_rsa n e signing_input signature = true
        | Ec x y => oh_alg header = lit "ES256" /\ oidc_verify_es256 x y signing_input signature = true
        end)
    /\ json_from_str payload_json = Some payload.

(** Its claims are for this client, now, and for the request it answers. *)
Record claims_hold (c : OidcConfig) (expected_nonce : bytes) (now : Z) (payload : JsonValue) : Prop := {
  ch_iss : exists iss, json_get (lit "iss") payload = Some (JString iss) /\ trim_slash iss = oc_issuer c;
  ch_aud : oidc_aud_matches (json_get (lit "aud") payload) (client_id c) = true;
  ch_exp : exists exp, oidc_unix_claim payload (lit "exp") = Some exp /\ now <= exp + LEEWAY_SECS;
  ch_nbf : forall t, oidc_unix_claim payload (lit "nbf") = Some t -> t <= now + LEEWAY_SECS;
  ch_iat : forall t, oidc_unix_claim payload (lit "iat") = Some t -> t <= now + LEEWAY_SECS;
  ch_nonce : json_get (lit "nonce") payload = Some (JString expected_nonce) }.

Lemma oidc_claim_range payload name n : oidc_unix_claim payload name = Some n -> 0 <= n.
Proof.
  unfold oidc_unix_claim. destruct (json_get name payload) as [[]|]; try done.
  destruct (parse_uint u64_max text) as [m|] eqn:E; [intros [= <-]; apply parse_uint_range in E; lia|].
  destruct (parse_i64 text); [|done]. cbn. destruct (Z.leb_spec 0 z); [|done]. by intros [= <-].
Qed.

Lemma not_ahead_spec payload name now : not_ahead payload name now = true ->
  forall t, oidc_unix_claim payload name = Some t -> t <= now + LEEWAY_SECS.
Proof. unfold not_ahead, saturating_add. intros H t Ht. rewrite Ht in H. lia. Qed.

Lemma as_str_some v s : v ≫= as_str = Some s -> v = Some (JString s).
Proof. destruct v as [[]|]; try done. cbn. by intros [= ->]. Qed.

Lemma check_claims_ok c expected_nonce now payload claims : check_claims c expected_nonce now payload = Ok claims ->
  claims = payload /\ claims_hold c expected_nonce now payload.
Proof.
  unfold check_claims. destruct (json_get (lit "iss") payload ≫= as_str) as [iss|] eqn:Ei; [|done]. cbn [ok_or mbind result_bind].
  destruct (trim_slash iss =s oc_issuer c) eqn:Es; [|done]. apply bytes_eqb_eq in Es. cbn [negb].
  destruct (oidc_aud_matches _ _) eqn:Ea; [|done]. cbn [negb].
  destruct (oidc_unix_claim payload (lit "exp")) as [exp|] eqn:Ee; [|done]. cbn [ok_or mbind result_bind].
  destruct (Z.ltb_spec ((exp + LEEWAY_SECS) mod 2 ^ 64) now) as [|Hx]; [done|].
  destruct (not_ahead payload (lit "nbf") now) eqn:Eb; [|done]. destruct (not_ahead payload (lit "iat") now) eqn:Et; [|done]. cbn [negb].
  destruct (json_get (lit "nonce") payload ≫= as_str) as [got|] eqn:En; [|done]. cbn [ok_or mbind result_bind].
  destruct (got =s expected_nonce) eqn:Eg; [|done]. apply bytes_eqb_eq in Eg as ->. intros [= <-]. split; [done|].
  constructor; [exists iss; split; [by apply as_str_some|done]|done| |by apply not_ahead_spec|by apply not_ahead_spec|by apply as_str_some].
  exists exp. split; [done|]. pose proof (oidc_claim_range _ _ _ Ee). unfold LEEWAY_SECS in *.
  pose proof (Z.mod_le (exp + 60) (2 ^ 64)). lia.
Qed.

Lemma verify_id_token_ok net now token c expected_nonce payload : verify_id_token net now token c expected_nonce = Ok payload ->
  signed_by_provider net c token payload /\ claims_hold c expected_nonce now payload.
Proof.
  unfold verify_id_token. destruct (split_jwt token) as [[[[hj pj] input] sig]|] eqn:E1; [|done]. cbn [mbind result_bind].
  destruct (oidc_header_from_slice hj) as [header|] eqn:E2; [|done]. cbn [ok_or mbind result_bind].
  destruct (match oh_crit header with Some _ => _ | None => _ end); [done|]. destruct (negb _); [done|].
  destruct (trimmed_nonempty (oh_kid header)) as [kid|] eqn:E3; [|done]. cbn [ok_or mbind result_bind].
  destruct (oidc_get _ _ _) as [body|] eqn:E4; [|done]. cbn [mbind result_bind].
  destruct (parse_oidc_jwks body) as [keys|] eqn:E5; [|done]. cbn [mbind result_bind].
  destruct (keys !! kid) as [key|] eqn:E6; [|done]. cbn [ok_or mbind result_bind].
  destruct (match key with Rsa _ _ => _ | Ec _ _ => _ end) as [[]|] eqn:E7; [|done]. cbn [mbind result_bind].
  destruct (json_from_str pj) as [p|] eqn:E8; [|done]. cbn [ok_or mbind result_bind]. intros [-> Hc]%check_claims_ok. split; [|done].
  exists hj, pj, input, sig, header, kid, body, keys, key. repeat (split; [done|]). split; [|done].
  destruct key; destruct (_ =s _) eqn:Ea; try done; (split; [by apply bytes_eqb_eq in Ea|]).
  - by destruct (oidc_verify_rsa _ _ _ _).
  - by destruct (oidc_verify_es256 _ _ _ _).
Qed.

(** The role is one the claim names, and the greater one if it names both. *)
Lemma map_role_spec claims claim ops views : map_role claims claim ops views =
  if decide (Exists (.∈ ops) (claim_values claims claim)) then Some Operator
  else if decide (Exists (.∈ views) (claim_values claims claim)) then Some Viewer else None.
Proof.
  unfold map_role. set (l := claim_values claims claim).
  assert (forall X : gset bytes, existsb (fun v => bool_decide (v ∈ X)) l = bool_decide (Exists (.∈ X) l)) as Hx.
  { intros X. apply eq_iff_eq_true. rewrite bool_decide_eq_true, existsb_exists, Exists_exists.
    setoid_rewrite bool_decide_eq_true. setoid_rewrite <- list_elem_of_In. done. }
  rewrite !Hx. by repeat case_bool_decide; repeat case_decide.
Qed.

(** C14. An operator or viewer signs in only with an identity token that the provider signed for this client: the key it names is one the
    provider publishes and verifies it, its issuer, audience, times and nonce are the ones this request asked for, its role claim names a
    role that is configured, and the subject is its own. *)
Theorem exchange_sound (net : Net) (now : Z) (c : OidcConfig) (code : bytes) (pending : PendingOidc) (identity : OidcIdentity) :
  exchange net now c code pending = Ok identity ->
  code <> [] /\ exists body id_token payload,
    oidc_post net (token_endpoint c) (exchange_form c code pending) = Ok body /\ token_from_str body = Some (Some id_token)
    /\ signed_by_provider net c id_token payload /\ claims_hold c (nonce pending) now payload
    /\ Exists (.∈ match oi_role identity with Operator => operators c | Viewer => viewers c end) (claim_values payload (role_claim c))
    /\ trimmed_nonempty (json_get (lit "sub") payload ≫= as_str) = Some (oi_subject identity).
Proof.
  unfold exchange. destruct (is_empty code) eqn:Ec; [done|]. apply is_empty_false in Ec. cbn [orb].
  destruct (4096 <? len code); [done|]. destruct (oidc_post _ _ _) as [body|] eqn:E1; [|done]. cbn [mbind result_bind].
  destruct (token_from_str body) as [answer|] eqn:E2; [|done]. cbn [ok_or mbind result_bind].
  destruct answer as [id_token|]; [|done]. cbn [ok_or mbind result_bind].
  destruct (verify_id_token _ _ _ _ _) as [payload|] eqn:E3; [|done]. cbn [mbind result_bind]. apply verify_id_token_ok in E3 as [Hs Hc].
  rewrite map_role_spec. destruct (trimmed_nonempty _) as [subject|] eqn:E4.
  - intros Hi. split; [done|]. exists body, id_token, payload. repeat (split; [done|]).
    repeat case_decide; cbn in Hi; try done; injection Hi as <-; done.
  - by repeat case_decide.
Qed.

(** *** The request for an identity *)

Definition request_pairs (c : OidcConfig) (state n challenge : bytes) : list (bytes * bytes) :=
  (lit "response_type", lit "code") :: authorize_fields c state n challenge ++ [(lit "code_challenge_method", lit "S256")].

Lemma write_query_cons p ps : write_query (p :: ps) = write_pair p ++ flat_map (fun p => 38 :: write_pair p) ps.
Proof.
  revert p. induction ps as [|q ps IH]; intros p; [by rewrite app_nil_r|].
  change (write_query (p :: q :: ps)) with (write_pair p ++ 38 :: write_query (q :: ps)). rewrite IH. done.
Qed.

Lemma authorize_url_query c state n challenge : 63 ∉ authorization_endpoint c ->
  split_once 63 (authorize_url c state n challenge) = Some (authorization_endpoint c, write_query (request_pairs c state n challenge)).
Proof.
  intros Hq. apply split_once_spec. split; [|done]. unfold authorize_url. rewrite bool_decide_eq_false_2 by done. f_equal.
  unfold request_pairs. rewrite write_query_cons, flat_map_app. done.
Qed.

(** A value that can be written in a URL. *)
Definition writable (s : bytes) : Prop := Forall is_byte s /\ is_utf8 s = true.

Lemma ascii_writable s : Forall (fun b => 0 <= b < 128) s -> writable s.
Proof.
  intros Hs. split; [apply (Forall_impl _ _ _ Hs); intros x; unfold is_byte; lia|].
  induction Hs as [|x s Hx Hs IH]; [done|]. cbn [is_utf8]. unfold in_range at 1.
  destruct (Z.leb_spec 0 x); [|lia]. destruct (Z.leb_spec x 127); [done|lia].
Qed.

Lemma table_ascii k : 0 <= nth k WafEngine.TABLE 0 < 128.
Proof.
  destruct (nth_in_or_default k WafEngine.TABLE 0) as [H| ->]; [|lia].
  assert (forallb (fun b => in_range 0 127 b) WafEngine.TABLE = true) as Ht by (vm_compute; reflexivity).
  rewrite forallb_forall in Ht. specialize (Ht _ H). unfold in_range in Ht. lia.
Qed.

Lemma b64_encode_ascii s : Forall (fun b => 0 <= b < 128) (WafEngine.b64_encode s).
Proof.
  induction s as [|a|a b|a b c r IH] using WafEngine.list_three_ind; cbn [WafEngine.b64_encode]; cbv zeta; repeat constructor;
    try apply table_ascii; try lia; done.
Qed.

Lemma b64url_writable s : writable (b64url_encode s).
Proof.
  apply ascii_writable. unfold b64url_encode. apply Forall_map. apply Forall_forall. intros c [_ Hc]%list_elem_of_filter.
  pose proof (b64_encode_ascii s) as Hs. rewrite Forall_forall in Hs. specialize (Hs c Hc). cbn.
  destruct (c =? 43); [lia|]. destruct (c =? 47); lia.
Qed.

Lemma hex_writable s : Forall is_byte s -> writable (hex_encode s).
Proof.
  intros Hs. apply ascii_writable. unfold hex_encode. induction Hs as [|b s Hb _ IH]; [constructor|]. cbn [flat_map]. apply Forall_app. split; [|done].
  assert (forallb (fun c => in_range 0 127 c) [hex_char (Z.shiftr b 4); hex_char (Z.land b 15)] = true) as H
    by (revert b Hb; apply every_byte; vm_compute; reflexivity).
  unfold in_range in H. cbn in H. repeat constructor; lia.
Qed.

(** Reading a field of a form whose pairs all have a value. *)
Lemma find_field_pair pairs name : Forall pair_ok pairs -> find_field (map write_pair pairs) name = find_pair (map write_pair pairs) name.
Proof.
  induction 1 as [|p pairs Hp _ IH]; [done|]. cbn [map find_field find_pair]. rewrite (split_pair p Hp). by destruct (p.1 =s name).
Qed.

Lemma form_field_written pairs name : pairs <> [] -> Forall pair_ok pairs ->
  form_field (write_query pairs) name = snd <$> List.find (fun p => p.1 =s name) pairs.
Proof.
  intros Hne Hp. rewrite <- query_param_written by done. unfold form_field, query_param, write_query. cbn [mbind option_bind].
  assert (split_on 38 (join [38] (map write_pair pairs)) = map write_pair pairs) as ->.
  { apply split_on_join; [by destruct pairs|]. apply Forall_map. apply (Forall_impl _ _ _ Hp). intros p (H1 & _ & Hb & _).
    unfold write_pair. rewrite elem_of_app, elem_of_cons. intros [?|[?|Hc]]; [done|done|]. by destruct (form_encode_plain _ _ Hb Hc). }
  by apply find_field_pair.
Qed.

(** The settings a request is written from are text. *)
Definition config_text (c : OidcConfig) : Prop :=
  (63 ∉ authorization_endpoint c) /\ Forall writable [client_id c; redirect_uri c; scopes c; default [] (client_secret c)].

Lemma pair_writable (name value : bytes) : bool_decide ((38 ∉ name) /\ (61 ∉ name)) = true -> writable value -> pair_ok (name, value).
Proof. intros [? ?]%bool_decide_eq_true [? ?]. done. Qed.

Definition exchange_pairs (c : OidcConfig) (code : bytes) (p : PendingOidc) : list (bytes * bytes) :=
  (lit "grant_type", lit "authorization_code")
  :: [(lit "code", code); (lit "redirect_uri", redirect_uri c); (lit "client_id", client_id c); (lit "code_verifier", verifier p)]
  ++ match client_secret c with Some secret => [(lit "client_secret", secret)] | None => [] end.

Lemma exchange_form_query c code p : exchange_form c code p = write_query (exchange_pairs c code p).
Proof. unfold exchange_pairs. rewrite write_query_cons. done. Qed.

Ltac texts := repeat (apply Forall_cons_2; [apply pair_writable; [vm_compute; reflexivity|done]|]).

Lemma exchange_pairs_ok c code p : config_text c -> writable code -> writable (verifier p) -> Forall pair_ok (exchange_pairs c code p).
Proof.
  intros [_ Hc] Hcode Hv. rewrite !Forall_cons in Hc. destruct Hc as (? & ? & ? & Hs & _).
  assert (writable (lit "authorization_code")) by (apply ascii_writable, (bool_decide_unpack _); vm_compute; exact I).
  unfold exchange_pairs. destruct (client_secret c); cbn in Hs; cbn [app]; texts; constructor.
Qed.

Lemma request_pairs_ok c state n challenge : config_text c -> Forall writable [state; n; challenge] -> Forall pair_ok (request_pairs c state n challenge).
Proof.
  intros [_ Hc] Hw. rewrite !Forall_cons in Hc. rewrite !Forall_cons in Hw.
  destruct Hc as (? & ? & ? & _ & _), Hw as (? & ? & ? & _).
  assert (writable (lit "code")) by (apply ascii_writable, (bool_decide_unpack _); vm_compute; exact I).
  assert (writable (lit "S256")) by (apply ascii_writable, (bool_decide_unpack _); vm_compute; exact I).
  unfold request_pairs, authorize_fields. cbn [app]. texts. constructor.
Qed.

(** The request that is sent to the provider and the form that redeems its code are bound together: the query of the address carries,
    as a server reads it, the client, the return address, the state and the nonce that are kept, and the challenge, which is the SHA-256 of
    the verifier that the form reveals later with the code. *)
Theorem pkce_bound (c : OidcConfig) (r1 r2 r3 : bytes) (p : PendingOidc) (state url code : bytes) :
  config_text c -> Forall is_byte r2 -> Forall is_byte r3 -> writable code ->
  start_pkce c (Some r1) (Some r2) (Some r3) = Ok (p, state, url) ->
  exists query, split_once 63 url = Some (authorization_endpoint c, query)
  /\ query_param (Some query) (lit "client_id") = Some (client_id c)
  /\ query_param (Some query) (lit "redirect_uri") = Some (redirect_uri c)
  /\ query_param (Some query) (lit "state") = Some state
  /\ query_param (Some query) (lit "nonce") = Some (nonce p)
  /\ query_param (Some query) (lit "code_challenge") = Some (b64url_encode (Graphql.sha256 (verifier p)))
  /\ query_param (Some query) (lit "code_challenge_method") = Some (lit "S256")
  /\ form_field (exchange_form c code p) (lit "code") = Some code
  /\ form_field (exchange_form c code p) (lit "redirect_uri") = Some (redirect_uri c)
  /\ form_field (exchange_form c code p) (lit "code_verifier") = Some (verifier p).
Proof.
  intros Hc H2 H3 Hcode. unfold start_pkce, generate_pkce. cbn [ok_or mbind result_bind fmap option_fmap option_map].
  intros [= <- <- <-]. cbn [nonce verifier]. set (v := b64url_encode r1). set (ch := b64url_encode (Graphql.sha256 v)).
  assert (Forall pair_ok (request_pairs c (hex_encode r2) (hex_encode r3) ch)) as Hr.
  { apply request_pairs_ok; [done|]. repeat (apply Forall_cons_2); [by apply hex_writable..|apply b64url_writable|constructor]. }
  set (p := {| verifier := v; nonce := hex_encode r3 |}).
  assert (Forall pair_ok (exchange_pairs c code p)) as He by (apply exchange_pairs_ok; [done|done|apply b64url_writable]).
  eexists. split; [apply authorize_url_query, Hc|]. rewrite exchange_form_query.
  do 6 (split; [rewrite query_param_written by done; reflexivity|]).
  do 2 (split; [rewrite form_field_written by done; reflexivity|]). rewrite form_field_written by done. reflexivity.
Qed.
End Soundness.

(** ** Evaluations *)

Section Evaluations.
Definition demo_oidc_text : OidcText := {|
  token_from_str b := Some (Some b);
  discovery_from_str _ := None;
  oidc_header_from_slice _ := Some {| oh_alg := lit "RS256"; oh_kid := Some (lit "k"); oh_crit := None |} |}.
Definition demo_claims : JsonValue := JObject
  [(lit "iss", JString (lit "https://idp/")); (lit "aud", JString (lit "ferroada")); (lit "exp", JNumber (lit "1000"));
   (lit "nonce", JString (lit "n")); (lit "sub", JString (lit "ana")); (lit "ferroada_role", JArray [JString (lit "operator")])].
Definition demo_json : SerdeJson := {| json_from_str b := if b =s "p" then Some demo_claims else None; json_to_string _ := None |}.
Definition demo_jwks_text : JwksText := {|
  jwks_from_str b := Some [{| kty := lit "RSA"; jwk_kid := Some b; jwk_alg := None; use_ := None; jwk_n := Some (repeat 255 256);
                              jwk_e := Some [1; 0; 1]; crv := None; jwk_x := None; jwk_y := None |}];
  b64url_decode b := Some b |}.
Definition demo_oidc_crypto : Jwt.JwtCrypto := {|
  Jwt.hmac _ _ _ := None; Jwt.rsa_verify _ _ input signature := (input =s "h.p") && (signature =s "s"); Jwt.p256_verify _ _ _ := false |}.
Definition demo_digest : Graphql.Sha256 := {| Graphql.sha256 b := b |}.
#[local] Existing Instances demo_oidc_text demo_json demo_jwks_text demo_oidc_crypto demo_digest.

Definition demo_oidc : OidcConfig := {|
  oc_issuer := lit "https://idp"; client_id := lit "ferroada"; client_secret := None; redirect_uri := lit "https://waf/oidc/callback";
  authorization_endpoint := lit "https://idp/authorize"; token_endpoint := lit "https://idp/token"; jwks_uri := lit "https://idp/keys";
  scopes := lit "openid profile"; role_claim := lit "ferroada_role"; operators := {[ lit "operator" ]}; viewers := {[ lit "viewer" ]} |}.
Definition demo_answer (body : bytes) : list NetRead := [NetData (lit "HTTP/1.0 200 OK" ++ crlf ++ crlf ++ body)].
(** A provider with a token endpoint and one key. *)
Definition demo_net : Net := fun u _ =>
  if url_path u =s "/token" then Some (demo_answer (lit "h.p.s")) else if url_path u =s "/keys" then Some (demo_answer (lit "k")) else None.
Definition demo_pending : PendingOidc := {| verifier := lit "v"; nonce := lit "n" |}.

Example evaluate_exchange :
  exchange demo_net 1060 demo_oidc (lit "c") demo_pending = Ok {| oi_subject := lit "ana"; oi_role := Operator |}
  /\ exchange demo_net 1061 demo_oidc (lit "c") demo_pending = Err BadExp
  /\ exchange demo_net 1060 demo_oidc (lit "c") {| verifier := lit "v"; nonce := lit "other" |} = Err BadNonce
  /\ exchange (fun _ _ => None) 1060 demo_oidc (lit "c") demo_pending = Err OidcTransport.
Proof. vm_compute. repeat split; reflexivity. Qed.

Lemma exchange_sound_witness :
  exchange demo_net 1060 demo_oidc (lit "c") demo_pending = Ok {| oi_subject := lit "ana"; oi_role := Operator |} /\ lit "c" <> [].
Proof.
  assert (exchange demo_net 1060 demo_oidc (lit "c") demo_pending = Ok {| oi_subject := lit "ana"; oi_role := Operator |}) as E
    by (vm_compute; reflexivity).
  split; [exact E|]. exact (proj1 (exchange_sound demo_net 1060 demo_oidc (lit "c") demo_pending _ E)).
Defined.

Lemma pkce_bound_witness : exists p url query,
  start_pkce demo_oidc (Some [1; 2; 3]) (Some [171]) (Some [5]) = Ok (p, lit "ab", url)
  /\ split_once 63 url = Some (lit "https://idp/authorize", query) /\ query_param (Some query) (lit "state") = Some (lit "ab").
Proof.
  set (r := start_pkce demo_oidc (Some [1; 2; 3]) (Some [171]) (Some [5])).
  assert (r = Ok ({| verifier := lit "AQID"; nonce := lit "05" |}, lit "ab", authorize_url demo_oidc (lit "ab") (lit "05") (lit "QVFJRA"))) as E
    by (vm_compute; reflexivity).
  destruct (pkce_bound demo_oidc [1; 2; 3] [171] [5] _ _ _ (lit "c")
    ltac:(split; [apply (bool_decide_unpack _); vm_compute; exact I|
          repeat (apply Forall_cons_2; [apply ascii_writable, (bool_decide_unpack _); vm_compute; exact I|]); constructor])
    ltac:(repeat constructor; unfold is_byte; lia) ltac:(repeat constructor; unfold is_byte; lia) ltac:(apply ascii_writable, (bool_decide_unpack _); vm_compute; exact I) E)
    as (query & H1 & _ & _ & H2 & _).
  eexists _, _, query. split; [exact E|]. split; [exact H1|exact H2].
Defined.
End Evaluations.
