(* ===== verification/Admin.v ===== *)
(** * Operators ([src/dashboard_auth.rs])

    The sessions, the pending sign-ins and the API rate of the dashboard.  The two tables are finite maps; every operation takes the
    readings of the clock and the random bytes it draws. *)

From S2P Require Import Prelude Text Net Window Shield Json Jwks AdminText Oidc.
From S2P Require Jwt Graphql.

(** [src/dashboard_auth.rs: const DEFAULT_TTL_SECS + const MIN_TTL_SECS + const MAX_TTL_SECS] *)
Definition DEFAULT_TTL_SECS : Z := 900.
Definition MIN_TTL_SECS : Z := 60.
Definition MAX_TTL_SECS : Z := 8 * 3600.
(** [src/dashboard_auth.rs: const DEFAULT_RATE_MAX + const DEFAULT_RATE_WINDOW + const DEFAULT_RATE_IPS] *)
Definition DEFAULT_RATE_MAX : Z := 60.
Definition DEFAULT_RATE_WINDOW : Z := 60.
Definition DEFAULT_RATE_IPS : Z := 10000.
(** [src/dashboard_auth.rs: const MAX_SESSIONS + const OIDC_PENDING_TTL] *)
Definition MAX_SESSIONS : Z := 4096.
Definition OIDC_PENDING_TTL : Duration := from_secs 600.

(** [src/dashboard_auth.rs: enum AuthMethod] *)
Inductive AuthMethod : Set := MToken | MSession | MOidc | MMtls.
#[export] Instance AuthMethod_eq_dec : EqDecision AuthMethod.
Proof. solve_decision. Defined.

(** [src/dashboard_auth.rs: AuthMethod::as_str] *)
Definition method_as_str (m : AuthMethod) : bytes :=
  match m with MToken => lit "token" | MSession => lit "session" | MOidc => lit "oidc" | MMtls => lit "mtls" end.

(** [src/dashboard_auth.rs: struct Authn] *)
Record Authn : Type := { an_role : Role; an_method : AuthMethod; an_csrf : option bytes; an_subject : option bytes }.

(** [src/dashboard_auth.rs: struct SessionRecord] *)
Record SessionRecord : Type := { sr_role : Role; sr_csrf : bytes; sr_expires : Instant; sr_subject : option bytes }.

(** [src/dashboard_auth.rs: struct PendingRecord] *)
Record PendingRecord : Type := { pr_pending : PendingOidc; pr_expires : Instant }.

(** [src/dashboard_auth.rs: struct MtlsRoles] *)
Record MtlsRoles : Type := { mt_operators : gset bytes; mt_viewers : gset bytes }.

(** [src/dashboard_auth.rs: MtlsRoles::role] *)
Definition mtls_role (m : MtlsRoles) (cn : bytes) : option Role :=
  if bool_decide (cn ∈ mt_operators m) then Some Operator
  else if bool_decide (cn ∈ mt_viewers m) then Some Viewer
  else if bool_decide (mt_operators m = ∅) && bool_decide (mt_viewers m = ∅) then Some Viewer
  else None.

(** ** The API rate *)

(** [src/dashboard_auth.rs: struct ApiRate] *)
Record ApiRate : Type := { ar_hits : gmap IpAddr (list Instant); ar_max : Z; ar_window : Duration; ar_max_ips : Z; ar_checks : Z }.

(** [src/dashboard_auth.rs: ApiRate::new] *)
Definition api_rate_new (max window_secs max_ips : Z) : ApiRate := {|
  ar_hits := ∅; ar_max := Z.max max 1; ar_window := from_secs (Z.max window_secs 1); ar_max_ips := Z.max max_ips 1; ar_checks := 0 |}.

Definition clamp (lo hi v : Z) : Z := Z.min hi (Z.max lo v).

(** [src/dashboard_auth.rs: ApiRate::from_env] *)
Definition api_rate_from_env (env : Env) : ApiRate :=
  let max := clamp 1 10000 (env_u64 env "DASHBOARD_API_RATE_MAX" DEFAULT_RATE_MAX) in
  let window := clamp 1 3600 (env_u64 env "DASHBOARD_API_RATE_WINDOW" DEFAULT_RATE_WINDOW) in
  api_rate_new max window DEFAULT_RATE_IPS.

(** [times.retain(|t| *t > cutoff)] *)
Definition after_cutoff (cutoff : Instant) (times : list Instant) : list Instant := base.filter (fun t => cutoff < t) times.

Definition with_hits (r : ApiRate) (hits : gmap IpAddr (list Instant)) (checks : Z) : ApiRate :=
  {| ar_hits := hits; ar_max := ar_max r; ar_window := ar_window r; ar_max_ips := ar_max_ips r; ar_checks := checks |}.

(** [src/dashboard_auth.rs: ApiRate::allow] The clock is read for the sweep and for the check. *)
Definition api_allow (now_sweep now : Instant) (ip : IpAddr) (r : ApiRate) : ApiRate * bool :=
  let n := ar_checks r in
  let hits :=
    if n mod 256 =? 0 then
      omap (fun times => let times := after_cutoff (now_sweep - ar_window r) times in if is_empty times then None else Some times)
           (ar_hits r)
    else ar_hits r in
  let r := with_hits r hits ((n + 1) mod 2 ^ 64) in
  if (ar_max_ips r <=? Z.of_nat (size hits)) && negb (bool_decide (is_Some (hits !! ip))) then (r, false)
  else
    let entry := after_cutoff (now - ar_window r) (row hits ip) in
    if ar_max r <=? len entry then (with_hits r (<[ip := entry]> hits) (ar_checks r), false)
    else (with_hits r (<[ip := entry ++ [now]]> hits) (ar_checks r), true).

(** ** The state *)

(** [src/dashboard_auth.rs: struct AdminAuth] *)
Record AdminAuth : Type := {
  aa_token : option bytes; aa_oidc : option OidcConfig; aa_mtls : option MtlsRoles; aa_sessions : gmap bytes SessionRecord;
  aa_pending : gmap bytes PendingRecord; aa_rate : ApiRate; aa_ttl : Duration; allow_token_off_loopback : bool }.

Definition with_sessions (a : AdminAuth) (m : gmap bytes SessionRecord) : AdminAuth := {|
  aa_token := aa_token a; aa_oidc := aa_oidc a; aa_mtls := aa_mtls a; aa_sessions := m; aa_pending := aa_pending a;
  aa_rate := aa_rate a; aa_ttl := aa_ttl a; allow_token_off_loopback := allow_token_off_loopback a |}.
Definition with_pending (a : AdminAuth) (m : gmap bytes PendingRecord) : AdminAuth := {|
  aa_token := aa_token a; aa_oidc := aa_oidc a; aa_mtls := aa_mtls a; aa_sessions := aa_sessions a; aa_pending := m;
  aa_rate := aa_rate a; aa_ttl := aa_ttl a; allow_token_off_loopback := allow_token_off_loopback a |}.
Definition with_rate (a : AdminAuth) (r : ApiRate) : AdminAuth := {|
  aa_token := aa_token a; aa_oidc := aa_oidc a; aa_mtls := aa_mtls a; aa_sessions := aa_sessions a; aa_pending := aa_pending a;
  aa_rate := r; aa_ttl := aa_ttl a; allow_token_off_loopback := allow_token_off_loopback a |}.

(** [src/dashboard_auth.rs: AdminAuth::with_token] *)
Definition with_token (token : option bytes) : AdminAuth := {|
  aa_token := nonempty_token token; aa_oidc := None; aa_mtls := None; aa_sessions := ∅; aa_pending := ∅;
  aa_rate := api_rate_new DEFAULT_RATE_MAX DEFAULT_RATE_WINDOW DEFAULT_RATE_IPS; aa_ttl := from_secs DEFAULT_TTL_SECS;
  allow_token_off_loopback := true |}.

(** [src/dashboard_auth.rs: AdminAuth::disabled] *)
Definition disabled : AdminAuth := {|
  aa_token := None; aa_oidc := None; aa_mtls := None; aa_sessions := ∅; aa_pending := ∅;
  aa_rate := api_rate_new DEFAULT_RATE_MAX DEFAULT_RATE_WINDOW DEFAULT_RATE_IPS; aa_ttl := from_secs DEFAULT_TTL_SECS;
  allow_token_off_loopback := true |}.

(** [src/dashboard_auth.rs: struct DashboardTls] *)
Record DashboardTls : Type := { cert_path : bytes; key_path : bytes; client_ca : option bytes; require_client_cert : bool }.

(** One constructor per message. *)
Inductive AdminError : Type := OidcSettings (e : OidcError) | MtlsCaNotAFile (path : bytes) | MtlsNeedsTls | TlsPairIncomplete.

Section Admin.
Context {OT : OidcText} {SJ : SerdeJson} {JT : JwksText} {JC : Jwt.JwtCrypto} {S256 : Graphql.Sha256}.

(** [src/dashboard_auth.rs: AdminAuth::from_env + struct DashboardAuthSetup] *)
Definition admin_from_env (env : Env) (net : Net) (is_file : bytes -> bool) (token : option bytes)
    : result AdminError (AdminAuth * option DashboardTls) :=
  oidc ← match oidc_from_env env net with Ok o => Ok o | Err e => Err (OidcSettings e) end;
  let ca := env_nonempty env "DASHBOARD_MTLS_CA" in
  _ ← match ca with Some path => if is_file path then Ok tt else Err (MtlsCaNotAFile path) | None => Ok tt end;
  let mtls := match ca with
              | Some _ => Some {| mt_operators := env_set env "DASHBOARD_MTLS_OPERATORS"; mt_viewers := env_set env "DASHBOARD_MTLS_VIEWERS" |}
              | None => None
              end in
  let cert := env_nonempty env "DASHBOARD_TLS_CERT_PATH" in
  let key := env_nonempty env "DASHBOARD_TLS_KEY_PATH" in
  tls ← match ca, cert, key with
        | Some _, None, _ | Some _, _, None => Err MtlsNeedsTls
        | _, Some _, None | _, None, Some _ => Err TlsPairIncomplete
        | _, Some cert, Some key => Ok (Some {| cert_path := cert; key_path := key; client_ca := ca; require_client_cert := false |})
        | _, None, None => Ok None
        end;
  let ttl_secs := clamp MIN_TTL_SECS MAX_TTL_SECS (env_u64 env "DASHBOARD_SESSION_TTL_SECS" DEFAULT_TTL_SECS) in
  let strong := bool_decide (is_Some oidc) || bool_decide (is_Some mtls) in
  Ok ({| aa_token := nonempty_token token; aa_oidc := oidc; aa_mtls := mtls; aa_sessions := ∅; aa_pending := ∅;
         aa_rate := api_rate_from_env env; aa_ttl := from_secs ttl_secs; allow_token_off_loopback := negb strong |}, tls).

(** [src/dashboard_auth.rs: AdminAuth::strong] *)
Definition strong (a : AdminAuth) : bool := bool_decide (is_Some (aa_oidc a)) || bool_decide (is_Some (aa_mtls a)).

(** [src/dashboard_auth.rs: AdminAuth::oidc_enabled] *)
Definition oidc_enabled (a : AdminAuth) : bool := bool_decide (is_Some (aa_oidc a)).

(** [src/dashboard_auth.rs: AdminAuth::api_allowed] *)
Definition api_allowed (now_sweep now : Instant) (path : bytes) (ip : option IpAddr) (a : AdminAuth) : AdminAuth * bool :=
  if negb (starts_with path (lit "/api")) then (a, true)
  else let '(r, ok) := api_allow now_sweep now (default (V4 0) ip) (aa_rate a) in (with_rate a r, ok).

(** [src/dashboard_auth.rs: AdminAuth::session_from_cookie] *)
Definition session_from_cookie (now : Instant) (header : option bytes) (a : AdminAuth) : AdminAuth * option Authn :=
  match cookie_value header COOKIE_NAME with
  | None => (a, None)
  | Some id =>
      match aa_sessions a !! id with
      | None => (a, None)
      | Some record =>
          if sr_expires record <=? now then (with_sessions a (delete id (aa_sessions a)), None)
          else (a, Some {| an_role := sr_role record; an_method := MSession; an_csrf := Some (sr_csrf record); an_subject := sr_subject record |})
      end
  end.

(** [src/dashboard_auth.rs: AdminAuth::token_role] *)
Definition token_role (authorization : option bytes) (peer_loopback : bool) (a : AdminAuth) : option Role :=
  match aa_token a with
  | Some expected =>
      if negb (peer_loopback || allow_token_off_loopback a) then None
      else provided ← bearer authorization; if constant_time_eq provided expected then Some Operator else None
  | None => if allow_token_off_loopback a then Some Viewer else None
  end.

(** [src/dashboard_auth.rs: AdminAuth::authenticate] *)
Definition authenticate (now : Instant) (cookie authorization client_cn : option bytes) (peer_loopback : bool) (a : AdminAuth)
    : AdminAuth * option Authn :=
  let '(a, session) := session_from_cookie now cookie a in
  match session with
  | Some authn => (a, Some authn)
  | None =>
      match (match client_cn, aa_mtls a with
             | Some cn, Some mtls =>
                 match mtls_role mtls cn with
                 | Some role => Some {| an_role := role; an_method := MMtls; an_csrf := None; an_subject := Some cn |}
                 | None => None
                 end
             | _, _ => None
             end) with
      | Some authn => (a, Some authn)
      | None =>
          (a, match token_role authorization peer_loopback a with
              | Some role => Some {| an_role := role; an_method := MToken; an_csrf := None; an_subject := None |}
              | None => None
              end)
      end
  end.

(** [src/dashboard_auth.rs: AdminAuth::token_presented_and_wrong] *)
Definition token_presented_and_wrong (authorization : option bytes) (a : AdminAuth) : bool :=
  match aa_token a, bearer authorization with
  | Some expected, Some provided => negb (constant_time_eq provided expected)
  | _, _ => false
  end.

(** [src/dashboard_auth.rs: AdminAuth::sweep_sessions] *)
Definition sweep_sessions (now : Instant) (a : AdminAuth) : AdminAuth :=
  with_sessions a (base.filter (fun kv => now < sr_expires kv.2) (aa_sessions a)).

(** [src/dashboard_auth.rs: AdminAuth::sweep_pending] *)
Definition sweep_pending (now : Instant) (a : AdminAuth) : AdminAuth :=
  with_pending a (base.filter (fun kv => now < pr_expires kv.2) (aa_pending a)).

(** [src/dashboard_auth.rs: struct IssuedSession] *)
Record IssuedSession : Type := { is_id : bytes; is_csrf : bytes; is_role : Role; is_subject : option bytes }.

(** [src/dashboard_auth.rs: IssuedSession::cookie] *)
Definition issued_cookie (s : IssuedSession) (ttl : Duration) (secure : bool) : bytes := session_cookie (is_id s) ttl secure.

(** The messages of refused sign-ins. *)
Inductive LoginError : Set := NoToken | BadToken | TokenOffLoopback | Unavailable | NoOidc | OidcExchange.

(** What a sign-in draws: the readings of the clock for the sweep and for the record, and the random bytes of the identifier and of
    the CSRF secret. *)
Record Draws : Type := { dr_sweep : Instant; dr_now : Instant; dr_id : option bytes; dr_csrf : option bytes }.

(** [src/dashboard_auth.rs: AdminAuth::issue + fn random_bytes] The sweep, the test of the size and the insertion are three operations on
    the table, here run without interruption; several sign-ins at once may run them interleaved ([TableStep]). *)
Definition issue (d : Draws) (role : Role) (subject : option bytes) (a : AdminAuth) : AdminAuth * result LoginError IssuedSession :=
  let a := sweep_sessions (dr_sweep d) a in
  if MAX_SESSIONS <=? Z.of_nat (size (aa_sessions a)) then (a, Err Unavailable)
  else match dr_id d, dr_csrf d with
       | Some id, Some csrf =>
           let id := hex_encode id in let csrf := hex_encode csrf in
           let record := {| sr_role := role; sr_csrf := csrf; sr_expires := dr_now d + aa_ttl a; sr_subject := subject |} in
           (with_sessions a (<[id := record]> (aa_sessions a)),
            Ok {| is_id := id; is_csrf := csrf; is_role := role; is_subject := subject |})
       | _, _ => (a, Err Unavailable)
       end.

(** [src/dashboard_auth.rs: AdminAuth::login_with_token] *)
Definition login_with_token (d : Draws) (form_token : bytes) (peer_loopback : bool) (a : AdminAuth)
    : AdminAuth * result LoginError IssuedSession :=
  match aa_token a with
  | None => (a, Err NoToken)
  | Some expected =>
      if (TOKEN_MAX <? len form_token) || negb (constant_time_eq form_token expected) then (a, Err BadToken)
      else if negb peer_loopback && negb (allow_token_off_loopback a) then (a, Err TokenOffLoopback)
      else issue d Operator None a
  end.

(** [src/dashboard_auth.rs: AdminAuth::csrf_ok] *)
Definition csrf_ok (authn : Authn) (provided : option bytes) (a : AdminAuth) : bool :=
  if bool_decide (an_method authn = MToken) && bool_decide (is_Some (aa_token a)) then true
  else match an_csrf authn, provided with
       | Some expected, Some got => constant_time_eq got expected
       | _, _ => false
       end.

(** [src/dashboard_auth.rs: AdminAuth::begin_oidc] Run without interruption, like [issue]. *)
Definition begin_oidc (sweep now : Instant) (r1 r2 r3 : option bytes) (a : AdminAuth) : AdminAuth * result LoginError (bytes * bytes) :=
  match aa_oidc a with
  | None => (a, Err NoOidc)
  | Some oidc =>
      let a := sweep_pending sweep a in
      if MAX_SESSIONS <=? Z.of_nat (size (aa_pending a)) then (a, Err Unavailable)
      else match start_pkce oidc r1 r2 r3 with
           | Err _ => (a, Err Unavailable)
           | Ok (pending, state, url) =>
               (with_pending a (<[state := {| pr_pending := pending; pr_expires := now + OIDC_PENDING_TTL |}]> (aa_pending a)), Ok (url, state))
           end
  end.

(** [src/dashboard_auth.rs: AdminAuth::take_pending] *)
Definition take_pending (sweep now : Instant) (state : bytes) (a : AdminAuth) : AdminAuth * option PendingOidc :=
  let a := sweep_pending sweep a in
  match aa_pending a !! state with
  | None => (a, None)
  | Some record =>
      (with_pending a (delete state (aa_pending a)), if pr_expires record <=? now then None else Some (pr_pending record))
  end.

(** [src/dashboard_auth.rs: AdminAuth::complete_oidc] *)
Definition complete_oidc (net : Net) (unix_now : Z) (d : Draws) (code : bytes) (pending : PendingOidc) (a : AdminAuth)
    : AdminAuth * result LoginError IssuedSession :=
  match aa_oidc a with
  | None => (a, Err NoOidc)
  | Some oidc =>
      match exchange net unix_now oidc code pending with
      | Err _ => (a, Err OidcExchange)
      | Ok who => issue d (oi_role who) (Some (oi_subject who)) a
      end
  end.
End Admin.

(** ** Exposure *)

(** [src/dashboard_auth.rs: fn production_enabled] *)
Definition production_enabled (env : Env) : bool := match env "FERROADA_PRODUCTION" with Some v => v =s "true" | None => false end.

Definition is_loopback (ip : IpAddr) : bool := match ip with V4 v => v / 2 ^ 24 =? 127 | V6 v => v =? 1 end.

Inductive ExposureError : Set := TokenInProduction | TokenOffLoopbackBind.

(** [src/dashboard_auth.rs: fn validate_exposure] *)
Definition validate_exposure (bind : IpAddr) (token : option bytes) (production strong_auth : bool) : result ExposureError unit :=
  if bool_decide (is_Some (trimmed_nonempty token)) then Ok tt
  else if production then Err TokenInProduction
  else if negb (is_loopback bind) && negb strong_auth then Err TokenOffLoopbackBind
  else Ok tt.

(** ** Lemmas *)

(** Under a positive window, keeping what is after the cutoff is the window of the other limiters. *)
Lemma after_cutoff_window w now times : 0 < w -> after_cutoff (now - w) times = retain_window id w now times.
Proof.
  intros Hw. unfold after_cutoff, retain_window. apply list_filter_iff. intros t. unfold live, duration_since, id. lia.
Qed.

(** *** The tables under concurrent sign-ins

    [issue] and [begin_oidc] test the size of a table and insert later, with nothing held in between. *)

Section TableStep.
Context {V : Type}.

(** The table, and the insertions to come of the threads whose test of its size is behind them. *)
Record Table : Type := { tb_map : gmap bytes V; tb_coming : gmap nat (bytes * V) }.

(** One operation on the table: entries are dropped (a sweep, a cookie that expired, a sign-in that returns), or a thread tests the size,
    or gives up (no random bytes), or inserts. *)
Inductive table_step (threads : nat) (s : Table) : Table -> Prop :=
| ts_drop m : m ⊆ tb_map s -> table_step threads s {| tb_map := m; tb_coming := tb_coming s |}
| ts_test t k v : (t < threads)%nat -> tb_coming s !! t = None -> (MAX_SESSIONS <=? Z.of_nat (size (tb_map s))) = false ->
    table_step threads s {| tb_map := tb_map s; tb_coming := <[t := (k, v)]> (tb_coming s) |}
| ts_give_up t : table_step threads s {| tb_map := tb_map s; tb_coming := delete t (tb_coming s) |}
| ts_insert t k v : tb_coming s !! t = Some (k, v) ->
    table_step threads s {| tb_map := <[k := v]> (tb_map s); tb_coming := delete t (tb_coming s) |}.

Definition empty_table : Table := {| tb_map := ∅; tb_coming := ∅ |}.

(** The entries that are there and those to come. *)
Definition claimed (s : Table) : Z := Z.of_nat (size (tb_map s)) + Z.of_nat (size (tb_coming s)).
Definition threads_ok (threads : nat) (s : Table) : Prop := forall t x, tb_coming s !! t = Some x -> (t < threads)%nat.

Lemma coming_size threads s : threads_ok threads s -> (size (tb_coming s) <= threads)%nat.
Proof.
  intros Hok. rewrite <- (size_dom (D := gset nat)), <- (size_set_seq (C := gset nat) 0 threads). apply subseteq_size.
  intros t [x Hx]%elem_of_dom. apply elem_of_set_seq. specialize (Hok t x Hx). lia.
Qed.

Lemma table_step_bound threads s s' : (0 < threads)%nat -> threads_ok threads s /\ claimed s <= MAX_SESSIONS - 1 + Z.of_nat threads ->
  table_step threads s s' -> threads_ok threads s' /\ claimed s' <= MAX_SESSIONS - 1 + Z.of_nat threads.
Proof.
  intros Ht [Hok Hc] Hs. destruct Hs as [m Hm|t k v Hlt Hn Hroom|t|t k v Hv]; unfold claimed in *; cbn [tb_map tb_coming] in *.
  - split; [done|]. apply map_subseteq_size in Hm. lia.
  - assert (threads_ok threads {| tb_map := tb_map s; tb_coming := <[t := (k, v)]> (tb_coming s) |}) as Hok'.
    { intros t' x. cbn. rewrite lookup_insert_Some. intros [[<- _]|[_ Hx]]; [done|by apply (Hok t' x)]. }
    split; [done|]. apply coming_size in Hok'. cbn in Hok'. apply Z.leb_gt in Hroom. lia.
  - split; [|rewrite map_size_delete; case_match; unfold id; lia]. intros t' x. cbn. rewrite lookup_delete_Some. intros [_ Hx]. by apply (Hok t' x).
  - split; [intros t' x; cbn; rewrite lookup_delete_Some; intros [_ Hx]; by apply (Hok t' x)|].
    rewrite map_size_delete, Hv, map_size_insert. assert (size (tb_coming s) <> 0%nat) by (intros E%map_size_empty_inv; by rewrite E, lookup_empty in Hv).
    case_match; unfold id; lia.
Qed.

(** However the operations of so many threads interleave, the table holds at most one entry less than the limit and the threads together. *)
Theorem table_bounded (threads : nat) (s : Table) : (0 < threads)%nat -> rtc (table_step threads) empty_table s ->
  Z.of_nat (size (tb_map s)) <= MAX_SESSIONS - 1 + Z.of_nat threads.
Proof.
  intros Ht Hs. assert (threads_ok threads s /\ claimed s <= MAX_SESSIONS - 1 + Z.of_nat threads) as [_ Hc]; [|unfold claimed in Hc; lia].
  revert Hs. apply (rtc_ind_r (fun s => threads_ok threads s /\ claimed s <= MAX_SESSIONS - 1 + Z.of_nat threads)).
  - split; [by intros t x|]. unfold claimed, empty_table. cbn. rewrite !map_size_empty. unfold MAX_SESSIONS. lia.
  - intros s1 s2 _ Hstep Hinv. by eapply table_step_bound.
Qed.

(** A sign-in that nothing interrupts. *)
Lemma alone threads t m k v : (t < threads)%nat -> (MAX_SESSIONS <=? Z.of_nat (size m)) = false ->
  rtc (table_step threads) {| tb_map := m; tb_coming := ∅ |} {| tb_map := <[k := v]> m; tb_coming := ∅ |}.
Proof.
  intros Ht Hroom. eapply rtc_l; [by apply (ts_test _ {| tb_map := m; tb_coming := ∅ |} t k v)|]. cbn [tb_map tb_coming].
  pose proof (ts_insert threads {| tb_map := m; tb_coming := <[t := (k, v)]> ∅ |} t k v (lookup_insert_eq _ _ _)) as Hs.
  cbn [tb_map tb_coming] in Hs. rewrite delete_insert_eq, delete_empty in Hs. by apply rtc_once.
Qed.

(** One sign-in after the other: the table grows to any size up to the limit. *)
Lemma table_grows threads (v : V) n : (0 < threads)%nat -> Z.of_nat n <= MAX_SESSIONS ->
  exists m, size m = n /\ rtc (table_step threads) empty_table {| tb_map := m; tb_coming := ∅ |}.
Proof.
  intros Ht. induction n as [|n IH]; intros Hn; [exists ∅; split; [apply map_size_empty|done]|].
  destruct IH as (m & Hm & Hs); [lia|]. set (k := fresh (dom (D := gset bytes) m)).
  assert (m !! k = None) as Hk by apply not_elem_of_dom, is_fresh.
  exists (<[k := v]> m). split; [rewrite map_size_insert, Hk; by rewrite Hm|].
  etrans; [exact Hs|]. apply (alone threads 0); [done|]. apply Z.leb_gt. lia.
Qed.

(** Two sign-ins at once pass the limit. *)
Theorem table_overfull (v : V) : exists s, rtc (table_step 2) empty_table s /\ Z.of_nat (size (tb_map s)) = MAX_SESSIONS + 1.
Proof.
  destruct (table_grows 2 v 4095) as (m & Hm & Hs); [lia|unfold MAX_SESSIONS; lia|].
  set (k1 := fresh (dom (D := gset bytes) m)). assert (m !! k1 = None) as H1 by apply not_elem_of_dom, is_fresh.
  set (k2 := fresh (dom (D := gset bytes) (<[k1 := v]> m))). assert (<[k1 := v]> m !! k2 = None) as H2 by apply not_elem_of_dom, is_fresh.
  assert ((MAX_SESSIONS <=? Z.of_nat (size m)) = false) as Hroom by (rewrite Hm; reflexivity).
  set (s0 := {| tb_map := m; tb_coming := ∅ |}).
  set (s1 := {| tb_map := m; tb_coming := <[0%nat := (k1, v)]> ∅ |}).
  set (s2 := {| tb_map := m; tb_coming := <[1%nat := (k2, v)]> (<[0%nat := (k1, v)]> ∅) |}).
  set (s3 := {| tb_map := <[k1 := v]> m; tb_coming := delete 0%nat (tb_coming s2) |}).
  exists {| tb_map := <[k2 := v]> (<[k1 := v]> m); tb_coming := delete 1%nat (tb_coming s3) |}. split.
  - etrans; [exact Hs|]. apply (rtc_l _ _ s1); [by apply (ts_test 2 s0 0 k1 v); [lia|..]|].
    apply (rtc_l _ _ s2); [by apply (ts_test 2 s1 1 k2 v); [lia|..]|].
    apply (rtc_l _ _ s3); [by apply (ts_insert 2 s2 0 k1 v)|]. apply rtc_once. by apply (ts_insert 2 s3 1 k2 v).
  - cbn [tb_map]. rewrite !map_size_insert, H1, H2, Hm. reflexivity.
Qed.
End TableStep.

(** A sign-in that nothing interrupts is a run of these operations. *)
Lemma issue_steps {SJ : SerdeJson} threads d role subject a t : (t < threads)%nat ->
  rtc (table_step threads) {| tb_map := aa_sessions a; tb_coming := ∅ |}
    {| tb_map := aa_sessions (issue d role subject a).1; tb_coming := ∅ |}.
Proof.
  intros Ht. unfold issue. cbv zeta.
  eapply rtc_l; [apply (ts_drop _ _ (aa_sessions (sweep_sessions (dr_sweep d) a))), map_filter_subseteq|]. cbn [tb_coming].
  set (a' := sweep_sessions (dr_sweep d) a). destruct (MAX_SESSIONS <=? _) eqn:E; [done|].
  destruct (dr_id d) as [raw|], (dr_csrf d) as [csrf|]; try done.
  by apply (alone threads t).
Qed.

Section Rate.

(** The sweep that [api_allow] makes every 256 checks. *)
Definition swept (now_sweep : Instant) (r : ApiRate) : gmap IpAddr (list Instant) :=
  if ar_checks r mod 256 =? 0 then sweep id (ar_window r) now_sweep (ar_hits r) else ar_hits r.

Lemma api_allow_unfold now_sweep now ip r : 0 < ar_window r -> api_allow now_sweep now ip r =
  let hits := swept now_sweep r in let checks := (ar_checks r + 1) mod 2 ^ 64 in
  if (ar_max_ips r <=? Z.of_nat (size hits)) && negb (bool_decide (is_Some (hits !! ip))) then (with_hits r hits checks, false)
  else
    let entry := retain_window id (ar_window r) now (row hits ip) in
    if ar_max r <=? len entry then (with_hits r (<[ip := entry]> hits) checks, false)
    else (with_hits r (<[ip := entry ++ [now]]> hits) checks, true).
Proof.
  intros Hw. unfold api_allow. cbv zeta.
  assert ((if ar_checks r mod 256 =? 0 then
      omap (fun times => if is_empty (after_cutoff (now_sweep - ar_window r) times) then None
                         else Some (after_cutoff (now_sweep - ar_window r) times)) (ar_hits r)
    else ar_hits r) = swept now_sweep r) as ->.
  { unfold swept, sweep. destruct (_ =? 0); [|done]. apply map_eq. intros k. rewrite !lookup_omap. destruct (ar_hits r !! k); [|done].
    cbn. unfold sweep_row. by rewrite after_cutoff_window by done. }
  cbn [ar_max_ips ar_max ar_window ar_checks with_hits]. by rewrite after_cutoff_window by done.
Qed.

(** One API request: its address and the readings of the clock. *)
Record ApiCall : Type := { ac_ip : IpAddr; ac_sweep : Instant; ac_now : Instant }.

Fixpoint api_run (calls : list ApiCall) (r : ApiRate) : ApiRate :=
  match calls with [] => r | c :: calls => api_run calls (api_allow (ac_sweep c) (ac_now c) (ac_ip c) r).1 end.

(** The times at which requests of an address were allowed. *)
Fixpoint api_admitted (ip : IpAddr) (calls : list ApiCall) (r : ApiRate) : list Instant :=
  match calls with
  | [] => []
  | c :: calls =>
      let '(r', ok) := api_allow (ac_sweep c) (ac_now c) (ac_ip c) r in
      (if ok && bool_decide (ac_ip c = ip) then [ac_now c] else []) ++ api_admitted ip calls r'
  end.

Fixpoint api_clock (t : Instant) (calls : list ApiCall) : Prop :=
  match calls with [] => True | c :: calls => t <= ac_sweep c <= ac_now c /\ api_clock (ac_now c) calls end.

Record rate_inv (ip : IpAddr) (r : ApiRate) (now : Instant) (adm : list Instant) : Prop := {
  ri_window : 0 < ar_window r;
  ri_past : Forall (fun t => t <= now) adm;
  ri_row : forall now', now <= now' -> retain_window id (ar_window r) now' adm
             `sublist_of` retain_window id (ar_window r) now' (row (ar_hits r) ip);
  ri_bound : forall a, len (base.filter (within a (ar_window r)) adm) <= Z.max 0 (ar_max r);
  ri_ips : Z.of_nat (size (ar_hits r)) <= ar_max_ips r }.

Lemma swept_row now_sweep now' r ip : now_sweep <= now' ->
  retain_window id (ar_window r) now' (row (swept now_sweep r) ip) = retain_window id (ar_window r) now' (row (ar_hits r) ip).
Proof. intros H. unfold swept. destruct (_ =? 0); [by apply sweep_retain|done]. Qed.

Lemma swept_size now_sweep r : (size (swept now_sweep r) <= size (ar_hits r))%nat.
Proof. unfold swept. destruct (_ =? 0); [apply sweep_size|done]. Qed.

Lemma room_kept (r : ApiRate) (hits : gmap IpAddr (list Instant)) ip l : Z.of_nat (size hits) <= ar_max_ips r ->
  (ar_max_ips r <=? Z.of_nat (size hits)) && negb (bool_decide (is_Some (hits !! ip))) = false ->
  Z.of_nat (size (<[ip := l]> hits)) <= ar_max_ips r.
Proof.
  intros Hs Hr. rewrite map_size_insert. destruct (hits !! ip) eqn:E; [done|].
  rewrite bool_decide_eq_false_2 in Hr by (by intros [? ?]). lia.
Qed.

(** One request keeps the invariant, its own time being added when it is allowed. *)
Lemma rate_step ip r t adm c : rate_inv ip r t adm -> t <= ac_sweep c <= ac_now c ->
  let '(r', ok) := api_allow (ac_sweep c) (ac_now c) (ac_ip c) r in
  ar_window r' = ar_window r /\ ar_max r' = ar_max r /\ ar_max_ips r' = ar_max_ips r
  /\ rate_inv ip r' (ac_now c) (adm ++ (if ok && bool_decide (ac_ip c = ip) then [ac_now c] else [])).
Proof.
  intros [Hw Hp Hr Hb Hi] [Ht Hn]. rewrite api_allow_unfold by done. cbv zeta.
  set (hits := swept (ac_sweep c) r). set (w := ar_window r) in *. set (k := ac_ip c).
  assert (forall now', ac_now c <= now' -> retain_window id w now' (row hits ip) = retain_window id w now' (row (ar_hits r) ip)) as Hs
    by (intros; apply swept_row; lia).
  assert (Forall (fun u => u <= ac_now c) adm) as Hp' by (apply (Forall_impl _ _ _ Hp); cbn; intros; lia).
  assert (Z.of_nat (size hits) <= ar_max_ips r) as Hi' by (pose proof (swept_size (ac_sweep c) r); unfold hits; lia).
  destruct ((ar_max_ips r <=? _) && _) eqn:Ec.
  { do 3 (split; [done|]). rewrite app_nil_r. constructor; cbn; try done. intros now' H'. rewrite Hs by done. apply Hr. lia. }
  destruct (Z.leb_spec (ar_max r) (len (retain_window id w (ac_now c) (row hits k)))) as [Hm|Hm].
  { do 3 (split; [done|]). rewrite app_nil_r. constructor; cbn; try done; [|by apply room_kept]. intros now' H'. rewrite row_insert.
    case_decide as Hk; [subst|]; rewrite ?retain_retain by done; rewrite Hs by done; apply Hr; lia. }
  do 3 (split; [done|]). cbn [andb].
  destruct (decide (k = ip)) as [Hk|Hk]; [rewrite (bool_decide_eq_true_2 _ Hk)|rewrite (bool_decide_eq_false_2 _ Hk)].
  - constructor; cbn [with_hits ar_hits ar_window ar_max ar_max_ips]; [done| | | |by apply room_kept].
    + apply Forall_app. split; [done|]. by repeat constructor.
    + intros now' H'. rewrite row_insert, decide_True by done. fold w. rewrite !retain_app, retain_retain by done.
      apply sublist_app; [|done]. rewrite Hk, Hs by done. apply Hr. lia.
    + intros a. fold w. rewrite filter_app. unfold len. rewrite length_app. fold (len (base.filter (within a w) adm)).
      destruct (decide (within a w (ac_now c))) as [Hin|Hout].
      * rewrite filter_cons_True, filter_nil by done. cbn [length].
        pose proof (sublist_length _ _ (within_retained a w (ac_now c) adm Hp' Hin)) as H1.
        pose proof (sublist_length _ _ (Hr (ac_now c) ltac:(lia))) as H2. rewrite <- Hs in H2 by done. fold k in Hk. rewrite Hk in Hm.
        unfold len in *. lia.
      * rewrite filter_cons_False, filter_nil by done. cbn [length]. specialize (Hb a). unfold len in *. lia.
  - rewrite app_nil_r. constructor; cbn [with_hits ar_hits ar_window ar_max ar_max_ips]; try done; [|by apply room_kept].
    intros now' H'. rewrite row_insert, decide_False by done. fold w. rewrite Hs by done. apply Hr. lia.
Qed.

Lemma rate_run ip calls : forall r t adm, rate_inv ip r t adm -> api_clock t calls ->
  exists t', ar_window (api_run calls r) = ar_window r /\ ar_max (api_run calls r) = ar_max r
  /\ ar_max_ips (api_run calls r) = ar_max_ips r /\ rate_inv ip (api_run calls r) t' (adm ++ api_admitted ip calls r).
Proof.
  induction calls as [|c calls IH]; intros r t adm Hinv Hc; cbn [api_run api_admitted].
  - exists t. by rewrite app_nil_r.
  - destruct Hc as [Ht Hc]. pose proof (rate_step ip r t adm c Hinv Ht) as Hs. destruct (api_allow _ _ _ r) as [r' ok]. cbn [fst].
    destruct Hs as (Hw & Hm & Hx & Hs). destruct (IH _ _ _ Hs Hc) as (t' & Hw' & Hm' & Hx' & Ht'). exists t'. rewrite <- Hw, <- Hm, <- Hx. by rewrite app_assoc.
Qed.

(** No address makes more API requests than its budget in any window, whatever the other addresses do, and the table never
    tracks more addresses than its capacity: a full table refuses new addresses and forgets none, unlike the limiter of the
    proxy. *)
Theorem api_rate_bound (max window_secs max_ips : Z) (calls : list ApiCall) (t : Instant) (ip : IpAddr) (a : Instant) :
  api_clock t calls ->
  let r := api_rate_new max window_secs max_ips in
  len (base.filter (within a (ar_window r)) (api_admitted ip calls r)) <= Z.max 1 max
  /\ Z.of_nat (size (ar_hits (api_run calls r))) <= Z.max 1 max_ips.
Proof.
  intros Hc r.
  assert (rate_inv ip r t []) as H0.
  { constructor; cbn [r api_rate_new ar_window ar_hits ar_max ar_max_ips]; [unfold from_secs; lia|constructor|done| |].
    - intros. change (0 <= Z.max 0 (Z.max max 1)). lia.
    - rewrite map_size_empty. lia. }
  destruct (rate_run ip calls r t [] H0 Hc) as (t' & Hw & Hm & Hx & [_ _ _ Hb Hi]). rewrite <- Hw. specialize (Hb a).
  cbn [app] in Hb. rewrite Hm in Hb. rewrite Hx in Hi. cbn [r api_rate_new ar_max ar_max_ips] in Hb, Hi. lia.
Qed.
End Rate.

(** ** Evaluations *)

Definition two_a_minute : list ApiCall :=
  map (fun t => {| ac_ip := V4 1; ac_sweep := from_secs t; ac_now := from_secs t |}) [0; 1; 2; 60; 61].

Lemma api_rate_bound_witness :
  api_admitted (V4 1) two_a_minute (api_rate_new 2 60 10) = map from_secs [0; 1; 60; 61]
  /\ len (base.filter (within 0 (from_secs 60)) (api_admitted (V4 1) two_a_minute (api_rate_new 2 60 10))) <= 2.
Proof.
  split; [vm_compute; reflexivity|].
  exact (proj1 (api_rate_bound 2 60 10 two_a_minute 0 (V4 1) 0 ltac:(cbn; repeat split; unfold from_secs; lia))).
Defined.

(** Without stronger means a dashboard that anyone can reach needs a token, and so does production. *)
Lemma exposure_ok bind token production strong_auth : validate_exposure bind token production strong_auth = Ok tt ->
  is_Some (trimmed_nonempty token) \/ (production = false /\ (is_loopback bind = true \/ strong_auth = true)).
Proof.
  unfold validate_exposure. case_bool_decide; [by left|]. destruct production; [done|]. right. split; [done|].
  destruct (is_loopback bind), strong_auth; try done; auto.
Qed.
