(* ===== verification/Dashboard.v ===== *)
(** * The dashboard ([src/dashboard.rs], [src/dashboard_audit.rs])

    The operators' interface: a state (sessions, pending sign-ins, API rate, the lines of the audit log, the live policy) and the
    handlers of a request as actions on it, which may panic.  A request comes with what its handling reads: clocks, random bytes, the
    reads of its body, the network of the identity provider, the files of a reload. *)

From S2P Require Import Prelude Text Net IpText Http Shield Json Jwks AdminText Oidc Admin.
From S2P Require Jwt Graphql OpenApi Grpc Abuse Config Policy.

(** [src/dashboard.rs: enum DashboardGet] *)
Inductive DashboardGet : Set := GHealth | GReady | GUnauthorized | GMetricsJson | GMetricsPrometheus | GIndex | GNotFound.

(** [src/dashboard.rs: fn classify_dashboard_get] *)
Definition classify_dashboard_get (path : bytes) (authorized : bool) : DashboardGet :=
  if path =s "/healthz" then GHealth
  else if path =s "/readyz" then GReady
  else if (path =s "/api/metrics") && authorized then GMetricsJson
  else if (path =s "/metrics") && authorized then GMetricsPrometheus
  else if (path =s "/api/metrics") || (path =s "/metrics") then GUnauthorized
  else if path =s "/" then GIndex
  else GNotFound.

(** ** The audit log *)

(** [src/dashboard_audit.rs: struct AuditEvent] *)
Record AuditEvent : Type := {
  ae_ts : bytes; ae_action : bytes; ae_method : bytes; ae_role : option bytes; ae_result : bytes; ae_peer : bytes;
  ae_subject : option bytes; ae_detail : option bytes }.

(** [src/dashboard_audit.rs: const MAX_DETAIL] *)
Definition MAX_DETAIL : Z := 200.

(** [s.truncate(n)] on a longer string: [None] when [n] is inside a character, which panics. *)
Definition truncate (n : Z) (s : bytes) : option bytes :=
  match s !! Z.to_nat n with Some b => if is_cont b then None else Some (take (Z.to_nat n) s) | None => Some s end.

(** [src/dashboard_audit.rs: fn sanitize_detail] The outer [None] is a panic. *)
Definition sanitize_detail (raw : bytes) : option (option bytes) :=
  let trimmed := trim raw in
  if is_empty trimmed then Some None
  else
    let lower := to_ascii_lowercase trimmed in
    if existsb (fun s => contains lower (lit s)) ["bearer "; "code="; "token="; "code_verifier"; "client_secret"; "id_token"]
    then Some (Some (lit "redacted"))
    else if MAX_DETAIL <? len trimmed then Some <$> truncate MAX_DETAIL trimmed
    else Some (Some trimmed).

Definition sanitize_opt (o : option bytes) : option (option bytes) := match o with Some raw => sanitize_detail raw | None => Some None end.

(** [src/dashboard_audit.rs: fn now_rfc3339] Seconds since the epoch, not RFC 3339. *)
Definition now_rfc3339 (secs millis : Z) : bytes :=
  show_dec secs ++ lit "." ++ (if millis <? 10 then lit "00" else if millis <? 100 then lit "0" else []) ++ show_dec millis ++ lit "Z".

Definition audit_json (e : AuditEvent) : JsonValue :=
  let opt name o := match o with Some v => [(lit name, JString v)] | None => [] end in
  JObject ([(lit "ts", JString (ae_ts e)); (lit "action", JString (ae_action e)); (lit "method", JString (ae_method e))]
           ++ opt "role" (ae_role e) ++ [(lit "result", JString (ae_result e)); (lit "peer", JString (ae_peer e))]
           ++ opt "subject" (ae_subject e) ++ opt "detail" (ae_detail e)).

(** [serde_json::to_string_pretty] *)
Class PrettyJson : Type := { to_string_pretty : JsonValue -> option bytes }.

(** How an action ends. *)
Inductive Ran (A : Type) : Type := Ends (a : A) | Panics | Starved.
Arguments Ends {A} a.
Arguments Panics {A}.
Arguments Starved {A}.

(** ** The service and its requests *)

Section Dashboard.
Context {OT : OidcText} {SJ : SerdeJson} {JT : JwksText} {JC : Jwt.JwtCrypto} {S256 : Graphql.Sha256} {PJ : PrettyJson}.
Context {UC : UnicodeCase} {YT : OpenApi.YamlText} {D : Grpc.Descriptors} {DB : Abuse.Mmdb} {PT : Config.PemText} {TT : Config.TomlText}
  {PC : Policy.PolicyCrypto}.
Context {H : Type} {HM : HeaderMap H}.

(** [src/dashboard.rs: struct DashboardService] The audit log is the lines of its file, if there is one. *)
Record DashboardService : Type := {
  ds_admin : AdminAuth; ds_audit : option (list bytes); ds_policy : option Policy.PolicyStore; ds_upstreams : list SocketAddr; ds_tls : bool }.

Definition with_auth (s : DashboardService) (a : AdminAuth) : DashboardService :=
  {| ds_admin := a; ds_audit := ds_audit s; ds_policy := ds_policy s; ds_upstreams := ds_upstreams s; ds_tls := ds_tls s |}.
Definition with_log (s : DashboardService) (l : option (list bytes)) : DashboardService :=
  {| ds_admin := ds_admin s; ds_audit := l; ds_policy := ds_policy s; ds_upstreams := ds_upstreams s; ds_tls := ds_tls s |}.
Definition with_store (s : DashboardService) (p : Policy.PolicyStore) : DashboardService :=
  {| ds_admin := ds_admin s; ds_audit := ds_audit s; ds_policy := Some p; ds_upstreams := ds_upstreams s; ds_tls := ds_tls s |}.

(** [src/dashboard.rs: DashboardService::new] *)
Definition service_new (token : option bytes) (upstreams : list SocketAddr) : DashboardService := {|
  ds_admin := with_token token; ds_audit := None; ds_policy := None; ds_upstreams := upstreams; ds_tls := false |}.
(** [src/dashboard.rs: DashboardService::with_policy] *)
Definition service_with_policy (p : Policy.PolicyStore) : DashboardService := {|
  ds_admin := disabled; ds_audit := None; ds_policy := Some p; ds_upstreams := []; ds_tls := false |}.
(** [src/dashboard.rs: DashboardService::with_admin] *)
Definition service_with_admin (admin : AdminAuth) (log : option (list bytes)) (tls : bool) (s : DashboardService) : DashboardService := {|
  ds_admin := admin; ds_audit := log; ds_policy := ds_policy s; ds_upstreams := ds_upstreams s; ds_tls := tls |}.

(** A read of the body: a piece, or the end of the two seconds, or an error. *)
Inductive BodyRead : Type := BChunk (chunk : bytes) | BTimeout | BError.

(** [src/dashboard.rs: fn read_body] The body ends where the reads end. *)
Fixpoint read_body (reads : list BodyRead) (max : Z) (out : bytes) : result Z bytes :=
  match reads with
  | [] => Ok out
  | BTimeout :: _ => Err 408
  | BError :: _ => Err 400
  | BChunk chunk :: reads => if max <? saturating_add usize_max (len out) (len chunk) then Err 413 else read_body reads max (out ++ chunk)
  end.

(** What the handling of a request reads.  [m_clock] are the readings of the monotonic clock: 0 and 1 for the API rate, 2 for the
    session, 3 and 4 for the pending sign-ins, 5 and 6 for a new session. *)
Record Moment : Type := {
  m_clock : nat -> Instant; m_rand : nat -> option bytes; m_unix : Z; m_wall : Z * Z; m_net : Net; m_disk : bool;
  m_probe : nat -> option bool; m_snapshot : bytes; m_prometheus : bytes; m_occasion : Policy.Occasion }.

(** [src/dashboard.rs: struct PeerInfo] *)
Record PeerInfo : Type := { pi_ip : option IpAddr; pi_label : bytes; pi_loopback : bool; pi_cn : option bytes }.

(** [src/dashboard.rs: fn peer_info] The common name is the one the TLS handshake kept. *)
Definition peer_info (client : option IpAddr) (cn : option bytes) : PeerInfo := {|
  pi_ip := client; pi_label := match client with Some ip => show_ip ip | None => lit "unknown" end;
  pi_loopback := match client with Some ip => is_loopback ip | None => false end; pi_cn := cn |}.

(** ** Actions *)

(** An action on the service. *)
Definition Act (A : Type) : Type := DashboardService -> DashboardService * Ran A.
#[export] Instance act_ret : MRet Act := fun _ a s => (s, Ends a).
#[export] Instance act_bind : MBind Act := fun _ _ f m s =>
  match m s with (s, Ends a) => f a s | (s, Panics) => (s, Panics) | (s, Starved) => (s, Starved) end.

Definition on_admin {A} (f : AdminAuth -> AdminAuth * A) : Act A := fun s => let '(a, x) := f (ds_admin s) in (with_auth s a, Ends x).
Definition ask {A} (f : DashboardService -> A) : Act A := fun s => (s, Ends (f s)).
Definition or_panic {A} (o : option A) : Act A := fun s => (s, match o with Some a => Ends a | None => Panics end).

(** What a handler sends. *)
Record Reply : Type := { rp_status : Z; rp_type : bytes; rp_body : bytes; rp_location : option bytes; rp_cookie : option bytes }.
Definition TEXT : bytes := lit "text/plain; charset=utf-8".
Definition says (status : Z) (body : bytes) : Reply :=
  {| rp_status := status; rp_type := TEXT; rp_body := body; rp_location := None; rp_cookie := None |}.
Definition redirects (location : bytes) (cookie : option bytes) : Reply :=
  {| rp_status := 302; rp_type := lit "text/plain"; rp_body := []; rp_location := Some location; rp_cookie := cookie |}.
Definition sends_json (status : Z) (body : bytes) (cookie : option bytes) : Reply :=
  {| rp_status := status; rp_type := lit "application/json"; rp_body := body; rp_location := None; rp_cookie := cookie |}.


(** The append of a line; one that cannot be written is dropped. *)
Definition append_line (m : Moment) (line : option bytes) : Act unit := fun s =>
  (match line, ds_audit s with
   | Some line, Some lines => if m_disk m then with_log s (Some (lines ++ [line])) else s
   | _, _ => s
   end, Ends tt).

(** [src/dashboard_audit.rs: AdminAudit::record] *)
Definition audit_record (m : Moment) (e : AuditEvent) : Act unit :=
  detail ← or_panic (sanitize_opt (ae_detail e));
  subject ← or_panic (sanitize_opt (ae_subject e));
  append_line m (json_to_string (audit_json
    {| ae_ts := ae_ts e; ae_action := ae_action e; ae_method := ae_method e; ae_role := ae_role e; ae_result := ae_result e;
       ae_peer := ae_peer e; ae_subject := subject; ae_detail := detail |})).

Definition stamp (m : Moment) : bytes := now_rfc3339 (m_wall m).1 (m_wall m).2.

(** [src/dashboard_audit.rs: AdminAudit::login_ok] *)
Definition login_ok (m : Moment) (method role peer : bytes) (subject : option bytes) : Act unit :=
  audit_record m {| ae_ts := stamp m; ae_action := lit "login"; ae_method := method; ae_role := Some role; ae_result := lit "ok";
                    ae_peer := peer; ae_subject := subject; ae_detail := None |}.

(** [src/dashboard_audit.rs: AdminAudit::auth_failure] *)
Definition auth_failure (m : Moment) (method peer : bytes) (detail : string) : Act unit :=
  audit_record m {| ae_ts := stamp m; ae_action := lit "auth_failure"; ae_method := method; ae_role := None; ae_result := lit "denied";
                    ae_peer := peer; ae_subject := None; ae_detail := Some (lit detail) |}.

(** [src/dashboard_audit.rs: AdminAudit::reload] *)
Definition audit_reload (m : Moment) (authn : Authn) (peer result : bytes) (detail : bytes) : Act unit :=
  audit_record m {| ae_ts := stamp m; ae_action := lit "reload"; ae_method := method_as_str (an_method authn);
                    ae_role := Some (role_as_str (an_role authn)); ae_result := result; ae_peer := peer; ae_subject := None;
                    ae_detail := Some detail |}.

(** ** Readiness *)

(** The attempts at a group, from the attempt [i]: [None] when the second is over. *)
Fixpoint try_group (probe : nat -> option bool) (i : nat) (group : list SocketAddr) : nat * option bool :=
  match group with
  | [] => (i, Some false)
  | _ :: group =>
      match probe i with
      | None => (S i, None)
      | Some true => (S i, Some true)
      | Some false => try_group probe (S i) group
      end
  end.

Fixpoint try_groups (probe : nat -> option bool) (i : nat) (groups : list (list SocketAddr)) : bool :=
  match groups with
  | [] => true
  | group :: groups =>
      if is_empty group then false
      else match try_group probe i group with (i, Some true) => try_groups probe i groups | _ => false end
  end.

(** [src/dashboard.rs: DashboardService::backend_addresses] *)
Definition service_addresses (s : DashboardService) : list SocketAddr :=
  match ds_policy s with Some p => Config.backend_addresses (Policy.lp_config (Policy.live p)) | None => ds_upstreams s end.

(** [src/dashboard.rs: DashboardService::upstreams_ready] *)
Definition upstreams_ready (m : Moment) (s : DashboardService) : bool :=
  let groups := match ds_policy s with
                | Some p => Config.origin_groups (Policy.lp_config (Policy.live p))
                | None => if is_empty (service_addresses s) then [] else [service_addresses s]
                end in
  if is_empty groups then false else try_groups (m_probe m) 0 groups.

(** ** Handlers *)

Definition draws (m : Moment) : Draws := {| dr_sweep := m_clock m 5; dr_now := m_clock m 6; dr_id := m_rand m 3; dr_csrf := m_rand m 4 |}.

(** [src/dashboard.rs: DashboardService::authorization] *)
Definition authorization (headers : H) : option bytes := get_str headers (lit "authorization").

(** [src/dashboard.rs: DashboardService::authenticate] *)
Definition service_authenticate (m : Moment) (headers : H) (peer : PeerInfo) : Act (option Authn) :=
  on_admin (authenticate (m_clock m 2) (get_str headers (lit "cookie")) (authorization headers) (pi_cn peer) (pi_loopback peer)).

(** [value["admin"] = ...]: [None] on a value that has no members, which panics. *)
Definition set_member (key : bytes) (v : JsonValue) (value : JsonValue) : option JsonValue :=
  match value with
  | JNull => Some (JObject [(key, v)])
  | JObject members => Some (JObject (base.filter (fun p => p.1 <> key) members ++ [(key, v)]))
  | _ => None
  end.

(** [src/dashboard.rs: fn with_admin] *)
Definition with_admin (snapshot : bytes) (authn : Authn) : option bytes :=
  let value := default (JObject []) (json_from_str snapshot) in
  let admin := (lit "role", JString (role_as_str (an_role authn)))
    :: match an_csrf authn with Some csrf => [(lit "csrf", JString csrf)] | None => [] end in
  (fun value => default snapshot (to_string_pretty value)) <$> set_member (lit "admin") (JObject admin) value.

(** [src/dashboard.rs: fn api_index_body] *)
Definition api_index_body : bytes :=
  lit "ferroada " ++ [226; 128; 148] ++ lit " este porto " ++ [195; 169] ++ lit " a API do proxy, n" ++ [195; 163] ++ lit "o o painel."
  ++ [10] ++ lit "/healthz  /readyz  /api/metrics  /metrics" ++ [10] ++ lit "O painel est" ++ [195; 161]
  ++ lit " em web/ (desenvolvimento: http://127.0.0.1:3100)." ++ [10].

Definition UNAUTHORIZED : bytes := lit "401 N" ++ [195; 163] ++ lit "o autorizado" ++ [10].
Definition NOT_FOUND : bytes := lit "404 n" ++ [195; 163] ++ lit "o encontrado" ++ [10].

(** [src/dashboard.rs: DashboardService::handle_get] *)
Definition handle_get (m : Moment) (headers : H) (path : bytes) (peer : PeerInfo) : Act Reply :=
  authn ← service_authenticate m headers peer;
  wrong ← ask (fun s => negb (bool_decide (is_Some authn)) && token_presented_and_wrong (authorization headers) (ds_admin s));
  _ ← (if (wrong : bool) then auth_failure m (lit "token") (pi_label peer) "bad_token" else mret tt);
  '(authn, cookie) ←
    match authn with
    | Some current =>
        if bool_decide (an_method current = MMtls) then
          issued ← on_admin (issue (draws m) (an_role current) (an_subject current));
          match issued with
          | Ok i =>
              s ← ask (fun s => s);
              mret (Some {| an_role := is_role i; an_method := MSession; an_csrf := Some (is_csrf i); an_subject := is_subject i |},
                    Some (issued_cookie i (aa_ttl (ds_admin s)) (ds_tls s)))
          | Err _ => mret (authn, None)
          end
        else mret (authn, None)
    | None => mret (authn, None)
    end;
  s ← ask (fun s => s);
  reply ←
    match classify_dashboard_get path (bool_decide (is_Some authn)) with
    | GHealth => mret (says 200 (lit "ok" ++ [10]))
    | GReady => mret (if upstreams_ready m s then says 200 (lit "pronto" ++ [10])
                      else says 503 (lit "backend indispon" ++ [195; 173] ++ lit "vel" ++ [10]))
    | GUnauthorized =>
        mret {| rp_status := 401; rp_type := lit "text/plain"; rp_body := UNAUTHORIZED; rp_location := None; rp_cookie := None |}
    | GMetricsJson =>
        body ← match authn with Some authn => or_panic (with_admin (m_snapshot m) authn) | None => mret (m_snapshot m) end;
        mret (sends_json 200 body None)
    | GMetricsPrometheus =>
        mret {| rp_status := 200; rp_type := lit "text/plain; version=0.0.4; charset=utf-8"; rp_body := m_prometheus m;
                rp_location := None; rp_cookie := None |}
    | GIndex => mret (says 200 api_index_body)
    | GNotFound => mret (says 404 NOT_FOUND)
    end;
  mret {| rp_status := rp_status reply; rp_type := rp_type reply; rp_body := rp_body reply; rp_location := None; rp_cookie := cookie |}.

Definition body_refused (status : Z) : Reply :=
  says status (if status =? 408 then lit "408 tempo esgotado" ++ [10]
               else if status =? 413 then lit "413 corpo demasiado grande" ++ [10]
               else lit "400 pedido inv" ++ [195; 161] ++ lit "lido" ++ [10]).

(** [src/dashboard.rs: DashboardService::handle_login] *)
Definition handle_login (m : Moment) (body : list BodyRead) (peer : PeerInfo) : Act Reply :=
  match read_body body 8192 [] with
  | Err status => mret (body_refused status)
  | Ok body =>
      match form_field (utf8_lossy body) (lit "token") with
      | None | Some [] => _ ← auth_failure m (lit "token") (pi_label peer) "missing_token"; mret (says 401 UNAUTHORIZED)
      | Some token =>
          login ← on_admin (login_with_token (draws m) token (pi_loopback peer));
          match login with
          | Ok issued =>
              _ ← login_ok m (lit "token") (role_as_str (is_role issued)) (pi_label peer) None;
              s ← ask (fun s => s);
              payload ← or_panic (json_to_string (JObject [(lit "csrf", JString (is_csrf issued)); (lit "ok", JBool true);
                                                           (lit "role", JString (role_as_str (is_role issued)))]));
              mret (sends_json 200 payload (Some (issued_cookie issued (aa_ttl (ds_admin s)) (ds_tls s))))
          | Err TokenOffLoopback =>
              _ ← auth_failure m (lit "token") (pi_label peer) "token_off_loopback"; mret (says 401 UNAUTHORIZED)
          | Err _ => _ ← auth_failure m (lit "token") (pi_label peer) "bad_token"; mret (says 401 UNAUTHORIZED)
          end
      end
  end.

(** [policy.try_reload()] on the store the service shares with the proxy. *)
Definition reload_store (o : Policy.Occasion) : Act (option (result Policy.PolicyError Policy.ReloadOutcome)) := fun s =>
  match ds_policy s with
  | None => (s, Ends None)
  | Some p => match Policy.try_reload p o with
              | (p, Done outcome) => (with_store s p, Ends (Some (Ok outcome)))
              | (p, Failed e) => (with_store s p, Ends (Some (Err e)))
              | (p, NoFuel) => (with_store s p, Starved)
              end
  end.

(** [src/dashboard.rs: DashboardService::handle_reload] *)
Definition handle_reload (m : Moment) (headers : H) (body : list BodyRead) (peer : PeerInfo) : Act Reply :=
  authn ← service_authenticate m headers peer;
  match read_body body 8192 [] with
  | Err status => mret (body_refused status)
  | Ok body =>
      let csrf := form_field (utf8_lossy body) (lit "csrf") in
      match authn with
      | None => _ ← auth_failure m (lit "unknown") (pi_label peer) "reload_unauthenticated"; mret (says 401 UNAUTHORIZED)
      | Some authn =>
          if negb (can_reload (an_role authn)) then
            _ ← audit_reload m authn (pi_label peer) (lit "denied") (lit "not_operator");
            mret (says 403 (lit "403 Sem permiss" ++ [195; 163] ++ lit "o" ++ [10]))
          else
            ok ← ask (fun s => csrf_ok authn csrf (ds_admin s));
            if negb ok then
              _ ← auth_failure m (method_as_str (an_method authn)) (pi_label peer) "csrf";
              mret (says 403 (lit "403 CSRF em falta" ++ [10]))
            else
              outcome ← reload_store (m_occasion m);
              match outcome with
              | None => mret (says 503 (lit "503 pol" ++ [195; 173] ++ lit "tica indispon" ++ [195; 173] ++ lit "vel" ++ [10]))
              | Some (Ok o) =>
                  _ ← audit_reload m authn (pi_label peer) (lit "ok") (lit "vers" ++ [195; 163] ++ lit "o " ++ Policy.version o);
                  payload ← or_panic (json_to_string (JObject [(lit "ok", JBool true); (lit "policy_version", JString (Policy.version o));
                                                               (lit "previous", JString (Policy.previous o))]));
                  mret (sends_json 200 payload None)
              | Some (Err _) =>
                  _ ← audit_reload m authn (pi_label peer) (lit "rejected") (lit "last-known-good");
                  payload ← or_panic (json_to_string (JObject [(lit "error", JString (lit "Reload recusado; a pol" ++ [195; 173]
                    ++ lit "tica anterior permanece.")); (lit "ok", JBool false)]));
                  mret (sends_json 409 payload None)
              end
      end
  end.

(** [src/dashboard.rs: DashboardService::handle_oidc_login] *)
Definition handle_oidc_login (m : Moment) (peer : PeerInfo) : Act Reply :=
  enabled ← ask (fun s => oidc_enabled (ds_admin s));
  if negb enabled then mret (says 404 NOT_FOUND)
  else
    begun ← on_admin (begin_oidc (m_clock m 3) (m_clock m 4) (m_rand m 0) (m_rand m 1) (m_rand m 2));
    match begun with
    | Ok (url, _) => mret (redirects url None)
    | Err _ =>
        _ ← auth_failure m (lit "oidc") (pi_label peer) "oidc_start";
        mret (says 503 (lit "503 identidade indispon" ++ [195; 173] ++ lit "vel" ++ [10]))
    end.

Definition oidc_refused (m : Moment) (peer : PeerInfo) (detail : string) : Act Reply :=
  _ ← auth_failure m (lit "oidc") (pi_label peer) detail; mret (redirects (lit "/") None).

(** [src/dashboard.rs: DashboardService::handle_oidc_callback] *)
Definition handle_oidc_callback (m : Moment) (query : option bytes) (peer : PeerInfo) : Act Reply :=
  enabled ← ask (fun s => oidc_enabled (ds_admin s));
  if negb enabled then mret (says 404 NOT_FOUND)
  else
    match query_param query (lit "error"), query_param query (lit "state"), query_param query (lit "code") with
    | Some _, _, _ => oidc_refused m peer "idp_error"
    | None, None, _ => oidc_refused m peer "oidc_state"
    | None, Some _, None => oidc_refused m peer "oidc_code"
    | None, Some state, Some code =>
        taken ← on_admin (take_pending (m_clock m 3) (m_clock m 4) state);
        match taken with
        | None => oidc_refused m peer "oidc_state"
        | Some pending =>
            done ← on_admin (complete_oidc (m_net m) (m_unix m) (draws m) code pending);
            match done with
            | Err _ => oidc_refused m peer "oidc_exchange"
            | Ok issued =>
                _ ← login_ok m (lit "oidc") (role_as_str (is_role issued)) (pi_label peer) (is_subject issued);
                s ← ask (fun s => s);
                mret (redirects (lit "/") (Some (issued_cookie issued (aa_ttl (ds_admin s)) (ds_tls s))))
            end
        end
    end.

(** ** A request *)

Record AdminRequest : Type := {
  q_method : bytes; q_path : bytes; q_query : option bytes; q_headers : H; q_body : list BodyRead; q_client : option IpAddr;
  q_cn : option bytes }.

(** [src/dashboard.rs: DashboardService::request_filter] *)
Definition request_filter (m : Moment) (q : AdminRequest) : Act Reply :=
  let peer := peer_info (q_client q) (q_cn q) in
  let gets := one_of (q_method q) ["GET"; "HEAD"] in
  let posts := q_method q =s "POST" in
  if q_method q =s "OPTIONS" then
    mret {| rp_status := 204; rp_type := lit "text/plain"; rp_body := []; rp_location := None; rp_cookie := None |}
  else
    allowed ← on_admin (api_allowed (m_clock m 0) (m_clock m 1) (q_path q) (pi_ip peer));
    if negb allowed then mret (says 429 (lit "429 demasiados pedidos" ++ [10]))
    else if credentials_in_query (q_path q) (q_query q) then
      _ ← auth_failure m (lit "unknown") (pi_label peer) "query_credential";
      mret (says 400 (lit "400 credencial n" ++ [195; 163] ++ lit "o pode ir na query string" ++ [10]))
    else if gets && (q_path q =s "/oidc/login") then handle_oidc_login m peer
    else if gets && (q_path q =s "/oidc/callback") then handle_oidc_callback m (q_query q) peer
    else if posts && (q_path q =s "/api/login") then handle_login m (q_body q) peer
    else if posts && (q_path q =s "/api/reload") then handle_reload m (q_headers q) (q_body q) peer
    else if gets then handle_get m (q_headers q) (q_path q) peer
    else mret (says 405 (lit "405 M" ++ [195; 169] ++ lit "todo n" ++ [195; 163] ++ lit "o permitido" ++ [10])).

(** [src/dashboard.rs: fn respond] The header that is written; [None] when a value is refused. *)
Definition respond (cors : option bytes) (r : Reply) : option H :=
  let put n v h := insert_header (lit n) v h in
  h ← put "Content-Type" (rp_type r) hm_empty;
  h ← put "Content-Length" (show_dec (len (rp_body r))) h;
  h ← put "Cache-Control" (lit "no-cache") h;
  h ← put "Content-Security-Policy" (lit "default-src 'none'; frame-ancestors 'none'; base-uri 'none'") h;
  h ← put "Referrer-Policy" (lit "no-referrer") h;
  h ← put "X-Content-Type-Options" (lit "nosniff") h;
  h ← put "X-Frame-Options" (lit "DENY") h;
  h ← match rp_location r with Some location => put "Location" location h | None => Some h end;
  h ← match rp_cookie r with Some cookie => put "Set-Cookie" cookie h | None => Some h end;
  match cors with
  | Some origin =>
      if is_empty origin then Some h
      else
        h ← put "Access-Control-Allow-Origin" origin h;
        h ← put "Access-Control-Allow-Headers" (lit "Authorization, Content-Type") h;
        put "Access-Control-Allow-Methods" (lit "GET, POST, OPTIONS") h
  | None => Some h
  end.

(** The service after a request. *)
Definition serve (m : Moment) (q : AdminRequest) (s : DashboardService) : DashboardService := (request_filter m q s).1.

Fixpoint serve_all (l : list (Moment * AdminRequest)) (s : DashboardService) : DashboardService :=
  match l with [] => s | (m, q) :: l => serve_all l (serve m q s) end.
End Dashboard.

(** ** The audit log *)

(** The subject of an identity can stop the handler: a text of more than 200 bytes is cut inside a character when its two hundredth
    byte ends inside one. *)
Example long_subject_panics : sanitize_detail (repeat 97 199 ++ [195; 169] ++ lit "x") = None
  /\ sanitize_detail (repeat 97 200 ++ [195; 169]) = Some (Some (repeat 97 200))
  /\ sanitize_detail (lit " Bearer abc") = Some (Some (lit "redacted")).
Proof. vm_compute. repeat split. Qed.

(** Otherwise what the log keeps of a text is short, and is the word [redacted] when it could carry a credential. *)
Lemma sanitize_detail_short raw out : sanitize_detail raw = Some (Some out) ->
  len out <= MAX_DETAIL /\ (out = lit "redacted" \/ out `prefix_of` trim raw).
Proof.
  unfold sanitize_detail. cbv zeta. destruct (is_empty (trim raw)); [done|]. destruct (existsb _ _).
  { intros [= <-]. split; [vm_compute; discriminate|by left]. }
  destruct (Z.ltb_spec MAX_DETAIL (len (trim raw))) as [Hl|Hl]; [|intros [= <-]; split; [lia|by right]].
  unfold truncate. destruct (trim raw !! Z.to_nat MAX_DETAIL) as [b|] eqn:Eb.
  - destruct (is_cont b); [done|]. intros [= <-]. unfold len. rewrite length_take. split; [unfold MAX_DETAIL; lia|right].
    exists (drop (Z.to_nat MAX_DETAIL) (trim raw)). by rewrite take_drop.
  - apply lookup_ge_None in Eb. unfold len, MAX_DETAIL in *. lia.
Qed.
