(* ===== verification/Operators.v ===== *)
(** * Who operates the proxy

    The guarantees of the dashboard over the requests of a process: where every session and every pending sign-in comes from, who can
    reload the policy, and that a sign-in is used once.  The requests are taken one after another, each from its first reading of the
    tables to its last change of them; what two sign-ins at once do to the size of a table is [Admin.TableStep]. *)

From S2P Require Import Prelude Text Net Http Shield Json Jwks AdminText Oidc Admin Dashboard.
From S2P Require Jwt Graphql OpenApi Grpc Abuse Config Policy.

Section Operators.
Context {OT : OidcText} {SJ : SerdeJson} {JT : JwksText} {JC : Jwt.JwtCrypto} {S256 : Graphql.Sha256} {PJ : PrettyJson}.
Context {UC : UnicodeCase} {YT : OpenApi.YamlText} {D : Grpc.Descriptors} {DB : Abuse.Mmdb} {PT : Config.PemText} {TT : Config.TomlText}
  {PC : Policy.PolicyCrypto}.
Context {H : Type} {HM : HeaderMap H}.

Abbreviation sessions s := (aa_sessions (ds_admin s)).
Abbreviation pendings s := (aa_pending (ds_admin s)).

(** What no request changes. *)
Definition settings (s : DashboardService) : option bytes * option OidcConfig * option MtlsRoles * Duration * bool :=
  let a := ds_admin s in (aa_token a, aa_oidc a, aa_mtls a, aa_ttl a, allow_token_off_loopback a).

(** From one state to the next, the settings stay, a session or a pending sign-in was there or has a reason, and so has a change of the
    policy. *)
Record moves (P : bytes -> SessionRecord -> Prop) (B : bytes -> PendingRecord -> Prop) (C : Prop) (s s' : DashboardService) : Prop := {
  mv_settings : settings s' = settings s;
  mv_sessions : forall id r, sessions s' !! id = Some r -> sessions s !! id = Some r \/ P id r;
  mv_pendings : forall st p, pendings s' !! st = Some p -> pendings s !! st = Some p \/ B st p;
  mv_policy : ds_policy s' = ds_policy s \/ C }.

Lemma moves_refl P B C s : moves P B C s s.
Proof. constructor; auto. Qed.

Lemma moves_trans P B C s1 s2 s3 : moves P B C s1 s2 -> moves P B C s2 s3 -> moves P B C s1 s3.
Proof.
  intros [H1 H2 H3 H4] [G1 G2 G3 G4]. constructor; [congruence| | |destruct G4 as [-> |]; auto].
  - intros id r Hr. destruct (G2 id r Hr); eauto.
  - intros st p Hp. destruct (G3 st p Hp); eauto.
Qed.

(** ** A logic of actions *)

(** An action that moves so and whose result satisfies [Q]. *)
Definition does {A} (R : DashboardService -> DashboardService -> Prop) (act : Act A) (Q : DashboardService -> A -> Prop)
    (s : DashboardService) : Prop :=
  R s (act s).1 /\ forall a, (act s).2 = Ends a -> Q (act s).1 a.

Lemma does_bind {A B} R (m : Act A) (f : A -> Act B) Q Q' s : (forall x y z, R x y -> R y z -> R x z) ->
  does R m Q s -> (forall s' a, R s s' -> Q s' a -> does R (f a) Q' s') -> does R (m ≫= f) Q' s.
Proof.
  intros Ht [Hm Hq] Hf. unfold does, mbind, act_bind in *. destruct (m s) as [s1 [a| |]]; cbn in *.
  - destruct (Hf s1 a Hm (Hq a eq_refl)) as [H1 H2]. split; [by eapply Ht|done].
  - by split.
  - by split.
Qed.

Lemma does_ret {A} (R : DashboardService -> DashboardService -> Prop) (a : A) (Q : DashboardService -> A -> Prop) s :
  R s s -> Q s a -> does R (mret a) Q s.
Proof. intros HR HQ. split; [done|]. by intros a' [= <-]. Qed.

Lemma does_weaken {A} (R : DashboardService -> DashboardService -> Prop) (m : Act A) Q Q' s :
  does R m Q s -> (forall s' a, R s s' -> Q s' a -> Q' s' a) -> does R m Q' s.
Proof. intros [H1 H2] HQ. split; [done|]. eauto. Qed.

(** What only writes the log. *)
Definition only_logs {A} (act : Act A) : Prop := forall s, exists l, (act s).1 = with_log s l.

Lemma with_log_same s : with_log s (ds_audit s) = s.
Proof. by destruct s. Qed.

Lemma record_only_logs m e : only_logs (audit_record m e).
Proof.
  intros s. unfold audit_record, or_panic, append_line, mbind, act_bind.
  destruct (sanitize_opt (ae_detail e)); [|exists (ds_audit s); cbn; by rewrite with_log_same].
  destruct (sanitize_opt (ae_subject e)); [|exists (ds_audit s); cbn; by rewrite with_log_same]. cbn.
  destruct (json_to_string _), (ds_audit s) eqn:E, (m_disk m); cbn; try (eexists; reflexivity);
    exists (ds_audit s); by rewrite with_log_same.
Qed.

(** ** Credentials *)

Definition loopback_or_allowed (s : DashboardService) (q : AdminRequest (H := H)) : bool :=
  pi_loopback (peer_info (q_client q) (q_cn q)) || allow_token_off_loopback (ds_admin s).

Definition field_of (q : AdminRequest (H := H)) (name : string) : option bytes :=
  match read_body (q_body q) 8192 [] with Ok body => form_field (utf8_lossy body) (lit name) | Err _ => None end.

(** The request shows a credential for a role: the token in a login form, the code of a sign-in that [Pending] holds, redeemed for an
    identity token of the provider, or a client certificate. *)
Inductive shows (s : DashboardService) (Pending : bytes -> PendingOidc -> Prop) (m : Moment) (q : AdminRequest (H := H)) : Role -> Prop :=
| shows_token t : aa_token (ds_admin s) = Some t -> q_method q = lit "POST" -> q_path q = lit "/api/login" ->
    field_of q "token" = Some t -> loopback_or_allowed s q = true -> shows s Pending m q Operator
| shows_oidc c st code p who : aa_oidc (ds_admin s) = Some c -> q_path q = lit "/oidc/callback" ->
    query_param (q_query q) (lit "state") = Some st -> query_param (q_query q) (lit "code") = Some code -> Pending st p ->
    exchange (m_net m) (m_unix m) c code p = Ok who -> shows s Pending m q (oi_role who)
| shows_certificate mt cn r : one_of (q_method q) ["GET"; "HEAD"] = true -> q_path q <> lit "/oidc/callback" ->
    aa_mtls (ds_admin s) = Some mt -> q_cn q = Some cn -> mtls_role mt cn = Some r -> shows s Pending m q r.

(** Why a session is there: a request showed a credential for its role and drew its identifier and its CSRF secret, and its time runs
    from that request. *)
Definition issued_for (s : DashboardService) (Pending : bytes -> PendingOidc -> Prop) (m : Moment) (q : AdminRequest (H := H))
    (id : bytes) (r : SessionRecord) : Prop :=
  shows s Pending m q (sr_role r) /\ sr_expires r = m_clock m 6 + aa_ttl (ds_admin s)
  /\ (exists raw, m_rand m 3 = Some raw /\ id = hex_encode raw)
  /\ exists raw, m_rand m 4 = Some raw /\ sr_csrf r = hex_encode raw.

(** Why a sign-in is pending: a request was sent to the provider with its state. *)
Definition begun_by (s : DashboardService) (m : Moment) (st : bytes) (p : PendingRecord) : Prop :=
  exists c url, aa_oidc (ds_admin s) = Some c /\ start_pkce c (m_rand m 0) (m_rand m 1) (m_rand m 2) = Ok (pr_pending p, st, url)
  /\ pr_expires p = m_clock m 4 + OIDC_PENDING_TTL.

(** The right to reload: the token as a bearer, or the live session of an operator and its CSRF secret in the form. *)
Definition reload_right (s : DashboardService) (m : Moment) (q : AdminRequest (H := H)) : Prop :=
  q_method q = lit "POST" /\ q_path q = lit "/api/reload" /\ credentials_in_query (q_path q) (q_query q) = false
  /\ ((exists t, aa_token (ds_admin s) = Some t /\ bearer (authorization (q_headers q)) = Some t /\ loopback_or_allowed s q = true)
     \/ exists id r, cookie_value (get_str (q_headers q) (lit "cookie")) COOKIE_NAME = Some id /\ sessions s !! id = Some r
          /\ m_clock m 2 < sr_expires r /\ sr_role r = Operator /\ field_of q "csrf" = Some (sr_csrf r)).

Section Moves.
Context (P : bytes -> SessionRecord -> Prop) (B : bytes -> PendingRecord -> Prop) (C : Prop).
Abbreviation go act Q s := (does (moves P B C) act Q s).

Lemma only_logs_does {A} (act : Act A) s : only_logs act -> go act (fun _ _ => True) s.
Proof. intros Ha. split; [|done]. destruct (Ha s) as [l ->]. constructor; auto. Qed.

Lemma ask_does {A} (f : DashboardService -> A) s : go (ask f) (fun s' a => s' = s /\ a = f s) s.
Proof. split; [apply moves_refl|]. by intros a [= <-]. Qed.

Lemma or_panic_does {A} (o : option A) s : go (or_panic o) (fun _ _ => True) s.
Proof. split; [apply moves_refl|done]. Qed.

(** An action on the operators' state. *)
Lemma on_admin_does {A} (f : AdminAuth -> AdminAuth * A) (Q : AdminAuth -> A -> Prop) s :
  moves P B C s (with_auth s (f (ds_admin s)).1) -> Q (f (ds_admin s)).1 (f (ds_admin s)).2 ->
  go (on_admin f) (fun s' a => Q (ds_admin s') a) s.
Proof.
  intros Hm HQ. unfold does, on_admin. destruct (f (ds_admin s)) as [a x]. cbn in *. split; [done|]. by intros ? [= <-].
Qed.

Lemma rate_moves s now_sweep now path ip : moves P B C s (with_auth s (api_allowed now_sweep now path ip (ds_admin s)).1).
Proof.
  unfold api_allowed. destruct (negb _); [by destruct s; apply moves_refl|]. destruct (api_allow _ _ _ _). constructor; cbn; auto.
Qed.

Lemma with_auth_same s : with_auth s (ds_admin s) = s.
Proof. by destruct s. Qed.

Lemma fewer_sessions s ss : (forall id r, ss !! id = Some r -> sessions s !! id = Some r) ->
  moves P B C s (with_auth s (with_sessions (ds_admin s) ss)).
Proof. intros Hs. constructor; cbn; auto. Qed.

Lemma fewer_pendings s ps : (forall st p, ps !! st = Some p -> pendings s !! st = Some p) ->
  moves P B C s (with_auth s (with_pending (ds_admin s) ps)).
Proof. intros Hs. constructor; cbn; auto. Qed.

Lemma cookie_moves s now header : moves P B C s (with_auth s (session_from_cookie now header (ds_admin s)).1).
Proof.
  unfold session_from_cookie. destruct (cookie_value _ _) as [id|]; [|rewrite with_auth_same; apply moves_refl].
  destruct (sessions s !! id) as [r|]; [|rewrite with_auth_same; apply moves_refl].
  destruct (_ <=? _); [|rewrite with_auth_same; apply moves_refl]. apply fewer_sessions. intros id' r'. rewrite lookup_delete_Some. tauto.
Qed.

Lemma sweep_sub now a id r : aa_sessions (sweep_sessions now a) !! id = Some r -> aa_sessions a !! id = Some r /\ now < sr_expires r.
Proof. intros Hr. by apply map_lookup_filter_Some in Hr. Qed.

Lemma sweep_pending_sub now a st p : aa_pending (sweep_pending now a) !! st = Some p -> aa_pending a !! st = Some p /\ now < pr_expires p.
Proof. intros Hr. by apply map_lookup_filter_Some in Hr. Qed.

(** A new session needs a reason. *)
Lemma issue_moves s d role subject :
  (forall raw csrf, dr_id d = Some raw -> dr_csrf d = Some csrf ->
     P (hex_encode raw) {| sr_role := role; sr_csrf := hex_encode csrf; sr_expires := dr_now d + aa_ttl (ds_admin s); sr_subject := subject |}) ->
  moves P B C s (with_auth s (issue d role subject (ds_admin s)).1).
Proof.
  intros HP. unfold issue.
  assert (forall id r, aa_sessions (sweep_sessions (dr_sweep d) (ds_admin s)) !! id = Some r -> sessions s !! id = Some r) as Hs
    by (intros id r [Hr _]%sweep_sub; exact Hr).
  cbv zeta. set (a' := sweep_sessions (dr_sweep d) (ds_admin s)) in *.
  destruct (_ <=? _); [by apply fewer_sessions|]. destruct (dr_id d), (dr_csrf d) as [csrf|]; try (by apply fewer_sessions).
  constructor; cbn [fst with_auth ds_admin]; [done| |auto|auto].
  cbn. intros id r. rewrite lookup_insert_Some. intros [[<- <-]|[_ Hr]]; [right; by apply HP|left; by apply Hs].
Qed.

Lemma issue_fresh s d role subject :
  (forall raw csrf, dr_id d = Some raw -> dr_csrf d = Some csrf ->
     P (hex_encode raw) {| sr_role := role; sr_csrf := hex_encode csrf; sr_expires := dr_now d + aa_ttl (ds_admin s); sr_subject := subject |}) ->
  go (on_admin (issue d role subject)) (fun _ _ => True) s.
Proof. intros HP. apply on_admin_does with (Q := fun _ _ => True); [by apply issue_moves|done]. Qed.
End Moves.

(** ** What an identity rests on *)

Inductive identified (now : Instant) (cookie auth cn : option bytes) (lb : bool) (a : AdminAuth) (n : Authn) : Prop :=
| by_session id r : cookie_value cookie COOKIE_NAME = Some id -> aa_sessions a !! id = Some r -> now < sr_expires r ->
    n = {| an_role := sr_role r; an_method := MSession; an_csrf := Some (sr_csrf r); an_subject := sr_subject r |} ->
    identified now cookie auth cn lb a n
| by_certificate name mt : cn = Some name -> aa_mtls a = Some mt -> mtls_role mt name = Some (an_role n) ->
    an_method n = MMtls -> an_csrf n = None -> an_subject n = Some name -> identified now cookie auth cn lb a n
| by_token : token_role auth lb a = Some (an_role n) -> an_method n = MToken -> an_csrf n = None -> identified now cookie auth cn lb a n.

Lemma cookie_result now header a n : (session_from_cookie now header a).2 = Some n ->
  exists id r, cookie_value header COOKIE_NAME = Some id /\ aa_sessions a !! id = Some r /\ now < sr_expires r
  /\ n = {| an_role := sr_role r; an_method := MSession; an_csrf := Some (sr_csrf r); an_subject := sr_subject r |}.
Proof.
  unfold session_from_cookie. destruct (cookie_value _ _) as [id|]; [|done]. destruct (_ !! id) as [r|] eqn:Er; [|done].
  destruct (Z.leb_spec (sr_expires r) now); [done|]. intros [= <-]. by exists id, r.
Qed.

Lemma cookie_keeps now header a : let a' := (session_from_cookie now header a).1 in
  aa_mtls a' = aa_mtls a /\ aa_token a' = aa_token a /\ allow_token_off_loopback a' = allow_token_off_loopback a.
Proof.
  cbv zeta. unfold session_from_cookie. destruct (cookie_value _ _) as [id|]; [|done]. destruct (_ !! id); [|done]. by destruct (_ <=? _).
Qed.

Lemma authenticate_first now cookie auth cn lb a : (authenticate now cookie auth cn lb a).1 = (session_from_cookie now cookie a).1.
Proof. unfold authenticate. destruct (session_from_cookie now cookie a) as [a' [n|]]; [done|]. cbn. by repeat case_match. Qed.

Lemma authenticate_identified now cookie auth cn lb a n : (authenticate now cookie auth cn lb a).2 = Some n -> identified now cookie auth cn lb a n.
Proof.
  unfold authenticate. pose proof (cookie_result now cookie a) as Hr. pose proof (cookie_keeps now cookie a) as (Hm & Ht & Ha).
  destruct (session_from_cookie now cookie a) as [a' [n'|]]; cbn [fst snd] in *.
  { intros [= <-]. destruct (Hr n' eq_refl) as (id & r & H1 & H2 & H3 & ->). by apply (by_session _ _ _ _ _ _ _ id r). }
  assert (token_role auth lb a' = token_role auth lb a) as Htr by (unfold token_role; by rewrite Ht, Ha). rewrite Hm.
  assert (forall x, (let '(b, o) := (a', match token_role auth lb a' with
      | Some role => Some {| an_role := role; an_method := MToken; an_csrf := None; an_subject := None |} | None => None end) in o) = Some x ->
      identified now cookie auth cn lb a x) as Htok.
  { intros x. rewrite Htr. destruct (token_role auth lb a) as [role|] eqn:E; [|done]. intros [= <-]. by apply by_token. }
  destruct cn as [name|]; [|apply Htok]. destruct (aa_mtls a) as [mt|] eqn:Em; [|apply Htok].
  destruct (mtls_role mt name) as [role|] eqn:Er; [|apply Htok]. intros [= <-]. by eapply by_certificate.
Qed.

(** ** The handlers *)

Section Handlers.
Context (s0 : DashboardService) (m : Moment) (q : AdminRequest (H := H)).

Definition held (st : bytes) (p : PendingOidc) : Prop := exists r, pendings s0 !! st = Some r /\ pr_pending r = p.
Abbreviation P := (issued_for s0 held m q).
Abbreviation B := (begun_by s0 m).
Abbreviation C := (reload_right s0 m q).
Abbreviation go act s := (does (moves P B C) act (fun _ _ => True) s).
Abbreviation peer := (peer_info (q_client q) (q_cn q)).

Lemma ttl_same s : settings s = settings s0 -> aa_ttl (ds_admin s) = aa_ttl (ds_admin s0).
Proof. unfold settings. congruence. Qed.

(** Issuing to the one who shows the credential. *)
Lemma issue_shown s role subject : settings s = settings s0 -> shows s0 held m q role ->
  go (on_admin (issue (draws m) role subject)) s.
Proof.
  intros Hs Hshow. apply issue_fresh. intros raw csrf Hi Hc. split; [done|]. cbn in *. rewrite (ttl_same s Hs). split; [done|].
  split; [by exists raw|by exists csrf].
Qed.

Lemma steps {A A'} (a : Act A) (f : A -> Act A') (Q : DashboardService -> A -> Prop) s : settings s = settings s0 -> does (moves P B C) a Q s ->
  (forall s' x, settings s' = settings s0 -> moves P B C s s' -> Q s' x -> go (f x) s') -> go (a ≫= f) s.
Proof.
  intros Hs Ha Hf. eapply does_bind; [apply moves_trans|exact Ha|]. intros s' x Hm HQ. apply Hf; [|done|done].
  destruct Hm as [Hm _ _ _]. congruence.
Qed.

Lemma replies {A} (r : A) s : go (mret r) s.
Proof. apply does_ret; [apply moves_refl|done]. Qed.

Lemma logs_then {A A'} (a : Act A) (f : A -> Act A') s : settings s = settings s0 -> only_logs a ->
  (forall s' x, settings s' = settings s0 -> go (f x) s') -> go (a ≫= f) s.
Proof. intros Hs Ha Hf. eapply steps; [done|by apply only_logs_does|]. auto. Qed.

Lemma authenticate_does s : settings s = settings s0 ->
  does (moves P B C) (service_authenticate m (q_headers q) peer)
    (fun _ n => match n with
                | Some n => identified (m_clock m 2) (get_str (q_headers q) (lit "cookie")) (authorization (q_headers q)) (q_cn q)
                              (pi_loopback peer) (ds_admin s) n
                | None => True
                end) s.
Proof.
  intros Hs. apply on_admin_does with (Q := fun _ n => match n with Some n => _ | None => True end).
  - rewrite authenticate_first. apply cookie_moves.
  - destruct (authenticate _ _ _ _ _ _).2 eqn:E; [|done]. by apply authenticate_identified.
Qed.

Lemma get_moves s path : one_of (q_method q) ["GET"; "HEAD"] = true -> q_path q <> lit "/oidc/callback" -> settings s = settings s0 ->
  go (handle_get m (q_headers q) path peer) s.
Proof.
  intros Hget Hncb Hs. unfold handle_get. eapply steps; [done|by apply authenticate_does|]. intros s1 n H1 _ Hn. cbn beta.
  eapply steps; [done|apply ask_does|]. intros s2 wrong H2 _ _.
  eapply steps with (Q := fun _ _ => True); [done| |].
  { destruct wrong; [apply only_logs_does, record_only_logs|apply replies]. }
  intros s3 _ H3 _ _. eapply steps with (Q := fun _ _ => True); [done| |].
  { destruct n as [n|]; [|apply replies]. case_bool_decide as Hmt; [|apply replies].
    eapply steps; [done|apply issue_shown; [done|]|].
    - destruct Hn as [id r ? ? ? -> |name mt Hcn Hm Hr ? ? ?|]; [done| |congruence].
      apply (shows_certificate _ _ _ _ mt name); try done. unfold settings in Hs. congruence.
    - intros s4 i H4 _ _. destruct i; [|apply replies]. eapply steps; [done|apply ask_does|]. intros. apply replies. }
  intros s4 [n' cookie] H4 _ _. eapply steps; [done|apply ask_does|]. intros s5 s5' H5 _ _.
  eapply steps with (Q := fun _ _ => True); [done| |intros; apply replies].
  destruct (classify_dashboard_get _ _); try apply replies. eapply steps with (Q := fun _ _ => True); [done| |intros; apply replies].
  destruct n'; [apply or_panic_does|apply replies].
Qed.

Lemma login_moves s : settings s = settings s0 -> q_method q = lit "POST" -> q_path q = lit "/api/login" ->
  go (handle_login m (q_body q) peer) s.
Proof.
  intros Hs Hpost Hpath. unfold handle_login. destruct (read_body (q_body q) 8192 []) as [body|] eqn:Eb; [|apply replies].
  destruct (form_field _ _) as [[|b token]|] eqn:Ef; try (apply logs_then; [done|apply record_only_logs|]; intros; apply replies).
  eapply steps with (Q := fun _ _ => True); [done| |].
  { apply on_admin_does with (Q := fun _ _ => True); [|done]. unfold login_with_token.
    destruct (aa_token (ds_admin s)) as [t|] eqn:Et; [|rewrite with_auth_same; apply moves_refl].
    destruct (_ || negb (constant_time_eq _ _)) eqn:Eq; [rewrite with_auth_same; apply moves_refl|].
    apply orb_false_iff in Eq as [_ Eq%negb_false_iff%constant_time_eq_spec].
    destruct (_ && _) eqn:El; [rewrite with_auth_same; apply moves_refl|]. apply issue_moves. intros raw csrf Hi Hc. cbn in Hi, Hc.
    split; [|split; [cbn; by rewrite (ttl_same s Hs)|split; [by exists raw|by exists csrf]]]. cbn. apply (shows_token _ _ _ _ t); try done.
    - unfold settings in Hs. congruence.
    - unfold field_of. rewrite Eb. congruence.
    - unfold loopback_or_allowed. assert (allow_token_off_loopback (ds_admin s0) = allow_token_off_loopback (ds_admin s)) as ->
        by (unfold settings in Hs; congruence).
      by destruct (pi_loopback _), (allow_token_off_loopback _). }
  intros s1 r H1 _ _. destruct r as [issued|[]]; try (apply logs_then; [done|apply record_only_logs|]; intros; apply replies).
  apply logs_then; [done|apply record_only_logs|]. intros s2 _ H2. eapply steps; [done|apply ask_does|]. intros s3 sx H3 _ _.
  eapply steps; [done|apply or_panic_does|]. intros. apply replies.
Qed.

Lemma refused_moves s detail : settings s = settings s0 -> go (oidc_refused m peer detail) s.
Proof. intros Hs. apply logs_then; [done|apply record_only_logs|]. intros. apply replies. Qed.

Lemma begin_moves s : settings s = settings s0 -> go (handle_oidc_login m peer) s.
Proof.
  intros Hs. unfold handle_oidc_login. eapply steps; [done|apply ask_does|]. intros s1 e H1 _ _. destruct (negb e); [apply replies|].
  eapply steps with (Q := fun _ _ => True); [done| |].
  { apply on_admin_does with (Q := fun _ _ => True); [|done]. unfold begin_oidc.
    destruct (aa_oidc (ds_admin s1)) as [c|] eqn:Ec; [|rewrite with_auth_same; apply moves_refl]. cbv zeta.
    assert (forall st p, aa_pending (sweep_pending (m_clock m 3) (ds_admin s1)) !! st = Some p -> pendings s1 !! st = Some p) as Hsub
      by (intros st p [Hp _]%sweep_pending_sub; exact Hp).
    set (a' := sweep_pending (m_clock m 3) (ds_admin s1)) in *.
    destruct (_ <=? _); [by apply fewer_pendings|].
    destruct (start_pkce c _ _ _) as [[[p st] url]|] eqn:Ep; [|by apply fewer_pendings].
    constructor; cbn [fst with_auth ds_admin with_pending settings]; [done|cbn; auto| |auto].
    cbn [aa_pending with_pending]. intros st' p'. rewrite lookup_insert_Some. intros [[<- <-]|[_ Hr]]; [right|left; by apply Hsub].
    exists c, url. split; [|done]. unfold settings in H1. congruence. }
  intros s2 [[url st]|] H2 _ _; [apply replies|]. apply logs_then; [done|apply record_only_logs|]. intros. apply replies.
Qed.

Lemma callback_moves s : settings s = settings s0 -> pendings s = pendings s0 -> q_path q = lit "/oidc/callback" ->
  go (handle_oidc_callback m (q_query q) peer) s.
Proof.
  intros Hs Hp Hpath. unfold handle_oidc_callback. eapply steps; [done|apply ask_does|]. intros s1 e H1 Hmv [Heq1 Heq2]. subst s1. clear Hmv Heq2.
  destruct (negb e); [apply replies|].
  destruct (query_param (q_query q) (lit "error")); [by apply refused_moves|].
  destruct (query_param (q_query q) (lit "state")) as [st|] eqn:Est; [|by apply refused_moves].
  destruct (query_param (q_query q) (lit "code")) as [code|] eqn:Eco; [|by apply refused_moves].
  eapply steps with (Q := fun _ p => match p with Some p => held st p | None => True end); [done| |].
  { apply on_admin_does with (Q := fun _ p => match p with Some p => held st p | None => True end); unfold take_pending; cbv zeta.
    - destruct (aa_pending _ !! st); (apply fewer_pendings; intros st' p'); [rewrite lookup_delete_Some; intros [_ Hr]|intros Hr];
        by apply sweep_pending_sub in Hr as [? _].
    - destruct (aa_pending _ !! st) as [r|] eqn:Er; [|done]. cbn [snd]. destruct (_ <=? _); [done|].
      apply sweep_pending_sub in Er as [Er _]. exists r. by rewrite <- Hp. }
  intros s2 [p|] H2 _ Hheld; [|by apply refused_moves]. eapply steps with (Q := fun _ _ => True); [done| |].
  { apply on_admin_does with (Q := fun _ _ => True); [|done]. unfold complete_oidc.
    destruct (aa_oidc (ds_admin s2)) as [c|] eqn:Ec; [|rewrite with_auth_same; apply moves_refl].
    destruct (exchange _ _ _ _ _) as [who|] eqn:Ex; [|rewrite with_auth_same; apply moves_refl].
    apply issue_moves. intros raw csrf Hi Hc. cbn in Hi, Hc. split; [|split; [cbn; by rewrite (ttl_same s2 H2)|split; [by exists raw|by exists csrf]]]. cbn.
    apply (shows_oidc _ _ _ _ c st code p who); try done. unfold settings in H2. congruence. }
  intros s3 [issued|] H3 _ _; [|by apply refused_moves]. apply logs_then; [done|apply record_only_logs|].
  intros s4 _ H4. eapply steps; [done|apply ask_does|]. intros. apply replies.
Qed.

(** The identity of an operator, with the CSRF secret where it is due, is the right to reload. *)
Lemma operator_right s n csrf : settings s = settings s0 -> sessions s = sessions s0 ->
  q_method q = lit "POST" -> q_path q = lit "/api/reload" -> credentials_in_query (q_path q) (q_query q) = false ->
  field_of q "csrf" = csrf -> can_reload (an_role n) = true -> csrf_ok n csrf (ds_admin s) = true ->
  identified (m_clock m 2) (get_str (q_headers q) (lit "cookie")) (authorization (q_headers q)) (q_cn q) (pi_loopback peer) (ds_admin s) n -> C.
Proof.
  intros Hs Hss Hpost Hpath Hcred Hcsrf Hrole Hok Hid. do 3 (split; [done|]).
  assert (aa_token (ds_admin s) = aa_token (ds_admin s0) /\ allow_token_off_loopback (ds_admin s) = allow_token_off_loopback (ds_admin s0))
    as [Ht Ha] by (unfold settings in Hs; split; congruence).
  destruct (an_role n) eqn:Er; [done|]. destruct Hid as [id r H1 H2 H3 ->|name mt _ _ _ Hm Hc _|Htr Hm Hc].
  - right. exists id, r. rewrite <- Hss. cbn in *. unfold csrf_ok in Hok. cbn in Hok. do 4 (split; [done|]). rewrite Hcsrf.
    destruct csrf as [got|]; [|done]. by apply constant_time_eq_spec in Hok as ->.
  - unfold csrf_ok in Hok. by rewrite Hm, Hc in Hok.
  - left. unfold token_role in Htr. rewrite Er in Htr. destruct (aa_token (ds_admin s)) as [t|] eqn:Et;
      [|by destruct (allow_token_off_loopback _)]. exists t. split; [done|]. unfold loopback_or_allowed. rewrite <- Ha.
    destruct (_ || _) eqn:El; [|done]. cbn [negb] in Htr. destruct (bearer _) as [provided|]; [|done]. cbn in Htr.
    destruct (constant_time_eq provided t) eqn:Eq; [|done]. by apply constant_time_eq_spec in Eq as ->.
Qed.

Lemma reload_store_moves o s : C -> does (moves P B C) (reload_store o) (fun _ _ => True) s.
Proof.
  intros Hc. split; [|done]. unfold reload_store. destruct (ds_policy s); [|apply moves_refl].
  destruct (Policy.try_reload _ _) as [p' []]; constructor; cbn; auto.
Qed.

Lemma reload_moves s : settings s = settings s0 -> sessions s = sessions s0 ->
  q_method q = lit "POST" -> q_path q = lit "/api/reload" -> credentials_in_query (q_path q) (q_query q) = false ->
  go (handle_reload m (q_headers q) (q_body q) peer) s.
Proof.
  intros Hs Hss Hpost Hpath Hcred. unfold handle_reload. eapply steps; [done|by apply authenticate_does|]. intros s1 n H1 _ Hn.
  destruct (read_body _ _ _) as [body|] eqn:Eb; [|apply replies].
  destruct n as [n|]; [|apply logs_then; [done|apply record_only_logs|]; intros; apply replies].
  destruct (can_reload _) eqn:Er; [|apply logs_then; [done|apply record_only_logs|]; intros; apply replies]. cbn [negb].
  eapply steps; [done|apply ask_does|]. intros s2 ok H2 _ [Hs2 Hok].
  destruct ok; [|apply logs_then; [done|apply record_only_logs|]; intros; apply replies]. cbn [negb].
  eapply steps; [done|apply reload_store_moves|].
  { eapply (operator_right s n); [done|done|done|done|done|unfold field_of; by rewrite Eb|done| |done].
    symmetry in Hok. revert Hok. unfold csrf_ok.
    assert (aa_token (ds_admin s1) = aa_token (ds_admin s)) as -> by (unfold settings in *; congruence). auto. }
  intros s3 [[o|e]|] H3 _ _; [| |apply replies];
    (apply logs_then; [done|apply record_only_logs|]; intros s4 _ H4; eapply steps; [done|apply or_panic_does|]; intros; apply replies).
Qed.

(** A request moves the service only as its credentials allow. *)
Lemma filter_moves : moves P B C s0 (serve m q s0).
Proof.
  cut (go (request_filter m q) s0); [by intros [? _]|]. unfold request_filter. cbv zeta.
  destruct (q_method q =s "OPTIONS"); [apply replies|].
  eapply steps with (Q := fun s _ => pendings s = pendings s0 /\ sessions s = sessions s0); [done| |].
  { apply on_admin_does with (Q := fun a _ => aa_pending a = pendings s0 /\ aa_sessions a = sessions s0); [apply rate_moves|]. unfold api_allowed.
    destruct (negb _); [done|]. by destruct (api_allow _ _ _ _). }
  intros s ok Hs _ [Hp Hss]. destruct (negb ok); [apply replies|].
  destruct (credentials_in_query _ _) eqn:Eq; [apply logs_then; [done|apply record_only_logs|]; intros; apply replies|].
  destruct (_ && (q_path q =s "/oidc/login")); [by apply begin_moves|].
  destruct (_ && (q_path q =s "/oidc/callback")) eqn:Ec.
  { apply andb_true_iff in Ec as [_ Ec%bytes_eqb_eq]. by apply callback_moves. }
  destruct (_ && (q_path q =s "/api/login")) eqn:El.
  { apply andb_true_iff in El as [Em%bytes_eqb_eq El%bytes_eqb_eq]. by apply login_moves. }
  destruct (_ && (q_path q =s "/api/reload")) eqn:Er.
  { apply andb_true_iff in Er as [Em%bytes_eqb_eq Er%bytes_eqb_eq]. by apply reload_moves. }
  destruct (one_of _ _) eqn:Eg; [|apply replies]. apply get_moves; [done| |done]. intros Hpath. rewrite Hpath in Ec. by cbn in Ec.
Qed.
End Handlers.

(** ** The requests of a process *)

Abbreviation Trace := (list (Moment * AdminRequest (H := H))).

(** A sign-in that a request of the trace began. *)
Definition begun_in (l : Trace) (s : DashboardService) (st : bytes) (p : PendingOidc) : Prop :=
  exists m q r, (m, q) ∈ l /\ begun_by s m st r /\ pr_pending r = p.

(** A process that nobody has signed in to yet. *)
Definition fresh (s : DashboardService) : Prop := sessions s = ∅ /\ pendings s = ∅.

Lemma shows_settings s s' (Pd Pd' : bytes -> PendingOidc -> Prop) m q r : settings s' = settings s -> (forall st p, Pd st p -> Pd' st p) ->
  shows s Pd m q r -> shows s' Pd' m q r.
Proof.
  unfold settings. intros Hs Hp. destruct 1 as [t ? ? ? ? Hl|c st code p who|mt cn r].
  - apply (shows_token _ _ _ _ t); try done; [congruence|]. unfold loopback_or_allowed in *.
    assert (allow_token_off_loopback (ds_admin s') = allow_token_off_loopback (ds_admin s)) as -> by congruence. done.
  - apply (shows_oidc _ _ _ _ c st code p who); try done; [congruence|auto].
  - apply (shows_certificate _ _ _ _ mt cn r); try done. congruence.
Qed.

Lemma serve_all_snoc l m q s : serve_all (l ++ [(m, q)]) s = serve m q (serve_all l s).
Proof. revert s. induction l as [|[m' q'] l IH]; intros s; [done|]. apply IH. Qed.

Lemma begun_in_weaken l x s st p : begun_in l s st p -> begun_in (l ++ [x]) s st p.
Proof. intros (m & q & r & Hin & ?). exists m, q, r. split; [|done]. apply elem_of_app. by left. Qed.

(** Where the sessions and the pending sign-ins of a process come from. *)
Record traced (l : Trace) (s0 s : DashboardService) : Prop := {
  tr_settings : settings s = settings s0;
  tr_sessions : forall id r, sessions s !! id = Some r -> exists m q, (m, q) ∈ l /\ issued_for s0 (begun_in l s0) m q id r;
  tr_pendings : forall st p, pendings s !! st = Some p -> exists m q, (m, q) ∈ l /\ begun_by s0 m st p }.

Lemma begun_settings s s' m st p : settings s = settings s' -> begun_by s m st p -> begun_by s' m st p.
Proof. unfold settings. intros Hs (c & url & Hc & ?). exists c, url. split; [congruence|done]. Qed.

Lemma issued_weaken s s' (Pd Pd' : bytes -> PendingOidc -> Prop) m q id r : settings s' = settings s -> (forall st p, Pd st p -> Pd' st p) ->
  issued_for s Pd m q id r -> issued_for s' Pd' m q id r.
Proof.
  intros Hs Hp (Hw & He & Hc). split; [by eapply shows_settings|]. split; [|done].
  assert (aa_ttl (ds_admin s') = aa_ttl (ds_admin s)) as -> by (unfold settings in Hs; congruence). done.
Qed.

Lemma trace_traced l s0 : fresh s0 -> traced l s0 (serve_all l s0).
Proof.
  intros [Hs0 Hp0]. induction l as [|[m q] l IH] using rev_ind.
  { constructor; cbn; [done|intros id r; by rewrite Hs0, lookup_empty|intros st p; by rewrite Hp0, lookup_empty]. }
  rewrite serve_all_snoc. destruct IH as [IH1 IH2 IH3].
  destruct (filter_moves (serve_all l s0) m q) as [M1 M2 M3 _]. constructor; [congruence| |].
  - intros id r Hr. destruct (M2 id r Hr) as [Hold|Hnew].
    + destruct (IH2 id r Hold) as (m' & q' & Hin & Hi). exists m', q'. split; [apply elem_of_app; by left|].
      eapply issued_weaken; [reflexivity|intros st p; apply begun_in_weaken|done].
    + exists m, q. split; [apply elem_of_app; right; by constructor|]. eapply issued_weaken; [by symmetry|  |exact Hnew].
      intros st p (r' & Hr' & <-). destruct (IH3 st r' Hr') as (m' & q' & Hin & Hb). exists m', q', r'.
      split; [apply elem_of_app; by left|done].
  - intros st p Hp. destruct (M3 st p Hp) as [Hold|Hnew].
    + destruct (IH3 st p Hold) as (m' & q' & Hin & Hb). exists m', q'. split; [apply elem_of_app; by left|done].
    + exists m, q. split; [apply elem_of_app; right; by constructor|]. by eapply begun_settings.
Qed.

(** C10. Every session of a process, whatever requests it has served one after another, comes from a request that showed a credential for
    its role: the configured token in a login form (from this host where stronger means are configured), a code of the provider redeemed,
    with the verifier of a sign-in this process began, for an identity token that gives the role, or a client certificate with the role.
    Its identifier and its CSRF secret are the random bytes that request drew, and it expires a lifetime after that request. *)
Theorem session_provenance (l : Trace) (s0 : DashboardService) (id : bytes) (r : SessionRecord) :
  fresh s0 -> sessions (serve_all l s0) !! id = Some r ->
  exists m q raw_id raw_csrf, (m, q) ∈ l /\ shows s0 (begun_in l s0) m q (sr_role r)
    /\ m_rand m 3 = Some raw_id /\ id = hex_encode raw_id /\ m_rand m 4 = Some raw_csrf /\ sr_csrf r = hex_encode raw_csrf
    /\ sr_expires r = m_clock m 6 + aa_ttl (ds_admin s0).
Proof.
  intros Hf Hr. destruct (trace_traced l s0 Hf) as [_ Hs _].
  destruct (Hs id r Hr) as (m & q & Hin & Hw & He & (raw & Hi & Hid) & csrf & Hc & Hcsrf). by exists m, q, raw, csrf.
Qed.

(** C9. A request to the operators' interface changes the policy that the proxy enforces only if it is an operator's: a POST of the reload
    form, with no credential in its query, that bears the configured token, or the cookie of a session that has not expired: its identifier
    was drawn by an earlier request that showed an operator's credential, and the form holds the CSRF secret drawn with it.  (A hangup
    signal to the process also reloads; [Policy] says what that takes.) *)
Theorem reload_traced (l : Trace) (s0 : DashboardService) (m : Moment) (q : AdminRequest (H := H)) :
  fresh s0 -> ds_policy (serve m q (serve_all l s0)) <> ds_policy (serve_all l s0) ->
  q_method q = lit "POST" /\ q_path q = lit "/api/reload" /\ credentials_in_query (q_path q) (q_query q) = false
  /\ ((exists t, aa_token (ds_admin s0) = Some t /\ bearer (authorization (q_headers q)) = Some t /\ loopback_or_allowed s0 q = true)
     \/ exists m' q' raw_id raw_csrf, (m', q') ∈ l /\ shows s0 (begun_in l s0) m' q' Operator
          /\ m_rand m' 3 = Some raw_id /\ cookie_value (get_str (q_headers q) (lit "cookie")) COOKIE_NAME = Some (hex_encode raw_id)
          /\ m_clock m 2 < m_clock m' 6 + aa_ttl (ds_admin s0)
          /\ m_rand m' 4 = Some raw_csrf /\ field_of q "csrf" = Some (hex_encode raw_csrf)).
Proof.
  intros Hf Hne. destruct (trace_traced l s0 Hf) as [Hset Hses _].
  destruct (filter_moves (serve_all l s0) m q) as [_ _ _ [He|(H1 & H2 & H3 & Hright)]]; [done|]. do 3 (split; [done|]).
  destruct Hright as [(t & Ht & Hb & Hl)|(id & r & Hc & Hr & He & Ho & Hf')].
  - left. exists t. unfold settings in Hset. split; [congruence|]. split; [done|]. unfold loopback_or_allowed in *.
    assert (allow_token_off_loopback (ds_admin s0) = allow_token_off_loopback (ds_admin (serve_all l s0))) as -> by congruence. done.
  - right. destruct (Hses id r Hr) as (m' & q' & Hin & Hw & Hx & (raw_id & Hi & ->) & raw & Hraw & Hcsrf). exists m', q', raw_id, raw.
    rewrite Ho in Hw. rewrite Hx in He. rewrite Hcsrf in Hf'. done.
Qed.

(** ** A sign-in is used once *)

Definition callback (q : AdminRequest (H := H)) (st : bytes) : Prop :=
  one_of (q_method q) ["GET"; "HEAD"] = true /\ q_path q = lit "/oidc/callback" /\ query_param (q_query q) (lit "state") = Some st.

Lemma never_begun l s st : pendings s !! st = None ->
  (forall m q r, (m, q) ∈ l -> m_rand m 1 = Some r -> hex_encode r <> st) -> pendings (serve_all l s) !! st = None.
Proof.
  revert s. induction l as [|[m q] l IH]; intros s Hn Hl; [done|]. cbn [serve_all]. apply IH.
  - destruct (pendings (serve m q s) !! st) as [p|] eqn:Ep; [|done].
    destruct (mv_pendings _ _ _ _ _ (filter_moves s m q) st p Ep) as [Hold|(c & url & _ & Hst & _)]; [congruence|].
    exfalso. unfold start_pkce in Hst. destruct (generate_pkce _) as [[v ch]|]; [|done]. cbn in Hst.
    destruct (m_rand m 1) as [r|] eqn:Er; [|done]. cbn in Hst. destruct (m_rand m 2); [|done]. cbn in Hst. injection Hst as _ Hst _.
    apply (Hl m q r); [by constructor|done|done].
  - intros m' q' r Hin. apply (Hl m' q'). by right.
Qed.

(** Nothing is granted by a callback whose state is not pending. *)
Lemma dead_callback s m q st : callback q st -> pendings s !! st = None ->
  forall id r, sessions (serve m q s) !! id = Some r -> sessions s !! id = Some r.
Proof.
  intros (Hget & Hpath & Hst) Hn id r Hr.
  destruct (mv_sessions _ _ _ _ _ (filter_moves s m q) id r Hr) as [Hold|[Hw _]]; [done|]. exfalso.
  destruct Hw as [t ? ? Hp|c st' code p who _ _ Hst' _ (x & Hx & _)|? ? ? ? Hp]; [by rewrite Hpath in Hp|congruence|done].
Qed.

Lemma bind_holds {A A'} (K : DashboardService -> Prop) (a : Act A) (f : A -> Act A') s :
  K (a s).1 -> (forall s' x, K s' -> K (f x s').1) -> K ((a ≫= f) s).1.
Proof. intros Ha Hf. unfold mbind, act_bind. destruct (a s) as [s1 [x| |]]; cbn in *; auto. Qed.

Lemma bind_ends {A A'} (a : Act A) (f : A -> Act A') s s' x : a s = (s', Ends x) -> (a ≫= f) s = f x s'.
Proof. intros Ha. unfold mbind, act_bind. by rewrite Ha. Qed.

Lemma logs_hold {A} (a : Act A) st s : only_logs a -> pendings s !! st = None -> pendings (a s).1 !! st = None.
Proof. intros Ha Hn. by destruct (Ha s) as [l ->]. Qed.

Lemma request_is_callback s m q st : callback q st -> credentials_in_query (q_path q) (q_query q) = false ->
  request_filter m q s = handle_oidc_callback m (q_query q) (peer_info (q_client q) (q_cn q)) s.
Proof.
  intros (Hget & Hpath & _) Hcred. unfold request_filter. cbv zeta. rewrite Hget.
  assert (q_method q =s "OPTIONS" = false) as ->.
  { unfold one_of in Hget. cbn in Hget. destruct (q_method q =s "OPTIONS") eqn:E; [|done]. apply bytes_eqb_eq in E. by rewrite E in Hget. }
  rewrite (bind_ends _ _ s s true); [rewrite Hcred, Hpath; done|]. unfold on_admin, api_allowed. rewrite Hpath.
  assert (starts_with (lit "/oidc/callback") (lit "/api") = false) as -> by (vm_compute; reflexivity). cbn [negb]. by rewrite with_auth_same.
Qed.

(** A callback with a state and a code consumes the state, whatever comes of it. *)
Lemma callback_consumes s m q st code : callback q st -> oidc_enabled (ds_admin s) = true ->
  query_param (q_query q) (lit "error") = None -> query_param (q_query q) (lit "code") = Some code ->
  credentials_in_query (q_path q) (q_query q) = false -> pendings (serve m q s) !! st = None.
Proof.
  intros Hcb Hen He Hcode Hcred. unfold serve. rewrite (request_is_callback s m q st Hcb Hcred). destruct Hcb as (_ & _ & Hst).
  unfold handle_oidc_callback. rewrite (bind_ends _ _ s s true) by (unfold ask; by rewrite Hen). rewrite He, Hst, Hcode. cbn [negb].
  apply (bind_holds (fun s => pendings s !! st = None)).
  { unfold on_admin, take_pending. cbv zeta. destruct (aa_pending (sweep_pending _ _) !! st) as [r|] eqn:Er; cbn; [apply lookup_delete_eq|done]. }
  assert (forall detail s', pendings s' !! st = None -> pendings (oidc_refused m (peer_info (q_client q) (q_cn q)) detail s').1 !! st = None) as Href.
  { intros detail s' Hn. apply (bind_holds (fun s => pendings s !! st = None)); [apply logs_hold; [apply record_only_logs|done]|done]. }
  intros s1 [p|] Hn; [|by apply Href]. apply (bind_holds (fun s => pendings s !! st = None)).
  { unfold on_admin, complete_oidc. destruct (aa_oidc _); [|done]. destruct (exchange _ _ _ _ _); [|done].
    unfold issue. cbv zeta. destruct (_ <=? _); [done|]. by destruct (dr_id (draws m)), (dr_csrf (draws m)). }
  intros s2 [i|] Hn2; [|by apply Href]. apply (bind_holds (fun s => pendings s !! st = None)); [|done].
  apply logs_hold; [apply record_only_logs|done].
Qed.

(** C11. A sign-in is used once: a callback with its state and a code, that reports no error of the provider and has no credential in its
    query, uses the state up, whatever comes of the exchange; no later callback with the same state gives a session, as long as no later
    sign-in draws the same state again.  (A callback that reports an error leaves the state pending, [error_keeps_state].) *)
Theorem oidc_state_single_use (s : DashboardService) (m m' : Moment) (q q' : AdminRequest (H := H)) (l : Trace) (st code : bytes) :
  callback q st -> oidc_enabled (ds_admin s) = true -> query_param (q_query q) (lit "error") = None ->
  query_param (q_query q) (lit "code") = Some code -> credentials_in_query (q_path q) (q_query q) = false ->
  (forall m q r, (m, q) ∈ l -> m_rand m 1 = Some r -> hex_encode r <> st) -> callback q' st ->
  let s' := serve_all l (serve m q s) in
  forall id r, sessions (serve m' q' s') !! id = Some r -> sessions s' !! id = Some r.
Proof.
  intros Hcb Hen He Hcode Hcred Hl Hcb' s'. apply (dead_callback s' m' q' st Hcb'). unfold s'. apply never_begun; [|done].
  by apply (callback_consumes s m q st code).
Qed.
End Operators.

(** ** Evaluations *)

Section Evaluations.
(** The identity token of the sign-in that begins at second 30. *)
Definition op_claims : JsonValue := JObject
  [(lit "iss", JString (lit "https://idp/")); (lit "aud", JString (lit "ferroada")); (lit "exp", JNumber (lit "1000"));
   (lit "nonce", JString (lit "1e02")); (lit "sub", JString (lit "ana")); (lit "ferroada_role", JArray [JString (lit "operator")])].
Definition op_json : SerdeJson := {|
  json_from_str b := if b =s "p" then Some op_claims else None; json_to_string := @json_to_string Policy.attachments_json |}.
Definition op_pretty : PrettyJson := {| to_string_pretty _ := None |}.
#[local] Existing Instances demo_oidc_text op_json demo_jwks_text demo_oidc_crypto Policy.text_hash op_pretty.
#[local] Existing Instances Shield.ascii_case OpenApi.no_yaml Grpc.demo_descriptors Abuse.no_mmdb Policy.text_pem Policy.mtls_toml Policy.trusting.
#[local] Existing Instance Http.assoc_headers.

(** A process with a token, a provider and certificates, just started. *)
Definition started : DashboardService := {|
  ds_admin := {| aa_token := Some (lit "secret"); aa_oidc := Some demo_oidc;
                 aa_mtls := Some {| mt_operators := {[ lit "ana" ]}; mt_viewers := ∅ |}; aa_sessions := ∅; aa_pending := ∅;
                 aa_rate := api_rate_new 60 60 10000; aa_ttl := from_secs 900; allow_token_off_loopback := false |};
  ds_audit := Some []; ds_policy := Some Policy.booted; ds_upstreams := []; ds_tls := true |}.

(** The readings of a request at a second [t]. *)
Definition at_second (t : Z) : Moment := {|
  m_clock _ := from_secs t; m_rand i := Some [t; Z.of_nat i]; m_unix := t; m_wall := (t, 0); m_net := demo_net; m_disk := true;
  m_probe _ := Some true; m_snapshot := []; m_prometheus := []; m_occasion := Policy.quiet "B" |}.
Definition localhost : option IpAddr := Some (V4 (127 * 2 ^ 24 + 1)).
Definition a_post (path : string) (hs : list (bytes * bytes)) (body : string) : AdminRequest (H := list (bytes * bytes)) := {|
  q_method := lit "POST"; q_path := lit path; q_query := None; q_headers := hs; q_body := [BChunk (lit body)]; q_client := localhost;
  q_cn := None |}.
Definition a_get (path : string) (query : option bytes) : AdminRequest (H := list (bytes * bytes)) := {|
  q_method := lit "GET"; q_path := lit path; q_query := query; q_headers := []; q_body := []; q_client := Some (V4 1); q_cn := None |}.
Definition signs_in : Moment * AdminRequest (H := list (bytes * bytes)) := (at_second 10, a_post "/api/login" [] "token=secret").
Definition reloads : AdminRequest (H := list (bytes * bytes)) := a_post "/api/reload" [(lit "Cookie", lit "ferroada_admin=0a03")] "csrf=0a04".
Definition begins : Moment * AdminRequest (H := list (bytes * bytes)) := (at_second 30, a_get "/oidc/login" None).
Definition returns : AdminRequest (H := list (bytes * bytes)) := a_get "/oidc/callback" (Some (lit "state=1e01&code=c")).

Definition version_in_force (s : DashboardService) : option bytes :=
  (fun p => Policy.policy_version (Policy.lp_snapshot (Policy.live p))) <$> ds_policy s.

Lemma reload_traced_witness : q_path reloads = lit "/api/reload" /\ field_of reloads "csrf" = Some (lit "0a04").
Proof.
  destruct (reload_traced [signs_in] started (at_second 20) reloads) as (_ & Hp & _ & _).
  - split; reflexivity.
  - intros E. apply (f_equal (fun p => (fun p => Policy.policy_version (Policy.lp_snapshot (Policy.live p))) <$> p)) in E.
    revert E. vm_compute. discriminate.
  - split; [exact Hp|]. vm_compute. reflexivity.
Defined.

Definition op_session : SessionRecord := {|
  sr_role := Operator; sr_csrf := lit "1f04"; sr_expires := from_secs 931; sr_subject := Some (lit "ana") |}.

Lemma session_provenance_witness :
  aa_sessions (ds_admin (serve_all [begins; (at_second 31, returns)] started)) !! lit "1f03" = Some op_session
  /\ exists m q raw, (m, q) ∈ [begins; (at_second 31, returns)] /\ m_rand m 3 = Some raw /\ hex_encode raw = lit "1f03".
Proof.
  assert (aa_sessions (ds_admin (serve_all [begins; (at_second 31, returns)] started)) !! lit "1f03" = Some op_session) as E
    by (vm_compute; reflexivity).
  split; [exact E|].
  destruct (session_provenance [begins; (at_second 31, returns)] started (lit "1f03") op_session ltac:(split; reflexivity) E)
    as (m & q & raw & _ & Hin & _ & Hi & Hid & _).
  exists m, q, raw. split; [exact Hin|]. split; [exact Hi|exact (eq_sym Hid)].
Defined.

(** A callback that reports an error of the provider is refused and leaves the sign-in pending: its state still gives a session. *)
Definition denied : AdminRequest (H := list (bytes * bytes)) := a_get "/oidc/callback" (Some (lit "state=1e01&error=access_denied")).
Example error_keeps_state :
  aa_sessions (ds_admin (serve_all [begins; (at_second 31, denied); (at_second 32, returns)] started)) !! lit "2003"
  = Some {| sr_role := Operator; sr_csrf := lit "2004"; sr_expires := from_secs 932; sr_subject := Some (lit "ana") |}.
Proof. vm_compute. reflexivity. Qed.

Lemma oidc_state_single_use_witness :
  aa_sessions (ds_admin (serve (at_second 32) returns (serve_all [] (serve (at_second 31) returns (serve_all [begins] started))))) !! lit "2003"
  = None.
Proof.
  set (s1 := serve_all [begins] started).
  destruct (aa_sessions _ !! lit "2003") as [r|] eqn:E; [|reflexivity]. exfalso.
  apply (oidc_state_single_use s1 (at_second 31) (at_second 32) returns returns [] (lit "1e01") (lit "c")) in E.
  - revert E. vm_compute. discriminate.
  - repeat split; vm_compute; reflexivity.
  - vm_compute. reflexivity.
  - vm_compute. reflexivity.
  - vm_compute. reflexivity.
  - vm_compute. reflexivity.
  - intros m q r' Hin. exfalso. exact (not_elem_of_nil _ Hin).
  - repeat split; vm_compute; reflexivity.
Defined.

(** A certificate opens a session; a viewer cannot reload; the token in the query is refused. *)
Example evaluate_dashboard :
  (request_filter (at_second 5) (a_get "/api/metrics" None) started).2 = Ends {| rp_status := 401; rp_type := lit "text/plain";
      rp_body := UNAUTHORIZED; rp_location := None; rp_cookie := None |}
  /\ match (request_filter (at_second 5) (a_get "/" (Some (lit "token=secret"))) started).2 with Ends r => rp_status r = 400 | _ => False end
  /\ match (request_filter (at_second 20) (a_post "/api/reload" [(lit "Cookie", lit "ferroada_admin=0a03")] "csrf=0000")
             (serve_all [signs_in] started)).2 with Ends r => rp_status r = 403 | _ => False end
  /\ match (request_filter (at_second 910) (a_post "/api/reload" [(lit "Cookie", lit "ferroada_admin=0a03")] "csrf=0a04")
             (serve_all [signs_in] started)).2 with Ends r => rp_status r = 401 | _ => False end.
Proof. vm_compute. repeat split; reflexivity. Qed.
End Evaluations.
