(* ===== verification/Cidrs.v ===== *)
(** * Lists of trusted edges ([src/cidrs.rs])

    The operator's command [ferroada cidrs update]: its flags, the HTTP client and the lists it reads, the difference with the
    snapshots on disk, and the replacement of the snapshots and of the [TRUSTED_PROXIES] line.  The disk is a map of files; every write,
    rename and line of output may fail, as an oracle says; the network and the terminal are inputs. *)

From S2P Require Import Prelude Text Net ClientIp Shield Json Jwks.
From S2P Require Oidc Authz.

(** [src/cidrs.rs: const MAX_BODY + const MAX_REDIRECTS + const DEFAULT_DIR] *)
Definition MAX_BODY : Z := 1024 * 1024.
Definition MAX_REDIRECTS : nat := 3.
Definition DEFAULT_DIR : bytes := lit "deploy/cidrs".

(** [src/cidrs.rs: const CLOUDFLARE_V4 + const CLOUDFLARE_V6 + const FASTLY_JSON + const AKAMAI_V4 + const AKAMAI_V6] *)
Definition CLOUDFLARE_V4 : bytes := lit "https://www.cloudflare.com/ips-v4".
Definition CLOUDFLARE_V6 : bytes := lit "https://www.cloudflare.com/ips-v6".
Definition FASTLY_JSON : bytes := lit "https://api.fastly.com/public-ip-list".
Definition AKAMAI_V4 : bytes := lit "https://techdocs.akamai.com/property-manager/pdfs/akamai_ipv4_CIDRs.txt".
Definition AKAMAI_V6 : bytes := lit "https://techdocs.akamai.com/property-manager/pdfs/akamai_ipv6_CIDRs.txt".

(** [src/cidrs.rs: enum FetchKind] *)
Inductive FetchKind : Set := KText | KFastlyJson.
(** [src/cidrs.rs: enum EdgeName] *)
Inductive EdgeName : Set := Cloudflare | Fastly | Akamai.
#[export] Instance EdgeName_eq_dec : EqDecision EdgeName.
Proof. solve_decision. Defined.

(** One constructor per message. *)
Inductive CidrError : Type :=
| UnknownEdge (v : bytes) | NoSubcommand | UnexpectedFlagFirst (f : bytes) | UnknownSubcommand (f : bytes)
| FlagTakesNoValue | FlagRepeated (f : string) | FlagNeedsValue (f : string) | UnknownFlag (f : bytes) | UnexpectedArgument (a : bytes)
| NoDirectory (d : bytes) | NoEnvFile (p : bytes)
| FeedFailed (edge url : bytes) (e : CidrError) | EmptyList (edge url : bytes)
| BadLine (n : Z) (e : NetworkError) | BadCidr (e : NetworkError) | BadFastly
| CidrUrl (u : bytes) | CidrHost (u : bytes) | CidrPort (u : bytes) | CidrBadHost (u : bytes)
| TooManyRedirects (u : bytes) | NoTransport | CidrTimeout | CidrRead | HttpIncomplete | HttpEmpty | StatusMalformed | NotHttp
| NoLocation (u : bytes) | LocationInvalid (l : bytes) | HttpStatus (u : bytes) (status : Z) | Chunked (u : bytes) | BadLength (u : bytes)
| HttpTruncated (u : bytes)
| NeedsYes | Terminal | NotRead (p : bytes) | NotWritten (p : bytes).

(** [src/cidrs.rs: EdgeName::parse] *)
Definition edge_parse (value : bytes) : result CidrError EdgeName :=
  if value =s "cloudflare" then Ok Cloudflare
  else if value =s "fastly" then Ok Fastly
  else if value =s "akamai" then Ok Akamai
  else Err (UnknownEdge value).
(** [src/cidrs.rs: EdgeName::as_str] *)
Definition edge_as_str (e : EdgeName) : bytes :=
  match e with Cloudflare => lit "cloudflare" | Fastly => lit "fastly" | Akamai => lit "akamai" end.
(** [src/cidrs.rs: EdgeName::file_name] *)
Definition edge_file_name (e : EdgeName) : bytes :=
  match e with Cloudflare => lit "cloudflare.txt" | Fastly => lit "fastly.txt" | Akamai => lit "akamai.txt" end.
(** [src/cidrs.rs: EdgeName::kind] *)
Definition edge_kind (e : EdgeName) : FetchKind := match e with Fastly => KFastlyJson | _ => KText end.
(** [src/cidrs.rs: EdgeName::urls] *)
Definition edge_urls (e : EdgeName) : list bytes :=
  match e with Cloudflare => [CLOUDFLARE_V4; CLOUDFLARE_V6] | Fastly => [FASTLY_JSON] | Akamai => [AKAMAI_V4; AKAMAI_V6] end.
(** [src/cidrs.rs: EdgeName::all] *)
Definition edge_all : list EdgeName := [Cloudflare; Fastly; Akamai].

(** [src/cidrs.rs: struct EdgeJob] *)
Record EdgeJob : Type := { job_edge : EdgeName; job_urls : list bytes }.
(** [src/cidrs.rs: struct Flags] *)
Record Flags : Type := { f_edge : option bytes; f_network : bool; f_yes : bool; f_dir : option bytes; f_env : option bytes }.
(** [src/cidrs.rs: struct CidrDiff] *)
Record CidrDiff : Type := { added : list bytes; removed : list bytes }.
(** [src/cidrs.rs: CidrDiff::is_empty] *)
Definition diff_is_empty (d : CidrDiff) : bool := is_empty (added d) && is_empty (removed d).

(** ** Flags *)

Definition no_flags : Flags := {| f_edge := None; f_network := false; f_yes := false; f_dir := None; f_env := None |}.

(** [src/cidrs.rs: fn split_flag] *)
Definition split_flag (arg : bytes) : bytes * option bytes :=
  match split_once 61 arg with Some (key, value) => (key, Some value) | None => (arg, None) end.

(** The slot a flag fills, and its value: inline, or the next argument. *)
Definition take_value (slot : option bytes) (name : string) (inline : option bytes) (rest : list bytes)
    : result CidrError (option bytes * list bytes) :=
  match slot with
  | Some _ => Err (FlagRepeated name)
  | None =>
      match inline, rest with
      | Some value, _ => Ok (Some value, rest)
      | None, value :: rest => Ok (Some value, rest)
      | None, [] => Err (FlagNeedsValue name)
      end
  end.

(** [src/cidrs.rs: fn parse_update_flags] [fuel] is more than the arguments there are. *)
Fixpoint parse_update_flags (fuel : nat) (args : list bytes) (flags : Flags) : result CidrError Flags :=
  match fuel, args with
  | O, _ | _, [] => Ok flags
  | S fuel, arg :: rest =>
      let put edge network yes dir env := {| f_edge := edge; f_network := network; f_yes := yes; f_dir := dir; f_env := env |} in
      let '{| f_edge := edge; f_network := network; f_yes := yes; f_dir := dir; f_env := env |} := flags in
      if arg =s "--cidrs-from-network" then parse_update_flags fuel rest (put edge true yes dir env)
      else if one_of arg ["--yes"; "-y"] then parse_update_flags fuel rest (put edge network true dir env)
      else if starts_with arg (lit "--cidrs-from-network=") then Err FlagTakesNoValue
      else
        let '(key, inline) := split_flag arg in
        if key =s "--edge" then
          '(edge, rest) ← take_value edge "--edge" inline rest; parse_update_flags fuel rest (put edge network yes dir env)
        else if key =s "--dir" then
          '(dir, rest) ← take_value dir "--dir" inline rest; parse_update_flags fuel rest (put edge network yes dir env)
        else if key =s "--env" then
          '(env, rest) ← take_value env "--env" inline rest; parse_update_flags fuel rest (put edge network yes dir env)
        else if starts_with key [45] then Err (UnknownFlag key)
        else Err (UnexpectedArgument key)
  end.

(** [src/cidrs.rs: fn parse_args] *)
Definition parse_args (args : list bytes) : result CidrError Flags :=
  match args with
  | [] => Err NoSubcommand
  | first :: rest =>
      if first =s "update" then parse_update_flags (length rest) rest no_flags
      else if starts_with first [45] then Err (UnexpectedFlagFirst first)
      else Err (UnknownSubcommand first)
  end.

(** [src/cidrs.rs: fn official_jobs] *)
Definition official_jobs (edge : option bytes) : result CidrError (list EdgeJob) :=
  selected ← match edge with
             | None | Some [] => Ok edge_all
             | Some value => e ← edge_parse value; Ok [e]
             end;
  Ok (map (fun e => {| job_edge := e; job_urls := edge_urls e |}) selected).

(** ** Lists *)

Definition BOM : bytes := [239; 187; 191].
Definition strip_bom (text : bytes) : bytes := default text (strip_prefix BOM text).

Definition is_entry (line : bytes) : bool := negb (is_empty line) && negb (starts_with line [35]).

(** [src/cidrs.rs: fn cidrs_from_text] *)
Definition cidrs_from_text (text : bytes) : list bytes :=
  base.filter (fun line => is_entry line = true) (map trim (lines (strip_bom text))).

(** [src/cidrs.rs: fn validate_cidr] *)
Definition validate_cidr (value : bytes) : result NetworkError unit := _ ← trusted_parse value; Ok tt.

Fixpoint text_entries (n : Z) (raws : list bytes) : result CidrError (list bytes) :=
  match raws with
  | [] => Ok []
  | raw :: raws =>
      let line := trim raw in
      if is_empty line || starts_with line [35] then text_entries (n + 1) raws
      else match validate_cidr line with
           | Err e => Err (BadLine n e)
           | Ok _ => rest ← text_entries (n + 1) raws; Ok (line :: rest)
           end
  end.

(** [src/cidrs.rs: fn parse_text_body] *)
Definition parse_text_body (body : bytes) : result CidrError (list bytes) := text_entries 1 (lines (strip_bom body)).

(** [src/cidrs.rs: struct FastlyPublicIpList] What serde reads: the addresses and the IPv6 addresses. *)
Class FeedText : Type := { fastly_from_str : bytes -> option (list bytes * list bytes) }.

Fixpoint json_entries (cidrs : list bytes) : result CidrError (list bytes) :=
  match cidrs with
  | [] => Ok []
  | raw :: cidrs =>
      let cidr := trim raw in
      if is_empty cidr then json_entries cidrs
      else match validate_cidr cidr with
           | Err e => Err (BadCidr e)
           | Ok _ => rest ← json_entries cidrs; Ok (cidr :: rest)
           end
  end.

Fixpoint dedupe (seen : gset bytes) (items : list bytes) : list bytes :=
  match items with
  | [] => []
  | item :: items => if bool_decide (item ∈ seen) then dedupe seen items else item :: dedupe ({[ item ]} ∪ seen) items
  end.
(** [src/cidrs.rs: fn dedupe_keep_order] *)
Definition dedupe_keep_order (items : list bytes) : list bytes := dedupe ∅ items.

(** [src/cidrs.rs: fn diff_cidrs] *)
Definition diff_cidrs (old new : list bytes) : CidrDiff :=
  let old_set : gset bytes := list_to_set old in
  let new_set : gset bytes := list_to_set new in
  {| added := base.filter (fun c => c ∉ old_set) new; removed := base.filter (fun c => c ∉ new_set) old |}.

(** ** The HTTP client *)

(** [src/cidrs.rs: fn parse_http_url + struct ParsedUrl] *)
Definition parse_cidr_url (url : bytes) : result CidrError ParsedUrl :=
  '(tls, rest) ← match strip_prefix (lit "https://") url with
                 | Some rest => Ok (true, rest)
                 | None => match strip_prefix (lit "http://") url with Some rest => Ok (false, rest) | None => Err (CidrUrl url) end
                 end;
  let '(hostport, path) := match split_once 47 rest with Some (hp, path) => (hp, 47 :: path) | None => (rest, [47]) end in
  if is_empty hostport || starts_with hostport [91] then Err (CidrHost url)
  else
    '(host, port) ← match split_once 58 hostport with
                    | Some (host, port) => p ← ok_or (CidrPort url) (parse_uint u16_max port); Ok (host, p)
                    | None => Ok (hostport, default_port tls)
                    end;
    if is_empty host || bool_decide (32 ∈ host) then Err (CidrBadHost url)
    else Ok {| tls := tls; host := host; port := port; url_path := path |}.

(** [src/cidrs.rs: fn host_header] *)
Definition cidr_host_header (u : ParsedUrl) : bytes :=
  if port u =? default_port (tls u) then host u else host u ++ [58] ++ show_dec (port u).

(** [src/cidrs.rs: fn resolve_redirect] *)
Definition resolve_redirect (current location : bytes) : result CidrError bytes :=
  if starts_with location (lit "https://") || starts_with location (lit "http://") then Ok location
  else match strip_prefix [47] location with
       | Some rest =>
           u ← parse_cidr_url current;
           Ok ((if tls u then lit "https" else lit "http") ++ lit "://" ++ cidr_host_header u ++ [47] ++ rest)
       | None => Err (LocationInvalid location)
       end.

(** The first bytes of a chunk. *)
Definition at_most (room : Z) (chunk : bytes) : bytes := if len chunk <=? room then chunk else take (Z.to_nat room) chunk.

(** [src/cidrs.rs: fn read_limited] The connection ends where the list ends. *)
Fixpoint read_feed (reads : list Oidc.NetRead) (room : Z) : result CidrError bytes :=
  if room <=? 0 then Ok []
  else match reads with
  | [] | Oidc.NetData [] :: _ => Ok []
  | Oidc.NetTimeout :: _ => Err CidrTimeout
  | Oidc.NetError :: _ => Err CidrRead
  | Oidc.NetData chunk :: reads =>
      let got := at_most room chunk in
      rest ← read_feed reads (room - len got); Ok (got ++ rest)
  end.

(** [src/cidrs.rs: struct HttpResponse] *)
Record HttpResponse : Type := { hr_status : Z; hr_headers : list (bytes * bytes); hr_body : bytes }.

(** [src/cidrs.rs: fn parse_response] *)
Definition parse_response (raw : bytes) : result CidrError HttpResponse :=
  let text := utf8_lossy raw in
  '(head, body) ← ok_or HttpIncomplete
    match split_once_str [13; 10; 13; 10] text with Some x => Some x | None => split_once_str [10; 10] text end;
  match lines head with
  | [] => Err HttpEmpty
  | status_line :: header_lines =>
      match split_whitespace status_line with
      | [] => Err StatusMalformed
      | version :: parts =>
          if negb (starts_with version (lit "HTTP/")) then Err NotHttp
          else
            code ← ok_or StatusMalformed (List.head parts);
            status ← ok_or StatusMalformed (parse_uint u16_max code);
            Ok {| hr_status := status;
                  hr_headers := omap (fun line => match split_once 58 line with
                                                  | Some (name, value) => Some (to_ascii_lowercase (trim name), trim value)
                                                  | None => None
                                                  end) header_lines;
                  hr_body := body |}
      end
  end.

Definition header_named (n : string) (hs : list (bytes * bytes)) : option bytes := snd <$> List.find (fun h => h.1 =s n) hs.

(** [src/cidrs.rs: fn http_get] Connections, DNS and TLS are the transport; [fuel] is the number of requests still allowed. *)
Fixpoint feed_get (net : Oidc.Net) (url : bytes) (fuel : nat) : result CidrError bytes :=
  match fuel with
  | O => Err (TooManyRedirects url)
  | S fuel =>
      u ← parse_cidr_url url;
      let request := lit "GET " ++ url_path u ++ lit " HTTP/1.0" ++ Oidc.crlf ++ lit "Host: " ++ cidr_host_header u ++ Oidc.crlf
        ++ lit "User-Agent: ferroada-cidrs" ++ Oidc.crlf ++ lit "Connection: close" ++ Oidc.crlf ++ Oidc.crlf in
      reads ← ok_or NoTransport (net u request);
      raw ← read_feed reads MAX_BODY;
      response ← parse_response raw;
      if in_range 300 399 (hr_status response) then
        location ← ok_or (NoLocation url) (header_named "location" (hr_headers response));
        next ← resolve_redirect url location;
        feed_get net next fuel
      else if negb (hr_status response =? 200) then Err (HttpStatus url (hr_status response))
      else if existsb (fun h => (h.1 =s "transfer-encoding") && contains (to_ascii_lowercase h.2) (lit "chunked")) (hr_headers response)
      then Err (Chunked url)
      else match header_named "content-length" (hr_headers response) with
           | None => Ok (hr_body response)
           | Some value =>
               expected ← ok_or (BadLength url) (parse_uint usize_max value);
               if len (hr_body response) <? expected then Err (HttpTruncated url) else Ok (hr_body response)
           end
  end.

(** [src/cidrs.rs: trait HttpGet] *)
Definition HttpGet : Type := bytes -> result CidrError bytes.
(** [src/cidrs.rs: NetworkHttp::get] *)
Definition network_get (net : Oidc.Net) : HttpGet := fun url => feed_get net url (S MAX_REDIRECTS).

Section Feeds.
Context {FT : FeedText}.

(** [src/cidrs.rs: fn parse_fastly_json] *)
Definition parse_fastly_json (body : bytes) : result CidrError (list bytes) :=
  '(v4, v6) ← ok_or BadFastly (fastly_from_str (trim body)); json_entries (v4 ++ v6).

Fixpoint fetch_urls (get : HttpGet) (edge : EdgeName) (urls : list bytes) : result CidrError (list bytes) :=
  match urls with
  | [] => Ok []
  | url :: urls =>
      body ← match get url with Ok body => Ok body | Err e => Err (FeedFailed (edge_as_str edge) url e) end;
      parsed ← match edge_kind edge with KText => parse_text_body body | KFastlyJson => parse_fastly_json body end;
      if is_empty parsed then Err (EmptyList (edge_as_str edge) url)
      else rest ← fetch_urls get edge urls; Ok (parsed ++ rest)
  end.

(** [src/cidrs.rs: fn fetch_edge] *)
Definition fetch_edge (get : HttpGet) (job : EdgeJob) : result CidrError (list bytes) :=
  all ← fetch_urls get (job_edge job) (job_urls job); Ok (dedupe_keep_order all).
End Feeds.

(** ** Snapshots *)

Definition nl : bytes := [10].

Definition snapshot_header (edge : EdgeName) (today : bytes) : list bytes :=
  (lit "# Snapshot " ++ today ++ lit ". Não buscar isto no processo nem no boot.") ::
  match edge with
  | Cloudflare =>
      [lit "# Fonte IPv4: " ++ CLOUDFLARE_V4; lit "# Fonte IPv6: " ++ CLOUDFLARE_V6;
       lit "# IPs a partir dos quais a Cloudflare fala com a origem. Firewall + TRUSTED_PROXIES."]
  | Fastly =>
      [lit "# Fonte: " ++ FASTLY_JSON; lit "# IPs públicos Fastly (JSON `addresses` + `ipv6_addresses`)."]
  | Akamai =>
      [lit "# Fonte IPv4: " ++ AKAMAI_V4; lit "# Fonte IPv6: " ++ AKAMAI_V6;
       lit "# Supernets públicos Origin IP ACL. Site Shield (Control Center) é por cliente e deve substituir esta lista se existir. Não é o mapa de toda a borda Akamai."]
  end ++ [lit "# Formato: um CIDR por linha. Cole no TRUSTED_PROXIES separado por vírgulas."].

Definition ended (ls : list bytes) : bytes := flat_map (fun l => l ++ nl) ls.

(** [src/cidrs.rs: fn render_snapshot] *)
Definition render_snapshot (edge : EdgeName) (today : bytes) (cidrs : list bytes) : bytes :=
  ended (snapshot_header edge today) ++ nl ++ ended cidrs.

(** [src/cidrs.rs: fn set_env_line] *)
Definition set_env_line (content : bytes) (key : string) (value : bytes) : bytes :=
  let prefix := lit key ++ [61] in
  let ls := map (fun line => if starts_with line prefix then prefix ++ value else line) (lines content) in
  let found := existsb (fun line => starts_with line prefix) (lines content) in
  let out := join nl (if found then ls else ls ++ [prefix ++ value]) in
  if (ends_with content nl || is_empty content) && negb (ends_with out nl) then out ++ nl else out.

(** [src/cidrs.rs: struct PreparedEdge] *)
Record PreparedEdge : Type := {
  pe_edge : EdgeName; pe_path : bytes; pe_old : list bytes; pe_new : list bytes; pe_diff : CidrDiff }.

(** The entries of the line, as they are separated. *)
Definition entries_of (value : bytes) : list bytes := base.filter (fun e => e <> []) (map trim (split_on 44 value)).

(** The value of a line of the environment file. *)
Definition env_value (content : bytes) (key : string) : bytes :=
  let prefix := lit key ++ [61] in
  default [] (List.find (fun line => starts_with line prefix) (lines content) ≫= strip_prefix prefix).

(** [src/cidrs.rs: fn merge_env_trusted] *)
Definition merge_env_trusted (content : bytes) (prepared : list PreparedEdge) : bytes :=
  let old_set : gset bytes := list_to_set (flat_map pe_old prepared) in
  let extras := base.filter (fun e => e ∉ old_set) (entries_of (env_value content "TRUSTED_PROXIES")) in
  set_env_line content "TRUSTED_PROXIES" (join [44] (dedupe_keep_order (extras ++ flat_map pe_new prepared))).

(** [src/cidrs.rs: fn is_yes] *)
Definition is_yes (answer : bytes) : bool := one_of (to_ascii_lowercase answer) ["s"; "sim"; "y"; "yes"].

(** ** The calendar *)

(** The year, month and day of a number of days, all in 64 bits. *)
Definition civil_from_days (days : Z) : Z * Z * Z :=
  let z := days + 719468 in
  let era := Z.quot (if 0 <=? z then z else z - 146096) 146097 in
  let doe := z - era * 146097 in
  let yoe := (doe - doe / 1460 + doe / 36524 - doe / 146096) / 365 in
  let y := yoe + era * 400 in
  let doy := doe - (365 * yoe + yoe / 4 - yoe / 100) in
  let mp := (5 * doy + 2) / 153 in
  let d := doy - (153 * mp + 2) / 5 + 1 in
  let m := if mp <? 10 then mp + 3 else mp - 9 in
  (if m <=? 2 then y + 1 else y, m, d).

Definition padded (width : nat) (n : Z) : bytes := let s := show_dec n in repeat 48 (width - length s) ++ s.

(** [src/cidrs.rs: fn utc_ymd] *)
Definition utc_ymd (secs : Z) : bytes :=
  let '(y, m, d) := civil_from_days (secs / 86400) in padded 4 y ++ lit "-" ++ padded 2 m ++ lit "-" ++ padded 2 d.

(** ** The command *)

(** The disk, what was printed, and the number of operations so far. *)
Record CmdState : Type := { disk : gmap bytes bytes; printed : list bytes; ops : nat }.

(** What the command meets: directories, which operations succeed, what a failed write leaves, the feeds, the answer of the
    terminal ([None] when it cannot be read) and the date. *)
Record CmdWorld : Type := {
  is_dir : bytes -> bool; io_ok : nat -> bool; torn : nat -> option bytes; http : HttpGet; answer : option bytes; is_tty : bool;
  today : bytes }.

Definition Cmd (A : Type) : Type := CmdState -> CmdState * result CidrError A.
#[export] Instance cmd_ret : MRet Cmd := fun _ a s => (s, Ok a).
#[export] Instance cmd_bind : MBind Cmd := fun _ _ f m s => match m s with (s, Ok a) => f a s | (s, Err e) => (s, Err e) end.

Definition lift {A} (r : result CidrError A) : Cmd A := fun s => (s, r).
Definition fails {A} (e : CidrError) : Cmd A := fun s => (s, Err e).
Definition on_disk {A} (f : gmap bytes bytes -> A) : Cmd A := fun s => (s, Ok (f (disk s))).
Definition with_disk (s : CmdState) (d : gmap bytes bytes) : CmdState := {| disk := d; printed := printed s; ops := S (ops s) |}.

Section Command.
Context {FT : FeedText} (w : CmdWorld).

(** [writeln!(stdout, ...)] *)
Definition say (line : bytes) : Cmd unit := fun s =>
  if io_ok w (ops s) then ({| disk := disk s; printed := printed s ++ [line]; ops := S (ops s) |}, Ok tt)
  else (with_disk s (disk s), Err Terminal).

(** [fs::read_to_string] *)
Definition read_text (path : bytes) : Cmd bytes := fun s =>
  (with_disk s (disk s), match disk s !! path with
                         | Some text => if io_ok w (ops s) && is_utf8 text then Ok text else Err (NotRead path)
                         | None => Err (NotRead path)
                         end).

(** [fs::write] A write that fails may leave part of the file. *)
Definition write_file (path body : bytes) : Cmd unit := fun s =>
  if io_ok w (ops s) then (with_disk s (<[path := body]> (disk s)), Ok tt)
  else (with_disk s (match torn w (ops s) with Some part => <[path := part]> (disk s) | None => disk s end), Err (NotWritten path)).

(** [src/cidrs.rs: fn swap_into_place @603-605] The rename, on Unix. *)
Definition swap_into_place (tmp dest : bytes) : Cmd bool := fun s =>
  match disk s !! tmp with
  | Some body => if io_ok w (ops s) then (with_disk s (<[dest := body]> (delete tmp (disk s))), Ok true) else (with_disk s (disk s), Ok false)
  | None => (with_disk s (disk s), Ok false)
  end.

(** [fs::remove_file], whose failure is ignored. *)
Definition remove_file (path : bytes) : Cmd unit := fun s =>
  (with_disk s (if io_ok w (ops s) then delete path (disk s) else disk s), Ok tt).

(** [src/cidrs.rs: fn replace_file] *)
Definition replace_file (path body : bytes) : Cmd unit :=
  let tmp := path ++ lit ".tmp" in
  _ ← write_file tmp body;
  swapped ← swap_into_place tmp path;
  if negb swapped then _ ← remove_file tmp; fails (NotWritten path) else mret tt.

(** [Path::join] *)
Definition join_path (dir name : bytes) : bytes :=
  if is_empty dir then name else if ends_with dir [47] then dir ++ name else dir ++ [47] ++ name.

Fixpoint say_all (ls : list bytes) : Cmd unit := match ls with [] => mret tt | l :: ls => _ ← say l; say_all ls end.

(** [src/cidrs.rs: fn write_diff] *)
Definition write_diff (item : PreparedEdge) : Cmd unit :=
  if diff_is_empty (pe_diff item) then
    say (edge_as_str (pe_edge item) ++ lit ": sem alterações (" ++ show_dec (len (pe_old item)) ++ lit " CIDRs).")
  else
    _ ← say (edge_as_str (pe_edge item) ++ lit " (" ++ pe_path item ++ lit "): " ++ show_dec (len (added (pe_diff item)))
             ++ lit " adicionados, " ++ show_dec (len (removed (pe_diff item))) ++ lit " removidos");
    _ ← say_all (map (fun c => lit "  + " ++ c) (added (pe_diff item)));
    say_all (map (fun c => lit "  - " ++ c) (removed (pe_diff item))).

(** [src/cidrs.rs: fn run_with @218-237] The first loop: every list is fetched and compared before anything is written. *)
Fixpoint prepare (dir : bytes) (jobs : list EdgeJob) : Cmd (list PreparedEdge) :=
  match jobs with
  | [] => mret []
  | job :: jobs =>
      fetched ← lift (fetch_edge (http w) job);
      let path := join_path dir (edge_file_name (job_edge job)) in
      present ← on_disk (fun d => bool_decide (is_Some (d !! path)));
      old_text ← (if (present : bool) then read_text path else mret []);
      let old := cidrs_from_text old_text in
      rest ← prepare dir jobs;
      mret ({| pe_edge := job_edge job; pe_path := path; pe_old := old; pe_new := fetched; pe_diff := diff_cidrs old fetched |} :: rest)
  end.

Fixpoint write_diffs (items : list PreparedEdge) : Cmd unit :=
  match items with [] => mret tt | item :: items => _ ← write_diff item; write_diffs items end.

(** [src/cidrs.rs: fn run_with @248-264] The question on the terminal. *)
Definition confirm (yes : bool) : Cmd bool :=
  if yes then mret true
  else if negb (is_tty w) then fails NeedsYes
  else
    _ ← say (lit "Escrever o snapshot em disco? [s/N] ");
    match answer w with
    | None => fails Terminal
    | Some line => if is_yes (trim line) then mret true else _ ← say (lit "Cancelado. Snapshot no disco intacto."); mret false
    end.

(** [src/cidrs.rs: fn run_with @266-279] *)
Fixpoint write_snapshots (items : list PreparedEdge) : Cmd unit :=
  match items with
  | [] => mret tt
  | item :: items =>
      if diff_is_empty (pe_diff item) then write_snapshots items
      else
        _ ← replace_file (pe_path item) (render_snapshot (pe_edge item) (today w) (pe_new item));
        _ ← say (lit "Escrito " ++ pe_path item ++ lit " (" ++ show_dec (len (pe_new item)) ++ lit " CIDRs).");
        write_snapshots items
  end.

(** [src/cidrs.rs: fn run_with @281-291] *)
Definition write_env (env : option bytes) (items : list PreparedEdge) : Cmd unit :=
  match env with
  | None => mret tt
  | Some path =>
      before ← read_text path;
      let after := merge_env_trusted before items in
      if bool_decide (after = before) then mret tt
      else _ ← replace_file path after; say (lit "Actualizado TRUSTED_PROXIES em " ++ path ++ lit ".")
  end.

(** [src/cidrs.rs: fn run_with] *)
Definition run_with (args : list bytes) (jobs_override : option (list EdgeJob)) : Cmd unit :=
  flags ← lift (parse_args args);
  let dir := default DEFAULT_DIR (f_dir flags) in
  if negb (is_dir w dir) then fails (NoDirectory dir)
  else
    _ ← match f_env flags with
        | Some path => there ← on_disk (fun d => bool_decide (is_Some (d !! path))); if (there : bool) then mret tt else fails (NoEnvFile path)
        | None => mret tt
        end;
    jobs ← match jobs_override with Some jobs => mret jobs | None => lift (official_jobs (f_edge flags)) end;
    _ ← say (lit "A descarregar listas oficiais (HTTP, limite 5s). O init nunca faz isto."
             ++ (if f_network flags then lit " [--cidrs-from-network]" else []));
    prepared ← prepare dir jobs;
    _ ← write_diffs prepared;
    if negb (existsb (fun item => negb (diff_is_empty (pe_diff item))) prepared) then say (lit "Nenhuma alteração nos CIDRs.")
    else
      go ← confirm (f_yes flags);
      if negb go then mret tt
      else _ ← write_snapshots prepared; write_env (f_env flags) prepared.

(** [src/cidrs.rs: fn run] The help is printed and nothing else is done. *)
Definition run (args : list bytes) : Cmd unit :=
  if existsb (fun a => one_of a ["--help"; "-h"]) args then mret tt else run_with args None.
End Command.

(** ** Trimming *)

Section Trim.
Context (step : bytes -> option bytes) (Hstep : forall s r, step s = Some r -> exists a, a <> [] /\ s = a ++ r).

Lemma strip_suffix_of n s : exists a, s = a ++ strip_while step n s.
Proof.
  revert s. induction n as [|n IH]; intros s; cbn [strip_while]; [by exists []|]. destruct (step s) as [r|] eqn:E; [|by exists []].
  destruct (Hstep s r E) as (a & _ & ->). destruct (IH r) as [b Hb]. exists (a ++ b). rewrite <- app_assoc. by rewrite <- Hb.
Qed.

Lemma strip_stops n s : (length s <= n)%nat -> step (strip_while step n s) = None.
Proof.
  revert s. induction n as [|n IH]; intros s Hn; cbn [strip_while].
  - destruct s; [|cbn in Hn; lia]. destruct (step []) as [r|] eqn:E; [|done]. destruct (Hstep _ _ E) as ([|x a] & Ha & Hs); done.
  - destruct (step s) as [r|] eqn:E; [|done]. destruct (Hstep _ _ E) as ([|x a] & Ha & ->); [done|]. apply IH.
    cbn in Hn. rewrite length_app in Hn. lia.
Qed.
End Trim.

Lemma ws_head_step s r : ws_head s = Some r -> exists a, a <> [] /\ s = a ++ r.
Proof.
  destruct s as [|c s]; [done|]. cbn [ws_head]. destruct (ws1 c); [intros [= <-]; by exists [c]|]. destruct s as [|d s]; [done|].
  destruct (ws2 c d); [intros [= <-]; by exists [c; d]|]. destruct s as [|e s]; [done|]. destruct (ws3 c d e); [|done].
  intros [= <-]. by exists [c; d; e].
Qed.

Lemma ws_tail_step s r : ws_tail s = Some r -> exists a, a <> [] /\ s = a ++ r.
Proof.
  destruct s as [|c s]; [done|]. cbn [ws_tail]. destruct (ws1 c); [intros [= <-]; by exists [c]|]. destruct s as [|d s]; [done|].
  destruct (ws2 d c); [intros [= <-]; by exists [c; d]|]. destruct s as [|e s]; [done|]. destruct (ws3 e d c); [|done].
  intros [= <-]. by exists [c; d; e].
Qed.

(** Blanks that start a text start what continues it. *)
Lemma ws_head_app a b : ws_head (a ++ b) = None -> ws_head a = None.
Proof.
  destruct a as [|c a]; [done|]. cbn [app ws_head]. destruct (ws1 c); [done|]. destruct a as [|d a]; [done|]. cbn [app].
  destruct (ws2 c d); [done|]. destruct a as [|e a]; [done|]. cbn [app]. by destruct (ws3 c d e).
Qed.

Lemma trim_end_prefix s : exists b, s = trim_end s ++ b.
Proof.
  unfold trim_end. destruct (strip_suffix_of ws_tail ws_tail_step (length s) (rev s)) as [a Ha]. exists (rev a).
  rewrite <- rev_app_distr, <- Ha. by rewrite rev_involutive.
Qed.

(** A trimmed text has no blank at either end. *)
Lemma trim_ends s : ws_head (trim s) = None /\ ws_tail (rev (trim s)) = None.
Proof.
  split.
  - unfold trim. destruct (trim_end_prefix (trim_start s)) as [b Hb]. apply (ws_head_app _ b). rewrite <- Hb.
    apply strip_stops; [apply ws_head_step|done].
  - unfold trim, trim_end. rewrite rev_involutive. apply strip_stops; [apply ws_tail_step|]. by rewrite length_rev.
Qed.

Lemma trim_same s : ws_head s = None -> ws_tail (rev s) = None -> trim s = s.
Proof.
  intros Hh Ht. unfold trim, trim_start, trim_end. rewrite (strip_while_none ws_head) by done. rewrite strip_while_none by done.
  apply rev_involutive.
Qed.

Lemma trim_trim s : trim (trim s) = trim s.
Proof. destruct (trim_ends s). by apply trim_same. Qed.

(** A trimmed text is a piece of the text. *)
Lemma trim_piece s : exists a b, s = a ++ trim s ++ b.
Proof.
  unfold trim. destruct (strip_suffix_of ws_head ws_head_step (length s) s) as [a Ha]. destruct (trim_end_prefix (trim_start s)) as [b Hb].
  exists a, b. rewrite <- Hb. exact Ha.
Qed.

Lemma trim_elem x s : x ∈ trim s -> x ∈ s.
Proof. intros Hx. destruct (trim_piece s) as (a & b & Hs). rewrite Hs, !elem_of_app. auto. Qed.

Lemma trimmed_no_cr s : trim s = s -> strip_cr s = s.
Proof.
  intros Hs. destruct (trim_ends s) as [_ Ht]. rewrite Hs in Ht. unfold strip_cr. destruct (strip_suffix [13] s) as [r|] eqn:E; [|done].
  apply strip_suffix_spec in E. rewrite E, rev_app_distr in Ht. done.
Qed.

(** ** Lines *)

Definition line_ok (l : bytes) : Prop := (10 ∉ l) /\ strip_cr l = l.

Lemma split_on_ended ls : Forall (fun l => 10 ∉ l) ls -> split_on 10 (ended ls) = ls ++ [[]].
Proof.
  induction 1 as [|l ls Hl _ IH]; [done|]. change (ended (l :: ls)) with ((l ++ nl) ++ ended ls). rewrite <- app_assoc.
  change (nl ++ ended ls) with (10 :: ended ls). rewrite split_on_app, split_on_none, IH by done. done.
Qed.

(** Lines that were ended are read back. *)
Lemma lines_ended ls : Forall line_ok ls -> lines (ended ls) = ls.
Proof.
  intros Hl. unfold lines. cbv zeta. rewrite split_on_ended by (apply (Forall_impl _ _ _ Hl); by intros l [? _]).
  rewrite List.last_last, removelast_last. cbn [is_empty]. rewrite app_nil_r. induction Hl as [|l ls [_ Hl] _ IH]; [done|].
  cbn [map]. by rewrite Hl, IH.
Qed.

Lemma lines_no_nl s l : l ∈ lines s -> 10 ∉ l.
Proof.
  unfold lines. cbv zeta. rewrite elem_of_app. intros Hl Hin.
  assert (forall x, x ∈ split_on 10 s -> 10 ∉ x) as Hp by (intros x Hx; by eapply split_on_no_sep).
  pose proof (app_removelast_last [] (split_on_not_nil 10 s)) as Hsplit.
  destruct Hl as [Hl|Hl].
  - apply list_elem_of_fmap in Hl as (x & -> & Hx). apply (Hp x); [rewrite Hsplit, elem_of_app; by left|].
    unfold strip_cr in Hin. destruct (strip_suffix [13] x) as [r|] eqn:E; cbn in Hin; [|done].
    apply strip_suffix_spec in E as ->. apply elem_of_app. by left.
  - destruct (is_empty (List.last _ _)) eqn:E; [by apply elem_of_nil in Hl|]. apply list_elem_of_singleton in Hl as ->.
    apply (Hp (List.last (split_on 10 s) [])); [|done]. rewrite Hsplit at 2. rewrite elem_of_app. right. by apply list_elem_of_singleton.
Qed.

(** ** Snapshots are read back *)

(** An entry of a list: one line, trimmed, not a comment. *)
Record entry_ok (c : bytes) : Prop := { eo_line : 10 ∉ c; eo_trim : trim c = c; eo_entry : is_entry c = true }.

Lemma entry_line c : entry_ok c -> line_ok c.
Proof. intros [H1 H2 _]. split; [done|]. by apply trimmed_no_cr. Qed.

Lemma comment_no_entry l : starts_with l [35] = true -> is_entry (trim l) = false.
Proof.
  rewrite starts_with_spec. intros [r ->]. unfold is_entry. apply andb_false_iff.
  destruct (is_empty (trim ([35] ++ r))) eqn:E; [by left|right]. apply negb_false_iff, starts_with_spec.
  assert (trim_start ([35] ++ r) = [35] ++ r) as Hs by (unfold trim_start; apply strip_while_none; by apply ws_head_visible).
  destruct (trim_end_prefix ([35] ++ r)) as [b Hb]. unfold trim in *. rewrite Hs in *. apply is_empty_false in E.
  destruct (trim_end ([35] ++ r)) as [|x t]; [done|]. cbn in Hb. injection Hb as <- _. by exists t.
Qed.

Lemma header_lines edge today : 10 ∉ today -> Forall line_ok (snapshot_header edge today)
  /\ Forall (fun l => starts_with l [35] = true) (snapshot_header edge today).
Proof.
  intros Ht.
  assert (line_ok (lit "# Snapshot " ++ today ++ lit ". Não buscar isto no processo nem no boot.")) as H1.
  { split.
    - rewrite !elem_of_app. intros [Hx|[Hx|Hx]]; [|done|]; revert Hx; apply (bool_decide_unpack _); vm_compute; exact I.
    - unfold strip_cr. destruct (strip_suffix [13] _) as [r|] eqn:E; [|done]. exfalso. apply strip_suffix_spec in E.
      apply (f_equal (@last Z)) in E. rewrite app_assoc, !last_app in E. vm_compute in E. done. }
  assert (forall ls, forallb (fun l => negb (bool_decide (10 ∈ l)) && bool_decide (strip_cr l = l)) ls = true -> Forall line_ok ls) as Hok.
  { intros ls Hls. apply Forall_forall. intros l Hl. rewrite forallb_forall in Hls. apply list_elem_of_In in Hl. specialize (Hls l Hl).
    apply andb_true_iff in Hls as [H2%negb_true_iff%bool_decide_eq_false H3%bool_decide_eq_true]. by split. }
  split.
  - constructor; [exact H1|]. apply Hok. destruct edge; vm_compute; reflexivity.
  - constructor; [apply starts_with_spec; eexists; reflexivity|]. destruct edge; repeat constructor; vm_compute; reflexivity.
Qed.

(** What a snapshot says is what it was rendered from. *)
Lemma render_read edge today cs : 10 ∉ today -> Forall entry_ok cs -> cidrs_from_text (render_snapshot edge today cs) = cs.
Proof.
  intros Ht Hc. destruct (header_lines edge today Ht) as [Hl Hh]. unfold cidrs_from_text.
  assert (strip_bom (render_snapshot edge today cs) = render_snapshot edge today cs) as ->
    by (unfold strip_bom, render_snapshot; destruct edge; reflexivity).
  assert (render_snapshot edge today cs = ended (snapshot_header edge today ++ [] :: cs)) as ->
    by (unfold render_snapshot, ended; rewrite flat_map_app; done).
  rewrite lines_ended.
  - rewrite map_app, filter_app. cbn [map].
    assert (forall ls, Forall (fun l => starts_with l [35] = true) ls -> base.filter (fun l => is_entry l = true) (map trim ls) = []) as ->.
    { induction 1 as [|l ls Hx _ IH]; [done|]. cbn [map]. rewrite filter_cons_False; [done|]. by rewrite comment_no_entry. }
    2: exact Hh. rewrite filter_cons_False by done. cbn [app]. clear -Hc. induction Hc as [|c cs [_ Ht He] _ IH]; [done|].
    cbn [map]. rewrite Ht, filter_cons_True by done. by rewrite IH.
  - apply Forall_app. split; [done|]. constructor; [split; [by intros ?%elem_of_nil|done]|].
    apply (Forall_impl _ _ _ Hc). apply entry_line.
Qed.

Lemma text_entries_ok raws : forall n cs, text_entries n raws = Ok cs -> Forall (fun l => 10 ∉ l) raws ->
  Forall entry_ok cs /\ Forall (fun c => is_ok (validate_cidr c) = true) cs.
Proof.
  induction raws as [|raw raws IH]; intros n cs; cbn [text_entries]; [intros [= <-] _; by split|]. intros Ht Hl.
  apply Forall_cons in Hl as [Hraw Hl]. destruct (_ || _) eqn:Ee; [by apply (IH (n + 1))|].
  destruct (validate_cidr (trim raw)) as [[]|] eqn:Ev; [|done]. destruct (text_entries (n + 1) raws) as [rest|] eqn:Er; [|done].
  cbn in Ht. injection Ht as <-. destruct (IH _ _ Er Hl) as [H1 H2]. apply orb_false_iff in Ee as [E1 E2].
  split; constructor; try done; [|by rewrite Ev]. constructor; [by intros ?%trim_elem|apply trim_trim|]. unfold is_entry. by rewrite E1, E2.
Qed.

Lemma dedupe_elem seen l x : x ∈ dedupe seen l <-> x ∈ l /\ x ∉ seen.
Proof.
  revert seen. induction l as [|y l IH]; intros seen; cbn [dedupe]; [rewrite elem_of_nil; tauto|].
  destruct (decide (y ∈ seen)) as [Hy|Hy].
  - rewrite bool_decide_eq_true_2, IH, elem_of_cons by done. split; [tauto|]. intros [[->|?] ?]; tauto.
  - rewrite bool_decide_eq_false_2, elem_of_cons, IH, elem_of_cons, elem_of_union, elem_of_singleton by done.
    destruct (decide (x = y)) as [->|]; tauto.
Qed.

Lemma dedupe_Forall (P : bytes -> Prop) l : Forall P l -> Forall P (dedupe_keep_order l).
Proof. rewrite !Forall_forall. intros Hl x [Hx _]%dedupe_elem. by apply Hl. Qed.

Lemma text_feed_ok {FT : FeedText} get job cs : edge_kind (job_edge job) = KText -> fetch_edge get job = Ok cs ->
  Forall entry_ok cs /\ Forall (fun c => is_ok (validate_cidr c) = true) cs.
Proof.
  intros Hk. unfold fetch_edge. destruct (fetch_urls _ _ _) as [all|] eqn:E; [|done]. intros [= <-].
  assert (Forall entry_ok all /\ Forall (fun c => is_ok (validate_cidr c) = true) all) as [H1 H2]; [|split; by apply dedupe_Forall].
  revert all E. induction (job_urls job) as [|url urls IH]; intros all; cbn [fetch_urls]; [intros [= <-]; by split|].
  destruct (get url) as [body|]; [|done]. cbn [mbind result_bind]. rewrite Hk.
  destruct (parse_text_body body) as [parsed|] eqn:Ep; [|done]. cbn [mbind result_bind]. destruct (is_empty parsed); [done|].
  destruct (fetch_urls get (job_edge job) urls) as [rest|]; [|done]. intros [= <-]. destruct (IH rest eq_refl) as [H1 H2].
  destruct (text_entries_ok _ _ _ Ep) as [H3 H4]; [|split; by apply Forall_app].
  apply Forall_forall. intros l Hl. by eapply lines_no_nl.
Qed.

Lemma diff_same l : diff_is_empty (diff_cidrs l l) = true.
Proof.
  unfold diff_cidrs, diff_is_empty. cbn. assert (base.filter (fun c => c ∉ (list_to_set l : gset bytes)) l = []) as ->; [|done].
  assert (forall k, (forall x, x ∈ k -> x ∈ l) -> base.filter (fun c => c ∉ (list_to_set l : gset bytes)) k = []) as Hk; [|by apply Hk].
  induction k as [|x k IH]; intros Hk; [done|]. rewrite filter_cons_False; [apply IH; intros y Hy; apply Hk; by right|].
  intros Hx. apply Hx, elem_of_list_to_set, Hk. by left.
Qed.

(** The lists of an edge that publishes text are valid networks; the snapshot written of one is read back as it, so that updating again
    from the same feed changes nothing. *)
Theorem snapshot_settles {FT : FeedText} (get : HttpGet) (job : EdgeJob) (cs : list bytes) (day : bytes) :
  edge_kind (job_edge job) = KText -> fetch_edge get job = Ok cs -> 10 ∉ day ->
  let stored := cidrs_from_text (render_snapshot (job_edge job) day cs) in
  stored = cs /\ diff_is_empty (diff_cidrs stored cs) = true /\ Forall (fun c => is_ok (validate_cidr c) = true) cs.
Proof.
  intros Hk Hf Hd. destruct (text_feed_ok get job cs Hk Hf) as [He Hv]. cbv zeta. rewrite render_read by done.
  split; [done|]. split; [apply diff_same|done].
Qed.

(** ** The trusted line *)

(** A network as it can stand in the line: trimmed, not empty, without commas or ends of lines. *)
Record one_network (c : bytes) : Prop := { on_trim : trim c = c; on_some : c <> []; on_comma : 44 ∉ c; on_line : 10 ∉ c; on_cr : 13 ∉ c }.

Lemma entries_joined cs : Forall one_network cs -> entries_of (join [44] cs) = cs.
Proof.
  intros Hc. unfold entries_of. destruct cs as [|c cs]; [done|]. rewrite split_on_join; [|done|by eapply Forall_impl; [exact Hc|intros x []]].
  revert Hc. generalize (c :: cs). induction 1 as [|x l [Ht Hs _ _ _] _ IH]; [done|]. cbn [map]. rewrite Ht, filter_cons_True by done.
  by rewrite IH.
Qed.

Lemma join_elem c cs x : x ∈ join [c] cs -> x = c \/ exists y, y ∈ cs /\ x ∈ y.
Proof.
  induction cs as [|a cs IH]; [by intros ?%elem_of_nil|]. destruct cs as [|b cs].
  - cbn. intros Hx. right. exists a. split; [by left|done].
  - change (join [c] (a :: b :: cs)) with (a ++ c :: join [c] (b :: cs)). rewrite elem_of_app, elem_of_cons.
    intros [Hx|[->|Hx]]; [right; exists a; split; [by left|done]|by left|].
    destruct (IH Hx) as [->|(y & Hy & Hxy)]; [by left|right; exists y; split; [by right|done]].
Qed.

Lemma split_sub c s p x : p ∈ split_on c s -> x ∈ p -> x ∈ s.
Proof.
  intros Hp Hx. rewrite <- (join_split_on c s). revert Hp. induction (split_on c s) as [|a l IH]; intros Hp; [by apply elem_of_nil in Hp|].
  destruct l as [|b l]; [apply list_elem_of_singleton in Hp as ->; done|].
  change (join [c] (a :: b :: l)) with (a ++ c :: join [c] (b :: l)). rewrite elem_of_app, elem_of_cons.
  apply elem_of_cons in Hp as [->|Hp]; [by left|right; right; by apply IH].
Qed.

Lemma entries_ok value : 10 ∉ value -> 13 ∉ value -> Forall one_network (entries_of value).
Proof.
  intros Hv Hr. apply Forall_forall. intros e [He Hin]%list_elem_of_filter. apply list_elem_of_fmap in Hin as (p & -> & Hp).
  pose proof (split_on_no_sep _ _ _ Hp) as Hc.
  assert (forall x, x ∈ p -> x ∈ value) as Hsub by (intros x; by apply split_sub with (c := 44)).
  constructor; [apply trim_trim|done|by intros ?%trim_elem|by intros ?%trim_elem%Hsub|by intros ?%trim_elem%Hsub].
Qed.


Lemma lines_sub s l x : l ∈ lines s -> x ∈ l -> x ∈ s.
Proof.
  unfold lines. cbv zeta. rewrite elem_of_app. intros Hl Hx.
  pose proof (app_removelast_last [] (split_on_not_nil 10 s)) as Hsplit. destruct Hl as [Hl|Hl].
  - apply list_elem_of_fmap in Hl as (p & -> & Hp). apply (split_sub 10 s p); [rewrite Hsplit, elem_of_app; by left|].
    unfold strip_cr in Hx. destruct (strip_suffix [13] p) as [r|] eqn:E; cbn in Hx; [|done].
    apply strip_suffix_spec in E as ->. apply elem_of_app. by left.
  - destruct (is_empty (List.last _ _)) eqn:E; [by apply elem_of_nil in Hl|]. apply list_elem_of_singleton in Hl as ->.
    apply (split_sub 10 s (List.last (split_on 10 s) [])); [|done]. rewrite Hsplit at 2. rewrite elem_of_app. right. by apply list_elem_of_singleton.
Qed.

Lemma no_cr_line l : 13 ∉ l -> strip_cr l = l.
Proof.
  intros Hl. unfold strip_cr. destruct (strip_suffix [13] l) as [r|] eqn:E; [|done]. apply strip_suffix_spec in E as ->.
  exfalso. apply Hl, elem_of_app. right. by apply list_elem_of_singleton.
Qed.

Lemma lines_ok s : 13 ∉ s -> Forall line_ok (lines s).
Proof.
  intros Hs. apply Forall_forall. intros l Hl. split; [by eapply lines_no_nl|]. apply no_cr_line. intros Hx. apply Hs. by eapply lines_sub.
Qed.

(** Joining lines and reading lines loses at most a blank line at the end. *)
Lemma lines_joined ls : Forall line_ok ls -> exists blanks, Forall (fun l => l = []) blanks /\ ls = lines (join nl ls) ++ blanks.
Proof.
  intros Hl. destruct ls as [|l0 ls0]; [exists []; by split|]. remember (l0 :: ls0) as ls eqn:El.
  assert (ls <> []) as Hn by (by subst). clear El. unfold lines. cbv zeta.
  rewrite split_on_join; [|done|by apply (Forall_impl _ _ _ Hl); intros l [? _]].
  pose proof (app_removelast_last [] Hn) as Hs.
  assert (map strip_cr (removelast ls) = removelast ls) as ->.
  { rewrite Hs in Hl. apply Forall_app in Hl as [Hl _]. clear -Hl. induction Hl as [|l k [_ Hk] _ IH]; [done|]. cbn [map]. by rewrite Hk, IH. }
  destruct (is_empty (List.last ls [])) eqn:E.
  - apply is_empty_true in E. exists [[]]. split; [by repeat constructor|]. rewrite app_nil_r. by rewrite E in Hs.
  - exists []. split; [done|]. by rewrite app_nil_r.
Qed.

Lemma lines_joined_nl ls : Forall line_ok ls -> ls <> [] -> lines (join nl ls ++ nl) = ls.
Proof.
  intros Hl Hn. assert (join nl ls ++ nl = ended ls) as ->; [|by apply lines_ended].
  clear Hl. induction ls as [|a ls IH]; [done|]. destruct ls as [|b ls]; [cbn; by rewrite app_nil_r|].
  change (join nl (a :: b :: ls)) with (a ++ nl ++ join nl (b :: ls)). rewrite <- !app_assoc, IH by done. change (ended (a :: b :: ls)) with
    ((a ++ nl) ++ ended (b :: ls)). by rewrite <- app_assoc.
Qed.

Lemma find_app_none {A} (P : A -> bool) a b : Forall (fun x => P x = false) b -> List.find P (a ++ b) = List.find P a.
Proof.
  intros Hb. induction a as [|x a IH]; cbn; [|by rewrite IH]. induction Hb as [|y b Hy _ IH]; [done|]. cbn. by rewrite Hy.
Qed.

(** The lines of a file with a line set, and the file they are written to, with or without a last end of line. *)
Definition set_lines (content : bytes) (key : string) (value : bytes) : list bytes :=
  let prefix := lit key ++ [61] in
  let ls := map (fun line => if starts_with line prefix then prefix ++ value else line) (lines content) in
  if existsb (fun line => starts_with line prefix) (lines content) then ls else ls ++ [prefix ++ value].
Definition written (ls : list bytes) (trailing : bool) : bytes := if trailing then join nl ls ++ nl else join nl ls.

Lemma set_lines_ok content key value : 13 ∉ content -> line_ok (lit key ++ [61] ++ value) -> Forall line_ok (set_lines content key value).
Proof.
  intros Hc Hv. rewrite app_assoc in Hv. unfold set_lines. cbv zeta.
  assert (Forall line_ok (map (fun line => if starts_with line (lit key ++ [61]) then (lit key ++ [61]) ++ value else line) (lines content))) as Hm.
  { apply Forall_map, (Forall_impl _ _ _ (lines_ok content Hc)). intros l Hl. by destruct (starts_with l _). }
  destruct (existsb _ _); [done|]. apply Forall_app. split; [done|]. constructor; [done|constructor].
Qed.

(** Writing lines and reading them back finds what was in them. *)
Lemma find_written P ls trailing : Forall line_ok ls -> P [] = false -> List.find P (lines (written ls trailing)) = List.find P ls.
Proof.
  intros Hl Hnil. unfold written. destruct trailing.
  - destruct ls as [|l0 ls0] eqn:El; [|by rewrite lines_joined_nl]. cbn. by rewrite Hnil.
  - destruct (lines_joined ls Hl) as (blanks & Hb & Heq). rewrite Heq at 2. rewrite find_app_none; [done|].
    apply (Forall_impl _ _ _ Hb). by intros l ->.
Qed.

Lemma no_prefix_of_nil key : starts_with [] (lit key ++ [61]) = false.
Proof. destruct (starts_with [] _) eqn:E; [|done]. apply starts_with_spec in E as [r Hr]. destruct (lit key); done. Qed.

(** A line that is set is the line that is read. *)
Lemma env_written_set content key value trailing : 13 ∉ content -> line_ok (lit key ++ [61] ++ value) ->
  env_value (written (set_lines content key value) trailing) key = value.
Proof.
  intros Hc Hv. unfold env_value. cbv zeta. rewrite find_written by (apply no_prefix_of_nil || by apply set_lines_ok).
  unfold set_lines. cbv zeta. set (prefix := lit key ++ [61]).
  set (P := fun line => starts_with line prefix). set (f := fun line => if P line then prefix ++ value else line).
  assert (P (prefix ++ value) = true) as HP by (apply starts_with_spec; by eexists).
  change (default [] (List.find P (if existsb P (lines content) then map f (lines content) else map f (lines content) ++ [prefix ++ value])
                      ≫= strip_prefix prefix) = value).
  assert (List.find P (if existsb P (lines content) then map f (lines content) else map f (lines content) ++ [prefix ++ value])
          = Some (prefix ++ value)) as ->.
  { clear -HP. induction (lines content) as [|l k IH]; cbn [existsb map app List.find]; [by rewrite HP|].
    destruct (P l) eqn:E; cbn [orb].
    - unfold f at 1. rewrite E. cbn [List.find]. by rewrite HP.
    - destruct (existsb P k); cbn [app List.find map] in *; unfold f at 1; rewrite E, E; exact IH. }
  cbn [mbind option_bind]. assert (strip_prefix prefix (prefix ++ value) = Some value) as ->; [by apply strip_prefix_spec|done].
Qed.

(** The other settings keep their values. *)
Lemma env_written_other content key value other trailing : 13 ∉ content -> line_ok (lit key ++ [61] ++ value) -> lit key <> lit other ->
  61 ∉ lit key -> 61 ∉ lit other -> env_value (written (set_lines content key value) trailing) other = env_value content other.
Proof.
  intros Hc Hv Hne Hk Ho. unfold env_value. cbv zeta. rewrite find_written by (apply no_prefix_of_nil || by apply set_lines_ok).
  unfold set_lines. cbv zeta. set (prefix := lit key ++ [61]). set (wanted := lit other ++ [61]).
  set (P := fun line => starts_with line prefix). set (W := fun line => starts_with line wanted).
  set (f := fun line => if P line then prefix ++ value else line).
  assert (forall l, P l = true -> W l = false) as HPW.
  { intros l. destruct (W l) eqn:Ew; [|done]. intros Epl. apply starts_with_spec in Ew as [r1 H1], Epl as [r2 H2]. exfalso. apply Hne.
    rewrite H1 in H2. unfold wanted, prefix in H2. rewrite <- !app_assoc in H2. cbn [app] in H2.
    pose proof (proj2 (split_once_spec 61 (lit other ++ 61 :: r1) (lit other) r1)) as S1.
    pose proof (proj2 (split_once_spec 61 (lit key ++ 61 :: r2) (lit key) r2)) as S2.
    rewrite H2 in S1. specialize (S1 ltac:(done)). specialize (S2 ltac:(done)). congruence. }
  assert (P (prefix ++ value) = true) as HP by (apply starts_with_spec; by eexists).
  assert (forall k, List.find W (map f k) = List.find W k) as Hmap.
  { induction k as [|l k IH]; [done|]. cbn [map List.find]. destruct (P l) eqn:E.
    - assert (f l = prefix ++ value) as -> by (unfold f; by rewrite E). by rewrite (HPW _ HP), (HPW _ E).
    - assert (f l = l) as -> by (unfold f; by rewrite E). by destruct (W l). }
  do 2 f_equal. change (List.find W (if existsb P (lines content) then map f (lines content) else map f (lines content) ++ [prefix ++ value])
                        = List.find W (lines content)).
  destruct (existsb P _); [apply Hmap|]. rewrite find_app_none; [apply Hmap|]. constructor; [by apply HPW|constructor].
Qed.

Lemma set_env_line_written content key value : exists trailing, set_env_line content key value = written (set_lines content key value) trailing.
Proof. unfold set_env_line, set_lines. cbv zeta. by destruct (_ && _); [exists true|exists false]. Qed.

Lemma env_line_set content key value : 13 ∉ content -> line_ok (lit key ++ [61] ++ value) -> env_value (set_env_line content key value) key = value.
Proof. destruct (set_env_line_written content key value) as [t ->]. apply env_written_set. Qed.

Lemma env_other_kept content key value other : 13 ∉ content -> line_ok (lit key ++ [61] ++ value) -> lit key <> lit other ->
  61 ∉ lit key -> 61 ∉ lit other -> env_value (set_env_line content key value) other = env_value content other.
Proof. destruct (set_env_line_written content key value) as [t ->]. apply env_written_other. Qed.

Lemma dedupe_nodup seen l : NoDup (dedupe seen l).
Proof.
  revert seen. induction l as [|x l IH]; intros seen; cbn [dedupe]; [constructor|]. destruct (bool_decide (x ∈ seen)); [done|].
  constructor; [|done]. rewrite dedupe_elem, elem_of_union, elem_of_singleton. tauto.
Qed.

Definition trusted_line (content : bytes) : list bytes := entries_of (env_value content "TRUSTED_PROXIES").

Lemma env_value_plain content key x : x ∈ env_value content key -> x ∈ content /\ x <> 10.
Proof.
  unfold env_value. cbv zeta. destruct (List.find _ _) as [l|] eqn:E; [|by intros ?%elem_of_nil]. cbn [mbind option_bind].
  apply List.find_some in E as [Hl _]. apply list_elem_of_In in Hl. destruct (strip_prefix _ l) as [r|] eqn:Er; [|by intros ?%elem_of_nil].
  apply strip_prefix_spec in Er. cbn. intros Hx. assert (x ∈ l) as Hxl by (rewrite Er; apply elem_of_app; by right).
  split; [by eapply lines_sub|]. intros ->. by eapply lines_no_nl.
Qed.

(** Updating the environment file rewrites the trusted line and nothing else: as the proxy reads it, the line then holds, each once,
    the networks that were fetched and those the operator had added, which are the ones that no old snapshot lists; the networks an edge
    has withdrawn are gone; every other setting keeps its value. *)
Theorem trusted_line_merged (content : bytes) (items : list PreparedEdge) :
  13 ∉ content -> Forall one_network (flat_map pe_new items) ->
  let after := merge_env_trusted content items in
  NoDup (trusted_line after)
  /\ (forall x, x ∈ trusted_line after
        <-> x ∈ flat_map pe_new items \/ (x ∈ trusted_line content /\ x ∉ flat_map pe_old items))
  /\ forall key, 61 ∉ lit key -> lit key <> lit "TRUSTED_PROXIES" -> env_value after key = env_value content key.
Proof.
  intros Hc Hn. cbv zeta. unfold merge_env_trusted. cbv zeta.
  set (extras := base.filter _ (entries_of (env_value content "TRUSTED_PROXIES"))).
  set (merged := dedupe_keep_order (extras ++ flat_map pe_new items)).
  assert (Forall one_network merged) as Hm.
  { apply dedupe_Forall, Forall_app. split; [|done]. apply Forall_forall. intros x [_ Hx]%list_elem_of_filter.
    assert (Forall one_network (entries_of (env_value content "TRUSTED_PROXIES"))) as He by
      (apply entries_ok; intros Hb; apply env_value_plain in Hb; tauto).
    rewrite Forall_forall in He. by apply He. }
  assert (line_ok (lit "TRUSTED_PROXIES" ++ [61] ++ join [44] merged)) as Hv.
  { assert (forall b, b <> 44 -> (forall x, one_network x -> b ∉ x) -> b ∉ lit "TRUSTED_PROXIES" ++ [61] -> b ∉ lit "TRUSTED_PROXIES" ++ [61] ++ join [44] merged)
      as Hno.
    { intros b Hb Hx Hp. rewrite app_assoc, elem_of_app. intros [?|Hj]; [done|]. apply join_elem in Hj as [?|(y & Hy & Hby)]; [done|].
      rewrite Forall_forall in Hm. by apply (Hx y (Hm y Hy)). }
    split; [|apply no_cr_line]; (apply Hno; [done|by intros x []|apply (bool_decide_unpack _); vm_compute; exact I]). }
  assert (trusted_line (set_env_line content "TRUSTED_PROXIES" (join [44] merged)) = merged) as Ht
    by (unfold trusted_line; rewrite env_line_set by done; by apply entries_joined).
  rewrite Ht. split; [apply dedupe_nodup|]. split.
  - intros x. unfold merged, dedupe_keep_order. rewrite dedupe_elem, elem_of_app. unfold extras. rewrite list_elem_of_filter, elem_of_list_to_set.
    unfold trusted_line. set_solver.
  - intros key Hk Hne. apply env_other_kept; try done. apply (bool_decide_unpack _). vm_compute. exact I.
Qed.

(** ** What the command writes *)

Section Guard.
Context {FT : FeedText} (w : CmdWorld).

(** An action that leaves the disk as it is. *)
Definition idle {A} (a : Cmd A) : Prop := forall s, disk (a s).1 = disk s.

Lemma idle_bind {A B} (a : Cmd A) (f : A -> Cmd B) : idle a -> (forall x, idle (f x)) -> idle (a ≫= f).
Proof.
  intros Ha Hf s. specialize (Ha s). unfold mbind, cmd_bind. destruct (a s) as [s1 [x|e]]; cbn in *; [|done]. rewrite Hf. exact Ha.
Qed.

Lemma idle_ret {A} (x : A) : idle (mret x).
Proof. done. Qed.
Lemma idle_lift {A} (r : result CidrError A) : idle (lift r).
Proof. done. Qed.
Lemma idle_fails {A} e : idle (@fails A e).
Proof. done. Qed.
Lemma idle_ask {A} (f : gmap bytes bytes -> A) : idle (on_disk f).
Proof. done. Qed.
Lemma idle_say l : idle (say w l).
Proof. intros s. unfold say. by destruct (io_ok w (ops s)). Qed.
Lemma idle_read p : idle (read_text w p).
Proof. done. Qed.

Lemma idle_say_all ls : idle (say_all w ls).
Proof. induction ls; cbn; [apply idle_ret|]. apply idle_bind; [apply idle_say|done]. Qed.

Lemma idle_write_diffs items : idle (write_diffs w items).
Proof.
  induction items as [|i items IH]; cbn [write_diffs]; [apply idle_ret|]. apply idle_bind; [|done]. unfold write_diff.
  destruct (diff_is_empty _); [apply idle_say|]. apply idle_bind; [apply idle_say|]. intros _.
  apply idle_bind; [apply idle_say_all|]. intros _. apply idle_say_all.
Qed.

Lemma idle_prepare dir jobs : idle (prepare w dir jobs).
Proof.
  induction jobs as [|j jobs IH]; cbn [prepare]; [apply idle_ret|]. apply idle_bind; [apply idle_lift|]. intros fetched. cbv zeta.
  apply idle_bind; [apply idle_ask|]. intros present. apply idle_bind; [destruct present; [apply idle_read|apply idle_ret]|].
  intros text. apply idle_bind; [done|]. intros rest. apply idle_ret.
Qed.

Lemma idle_confirm yes : idle (confirm w yes).
Proof.
  unfold confirm. destruct yes; [apply idle_ret|]. destruct (negb _); [apply idle_fails|]. apply idle_bind; [apply idle_say|]. intros _.
  destruct (answer w); [|apply idle_fails]. destruct (is_yes _); [apply idle_ret|]. apply idle_bind; [apply idle_say|]. intros _. apply idle_ret.
Qed.

(** What is prepared: the list the feeds gave, against the one the snapshot of the edge holds on the disk [d], none when there is no file. *)
Definition prepared_from (d : gmap bytes bytes) (dir : bytes) (job : EdgeJob) (item : PreparedEdge) : Prop :=
  fetch_edge (http w) job = Ok (pe_new item) /\ pe_edge item = job_edge job
  /\ pe_path item = join_path dir (edge_file_name (job_edge job)) /\ pe_old item = cidrs_from_text (default [] (d !! pe_path item))
  /\ pe_diff item = diff_cidrs (pe_old item) (pe_new item).

Lemma cmd_bind_ok {A B} (a : Cmd A) (f : A -> Cmd B) s s' y : (a ≫= f) s = (s', Ok y) -> exists s1 x, a s = (s1, Ok x) /\ f x s1 = (s', Ok y).
Proof. unfold mbind, cmd_bind. destruct (a s) as [s1 [x|e]]; [|done]. intros Hf. by exists s1, x. Qed.

Lemma read_text_ok p s s' text : read_text w p s = (s', Ok text) -> disk s' = disk s /\ disk s !! p = Some text.
Proof. unfold read_text. destruct (disk s !! p) as [x|]; [|done]. destruct (_ && _); [|done]. by intros [= <- <-]. Qed.

(** The snapshot an edge has, empty when there is none. *)
Lemma old_text_ok path s s1 s2 present text : on_disk (fun d => bool_decide (is_Some (d !! path))) s = (s1, Ok present) ->
  (if (present : bool) then read_text w path else mret []) s1 = (s2, Ok text) -> disk s2 = disk s /\ text = default [] (disk s !! path).
Proof.
  unfold on_disk. intros [= <- <-]. case_bool_decide as Hp; intros Ht.
  - apply read_text_ok in Ht as [-> ->]. done.
  - injection Ht as <- <-. rewrite <- eq_None_not_Some in Hp. by rewrite Hp.
Qed.

Lemma prepare_ok d dir jobs : forall s s' items, disk s = d -> prepare w dir jobs s = (s', Ok items) -> Forall2 (prepared_from d dir) jobs items.
Proof.
  induction jobs as [|j jobs IH]; intros s s' items Hd; cbn [prepare]; [intros [= _ <-]; constructor|]. intros Hp.
  apply cmd_bind_ok in Hp as (s1 & fetched & Hf & Hp). apply cmd_bind_ok in Hp as (s2 & present & Hpr & Hp).
  apply cmd_bind_ok in Hp as (s3 & text & Ht & Hp). apply cmd_bind_ok in Hp as (s4 & rest & Hr & Hp). injection Hp as _ <-.
  unfold lift in Hf. injection Hf as <- Hf. destruct (old_text_ok _ _ _ _ _ _ Hpr Ht) as [H3 ->]. rewrite Hd in H3.
  constructor; [by rewrite Hd; repeat split|by eapply IH].
Qed.

(** The operator's consent: the flag, or the answer on a terminal. *)
Definition consents (yes : bool) : Prop := yes = true \/ (is_tty w = true /\ exists line, answer w = Some line /\ is_yes (trim line) = true).

Lemma confirm_ok yes s s' : confirm w yes s = (s', Ok true) -> consents yes.
Proof.
  unfold confirm. destruct yes; [by left|]. destruct (is_tty w) eqn:Et; [|done]. cbn [negb]. intros Hc. right. split; [done|].
  apply cmd_bind_ok in Hc as (s1 & [] & _ & Hc). destruct (answer w) as [line|]; [|done]. exists line. split; [done|].
  destruct (is_yes (trim line)) eqn:E; [done|]. apply cmd_bind_ok in Hc as (s2 & [] & _ & Hc). done.
Qed.

(** What an action may leave at a path it changes. *)
Definition touches {A} (S : bytes -> option bytes -> Prop) (a : Cmd A) : Prop := forall s p,
  disk (a s).1 !! p = disk s !! p \/ S p (disk (a s).1 !! p).

Lemma idle_touches {A} S (a : Cmd A) : idle a -> touches S a.
Proof. intros Ha s p. left. by rewrite Ha. Qed.

Lemma touches_bind {A B} S (a : Cmd A) (f : A -> Cmd B) : touches S a -> (forall x, touches S (f x)) -> touches S (a ≫= f).
Proof.
  intros Ha Hf s p. specialize (Ha s p). unfold mbind, cmd_bind. destruct (a s) as [s1 [x|e]]; cbn in *; [|done].
  destruct (Hf x s1 p) as [->|]; auto.
Qed.

Definition temporary (p : bytes) : Prop := exists q, p = q ++ lit ".tmp".

(** A file is replaced as a whole: at every moment after, it is what it was or the new text. *)
Lemma replace_touches (S : bytes -> option bytes -> Prop) path body :
  (forall p v, temporary p -> S p v) -> S path (Some body) -> touches S (replace_file w path body).
Proof.
  intros Htmp Hbody s p. unfold replace_file, mbind, cmd_bind, write_file. set (tmp := path ++ lit ".tmp").
  destruct (decide (p = tmp)) as [->|Hne]; [right; apply Htmp; by exists path|].
  destruct (io_ok w (ops s)); [|left; cbn; destruct (torn w (ops s)); [by rewrite lookup_insert_ne by done|done]].
  unfold swap_into_place. cbn [disk with_disk]. rewrite lookup_insert_eq.
  destruct (io_ok w _).
  - cbn. destruct (decide (p = path)) as [->|Hp]; [right; by rewrite lookup_insert_eq|left].
    rewrite lookup_insert_ne, lookup_delete_ne, lookup_insert_ne by done. done.
  - left. cbn. destruct (io_ok w _); cbn; rewrite ?lookup_delete_ne, lookup_insert_ne by done; done.
Qed.

(** The snapshot of an edge whose list differs from the one on the disk. *)
Definition snapshot_of (d : gmap bytes bytes) (dir : bytes) (jobs : list EdgeJob) (items : list PreparedEdge) (p : bytes) (v : option bytes) : Prop :=
  exists job item, job ∈ jobs /\ item ∈ items /\ prepared_from d dir job item /\ diff_is_empty (pe_diff item) = false
    /\ p = pe_path item /\ v = Some (render_snapshot (pe_edge item) (today w) (pe_new item)).

Definition snapshots_only d dir jobs items p v : Prop := temporary p \/ snapshot_of d dir jobs items p v.

(** The files the command may change, and what they then hold: the environment file keeps what it held on the disk [d], the trusted line
    merged.  Where the operator named the snapshot itself as environment file, it held what was just written. *)
Definition updated (d : gmap bytes bytes) (dir : bytes) (jobs : list EdgeJob) (env : option bytes) (items : list PreparedEdge) (p : bytes)
    (v : option bytes) : Prop :=
  snapshots_only d dir jobs items p v
  \/ (env = Some p /\ exists before, (d !! p = Some before \/ snapshot_of d dir jobs items p (Some before))
        /\ v = Some (merge_env_trusted before items)).

Lemma snapshots_touch d dir jobs items todo : Forall2 (prepared_from d dir) jobs items -> (forall i, i ∈ todo -> i ∈ items) ->
  touches (snapshots_only d dir jobs items) (write_snapshots w todo).
Proof.
  intros Hf. induction todo as [|i todo IH]; intros Hsub; cbn [write_snapshots]; [apply idle_touches, idle_ret|].
  destruct (diff_is_empty (pe_diff i)) eqn:Ed; [apply IH; intros x Hx; apply Hsub; by right|].
  apply touches_bind; [|intros _; apply touches_bind; [apply idle_touches, idle_say|intros _; apply IH; intros x Hx; apply Hsub; by right]].
  apply replace_touches; [by left|]. right. assert (i ∈ items) as Hi by (apply Hsub; by left).
  apply list_elem_of_lookup in Hi as [n Hn]. destruct (Forall2_lookup_r _ _ _ _ _ Hf Hn) as (job & Hj & Hp).
  exists job, i. apply list_elem_of_lookup_2 in Hj, Hn. done.
Qed.

(** Of the environment file, what it holds when it is read is what is merged. *)
Lemma env_step env items s p : disk (write_env w env items s).1 !! p = disk s !! p \/ temporary p
  \/ (env = Some p /\ exists before, disk s !! p = Some before /\ disk (write_env w env items s).1 !! p = Some (merge_env_trusted before items)).
Proof.
  unfold write_env. destruct env as [path|]; [|by left]. set (after := fun before : bytes => if bool_decide _ then _ else _).
  assert ((read_text w path ≫= after) s = match read_text w path s with (s1, Ok b) => after b s1 | (s1, Err e) => (s1, Err e) end) as -> by done.
  pose proof (idle_read path s) as Hi. destruct (read_text w path s) as [s1 [before|e]] eqn:Er; cbn in Hi; [|left; cbn; by rewrite Hi].
  destruct (read_text_ok _ _ _ _ Er) as [_ Hb]. rewrite <- Hi. unfold after. case_bool_decide; [by left|].
  assert (touches (fun p v => temporary p \/ p = path /\ v = Some (merge_env_trusted before items))
    (_ ← replace_file w path (merge_env_trusted before items); say w (lit "Actualizado TRUSTED_PROXIES em " ++ path ++ lit "."))) as Ht.
  { apply touches_bind; [apply replace_touches; [by left|by right]|intros _; apply idle_touches, idle_say]. }
  destruct (Ht s1 p) as [?|[?|[-> ?]]]; [by left|by (right; left)|]. right. right. split; [done|]. exists before. split; [by rewrite Hi|done].
Qed.

(** The snapshots, then the environment file. *)
Lemma writes_touch d dir jobs env items s p : disk s = d -> Forall2 (prepared_from d dir) jobs items ->
  let s' := ((_ ← write_snapshots w items; write_env w env items) s).1 in
  disk s' !! p = d !! p \/ updated d dir jobs env items p (disk s' !! p).
Proof.
  intros <- Hf. cbv zeta. destruct (snapshots_touch _ _ _ _ items Hf (fun _ H => H) s p) as [Hs|Hs];
    unfold mbind, cmd_bind; destruct (write_snapshots w items s) as [s1 [[]|e]]; cbn in *; [|by left| |by (right; left)].
  - destruct (env_step env items s1 p) as [->|[?|(He & before & Hb & ->)]]; [by left|by (right; left; left)|].
    right. right. split; [done|]. exists before. split; [left; congruence|done].
  - right. destruct (env_step env items s1 p) as [->|[?|(He & before & Hb & ->)]]; [by left|by (left; left)|].
    destruct Hs as [?|Hs]; [by (left; left)|]. right. split; [done|]. exists before. split; [right; by rewrite <- Hb|done].
Qed.

Definition jobs_of (flags : Flags) (override : option (list EdgeJob)) : result CidrError (list EdgeJob) :=
  match override with Some jobs => Ok jobs | None => official_jobs (f_edge flags) end.

(** An idle action either ends there, the disk untouched, or goes on. *)
Lemma idle_then {A B : Type} (K : gmap bytes bytes -> Prop) d (Kd : K d) (a : Cmd A) (f : A -> Cmd B) s0 : idle a -> disk s0 = d ->
  (forall s1 x, a s0 = (s1, Ok x) -> disk s1 = d -> K (disk (f x s1).1)) -> K (disk ((a ≫= f) s0).1).
Proof.
  intros Ha H0 Hf. specialize (Ha s0). unfold mbind, cmd_bind in *. destruct (a s0) as [s1 [x|e]]; cbn in *; [|congruence].
  apply Hf; [done|congruence].
Qed.

(** C22. The command writes only when every feed of every edge it was asked for gave a list and the operator consents; then a file it
    changes is a temporary one, the snapshot of an edge whose fetched list differs from the one the disk held, holding exactly the list that
    was fetched, or the environment file, which holds what it held before with the trusted line merged: the lists of the old snapshots
    replaced by the fetched ones.  Otherwise, whatever fails, the disk is as it was: the last good lists stay. *)
Theorem update_guarded (args : list bytes) (override : option (list EdgeJob)) (s : CmdState) :
  let s' := (run_with w args override s).1 in
  disk s' = disk s
  \/ exists flags jobs items, parse_args args = Ok flags /\ jobs_of flags override = Ok jobs /\ consents (f_yes flags)
     /\ Forall2 (prepared_from (disk s) (default DEFAULT_DIR (f_dir flags))) jobs items
     /\ forall p, disk s' !! p = disk s !! p
                 \/ updated (disk s) (default DEFAULT_DIR (f_dir flags)) jobs (f_env flags) items p (disk s' !! p).
Proof.
  set (K := fun d => d = disk s \/ exists flags jobs items, parse_args args = Ok flags /\ jobs_of flags override = Ok jobs
    /\ consents (f_yes flags) /\ Forall2 (prepared_from (disk s) (default DEFAULT_DIR (f_dir flags))) jobs items
    /\ forall p, d !! p = disk s !! p \/ updated (disk s) (default DEFAULT_DIR (f_dir flags)) jobs (f_env flags) items p (d !! p)).
  change (K (disk (run_with w args override s).1)). assert (K (disk s)) as K0 by (by left).
  pose proof (fun A => @idle_then A unit K (disk s) K0) as step.
  unfold run_with. apply step; [apply idle_lift|done|]. intros s1 flags Hflags H1. unfold lift in Hflags. injection Hflags as Hs1 Hflags. cbv zeta.
  destruct (negb _); [by rewrite idle_fails, H1|]. apply step; [destruct (f_env flags); [|apply idle_ret]; apply idle_bind; [apply idle_ask|]; intros []; done|done|].
  intros s2 [] _ H2. apply step; [destruct override; [apply idle_ret|apply idle_lift]|done|]. intros s3 jobs Hjobs H3.
  apply step; [apply idle_say|done|]. intros s4 [] _ H4. apply step; [apply idle_prepare|done|]. intros s5 items Hitems H5.
  apply step; [apply idle_write_diffs|done|]. intros s6 [] _ H6. destruct (negb (existsb _ _)); [by rewrite idle_say, H6|].
  apply step; [apply idle_confirm|done|]. intros s7 go Hgo H7. destruct go; [|cbn; by rewrite H7]. cbn [negb]. right. exists flags, jobs, items.
  split; [done|]. split; [unfold jobs_of; destruct override; [by injection Hjobs as _ ->|by injection Hjobs as _ ->]|].
  split; [by eapply confirm_ok|]. apply (prepare_ok (disk s)) in Hitems; [|done]. split; [done|]. intros p. by apply writes_touch.
Qed.

End Guard.

(** ** Evaluations *)

Section Evaluations.
(** A list longer than the limit, of which no length is declared, is cut without an error. *)
Lemma oversized_list_cut x : MAX_BODY <= len x -> read_feed [Oidc.NetData x] MAX_BODY = Ok (take (Z.to_nat MAX_BODY) x).
Proof.
  intros Hx. generalize dependent MAX_BODY. intros room Hx. cbn [read_feed]. destruct x as [|b x].
  - destruct (Z.leb_spec room 0); by rewrite take_nil.
  - destruct (Z.leb_spec room 0); [by replace (Z.to_nat room) with 0%nat by lia|]. cbv zeta. unfold at_most.
    destruct (Z.leb_spec (len (b :: x)) room).
    + rewrite take_ge by (unfold len in *; lia). destruct (_ <=? 0); cbn [mbind result_bind]; by rewrite app_nil_r.
    + destruct (_ <=? 0); cbn [mbind result_bind]; by rewrite app_nil_r.
Qed.

Example evaluate_utc_ymd : utc_ymd 0 = lit "1970-01-01" /\ utc_ymd 951782400 = lit "2000-02-29" /\ utc_ymd 4107542400 = lit "2100-03-01".
Proof. vm_compute. repeat split. Qed.

Definition no_feed : FeedText := {| fastly_from_str _ := None |}.
#[local] Existing Instance no_feed.

Definition edge_net (body : string) : Oidc.Net := fun _ _ => Some [Oidc.NetData (lit "HTTP/1.0 200 OK" ++ [13; 10; 13; 10] ++ lit body)].
Definition cf_job : EdgeJob := {| job_edge := Cloudflare; job_urls := [CLOUDFLARE_V4] |}.

(** Cut inside its last line, a list can say more than it did: 10.0.0.0/1 for 10.0.0.0/16. *)
Example cut_list_widens :
  fetch_edge (network_get (edge_net "192.0.2.0/24
10.0.0.0/1")) cf_job = Ok [lit "192.0.2.0/24"; lit "10.0.0.0/1"].
Proof. vm_compute. reflexivity. Qed.

Definition desk (body : string) : CmdWorld := {|
  is_dir _ := true; io_ok _ := true; torn _ := None; http := network_get (edge_net body); answer := None; is_tty := false;
  today := lit "2026-01-01" |}.
Definition stored : CmdState := {|
  disk := {[ lit "d/cloudflare.txt" := render_snapshot Cloudflare (lit "2025-01-01") [lit "198.51.100.0/24"];
             lit ".env" := lit "A=1
TRUSTED_PROXIES=198.51.100.0/24,10.1.0.0/16
" ]}; printed := []; ops := 0 |}.
Definition update_args : list bytes := map lit ["update"; "--yes"; "--dir=d"; "--env"; ".env"].

Example evaluate_update :
  let s := (run_with (desk "192.0.2.0/24
") update_args (Some [cf_job]) stored).1 in
  disk s !! lit "d/cloudflare.txt" = Some (render_snapshot Cloudflare (lit "2026-01-01") [lit "192.0.2.0/24"])
  /\ disk s !! lit ".env" = Some (lit "A=1
TRUSTED_PROXIES=10.1.0.0/16,192.0.2.0/24
")
  /\ (run_with (desk "not a network") update_args (Some [cf_job]) stored).2 = Err (BadLine 1 (InvalidIp (lit "not a network"))).
Proof. cbv zeta. split; [vm_compute; reflexivity|]. split; vm_compute; reflexivity. Qed.

Definition cf_item : PreparedEdge := {|
  pe_edge := Cloudflare; pe_path := lit "d/cloudflare.txt"; pe_old := [lit "198.51.100.0/24"]; pe_new := [lit "192.0.2.0/24"];
  pe_diff := diff_cidrs [lit "198.51.100.0/24"] [lit "192.0.2.0/24"] |}.

Lemma trusted_line_merged_witness :
  NoDup (trusted_line (merge_env_trusted (lit "TRUSTED_PROXIES=198.51.100.0/24,10.1.0.0/16") [cf_item]))
  /\ trusted_line (merge_env_trusted (lit "TRUSTED_PROXIES=198.51.100.0/24,10.1.0.0/16") [cf_item]) = [lit "10.1.0.0/16"; lit "192.0.2.0/24"].
Proof.
  split; [|vm_compute; reflexivity].
  refine (proj1 (trusted_line_merged (lit "TRUSTED_PROXIES=198.51.100.0/24,10.1.0.0/16") [cf_item] _ _)).
  - apply (bool_decide_unpack _). vm_compute. exact I.
  - constructor; [|constructor]. constructor; [vm_compute; reflexivity|discriminate|..]; apply (bool_decide_unpack _); vm_compute; exact I.
Defined.
End Evaluations.
