(* ===== verification/Metrics.v ===== *)
(** * Metrics ([src/metrics.rs])

    The counters, the rings of recent events of each site, and the two exports.  The counters are 64-bit and wrap.  The iteration order of
    the table of rings is the class [MapOrder]; the time of an event is an input.  Calls
    are atomic steps, and locks are not poisoned. *)

From S2P Require Import Prelude Text Net Window Shield Json Cidrs Dashboard.

(** [src/metrics.rs: const MAX_EVENTS_PER_SITE + const UNSCOPED_SITE] *)
Definition MAX_EVENTS_PER_SITE : Z := 50.
Definition UNSCOPED_SITE : bytes := lit "__unscoped__".

(** The counters, by the names of their fields. *)
Inductive Counter : Set :=
| requests_total | blocked_sqli | blocked_xss | blocked_path_traversal | blocked_rate_limit | blocked_sensitive_path
| blocked_body_sqli | blocked_body_xss | blocked_method | blocked_size_limit | blocked_host | blocked_crlf | blocked_smuggling
| blocked_jndi | blocked_bad_bot | blocked_behavioral_throttle | blocked_behavioral_block | blocked_waf_incomplete
| blocked_inspection_parse_error | blocked_header_limit | blocked_concurrency_limit | blocked_connection_limit
| blocked_request_buffer_limit | blocked_spool_limit | blocked_waf_l1 | blocked_openapi | blocked_jwt | blocked_jwt_binding
| blocked_authz | blocked_graphql | blocked_grpc | blocked_dlp_partial | blocked_origin_unavailable | blocked_abuse
| https_redirect | waf_inspection_complete | waf_inspection_truncated | waf_inspection_unsupported_encoding
| waf_inspection_unsupported_content_type | waf_inspection_parse_error | waf_inspection_budget_exceeded
| waf_inspection_timed_out | waf_engine_unavailable | authz_unavailable | waf_l1_shadow | openapi_observed | waf_monitored
| dlp_cpf_masked | dlp_cnpj_masked | dlp_card_masked | dlp_tokens_masked | protocol_deny | protocol_monitor | protocol_bypass
| protocol_quarantine | policy_reload_accepted | policy_reload_rejected | otel_export_failed.
#[export] Instance Counter_eq_dec : EqDecision Counter.
Proof. solve_decision. Defined.

(** [src/metrics.rs: struct SecurityEvent] *)
Record SecurityEvent : Type := {
  timestamp : bytes; event_type : bytes; client_ip : bytes; uri : bytes; detail : bytes; site_scope : bytes }.
(** [src/metrics.rs: struct StoredEvent] *)
Record StoredEvent : Type := { seq : Z; event : SecurityEvent }.

(** [src/metrics.rs: struct Metrics] *)
Record Metrics : Type := {
  counts : Counter -> Z; spool_bytes : Z; policy_version : bytes; policy_signed : bool; protocol_by_id : gmap (bytes * bytes) Z;
  events_by_site : gmap bytes (list StoredEvent); event_seq : Z }.

(** [src/metrics.rs: Metrics::new] *)
Definition metrics_new : Metrics := {|
  counts _ := 0; spool_bytes := 0; policy_version := []; policy_signed := false; protocol_by_id := ∅; events_by_site := ∅; event_seq := 0 |}.

(** [fetch_add] *)
Definition bump (c : Counter) (n : Z) (m : Metrics) : Metrics := {|
  counts c' := if decide (c' = c) then (counts m c + n) mod 2 ^ 64 else counts m c';
  spool_bytes := spool_bytes m; policy_version := policy_version m; policy_signed := policy_signed m; protocol_by_id := protocol_by_id m;
  events_by_site := events_by_site m; event_seq := event_seq m |}.

(** [src/metrics.rs: fn normalize_site] *)
Definition normalize_site (scope : bytes) : bytes :=
  let trimmed := trim scope in if is_empty trimmed then UNSCOPED_SITE else to_ascii_lowercase trimmed.

(** [ring.pop_front()] on a full ring, then [push_back]. *)
Definition push_ring (ring : list StoredEvent) (e : StoredEvent) : list StoredEvent :=
  (if MAX_EVENTS_PER_SITE <=? len ring then tail ring else ring) ++ [e].

Definition scoped (site : bytes) (e : SecurityEvent) : SecurityEvent := {|
  timestamp := timestamp e; event_type := event_type e; client_ip := client_ip e; uri := uri e; detail := detail e; site_scope := site |}.

(** [src/metrics.rs: Metrics::push_event] *)
Definition push_event (scope : bytes) (e : SecurityEvent) (m : Metrics) : Metrics :=
  let site := normalize_site scope in
  let ring := default [] (events_by_site m !! site) in
  {| counts := counts m; spool_bytes := spool_bytes m; policy_version := policy_version m; policy_signed := policy_signed m;
     protocol_by_id := protocol_by_id m;
     events_by_site := <[site := push_ring ring {| seq := event_seq m; event := scoped site e |}]> (events_by_site m);
     event_seq := (event_seq m + 1) mod 2 ^ 64 |}.

(** [src/metrics.rs: Metrics::snapshot_events] *)
Definition snapshot_events {MO : MapOrder bytes (list StoredEvent)} (m : Metrics) : list SecurityEvent :=
  map event (sort_by_key (fun s => - seq s) (flat_map snd (iter_order (events_by_site m)))).

(** [src/metrics.rs: fn epoch_days_to_date] *)
Definition epoch_days_to_date (days : Z) : Z * Z * Z :=
  let z := days + 719468 in
  let era := z / 146097 in
  let doe := z - era * 146097 in
  let yoe := (doe - doe / 1460 + doe / 36524 - doe / 146096) / 365 in
  let y := yoe + era * 400 in
  let doy := doe - (365 * yoe + yoe / 4 - yoe / 100) in
  let mp := (5 * doy + 2) / 153 in
  let d := doy - (153 * mp + 2) / 5 + 1 in
  let m := if mp <? 10 then mp + 3 else mp - 9 in
  (if m <=? 2 then y + 1 else y, m, d).

(** [src/metrics.rs: fn now_iso] *)
Definition now_iso (secs : Z) : bytes :=
  let rem := secs mod 86400 in
  let '(y, m, d) := epoch_days_to_date (secs / 86400) in
  padded 4 y ++ lit "-" ++ padded 2 m ++ lit "-" ++ padded 2 d ++ lit "T" ++ padded 2 (rem / 3600) ++ lit ":"
  ++ padded 2 (rem mod 3600 / 60) ++ lit ":" ++ padded 2 (rem mod 60) ++ lit "Z".

(** ** Recording *)

Definition new_event (now : Z) (type client uri detail : bytes) : SecurityEvent := {|
  timestamp := now_iso now; event_type := type; client_ip := client; uri := uri; detail := detail; site_scope := [] |}.

(** The counter of each kind of refusal. *)
Definition BLOCK_COUNTERS : list (string * Counter) :=
  [("sqli", blocked_sqli); ("xss", blocked_xss); ("path_traversal", blocked_path_traversal); ("rate_limit", blocked_rate_limit);
   ("sensitive_path", blocked_sensitive_path); ("body_sqli", blocked_body_sqli); ("body_xss", blocked_body_xss);
   ("method", blocked_method); ("size_limit", blocked_size_limit); ("host", blocked_host); ("crlf", blocked_crlf);
   ("smuggling", blocked_smuggling); ("jndi", blocked_jndi); ("bad_bot", blocked_bad_bot);
   ("behavioral_throttle", blocked_behavioral_throttle); ("behavioral_block", blocked_behavioral_block);
   ("waf_incomplete", blocked_waf_incomplete); ("inspection_parse_error", blocked_inspection_parse_error);
   ("header_limit", blocked_header_limit); ("concurrency_limit", blocked_concurrency_limit);
   ("connection_limit", blocked_connection_limit); ("request_buffer_limit", blocked_request_buffer_limit);
   ("spool_limit", blocked_spool_limit); ("waf_l1", blocked_waf_l1); ("openapi", blocked_openapi); ("jwt", blocked_jwt);
   ("jwt_binding", blocked_jwt_binding); ("authz", blocked_authz); ("graphql", blocked_graphql); ("grpc", blocked_grpc);
   ("dlp_partial_block", blocked_dlp_partial); ("503", blocked_origin_unavailable); ("abuse", blocked_abuse);
   ("https_redirect", https_redirect)].

Definition counter_named (l : list (string * Counter)) (name : bytes) : option Counter := snd <$> List.find (fun p => name =s lit p.1) l.

(** [src/metrics.rs: fn increment_requests] *)
Definition increment_requests (m : Metrics) : Metrics := bump requests_total 1 m.

(** [src/metrics.rs: fn record_block_in] *)
Definition record_block_in (now : Z) (scope type client uri detail : bytes) (m : Metrics) : Metrics :=
  match counter_named BLOCK_COUNTERS type with
  | None => m
  | Some c => push_event scope (new_event now type client uri detail) (bump c 1 m)
  end.
(** [src/metrics.rs: fn record_block] *)
Definition record_block (now : Z) (type client uri detail : bytes) : Metrics -> Metrics :=
  record_block_in now UNSCOPED_SITE type client uri detail.

(** The counter and the kind of event of each protocol action. *)
Definition PROTOCOL_ACTIONS : list (string * Counter) :=
  [("deny", protocol_deny); ("monitor", protocol_monitor); ("bypass-explicit", protocol_bypass); ("quarantine", protocol_quarantine)].
Definition protocol_event (action : bytes) : bytes :=
  if action =s "quarantine" then lit "quarantine"
  else if action =s "bypass-explicit" then lit "protocol_bypass"
  else lit "protocol_" ++ action.

Definition bump_protocol (key : bytes * bytes) (m : Metrics) : Metrics := {|
  counts := counts m; spool_bytes := spool_bytes m; policy_version := policy_version m; policy_signed := policy_signed m;
  protocol_by_id := <[key := (default 0 (protocol_by_id m !! key) + 1) mod 2 ^ 64]> (protocol_by_id m);
  events_by_site := events_by_site m; event_seq := event_seq m |}.

(** [src/metrics.rs: fn record_protocol_in] *)
Definition record_protocol_in (now : Z) (scope id action client uri detail : bytes) (m : Metrics) : Metrics :=
  match counter_named PROTOCOL_ACTIONS action with
  | None => m
  | Some c => push_event scope (new_event now (protocol_event action) client uri detail) (bump_protocol (id, action) (bump c 1 m))
  end.
(** [src/metrics.rs: fn record_protocol] *)
Definition record_protocol (now : Z) (id action client uri detail : bytes) : Metrics -> Metrics :=
  record_protocol_in now UNSCOPED_SITE id action client uri detail.

Definition INSPECTION_COUNTERS : list (string * Counter) :=
  [("complete", waf_inspection_complete); ("truncated", waf_inspection_truncated); ("unsupported_encoding", waf_inspection_unsupported_encoding);
   ("unsupported_content_type", waf_inspection_unsupported_content_type); ("parse_error", waf_inspection_parse_error);
   ("budget_exceeded", waf_inspection_budget_exceeded); ("timed_out", waf_inspection_timed_out)].

(** [src/metrics.rs: fn record_waf_inspection] *)
Definition record_waf_inspection (status : bytes) (m : Metrics) : Metrics :=
  match counter_named INSPECTION_COUNTERS status with Some c => bump c 1 m | None => m end.

Definition OBSERVED : list string :=
  ["dlp_skip"; "range_removed"; "inspection_parse_error"; "inspection_timeout"; "inspection_budget"; "waf_incomplete";
   "waf_engine_unavailable"; "authz_unavailable"].

(** [src/metrics.rs: fn record_observation_in] *)
Definition record_observation_in (now : Z) (scope type client uri detail : bytes) (m : Metrics) : Metrics :=
  let push := push_event scope (new_event now type client uri detail) in
  if type =s "waf_monitor" then push (bump waf_monitored 1 m)
  else if type =s "waf_l1_shadow" then push (bump waf_monitored 1 (bump waf_l1_shadow 1 m))
  else if type =s "openapi_observe" then push (bump openapi_observed 1 m)
  else if negb (one_of type OBSERVED) then m
  else push m.
(** [src/metrics.rs: fn record_observation] *)
Definition record_observation (now : Z) (type client uri detail : bytes) : Metrics -> Metrics :=
  record_observation_in now UNSCOPED_SITE type client uri detail.

(** [src/metrics.rs: fn record_waf_engine_unavailable] *)
Definition record_waf_engine_unavailable (now : Z) (scope client uri detail : bytes) (m : Metrics) : Metrics :=
  record_observation_in now scope (lit "waf_engine_unavailable") client uri detail (bump waf_engine_unavailable 1 m).
(** [src/metrics.rs: fn record_authz_unavailable] *)
Definition record_authz_unavailable (now : Z) (scope client uri detail : bytes) (m : Metrics) : Metrics :=
  record_observation_in now scope (lit "authz_unavailable") client uri detail (bump authz_unavailable 1 m).
(** [src/metrics.rs: fn record_l1_shadow] *)
Definition record_l1_shadow (now : Z) (scope client uri detail : bytes) : Metrics -> Metrics :=
  record_observation_in now scope (lit "waf_l1_shadow") client uri detail.
(** [src/metrics.rs: fn record_otel_export_failed] *)
Definition record_otel_export_failed (m : Metrics) : Metrics := bump otel_export_failed 1 m.

(** [src/metrics.rs: fn set_spool_bytes] *)
Definition set_spool_bytes (n : Z) (m : Metrics) : Metrics := {|
  counts := counts m; spool_bytes := n; policy_version := policy_version m; policy_signed := policy_signed m;
  protocol_by_id := protocol_by_id m; events_by_site := events_by_site m; event_seq := event_seq m |}.
(** [src/metrics.rs: fn set_policy_version] *)
Definition set_policy_version (version : bytes) (signed : bool) (m : Metrics) : Metrics := {|
  counts := counts m; spool_bytes := spool_bytes m; policy_version := version; policy_signed := signed;
  protocol_by_id := protocol_by_id m; events_by_site := events_by_site m; event_seq := event_seq m |}.
(** [src/metrics.rs: fn policy_info] *)
Definition policy_info (m : Metrics) : bytes * bool := (policy_version m, policy_signed m).

(** [src/metrics.rs: fn record_policy_reload] *)
Definition record_policy_reload (now : Z) (accepted : bool) (detail : bytes) (m : Metrics) : Metrics :=
  let m := bump (if accepted then policy_reload_accepted else policy_reload_rejected) 1 m in
  push_event UNSCOPED_SITE
    (new_event now (if accepted then lit "policy_reload" else lit "policy_reload_rejected") (lit "-") (lit "-") detail) m.

(** [src/metrics.rs: fn record_dlp] *)
Definition record_dlp (now cpf cnpj card token : Z) (verb : bytes) (fields : list bytes) (m : Metrics) : Metrics :=
  let add c n m := if 0 <? n then bump c n m else m in
  let m := add dlp_tokens_masked token (add dlp_card_masked card (add dlp_cnpj_masked cnpj (add dlp_cpf_masked cpf m))) in
  if (0 <? cpf) || (0 <? cnpj) || (0 <? card) || (0 <? token) then
    push_event UNSCOPED_SITE (new_event now (lit "dlp") (lit "-") (lit "-")
      (verb ++ lit " " ++ show_dec cpf ++ lit " CPFs, " ++ show_dec cnpj ++ lit " CNPJs, " ++ show_dec card ++ lit " cards, "
       ++ show_dec token ++ lit " tokens"
       ++ (if is_empty fields then [] else lit "; campos " ++ join (lit ", ") fields))) m
  else m.

(** ** Exports *)

Definition number (n : Z) : JsonValue := JNumber (show_dec n).
Definition event_json (e : SecurityEvent) : JsonValue := JObject
  [(lit "timestamp", JString (timestamp e)); (lit "event_type", JString (event_type e)); (lit "client_ip", JString (client_ip e));
   (lit "uri", JString (uri e)); (lit "detail", JString (detail e)); (lit "site_scope", JString (site_scope e))].

(** The refusals, by the names of the exports. *)
Definition JSON_BLOCKS : list (string * Counter) :=
  [("sqli", blocked_sqli); ("xss", blocked_xss); ("path_traversal", blocked_path_traversal); ("rate_limit", blocked_rate_limit);
   ("sensitive_path", blocked_sensitive_path); ("body_sqli", blocked_body_sqli); ("body_xss", blocked_body_xss);
   ("method", blocked_method); ("size_limit", blocked_size_limit); ("host", blocked_host); ("crlf", blocked_crlf);
   ("smuggling", blocked_smuggling); ("jndi", blocked_jndi); ("bad_bot", blocked_bad_bot);
   ("behavioral_throttle", blocked_behavioral_throttle); ("behavioral_block", blocked_behavioral_block);
   ("waf_incomplete", blocked_waf_incomplete); ("inspection_parse_error", blocked_inspection_parse_error);
   ("header_limit", blocked_header_limit); ("concurrency_limit", blocked_concurrency_limit);
   ("connection_limit", blocked_connection_limit); ("request_buffer_limit", blocked_request_buffer_limit);
   ("spool_limit", blocked_spool_limit); ("waf_l1", blocked_waf_l1); ("openapi", blocked_openapi); ("jwt", blocked_jwt);
   ("jwt_binding", blocked_jwt_binding); ("authz", blocked_authz); ("graphql", blocked_graphql); ("grpc", blocked_grpc);
   ("dlp_partial_block", blocked_dlp_partial); ("origin_unavailable", blocked_origin_unavailable); ("abuse", blocked_abuse)].
Definition PROMETHEUS_BLOCKS : list (string * Counter) :=
  [("sqli", blocked_sqli); ("xss", blocked_xss); ("path_traversal", blocked_path_traversal); ("rate_limit", blocked_rate_limit);
   ("sensitive_path", blocked_sensitive_path); ("body_sqli", blocked_body_sqli); ("body_xss", blocked_body_xss);
   ("method", blocked_method); ("size_limit", blocked_size_limit); ("header_limit", blocked_header_limit);
   ("host", blocked_host); ("crlf", blocked_crlf); ("smuggling", blocked_smuggling); ("jndi", blocked_jndi);
   ("bad_bot", blocked_bad_bot); ("behavioral_throttle", blocked_behavioral_throttle);
   ("behavioral_block", blocked_behavioral_block); ("waf_incomplete", blocked_waf_incomplete);
   ("inspection_parse_error", blocked_inspection_parse_error); ("concurrency_limit", blocked_concurrency_limit);
   ("connection_limit", blocked_connection_limit); ("request_buffer_limit", blocked_request_buffer_limit);
   ("spool_limit", blocked_spool_limit); ("waf_l1", blocked_waf_l1); ("openapi", blocked_openapi); ("jwt", blocked_jwt);
   ("jwt_binding", blocked_jwt_binding); ("authz", blocked_authz); ("graphql", blocked_graphql); ("grpc", blocked_grpc);
   ("dlp_partial_block", blocked_dlp_partial); ("origin_unavailable", blocked_origin_unavailable); ("abuse", blocked_abuse)].

Section Exports.
Context {MO : MapOrder bytes (list StoredEvent)} {PJ : PrettyJson}.

(** [src/metrics.rs: fn snapshot_json] *)
Definition snapshot_json (m : Metrics) : bytes :=
  let obj l := JObject (map (fun p => (lit p.1, number (counts m p.2))) l) in
  let one (name : string) (c : Counter) := (lit name, number (counts m c)) in
  default (lit "{}") (to_string_pretty (JObject
    [(lit "policy_version", JString (policy_version m)); (lit "policy_signed", JBool (policy_signed m));
     (lit "policy_reload", obj [("accepted", policy_reload_accepted); ("rejected", policy_reload_rejected)]);
     one "requests_total" requests_total; (lit "blocked", obj JSON_BLOCKS); (lit "waf_inspection", obj INSPECTION_COUNTERS);
     one "waf_engine_unavailable" waf_engine_unavailable; one "authz_unavailable" authz_unavailable; one "waf_l1_shadow" waf_l1_shadow;
     one "openapi_observed" openapi_observed; one "waf_monitored" waf_monitored; one "https_redirect" https_redirect;
     (lit "dlp", obj [("cpf_masked", dlp_cpf_masked); ("cnpj_masked", dlp_cnpj_masked); ("card_masked", dlp_card_masked);
                      ("tokens_masked", dlp_tokens_masked)]);
     (lit "protocol", obj [("deny", protocol_deny); ("monitor", protocol_monitor); ("bypass_explicit", protocol_bypass);
                           ("quarantine", protocol_quarantine)]);
     (lit "recent_events", JArray (map event_json (snapshot_events m)))])).
End Exports.

(** The order of strings, and of pairs of them. *)
Fixpoint bytes_leb (a b : bytes) : bool :=
  match a, b with [], _ => true | _, [] => false | x :: a, y :: b => (x <? y) || ((x =? y) && bytes_leb a b) end.
Definition row_leb (a b : bytes * bytes * Z) : bool :=
  let '((i, x), _) := a in let '((j, y), _) := b in if i =s j then bytes_leb x y else bytes_leb i j.
Fixpoint insert_row (r : bytes * bytes * Z) (l : list (bytes * bytes * Z)) : list (bytes * bytes * Z) :=
  match l with [] => [r] | x :: l' => if row_leb r x then r :: l else x :: insert_row r l' end.

Definition QUOTE : bytes := [34].

(** [src/metrics.rs: fn snapshot_prometheus] *)
Definition snapshot_prometheus (m : Metrics) : bytes :=
  let line (s n : bytes) := s ++ lit " " ++ n ++ nl in
  let typed (name kind : string) := lit "# TYPE " ++ lit name ++ lit " " ++ lit kind ++ nl in
  let label (k : string) (v : bytes) := lit k ++ lit "=" ++ QUOTE ++ v ++ QUOTE in
  let rows (name key : string) l :=
    flat_map (fun p : string * Counter => line (lit name ++ lit "{" ++ label key (lit p.1) ++ lit "}") (show_dec (counts m p.2))) l in
  let one (name : string) c := typed name "counter" ++ line (lit name) (show_dec (counts m c)) in
  one "ferroada_requests_total" requests_total
  ++ typed "ferroada_blocks_total" "counter" ++ rows "ferroada_blocks_total" "type" PROMETHEUS_BLOCKS
  ++ typed "ferroada_waf_inspection_total" "counter" ++ rows "ferroada_waf_inspection_total" "status" INSPECTION_COUNTERS
  ++ one "ferroada_waf_engine_unavailable_total" waf_engine_unavailable ++ one "ferroada_authz_unavailable_total" authz_unavailable
  ++ one "ferroada_waf_l1_shadow_total" waf_l1_shadow ++ one "ferroada_openapi_observed_total" openapi_observed
  ++ typed "ferroada_protocol_total" "counter" ++ rows "ferroada_protocol_total" "action" PROTOCOL_ACTIONS
  ++ flat_map (fun r => let '((id, action), n) := r in
       line (lit "ferroada_protocol_total{" ++ label "id" id ++ lit "," ++ label "action" action ++ lit "}") (show_dec n))
       (foldr insert_row [] (map_to_list (protocol_by_id m)))
  ++ typed "ferroada_policy_info" "gauge"
  ++ line (lit "ferroada_policy_info{" ++ label "version" (policy_version m) ++ lit ","
           ++ label "signed" (if policy_signed m then lit "true" else lit "false") ++ lit "}") (lit "1")
  ++ typed "ferroada_policy_reload_total" "counter"
  ++ rows "ferroada_policy_reload_total" "result" [("accepted", policy_reload_accepted); ("rejected", policy_reload_rejected)]
  ++ typed "ferroada_inspection_outcome_total" "counter" ++ rows "ferroada_inspection_outcome_total" "inspection_outcome" INSPECTION_COUNTERS
  ++ typed "ferroada_spool_bytes" "gauge" ++ line (lit "ferroada_spool_bytes") (show_dec (spool_bytes m))
  ++ one "ferroada_otel_export_failed_total" otel_export_failed.

(** ** What the exports show *)

(** The calls of the components, with the second they are made in. *)
Inductive Call : Type :=
| CRequest
| CBlock (scope type client uri detail : bytes)
| CProtocol (scope id action client uri detail : bytes)
| CInspection (status : bytes)
| CObservation (scope type client uri detail : bytes)
| CEngineUnavailable (scope client uri detail : bytes)
| CAuthzUnavailable (scope client uri detail : bytes)
| CShadow (scope client uri detail : bytes)
| COtelFailed
| CSpoolBytes (n : Z)
| CPolicyVersion (version : bytes) (signed : bool)
| CReload (accepted : bool) (detail : bytes)
| CDlp (cpf cnpj card token : Z) (verb : bytes) (fields : list bytes).

Definition record_call (c : Z * Call) (m : Metrics) : Metrics :=
  let now := c.1 in
  match c.2 with
  | CRequest => increment_requests m
  | CBlock scope type client uri detail => record_block_in now scope type client uri detail m
  | CProtocol scope id action client uri detail => record_protocol_in now scope id action client uri detail m
  | CInspection status => record_waf_inspection status m
  | CObservation scope type client uri detail => record_observation_in now scope type client uri detail m
  | CEngineUnavailable scope client uri detail => record_waf_engine_unavailable now scope client uri detail m
  | CAuthzUnavailable scope client uri detail => record_authz_unavailable now scope client uri detail m
  | CShadow scope client uri detail => record_l1_shadow now scope client uri detail m
  | COtelFailed => record_otel_export_failed m
  | CSpoolBytes n => set_spool_bytes n m
  | CPolicyVersion version signed => set_policy_version version signed m
  | CReload accepted detail => record_policy_reload now accepted detail m
  | CDlp cpf cnpj card token verb fields => record_dlp now cpf cnpj card token verb fields m
  end.

Definition record_calls (calls : list (Z * Call)) (m : Metrics) : Metrics := fold_left (fun m c => record_call c m) calls m.

(** The event a call leaves, with its site: nothing for a kind that is not known. *)
Definition event_of (c : Z * Call) : option (bytes * SecurityEvent) :=
  let now := c.1 in
  let at_site scope e := Some (normalize_site scope, scoped (normalize_site scope) e) in
  match c.2 with
  | CBlock scope type client uri detail =>
      if bool_decide (is_Some (counter_named BLOCK_COUNTERS type)) then at_site scope (new_event now type client uri detail) else None
  | CProtocol scope id action client uri detail =>
      if bool_decide (is_Some (counter_named PROTOCOL_ACTIONS action))
      then at_site scope (new_event now (protocol_event action) client uri detail) else None
  | CObservation scope type client uri detail =>
      if one_of type (["waf_monitor"; "waf_l1_shadow"; "openapi_observe"] ++ OBSERVED) then at_site scope (new_event now type client uri detail) else None
  | CEngineUnavailable scope client uri detail => at_site scope (new_event now (lit "waf_engine_unavailable") client uri detail)
  | CAuthzUnavailable scope client uri detail => at_site scope (new_event now (lit "authz_unavailable") client uri detail)
  | CShadow scope client uri detail => at_site scope (new_event now (lit "waf_l1_shadow") client uri detail)
  | CReload accepted detail =>
      at_site UNSCOPED_SITE (new_event now (if accepted then lit "policy_reload" else lit "policy_reload_rejected") (lit "-") (lit "-") detail)
  | CDlp cpf cnpj card token verb fields =>
      if (0 <? cpf) || (0 <? cnpj) || (0 <? card) || (0 <? token) then
        at_site UNSCOPED_SITE (new_event now (lit "dlp") (lit "-") (lit "-")
          (verb ++ lit " " ++ show_dec cpf ++ lit " CPFs, " ++ show_dec cnpj ++ lit " CNPJs, " ++ show_dec card ++ lit " cards, "
           ++ show_dec token ++ lit " tokens" ++ (if is_empty fields then [] else lit "; campos " ++ join (lit ", ") fields)))
      else None
  | CRequest | CInspection _ | COtelFailed | CSpoolBytes _ | CPolicyVersion _ _ => None
  end.

Abbreviation History := (list (bytes * SecurityEvent)).
Definition history (calls : list (Z * Call)) : History := omap event_of calls.

Definition of_site (site : bytes) (h : History) : History := base.filter (fun x => x.1 = site) h.

(** The events to show, the newest first: an event stays until fifty later ones of its own site. *)
Fixpoint recent (h : History) : list SecurityEvent :=
  match h with
  | [] => []
  | (site, e) :: h => recent h ++ (if len (of_site site h) <? MAX_EVENTS_PER_SITE then [e] else [])
  end.

(** *** The rings *)

Definition add_oldest (site : bytes) (x : StoredEvent) (m : gmap bytes (list StoredEvent)) : gmap bytes (list StoredEvent) :=
  <[site := x :: row m site]> m.
Definition add_newest (site : bytes) (x : StoredEvent) (m : gmap bytes (list StoredEvent)) : gmap bytes (list StoredEvent) :=
  <[site := push_ring (row m site) x]> m.

(** The rings of a history whose first event has the number [k]. *)
Fixpoint rings (k : Z) (h : History) : gmap bytes (list StoredEvent) :=
  match h with
  | [] => ∅
  | (site, e) :: h =>
      if len (of_site site h) <? MAX_EVENTS_PER_SITE then add_oldest site {| seq := k; event := e |} (rings (k + 1) h) else rings (k + 1) h
  end.

Lemma of_site_cons site x h : of_site site (x :: h) = if decide (x.1 = site) then x :: of_site site h else of_site site h.
Proof. unfold of_site. rewrite filter_cons. done. Qed.

Lemma of_site_snoc site x h : len (of_site site (h ++ [x])) = len (of_site site h) + (if decide (x.1 = site) then 1 else 0).
Proof. unfold of_site. rewrite filter_app. unfold len. rewrite length_app, filter_cons, filter_nil. case_decide; cbn; lia. Qed.

Lemma rings_length h : forall k site, len (row (rings k h) site) = Z.min MAX_EVENTS_PER_SITE (len (of_site site h)).
Proof.
  induction h as [|[s e] h IH]; intros k site; [done|]. cbn [rings]. rewrite of_site_cons. cbn [fst].
  destruct (Z.ltb_spec (len (of_site s h)) MAX_EVENTS_PER_SITE) as [Hl|Hl].
  - unfold add_oldest. rewrite row_insert. case_decide as Hs; [subst|by apply IH]. rewrite !len_cons, IH. lia.
  - rewrite IH. case_decide as Hs; [subst|done]. rewrite len_cons. lia.
Qed.

Lemma rings_snoc h : forall k site e, rings k (h ++ [(site, e)]) = add_newest site {| seq := k + len h; event := e |} (rings k h).
Proof.
  induction h as [|[s x] h IH]; intros k site e.
  - cbn [app rings]. change (len (of_site site [])) with 0. unfold add_oldest, add_newest, row. rewrite lookup_empty. cbn. by rewrite Z.add_0_r.
  - cbn [app rings]. rewrite IH, of_site_snoc, len_cons. cbn [fst]. replace (k + 1 + len h) with (k + (1 + len h)) by lia.
    set (y := {| seq := k + (1 + len h); event := e |}). set (R := rings (k + 1) h). set (z := {| seq := k; event := x |}).
    pose proof (rings_length h (k + 1) s) as HR. fold R in HR. case_decide as Hs.
    + subst site. unfold add_oldest, add_newest. destruct (Z.ltb_spec (len (of_site s h)) MAX_EVENTS_PER_SITE) as [H1|H1];
        destruct (Z.ltb_spec (len (of_site s h) + 1) MAX_EVENTS_PER_SITE) as [H2|H2]; try lia; [| |done].
      * rewrite !row_insert, !decide_True, !insert_insert_eq by done. f_equal. unfold push_ring. rewrite len_cons.
        destruct (Z.leb_spec MAX_EVENTS_PER_SITE (len (row R s))); [lia|]. destruct (Z.leb_spec MAX_EVENTS_PER_SITE (1 + len (row R s))); [lia|]. done.
      * rewrite row_insert, decide_True, insert_insert_eq by done. f_equal. unfold push_ring. rewrite len_cons.
        destruct (Z.leb_spec MAX_EVENTS_PER_SITE (len (row R s))); [lia|]. destruct (Z.leb_spec MAX_EVENTS_PER_SITE (1 + len (row R s))); [done|lia].
    + rewrite Z.add_0_r. destruct (_ <? _); [|done]. unfold add_oldest, add_newest. rewrite !row_insert, !decide_False by congruence.
      apply insert_insert_ne. congruence.
Qed.

(** *** The recordings *)

Lemma push_rings scope e m : events_by_site (push_event scope e m)
    = add_newest (normalize_site scope) {| seq := event_seq m; event := scoped (normalize_site scope) e |} (events_by_site m)
  /\ event_seq (push_event scope e m) = (event_seq m + 1) mod 2 ^ 64.
Proof. done. Qed.

(** The part of the state the events are kept in. *)
Definition book (m : Metrics) : gmap bytes (list StoredEvent) * Z := (events_by_site m, event_seq m).
Definition noted (o : option (bytes * SecurityEvent)) (b : gmap bytes (list StoredEvent) * Z) : gmap bytes (list StoredEvent) * Z :=
  match o with
  | Some (site, e) => (add_newest site {| seq := b.2; event := e |} b.1, (b.2 + 1) mod 2 ^ 64)
  | None => b
  end.

Lemma push_noted scope e m m' : book m' = book m ->
  book (push_event scope e m') = noted (Some (normalize_site scope, scoped (normalize_site scope) e)) (book m).
Proof. unfold book, noted. intros [= <- <-]. done. Qed.

Lemma observe_noted now scope type client uri detail m m' : book m' = book m ->
  book (record_observation_in now scope type client uri detail m') = noted (event_of (now, CObservation scope type client uri detail)) (book m).
Proof.
  intros Hb. unfold record_observation_in, event_of. cbv zeta. cbn [fst snd].
  assert (one_of type (["waf_monitor"; "waf_l1_shadow"; "openapi_observe"] ++ OBSERVED)
          = (type =s "waf_monitor") || ((type =s "waf_l1_shadow") || ((type =s "openapi_observe") || one_of type OBSERVED))) as -> by reflexivity.
  destruct (type =s "waf_monitor"); [by apply push_noted|]. destruct (type =s "waf_l1_shadow"); [by apply push_noted|].
  destruct (type =s "openapi_observe"); [by apply push_noted|]. cbn [orb]. destruct (one_of type OBSERVED); [by apply push_noted|done].
Qed.

Lemma call_noted c m : book (record_call c m) = noted (event_of c) (book m).
Proof.
  destruct c as [now []]; cbn [record_call fst snd]; try done.
  - unfold record_block_in, event_of. cbn [fst snd]. destruct (counter_named _ _) eqn:E; [|by rewrite bool_decide_eq_false_2 by (by intros [? ?])].
    rewrite bool_decide_eq_true_2 by eauto. by apply push_noted.
  - unfold record_protocol_in, event_of. cbn [fst snd]. destruct (counter_named _ _) eqn:E; [|by rewrite bool_decide_eq_false_2 by (by intros [? ?])].
    rewrite bool_decide_eq_true_2 by eauto. by apply push_noted.
  - unfold record_waf_inspection. by destruct (counter_named _ _).
  - by apply observe_noted.
  - unfold record_dlp, event_of. cbv zeta. cbn [fst snd]. destruct (_ || _) eqn:E.
    + apply push_noted. by repeat (destruct (0 <? _)).
    + by repeat (destruct (0 <? _); try done).
Qed.

Lemma calls_rings calls : Z.of_nat (length (history calls)) <= 2 ^ 64 ->
  events_by_site (record_calls calls metrics_new) = rings 0 (history calls)
  /\ event_seq (record_calls calls metrics_new) = len (history calls) mod 2 ^ 64.
Proof.
  induction calls as [|c calls IH] using rev_ind; [done|]. unfold record_calls, history in *. rewrite fold_left_app, omap_app. cbn [fold_left].
  pose proof (call_noted c (fold_left (fun m c => record_call c m) calls metrics_new)) as Hc. unfold book in Hc.
  assert (omap event_of [c] = match event_of c with Some x => [x] | None => [] end) as -> by (cbn; by destruct (event_of c)).
  destruct (event_of c) as [[site e]|]; cbn [noted fst snd] in Hc.
  - intros Hn. rewrite length_app in Hn. cbn in Hn. destruct IH as [IH1 IH2]; [lia|]. rewrite IH1, IH2 in Hc. injection Hc as -> ->.
    rewrite rings_snoc, Z.add_0_l. unfold len in *. rewrite length_app. cbn [length].
    split; [f_equal; f_equal; rewrite Z.mod_small by lia; done|]. rewrite Zplus_mod_idemp_l. f_equal. lia.
  - rewrite app_nil_r. intros Hn. destruct (IH Hn) as [IH1 IH2]. rewrite IH1, IH2 in Hc. by injection Hc as -> ->.
Qed.

(** *** The snapshot *)

(** The stored events that are shown, the newest first. *)
Fixpoint shown (k : Z) (h : History) : list StoredEvent :=
  match h with
  | [] => []
  | (site, e) :: h => shown (k + 1) h ++ (if len (of_site site h) <? MAX_EVENTS_PER_SITE then [{| seq := k; event := e |}] else [])
  end.

Lemma shown_recent h : forall k, map event (shown k h) = recent h.
Proof. induction h as [|[s e] h IH]; intros k; [done|]. cbn [shown recent]. rewrite map_app, IH. by destruct (_ <? _). Qed.

Lemma shown_seq h : forall k x, x ∈ shown k h -> k <= seq x.
Proof.
  induction h as [|[s e] h IH]; intros k x; cbn [shown]; [by intros ?%elem_of_nil|]. rewrite elem_of_app. intros [Hx|Hx].
  - apply IH in Hx. lia.
  - destruct (_ <? _); [apply list_elem_of_singleton in Hx as ->; done|by apply elem_of_nil in Hx].
Qed.

Lemma sorted_app {A} (R : A -> A -> Prop) a b : StronglySorted R a -> StronglySorted R b -> (forall x y, x ∈ a -> y ∈ b -> R x y) -> StronglySorted R (a ++ b).
Proof.
  intros Ha Hb Hab. induction Ha as [|x a Ha IH Hx]; [done|]. cbn. constructor; [apply IH; intros; apply Hab; [by right|done]|].
  apply Forall_app. split; [done|]. apply Forall_forall. intros y Hy. apply Hab; [by left|done].
Qed.

Lemma shown_sorted h : forall k, StronglySorted (fun a b => - seq a <= - seq b) (shown k h).
Proof.
  induction h as [|[s e] h IH]; intros k; cbn [shown]; [constructor|]. apply sorted_app; [apply IH|by destruct (_ <? _); repeat constructor|].
  intros x y Hx Hy. apply shown_seq in Hx. destruct (_ <? _); [apply list_elem_of_singleton in Hy as ->; cbn; lia|by apply elem_of_nil in Hy].
Qed.

Lemma shown_distinct h : forall k x y, x ∈ shown k h -> y ∈ shown k h -> seq x = seq y -> x = y.
Proof.
  induction h as [|[s e] h IH]; intros k x y; cbn [shown]; [by intros ?%elem_of_nil|]. rewrite !elem_of_app. intros Hx Hy Hs.
  assert (forall z, z ∈ (if len (of_site s h) <? MAX_EVENTS_PER_SITE then [{| seq := k; event := e |}] else []) -> z = {| seq := k; event := e |}) as Hone
    by (intros z; destruct (_ <? _); [by intros ?%list_elem_of_singleton|by intros ?%elem_of_nil]).
  destruct Hx as [Hx|Hx], Hy as [Hy|Hy].
  - by apply (IH (k + 1)).
  - apply shown_seq in Hx. apply Hone in Hy as ->. cbn in Hs. lia.
  - apply shown_seq in Hy. apply Hone in Hx as ->. cbn in Hs. lia.
  - by apply Hone in Hx as ->, Hy as ->.
Qed.

(** Adding to a ring adds to what the rings hold together. *)
Lemma flat_add (site : bytes) (x : StoredEvent) (m : gmap bytes (list StoredEvent)) : flat_map snd (map_to_list (add_oldest site x m)) ≡ₚ x :: flat_map snd (map_to_list m).
Proof.
  unfold add_oldest, row. destruct (m !! site) as [l|] eqn:E; cbn [default from_option id].
  - assert (forall v, flat_map snd (map_to_list (<[site := v]> m)) ≡ₚ v ++ flat_map snd (map_to_list (delete site m))) as Hv.
    { intros v. rewrite <- insert_delete_eq, map_to_list_insert by apply lookup_delete_eq. done. }
    rewrite Hv. rewrite <- (insert_id m site l E) at 2. by rewrite Hv.
  - by rewrite map_to_list_insert by done.
Qed.

Lemma rings_shown h : forall k, flat_map snd (map_to_list (rings k h)) ≡ₚ shown k h.
Proof.
  induction h as [|[s e] h IH]; intros k; [done|]. cbn [rings shown]. destruct (_ <? _).
  - rewrite flat_add, IH. apply Permutation_cons_append.
  - rewrite IH, app_nil_r. done.
Qed.

(** C38. What the operators see of the recent events is exact: after any sequence of calls of the components, the snapshot lists the events of the
    kinds that are kept, the newest first, and an event is missing only when fifty later ones of its own site follow it.  A site that
    floods its ring takes no event from another. *)
Theorem snapshot_recent {MO : MapOrder bytes (list StoredEvent)} (calls : list (Z * Call)) :
  Z.of_nat (length (history calls)) <= 2 ^ 64 -> snapshot_events (record_calls calls metrics_new) = recent (history calls).
Proof.
  intros Hn. destruct (calls_rings calls Hn) as [Hr _]. unfold snapshot_events. rewrite Hr, <- (shown_recent (history calls) 0). f_equal.
  assert (sort_by_key (fun s => - seq s) (flat_map snd (iter_order (rings 0 (history calls)))) ≡ₚ shown 0 (history calls)) as Hp.
  { rewrite sort_by_key_perm, iter_order_perm. apply rings_shown. }
  apply (StronglySorted_unique_strong (fun a b => - seq a <= - seq b)); [|apply sort_by_key_sorted|apply shown_sorted|done].
  intros x y Hx Hy H1 H2. rewrite Hp in Hx. apply (shown_distinct (history calls) 0); [done|done|lia].
Qed.

(** ** Evaluations *)

(** A refused PROXY header is recorded under a kind that has no counter: it leaves no trace. *)
Example proxy_protocol_uncounted m : record_block 0 (lit "proxy_protocol") (lit "192.0.2.1") (lit "/") (lit "bad_signature") m = m.
Proof. reflexivity. Qed.

Definition a_block (site : string) (n : Z) : Z * Call := (n, CBlock (lit site) (lit "xss") (lit "192.0.2.1") (lit "/") (show_dec n)).

Lemma snapshot_recent_witness :
  map (fun e => (site_scope e, detail e)) (@snapshot_events (canonical_order bytes (list StoredEvent))
     (record_calls [a_block "a" 1; a_block " B " 2; a_block "a" 3] metrics_new))
  = [(lit "a", lit "3"); (lit "b", lit "2"); (lit "a", lit "1")].
Proof.
  rewrite (@snapshot_recent (canonical_order bytes (list StoredEvent)) [a_block "a" 1; a_block " B " 2; a_block "a" 3]).
  - vm_compute. reflexivity.
  - vm_compute. discriminate.
Defined.

Example evaluate_now_iso : now_iso 951827696 = lit "2000-02-29T12:34:56Z".
Proof. vm_compute. reflexivity. Qed.
