(* ===== verification/Otel.v ===== *)
(** * Export of telemetry ([src/otel.rs])

    The collector's address, the queue between requests and the worker that posts to the collector, and what it posts.  Requests and the
    worker are steps that interleave in any order; the clock and what the collector answers are inputs of the steps.  [boot] is modelled
    as the one call of [main]: a second call, which joins the first worker, is not. *)

From S2P Require Import Prelude Text Net Window Json Metrics.
From S2P Require Policy.

(** [src/otel.rs: const DEFAULT_TIMEOUT + const DEFAULT_METRICS_INTERVAL] *)
Definition DEFAULT_TIMEOUT : Duration := from_millis 1000.
Definition DEFAULT_METRICS_INTERVAL : Duration := from_secs 1.
(** [src/otel.rs: const QUEUE_CAP + const MAX_BATCH] *)
Definition QUEUE_CAP : Z := 256.
Definition MAX_BATCH : Z := 32.
(** [CARGO_PKG_VERSION] *)
Definition PKG_VERSION : bytes := lit "0.6.0".

(** [src/otel.rs: struct RequestSpan] *)
Record RequestSpan : Type := {
  method : bytes; route : bytes; decision : bytes; span_event : bytes; rule_id : bytes; span_site : bytes; inspection_outcome : bytes;
  start : Instant; stop : Instant }.
(** [src/otel.rs: struct Endpoint] *)
Record Endpoint : Type := { host : bytes; port : Z; base_path : bytes; timeout : Duration; metrics_interval : Duration }.

(** ** The collector's address *)

Definition trim_end_matches (c : Z) (s : bytes) : bytes := rev (trim_start_matches c (rev s)).

(** [src/otel.rs: fn signal_path] *)
Definition signal_path (base signal : bytes) : bytes :=
  let base := trim_end_matches 47 base in
  if ends_with base (lit "/v1/traces") || ends_with base (lit "/v1/metrics")
  then match rsplit_once 47 base with Some (head, _) => head | None => [] end ++ lit "/" ++ signal
  else base ++ lit "/v1/" ++ signal.

(** [src/otel.rs: Endpoint::traces_path + Endpoint::metrics_path] *)
Definition traces_path (e : Endpoint) : bytes := signal_path (base_path e) (lit "traces").
Definition metrics_path (e : Endpoint) : bytes := signal_path (base_path e) (lit "metrics").
(** [src/otel.rs: Endpoint::host_header] *)
Definition host_header (e : Endpoint) : bytes := if port e =? 80 then host e else host e ++ lit ":" ++ show_dec (port e).

(** [src/otel.rs: fn first_env] *)
Fixpoint first_env (env : Env) (names : list string) : option bytes :=
  match names with
  | [] => None
  | name :: names =>
      match env name with
      | Some value => if is_empty (trim value) then first_env env names else Some (trim value)
      | None => first_env env names
      end
  end.

(** [src/otel.rs: fn duration_millis_env] *)
Definition duration_millis_env (env : Env) (name : string) (dflt : Duration) : Duration :=
  Z.min (from_secs 5)
    (match filter_positive (value ← env name; parse_uint u64_max value) with Some n => from_millis n | None => dflt end).
(** [src/otel.rs: fn timeout_from_env + fn metrics_interval_from_env] *)
Definition timeout_from_env (env : Env) : Duration := duration_millis_env env "OTEL_EXPORTER_OTLP_TIMEOUT" DEFAULT_TIMEOUT.
Definition metrics_interval_from_env (env : Env) : Duration :=
  duration_millis_env env "FERROADA_OTLP_METRICS_INTERVAL_MS" DEFAULT_METRICS_INTERVAL.

(** [src/otel.rs: fn split_host_port] *)
Definition split_host_port (hostport : bytes) : option (bytes * Z) :=
  match strip_prefix [91] hostport with
  | Some rest =>
      '(host, after) ← split_once 93 rest;
      port ← match strip_prefix [58] after with
             | None | Some [] => Some 4318
             | Some p => parse_uint u16_max p
             end;
      Some (host, port)
  | None =>
      match rsplit_once 58 hostport with
      | Some (host, port) => if is_empty host then None else port ← parse_uint u16_max port; Some (host, port)
      | None => if is_empty hostport then None else Some (hostport, 4318)
      end
  end.

(** [src/otel.rs: fn parse_endpoint] *)
Definition parse_endpoint (raw : bytes) (timeout metrics_interval : Duration) : option Endpoint :=
  let trimmed := trim raw in
  if starts_with trimmed (lit "https://") then None
  else
    rest ← strip_prefix (lit "http://") trimmed;
    if bool_decide (64 ∈ rest) then None
    else
      let '(hostport, path) := default (rest, []) (split_once 47 rest) in
      '(host, port) ← split_host_port hostport;
      if is_empty (host : bytes) then None
      else Some {| host := host; port := port; base_path := lit "/" ++ path; timeout := timeout; metrics_interval := metrics_interval |}.

(** [src/otel.rs: fn endpoint_from_env] *)
Definition endpoint_from_env (env : Env) : option Endpoint :=
  raw ← first_env env ["OTEL_EXPORTER_OTLP_ENDPOINT"; "FERROADA_OTLP_ENDPOINT"];
  parse_endpoint raw (timeout_from_env env) (metrics_interval_from_env env).

(** ** Payloads *)

(** [src/otel.rs: fn format_rule_ids] *)
Definition format_rule_ids (ids : list Z) : bytes := join (lit ",") (map show_dec ids).

(** [src/otel.rs: fn kv_str] *)
Definition kv_str (key : string) (value : bytes) : JsonValue :=
  JObject [(lit "key", JString (lit key)); (lit "value", JObject [(lit "stringValue", JString value)])].

(** [src/otel.rs: fn resource_attributes] *)
Definition resource_attributes (m : Metrics) : list JsonValue :=
  let '(version, signed) := policy_info m in
  [kv_str "service.name" (lit "ferroada"); kv_str "service.version" PKG_VERSION; kv_str "ferroada.policy_version" version;
   kv_str "ferroada.policy_signed" (if signed then lit "true" else lit "false")].

(** [src/otel.rs: fn next_trace_id] of a number of the sequence and a time: an identifier of zeros alone gets a last one. *)
Definition nonzero_id (id : bytes) : bytes := if forallb (fun b => b =? 0) id then removelast id ++ [1] else id.
Definition trace_id (t n : Z) : bytes := nonzero_id (be_octets 8 t ++ be_octets 8 n).
(** [src/otel.rs: fn next_span_id] *)
Definition span_id (n : Z) : bytes := nonzero_id (be_octets 8 n).

(** [src/otel.rs: fn traces_payload @370-390] *)
Definition span_attributes (s : RequestSpan) : list JsonValue :=
  let some (key : string) (v : bytes) := if is_empty v then [] else [kv_str key v] in
  [kv_str "http.method" (method s); kv_str "http.route" (route s); kv_str "decision" (decision s)]
  ++ some "event_type" (span_event s) ++ some "rule_id" (rule_id s) ++ some "site_scope" (span_site s)
  ++ some "inspection_outcome" (inspection_outcome s).

(** [src/otel.rs: fn traces_payload @368-401] The spans, and the next number: each takes two.  [clock] is read once a span. *)
Fixpoint otel_spans (now_end : Z) (clock : list Z) (seq : Z) (spans : list RequestSpan) : list JsonValue * Z :=
  match spans with
  | [] => ([], seq)
  | s :: spans =>
      let t := default 0 (head clock) in
      let start_ns := saturating_sub now_end (duration_since (stop s) (start s) mod 2 ^ 64) in
      let one := JObject
        [(lit "traceId", JString (Policy.hex_encode (trace_id t seq)));
         (lit "spanId", JString (Policy.hex_encode (span_id ((seq + 1) mod 2 ^ 64))));
         (lit "name", JString (method s ++ lit " " ++ route s)); (lit "kind", number 2);
         (lit "startTimeUnixNano", JString (show_dec start_ns)); (lit "endTimeUnixNano", JString (show_dec now_end));
         (lit "attributes", JArray (span_attributes s))] in
      let '(rest, seq) := otel_spans now_end (tail clock) ((seq + 2) mod 2 ^ 64) spans in
      (one :: rest, seq)
  end.

Definition SCOPE : JsonValue := JObject [(lit "name", JString (lit "ferroada")); (lit "version", JString PKG_VERSION)].

(** [src/otel.rs: fn traces_payload] *)
Definition traces_payload (m : Metrics) (now_end : Z) (clock : list Z) (seq : Z) (spans : list RequestSpan) : JsonValue * Z :=
  let '(spans, seq) := otel_spans now_end clock seq spans in
  (JObject [(lit "resourceSpans", JArray [JObject
     [(lit "resource", JObject [(lit "attributes", JArray (resource_attributes m))]);
      (lit "scopeSpans", JArray [JObject [(lit "scope", SCOPE); (lit "spans", JArray spans)]])]])], seq).

(** [src/otel.rs: fn is_allowed_label] *)
Definition is_allowed_label (key : string) : bool := one_of (lit key) ["site_scope"; "event_type"; "inspection_outcome"; "backend"].
(** [src/otel.rs: fn label_attrs] *)
Definition label_attrs (labels : list (string * bytes)) : list JsonValue :=
  map (fun p => kv_str p.1 p.2) (List.filter (fun p => is_allowed_label p.1) labels).

Definition data_points (value : Z) (time : bytes) (labels : list (string * bytes)) : bytes * JsonValue :=
  (lit "dataPoints", JArray [JObject
     [(lit "asInt", JString (show_dec value)); (lit "timeUnixNano", JString time); (lit "attributes", JArray (label_attrs labels))]]).
(** [src/otel.rs: fn sum_metric] *)
Definition sum_metric (name : string) (value : Z) (time : bytes) (labels : list (string * bytes)) : JsonValue :=
  JObject [(lit "name", JString (lit name)); (lit "sum", JObject
    [(lit "aggregationTemporality", number 2); (lit "isMonotonic", JBool true); data_points value time labels])].
(** [src/otel.rs: fn gauge_metric] *)
Definition gauge_metric (name : string) (value : Z) (time : bytes) (labels : list (string * bytes)) : JsonValue :=
  JObject [(lit "name", JString (lit name)); (lit "gauge", JObject [data_points value time labels])].

(** [src/otel.rs: fn block_series] *)
Definition BLOCK_SERIES : list (string * Counter) :=
  [("sqli", blocked_sqli); ("xss", blocked_xss); ("path_traversal", blocked_path_traversal); ("rate_limit", blocked_rate_limit);
   ("sensitive_path", blocked_sensitive_path); ("body_sqli", blocked_body_sqli); ("body_xss", blocked_body_xss);
   ("method", blocked_method); ("size_limit", blocked_size_limit); ("host", blocked_host); ("crlf", blocked_crlf);
   ("smuggling", blocked_smuggling); ("jndi", blocked_jndi); ("bad_bot", blocked_bad_bot);
   ("behavioral_throttle", blocked_behavioral_throttle); ("behavioral_block", blocked_behavioral_block);
   ("waf_incomplete", blocked_waf_incomplete); ("inspection_parse_error", blocked_inspection_parse_error);
   ("header_limit", blocked_header_limit); ("concurrency_limit", blocked_concurrency_limit);
   ("connection_limit", blocked_connection_limit); ("request_buffer_limit", blocked_request_buffer_limit);
   ("spool_limit", blocked_spool_limit); ("waf_l1", blocked_waf_l1); ("openapi", blocked_openapi); ("jwt", blocked_jwt);
   ("jwt_binding", blocked_jwt_binding); ("authz", blocked_authz); ("graphql", blocked_graphql); ("grpc", blocked_grpc);
   ("dlp_partial_block", blocked_dlp_partial); ("origin_unavailable", blocked_origin_unavailable); ("protocol_deny", protocol_deny);
   ("https_redirect", https_redirect)].

(** [src/otel.rs: fn metrics_payload] *)
Definition metrics_payload (m : Metrics) (now : Z) : JsonValue :=
  let now := show_dec now in
  let one (name : string) (c : Counter) := sum_metric name (counts m c) now [] in
  let items :=
    [one "ferroada_requests_total" requests_total; one "ferroada_otel_export_failed_total" otel_export_failed;
     gauge_metric "ferroada_spool_bytes" (spool_bytes m) now []; gauge_metric "ferroada_policy_info" 1 now []]
    ++ map (fun p => sum_metric "ferroada_blocks_total" (counts m p.2) now [("event_type", lit p.1)]) BLOCK_SERIES
    ++ map (fun p => sum_metric "ferroada_inspection_outcome_total" (counts m p.2) now [("inspection_outcome", lit p.1)]) INSPECTION_COUNTERS in
  JObject [(lit "resourceMetrics", JArray [JObject
    [(lit "resource", JObject [(lit "attributes", JArray (resource_attributes m))]);
     (lit "scopeMetrics", JArray [JObject [(lit "scope", SCOPE); (lit "metrics", JArray items)]])]])].

(** ** The worker *)

(** What becomes of a post: the time of the endpoint runs out, an operation on the socket fails, or the first read gives these bytes, at
    most 256. *)
Inductive Reply : Type := TimesOut | IoFails | Answers (read : bytes).

Definition CRLF : bytes := [13; 10].

(** [src/otel.rs: fn post_json @335-339] The request head. *)
Definition post_head (e : Endpoint) (path body : bytes) : bytes :=
  lit "POST " ++ path ++ lit " HTTP/1.1" ++ CRLF ++ lit "Host: " ++ host_header e ++ CRLF ++ lit "Content-Type: application/json" ++ CRLF
  ++ lit "Content-Length: " ++ show_dec (len body) ++ CRLF ++ lit "Connection: close" ++ CRLF ++ CRLF.

(** [src/otel.rs: fn post_json @349-363] *)
Definition reply_accepted (read : bytes) : bool :=
  let text := if is_utf8 read then read else [] in
  let status := default 0 (code ← split_whitespace text !! 1%nat; parse_uint u16_max code) in
  (200 <=? status) && (status <? 300).

Section Exporter.
Context {SJ : SerdeJson}.

(** [src/otel.rs: fn export_json] The counters, what is written to the socket as far as it takes it, and whether the collector took it. *)
Definition export_json (e : Endpoint) (path : bytes) (body : JsonValue) (reply : Reply) (m : Metrics) : Metrics * bytes * bool :=
  match json_to_string body with
  | None => (record_otel_export_failed m, [], false)
  | Some b =>
      let sent := post_head e path b ++ b in
      match reply with
      | Answers read => if reply_accepted read then (m, sent, true) else (record_otel_export_failed m, sent, false)
      | TimesOut | IoFails => (record_otel_export_failed m, sent, false)
      end
  end.

(** [src/otel.rs: struct Worker] The exporter of a process: whether it is enabled, the address, whether the worker receives, the queue,
    the batch the worker gathers, the next number, the counters. *)
Record Exporter : Type := {
  enabled : bool; endpoint : Endpoint; receives : bool; queue : list RequestSpan; gathering : option (list RequestSpan);
  trace_seq : Z; meters : Metrics }.

Definition with_queue (x : Exporter) (q : list RequestSpan) (g : option (list RequestSpan)) : Exporter := {|
  enabled := enabled x; endpoint := endpoint x; receives := receives x; queue := q; gathering := g; trace_seq := trace_seq x;
  meters := meters x |}.
Definition with_meters (x : Exporter) (n : Z) (m : Metrics) : Exporter := {|
  enabled := enabled x; endpoint := endpoint x; receives := receives x; queue := queue x; gathering := gathering x; trace_seq := n;
  meters := m |}.

Definition no_endpoint : Endpoint := {| host := []; port := 0; base_path := []; timeout := 0; metrics_interval := 0 |}.

(** [src/otel.rs: fn boot @99-137 + static ENABLED + static TRACE_SEQ + static STATE] [spawned] and [runtime] say whether the thread and its runtime start. *)
Definition boot (env : Env) (spawned runtime : bool) (m : Metrics) : Exporter :=
  let off := {| enabled := false; endpoint := no_endpoint; receives := false; queue := []; gathering := None; trace_seq := 1; meters := m |} in
  match endpoint_from_env env with
  | None => off
  | Some e =>
      if negb spawned then with_meters off 1 (record_otel_export_failed m)
      else {| enabled := true; endpoint := e; receives := runtime; queue := []; gathering := None; trace_seq := 1;
              meters := if runtime then m else record_otel_export_failed m |}
  end.

(** What happened to the spans and the posts, in order. *)
Record Ledger : Type := { accepted : list RequestSpan; refused : list RequestSpan; posts : list (option (list RequestSpan) * bytes * bool) }.

(** [src/otel.rs: fn emit_request] A full queue, or a worker that does not receive, refuses the span. *)
Definition emit_request (span : RequestSpan) (x : Exporter) (l : Ledger) : Exporter * Ledger :=
  if negb (enabled x) then (x, l)
  else if receives x && (len (queue x) <? QUEUE_CAP)
  then (with_queue x (queue x ++ [span]) (gathering x),
        {| accepted := accepted l ++ [span]; refused := refused l; posts := posts l |})
  else (with_meters x (trace_seq x) (record_otel_export_failed (meters x)),
        {| accepted := accepted l; refused := refused l ++ [span]; posts := posts l |}).

Definition posted (x : Exporter) (l : Ledger) (n : Z) (what : option (list RequestSpan)) (r : Metrics * bytes * bool) : Exporter * Ledger :=
  let '(m, sent, ok) := r in
  (with_meters x n m, {| accepted := accepted l; refused := refused l; posts := posts l ++ [(what, sent, ok)] |}).

(** The steps: a request emits its span; another component records; the worker takes a first span, one more, or posts its batch; it
    posts the counters. *)
Inductive Step : Type :=
| Emit (span : RequestSpan)
| Records (c : Z * Call)
| Receive
| TryReceive
| PostBatch (now : Z) (clock : list Z) (reply : Reply)
| Tick (now : Z) (reply : Reply).

(** [src/otel.rs: fn run_worker] A step, if it can be made: the worker posts a batch that is full, or when the queue gives no more. *)
Definition step (ev : Step) (x : Exporter) (l : Ledger) : option (Exporter * Ledger) :=
  match ev with
  | Emit span => Some (emit_request span x l)
  | Records c => match c.2 with COtelFailed => None | _ => Some (with_meters x (trace_seq x) (record_call c (meters x)), l) end
  | Receive =>
      match receives x, gathering x, queue x with
      | true, None, span :: q => Some (with_queue x q (Some [span]), l)
      | _, _, _ => None
      end
  | TryReceive =>
      match receives x, gathering x, queue x with
      | true, Some batch, span :: q => if len batch <? MAX_BATCH then Some (with_queue x q (Some (batch ++ [span])), l) else None
      | _, _, _ => None
      end
  | PostBatch now clock reply =>
      match receives x, gathering x with
      | true, Some batch =>
          if (len batch <? MAX_BATCH) && negb (is_empty (queue x)) then None
          else
            let '(body, n) := traces_payload (meters x) now clock (trace_seq x) batch in
            Some (posted (with_queue x (queue x) None) l n (Some batch)
                    (export_json (endpoint x) (traces_path (endpoint x)) body reply (meters x)))
      | _, _ => None
      end
  | Tick now reply =>
      match receives x, gathering x with
      | true, None =>
          Some (posted x l (trace_seq x) None
                  (export_json (endpoint x) (metrics_path (endpoint x)) (metrics_payload (meters x) now) reply (meters x)))
      | _, _ => None
      end
  end.

Fixpoint run_steps (evs : list Step) (x : Exporter) (l : Ledger) : option (Exporter * Ledger) :=
  match evs with
  | [] => Some (x, l)
  | ev :: evs => '(x, l) ← step ev x l; run_steps evs x l
  end.
End Exporter.

(** ** What becomes of a span *)

(** The steps' spans. *)
Definition emitted (evs : list Step) : list RequestSpan := omap (fun ev => match ev with Emit s => Some s | _ => None end) evs.

(** The spans of a ledger that were posted, in order, and the posts the collector did not take. *)
Definition posted_spans (l : Ledger) : list RequestSpan := flat_map (fun p => default [] p.1.1) (posts l).
Definition failed_posts (l : Ledger) : Z := len (base.filter (fun p : option (list RequestSpan) * bytes * bool => p.2 = false) (posts l)).

Definition no_ledger : Ledger := {| accepted := []; refused := []; posts := [] |}.

Lemma otel_failed_record c m : (forall n, c <> (n, COtelFailed)) -> counts (record_call c m) otel_export_failed = counts m otel_export_failed.
Proof.
  intros Hc. destruct c as [now []]; cbn [record_call fst snd]; try done.
  - unfold record_block_in. destruct (counter_named _ _) as [c|] eqn:E; [|done]. cbn. rewrite decide_False; [done|]. intros <-.
    unfold counter_named, BLOCK_COUNTERS in E. cbn [List.find fst snd] in E. by repeat (destruct (_ =s _); [done|]).
  - unfold record_protocol_in. destruct (counter_named _ _) as [c|] eqn:E; [|done]. cbn. rewrite decide_False; [done|]. intros <-.
    unfold counter_named, PROTOCOL_ACTIONS in E. cbn [List.find fst snd] in E. by repeat (destruct (_ =s _); [done|]).
  - unfold record_waf_inspection. destruct (counter_named _ _) as [c|] eqn:E; [|done]. cbn. rewrite decide_False; [done|]. intros <-.
    unfold counter_named, INSPECTION_COUNTERS in E. cbn [List.find fst snd] in E. by repeat (destruct (_ =s _); [done|]).
  - unfold record_observation_in. cbv zeta. by repeat (destruct (_ =s _); [done|]); destruct (negb _).
  - by destruct (Hc now).
  - unfold record_policy_reload. cbv zeta. by repeat case_match.
  - unfold record_dlp. cbv zeta. by repeat (destruct (0 <? _)).
Qed.

Section Ledgers.
Context {SJ : SerdeJson}.

Definition batch_ok (b : option (list RequestSpan)) : Prop := from_option (fun b => 1 <= len b <= MAX_BATCH) True b.

(** The exporter [x] and its ledger after the spans [es], from [base] failures: spans are posted in the order they were accepted, in
    batches, and what is lost is counted. *)
Record ledger_ok (base : Z) (es : list RequestSpan) (x : Exporter) (l : Ledger) : Prop := {
  lo_order : accepted l = posted_spans l ++ default [] (gathering x) ++ queue x;
  lo_on : enabled x = true -> accepted l ++ refused l ≡ₚ es;
  lo_off : enabled x = false -> accepted l ++ refused l = [];
  lo_still : receives x = false -> accepted l = [] /\ posts l = [];
  lo_live : receives x = true -> enabled x = true;
  lo_queue : len (queue x) <= QUEUE_CAP;
  lo_gathering : batch_ok (gathering x);
  lo_posts : Forall (fun p => batch_ok p.1.1) (posts l);
  lo_failed : counts (meters x) otel_export_failed = (base + len (refused l) + failed_posts l) mod 2 ^ 64 }.

Lemma otel_failed_bump m : counts (record_otel_export_failed m) otel_export_failed = (counts m otel_export_failed + 1) mod 2 ^ 64.
Proof. done. Qed.

Lemma posted_spans_snoc l a r what sent ok :
  posted_spans {| accepted := a; refused := r; posts := posts l ++ [(what, sent, ok)] |} = posted_spans l ++ default [] what.
Proof. unfold posted_spans. cbn [posts]. rewrite flat_map_app. cbn. by rewrite app_nil_r. Qed.

Lemma failed_posts_snoc l a r what sent (ok : bool) :
  failed_posts {| accepted := a; refused := r; posts := posts l ++ [(what, sent, ok)] |} = failed_posts l + (if ok then 0 else 1).
Proof.
  unfold failed_posts. cbn [posts]. rewrite filter_app, len_app. f_equal. rewrite filter_cons, filter_nil. cbn.
  by destruct ok; [rewrite decide_False|rewrite decide_True].
Qed.

Lemma export_counts e path body reply m m' sent ok : export_json e path body reply m = (m', sent, ok) ->
  counts m' otel_export_failed = if ok then counts m otel_export_failed else (counts m otel_export_failed + 1) mod 2 ^ 64.
Proof.
  unfold export_json. destruct (json_to_string body); [|by intros [= <- <- <-]]. destruct reply as [| |read]; try by intros [= <- <- <-].
  by destruct (reply_accepted read); intros [= <- <- <-].
Qed.

(** A post adds to the ledger what the worker had gathered. *)
Lemma posted_ok base es x l g n what e path body reply :
  ledger_ok base es x l -> receives x = true -> default [] (gathering x) = default [] what ++ default [] g -> batch_ok what -> batch_ok g ->
  let '(x', l') := posted (with_queue x (queue x) g) l n what (export_json e path body reply (meters x)) in ledger_ok base es x' l'.
Proof.
  intros [Ho Hn Hf Hs Hl Hq Hg Hp Hc] Hr Hw Hb Hb'. destruct (export_json _ _ _ _ _) as [[m sent] ok] eqn:E. apply export_counts in E.
  cbn [posted]. split; cbn [with_meters with_queue enabled receives queue gathering meters accepted refused posts]; try done.
  - rewrite posted_spans_snoc, Ho, Hw, <- !app_assoc. done.
  - by rewrite Hr.
  - apply Forall_app. by split; [|constructor].
  - rewrite failed_posts_snoc, E. cbn [refused]. destruct ok; [by rewrite Hc, Z.add_0_r|]. rewrite Hc, Zplus_mod_idemp_l. f_equal. lia.
Qed.

Lemma emit_ok base es x l s : ledger_ok base es x l ->
  let '(x', l') := emit_request s x l in ledger_ok base (es ++ [s]) x' l'.
Proof.
  intros [Ho Hn Hf Hs Hl Hq Hg Hp Hc]. unfold emit_request. destruct (enabled x) eqn:Ee; cbn [negb]; [|by split; rewrite ?Ee].
  destruct (receives x) eqn:Er; cbn [andb]; [destruct (Z.ltb_spec (len (queue x)) QUEUE_CAP) as [Hlt|Hge]|].
  all: split; cbn [with_meters with_queue enabled receives queue gathering meters accepted refused posts]; rewrite ?Ee, ?Er; try done.
  - by rewrite Ho, <- !app_assoc.
  - intros _. rewrite <- app_assoc, (Permutation_app_comm [s]), app_assoc, Hn by done. done.
  - rewrite len_app. unfold len at 2. cbn. lia.
  - intros _. by rewrite app_assoc, Hn.
  - rewrite otel_failed_bump, Hc, Zplus_mod_idemp_l, len_app. f_equal. unfold len at 3. cbn. unfold failed_posts. cbn [posts]. lia.
  - intros _. by rewrite app_assoc, Hn.
  - rewrite otel_failed_bump, Hc, Zplus_mod_idemp_l, len_app. f_equal. unfold len at 3. cbn. unfold failed_posts. cbn [posts]. lia.
Qed.

Lemma step_ok base es ev x l x' l' : ledger_ok base es x l -> step ev x l = Some (x', l') -> ledger_ok base (es ++ emitted [ev]) x' l'.
Proof.
  intros Hok. destruct ev as [s|c| | |now clock reply|now reply]; cbn [step emitted omap list_omap].
  - intros [= E]. pose proof (emit_ok base es x l s Hok) as H. by rewrite E in H.
  - rewrite app_nil_r. destruct c as [n c]. intros H. assert (c <> COtelFailed /\ (x', l') = (with_meters x (trace_seq x) (record_call (n, c) (meters x)), l))
      as [Hc [= -> ->]] by (by destruct c; cbn in H; try injection H as <- <-).
    destruct Hok. split; try done. cbn. rewrite otel_failed_record; [done|congruence].
  - rewrite app_nil_r. destruct (receives x) eqn:Er; [|done]. destruct (gathering x) eqn:Eg; [done|]. destruct (queue x) as [|s q] eqn:Eq; [done|].
    intros [= <- <-]. destruct Hok as [Ho Hn Hf Hs Hl Hq Hg Hp Hc]. rewrite Eg, Eq in *. rewrite len_cons in Hq.
    split; cbn; try done; lia.
  - rewrite app_nil_r. destruct (receives x) eqn:Er; [|done]. destruct (gathering x) as [b|] eqn:Eg; [|done].
    destruct (queue x) as [|s q] eqn:Eq; [done|]. destruct (Z.ltb_spec (len b) MAX_BATCH) as [Hb|]; [|done]. intros [= <- <-].
    destruct Hok as [Ho Hn Hf Hs Hl Hq Hg Hp Hc]. rewrite Eg, Eq in *. rewrite len_cons in Hq. cbn in Hg.
    split; cbn; try done; [by rewrite Ho; cbn; rewrite <- app_assoc|lia|]. rewrite len_app. unfold len at 2 4. cbn. lia.
  - rewrite app_nil_r. destruct (receives x) eqn:Er; [|done]. destruct (gathering x) as [b|] eqn:Eg; [|done]. destruct (_ && _); [done|].
    destruct (traces_payload _ _ _ _ _) as [body n]. intros [= H]. pose proof (lo_gathering _ _ _ _ Hok) as Hg. rewrite Eg in Hg.
    pose proof (posted_ok base es x l None n (Some b) (endpoint x) (traces_path (endpoint x)) body reply Hok Er) as Hp.
    rewrite H in Hp. apply Hp; [by rewrite Eg; cbn; rewrite app_nil_r|done|done].
  - rewrite app_nil_r. destruct (receives x) eqn:Er; [|done]. destruct (gathering x) as [b|] eqn:Eg; [done|]. intros [= H].
    pose proof (posted_ok base es x l None (trace_seq x) None (endpoint x) (metrics_path (endpoint x)) (metrics_payload (meters x) now) reply Hok Er) as Hp.
    assert (with_queue x (queue x) None = x) as Hx by (destruct x; cbn in *; by subst). rewrite Hx, H in Hp. apply Hp; [by rewrite Eg|done|done].
Qed.

Lemma run_ok base evs : forall es x l x' l', ledger_ok base es x l -> run_steps evs x l = Some (x', l') -> ledger_ok base (es ++ emitted evs) x' l'.
Proof.
  induction evs as [|ev evs IH]; intros es x l x' l' Hok; cbn [run_steps]; [intros [= <- <-]; by rewrite app_nil_r|].
  destruct (step ev x l) as [[x1 l1]|] eqn:E; [|done]. cbn. intros Hrun. apply (step_ok base es) in E; [|done].
  apply (IH _ _ _ _ _ E) in Hrun. rewrite <- app_assoc in Hrun. unfold emitted in *. by rewrite <- omap_app in Hrun.
Qed.

Lemma boot_ok env spawned runtime :
  ledger_ok (counts (meters (boot env spawned runtime metrics_new)) otel_export_failed) [] (boot env spawned runtime metrics_new) no_ledger.
Proof.
  unfold boot. destruct (endpoint_from_env env); [|by split]. destruct spawned; [|by split]. destruct runtime; by split.
Qed.
End Ledgers.

Section Theorems.
Context {SJ : SerdeJson}.

(** The failures of the start: a worker that was asked for and did not start is one. *)
Definition boot_failures (env : Env) (spawned runtime : bool) : Z :=
  match endpoint_from_env env with Some _ => if spawned && runtime then 0 else 1 | None => 0 end.

(** C39. Spans are accounted for, however requests, the worker and the collector interleave: what requests emit is accepted or refused;
    the accepted spans are posted in their order, none twice, in batches of one to thirty-two, or still wait in a queue of at most 256;
    and the failure counter is the number of refused spans, of failed posts and of failed starts. *)
Theorem span_ledger env spawned runtime evs x l :
  run_steps evs (boot env spawned runtime metrics_new) no_ledger = Some (x, l) ->
  accepted l = posted_spans l ++ default [] (gathering x) ++ queue x
  /\ (if enabled x then accepted l ++ refused l ≡ₚ emitted evs else accepted l = [] /\ refused l = [] /\ posts l = [])
  /\ len (queue x) <= QUEUE_CAP /\ Forall (fun p => batch_ok p.1.1) (posts l)
  /\ counts (meters x) otel_export_failed = (boot_failures env spawned runtime + len (refused l) + failed_posts l) mod 2 ^ 64.
Proof.
  intros H. apply (run_ok _ _ [] _ _ _ _ (boot_ok env spawned runtime)) in H as [Ho Hn Hf Hs Hl Hq Hg Hp Hc].
  assert (counts (meters (boot env spawned runtime metrics_new)) otel_export_failed = boot_failures env spawned runtime) as Hb.
  { unfold boot, boot_failures. destruct (endpoint_from_env env); [|done]. by destruct spawned, runtime. }
  rewrite Hb in Hc. split; [done|]. split; [|done]. destruct (enabled x); [by apply Hn|].
  destruct (app_eq_nil _ _ (Hf eq_refl)) as [Ha Hr]. split; [done|]. split; [done|]. apply Hs. by destruct (receives x); [specialize (Hl eq_refl)|].
Qed.

(** What waits for the worker. *)
Definition backlog (x : Exporter) : nat := 2 * length (queue x) + match gathering x with Some _ => 1 | None => 0 end.

(** One step of the worker is always possible while spans wait, and takes it closer to having none. *)
Lemma worker_progress reply x l : receives x = true -> backlog x <> 0%nat ->
  exists ev x' l', step ev x l = Some (x', l') /\ (ev = Receive \/ ev = TryReceive \/ ev = PostBatch 0 [] reply)
    /\ receives x' = true /\ (backlog x' < backlog x)%nat /\ accepted l' = accepted l.
Proof.
  intros Hr Hb. unfold backlog in *. destruct (gathering x) as [b|] eqn:Eg; [|destruct (queue x) as [|s q] eqn:Eq; [done|]].
  - destruct ((len b <? MAX_BATCH) && negb (is_empty (queue x))) eqn:Em.
    + destruct (len b <? MAX_BATCH) eqn:Eb; [|done]. destruct (queue x) as [|s q] eqn:Eq; [done|]. exists TryReceive. cbn [step]. rewrite Hr, Eg, Eq, Eb.
      eexists _, _. split; [done|]. split; [by right; left|]. cbn. split; [done|]. split; [lia|done].
    + exists (PostBatch 0 [] reply). cbn [step]. rewrite Hr, Eg, Em. destruct (traces_payload _ _ _ _ _) as [body n].
      destruct (export_json _ _ _ _ _) as [[m sent] ok]. cbn [posted]. eexists _, _. split; [done|]. split; [by right; right|]. cbn. split; [done|]. split; [lia|done].
  - exists Receive. cbn [step]. rewrite Hr, Eg, Eq. eexists _, _. split; [done|]. split; [by left|]. cbn. split; [done|]. split; [lia|done].
Qed.

(** The worker empties its queue whatever the collector answers: every span that was accepted is then posted. *)
Theorem worker_drains base es reply x l : ledger_ok base es x l -> receives x = true ->
  exists evs x' l', Forall (fun ev => ev = Receive \/ ev = TryReceive \/ ev = PostBatch 0 [] reply) evs
    /\ run_steps evs x l = Some (x', l') /\ queue x' = [] /\ posted_spans l' = accepted l.
Proof.
  remember (backlog x) as n eqn:En. revert x l En. induction n as [n IH] using lt_wf_ind. intros x l -> Hok Hr.
  destruct (decide (backlog x = 0%nat)) as [Hz|Hz].
  - exists [], x, l. unfold backlog in Hz. destruct (queue x) as [|s q] eqn:Eq; [|cbn in Hz; lia]. destruct (gathering x) eqn:Eg; [cbn in Hz; lia|].
    split; [done|]. split; [done|]. split; [done|]. rewrite (lo_order _ _ _ _ Hok), Eg, Eq. cbn. by rewrite app_nil_r.
  - destruct (worker_progress reply x l Hr Hz) as (ev & x1 & l1 & E & Hev & Hr1 & Hlt & Ha).
    assert (ledger_ok base es x1 l1) as Hok1.
    { apply (step_ok base es) in E; [|done]. by destruct Hev as [-> | [-> | ->]]; cbn in E; rewrite app_nil_r in E. }
    destruct (IH _ Hlt x1 l1 eq_refl Hok1 Hr1) as (evs & x' & l' & Hevs & Hrun & Hq & Hp).
    exists (ev :: evs), x', l'. split; [by constructor|]. split; [cbn; by rewrite E|]. split; [done|]. by rewrite Hp.
Qed.
End Theorems.

(** ** The collector's paths *)

Lemma trim_end_matches_snoc c s b : b <> c -> trim_end_matches c (s ++ [b]) = s ++ [b].
Proof.
  intros Hb. unfold trim_end_matches. rewrite rev_app_distr. cbn [rev app trim_start_matches].
  destruct (Z.eqb_spec b c); [done|]. cbn. by rewrite rev_involutive.
Qed.

(** The paths of a base differ in their last segment only, after [/v1]. *)
Lemma signal_path_shape base : exists p, forall signal, signal_path base signal = p ++ lit "/v1" ++ lit "/" ++ signal.
Proof.
  unfold signal_path. set (b := trim_end_matches 47 base). clearbody b.
  assert (forall s, 47 ∉ s -> ends_with b (lit "/v1/" ++ s) = true -> exists p, b = p ++ lit "/v1" ++ 47 :: s /\ rsplit_once 47 b = Some (p ++ lit "/v1", s)) as Hv.
  { intros s Hs [p Hp]%ends_with_spec. exists p. change (lit "/v1/" ++ s) with (lit "/v1" ++ 47 :: s) in Hp. split; [done|].
    apply rsplit_once_spec. by rewrite Hp, <- app_assoc. }
  change (lit "/v1/traces") with (lit "/v1/" ++ lit "traces"). change (lit "/v1/metrics") with (lit "/v1/" ++ lit "metrics").
  destruct (ends_with b (lit "/v1/" ++ lit "traces")) eqn:E1.
  - apply Hv in E1 as (p & _ & ->); [|vm_compute; by intros H; repeat (apply elem_of_cons in H as [H|H]; [done|]); apply elem_of_nil in H].
    exists p. intros signal. cbn [orb]. by rewrite <- app_assoc.
  - destruct (ends_with b (lit "/v1/" ++ lit "metrics")) eqn:E2.
    + apply Hv in E2 as (p & _ & ->); [|vm_compute; by intros H; repeat (apply elem_of_cons in H as [H|H]; [done|]); apply elem_of_nil in H].
      exists p. intros signal. cbn [orb]. by rewrite <- app_assoc.
    + exists b. intros signal. done.
Qed.

(** An operator may configure the base of the collector or the address of either signal: the paths are the same. *)
Lemma signal_path_stable base s s' : s ∈ [lit "traces"; lit "metrics"] -> signal_path (signal_path base s) s' = signal_path base s'.
Proof.
  intros Hs. destruct (signal_path_shape base) as [p Hp]. rewrite !Hp. unfold signal_path.
  assert (exists a b, s = a ++ [b] /\ b <> 47 /\ 47 ∉ s) as (a & b & Hab & Hb & Hn).
  { apply elem_of_cons in Hs as [-> | Hs]; [|apply list_elem_of_singleton in Hs as ->].
    - exists (lit "trace"), 115. split; [done|]. split; [done|]. by apply (bool_decide_unpack _); vm_compute.
    - exists (lit "metric"), 115. split; [done|]. split; [done|]. by apply (bool_decide_unpack _); vm_compute. }
  assert (trim_end_matches 47 (p ++ lit "/v1" ++ lit "/" ++ s) = p ++ lit "/v1" ++ lit "/" ++ s) as ->.
  { rewrite Hab. rewrite !app_assoc. by apply trim_end_matches_snoc. }
  assert ((ends_with (p ++ lit "/v1" ++ lit "/" ++ s) (lit "/v1/traces") || ends_with (p ++ lit "/v1" ++ lit "/" ++ s) (lit "/v1/metrics")) = true) as ->.
  { apply orb_true_iff. apply elem_of_cons in Hs as [-> | Hs]; [left|apply list_elem_of_singleton in Hs as ->; right]; apply ends_with_spec; by exists p. }
  assert (rsplit_once 47 (p ++ lit "/v1" ++ lit "/" ++ s) = Some (p ++ lit "/v1", s)) as ->.
  { apply rsplit_once_spec. split; [by rewrite <- app_assoc|done]. }
  by rewrite <- app_assoc.
Qed.

(** ** Evaluations *)

Definition brief_json : SerdeJson := {| json_from_str _ := None; json_to_string _ := Some (lit "{}") |}.
Definition local_collector : Env := fun name => if String.eqb name "FERROADA_OTLP_ENDPOINT" then Some (lit "http://127.0.0.1:4318/") else None.
Definition a_span (r : string) : RequestSpan := {|
  method := lit "GET"; route := lit r; decision := lit "allow"; span_event := []; rule_id := []; span_site := lit "a";
  inspection_outcome := lit "complete"; start := 0; stop := 5 |}.
Definition early_tick : list Step :=
  [Emit (a_span "/1"); Receive; Emit (a_span "/2"); TryReceive; Tick 7 IoFails; PostBatch 7 [1; 2] (Answers (lit "HTTP/1.1 200 OK")); Emit (a_span "/3")].
Definition run_of : list Step -> option (Exporter * Ledger) := fun evs =>
  @run_steps brief_json evs (boot local_collector true true metrics_new) no_ledger.

(** The counters are posted between batches only. *)
Example tick_waits : run_of early_tick = None.
Proof. vm_compute. reflexivity. Qed.

Definition a_run : list Step :=
  [Emit (a_span "/1"); Tick 7 IoFails; Receive; Emit (a_span "/2"); TryReceive; PostBatch 7 [1; 2] (Answers (lit "HTTP/1.1 200 OK")); Emit (a_span "/3")].

Lemma span_ledger_witness :
  match run_of a_run with
  | Some (x, l) => accepted l = posted_spans l ++ default [] (gathering x) ++ queue x
                   /\ counts (meters x) otel_export_failed = 1
  | None => False
  end.
Proof.
  assert ((fun r => (len (refused r.2), failed_posts r.2)) <$> run_of a_run = Some (0, 1)) as Hr by (vm_compute; reflexivity).
  destruct (run_of a_run) as [[x l]|] eqn:E; [|discriminate Hr]. injection Hr as Hr Hf.
  destruct (@span_ledger brief_json local_collector true true a_run x l E) as (Ho & _ & _ & _ & Hc). split; [exact Ho|].
  rewrite Hc, Hr, Hf. vm_compute. reflexivity.
Defined.

(** The brackets of an IPv6 address do not reach the [Host] header. *)
Example ipv6_host_header : host_header <$> parse_endpoint (lit "http://[::1]:4318") 0 0 = Some (lit "::1:4318").
Proof. vm_compute. reflexivity. Qed.

(** The refusals of the abuse engine are in no series of the export. *)
Example abuse_not_exported : forallb (fun p => negb (bool_decide (p.2 = blocked_abuse))) BLOCK_SERIES = true.
Proof. vm_compute. reflexivity. Qed.

Example evaluate_paths : (traces_path <$> parse_endpoint (lit "http://otel/v1/traces") 0 0, metrics_path <$> parse_endpoint (lit "http://otel/x/") 0 0)
  = (Some (lit "/v1/traces"), Some (lit "/x/v1/metrics")).
Proof. vm_compute. reflexivity. Qed.
