(* ===== verification/Commands.v ===== *)
(** * Commands ([src/policy.rs], [src/healthcheck.rs], [src/listen.rs], [src/main.rs])

    The commands beside the proxy: compiling and signing a policy, asking a process to reload, the health probe; and what [main] reads of
    its arguments.  Files, the standard streams and signals are the state of a small monad; what a command may read and write is its
    host's.  Signing is the class [SignerCrypto].  Only the Unix branches are modelled. *)

From S2P Require Import Prelude Text Net IpText Json Window Shield Route Inspection Grpc Spool Graphql Abuse Jwks Jwt Authz.
From S2P Require Import Schema OpenApi WafEngine Config Policy.

(** Ed25519 private keys, signatures and base 64 of the crates. *)
Class SignerCrypto : Type := {
  PrivateKey : Type;
  private_from_pem : bytes -> option PrivateKey;
  private_from_raw : bytes -> option PrivateKey;
  sign_oneshot : PrivateKey -> bytes -> option bytes;
  base64_encode : bytes -> bytes;
}.

Inductive ToolError : Type :=
| MissingValue (flag : bytes) | UnknownArgument (arg : bytes) | UnknownSubcommand (name : bytes) | BadPid (text : bytes)
| NotReadable (path : bytes) | NotWritten (path : bytes) | NoPid (path : bytes) | SignalFailed (pid : Z)
| CompileFailed (e : PolicyError) | KeyMissing | KeyUnknown | KeyRefused | SigningFailed | StdinFailed | StdinEmpty | StdoutFailed
| StdoutPanic | BadBind (text : bytes) | BadPort (text : bytes) | NotConnected | SocketFailed | ProbeTimeout | EmptyResponse
| MalformedStatus | NotHttp | ProbeStatus (status : Z) | ListenEmpty | ListenInvalid (text : bytes).

(** ** The shell *)

(** Files, what was printed, the processes that were sent a hang-up. *)
Record Shell : Type := { files : gmap bytes bytes; printed : list bytes; signalled : list Z }.

(** What a command may do: the environment and the rest of the world, the paths it may read and write, what a failed write leaves, the
    standard input, whether the standard output takes text, the processes it may signal, and its own process. *)
Record Host : Type := {
  around : World; readable : bytes -> bool; writable : bytes -> bool; torn : bytes -> option bytes; stdin : option bytes;
  stdout_ok : bool; may_signal : Z -> bool; own_pid : Z }.

Definition Tool (A : Type) : Type := Shell -> Shell * result ToolError A.
#[export] Instance tool_ret : MRet Tool := fun _ a s => (s, Ok a).
#[export] Instance tool_bind : MBind Tool := fun _ _ f m s => match m s with (s, Ok a) => f a s | (s, Err e) => (s, Err e) end.

Definition tool {A} (r : result ToolError A) : Tool A := fun s => (s, r).
Definition stops_with {A} (e : ToolError) : Tool A := fun s => (s, Err e).

(** The world a command sees over the files there are. *)
Definition world_on (h : Host) (d : gmap bytes bytes) : World := {|
  w_var := w_var (around h); w_read path := if readable h path then d !! path else None; w_mmdb := w_mmdb (around h);
  w_addrs := w_addrs (around h); w_fetch := w_fetch (around h); w_now := w_now (around h) |}.

Section Tools.
Context (h : Host).

(** [std::fs::read] *)
Definition read_file (e : ToolError) (path : bytes) : Tool bytes := fun s => (s, ok_or e (w_read (world_on h (files s)) path)).
(** [std::fs::read_to_string] *)
Definition read_to_string (e : ToolError) (path : bytes) : Tool bytes :=
  b ← read_file e path; if is_utf8 b then mret b else stops_with e.
(** [std::fs::write] *)
Definition fs_write (path body : bytes) : Tool unit := fun s =>
  let set b := {| files := <[path := b]> (files s); printed := printed s; signalled := signalled s |} in
  if writable h path then (set body, Ok tt)
  else (match torn h path with Some part => set part | None => s end, Err (NotWritten path)).
(** Text on the standard output. *)
Definition put (e : ToolError) (text : bytes) : Tool unit := fun s =>
  if stdout_ok h then ({| files := files s; printed := printed s ++ [text]; signalled := signalled s |}, Ok tt) else (s, Err e).

(** ** Asking for a reload *)

(** [src/policy.rs: const DEFAULT_PID] *)
Definition DEFAULT_PID : bytes := lit "ferroada.pid".
Definition env_of (name : string) : option bytes := w_env (around h) name.

(** [src/policy.rs: fn pid_file_path] *)
Definition pid_file_path (override_path : option bytes) : bytes :=
  match override_path with Some p => p | None => default DEFAULT_PID (nonblank (env_of "FERROADA_PID_FILE")) end.

(** [src/policy.rs: fn write_pid_file] A failure is only logged. *)
Definition write_pid_file : Tool unit := fun s => ((fs_write (pid_file_path None) (show_dec (own_pid h) ++ [10]) s).1, Ok tt).

(** [str::parse::<i32>] *)
Definition parse_i32 (s : bytes) : option Z :=
  match s with 45 :: r => Z.opp <$> parse_digits (2 ^ 31) r | _ => parse_uint (2 ^ 31 - 1) s end.

(** [src/policy.rs: fn read_pid_file] *)
Definition read_pid_file (override_path : option bytes) : Tool Z :=
  let path := pid_file_path override_path in
  text ← read_to_string (NotReadable path) path;
  tool (ok_or (NoPid path) (parse_i32 (trim text))).

(** [src/policy.rs: fn send_sighup] *)
Definition send_sighup (pid : Z) : Tool unit := fun s =>
  if may_signal h pid then ({| files := files s; printed := printed s; signalled := signalled s ++ [pid] |}, Ok tt)
  else (s, Err (SignalFailed pid)).

Definition is_help (arg : bytes) : bool := one_of arg ["--help"; "-h"].

(** [src/policy.rs: const RELOAD_HELP] *)
Definition RELOAD_HELP : bytes := lit "ferroada reload — pede ao processo em execução para reler ferroada.toml

Uso:
  ferroada reload [--pid <n>] [--pid-file <path>]

Unix: envia SIGHUP. Windows: escreve ferroada.reload ao lado do pid file
(mesmo sítio que FERROADA_PID_FILE / --pid-file). Lê .env.
Parse ou assinatura inválidos não derrubam o proxy: last-known-good fica.
".

(** [src/policy.rs: fn run_reload @541-566] The flags: the last of each counts. *)
Fixpoint reload_flags (args : list bytes) (pid : option Z) (pid_file : option bytes) : result ToolError (option Z * option bytes) :=
  match args with
  | [] => Ok (pid, pid_file)
  | flag :: rest =>
      if flag =s "--pid" then
        match rest with
        | [] => Err (MissingValue flag)
        | value :: rest => pid ← ok_or (BadPid value) (parse_i32 value); reload_flags rest (Some pid) pid_file
        end
      else if flag =s "--pid-file" then
        match rest with [] => Err (MissingValue flag) | value :: rest => reload_flags rest pid (Some value) end
      else Err (UnknownArgument flag)
  end.

(** [src/policy.rs: fn run_reload] *)
Definition run_reload (args : list bytes) : Tool unit :=
  if existsb is_help args then put StdoutPanic RELOAD_HELP
  else
    '(pid, pid_file) ← tool (reload_flags args None None);
    pid ← match pid with Some pid => mret pid | None => read_pid_file pid_file end;
    send_sighup pid.

(** ** Compiling and signing a policy *)

(** [src/policy.rs: const POLICY_HELP] *)
Definition POLICY_HELP : bytes := lit "ferroada policy — snapshot canónico da política (JSON) e assinatura Ed25519 opt-in

Uso:
  ferroada policy compile [--config ferroada.toml] [-o ficheiro]
  ferroada policy sign --key <priv.pem> [--in snapshot.json] [-o ferroada.policy.sig]

Sem FERROADA_POLICY_PUBKEY o TOML solto continua válido. Com a chave, o
processo verifica a assinatura do snapshot no load/reload.
".

(** [src/policy.rs: fn write_output] *)
Definition write_output (path : option bytes) (b : bytes) : Tool unit :=
  match path with Some path => fs_write path b | None => put StdoutFailed b end.

(** [src/policy.rs: fn read_stdin] *)
Definition read_stdin : Tool bytes :=
  match stdin h with
  | None => stops_with StdinFailed
  | Some b => if is_empty b then stops_with StdinEmpty else mret b
  end.

(** [src/policy.rs: fn run_compile @634-660] The flags; [None] asks for the help. *)
Fixpoint compile_flags (args : list bytes) (config : bytes) (out : option bytes) : result ToolError (option (bytes * option bytes)) :=
  match args with
  | [] => Ok (Some (config, out))
  | flag :: rest =>
      if is_help flag then Ok None
      else if flag =s "--config" then
        match rest with [] => Err (MissingValue flag) | value :: rest => compile_flags rest value out end
      else if one_of flag ["-o"; "--out"] then
        match rest with [] => Err (MissingValue flag) | value :: rest => compile_flags rest config (Some value) end
      else Err (UnknownArgument flag)
  end.

(** [src/policy.rs: fn run_sign @672-707] *)
Fixpoint sign_flags (args : list bytes) (key input out : option bytes) : result ToolError (option (option bytes * option bytes * option bytes)) :=
  match args with
  | [] => Ok (Some (key, input, out))
  | flag :: rest =>
      if is_help flag then Ok None
      else if flag =s "--key" then
        match rest with [] => Err (MissingValue flag) | value :: rest => sign_flags rest (Some value) input out end
      else if flag =s "--in" then
        match rest with [] => Err (MissingValue flag) | value :: rest => sign_flags rest key (Some value) out end
      else if one_of flag ["-o"; "--out"] then
        match rest with [] => Err (MissingValue flag) | value :: rest => sign_flags rest key input (Some value) end
      else Err (UnknownArgument flag)
  end.

Context {SJ : SerdeJson} {TT : TomlText} {H256 : Graphql.Sha256} {SC : SignerCrypto}.

(** [src/policy.rs: fn run_compile] *)
Definition run_compile (args : list bytes) : Tool unit :=
  flags ← tool (compile_flags args DEFAULT_TOML None);
  match flags with
  | None => put StdoutPanic POLICY_HELP
  | Some (config, out) =>
      contents ← read_to_string (NotReadable config) config;
      blob ← (fun s => (s, match compile_toml_blob (world_on h (files s)) contents (base_dir config) with
                           | Ok (blob, _) => Ok blob
                           | Err e => Err (CompileFailed e)
                           end));
      write_output out blob
  end.

(** [src/policy.rs: fn parse_private_key] *)
Definition parse_private_key (b : bytes) : result ToolError PrivateKey :=
  match private_from_pem b with
  | Some key => Ok key
  | None =>
      let trimmed := List.filter (fun c => negb (is_ascii_whitespace c)) b in
      if negb (is_utf8 trimmed) then Err KeyUnknown
      else match hex_decode trimmed with
           | Some raw => if len raw =? ED25519_KEY_LEN then ok_or KeyRefused (private_from_raw raw) else Err KeyUnknown
           | None => Err KeyUnknown
           end
  end.

(** [src/policy.rs: fn sign_ed25519] *)
Definition sign_ed25519 (key : PrivateKey) (blob : bytes) : result ToolError bytes := ok_or SigningFailed (sign_oneshot key blob).

(** [src/policy.rs: fn run_sign] *)
Definition run_sign (args : list bytes) : Tool unit :=
  flags ← tool (sign_flags args None None None);
  match flags with
  | None => put StdoutPanic POLICY_HELP
  | Some (key_path, input, out) =>
      key_path ← tool (ok_or KeyMissing key_path);
      pem ← read_file (NotReadable key_path) key_path;
      key ← tool (parse_private_key pem);
      blob ← match input with Some path => read_file (NotReadable path) path | None => read_stdin end;
      signature ← tool (sign_ed25519 key blob);
      match out with
      | Some path => fs_write path signature
      | None => put StdoutPanic (base64_encode signature ++ [10])
      end
  end.

(** [src/policy.rs: fn run_policy] *)
Definition run_policy (args : list bytes) : Tool unit :=
  match args with
  | [] => put StdoutPanic POLICY_HELP
  | name :: args =>
      if is_help name then put StdoutPanic POLICY_HELP
      else if name =s "compile" then run_compile args
      else if name =s "sign" then run_sign args
      else stops_with (UnknownSubcommand name)
  end.
End Tools.

(** ** The health probe *)

(** What a read of the socket gives: bytes, the end, a timeout, another error. *)
Inductive SocketRead : Type := Got (b : bytes) | Ended | Blocked | Broke.

(** The other end: whether it is reached, whether the request can be written, and what each read gives. *)
Record Peer : Type := { reached : bool; configured : bool; wrote : bool; reads : list SocketRead }.

(** [src/healthcheck.rs: const MAX_RESPONSE_BYTES] *)
Definition MAX_RESPONSE_BYTES : Z := 8192.

(** [src/healthcheck.rs: fn host_header] *)
Definition probe_host (ip : IpAddr) (port : Z) : bytes :=
  match ip with
  | V4 v => show_ipv4 v ++ lit ":" ++ show_dec port
  | V6 v => lit "[" ++ show_ipv6 v ++ lit "]:" ++ show_dec port
  end.

(** [src/healthcheck.rs: fn read_limited] A read fills at most what is left; a silent socket is at its end after the reads listed. *)
Fixpoint read_limited (rs : list SocketRead) (filled : bytes) : result ToolError bytes :=
  if MAX_RESPONSE_BYTES <=? len filled then Ok filled
  else match rs with
       | [] | Ended :: _ => Ok filled
       | Got b :: rs =>
           let b := take (Z.to_nat MAX_RESPONSE_BYTES - length filled) b in
           if is_empty b then Ok filled else read_limited rs (filled ++ b)
       | Blocked :: _ => if is_empty filled then Err ProbeTimeout else Ok filled
       | Broke :: _ => Err SocketFailed
       end.

(** [src/healthcheck.rs: fn parse_status] *)
Definition parse_status (response : bytes) : result ToolError Z :=
  first ← ok_or EmptyResponse (head (lines response));
  match split_whitespace first with
  | [] => Err MalformedStatus
  | version :: rest =>
      if negb (starts_with version (lit "HTTP/")) then Err NotHttp
      else match rest with
           | [] => Err MalformedStatus
           | code :: _ => ok_or MalformedStatus (parse_uint u16_max code)
           end
  end.

(** [src/healthcheck.rs: fn probe] *)
Definition probe (p : Peer) : result ToolError unit :=
  if negb (reached p) then Err NotConnected
  else if negb (configured p && wrote p) then Err SocketFailed
  else
    buf ← read_limited (reads p) [];
    status ← parse_status (utf8_lossy buf);
    if status =? 200 then Ok tt else Err (ProbeStatus status).

Definition probe_request (ip : IpAddr) (port : Z) : bytes :=
  lit "GET /healthz HTTP/1.1" ++ [13; 10] ++ lit "Host: " ++ probe_host ip port ++ [13; 10] ++ lit "Connection: close" ++ [13; 10; 13; 10].

(** [src/healthcheck.rs: fn probe_from_env] [peers] is what listens at each address. *)
Definition probe_from_env (env : Env) (peers : IpAddr -> Z -> Peer) : result ToolError unit :=
  let bind := default (lit "127.0.0.1") (env "DASHBOARD_BIND") in
  let port := default (lit "9000") (env "DASHBOARD_PORT") in
  ip ← ok_or (BadBind bind) (parse_ip bind);
  port ← ok_or (BadPort port) (parse_uint u16_max port);
  probe (peers ip port).

(** ** Listeners and start *)

(** [src/listen.rs: const DEFAULT_PROXY + const DEFAULT_TLS] *)
Definition DEFAULT_PROXY : bytes := lit "0.0.0.0:3000".
Definition DEFAULT_TLS : bytes := lit "0.0.0.0:3443".

(** [src/listen.rs: fn parse] *)
Definition listen_parse (raw : option bytes) (dflt : bytes) : result ToolError bytes :=
  value ← match raw with
          | None => Ok dflt
          | Some value => if is_empty (trim value) then Err ListenEmpty else Ok (trim value)
          end;
  match parse_socket_addr value with Some _ => Ok value | None => Err (ListenInvalid value) end.
(** [src/listen.rs: fn from_env] *)
Definition listen_from_env (env : Env) (name : string) (dflt : bytes) : result ToolError bytes := listen_parse (env name) dflt.

(** [src/main.rs: fn env_u64] *)
Definition main_env_u64 (env : Env) (name : string) (dflt : Z) : Z := env_positive env name u64_max dflt.
(** [src/main.rs: fn total_upstream_attempts] *)
Definition total_upstream_attempts (configured_retries : option bytes) : Z :=
  saturating_add usize_max (Z.min (default 0 (value ← configured_retries; parse_uint usize_max value)) 3) 1.

(** ** A policy that was compiled and signed loads *)

Section Signed.
Context {UC : UnicodeCase} {SJ : SerdeJson} {YT : YamlText} {D : Descriptors} {DB : Mmdb}
  {JT : JwksText} {PT : PemText} {TT : TomlText} {H256 : Graphql.Sha256} {PC : PolicyCrypto} {SC : SignerCrypto}.

(** Two halves of a key pair: what one signs, in 64 bytes, the other verifies. *)
Definition key_pair (key : PrivateKey) (pub : PublicKey) : Prop :=
  forall blob signature, sign_oneshot key blob = Some signature -> len signature = ED25519_SIG_LEN /\ verify_oneshot pub signature blob = Some true.

Lemma digest_files_same w w' fs : (forall k f, (k, f) ∈ fs -> w_read w f = w_read w' f) ->
  forall acc, digest_files w fs acc = digest_files w' fs acc.
Proof.
  induction fs as [|[k f] fs IH]; intros Hr acc; [done|]. cbn [digest_files]. rewrite (Hr k f) by (by left).
  destruct (w_read w' f); [|done]. cbn [ok_or mbind result_bind]. apply IH. intros k' f' Hf. apply (Hr k'). by right.
Qed.

Lemma compile_same w w' contents dir : (forall fs k f, referenced_policy_files contents dir = Some fs -> (k, f) ∈ fs -> w_read w f = w_read w' f) ->
  compile_toml_blob w contents dir = compile_toml_blob w' contents dir.
Proof.
  intros Hr. unfold compile_toml_blob. destruct (referenced_policy_files contents dir) as [fs|]; [|done].
  cbn [ok_or mbind result_bind]. rewrite (digest_files_same w w' fs); [done|]. intros k f. by apply Hr.
Qed.

Lemma compile_version w contents dir b v : compile_toml_blob w contents dir = Ok (b, v) -> v = version_of b.
Proof.
  unfold compile_toml_blob. destruct (ok_or _ _); [|done]. cbn [mbind result_bind]. destruct (digest_files _ _ _); [|done].
  cbn [mbind result_bind]. destruct (compile_ir _ _ _); [|done]. by intros [= <- <-].
Qed.

Lemma tool_bind_ok {A B} (m : Tool A) (f : A -> Tool B) s s' b : (m ≫= f) s = (s', Ok b) -> exists s1 a, m s = (s1, Ok a) /\ f a s1 = (s', Ok b).
Proof. unfold mbind, tool_bind. destruct (m s) as [s1 [a|e]]; [eauto|done]. Qed.

Lemma read_file_ok h e path s s' b : read_file h e path s = (s', Ok b) -> s' = s /\ w_read (world_on h (files s)) path = Some b.
Proof. unfold read_file. destruct (w_read _ _); [|done]. by intros [= <- <-]. Qed.

Lemma fs_write_ok h path body s s' : fs_write h path body s = (s', Ok tt) -> files s' = <[path := body]> (files s).
Proof. unfold fs_write. destruct (writable h path); [|done]. by intros [= <-]. Qed.

(** What the compiling command leaves. *)
Lemma run_compile_ok h P B s s1 : run_policy h [lit "compile"; lit "--config"; P; lit "-o"; B] s = (s1, Ok tt) ->
  exists contents blob, w_read (world_on h (files s)) P = Some contents
    /\ compile_toml_blob (world_on h (files s)) contents (base_dir P) = Ok (blob, version_of blob) /\ files s1 = <[B := blob]> (files s).
Proof.
  change (run_policy h [lit "compile"; lit "--config"; P; lit "-o"; B]) with (run_compile h [lit "--config"; P; lit "-o"; B]).
  unfold run_compile. intros (s' & fl & [= <- <-] & H)%tool_bind_ok. cbn match in H.
  apply tool_bind_ok in H as (s2 & contents & Hr & H). unfold read_to_string in Hr. apply tool_bind_ok in Hr as (s3 & b & Hr & Hu).
  apply read_file_ok in Hr as [-> Hr]. destruct (is_utf8 b); [injection Hu as <- <-|done].
  apply tool_bind_ok in H as (s4 & blob & Hc & Hw). injection Hc as <- Hc.
  destruct (compile_toml_blob _ _ _) as [[bl v]|e] eqn:E; [injection Hc as ->|done]. apply compile_version in E as Hv. subst v.
  exists b, blob. split; [done|]. split; [done|]. by apply fs_write_ok in Hw.
Qed.

(** What the signing command leaves. *)
Lemma run_sign_ok h K B S s s2 : run_policy h [lit "sign"; lit "--key"; K; lit "--in"; B; lit "-o"; S] s = (s2, Ok tt) ->
  exists pem key blob signature, w_read (world_on h (files s)) K = Some pem /\ parse_private_key pem = Ok key
    /\ w_read (world_on h (files s)) B = Some blob /\ sign_oneshot key blob = Some signature /\ files s2 = <[S := signature]> (files s).
Proof.
  change (run_policy h [lit "sign"; lit "--key"; K; lit "--in"; B; lit "-o"; S]) with (run_sign h [lit "--key"; K; lit "--in"; B; lit "-o"; S]).
  unfold run_sign. intros (s' & fl & [= <- <-] & H)%tool_bind_ok. cbn match in H.
  apply tool_bind_ok in H as (s3 & k & [= <- <-] & H). apply tool_bind_ok in H as (s4 & pem & Hp & H). apply read_file_ok in Hp as [-> Hp].
  apply tool_bind_ok in H as (s5 & key & Hk & H). injection Hk as <- Hk. apply tool_bind_ok in H as (s6 & blob & Hb & H).
  apply read_file_ok in Hb as [-> Hb]. apply tool_bind_ok in H as (s7 & sg & Hs & H). injection Hs as <- Hs.
  unfold sign_ed25519 in Hs. destruct (sign_oneshot key blob) as [x|] eqn:E; [injection Hs as ->|done].
  exists pem, key, blob, sg. repeat (split; [done|]). by apply fs_write_ok in H.
Qed.

Lemma fueled_bind_ok {E A B} (r : result E A) (a : A) (f : A -> fueled E B) : r = Ok a -> (of_result r ≫= f) = f a.
Proof. by intros ->. Qed.

(** The commands and the proxy agree: when [policy compile] and then [policy sign] succeed, with a key whose other half the proxy is
    given, and their outputs overwrite neither the policy nor a file it refers to, a load of the policy passes its signature check, and
    the snapshot in force is the blob that was compiled. *)
Theorem signed_snapshot_loads (h : Host) (P K B S raw pem : bytes) (pub : PublicKey) (key : PrivateKey) (s s1 s2 : Shell) (o : Occasion) :
  run_policy h [lit "compile"; lit "--config"; P; lit "-o"; B] s = (s1, Ok tt) ->
  run_policy h [lit "sign"; lit "--key"; K; lit "--in"; B; lit "-o"; S] s1 = (s2, Ok tt) ->
  w_read (world_on h (files s1)) K = Some pem -> parse_private_key pem = Ok key ->
  nonblank (w_env (around h) "FERROADA_POLICY_PUBKEY") = Some raw -> parse_public_key raw = Ok pub -> key_pair key pub ->
  signature_path (around h) = S -> readable h S = true -> at_blob o = world_on h (files s2) ->
  P <> B -> P <> S ->
  (forall contents fs k f, w_read (world_on h (files s)) P = Some contents -> referenced_policy_files contents (base_dir P) = Some fs ->
     (k, f) ∈ fs -> f <> B /\ f <> S) ->
  exists contents blob, compile_toml_blob (world_on h (files s)) contents (base_dir P) = Ok (blob, version_of blob)
    /\ files s1 !! B = Some blob
    /\ load_toml o P = (config ← try_config (from_toml_in (at_config o) (load_fuel o) contents (base_dir P)) (next_book o);
                        live_from_config (at_config o) (spool_dir o) config blob (version_of blob) true).
Proof.
  intros Hcompile Hsign Hpem Hkey Hraw Hpub Hpair Hpath Hread Hat HPB HPS Hrefs.
  apply run_compile_ok in Hcompile as (contents & blob & Hc & Hb & H1).
  apply run_sign_ok in Hsign as (pem' & key' & blob' & sg & Hp' & Hk' & Hb' & Hs & H2).
  rewrite Hpem in Hp'. injection Hp' as <-. rewrite Hkey in Hk'. injection Hk' as <-. destruct (Hpair _ _ Hs) as [Hlen Hv].
  assert (blob' = blob) as ->.
  { cbn in Hb'. rewrite H1, lookup_insert_eq in Hb'. destruct (readable h B); [by injection Hb'|done]. }
  assert (forall f, f <> B -> f <> S -> w_read (at_blob o) f = w_read (world_on h (files s)) f) as Hsame.
  { intros f Hf1 Hf2. rewrite Hat. cbn. by rewrite H2, H1, !lookup_insert_ne. }
  exists contents, blob. split; [done|]. split; [by rewrite H1, lookup_insert_eq|].
  unfold load_toml. rewrite (fueled_bind_ok _ contents) by (by rewrite Hsame, Hc).
  rewrite (fueled_bind_ok _ (blob, version_of blob)).
  2:{ rewrite <- Hb. apply compile_same. intros fs k f Hfs Hf. destruct (Hrefs contents fs k f Hc Hfs Hf). by apply Hsame. }
  cbn beta match. rewrite (fueled_bind_ok _ true); [done|].
  unfold verify_if_configured. assert (w_env (at_blob o) = w_env (around h)) as He by (by rewrite Hat). rewrite He, Hraw.
  rewrite Hpub. cbn [mbind result_bind].
  assert (read_signature (at_blob o) = Ok sg) as ->.
  { unfold read_signature. assert (signature_path (at_blob o) = S) as -> by (unfold signature_path in *; by rewrite He).
    assert (w_read (at_blob o) S = Some sg) as -> by (rewrite Hat; cbn; by rewrite Hread, H2, lookup_insert_eq).
    cbn [ok_or mbind result_bind]. unfold decode_signature. by rewrite Hlen. }
  cbn [mbind result_bind]. unfold verify_ed25519. by rewrite Hv.
Qed.
End Signed.

(** ** A printed signature *)

Section Printed.
Context {PC : PolicyCrypto} {SC : SignerCrypto}.

(** Base 64 of the crate: four visible characters for three bytes, and its inverse. *)
Definition base64_codec : Prop := forall b, base64_decode (base64_encode b) = Some b /\ len (base64_encode b) = 4 * ((len b + 2) / 3)
  /\ forallb visible (base64_encode b) = true.

Lemma hex_pairs_length s d : hex_pairs s = Some d -> len d = len s / 2.
Proof.
  unfold len. revert d. induction s as [s IH] using (induction_ltof1 _ (@length Z)). unfold ltof in IH. intros d.
  destruct s as [|a [|b s]]; cbn [hex_pairs]; [by intros [= <-]|by intros [= <-]|]. destruct (hex_val a) as [hi|]; [|done]. destruct (hex_val b) as [lo|]; [|done].
  cbn [mbind option_bind]. destruct (hex_pairs s) as [r|] eqn:E; [|done]. intros [= <-]. cbn [length]. rewrite !Nat2Z.inj_succ, (IH s) by (done || cbn; lia).
  replace (Z.succ (Z.succ (Z.of_nat (length s)))) with (Z.of_nat (length s) + 1 * 2) by lia. rewrite Z.div_add by done. lia.
Qed.

Lemma hex_decode_length s d : hex_decode s = Some d -> len d = len (trim s) / 2.
Proof. unfold hex_decode. destruct (_ || _); [done|]. destruct (negb _); [done|]. apply hex_pairs_length. Qed.

Lemma visible_utf8 s : forallb visible s = true -> is_utf8 (s ++ [10]) = true.
Proof.
  induction s as [|b s IH]; [done|]. cbn [forallb app is_utf8]. intros [Hb Hs]%andb_true_iff. unfold visible, in_range in Hb.
  apply andb_true_iff in Hb as [H1 H2]. apply Z.leb_le in H1, H2. unfold in_range.
  replace ((0 <=? b) && (b <=? 127)) with true by (symmetry; apply andb_true_iff; lia). by apply IH.
Qed.

Lemma trim_line s : s <> [] -> forallb visible s = true -> trim (s ++ [10]) = s /\ trim s = s.
Proof.
  intros Hs Hv. destruct s as [|a s]; [done|]. assert (visible a = true) as Ha by (cbn in Hv; by destruct (visible a)).
  destruct (rev (a :: s)) as [|z r] eqn:Er; [apply (f_equal (@length Z)) in Er; rewrite length_rev in Er; done|].
  assert (visible z = true) as Hz.
  { rewrite forallb_forall in Hv. apply Hv. apply in_rev. rewrite Er. by left. }
  assert (a :: s = rev (z :: r)) as Hr by (rewrite <- Er; by rewrite rev_involutive).
  split; unfold trim, trim_start, trim_end; cbn [app].
  - rewrite (strip_while_none ws_head) by by apply ws_head_visible.
    change (a :: s ++ [10]) with ((a :: s) ++ [10]). rewrite length_app, rev_app_distr, Er. generalize (length (a :: s)); intros n.
    rewrite Nat.add_comm. cbn [rev app length Nat.add strip_while].
    change (ws_tail (10 :: z :: r)) with (Some (z :: r)). cbn match.
    rewrite strip_while_none by by apply ws_tail_visible. by rewrite Hr.
  - rewrite (strip_while_none ws_head) by by apply ws_head_visible. rewrite Er.
    rewrite strip_while_none by by apply ws_tail_visible. by rewrite Hr.
Qed.

(** A signature as the command prints it is the signature the proxy reads. *)
Lemma printed_signature_read signature : base64_codec -> len signature = ED25519_SIG_LEN ->
  decode_signature (base64_encode signature ++ [10]) = Ok signature.
Proof.
  intros Hcodec Hlen. destruct (Hcodec signature) as (Hd & Hl & Hv). rewrite Hlen in Hl. change (4 * ((ED25519_SIG_LEN + 2) / 3)) with 88 in Hl.
  set (e := base64_encode signature) in *.
  assert (e <> []) as He by (intros ->; done). destruct (trim_line e He Hv) as [Ht Ht'].
  unfold decode_signature. rewrite len_app, Hl. change (88 + len [10] =? ED25519_SIG_LEN) with false. cbn match.
  rewrite visible_utf8 by done. cbn [negb]. cbv zeta. rewrite Ht, Hd, Hlen. cbn match.
  destruct (hex_decode e) as [d|] eqn:E; [|done]. apply hex_decode_length in E. rewrite Ht', Hl in E. by rewrite E.
Qed.
End Printed.

(** ** The process that is asked to reload *)

(** [reload] without flags hangs up on the process that wrote the file, and on no other. *)
Lemma reload_reaches_writer h s s1 : 0 < own_pid h < 2 ^ 31 -> may_signal h (own_pid h) = true ->
  writable h (pid_file_path h None) = true -> readable h (pid_file_path h None) = true ->
  write_pid_file h s = (s1, Ok tt) ->
  exists s2, run_reload h [] s1 = (s2, Ok tt) /\ signalled s2 = signalled s ++ [own_pid h] /\ files s2 = files s1.
Proof.
  intros Hp Hm Hw Hr. unfold write_pid_file, fs_write. rewrite Hw. cbn [fst]. intros [= <-].
  destruct (show_dec_shape (own_pid h) 9 ltac:(split; [lia|]; change (10 ^ Z.of_nat 10) with 10000000000; lia)) as (Hd & _ & Hne).
  assert (forallb visible (show_dec (own_pid h)) = true) as Hv.
  { apply forallb_forall. rewrite forallb_forall in Hd. intros b Hb. specialize (Hd b Hb). unfold is_ascii_digit, visible, in_range in *.
    apply andb_true_iff in Hd as [H1%Z.leb_le H2%Z.leb_le]. apply andb_true_iff. lia. }
  destruct (trim_line _ Hne Hv) as [Ht _].
  eexists. unfold run_reload. cbn [existsb reload_flags]. unfold tool, mbind, tool_bind at 1. cbn match. unfold tool_bind.
  unfold read_pid_file, read_to_string, read_file, mbind, tool_bind. cbn [files world_on w_read]. rewrite Hr, lookup_insert_eq. cbn [ok_or].
  rewrite visible_utf8 by done. cbn [mret tool_ret]. rewrite Ht.
  assert (parse_i32 (show_dec (own_pid h)) = Some (own_pid h)) as ->.
  { unfold parse_i32. rewrite parse_uint_show by lia. destruct (show_dec (own_pid h)) as [|b r] eqn:E; [done|].
    cbn in Hd. apply andb_true_iff in Hd as [Hb _]. destruct (decide (b = 45)) as [->|Hn]; [done|]. by repeat case_match; simplify_eq. }
  cbn [ok_or tool]. unfold send_sighup. rewrite Hm. done.
Qed.

(** ** The health probe *)

(** The probe succeeds exactly when the answer begins with an HTTP status line of code 200. *)
Lemma probe_ok_iff p : probe p = Ok tt <-> reached p = true /\ configured p = true /\ wrote p = true
  /\ exists buf, read_limited (reads p) [] = Ok buf /\ parse_status (utf8_lossy buf) = Ok 200.
Proof.
  unfold probe. destruct (reached p); cbn [negb]; [|by split; [|intros (? & _)]]. destruct (configured p); cbn [andb negb]; [|by split; [|intros (_ & ? & _)]].
  destruct (wrote p); cbn [negb]; [|by split; [|intros (_ & _ & ? & _)]].
  destruct (read_limited (reads p) []) as [buf|e]; cbn [mbind result_bind]; [|by split; [|intros (_ & _ & _ & ? & ? & _)]].
  destruct (parse_status (utf8_lossy buf)) as [st|e] eqn:E; cbn [mbind result_bind].
  - destruct (Z.eqb_spec st 200) as [->|Hst]; [split; [eauto 8|done]|split; [done|]]. intros (_ & _ & _ & b & [= <-] & H). congruence.
  - split; [done|]. intros (_ & _ & _ & b & [= <-] & H). congruence.
Qed.

(** The retries of the proxy framework stay between one attempt and four. *)
Lemma total_upstream_attempts_range r : 1 <= total_upstream_attempts r <= 4.
Proof.
  unfold total_upstream_attempts, saturating_add. set (n := default 0 _). assert (0 <= n) as Hn.
  { subst n. destruct r as [v|]; cbn; [|done]. destruct (parse_uint usize_max v) eqn:E; cbn; [by apply parse_uint_nonneg in E|done]. }
  clearbody n. unfold usize_max, u64_max. lia.
Qed.

(** ** Evaluations *)

Section evaluations.
(** A scheme that signs with the first sixty-four bytes of a blob. *)
Definition stamp_of (b : bytes) : bytes := take 64 (b ++ repeat 0 64).
Definition stamping : SignerCrypto := {|
  PrivateKey := unit; private_from_pem b := if b =s "PEM" then Some tt else None; private_from_raw _ := None;
  sign_oneshot _ b := Some (stamp_of b); base64_encode b := b |}.
Definition stamp_checking : PolicyCrypto := {|
  PublicKey := unit; public_from_pem _ := None; public_from_raw _ := Some tt;
  verify_oneshot _ sg b := Some (sg =s stamp_of b); base64_decode b := Some b |}.
Let SC := stamping.
Let UC := ascii_case.
Let SJ := attachments_json.
Let YT := no_yaml.
Let D := demo_descriptors.
Let DB := no_mmdb.
Let JT := plain_text.
Let PT := text_pem.
Let TT := mtls_toml.
Let H256 := text_hash.
Let PC := stamp_checking.
#[local] Existing Instances SC UC SJ YT D DB JT PT TT H256 PC.

Definition demo_host : Host := {|
  around := mtls_world "A"; readable _ := true; writable _ := true; torn _ := None; stdin := None; stdout_ok := true;
  may_signal _ := true; own_pid := 42 |}.
Definition demo_files : gmap bytes bytes :=
  list_to_map [(lit "ferroada.toml", lit "demo"); (lit "./cert.pem", lit "A"); (lit "./key.pem", lit "K"); (lit "priv.pem", lit "PEM")].
Definition demo_shell : Shell := {| files := demo_files; printed := []; signalled := [] |}.
Definition compiled : Shell := (run_policy demo_host [lit "compile"; lit "--config"; lit "ferroada.toml"; lit "-o"; lit "b.json"] demo_shell).1.
Definition signed_shell : Shell :=
  (run_policy demo_host [lit "sign"; lit "--key"; lit "priv.pem"; lit "--in"; lit "b.json"; lit "-o"; lit "ferroada.policy.sig"] compiled).1.
Definition demo_occasion : Occasion := {|
  at_blob := world_on demo_host (files signed_shell); at_config := mtls_world "A"; spool_dir := Missing; next_book := 0; load_fuel := 1 |}.

Lemma signed_snapshot_loads_witness : exists blob, files compiled !! lit "b.json" = Some blob
  /\ match load_toml demo_occasion (lit "ferroada.toml") with
     | Done l => lp_snapshot l = {| policy_version := version_of blob; blob := blob; signed := true |}
     | _ => False
     end.
Proof.
  destruct (@signed_snapshot_loads UC SJ YT D DB JT PT TT H256 PC SC demo_host (lit "ferroada.toml") (lit "priv.pem") (lit "b.json") (lit "ferroada.policy.sig")
    (lit "key-of-thirty-two-bytes-long-key") (lit "PEM") tt tt demo_shell compiled signed_shell demo_occasion)
    as (contents & b & Hb & Hf & Hl); try (vm_compute; reflexivity).
  - intros bl sg [= <-]. split; [|cbn; by rewrite bytes_eqb_refl].
    unfold stamp_of, len. rewrite length_take, length_app, repeat_length. change ED25519_SIG_LEN with 64. lia.
  - discriminate.
  - discriminate.
  - intros contents fs k f Hc Hfs Hin. vm_compute in Hc. injection Hc as <-. vm_compute in Hfs. injection Hfs as <-.
    repeat (apply elem_of_cons in Hin as [Hin|Hin]; [injection Hin as _ ->; split; discriminate|]). by apply elem_of_nil in Hin.
  - exists b. split; [exact Hf|]. vm_compute in Hf. injection Hf as <-. vm_compute. reflexivity.
Defined.

(** A process number that is not positive is taken, and means every process the command may signal. *)
Example negative_pid_taken : run_reload demo_host [lit "--pid"; lit "-1"] demo_shell
  = ({| files := demo_files; printed := []; signalled := [-1] |}, Ok tt).
Proof. vm_compute. reflexivity. Qed.
End evaluations.
