(* ===== verification/Init.v ===== *)
(** * The init wizard ([src/init/mod.rs], [src/init/templates.rs])

    Flags and prompts, the plan they resolve to, and the pack of files that is written from embedded templates.  The texts of the
    templates are the argument [Embedded]; their lists and names are those of the source.  The file system is a table of files and a
    set of directories whose paths are canonical; what an operation may do is the host's.  Only the Unix branches are modelled. *)

From S2P Require Import Prelude Text ClientIp Jwks Cidrs.
From S2P Require Policy.

(** [src/init/mod.rs: const CADDY_DOCKER_PEER + const DEFAULT_OUT] *)
Definition CADDY_DOCKER_PEER : bytes := lit "172.28.0.2/32".
Definition DEFAULT_OUT : bytes := lit "ferroada-deploy".
(** [src/init/mod.rs: const HELP] *)
Definition HELP : bytes := lit "ferroada init — gera um pack de topologia a partir dos templates embutidos (sem HTTP)

Uso:
  ferroada init --topology <modo> --origin <url> [opções]

Modos:
  vps-site, vps-api, vps-supabase-selfhost, vps-supabase-cloud,
  vps-full, hostinger-origin, vercel-origin, cdn-edge

Opções:
  --topology <modo>
  --out <dir>                 default: ./ferroada-deploy
  --public-host <host>        obrigatório (hostinger-origin e vercel-origin recusam sem VPS)
  --origin <url>              http:// ou https://; nunca inventado
  --edge none|cloudflare|fastly|akamai|caddy|nginx
  --trusted-proxies auto|none|<CIDR,CIDR>
                              auto copia o snapshot local de deploy/cidrs/<edge>.txt
  --dashboard-token auto|<token>
  --static-placement ferroada-front|public|cdn   (hostinger-origin)
  --supabase-host <host>      opção 2 de vps-supabase-cloud
  --listen-mode privileged|proxied
                              privileged = :80/:443 + CAP_NET_BIND_SERVICE
                              proxied = 127.0.0.1:3000 + Caddy
  --non-interactive
".

(** ** Choices *)

(** [src/init/mod.rs: enum Topology] *)
Inductive Topology : Set :=
| VpsSite | VpsApi | VpsSupabaseSelfhost | VpsSupabaseCloud | VpsFull | HostingerOrigin | VercelOrigin | CdnEdge.
#[export] Instance Topology_eq_dec : EqDecision Topology.
Proof. solve_decision. Defined.
(** [src/init/mod.rs: enum Edge] *)
Inductive Edge : Set := EdgeNone | EdgeCloudflare | EdgeFastly | EdgeAkamai | EdgeCaddy | EdgeNginx.
(** [src/init/mod.rs: enum ListenMode] *)
Inductive ListenMode : Set := Privileged | Proxied.
#[export] Instance ListenMode_eq_dec : EqDecision ListenMode.
Proof. solve_decision. Defined.
(** [src/init/mod.rs: enum TrustedSpec] *)
Inductive TrustedSpec : Type := TrustAuto | TrustNone | TrustList (raw : bytes).
(** [src/init/mod.rs: enum StaticPlacement] *)
Inductive StaticPlacement : Set := FerroadaFront | Public | Cdn.

Inductive InitError : Type :=
| FlagRepeated (flag : bytes) | FlagNeedsValue (flag : bytes) | NetworkFlag | FlagUnknown (flag : bytes) | ArgumentUnexpected (arg : bytes)
| TopologyUnknown (value : bytes) | EdgeUnknown (value : bytes) | ListenUnknown (value : bytes) | PlacementUnknown (value : bytes)
| NeedsTopology | NeedsOrigin | NeedsHost (t : Topology) | OriginScheme | HostInvalid | PlacementMisplaced | SupabaseMisplaced
| AutoNeedsEdge | SnapshotMissing (name : bytes) | TrustedInvalid (e : NetworkError) | NoRandom
| TerminalRead | TerminalWrite | PrintPanic | OutNotListed (path : bytes) | OutNotEmpty (path : bytes) | DirNotMade (path : bytes)
| FileNotWritten (path : bytes) | BffMissing | PlaceholderLeft (name : string) | PackWithoutEnv.

Definition choose {A} (l : list (string * A)) (e : bytes -> InitError) (value : bytes) : result InitError A :=
  ok_or (e value) (snd <$> List.find (fun p => value =s lit p.1) l).

Definition TOPOLOGIES : list (string * Topology) :=
  [("vps-site", VpsSite); ("vps-api", VpsApi); ("vps-supabase-selfhost", VpsSupabaseSelfhost); ("vps-supabase-cloud", VpsSupabaseCloud);
   ("vps-full", VpsFull); ("hostinger-origin", HostingerOrigin); ("vercel-origin", VercelOrigin); ("cdn-edge", CdnEdge)].
(** [src/init/mod.rs: Topology::parse] *)
Definition topology_parse : bytes -> result InitError Topology := choose TOPOLOGIES TopologyUnknown.
(** [src/init/mod.rs: Topology::as_str] *)
Definition topology_as_str (t : Topology) : string :=
  match t with
  | VpsSite => "vps-site" | VpsApi => "vps-api" | VpsSupabaseSelfhost => "vps-supabase-selfhost" | VpsSupabaseCloud => "vps-supabase-cloud"
  | VpsFull => "vps-full" | HostingerOrigin => "hostinger-origin" | VercelOrigin => "vercel-origin" | CdnEdge => "cdn-edge"
  end.
(** [src/init/mod.rs: Edge::parse] *)
Definition edge_parse : bytes -> result InitError Edge :=
  choose [("none", EdgeNone); ("cloudflare", EdgeCloudflare); ("fastly", EdgeFastly); ("akamai", EdgeAkamai); ("caddy", EdgeCaddy);
          ("nginx", EdgeNginx)] EdgeUnknown.
(** [src/init/mod.rs: ListenMode::parse] *)
Definition listen_parse : bytes -> result InitError ListenMode := choose [("privileged", Privileged); ("proxied", Proxied)] ListenUnknown.
(** [src/init/mod.rs: StaticPlacement::parse] *)
Definition placement_parse : bytes -> result InitError StaticPlacement :=
  choose [("ferroada-front", FerroadaFront); ("public", Public); ("cdn", Cdn)] PlacementUnknown.

(** ** Flags *)

(** The flags that take a value. *)
Inductive FlagName : Set :=
| FTopology | FOut | FPublicHost | FOrigin | FEdge | FTrustedProxies | FDashboardToken | FStaticPlacement | FSupabaseHost | FListenMode.
#[export] Instance FlagName_eq_dec : EqDecision FlagName.
Proof. solve_decision. Defined.

(** [src/init/mod.rs: struct Flags] *)
Record Flags : Type := { given : FlagName -> option bytes; non_interactive : bool }.
Definition no_flags : Flags := {| given _ := None; non_interactive := false |}.
Definition with_flag (fl : Flags) (name : FlagName) (value : bytes) : Flags :=
  {| given n := if decide (n = name) then Some value else given fl n; non_interactive := non_interactive fl |}.

Definition FLAG_NAMES : list (string * FlagName) :=
  [("--topology", FTopology); ("--out", FOut); ("--public-host", FPublicHost); ("--origin", FOrigin); ("--edge", FEdge);
   ("--trusted-proxies", FTrustedProxies); ("--dashboard-token", FDashboardToken); ("--static-placement", FStaticPlacement);
   ("--supabase-host", FSupabaseHost); ("--listen-mode", FListenMode)].

(** [src/init/mod.rs: fn split_flag] *)
Definition split_flag (arg : bytes) : bytes * option bytes :=
  match split_once 61 arg with Some (key, value) => (key, Some value) | None => (arg, None) end.

(** [src/init/mod.rs: fn parse_flags] *)
Fixpoint parse_flags (args : list bytes) (fl : Flags) : result InitError Flags :=
  match args with
  | [] => Ok fl
  | arg :: rest =>
      if arg =s "--non-interactive" then parse_flags rest {| given := given fl; non_interactive := true |}
      else
        let '(key, inline) := split_flag arg in
        match snd <$> List.find (fun p => key =s lit p.1) FLAG_NAMES with
        | Some name =>
            if bool_decide (is_Some (given fl name)) then Err (FlagRepeated key)
            else match inline with
                 | Some value => parse_flags rest (with_flag fl name value)
                 | None =>
                     match rest with
                     | value :: rest => parse_flags rest (with_flag fl name value)
                     | [] => Err (FlagNeedsValue key)
                     end
                 end
        | None =>
            if key =s "--cidrs-from-network" then Err NetworkFlag
            else if starts_with key (lit "-") then Err (FlagUnknown key)
            else Err (ArgumentUnexpected key)
        end
  end.

(** ** The plan *)

(** [src/init/mod.rs: struct Plan] *)
Record Plan : Type := {
  topology : Topology; out : bytes; public_host : option bytes; origin : bytes; listen : ListenMode; trusted_csv : bytes;
  dashboard_token : bytes; static_placement : StaticPlacement; supabase_host : option bytes }.

(** [src/init/mod.rs: fn validate_origin] *)
Definition validate_origin (origin : bytes) : result InitError unit :=
  if starts_with origin (lit "http://") || starts_with origin (lit "https://") then Ok tt else Err OriginScheme.
(** [src/init/mod.rs: fn validate_public_host] What is checked is trimmed, what is kept is not. *)
Definition validate_public_host (host : bytes) : result InitError unit :=
  let host := trim host in
  if is_empty host || contains host (lit "://") || bool_decide (47 ∈ host) || bool_decide (32 ∈ host) then Err HostInvalid else Ok tt.

(** [src/init/mod.rs: fn hex_lower] *)
Definition hex_lower : bytes -> bytes := Policy.hex_encode.

(** The texts that are embedded: the files of each topology, the unit of the proxied mode, the networks of each edge. *)
Record Embedded : Type := { pack_text : string -> string -> bytes; proxied_unit : bytes; cidr_text : string -> bytes }.

(** [src/init/templates.rs: fn cidr_snapshot] *)
Definition cidr_snapshot (E : Embedded) (edge : string) : option bytes :=
  if one_of (lit edge) ["cloudflare"; "fastly"; "akamai"] then Some (cidr_text E edge) else None.
(** [src/init/templates.rs: fn cidrs_from_snapshot] *)
Definition cidrs_from_snapshot (text : bytes) : list bytes :=
  base.filter (fun line => line <> [] /\ starts_with line [35] = false) (map trim (lines text)).

(** [src/init/mod.rs: fn build_trusted_csv @410-441] The networks to trust, in order. *)
Definition trusted_parts (E : Embedded) (listen : ListenMode) (edge : Edge) (spec : TrustedSpec) : result InitError (list bytes) :=
  let first := if decide (listen = Proxied) then [CADDY_DOCKER_PEER] else [] in
  match spec with
  | TrustNone => Ok first
  | TrustAuto =>
      name ← match edge with
             | EdgeCloudflare => Ok "cloudflare"
             | EdgeFastly => Ok "fastly"
             | EdgeAkamai => Ok "akamai"
             | EdgeNone | EdgeCaddy | EdgeNginx => Err AutoNeedsEdge
             end;
      snapshot ← ok_or (SnapshotMissing (lit name)) (cidr_snapshot E name);
      Ok (first ++ cidrs_from_snapshot snapshot)
  | TrustList raw =>
      _ ← map_err TrustedInvalid (trusted_parse raw);
      Ok (first ++ base.filter (fun e => e <> []) (map trim (split_on 44 raw)))
  end.
(** [src/init/mod.rs: fn build_trusted_csv + fn dedupe_keep_order] *)
Definition build_trusted_csv (E : Embedded) (listen : ListenMode) (edge : Edge) (spec : TrustedSpec) : result InitError bytes :=
  parts ← trusted_parts E listen edge spec; Ok (join [44] (dedupe_keep_order parts)).

(** [src/init/mod.rs: fn random_token + fn fill_random @877-880] [random] is what the system gives. *)
Definition random_token (random : option bytes) : result InitError bytes := ok_or NoRandom (hex_lower <$> random).

(** A flag that is absent, empty or has one of these values. *)
Definition unset (o : option bytes) (l : list string) : bool := match o with None => true | Some v => is_empty v || one_of v l end.

(** [src/init/mod.rs: fn finish_plan] *)
Definition finish_plan (E : Embedded) (random : option bytes) (fl : Flags) (topology : Topology) (origin : bytes) : result InitError Plan :=
  _ ← match given fl FPublicHost with Some host => validate_public_host host | None => Ok tt end;
  edge ← match given fl FEdge with
         | None => Ok (if decide (topology = CdnEdge) then EdgeCloudflare else EdgeNone)
         | Some value => edge_parse value
         end;
  listen ← (if unset (given fl FListenMode) [] then Ok Proxied else listen_parse (default [] (given fl FListenMode)));
  let spec := match given fl FTrustedProxies with
              | None => if decide (topology = CdnEdge) then TrustAuto else TrustNone
              | Some v => if is_empty v || (v =s "none") then TrustNone else if v =s "auto" then TrustAuto else TrustList v
              end in
  placement ← (if unset (given fl FStaticPlacement) [] then Ok FerroadaFront else placement_parse (default [] (given fl FStaticPlacement)));
  _ ← match given fl FSupabaseHost with Some host => validate_public_host host | None => Ok tt end;
  token ← (if unset (given fl FDashboardToken) ["auto"] then random_token random else Ok (default [] (given fl FDashboardToken)));
  csv ← build_trusted_csv E listen edge spec;
  Ok {| topology := topology; out := default DEFAULT_OUT (given fl FOut); public_host := given fl FPublicHost; origin := origin;
        listen := listen; trusted_csv := csv; dashboard_token := token; static_placement := placement;
        supabase_host := given fl FSupabaseHost |}.

(** [src/init/mod.rs: fn resolve_non_interactive] *)
Definition resolve_non_interactive (E : Embedded) (random : option bytes) (fl : Flags) : result InitError Plan :=
  topology ← match given fl FTopology with Some value => topology_parse value | None => Err NeedsTopology end;
  origin ← match given fl FOrigin with Some value => _ ← validate_origin value; Ok value | None => Err NeedsOrigin end;
  if bool_decide (given fl FPublicHost = None) then Err (NeedsHost topology)
  else if bool_decide (is_Some (given fl FStaticPlacement)) && negb (bool_decide (topology = HostingerOrigin)) then Err PlacementMisplaced
  else if bool_decide (is_Some (given fl FSupabaseHost)) && negb (bool_decide (topology = VpsSupabaseCloud)) then Err SupabaseMisplaced
  else finish_plan E random fl topology origin.

(** ** Templates *)

(** [src/init/templates.rs: macro_rules! define_topo] *)
Definition COMMON_FILES : list string :=
  [".env.caddy.example"; ".env.example"; "Caddyfile"; "CHECKLIST.md"; "docker-compose.caddy.yml"; "docker-compose.yml";
   "ferroada.privileged.service"; "ferroada.service"; "ferroada.toml"; "nginx.conf.snippet"; "ORIGIN_LOCK.md"; "README.md";
   "tmpfiles.d/ferroada.conf"; "VISIBILIDADE.md"].
(** [src/init/templates.rs: static ALL_TOPOLOGIES] *)
Definition ALL_TOPOLOGIES : list (string * list string) :=
  [("_skeleton", COMMON_FILES ++ ["ferroada.proxied.service"; "haproxy.cfg.snippet"]); ("cdn-edge", COMMON_FILES);
   ("hostinger-origin", COMMON_FILES ++ ["haproxy.cfg.snippet"]); ("vercel-origin", COMMON_FILES ++ ["haproxy.cfg.snippet"]);
   ("vps-api", COMMON_FILES ++ ["haproxy.cfg.snippet"]); ("vps-full", COMMON_FILES ++ ["haproxy.cfg.snippet"]);
   ("vps-site", COMMON_FILES ++ ["haproxy.cfg.snippet"]);
   ("vps-supabase-cloud", COMMON_FILES ++ ["ferroada.toml.bff.example"; "haproxy.cfg.snippet"]);
   ("vps-supabase-selfhost", COMMON_FILES ++ ["haproxy.cfg.snippet"])].
(** [src/init/templates.rs: fn topology + fn all_topologies] *)
Definition pack_files (name : string) : option (list string) := snd <$> List.find (fun p => String.eqb p.1 name) ALL_TOPOLOGIES.
(** [src/init/templates.rs: fn init_topology] *)
Definition init_topology (name : string) : option (list string) := if String.eqb name "_skeleton" then None else pack_files name.

(** [src/init/mod.rs: fn map_output_name] *)
Definition map_output_name (name : string) (listen : ListenMode) : option string :=
  let named (s : string) := String.eqb name s in
  let when (l : ListenMode) (as_ : string) := if decide (listen = l) then Some as_ else None in
  if named "ferroada.privileged.service" then when Privileged "ferroada.service"
  else if named "ferroada.service" then when Proxied "ferroada.service"
  else if named "ferroada.proxied.service" then None
  else if named "docker-compose.caddy.yml" then when Proxied "docker-compose.yml"
  else if named "docker-compose.yml" then when Privileged "docker-compose.yml"
  else if named ".env.caddy.example" then when Proxied ".env.example"
  else if named ".env.example" then when Privileged ".env.example"
  else if named "Caddyfile" then when Proxied "Caddyfile"
  else if named "nginx.conf.snippet" then when Proxied "nginx.conf.snippet"
  else Some name.

(** [str::replace] *)
Definition replace (from to text : bytes) : bytes := join to (split_str from text).
(** [str::replacen] of one occurrence. *)
Definition replace_first (from to text : bytes) : bytes :=
  match split_str from text with a :: b :: rest => a ++ to ++ join from (b :: rest) | _ => text end.

(** [src/init/mod.rs: fn interpolate] *)
Definition interpolate (text : bytes) (plan : Plan) : bytes :=
  let t := replace (lit "{{ORIGIN}}") (origin plan) text in
  let t := match public_host plan with Some host => replace (lit "{{PUBLIC_HOST}}") host t | None => t end in
  match supabase_host plan with Some host => replace (lit "{{SUPABASE_HOST}}") host t | None => t end.

(** [src/init/mod.rs: fn join_lines] *)
Definition join_lines (ls : list bytes) (trailing_newline : bool) : bytes := written ls trailing_newline.
(** [src/init/mod.rs: fn set_env_line] *)
Definition set_env_line (content : bytes) (key : string) (value : bytes) : bytes :=
  join_lines (set_lines content key value) (ends_with content nl).

(** [src/init/mod.rs: fn overlay_env] *)
Definition overlay_env (content : bytes) (plan : Plan) (token : option bytes) : bytes :=
  let t := set_env_line content "ORIGIN" (origin plan) in
  let t := match public_host plan with Some host => set_env_line t "PUBLIC_HOST" host | None => t end in
  let t := set_env_line t "TRUSTED_PROXIES" (trusted_csv plan) in
  let t := match token with Some token => set_env_line t "DASHBOARD_TOKEN" token | None => t end in
  if bool_decide (listen plan = Proxied) && negb (bool_decide (topology plan = CdnEdge)) then set_env_line t "PROXY_PROTOCOL" (lit "true") else t.

(** [src/init/mod.rs: fn replace_first_backend] *)
Definition escape_toml (s : bytes) : bytes := flat_map (fun c => if c =? 92 then [92; 92] else if c =? 34 then [92; 34] else [c]) s.
Fixpoint first_backend (escaped : bytes) (ls : list bytes) : list bytes :=
  match ls with
  | [] => []
  | line :: ls =>
      let trimmed := trim_start line in
      if starts_with trimmed (lit "backend = ")
      then (take (length line - length trimmed) line ++ lit "backend = " ++ [34] ++ escaped ++ [34]) :: ls
      else line :: first_backend escaped ls
  end.
Definition replace_first_backend (toml origin : bytes) : bytes :=
  join_lines (first_backend (escape_toml origin) (lines toml)) (ends_with toml nl).

(** [src/init/mod.rs: fn rewrite_compose_for_standalone] *)
Definition rewrite_compose_for_standalone (content : bytes) (listen : ListenMode) : bytes :=
  let body := replace (lit "    build:
      context: ../../..
      dockerfile: Dockerfile
") [] content in
  match listen with
  | Proxied => replace (lit "docker-compose.caddy.yml") (lit "docker-compose.yml") (replace (lit ".env.caddy") (lit ".env") body)
  | Privileged => replace (lit "Se não há fullchain, use docker-compose.caddy.yml — nunca os dois.
") [] body
  end.

(** [src/init/mod.rs: const TLS_CHOICE + const SYSTEMD_GIT] *)
Definition TLS_CHOICE : bytes := lit "4. Escolha **um** caminho de TLS — nunca os dois na :443:
   - Há `fullchain.pem` e chave: copie `.env.example` → `.env`, descomente `TLS_CERT_PATH` / `TLS_KEY_PATH`, use `docker-compose.yml`.
   - Não há: copie `.env.caddy.example` → `.env.caddy` e use `docker-compose.caddy.yml` (Caddy publica 80 e 443; Ferroada só na overlay).".
Definition SYSTEMD_GIT : bytes := lit "O unit desta pasta (`ferroada.service`) escuta 0.0.0.0:3000/3443 via `PROXY_LISTEN`/`TLS_LISTEN`, sem cap. Não promete :80.
`ferroada.privileged.service` publica :80/:443 **e** traz `AmbientCapabilities` + `CapabilityBoundingSet=CAP_NET_BIND_SERVICE` — o binário não é setuid; knob sem cap falha o bind. Copie **um** dos dois para `/etc/systemd/system/ferroada.service`, nunca os dois.
`ferroada init --listen-mode privileged` emite o unit :80+cap; `--listen-mode proxied` emite 127.0.0.1:3000 sem cap e o Caddy na frente.
Coloque o binário em `/usr/local/bin/ferroada` antes. Se o Caddy corre no host, use o `Caddyfile` desta pasta — não um `reverse_proxy` nu. Se esse Caddyfile tem `proxy_protocol v2`, o env tem de ligar `PROXY_PROTOCOL` (`.env.caddy.example`, nunca `.env.example`); senão o Ferroada recusa a conexão. `TRUSTED_PROXIES=127.0.0.1/32,::1/128` (mais o snapshot CDN, se houver).".

(** [src/init/mod.rs: fn pack_banner] *)
Definition pack_banner (plan : Plan) : bytes :=
  let name := lit (topology_as_str (topology plan)) in
  match listen plan with
  | Privileged => lit "Gerado por `ferroada init --topology " ++ name ++ lit " --listen-mode privileged`.
O `.env` já tem token e origin. Unit: :80/:443 + CAP_NET_BIND_SERVICE.
Compose: `docker compose --env-file .env up -d` neste diretório. Não há Caddy neste pack.

"
  | Proxied => lit "Gerado por `ferroada init --topology " ++ name ++ lit " --listen-mode proxied`.
O `.env` já tem token e origin. Unit: 127.0.0.1:3000, Caddy na frente.
Compose: `docker compose --env-file .env up -d` neste diretório.
"
      ++ (if decide (topology plan = CdnEdge) then lit "Este pack NÃO liga PROXY_PROTOCOL (Cloudflare não prefixa v2; identidade = CIDR + X-Forwarded-For)."
          else lit "PROXY_PROTOCOL=true: Caddy/nginx/HAProxy/NLB TCP têm de prefixar v2. GET cru é recusado.") ++ lit "
"
  end.

(** [src/init/mod.rs: fn adapt_checklist] *)
Definition adapt_checklist (body : bytes) (plan : Plan) : bytes :=
  let body := replace_first (lit "Copie `.env.example` para `.env`.") (lit "O `.env` já foi gerado com origin, host e token. Não o substitua pelo `.env.example`.") body in
  let body := replace (lit "   ```bash
   openssl rand -hex 32
   ```
   Cole o resultado em `DASHBOARD_TOKEN`. Não deixe o placeholder.
") (lit "O token já está no `.env`. Não gere outro com openssl a menos que o queira rodar.
") body in
  let step3 := match listen plan with
    | Privileged => lit "3. `ferroada.toml` já usa o host público. O `backend` no toml é o `--origin` (http:// ou https://; o processo resolve DNS no arranque). Não há Caddyfile neste diretório."
    | Proxied => lit "3. `ferroada.toml` e o `Caddyfile` já usam o host público. O `backend` no toml é o `--origin` (http:// ou https://; o processo resolve DNS no arranque)."
    end in
  let body := replace (lit "3. Substitua `{{PUBLIC_HOST}}` em `ferroada.toml` e no `Caddyfile`. O `backend` no toml já é um URL `http://`/`https://` (o processo resolve DNS no arranque — se for a sua app, mude esse URL **antes** de subir).") step3 body in
  let body := replace (lit "## TLS

- Com certificado em `./certs/fullchain.pem` e `privkey.pem`: descomente `TLS_CERT_PATH` / `TLS_KEY_PATH` no `.env` e use `docker-compose.yml`.
- Sem certificado: use `docker-compose.caddy.yml` e `.env.caddy`. O Caddy pede o certificado.
- **Nunca** os dois a publicar 443. O unit systemd também fica em 3000/3443; firewall 80/443 só com Caddy à frente ou com o mapa Docker.")
    (match listen plan with
     | Privileged => lit "## TLS

Este pack é privileged: o Ferroada termina TLS se `TLS_CERT_PATH`/`TLS_KEY_PATH` estiverem no `.env`. Não há Caddy neste diretório."
     | Proxied => lit "## TLS

Este pack é proxied: o Caddy termina TLS na frente. Não publique :443 no Ferroada."
     end) body in
  let step7 :=
    if bool_decide (listen plan = Proxied) || negb (is_empty (trusted_csv plan))
    then lit "7. Não esvazie `TRUSTED_PROXIES`. Com Caddy na frente precisa do peer (`172.28.0.2/32` no Docker, `127.0.0.1/32,::1/128` no host). Com CDN, o snapshot já está nesta lista."
    else lit "7. Sem edge na frente, `TRUSTED_PROXIES` pode ficar vazio: o processo ignora `X-Forwarded-For` e já o diz no log. Isso é o esperado, não um furo silencioso." in
  let body := replace (lit "7. Sem edge na frente, deixe `TRUSTED_PROXIES` vazio: o processo ignora `X-Forwarded-For` e já o diz no log. Isso é o esperado, não um furo silencioso.") step7 body in
  let tls := match listen plan with
    | Privileged => lit "4. Este pack é `--listen-mode privileged`: o unit escuta :80/:443 com `CAP_NET_BIND_SERVICE`. Docker: `docker compose --env-file .env up -d` neste diretório (mapa 80:3000). Descomente `TLS_CERT_PATH`/`TLS_KEY_PATH` no `.env` se o Ferroada termina TLS. Não há Caddy neste diretório."
    | Proxied => lit "4. Este pack é `--listen-mode proxied`: Caddy publica 80/443; o Ferroada escuta 127.0.0.1:3000 (systemd) ou a overlay (Docker). Suba com `docker compose --env-file .env up -d` neste diretório. Não há compose do Ferroada a publicar 443."
    end in
  let body := replace TLS_CHOICE tls body in
  let systemd := match listen plan with
    | Privileged => lit "O `ferroada.service` deste pack já é o caminho privileged: `PROXY_LISTEN=0.0.0.0:80`, `TLS_LISTEN=0.0.0.0:443`, `AmbientCapabilities` e `CapabilityBoundingSet=CAP_NET_BIND_SERVICE`. Copie-o para `/etc/systemd/system/ferroada.service`. Não use Caddy a publicar 80/443 no mesmo host.
Coloque o binário em `/usr/local/bin/ferroada` antes."
    | Proxied =>
        if decide (topology plan = CdnEdge)
        then lit "O `ferroada.service` deste pack já é o caminho proxied: `PROXY_LISTEN=127.0.0.1:3000` sem cap. Caddy na frente em :80/:443. Use o `Caddyfile` desta pasta (sem PROXY protocol). Não ligue `PROXY_PROTOCOL`. `TRUSTED_PROXIES=127.0.0.1/32,::1/128` (mais o snapshot CDN).
Coloque o binário em `/usr/local/bin/ferroada` antes."
        else lit "O `ferroada.service` deste pack já é o caminho proxied: `PROXY_LISTEN=127.0.0.1:3000` sem cap. Caddy na frente em :80/:443. Use o `Caddyfile` desta pasta (já manda PROXY v2); `PROXY_PROTOCOL=true` já está no `.env`. Um `reverse_proxy` nu recusa a conexão. `TRUSTED_PROXIES=127.0.0.1/32,::1/128` (mais o snapshot CDN, se houver).
Coloque o binário em `/usr/local/bin/ferroada` antes."
    end in
  pack_banner plan ++ replace SYSTEMD_GIT systemd body.

(** [src/init/mod.rs: fn adapt_readme] *)
Definition adapt_readme (body : bytes) (plan : Plan) : bytes :=
  let edits : list (bytes * bytes) := match listen plan with
    | Privileged =>
        [(lit "| `.env.caddy.example` | Caddy na frente, com `PROXY_PROTOCOL=true` |
", []);
         (lit "| `.env.caddy.example` | Caddy na frente; sem PROXY protocol (Cloudflare não prefixa v2) |
", []);
         (lit "| `docker-compose.caddy.yml` | Caddy publica 80/443 |
", []);
         (lit "| `ferroada.service` | systemd em 3000/3443; `ferroada.privileged.service` é :80+:443+cap |", lit "| `ferroada.service` | systemd :80/:443 + CAP_NET_BIND_SERVICE |");
         (lit "| `Caddyfile` / `nginx.conf.snippet` | TLS local na frente |
", [])]
    | Proxied =>
        [(lit "| `.env.caddy.example` | Caddy na frente, com `PROXY_PROTOCOL=true` |
", []);
         (lit "| `.env.caddy.example` | Caddy na frente; sem PROXY protocol (Cloudflare não prefixa v2) |
", []);
         (lit "| `docker-compose.yml` | Ferroada publica 80/443 |
", []);
         (lit "| `docker-compose.caddy.yml` | Caddy publica 80/443 |", lit "| `docker-compose.yml` | Caddy publica 80/443 |");
         (lit "| `ferroada.service` | systemd em 3000/3443; `ferroada.privileged.service` é :80+:443+cap |", lit "| `ferroada.service` | systemd 127.0.0.1:3000, sem cap |")]
    end in
  pack_banner plan ++ fold_left (fun b e => replace e.1 e.2 b) edits body.

(** [src/init/mod.rs: fn prepend_placement_note] *)
Definition prepend_placement_note (body : bytes) (placement : StaticPlacement) : bytes :=
  match placement with
  | FerroadaFront => lit "Receita escolhida: ferroada-front — a VPS é o origin público; a Hostinger só aceita o IP desta VPS.

"
  | Public => lit "Receita escolhida: public — o estático na Hostinger NÃO passa pelo Ferroada.

"
  | Cdn => lit "Receita escolhida: cdn — Cloudflare na frente do Ferroada; Hostinger como origin do cache de estático. Junte o pack cdn-edge.

"
  end ++ body.

(** [src/init/mod.rs: fn ensure_trailing_newline] *)
Definition ensure_trailing_newline (body : bytes) : bytes := if ends_with body nl then body else body ++ nl.

(** ** The machine *)

(** Files, directories, what was shown, the lines that will be typed ([None] for one that cannot be read). *)
Record Machine : Type := { m_files : gmap bytes bytes; m_dirs : gset bytes; m_shown : list bytes; m_typed : list (option bytes) }.

(** What the wizard may do, what a write that fails leaves, whether the terminal takes text and is one, the random bytes of the system,
    and the embedded texts. *)
Record Station : Type := {
  may_write : bytes -> bool; may_make : bytes -> bool; may_list : bytes -> bool; left_torn : bytes -> option bytes;
  terminal_ok : bool; is_terminal : bool; random : option bytes; embedded : Embedded }.

Definition Init (A : Type) : Type := Machine -> Machine * result InitError A.
#[export] Instance init_ret : MRet Init := fun _ a m => (m, Ok a).
#[export] Instance init_bind : MBind Init := fun _ _ f x m => match x m with (m, Ok a) => f a m | (m, Err e) => (m, Err e) end.
Definition given_by {A} (r : result InitError A) : Init A := fun m => (m, r).

Definition show_on (m : Machine) (text : bytes) : Machine := {|
  m_files := m_files m; m_dirs := m_dirs m; m_shown := m_shown m ++ [text]; m_typed := m_typed m |}.
Definition put_file (m : Machine) (path body : bytes) : Machine := {|
  m_files := <[path := body]> (m_files m); m_dirs := m_dirs m; m_shown := m_shown m; m_typed := m_typed m |}.
Definition put_dir (m : Machine) (path : bytes) : Machine := {|
  m_files := m_files m; m_dirs := {[ path ]} ∪ m_dirs m; m_shown := m_shown m; m_typed := m_typed m |}.

(** A path under a directory. *)
Definition under (dir path : bytes) : bool := starts_with path (if ends_with dir [47] then dir else dir ++ [47]).
(** Whether a directory has entries; no path is the current directory's own, which is not a name. *)
Definition has_entries (m : Machine) (dir : bytes) : bool :=
  existsb (under dir) (map fst (map_to_list (m_files m))) || existsb (under dir) (elements (m_dirs m)).
(** [Path::exists] The empty path does not exist. *)
Definition path_exists (m : Machine) (path : bytes) : bool :=
  negb (is_empty path) && (bool_decide (is_Some (m_files m !! path)) || bool_decide (path ∈ m_dirs m) || has_entries m path).

Section Wizard.
Context (st : Station).

Definition write_terminal (e : InitError) (text : bytes) : Init unit := fun m =>
  if terminal_ok st then (show_on m text, Ok tt) else (m, Err e).

(** [src/init/mod.rs: fn read_line] The end of the input is an empty line. *)
Definition read_line : Init bytes := fun m =>
  match m_typed m with
  | [] => (m, Ok [])
  | line :: typed =>
      ({| m_files := m_files m; m_dirs := m_dirs m; m_shown := m_shown m; m_typed := typed |}, ok_or TerminalRead (trim <$> line))
  end.

(** A question, and the flag it fills: an empty answer fills none, except where [always]. *)
Definition ask (fl : Flags) (name : FlagName) (always : bool) (question : list bytes) : Init Flags :=
  match given fl name with
  | Some _ => mret fl
  | None =>
      _ ← fold_right (fun q rest => _ ← write_terminal TerminalWrite q; rest) (mret tt) question;
      line ← read_line;
      mret (if always || negb (is_empty line) then with_flag fl name line else fl)
  end.

(** [src/init/mod.rs: fn resolve_interactive] *)
Definition resolve_interactive (fl : Flags) : Init Plan :=
  fl ← ask fl FTopology true [lit "Topologia (vps-site, vps-api, vps-supabase-selfhost, vps-supabase-cloud, vps-full, hostinger-origin, vercel-origin, cdn-edge):" ++ nl];
  topology ← given_by (topology_parse (default [] (given fl FTopology)));
  fl ← ask fl FOrigin true [lit "Origin (http:// ou https://): "];
  let origin := trim (default [] (given fl FOrigin)) in
  _ ← (if is_empty origin then given_by (Err NeedsOrigin) else mret tt);
  _ ← given_by (validate_origin origin);
  fl ← ask fl FPublicHost false [lit "Host público (obrigatório): "];
  _ ← (if bool_decide (given fl FPublicHost = None) then given_by (Err (NeedsHost topology)) else mret tt);
  fl ← (if decide (topology = VpsSupabaseCloud) then ask fl FSupabaseHost false [lit "vps-supabase-cloud: opção 1 = não proxyar a Cloud (Enter). Opção 2 = host dedicado." ++ nl; lit "Host do BFF Supabase (opção 2, vazio = opção 1): "] else mret fl);
  fl ← (if decide (topology = HostingerOrigin) then ask fl FStaticPlacement false [lit "static-placement (ferroada-front/public/cdn) [ferroada-front]: "] else mret fl);
  fl ← ask fl FOut false [lit "Diretório de saída [" ++ DEFAULT_OUT ++ lit "]: "];
  fl ← ask fl FListenMode false [lit "listen-mode (privileged/proxied) [proxied]: "];
  fl ← ask fl FEdge false [lit "edge (none/cloudflare/fastly/akamai/caddy/nginx) ["
                           ++ (if decide (topology = CdnEdge) then lit "cloudflare" else lit "none") ++ lit "]: "];
  fl ← ask fl FTrustedProxies false [lit "trusted-proxies (auto/none/CIDR,CIDR) ["
                           ++ (if decide (topology = CdnEdge) then lit "auto" else lit "none") ++ lit "]: "];
  given_by (finish_plan (embedded st) (random st) fl topology origin).

(** ** The pack *)

(** [fs::create_dir_all] Nothing is to be made for the empty path. *)
Definition create_dir_all (path : bytes) : Init unit := fun m =>
  if is_empty path then (m, Ok tt) else if may_make st path then (put_dir m path, Ok tt) else (m, Err (DirNotMade path)).

(** [src/init/mod.rs: fn prepare_out] *)
Definition prepare_out (out : bytes) : Init unit := fun m =>
  if path_exists m out then
    if negb (may_list st out) || bool_decide (is_Some (m_files m !! out)) then (m, Err (OutNotListed out))
    else if has_entries m out then (m, Err (OutNotEmpty out))
    else (m, Ok tt)
  else create_dir_all out m.

(** [Path::parent] *)
Definition parent (path : bytes) : bytes := match rsplit_once 47 path with Some (dir, _) => dir | None => [] end.

(** [fs::write] *)
Definition fs_put (path body : bytes) : Init unit := fun m =>
  if may_write st path then (put_file m path body, Ok tt)
  else (match left_torn st path with Some part => put_file m path part | None => m end, Err (FileNotWritten path)).

(** [src/init/mod.rs: fn write_file] *)
Definition write_file (path body : bytes) : Init unit := _ ← create_dir_all (parent path); fs_put path body.

(** [src/init/mod.rs: fn emit @455-494] The body of a file before the settings are laid over it. *)
Definition render (plan : Plan) (files : list string) (name mapped : string) : result InitError bytes :=
  let text n := pack_text (embedded st) (topology_as_str (topology plan)) n in
  let body := interpolate (if String.eqb mapped "CHECKLIST.md" then adapt_checklist (text name) plan
                           else if String.eqb mapped "README.md" then adapt_readme (text name) plan
                           else text name) plan in
  body ← (if String.eqb mapped "ferroada.toml" then
            let body := replace_first_backend body (origin plan) in
            if bool_decide (topology plan = VpsSupabaseCloud) && bool_decide (is_Some (supabase_host plan)) then
              if negb (existsb (String.eqb "ferroada.toml.bff.example") files) then Err BffMissing
              else
                let bff := interpolate (text "ferroada.toml.bff.example") plan in
                Ok (ensure_trailing_newline body ++ nl ++ ensure_trailing_newline bff)
            else Ok body
          else Ok body);
  let body := if String.eqb mapped "ferroada.service" && bool_decide (listen plan = Proxied)
              then interpolate (proxied_unit (embedded st)) plan else body in
  let body := if ends_with (lit mapped) (lit "compose.yml") then rewrite_compose_for_standalone body (listen plan) else body in
  if negb (String.eqb mapped "ferroada.toml.bff.example") && (contains body (lit "{{PUBLIC_HOST}}") || contains body (lit "{{ORIGIN}}"))
  then Err (PlaceholderLeft mapped)
  else Ok body.

(** [src/init/mod.rs: fn emit @451-505] The loop; whether a file of settings was written. *)
Fixpoint emit_files (plan : Plan) (files todo : list string) (wrote_env : bool) : Init bool :=
  match todo with
  | [] => mret wrote_env
  | name :: todo =>
      match map_output_name name (listen plan) with
      | None => emit_files plan files todo wrote_env
      | Some mapped =>
          body ← given_by (render plan files name mapped);
          '(body, wrote_env) ←
            (if String.eqb mapped ".env.example" then
               let body := overlay_env body plan None in
               _ ← write_file (join_path (out plan) (lit ".env")) (overlay_env body plan (Some (dashboard_token plan)));
               mret (body, true)
             else mret (body, wrote_env));
          let body := if String.eqb mapped "VISIBILIDADE.md" && bool_decide (topology plan = HostingerOrigin)
                      then prepend_placement_note body (static_placement plan) else body in
          _ ← write_file (join_path (out plan) (lit mapped)) (ensure_trailing_newline body);
          emit_files plan files todo wrote_env
      end
  end.

(** [src/init/mod.rs: fn emit] *)
Definition emit (plan : Plan) : Init unit :=
  _ ← prepare_out (out plan);
  files ← given_by (ok_or (TopologyUnknown (lit (topology_as_str (topology plan)))) (init_topology (topology_as_str (topology plan))));
  wrote ← emit_files plan files files false;
  if negb wrote then given_by (Err PackWithoutEnv)
  else
    _ ← write_file (join_path (out plan) (lit ".gitignore")) (lit ".env
.env.caddy
certs/
");
    write_terminal PrintPanic (lit "Pack escrito em " ++ out plan ++ nl ++ lit "  topologia: " ++ lit (topology_as_str (topology plan)) ++ nl
      ++ lit "  listen-mode: "
      ++ match listen plan with
         | Privileged => lit "privileged (:80 + CAP_NET_BIND_SERVICE)"
         | Proxied => lit "proxied (127.0.0.1:3000 + Caddy)"
         end ++ lit "
  O .env já tem o token do dashboard — não commite este ficheiro.
  Próximo passo: leia CHECKLIST.md neste diretório.
").

(** [src/init/mod.rs: fn run] *)
Definition run (args : list bytes) : Init unit :=
  if existsb (fun a => one_of a ["--help"; "-h"]) args then write_terminal PrintPanic HELP
  else
    fl ← given_by (parse_flags args no_flags);
    plan ← (if negb (non_interactive fl) && is_terminal st then resolve_interactive fl
            else given_by (resolve_non_interactive (embedded st) (random st) fl));
    emit plan.
End Wizard.

(** ** What the wizard leaves alone *)

(** An action that changes no file, and whose result satisfies [Q]. *)
Definition quiet {A} (x : Init A) (Q : A -> Prop) : Prop := forall m, m_files (x m).1 = m_files m /\ forall a, (x m).2 = Ok a -> Q a.

Lemma quiet_ret {A} (a : A) (Q : A -> Prop) : Q a -> quiet (mret a) Q.
Proof. intros Hq m. split; [done|]. by intros b [= <-]. Qed.

Lemma quiet_given {A} (r : result InitError A) (Q : A -> Prop) : (forall a, r = Ok a -> Q a) -> quiet (given_by r) Q.
Proof. intros Hq m. split; [done|]. exact Hq. Qed.

Lemma quiet_bind {A B} (x : Init A) (f : A -> Init B) (P : A -> Prop) Q : quiet x P -> (forall a, P a -> quiet (f a) Q) -> quiet (x ≫= f) Q.
Proof.
  intros Hx Hf m. specialize (Hx m) as [Hm Hp]. unfold mbind, init_bind. destruct (x m) as [m1 [a|e]]; cbn in *; [|by split].
  destruct (Hf a (Hp a eq_refl) m1) as [H1 H2]. split; [congruence|done].
Qed.

Section Spared.
Context (st : Station).

Lemma quiet_terminal e text : quiet (write_terminal st e text) (fun _ => True).
Proof. intros m. unfold write_terminal. by destruct (terminal_ok st). Qed.

Lemma quiet_line : quiet read_line (fun _ => True).
Proof. intros m. unfold read_line. by destruct (m_typed m). Qed.

(** A question that takes no empty answer leaves the output directory named, if it was. *)
Definition out_named (fl : Flags) : Prop := given fl FOut <> Some [].

Lemma quiet_ask fl name always question : (always = true -> name <> FOut) -> out_named fl -> quiet (ask st fl name always question) out_named.
Proof.
  intros Hn Hfl. unfold ask. destruct (given fl name); [by apply quiet_ret|]. eapply (quiet_bind _ _ (fun _ => True)).
  - induction question as [|q qs IH]; cbn [fold_right]; [by apply quiet_ret|]. eapply (quiet_bind _ _ (fun _ => True)); [apply quiet_terminal|]. by intros _ _.
  - intros _ _. eapply quiet_bind; [apply quiet_line|]. intros line _. apply quiet_ret. destruct (always || negb (is_empty line)) eqn:E; [|done].
    unfold out_named, with_flag in *. cbn. case_decide as Hd; [|done]. intros [= ->]. subst name. destruct always; [by apply Hn|done].
Qed.

Definition plan_named (plan : Plan) : Prop := out plan <> [].

Lemma finish_named E r fl t o : out_named fl -> quiet (given_by (finish_plan E r fl t o)) plan_named.
Proof.
  intros Hfl. apply quiet_given. intros plan H. unfold finish_plan in H.
  apply bind_ok in H as (? & _ & H). apply bind_ok in H as (edge & _ & H). apply bind_ok in H as (listen & _ & H). cbv zeta in H.
  apply bind_ok in H as (placement & _ & H). apply bind_ok in H as (? & _ & H). apply bind_ok in H as (token & _ & H).
  apply bind_ok in H as (csv & _ & H). injection H as <-. unfold plan_named, out_named in *. cbn. by destruct (given fl FOut) as [[|]|].
Qed.

Lemma interactive_named fl : out_named fl -> quiet (resolve_interactive st fl) plan_named.
Proof.
  intros Hfl. unfold resolve_interactive.
  repeat first
    [ apply finish_named; assumption
    | eapply (quiet_bind _ _ out_named); [first [apply quiet_ask; [done|assumption] | case_decide; [apply quiet_ask; [done|assumption]|by apply quiet_ret]] | intros ? ?; cbv beta]
    | eapply (quiet_bind _ _ (fun _ => True)); [first [by apply quiet_given | destruct (is_empty _) ; [by apply quiet_given|by apply quiet_ret] | case_bool_decide; [by apply quiet_given|by apply quiet_ret]]|intros ? _; cbv beta zeta] ].
Qed.

(** An action that changes nothing outside a directory. *)
Definition within {A} (dir : bytes) (x : Init A) : Prop := forall m path, under dir path = false -> m_files (x m).1 !! path = m_files m !! path.

Lemma within_bind {A B} dir (x : Init A) (f : A -> Init B) : within dir x -> (forall a, within dir (f a)) -> within dir (x ≫= f).
Proof.
  intros Hx Hf m path Hp. specialize (Hx m path Hp). unfold mbind, init_bind. destruct (x m) as [m1 [a|e]]; cbn in *; [|done].
  by rewrite Hf.
Qed.

Lemma within_quiet {A} dir (x : Init A) Q : quiet x Q -> within dir x.
Proof. intros Hq m path _. by destruct (Hq m) as [-> _]. Qed.

Lemma join_under dir name : dir <> [] -> under dir (join_path dir name) = true.
Proof.
  intros Hd. unfold under, join_path. destruct dir as [|c dir]; [done|]. cbn [is_empty]. apply starts_with_spec.
  destruct (ends_with (c :: dir) [47]); [by eexists|]. exists name. by rewrite <- app_assoc.
Qed.

Lemma within_write dir name body : dir <> [] -> within dir (write_file st (join_path dir name) body).
Proof.
  intros Hd. unfold write_file. apply within_bind.
  - intros m path _. unfold create_dir_all. destruct (is_empty _); [done|]. by destruct (may_make st _).
  - intros _ m path Hp. assert (path <> join_path dir name) as Hne by (intros ->; by rewrite join_under in Hp).
    unfold fs_put. destruct (may_write st _); cbn; [by rewrite lookup_insert_ne|]. destruct (left_torn st _); cbn; [by rewrite lookup_insert_ne|done].
Qed.

Lemma within_files plan files : out plan <> [] -> forall todo wrote, within (out plan) (emit_files st plan files todo wrote).
Proof.
  intros Ho. induction todo as [|name todo IH]; intros wrote; cbn [emit_files]; [apply (within_quiet _ _ (fun _ => True)); by apply quiet_ret|].
  destruct (map_output_name _ _) as [mapped|]; [|done]. apply within_bind; [apply (within_quiet _ _ (fun _ => True)); by apply quiet_given|].
  intros body. apply within_bind; [|intros [b w]; apply within_bind; [by apply within_write|done]].
  destruct (String.eqb mapped ".env.example"); [|apply (within_quiet _ _ (fun _ => True)); by apply quiet_ret].
  apply within_bind; [by apply within_write|]. intros _. apply (within_quiet _ _ (fun _ => True)). by apply quiet_ret.
Qed.

(** A directory without entries holds no file. *)
Lemma no_entries m dir path body : has_entries m dir = false -> m_files m !! path = Some body -> under dir path = false.
Proof.
  unfold has_entries. intros [He _]%orb_false_iff Hf. destruct (under dir path) eqn:E; [|done]. exfalso.
  assert (existsb (under dir) (map fst (map_to_list (m_files m))) = true); [|congruence].
  apply existsb_exists. exists path. split; [|done]. apply list_elem_of_In, list_elem_of_fmap. exists (path, body). split; [done|]. by apply elem_of_map_to_list.
Qed.

Lemma emit_spares plan m path body : out plan <> [] -> m_files m !! path = Some body -> m_files (emit st plan m).1 !! path = Some body.
Proof.
  intros Ho Hf. unfold emit, mbind at 1, init_bind at 1. destruct (prepare_out st (out plan) m) as [m1 [[]|e]] eqn:Ep.
  - assert (m_files m1 = m_files m /\ has_entries m (out plan) = false) as [Hm He].
    { unfold prepare_out in Ep. destruct (path_exists m (out plan)) eqn:Ex.
      - destruct (_ || _); [done|]. destruct (has_entries m (out plan)) eqn:He; [done|]. by injection Ep as <-.
      - split; [unfold create_dir_all in Ep; destruct (is_empty _); [by injection Ep as <-|]; by destruct (may_make st _); [injection Ep as <-|]|].
        unfold path_exists in Ex. destruct (out plan); [done|]. cbn [is_empty negb andb] in Ex. by apply orb_false_iff in Ex as [_ ?]. }
    rewrite <- Hf, <- Hm. pose proof (no_entries _ _ _ _ He Hf) as Hu.
    assert (forall A (x : Init A), within (out plan) x -> m_files (x m1).1 !! path = m_files m1 !! path) as Hw by (intros A x Hx; by apply Hx).
    apply Hw. apply within_bind; [apply (within_quiet _ _ (fun _ => True)); by apply quiet_given|]. intros files.
    apply within_bind; [by apply within_files|]. intros wrote. destruct (negb wrote); [apply (within_quiet _ _ (fun _ => True)); by apply quiet_given|].
    apply within_bind; [by apply within_write|]. intros _. eapply within_quiet, quiet_terminal.
  - cbn. unfold prepare_out, create_dir_all in Ep. repeat case_match; by simplify_eq/=.
Qed.

(** C23. The wizard overwrites nothing: whatever its flags, answers and failures, every file there was keeps its content, unless the
    output directory is given as an empty text. *)
Theorem init_overwrites_nothing (args : list bytes) (m : Machine) (path body : bytes) :
  (forall fl, parse_flags args no_flags = Ok fl -> given fl FOut <> Some []) ->
  m_files m !! path = Some body -> m_files (run st args m).1 !! path = Some body.
Proof.
  intros Hout Hf. unfold run. destruct (existsb _ args); [by destruct (quiet_terminal PrintPanic HELP m) as [-> _]|].
  destruct (parse_flags args no_flags) as [fl|e]; [|done]. specialize (Hout fl eq_refl). unfold mbind, init_bind at 1. cbn [given_by].
  assert (quiet (if negb (non_interactive fl) && is_terminal st then resolve_interactive st fl
                 else given_by (resolve_non_interactive (embedded st) (random st) fl)) plan_named) as Hq.
  { destruct (_ && _); [by apply interactive_named|]. apply quiet_given. intros plan. unfold resolve_non_interactive, mbind, result_bind. intros H.
    repeat case_match; simplify_eq/=. all: eapply (finish_named _ _ _ _ _ Hout m); exact H. }
  destruct (Hq m) as [Hm Hp]. unfold init_bind. set (x := if _ && _ then _ else _) in *. clearbody x.
  destruct (x m) as [m1 [plan|e]]; cbn [fst snd] in *; [|by rewrite Hm]. apply emit_spares; [by apply Hp|by rewrite Hm].
Qed.
End Spared.

(** ** The settings of the pack *)

Section Settings.
Context (st : Station).

(** Text that can stand in a line. *)
Definition plain (b : bytes) : Prop := (10 ∉ b) /\ (13 ∉ b).

Lemma plain_line key value : plain (lit key) -> plain value -> line_ok (lit key ++ [61] ++ value).
Proof.
  intros [H1 H2] [H3 H4]. split; [|apply no_cr_line]; rewrite !elem_of_app, list_elem_of_singleton; intros [?|[?|?]]; done.
Qed.

Lemma written_elem ls t x : x ∈ written ls t -> x = 10 \/ exists l, l ∈ ls /\ x ∈ l.
Proof.
  unfold written. assert (forall y, y ∈ join nl ls -> y = 10 \/ exists l, l ∈ ls /\ y ∈ l) as Hj by (intros y Hy; by apply join_elem).
  destruct t; [|apply Hj]. rewrite elem_of_app. intros [Hx|Hx]; [by apply Hj|left]. by apply list_elem_of_singleton in Hx.
Qed.

(** Setting a line brings in nothing but the line. *)
Lemma set_env_line_no_cr content key value : 13 ∉ content -> plain (lit key) -> plain value -> 13 ∉ set_env_line content key value.
Proof.
  intros Hc [_ Hk] [_ Hv] Hx. apply written_elem in Hx as [?|(l & Hl & Hx)]; [done|].
  assert (13 ∉ (lit key ++ [61]) ++ value) as Hn by (rewrite !elem_of_app, list_elem_of_singleton; intros [[?|?]|?]; done).
  assert (forall k, k ∈ map (fun line => if starts_with line (lit key ++ [61]) then (lit key ++ [61]) ++ value else line) (lines content) -> 13 ∉ k) as Hm.
  { intros k (y & -> & Hy)%list_elem_of_fmap Hin. destruct (starts_with y _); [done|]. apply Hc. by eapply lines_sub. }
  unfold set_lines in Hl. cbv zeta in Hl. destruct (existsb _ _); [by apply (Hm l)|]. apply elem_of_app in Hl as [Hl|Hl]; [by apply (Hm l)|].
  apply list_elem_of_singleton in Hl as ->. done.
Qed.

(** The names of the settings. *)
Definition settings : list string := ["ORIGIN"; "PUBLIC_HOST"; "TRUSTED_PROXIES"; "DASHBOARD_TOKEN"; "PROXY_PROTOCOL"].

Lemma setting_name key : key ∈ settings -> plain (lit key) /\ (61 ∉ lit key).
Proof.
  intros Hk. unfold settings in Hk. repeat (apply elem_of_cons in Hk as [->|Hk]; [split; [split|]; apply (bool_decide_unpack _); vm_compute; exact I|]).
  by apply elem_of_nil in Hk.
Qed.

(** A file in which a line was set: the setting has the value, and the others what they had. *)
Lemma set_env_line_value content key value other : 13 ∉ content -> key ∈ settings -> other ∈ settings -> plain value ->
  env_value (set_env_line content key value) other = if decide (lit key = lit other) then value else env_value content other.
Proof.
  intros Hc Hk Ho Hv. destruct (setting_name key Hk) as [Hp He], (setting_name other Ho) as [Hp' He'].
  unfold set_env_line, join_lines. case_decide as Hd.
  - assert (forall c k k', lit k = lit k' -> env_value c k = env_value c k') as Hsame by (intros c k k' H; unfold env_value; by rewrite H).
    rewrite <- (Hsame _ key other Hd). apply env_written_set; [done|by apply plain_line].
  - apply env_written_other; try done. by apply plain_line.
Qed.

Record plan_plain (plan : Plan) : Prop := {
  pp_origin : plain (origin plan); pp_host : forall host, public_host plan = Some host -> plain host;
  pp_trusted : plain (trusted_csv plan); pp_token : plain (dashboard_token plan) }.

(** Laying the settings over a file a line at a time. *)
Definition lay (content : bytes) (sets : list (string * bytes)) : bytes := fold_left (fun c s => set_env_line c s.1 s.2) sets content.

Definition overlay_sets (plan : Plan) (token : option bytes) : list (string * bytes) :=
  [("ORIGIN", origin plan)] ++ match public_host plan with Some host => [("PUBLIC_HOST", host)] | None => [] end
  ++ [("TRUSTED_PROXIES", trusted_csv plan)] ++ match token with Some token => [("DASHBOARD_TOKEN", token)] | None => [] end
  ++ (if bool_decide (listen plan = Proxied) && negb (bool_decide (topology plan = CdnEdge)) then [("PROXY_PROTOCOL", lit "true")] else []).

Lemma overlay_lay content plan token : overlay_env content plan token = lay content (overlay_sets plan token).
Proof. unfold overlay_env, overlay_sets, lay. destruct (public_host plan), token, (_ && _); done. Qed.

(** The value of a setting in a list of them: the last counts. *)
Fixpoint last_set (key : string) (sets : list (string * bytes)) (dflt : bytes) : bytes :=
  match sets with [] => dflt | (k, v) :: sets => last_set key sets (if decide (lit k = lit key) then v else dflt) end.

Lemma lay_value sets : forall content key, 13 ∉ content -> Forall (fun s => s.1 ∈ settings /\ plain s.2) sets -> key ∈ settings ->
  env_value (lay content sets) key = last_set key sets (env_value content key) /\ (13 ∉ lay content sets).
Proof.
  induction sets as [|[k v] sets IH]; intros content key Hc Hs Hk; [done|]. apply Forall_cons in Hs as [[Hk' Hv] Hs]. cbn [fst snd] in *.
  unfold lay in *. cbn [fold_left fst snd last_set]. destruct (setting_name k Hk') as [Hp _].
  destruct (IH (set_env_line content k v) key) as [H1 H2]; [by apply set_env_line_no_cr|done|done|]. split; [|done].
  rewrite H1. by rewrite set_env_line_value.
Qed.

Lemma overlay_sets_ok plan token : plan_plain plan -> (forall t, token = Some t -> plain t) ->
  Forall (fun s => s.1 ∈ settings /\ plain s.2) (overlay_sets plan token).
Proof.
  intros [Ho Hh Ht _] Htok. unfold overlay_sets, settings.
  repeat (apply Forall_app; split); repeat case_match; repeat constructor; cbn [fst snd]; try set_solver; eauto;
    first [apply Ho|apply Ht|by apply Hh|by apply Htok|idtac].
  all: try (eapply Hh; done). all: try (apply (bool_decide_unpack _); vm_compute; exact I).
Qed.

(** *** Interpolation brings in nothing but the values *)

Lemma split_str_elem sep s x p : p ∈ split_str sep s -> x ∈ p -> x ∈ s.
Proof.
  unfold split_str. assert (forall fuel piece s p, p ∈ split_str_loop fuel sep piece s -> x ∈ p -> x ∈ piece \/ x ∈ s) as H.
  { clear. induction fuel as [|fuel IH]; intros piece s p; cbn [split_str_loop]; [intros ->%list_elem_of_singleton; by left|].
    destruct (strip_prefix sep s) as [rest|] eqn:E.
    - apply strip_prefix_spec in E as ->. intros [->|Hp]%elem_of_cons Hx; [by left|]. destruct (IH [] rest p Hp Hx) as [?|?]; [by apply elem_of_nil in H|].
      right. apply elem_of_app. by right.
    - destruct s as [|c s]; [intros ->%list_elem_of_singleton; by left|]. intros Hp Hx. destruct (IH _ _ _ Hp Hx) as [[?|Hc]%elem_of_app|?]; [by left| |].
      + apply list_elem_of_singleton in Hc as ->. right. by left.
      + right. by right. }
  intros Hp Hx. destruct (H _ _ _ _ Hp Hx) as [?|?]; [by apply elem_of_nil in H0|done].
Qed.

Lemma join_any sep ls x : x ∈ join sep ls -> x ∈ sep \/ exists l, l ∈ ls /\ x ∈ l.
Proof.
  induction ls as [|a ls IH]; [by intros ?%elem_of_nil|]. destruct ls as [|b ls]; [cbn; intros Hx; right; exists a; split; [by left|done]|].
  change (join sep (a :: b :: ls)) with (a ++ sep ++ join sep (b :: ls)). rewrite !elem_of_app. intros [Hx|[Hx|Hx]].
  - right. exists a. split; [by left|done].
  - by left.
  - destruct (IH Hx) as [?|(l & Hl & Hx')]; [by left|]. right. exists l. split; [by right|done].
Qed.

Lemma replace_no_cr from to text : 13 ∉ to -> 13 ∉ text -> 13 ∉ replace from to text.
Proof. intros Ht Hx Hin. apply join_any in Hin as [?|(l & Hl & Hin)]; [done|]. apply Hx. by eapply split_str_elem. Qed.

Lemma interpolate_no_cr text plan : plan_plain plan -> (forall host, supabase_host plan = Some host -> plain host) -> 13 ∉ text -> 13 ∉ interpolate text plan.
Proof.
  intros [[_ Ho] Hh _ _] Hs Ht. unfold interpolate. cbv zeta.
  assert (13 ∉ replace (lit "{{ORIGIN}}") (origin plan) text) as H1 by (by apply replace_no_cr).
  assert (13 ∉ match public_host plan with Some host => replace (lit "{{PUBLIC_HOST}}") host (replace (lit "{{ORIGIN}}") (origin plan) text)
               | None => replace (lit "{{ORIGIN}}") (origin plan) text end) as H2.
  { destruct (public_host plan) as [host|]; [|done]. destruct (Hh host eq_refl). by apply replace_no_cr. }
  destruct (supabase_host plan) as [host|]; [|done]. destruct (Hs host eq_refl). by apply replace_no_cr.
Qed.

(** *** The loop writes the settings *)

Lemma init_bind_ok {A B} (x : Init A) (f : A -> Init B) m m' b : (x ≫= f) m = (m', Ok b) -> exists m1 a, x m = (m1, Ok a) /\ f a m1 = (m', Ok b).
Proof. unfold mbind, init_bind. destruct (x m) as [m1 [a|e]]; [eauto|done]. Qed.

Lemma write_file_ok path body m m' : write_file st path body m = (m', Ok tt) -> m_files m' = <[path := body]> (m_files m).
Proof.
  unfold write_file. intros (m1 & [] & Hd & Hw)%init_bind_ok. unfold fs_put in Hw. destruct (may_write st path); [injection Hw as <-|done].
  cbn. unfold create_dir_all in Hd. destruct (is_empty _); [by injection Hd as <-|]. by destruct (may_make st _); [injection Hd as <-|].
Qed.

Lemma join_path_inj dir a b : join_path dir a = join_path dir b -> a = b.
Proof. unfold join_path. destruct (is_empty dir); [done|]. destruct (ends_with dir [47]); intros H; apply (app_inv_head dir) in H; [done|]. by injection H. Qed.

Definition env_path (plan : Plan) : bytes := join_path (out plan) (lit ".env").

(** The settings file holds the settings laid over the template of them. *)
Definition env_laid (plan : Plan) (m : Machine) : Prop := exists name, map_output_name name (listen plan) = Some ".env.example" /\
  let text := interpolate (pack_text (embedded st) (topology_as_str (topology plan)) name) plan in
  m_files m !! env_path plan = Some (overlay_env (overlay_env text plan None) plan (Some (dashboard_token plan))).

Lemma render_env plan files name body : render st plan files name ".env.example" = Ok body ->
  body = interpolate (pack_text (embedded st) (topology_as_str (topology plan)) name) plan.
Proof.
  unfold render. cbv zeta. change (String.eqb ".env.example" "CHECKLIST.md") with false. change (String.eqb ".env.example" "README.md") with false.
  change (String.eqb ".env.example" "ferroada.toml") with false. change (String.eqb ".env.example" "ferroada.service") with false.
  change (String.eqb ".env.example" "ferroada.toml.bff.example") with false.
  assert (ends_with (lit ".env.example") (lit "compose.yml") = false) as -> by (vm_compute; reflexivity).
  cbn [mbind result_bind negb andb]. destruct (_ || _); [done|]. by intros [= <-].
Qed.

Lemma env_laid_kept plan mapped body m m' : lit mapped <> lit ".env" -> write_file st (join_path (out plan) (lit mapped)) body m = (m', Ok tt) ->
  env_laid plan m -> env_laid plan m'.
Proof.
  intros Hne Hw%write_file_ok (name & Hn & Hf). exists name. split; [done|]. cbv zeta in *. rewrite Hw, lookup_insert_ne; [done|]. intros H. by apply join_path_inj in H.
Qed.

Lemma emit_files_env plan files todo : forall wrote m m' b,
  (forall name mapped, name ∈ todo -> map_output_name name (listen plan) = Some mapped -> lit mapped <> lit ".env") ->
  (wrote = true -> env_laid plan m) -> emit_files st plan files todo wrote m = (m', Ok b) -> b = true -> env_laid plan m'.
Proof.
  induction todo as [|name todo IH]; intros wrote m m' b Hnames Hinv; cbn [emit_files].
  - intros [= <- <-]. exact Hinv.
  - assert (forall n mapped, n ∈ todo -> map_output_name n (listen plan) = Some mapped -> lit mapped <> lit ".env") as Hrest
      by (intros n mapped Hn; apply Hnames; by right).
    destruct (map_output_name name (listen plan)) as [mapped|] eqn:Em; [|by apply IH].
    intros (m1 & body & Hr & H)%init_bind_ok. injection Hr as <- Hr. apply init_bind_ok in H as (m2 & [body' w] & He & H).
    apply init_bind_ok in H as (m3 & [] & Hw & H). apply (IH w m3 m' b); [done| |done]. intros ->.
    eapply (env_laid_kept plan mapped _ m2 m3); [apply (Hnames name); [by left|done]|exact Hw|].
    destruct (String.eqb_spec mapped ".env.example") as [->|]; [|injection He as <- <- ->; by apply Hinv].
    apply init_bind_ok in He as (m4 & [] & Hf & Hret). injection Hret as <- <-. apply write_file_ok in Hf. apply render_env in Hr as ->.
    exists name. split; [done|]. cbv zeta. unfold env_path. by rewrite Hf, lookup_insert_eq.
Qed.

(** No file of a pack is the settings file itself. *)
Lemma pack_names t files listen : init_topology (topology_as_str t) = Some files ->
  forall name mapped, name ∈ files -> map_output_name name listen = Some mapped -> lit mapped <> lit ".env".
Proof.
  intros Hf. assert (forallb (fun name => match map_output_name name listen with Some mapped => negb (lit mapped =s lit ".env") | None => true end) files = true) as Hall.
  { destruct t; injection Hf as <-; destruct listen; vm_compute; reflexivity. }
  intros name mapped Hin Hm He. rewrite forallb_forall in Hall. apply list_elem_of_In in Hin. specialize (Hall name Hin). rewrite Hm, He in Hall.
  by rewrite bytes_eqb_refl in Hall.
Qed.

Lemma emit_env plan m m' : emit st plan m = (m', Ok tt) -> env_laid plan m'.
Proof.
  unfold emit. intros (m1 & [] & _ & H)%init_bind_ok. apply init_bind_ok in H as (m2 & files & Hf & H).
  destruct (init_topology (topology_as_str (topology plan))) as [fs|] eqn:Ef; [injection Hf as <- <-|done].
  apply init_bind_ok in H as (m3 & wrote & He & H). destruct wrote; [|done]. cbn [negb] in H. apply init_bind_ok in H as (m4 & [] & Hg & Ht).
  assert (env_laid plan m3) as Hl by (eapply (emit_files_env plan fs fs false m1 m3 true); [by eapply pack_names|done|exact He|done]).
  pose proof (env_laid_kept plan ".gitignore" _ m3 m4 ltac:(by vm_compute) Hg Hl) as Hl4. unfold write_terminal in Ht. destruct (terminal_ok st); [|done].
  injection Ht as <-. exact Hl4.
Qed.

(** *** What the settings say *)

Lemma laid_values plan text : plan_plain plan -> 13 ∉ text ->
  let live := overlay_env (overlay_env text plan None) plan (Some (dashboard_token plan)) in
  env_value live "ORIGIN" = origin plan /\ (forall host, public_host plan = Some host -> env_value live "PUBLIC_HOST" = host)
  /\ env_value live "TRUSTED_PROXIES" = trusted_csv plan /\ env_value live "DASHBOARD_TOKEN" = dashboard_token plan
  /\ env_value live "PROXY_PROTOCOL"
     = if decide (listen plan = Proxied /\ topology plan <> CdnEdge) then lit "true" else env_value text "PROXY_PROTOCOL".
Proof.
  intros Hp Ht live. subst live. rewrite !overlay_lay.
  assert (13 ∉ lay text (overlay_sets plan None)) as Ht1 by (apply (lay_value _ _ "ORIGIN"); [done|by apply overlay_sets_ok|by left]).
  assert (forall key, key ∈ settings -> env_value (lay (lay text (overlay_sets plan None)) (overlay_sets plan (Some (dashboard_token plan)))) key
          = last_set key (overlay_sets plan (Some (dashboard_token plan))) (env_value (lay text (overlay_sets plan None)) key)) as Hv.
  { intros key Hk. apply lay_value; [done| |done]. apply overlay_sets_ok; [done|]. intros t [= <-]. by destruct Hp. }
  assert (forall key, key ∈ settings -> env_value (lay text (overlay_sets plan None)) key = last_set key (overlay_sets plan None) (env_value text key)) as Hv0
    by (intros key Hk; apply lay_value; [done|by apply overlay_sets_ok|done]).
  rewrite !Hv, !Hv0 by (unfold settings; set_solver). unfold overlay_sets.
  destruct (public_host plan) as [host|], (listen plan), (topology plan); (split; [|split; [|split; [|split]]]); try (intros h [= <-]);
    first [reflexivity|done].
Qed.

(** A network as an element of the line. *)
Definition listed (c : bytes) : Prop := trim c = c /\ c <> [] /\ (44 ∉ c).

Lemma listed_parse parts : Forall listed parts -> Forall (fun c => is_ok (parse_network c) = true) parts ->
  exists t, trusted_parse (join [44] (dedupe_keep_order parts)) = Ok t
    /\ forall n, n ∈ networks t <-> exists c, c ∈ parts /\ parse_network c = Ok n.
Proof.
  intros Hl Hp. assert (forall c, c ∈ dedupe_keep_order parts <-> c ∈ parts) as Hd by (intros c; unfold dedupe_keep_order; rewrite dedupe_elem; set_solver).
  pose proof (dedupe_Forall _ _ Hl) as Hl'. pose proof (dedupe_Forall _ _ Hp) as Hp'. set (ds := dedupe_keep_order parts) in *. clearbody ds.
  assert (base.filter (fun e => is_empty e = false) (map trim (split_on 44 (join [44] ds))) = ds) as Hs.
  { destruct ds as [|d ds]; [done|]. rewrite split_on_join; [|done|by apply (Forall_impl _ _ _ Hl'); intros x (_ & _ & ?)].
    clear -Hl'. induction Hl' as [|x l (Ht & Hn & _) _ IH]; [done|]. cbn [map]. rewrite Ht, filter_cons_True by (by apply is_empty_false). by rewrite IH. }
  assert (exists ns, Forall2 (fun c n => parse_network c = Ok n) ds ns) as [ns Hns].
  { clear -Hp'. induction Hp' as [|c l Hc _ [ns IH]]; [by exists []|]. destruct (parse_network c) as [n|e] eqn:E; [|done]. exists (n :: ns). by constructor. }
  exists {| networks := ns |}. unfold trusted_parse. rewrite Hs, (proj2 (collect_ok _ _ _) Hns). split; [done|]. cbn. intros n. split.
  - intros Hn. apply list_elem_of_lookup in Hn as [i Hi]. destruct (Forall2_lookup_r _ _ _ _ _ Hns Hi) as (c & Hc & Hpc). exists c. split; [|done].
    apply Hd. by eapply list_elem_of_lookup_2.
  - intros (c & Hc%Hd & Hpc). apply list_elem_of_lookup in Hc as [i Hi]. destruct (Forall2_lookup_l _ _ _ _ _ Hns Hi) as (n' & Hn & Hpn).
    assert (n' = n) as -> by congruence. by eapply list_elem_of_lookup_2.
Qed.

(** The snapshots hold networks, one a line. *)
Definition snapshots_ok (E : Embedded) : Prop := forall edge snapshot, cidr_snapshot E edge = Some snapshot ->
  Forall (fun c => is_ok (parse_network c) = true /\ (44 ∉ c)) (cidrs_from_snapshot snapshot).

Lemma trusted_parts_listed E l edge spec parts : snapshots_ok E -> trusted_parts E l edge spec = Ok parts ->
  Forall listed parts /\ Forall (fun c => is_ok (parse_network c) = true) parts.
Proof.
  intros HE. unfold trusted_parts. cbv zeta.
  assert (listed CADDY_DOCKER_PEER /\ is_ok (parse_network CADDY_DOCKER_PEER) = true) as [Hpeer Hpeer'].
  { split; [split; [vm_compute; reflexivity|split; [done|]]|vm_compute; reflexivity]. apply (bool_decide_unpack _). vm_compute. exact I. }
  set (first := if decide (l = Proxied) then [CADDY_DOCKER_PEER] else []).
  assert (Forall listed first /\ Forall (fun c => is_ok (parse_network c) = true) first) as [H1 H2] 
    by (unfold first; case_decide; split; first [by apply Forall_singleton|by apply Forall_nil_2]).
  clearbody first. destruct spec as [| |raw].
  - destruct (match edge with EdgeCloudflare => _ | _ => _ end) as [name|]; [|done]. cbn [mbind result_bind].
    destruct (cidr_snapshot E name) as [snap|] eqn:Es; [|done]. intros [= <-]. apply HE in Es. split; apply Forall_app; (split; [done|]).
    + apply Forall_forall. intros c Hc. pose proof (proj1 (Forall_forall _ _) Es c Hc) as [_ Hcomma].
      apply list_elem_of_filter in Hc as [[Hn _] Hc]. apply list_elem_of_fmap in Hc as (line & -> & _). split; [apply trim_trim|by split].
    + apply (Forall_impl _ _ _ Es). by intros c [? _].
  - intros [= <-]. by split.
  - unfold trusted_parse. set (es := base.filter (fun e => is_empty e = false) (map trim (split_on 44 raw))).
    assert (base.filter (fun e => e <> []) (map trim (split_on 44 raw)) = es) as ->.
    { unfold es. apply list_filter_iff. intros x. by rewrite is_empty_false. }
    destruct (collect parse_network es) as [ns|] eqn:Ec; [|done]. intros [= <-]. apply collect_ok in Ec. split; apply Forall_app; (split; [done|]).
    + apply Forall_forall. intros c [Hn Hc]%list_elem_of_filter. apply list_elem_of_fmap in Hc as (p & -> & Hp). split; [apply trim_trim|].
      split; [by apply is_empty_false|]. intros Hx%trim_elem. by eapply split_on_no_sep.
    + apply Forall_forall. intros c Hc. apply list_elem_of_lookup in Hc as [i Hi]. by destruct (Forall2_lookup_l _ _ _ _ _ Ec Hi) as (n & _ & ->).
Qed.

(** C24. A pack that was written boots the proxy that was asked for: its settings file gives the origin, the host and the token; the PROXY
    protocol is turned on behind the local proxy and left as the template has it everywhere else, the packs of a CDN included; and its
    trusted line is one the proxy can read, with exactly the networks that were chosen: those of the snapshot or of the list, and the local
    proxy's where there is one.  It is shown for a plan whose values hold no line break, which the wizard does not refuse, for templates
    without carriage returns and for snapshots of one network a line, which the embedded ones are. *)
Theorem pack_settings (plan : Plan) (edge : Edge) (spec : TrustedSpec) (m m' : Machine) :
  emit st plan m = (m', Ok tt) -> build_trusted_csv (embedded st) (listen plan) edge spec = Ok (trusted_csv plan) ->
  snapshots_ok (embedded st) -> (forall name, 13 ∉ pack_text (embedded st) (topology_as_str (topology plan)) name) ->
  plan_plain plan -> (forall host, supabase_host plan = Some host -> plain host) ->
  exists live, m_files m' !! join_path (out plan) (lit ".env") = Some live
  /\ env_value live "ORIGIN" = origin plan /\ (forall host, public_host plan = Some host -> env_value live "PUBLIC_HOST" = host)
  /\ env_value live "DASHBOARD_TOKEN" = dashboard_token plan
  /\ (exists name, map_output_name name (listen plan) = Some ".env.example"
        /\ env_value live "PROXY_PROTOCOL" = if decide (listen plan = Proxied /\ topology plan <> CdnEdge) then lit "true"
             else env_value (interpolate (pack_text (embedded st) (topology_as_str (topology plan)) name) plan) "PROXY_PROTOCOL")
  /\ exists parts t, trusted_parts (embedded st) (listen plan) edge spec = Ok parts
     /\ trusted_parse (env_value live "TRUSTED_PROXIES") = Ok t
     /\ forall n, n ∈ networks t <-> exists c, c ∈ parts /\ parse_network c = Ok n.
Proof.
  intros Hemit Hcsv HE Htext Hp Hs. destruct (emit_env plan m m' Hemit) as (name & Hname & Hf). cbv zeta in Hf.
  pose proof (interpolate_no_cr _ plan Hp Hs (Htext name)) as Hcr.
  destruct (laid_values plan _ Hp Hcr) as (H1 & H2 & H3 & H4 & H5). eexists. split; [exact Hf|].
  split; [exact H1|]. split; [exact H2|]. split; [exact H4|]. split; [by exists name|]. rewrite H3. unfold build_trusted_csv in Hcsv.
  apply bind_ok in Hcsv as (parts & Hparts & Heq). injection Heq as <-. destruct (trusted_parts_listed _ _ _ _ _ HE Hparts) as [Hl Hn].
  destruct (listed_parse parts Hl Hn) as (t & Ht & Hnet). exists parts, t. done.
Qed.
End Settings.

(** ** Evaluations *)

(** The networks of the edges, as the repository embeds them. *)
Definition deployed_cidrs (edge : string) : bytes :=
  if String.eqb edge "cloudflare" then lit "# Snapshot 2026-09-08. Não buscar isto no processo nem no boot.
# Fonte IPv4: https://www.cloudflare.com/ips-v4
# Fonte IPv6: https://www.cloudflare.com/ips-v6
# IPs a partir dos quais a Cloudflare fala com a origem. Firewall + TRUSTED_PROXIES.
# Formato: um CIDR por linha. Cole no TRUSTED_PROXIES separado por vírgulas.

173.245.48.0/20
103.21.244.0/22
103.22.200.0/22
103.31.4.0/22
141.101.64.0/18
108.162.192.0/18
190.93.240.0/20
188.114.96.0/20
197.234.240.0/22
198.41.128.0/17
162.158.0.0/15
104.16.0.0/13
104.24.0.0/14
172.64.0.0/13
131.0.72.0/22
2400:cb00::/32
2606:4700::/32
2803:f800::/32
2405:b500::/32
2405:8100::/32
2a06:98c0::/29
2c0f:f248::/32
"
  else if String.eqb edge "fastly" then lit "# Snapshot 2026-09-08. Não buscar isto no processo nem no boot.
# Fonte: https://api.fastly.com/public-ip-list
# IPs públicos Fastly (JSON `addresses` + `ipv6_addresses`).
# Formato: um CIDR por linha. Cole no TRUSTED_PROXIES separado por vírgulas.

23.235.32.0/20
43.249.72.0/22
103.244.50.0/24
103.245.222.0/23
103.245.224.0/24
104.156.80.0/20
140.248.64.0/18
140.248.128.0/17
146.75.0.0/17
151.101.0.0/16
157.52.64.0/18
167.82.0.0/17
167.82.128.0/20
167.82.160.0/20
167.82.224.0/20
172.111.64.0/18
185.31.16.0/22
199.27.72.0/21
199.232.0.0/16
2a04:4e40::/32
2a04:4e42::/32
"
  else lit "# Snapshot 2026-09-08. Não buscar isto no processo nem no boot.
# Fonte IPv4: https://techdocs.akamai.com/property-manager/pdfs/akamai_ipv4_CIDRs.txt
# Fonte IPv6: https://techdocs.akamai.com/property-manager/pdfs/akamai_ipv6_CIDRs.txt
# Supernets públicos Origin IP ACL. Site Shield (Control Center) é por cliente e deve substituir esta lista se existir. Não é o mapa de toda a borda Akamai.
# Formato: um CIDR por linha. Cole no TRUSTED_PROXIES separado por vírgulas.

2.16.0.0/13
23.0.0.0/12
23.192.0.0/11
23.32.0.0/11
95.100.0.0/15
184.24.0.0/13
2a02:26f0::/32
2600:1400::/24
2405:9600::/32
".

Definition demo_embedded : Embedded := {|
  pack_text _ _ := lit "# settings
ORIGIN={{ORIGIN}}
DASHBOARD_TOKEN=change-me
"; proxied_unit := lit "[Unit]
"; cidr_text := deployed_cidrs |}.
Definition demo_station : Station := {|
  may_write _ := true; may_make _ := true; may_list _ := true; left_torn _ := None; terminal_ok := true; is_terminal := false;
  random := Some (repeat 171 32); embedded := demo_embedded |}.

Lemma deployed_snapshots_ok : snapshots_ok demo_embedded.
Proof.
  intros edge snapshot. unfold cidr_snapshot. destruct (one_of (lit edge) _); [|done]. intros [= <-]. cbn [cidr_text demo_embedded].
  assert (forall l : list bytes, forallb (fun c => is_ok (parse_network c) && negb (bool_decide (44 ∈ c))) l = true ->
            Forall (fun c => is_ok (parse_network c) = true /\ (44 ∉ c)) l) as Hl.
  { intros l Hf. apply Forall_forall. intros c Hc. rewrite forallb_forall in Hf. apply list_elem_of_In in Hc. specialize (Hf c Hc).
    apply andb_true_iff in Hf as [H1 H2%negb_true_iff%bool_decide_eq_false]. done. }
  unfold deployed_cidrs. destruct (String.eqb edge "cloudflare"); [|destruct (String.eqb edge "fastly")]; apply Hl; vm_compute; reflexivity.
Qed.

Definition demo_args (out : string) : list bytes :=
  [lit "--non-interactive"; lit "--topology=cdn-edge"; lit "--origin"; lit "http://10.0.0.5:8080"; lit "--public-host"; lit "www.example";
   lit "--out"; lit out].
Definition demo_plan : Plan := {|
  topology := CdnEdge; out := lit "pack"; public_host := Some (lit "www.example"); origin := lit "http://10.0.0.5:8080"; listen := Proxied;
  trusted_csv := join [44] (CADDY_DOCKER_PEER :: cidrs_from_snapshot (deployed_cidrs "cloudflare")); dashboard_token := hex_lower (repeat 171 32);
  static_placement := FerroadaFront; supabase_host := None |}.

(** The flags above are this plan. *)
Example demo_args_plan : (fl ← parse_flags (demo_args "pack") no_flags; resolve_non_interactive demo_embedded (random demo_station) fl) = Ok demo_plan.
Proof. vm_compute. reflexivity. Qed.

Definition a_machine (path : string) : Machine := {| m_files := {[ lit path := lit "kept" ]}; m_dirs := ∅; m_shown := []; m_typed := [] |}.

Lemma pack_settings_witness : exists live t,
  m_files (emit demo_station demo_plan (a_machine ".env")).1 !! lit "pack/.env" = Some live
  /\ env_value live "DASHBOARD_TOKEN" = hex_lower (repeat 171 32) /\ env_value live "PROXY_PROTOCOL" = []
  /\ trusted_parse (env_value live "TRUSTED_PROXIES") = Ok t.
Proof.
  assert (forall b, bool_decide (10 ∉ b) && bool_decide (13 ∉ b) = true -> plain b) as Hpl
    by (intros b [H1%bool_decide_eq_true H2%bool_decide_eq_true]%andb_true_iff; split; done).
  destruct (pack_settings demo_station demo_plan EdgeCloudflare TrustAuto (a_machine ".env") (emit demo_station demo_plan (a_machine ".env")).1)
    as (live & H1 & _ & _ & H2 & (name & _ & H4) & parts & t & _ & H3 & _).
  - assert ((emit demo_station demo_plan (a_machine ".env")).2 = Ok tt) as E by (vm_compute; reflexivity).
    rewrite <- E. apply surjective_pairing.
  - vm_compute. reflexivity.
  - exact deployed_snapshots_ok.
  - intros name. apply (bool_decide_unpack _). vm_compute. exact I.
  - constructor; [| |apply Hpl; vm_compute; reflexivity..]; [apply Hpl; vm_compute; reflexivity|]. intros host [= <-]. apply Hpl. vm_compute. reflexivity.
  - intros host [=].
  - exists live, t. split; [exact H1|]. split; [exact H2|]. split; [by rewrite H4|exact H3].
Defined.

Lemma init_overwrites_nothing_witness : m_files (run demo_station (demo_args "pack") (a_machine ".env")).1 !! lit ".env" = Some (lit "kept").
Proof.
  apply (init_overwrites_nothing demo_station (demo_args "pack") (a_machine ".env")); [|vm_compute; reflexivity].
  intros fl H. vm_compute in H. injection H as <-. vm_compute. discriminate.
Defined.

(** An empty output directory is the current one, and is not checked: what it holds is overwritten. *)
Definition no_directory : list bytes := take 7 (demo_args "pack") ++ [[]].
Example empty_out_overwrites :
  bool_decide (m_files (run demo_station no_directory (a_machine ".env")).1 !! lit ".env" = Some (lit "kept")) = false
  /\ (run demo_station no_directory (a_machine ".env")).2 = Ok tt.
Proof. vm_compute. split; reflexivity. Qed.

(** A host may hold an end of line, which starts a setting of its own in the file. *)
Example host_with_a_line : validate_public_host (lit "www.example" ++ nl ++ lit "FORCE_HTTPS=false") = Ok tt.
Proof. vm_compute. reflexivity. Qed.
