(* ===== verification/Accounts.v ===== *)
(** * No refusal goes unseen ([src/proxy.rs], [src/metrics.rs])

    What the marks of a stage become in the metrics, and that a request the filter answers itself always leaves an event that operators
    see: the kinds of events the components use are the ones the metrics keep. *)

From S2P Require Import Prelude Net Http Inspection Stage Pipeline.
From S2P Require IpText Window Shield ClientIp Framing Budget Spool Protocol Waf Json Route Grpc Graphql Jwks Jwt Authz.
From S2P Require Schema OpenApi WafEngine Origin RateLimit Behavioral Abuse Dlp Config Upstream Metrics Mediation.

#[local] Existing Instances Behavioral.BehaviorKey_eq_dec Behavioral.BehaviorKey_countable RateLimit.RateKey_eq_dec RateLimit.RateKey_countable
  Shield.ShieldVerdict_eq_dec.

(** ** From marks to calls *)

Definition label_text (c : ClientLabel) : bytes := match c with LabelIp ip => IpText.show_ip ip | LabelText t => t end.

Definition event_call (call : bytes -> bytes -> bytes -> bytes -> bytes -> Metrics.Call) (e : BlockEvent) : Metrics.Call :=
  call (default Metrics.UNSCOPED_SITE (ev_site e)) (ev_type e) (label_text (ev_client e)) (ev_uri e) (ev_detail e).

(** The call of [metrics] that a mark stands for; what the context notes is for the log. *)
Definition call_of (m : Mark) : option Metrics.Call :=
  match m with
  | Metric (Blocked e) => Some (event_call Metrics.CBlock e)
  | Metric (Observed e) => Some (event_call (fun scope type client uri detail =>
      if type =s "waf_engine_unavailable" then Metrics.CEngineUnavailable scope client uri detail
      else if type =s "authz_unavailable" then Metrics.CAuthzUnavailable scope client uri detail
      else Metrics.CObservation scope type client uri detail) e)
  | Counted name => Some (Metrics.CInspection name)
  | SeenProtocol (Some p) => Some (Metrics.CProtocol (Protocol.pm_site p) (Protocol.pm_protocol p) (Protocol.pm_action p)
      (Protocol.pm_client_ip p) (Protocol.pm_uri p) (Protocol.pm_detail p))
  | SeenDlp e => let h := Dlp.de_hits e in
      Some (Metrics.CDlp (Dlp.h_cpf h) (Dlp.h_cnpj h) (Dlp.h_card h) (Dlp.h_bearer h) (Dlp.de_verb e) (Dlp.h_fields h))
  | SeenProtocol None | NotedEvent _ | NotedRules _ | NotedOutcome _ => None
  end.

(** The calls of a request, made at the second [now]. *)
Definition calls_of (now : Z) (l : list Mark) : list (Z * Metrics.Call) := omap (fun m => pair now <$> call_of m) l.

(** ** What is seen *)

Section Seen.
Context (now : Z).

(** The marks leave an event. *)
Definition seen (l : list Mark) : Prop := Metrics.history (calls_of now l) <> [].

Lemma history_app l l' : Metrics.history (calls_of now (l ++ l')) = Metrics.history (calls_of now l) ++ Metrics.history (calls_of now l').
Proof. unfold Metrics.history, calls_of. by rewrite !omap_app. Qed.

Lemma seen_l l l' : seen l -> seen (l ++ l').
Proof. unfold seen. rewrite history_app. by intros Hl [? ?]%app_eq_nil. Qed.
Lemma seen_r l l' : seen l' -> seen (l ++ l').
Proof. unfold seen. rewrite history_app. by intros Hl [? ?]%app_eq_nil. Qed.

Lemma seen_elem m l x : m ∈ l -> (pair now <$> call_of m) ≫= Metrics.event_of = Some x -> seen l.
Proof.
  intros (l1 & l2 & ->)%list_elem_of_split Hx. apply seen_r. apply (seen_l [m] l2). unfold seen, calls_of. cbn.
  destruct (call_of m) as [c|]; [|done]. cbn in *. by rewrite Hx.
Qed.

(** The kinds the metrics keep. *)
Definition block_kind (type : bytes) : bool := bool_decide (is_Some (Metrics.counter_named Metrics.BLOCK_COUNTERS type)).
Definition seen_kind (e : MetricEvent) : bool :=
  match e with
  | Blocked e => block_kind (ev_type e)
  | Observed e => one_of (ev_type e) (["waf_monitor"; "waf_l1_shadow"; "openapi_observe"] ++ Metrics.OBSERVED)
  end.

Lemma kind_event e c : seen_kind e = true -> call_of (Metric e) = Some c -> exists x, Metrics.event_of (now, c) = Some x.
Proof.
  destruct e as [e|e]; cbn [seen_kind call_of]; intros Hk [= <-]; unfold event_call, Metrics.event_of; cbn [fst snd].
  - unfold block_kind in Hk. rewrite Hk. by eexists.
  - repeat case_match; simplify_eq; try by eexists. congruence.
Qed.

Lemma seen_metric e l : Metric e ∈ l -> seen_kind e = true -> seen l.
Proof.
  intros Hin Hk. assert (exists c, call_of (Metric e) = Some c) as [c Hc] by (destruct e; by eexists).
  destruct (kind_event e c Hk Hc) as [x Hx]. eapply seen_elem; [exact Hin|]. rewrite Hc. exact Hx.
Qed.

Lemma seen_block e l : Metric (Blocked e) ∈ l -> block_kind (ev_type e) = true -> seen l.
Proof. intros Hin Hk. by apply (seen_metric (Blocked e)). Qed.

Lemma seen_events es l : es <> [] -> Forall (fun e => seen_kind e = true) es -> (forall e, e ∈ es -> Metric e ∈ l) -> seen l.
Proof.
  destruct es as [|e es]; [done|]. intros _ [He _]%Forall_cons Hl. apply (seen_metric e); [|done]. apply Hl. by left.
Qed.

Lemma seen_metrics es : es <> [] -> Forall (fun e => seen_kind e = true) es -> seen (metrics es).
Proof. intros H1 H2. apply (seen_events es); [done|done|]. intros e He. unfold metrics. apply list_elem_of_fmap. by exists e. Qed.

(** ** Stages that tell what they refuse *)

Context {S : Type}.

(** An answer of the stage comes with an event. *)
Definition tells {A} (m : Stage S A) : Prop := forall s s' l r, m s = (s', l, Answer r) -> seen l.

Lemma tells_ret {A} (a : A) : tells (ret a).
Proof. done. Qed.
Lemma tells_mark l : tells (mark l).
Proof. done. Qed.
Lemma tells_fails {A} : tells (A := A) fails.
Proof. done. Qed.
Lemma tells_or_panic {A} (o : option A) : tells (or_panic o).
Proof. intros s s' l r. unfold or_panic. by destruct o. Qed.
Lemma tells_operate {A} (f : S -> S * A) : tells (operate f).
Proof. intros s s' l r. unfold operate. by destruct (f s). Qed.

Lemma tells_bind {A B} (m : Stage S A) (k : A -> Stage S B) : tells m -> (forall a, tells (k a)) -> tells (bind m k).
Proof.
  intros Hm Hk s s' l r [Ha|(s1 & l1 & a & l2 & _ & Ha & ->)]%bind_answer; [by eapply Hm|]. apply seen_r. by eapply Hk.
Qed.

(** After an event, anything. *)
Lemma tells_marked {B} l (k : unit -> Stage S B) : seen l -> tells (bind (mark l) k).
Proof.
  intros Hl s s' l' r [Ha|(s1 & l1 & a & l2 & Hm & _ & ->)]%bind_answer; [done|]. apply mark_next in Hm as [_ ->]. by apply seen_l.
Qed.

(** What an operation on the state gives decides what follows. *)
Lemma tells_operated {A B} (f : S -> S * A) (k : A -> Stage S B) : (forall s, tells (k (f s).2)) -> tells (bind (operate f) k).
Proof.
  intros Hk s s' l r [Ha|(s1 & l1 & a & l2 & Hm & Ha & ->)]%bind_answer; [by apply tells_operate in Ha|].
  apply operate_next in Hm as [Hf ->]. specialize (Hk s). rewrite Hf in Hk. by eapply Hk.
Qed.
Lemma tells_of_option {A B} (o : option A) (k : A -> Stage S B) : (forall a, o = Some a -> tells (k a)) -> tells (bind (or_panic o) k).
Proof.
  intros Hk s s' l r [Ha|(s1 & l1 & a & l2 & Hm & Ha & ->)]%bind_answer; [by apply tells_or_panic in Ha|].
  apply or_panic_next in Hm as (-> & _ & ->). by eapply Hk.
Qed.

Lemma tells_write `{HM : HeaderMap H} wr status fields body : tells (write wr status fields body).
Proof. unfold write. destruct (_ && _); [apply tells_ret|apply tells_fails]. Qed.
End Seen.

Create HintDb accounts.
#[export] Hint Resolve tells_ret tells_mark tells_fails tells_or_panic tells_operate tells_write : accounts.

(** [known]: the marks hold a refusal of a kind the metrics keep, which computing shows. *)
Ltac known := eapply seen_block; [solve [repeat first [left | right]]|reflexivity].

(** [telling]: what is answered was marked, or nothing is answered. *)
Ltac telling :=
  repeat first
    [ progress intros
    | solve [eauto with accounts]
    | apply tells_marked; solve [known]
    | apply tells_bind
    | match goal with |- tells _ (match ?x with _ => _ end) => destruct x end ].

(** ** The stages *)

Section Filter.
Context {H : Type} {HM : HeaderMap H} {SJ : Json.SerdeJson} {UC : Shield.UnicodeCase} {SH : ClientIp.StrHash}
  {JT : Jwks.JwksText} {JX : Jwt.JwtText} {JC : Jwt.JwtCrypto} {MJ : Window.MapOrder Z Z}
  {FT : Behavioral.F32Text} {MB : Window.MapOrder Behavioral.BehaviorKey Behavioral.IpProfile}
  {MR : Window.MapOrder RateLimit.RateKey (list Instant)} {RX : Waf.Regexes} {INF : Waf.Inflate}
  {JN : Schema.JsonNumbers} {ET : WafEngine.EngineText} {AT : Authz.AuthzText} {S256 : Graphql.Sha256}
  {NH : Abuse.NameHash} {D : Grpc.Descriptors} {DB : Abuse.Mmdb}.
Context (now : Z) (px : FerroadaProxy) (w : World).

Abbreviation tells := (tells now).
Abbreviation seen := (seen now).

(** A check of the shield tells what it blocks. *)
Lemma tells_gate (r : Shield.ShieldVerdict * list BlockEvent) bad refuse : (r.1 = bad -> seen (blocked r.2)) -> tells (shield_gate r bad refuse).
Proof.
  intros Hr. unfold shield_gate. case_bool_decide as E; [by apply tells_marked, Hr|]. telling.
Qed.

(** The checks of the shield leave one event when they block. *)
Ltac gate := apply tells_gate; intros Hbad; revert Hbad; repeat case_match; cbn; try done; intros _; known.

Lemma tells_take_slot client uri : tells (take_slot w client uri).
Proof. unfold take_slot. apply tells_bind; [apply tells_operate|]. telling. Qed.

Lemma tells_check_head ss client uri : tells (check_head px w ss client uri).
Proof.
  unfold check_head. cbv zeta. apply tells_bind; [unfold Shield.check_headers; gate|intros _].
  apply tells_bind; [unfold Shield.check_host_authority; gate|intros _].
  destruct (get_str _ _); [|apply tells_ret]. unfold Shield.check_host. gate.
Qed.

Lemma tells_on_pools f : tells (on_pools f).
Proof. intros s s' l r. unfold on_pools. by destruct (f (pools s)). Qed.

Lemma tells_route_request ss client uri : tells (route_request px w ss client uri).
Proof.
  unfold route_request. cbv zeta. destruct (Config.resolve_host _ _); [|unfold write_421, simple; telling].
  apply tells_bind; [apply tells_on_pools|]. telling.
Qed.

Lemma tells_force_https b https client uri : tells (force_https px w b https client uri).
Proof. unfold force_https. cbv zeta. telling. Qed.

(** ** Who asks *)

Lemma tells_reject_jwt {A} site client uri failure : tells (reject_jwt (A := A) w site client uri failure).
Proof.
  unfold reject_jwt. apply tells_marked, seen_r. destruct failure; known.
Qed.

Lemma tells_apply_jwt ss b client uri : tells (apply_jwt_identity w ss b client uri).
Proof.
  unfold apply_jwt_identity. cbv zeta. destruct (Config.b_jwt b) as [[]|]; [|apply tells_ret].
  apply tells_bind; [apply tells_operate|]. intros [p|f]; [destruct (Jwt.bind_path _ _ _ _); [apply tells_ret|]|]; apply tells_reject_jwt.
Qed.

Lemma tells_apply_abuse ss b risk has_jwt client uri : tells (apply_abuse w ss b risk has_jwt client uri).
Proof.
  unfold apply_abuse. cbv zeta. destruct risk, (Config.b_abuse b); try apply tells_ret. apply tells_bind; [apply tells_operate|].
  intros []; [apply tells_ret|]. unfold send_abuse. apply tells_marked, seen_r. known.
Qed.

Lemma score_keys_events clks keys identity uri ua client worst m m' v ev :
  Behavioral.score_keys (Behavioral.behavioral_config (px_env px)) clks keys identity uri ua client worst m = (m', v, ev) ->
  (v <> Behavioral.BAllow -> worst <> Behavioral.BAllow \/ ev <> []) /\ Forall (fun e => seen_kind e = true) ev.
Proof.
  revert clks worst m m' v ev. induction keys as [|key keys IH]; intros clks worst m m' v ev; cbn [Behavioral.score_keys].
  { intros [= <- <- <-]. split; [tauto|constructor]. }
  destruct (Behavioral.score_key _ _ _ _ _ _ _ _) as [[m1 v1] ev1] eqn:E1.
  assert ((v1 <> Behavioral.BAllow -> ev1 <> []) /\ Forall (fun e => seen_kind e = true) ev1) as [Hv Hk].
  { unfold Behavioral.score_key in E1. cbv zeta in E1. repeat case_match; injection E1 as <- <- <-; split; try done; by repeat constructor. }
  destruct v1.
  all: first [intros [= <- <- <-]; split; [intros _; right; by apply Hv|done]
             |destruct (Behavioral.score_keys _ _ _ _ _ _ _ _ _) as [[m2 v2] ev2] eqn:E2; intros [= <- <- <-];
              destruct (IH _ _ _ _ _ _ E2) as [IH1 IH2]; split; [|by apply Forall_app]].
  all: intros Hn; try (destruct (IH1 Hn) as [|Hev]; [tauto|]; right; by intros [? ?]%app_eq_nil).
  right. intros [? ?]%app_eq_nil. by apply Hv.
Qed.

Lemma tells_apply_behavioral ss risk client uri : tells (apply_behavioral px w ss risk client uri).
Proof.
  unfold apply_behavioral. cbv zeta. destruct risk as [identity|]; [|apply tells_ret]. apply tells_operated. intros s. cbn.
  destruct (Behavioral.check_and_record _ _ _ _ _ _ _ _) as [[p v] ev] eqn:E. cbn.
  assert ((v <> Behavioral.BAllow -> ev <> []) /\ Forall (fun e => seen_kind e = true) ev) as [Hv Hk].
  { unfold Behavioral.check_and_record in E. destruct (negb _); [injection E as _ <- <-; split; [done|constructor]|]. cbv zeta in E.
    destruct (Behavioral.score_keys _ _ _ _ _ _ _ _ _) as [[m' v'] ev'] eqn:E2. injection E as _ <- <-.
    destruct (score_keys_events _ _ _ _ _ _ _ _ _ _ _ E2) as [H1 H2]. split; [|done]. intros Hn. by destruct (H1 Hn). }
  destruct v; [|apply tells_marked, seen_metrics; [by apply Hv|done]..]. telling.
Qed.

Lemma tells_identify ss b client uri : tells (identify px w ss b client uri).
Proof.
  unfold identify. apply tells_bind; [apply tells_apply_jwt|]. intros principal. cbv zeta.
  apply tells_bind; [apply tells_apply_abuse|intros _]. apply tells_bind; [apply tells_apply_behavioral|intros _; apply tells_ret].
Qed.

(** ** The head *)

Lemma tells_send_413 {A} uri client max site : tells (send_413 (A := A) (S := Live) (w_writes w) uri client max site).
Proof. unfold send_413. apply tells_marked. known. Qed.

Lemma tells_check_request ss site client uri policy : tells (check_request px w ss site client uri policy).
Proof.
  unfold check_request. cbv zeta.
  apply tells_bind; [unfold Framing.check_framing, Shield.check_smuggling; gate|intros _].
  apply tells_bind; [unfold Shield.check_user_agent; gate|intros _].
  apply tells_bind; [unfold Shield.check_method; gate|intros _].
  apply tells_of_option. intros r Hr. apply tells_bind.
  - unfold Shield.check_uri_length in Hr. destruct (_ <? _).
    + destruct (Shield.slice_to _ _); [|done]. injection Hr as <-. gate.
    + injection Hr as <-. gate.
  - intros _. destruct (_ ≫= _); [|apply tells_ret]. destruct (_ <? _); [apply tells_send_413|apply tells_ret].
Qed.

Lemma tells_apply_rate_limit risk uri : tells (apply_rate_limit w risk uri).
Proof.
  unfold apply_rate_limit. destruct risk as [identity|]; [|apply tells_ret]. apply tells_operated. intros s. cbn.
  destruct (RateLimit.check _ _ _ _ _ _) as [[rl ok] ev] eqn:E. cbn. destruct ok; [telling|].
  unfold RateLimit.check in E. cbv zeta in E. destruct (RateLimit.charge _ _ _ _ _) as [m []]; [done|]. injection E as _ <-.
  apply tells_marked. known.
Qed.

Lemma tells_apply_protocols ss b policy client uri : tells (apply_protocols px w ss b policy client uri).
Proof.
  unfold apply_protocols. cbv zeta. destruct (Protocol.evaluate _ _) as [|p a]; case_bool_decide as Eb; try (by destruct Eb as [? [=]]); [telling| |telling].
  apply tells_marked. destruct a; try (by destruct Eb); (eapply seen_elem; [by left|reflexivity]).
Qed.

(** Every block of the WAF is of a kind that is kept. *)
Definition kinds_kept (r : Waf.WafVerdict * list MetricEvent) : Prop :=
  (r.1 <> Waf.WafAllow -> r.2 <> []) /\ Forall (fun e => seen_kind e = true) r.2.

Lemma kept_block site type client uri detail reason : block_kind type = true -> kinds_kept (Waf.blocked_by site type client uri detail reason).
Proof. intros Hk. split; [done|]. by repeat constructor. Qed.
Lemma kept_allow : kinds_kept (Waf.WafAllow, []).
Proof. split; [done|constructor]. Qed.

Ltac keep := solve [apply kept_block; reflexivity | apply kept_allow | done].

Lemma header_text_kept uri client site t r : Waf.inspect_header_text uri client site t = Some r -> kinds_kept r.
Proof. unfold Waf.inspect_header_text. repeat case_match; try done; intros [= <-]; keep. Qed.

Lemma headers_kept uri client site vs : kinds_kept (Waf.inspect_headers uri client site vs).
Proof.
  induction vs as [|v vs IH]; [apply kept_allow|]. cbn [Waf.inspect_headers].
  destruct (Waf.inspect_header_text _ _ _ v) eqn:E; [by eapply header_text_kept|].
  destruct (Waf.inspect_header_text _ _ _ (Waf.recursive_urldecode v)) eqn:E2; [by eapply header_text_kept|done].
Qed.

Lemma request_kept uri vs client profile site : kinds_kept (Waf.inspect_request_with_profile uri vs client profile site).
Proof.
  unfold Waf.inspect_request_with_profile. cbv zeta.
  assert (forall d p, kinds_kept (Waf.inspect_uri_and_headers uri d p vs client site)) as Hn.
  { intros d p. unfold Waf.inspect_uri_and_headers. repeat case_match; try keep. apply headers_kept. }
  destruct (Waf.wordpress_operational_path _); [|apply Hn]. destruct profile; [apply Hn| |keep].
  destruct (Hn (Waf.decode_uri uri) (Shield.to_lowercase (before 63 (Waf.decode_uri uri)))) as [H1 H2].
  destruct (Waf.inspect_uri_and_headers _ _ _ _ _ _) as [v ev]. split; [done|]. by constructor.
Qed.

Lemma body_kept body uri client ct limit site :
  let r := Waf.inspect_body_limited body uri client ct limit site in kinds_kept (Waf.verdict r.1, r.2).
Proof.
  cbv zeta. unfold Waf.inspect_body_limited. destruct (_ || _); [apply kept_allow|]. destruct (Waf.inspection_text _ _ _) as [t st].
  assert (kinds_kept (Waf.inspect_decoded_body (Waf.decode_body t ct) uri client site)) as Hk
    by (unfold Waf.inspect_decoded_body; repeat case_match; keep).
  by destruct (Waf.inspect_decoded_body _ _ _ _).
Qed.

Lemma tells_apply_waf_request ss b risk client uri : tells (apply_waf_request px w ss b risk client uri).
Proof.
  unfold apply_waf_request.
  pose proof (request_kept uri (waf_values (ss_headers ss)) client (Config.b_waf_profile b) (Config.b_site_scope b)) as [H1 H2].
  destruct (Waf.inspect_request_with_profile _ _ _ _ _) as [[|reason] ev]; cbn in *; [telling|]. apply tells_marked, seen_metrics; [by apply H1|done].
Qed.

Lemma tells_admit_head ss b policy https client uri who : tells (admit_head px w ss b policy https client uri who).
Proof.
  unfold admit_head. destruct who. apply tells_bind; [apply tells_check_request|intros]. apply tells_bind; [apply tells_apply_rate_limit|intros].
  apply tells_bind; [apply tells_apply_protocols|intros]. apply tells_bind; [apply tells_apply_waf_request|intros; apply tells_ret].
Qed.

(** ** The body *)

(** An inspection that is denied is told, whatever kept it from being complete. *)
Lemma tells_denied {A} o client uri site (k : unit -> Stage Live A) : o <> Complete -> tells (bind (mark_outcome o client uri true site) k).
Proof.
  intros Ho. unfold mark_outcome, record_inspection_outcome. destruct o; try done; apply tells_marked;
    (eapply seen_metric; [by right; left|reflexivity]).
Qed.

Lemma tells_mark_outcome o client uri denied site : tells (mark_outcome o client uri denied site).
Proof. unfold mark_outcome. destruct (record_inspection_outcome _ _ _ _ _). apply tells_mark. Qed.
Lemma tells_waf_block risk : tells (waf_block px w risk).
Proof. unfold waf_block. destruct risk; [apply tells_operate|apply tells_ret]. Qed.
#[local] Hint Resolve tells_mark_outcome tells_waf_block tells_send_413 tells_reject_jwt : accounts.

Lemma tells_parse_error ctx reason : tells (parse_error_stage w ctx reason).
Proof. unfold parse_error_stage. cbv zeta. destruct (disposition _ _); [..|by apply tells_denied]; telling. Qed.
#[local] Hint Resolve tells_parse_error : accounts.

Lemma tells_openapi_envelope ctx method h : tells (openapi_envelope w ctx method h).
Proof. unfold openapi_envelope. destruct (OpenApi.apply_openapi_envelope _ _ _ _ _ _); [telling..|]. apply tells_marked, seen_r. known. Qed.

Lemma tells_refuse_grpc {A} ctx failure : tells (refuse_grpc (A := A) w ctx failure).
Proof. unfold refuse_grpc. telling. Qed.
#[local] Hint Resolve tells_refuse_grpc : accounts.

Lemma tells_grpc_headers ctx method h : tells (apply_grpc_headers w ctx method h).
Proof. unfold apply_grpc_headers, deny_grpc_parse. cbv zeta. telling. Qed.
Lemma tells_grpc_body ctx method body : tells (apply_grpc_body w ctx method body).
Proof. unfold apply_grpc_body, deny_grpc_parse. telling. Qed.

Lemma tells_graphql ctx method body : tells (apply_graphql w ctx method body).
Proof.
  unfold apply_graphql. cbv zeta. destruct (Config.graphql_for _ _); [|apply tells_ret]. apply tells_bind; [apply tells_operate|]. telling.
Qed.

Lemma tells_openapi_body ctx matched body : tells (openapi_body w ctx matched body).
Proof. unfold openapi_body. telling. Qed.
Lemma tells_jwt_body ctx body : tells (apply_jwt_body w ctx body).
Proof. unfold apply_jwt_body. telling. Qed.

Lemma tells_authz_stage ctx body : tells (authz_stage w ctx body).
Proof.
  unfold authz_stage. cbv zeta. destruct (Authz.apply_authz _ _ _ _ _ _ _ _ _) as [[|reason] ev] eqn:E; [telling|]. apply tells_marked.
  assert (ev <> [] /\ Forall (fun e => seen_kind e = true) ev) as [H1 H2].
  { unfold Authz.apply_authz, Authz.reject_authz_deny, Authz.reject_authz_unavailable in E. repeat case_match; simplify_eq; split; try done;
      by repeat constructor. }
  apply (seen_events _ ev); [done|done|]. intros e He. apply list_elem_of_In, in_flat_map. exists e. split; [by apply list_elem_of_In|].
  destruct e; apply list_elem_of_In, elem_of_app; right; by left.
Qed.

Lemma tells_l1_stage ctx ss h body decoded : tells (l1_stage px w ctx ss h body decoded).
Proof.
  unfold l1_stage. apply tells_of_option. intros o Ho. destruct (WafEngine.l1_answer o) as [|reason] eqn:Ea; [telling|].
  apply tells_marked, seen_l.
  assert (WafEngine.l1_events o <> [] /\ Forall (fun e => seen_kind e = true) (WafEngine.l1_events o)) as [H1 H2]; [|by apply seen_metrics].
  unfold WafEngine.apply_l1, WafEngine.act_on_verdict, record_inspection_outcome in Ho. cbn [is_complete] in Ho. cbv zeta in Ho.
  repeat case_match; simplify_eq; cbn in *; try done; simplify_eq; cbn; split; try done; by repeat constructor.
Qed.

Lemma tells_body_policies ctx ss matched body : tells (body_policies w ctx ss matched body).
Proof.
  unfold body_policies. apply tells_bind; [apply tells_openapi_body|intros _]. apply tells_bind; [apply tells_jwt_body|intros _].
  apply tells_bind; [apply tells_graphql|intros _]. apply tells_bind; [apply tells_grpc_body|intros _]. apply tells_authz_stage.
Qed.

Lemma tells_reserve_body ctx content_length : tells (reserve_body px w ctx content_length).
Proof. unfold reserve_body. cbv zeta. apply tells_bind; [apply tells_operate|]. intros []; [apply tells_ret|]. by apply tells_denied. Qed.

Lemma tells_answer_expect h : tells (answer_expect w h).
Proof. unfold answer_expect. telling. Qed.

Lemma tells_spool_refused {A} ctx detail : tells (spool_refused (A := A) w ctx detail).
Proof. unfold spool_refused. telling. Qed.
Lemma tells_body_timeout {A} client uri site : tells (send_body_timeout (A := A) (S := Live) (w_writes w) client uri site).
Proof. unfold send_body_timeout. apply tells_marked. eapply seen_metric; [by right; left|reflexivity]. Qed.
#[local] Hint Resolve tells_spool_refused tells_body_timeout : accounts.

Lemma tells_read_spool ctx max_body reads : tells (read_spool w ctx max_body reads).
Proof.
  induction reads as [|[chunk io| |] reads IH]; cbn [read_spool]; [apply tells_ret| |telling..].
  apply tells_bind; [apply tells_operate|intros pushed]. apply tells_bind; [apply tells_or_panic|]. telling.
Qed.
Lemma tells_read_wire ctx buf reads : tells (read_wire px w ctx buf reads).
Proof.
  revert buf. induction reads as [|[chunk io| |] reads IH]; intros buf; cbn [read_wire]; [apply tells_ret| |telling..].
  destruct (Budget.buffer_push _ _) as [buf' []]; [apply IH|telling].
Qed.

Lemma tells_announce_empty h : tells (announce_empty h).
Proof. unfold announce_empty. telling. Qed.
Lemma tells_spooled_bytes ctx io failed : tells (spooled_bytes w ctx io failed).
Proof. unfold spooled_bytes. apply tells_bind; [apply tells_operate|]. telling. Qed.
#[local] Hint Resolve tells_announce_empty tells_spooled_bytes tells_read_spool tells_read_wire : accounts.

Lemma tells_receive_body ctx ss h : tells (receive_body px w ctx ss h).
Proof.
  unfold receive_body. cbv zeta. destruct (max_decoded_body _).
  - apply tells_bind; [apply tells_operate|intros _]. apply tells_bind; [apply tells_read_spool|intros _].
    apply tells_bind; [apply tells_operate|]. telling.
  - telling.
Qed.

Lemma tells_waf_body ctx wire : tells (apply_waf_body px w ctx wire).
Proof.
  unfold apply_waf_body. cbv zeta.
  match goal with |- tells (let '(_, _) := Waf.inspect_body_limited ?b ?u ?c ?t ?m ?s in _) => pose proof (body_kept b u c t m s) as [H1 H2] end.
  destruct (Waf.inspect_body_limited _ _ _ _ _ _) as [waf ev]. cbn in *.
  destruct (Waf.verdict waf) as [|reason] eqn:Ev; [|apply tells_marked, seen_metrics; [by apply H1|done]].
  apply tells_bind; [apply tells_mark|intros _]. destruct (disposition _ _) eqn:Ed; [telling..|]. apply tells_denied. intros Hc. by rewrite Hc in Ed.
Qed.

Lemma tells_inspect_received ctx ss h matched body : tells (inspect_received px w ctx ss h matched body).
Proof.
  assert (tells (wire_of w ctx body)) as Hw by (unfold wire_of; telling).
  unfold inspect_received. destruct (negb _).
  - apply tells_bind; [done|intros wire]. apply tells_bind; [apply tells_waf_body|intros inspected]. destruct (body_shown _ _ _).
    apply tells_bind; [apply tells_l1_stage|intros _; apply tells_body_policies].
  - destruct (policy_reads_body _ _); [|apply tells_authz_stage]. apply tells_bind; [done|intros wire; apply tells_body_policies].
Qed.

Lemma tells_admit_body ctx ss content_length matched : tells (admit_body px w ctx ss content_length matched).
Proof.
  unfold admit_body. cbv zeta. destruct (negb _).
  - apply tells_bind; [apply tells_reserve_body|intros _]. apply tells_bind; [apply tells_answer_expect|intros h].
    apply tells_bind; [apply tells_receive_body|intros [h' body]]. apply tells_bind; [apply tells_inspect_received|intros _].
    unfold pass_body. telling.
  - apply tells_bind; [apply tells_l1_stage|intros _]. apply tells_bind; [apply tells_body_policies|intros _; apply tells_ret].
Qed.

Lemma tells_request_filter ss : tells (request_filter px w ss).
Proof.
  unfold request_filter. apply tells_bind; [apply tells_or_panic|intros _]. cbv zeta. destruct (client_address _ _) as [client trusted].
  apply tells_bind; [apply tells_take_slot|intros _]. apply tells_bind; [apply tells_check_head|intros _].
  apply tells_bind; [apply tells_route_request|intros [b policy]]. apply tells_bind; [apply tells_force_https|intros _].
  apply tells_bind; [apply tells_identify|intros who]. apply tells_bind; [apply tells_admit_head|intros [ctx cl]].
  apply tells_bind; [apply tells_openapi_envelope|intros matched]. apply tells_bind; [apply tells_grpc_headers|intros timeout].
  apply tells_bind; [apply tells_admit_body|intros [h passage]; apply tells_ret].
Qed.
End Filter.

Lemma recent_newest h site e : head (Metrics.recent (h ++ [(site, e)])) = Some e.
Proof. induction h as [|[s x] h IH]; [done|]. cbn [app Metrics.recent]. destruct (Metrics.recent (h ++ _)); [done|exact IH]. Qed.

(** C6. No request is refused unseen: when the filter answers a request itself, whatever the stage and whatever was recorded before, the
    newest of the recent events that operators are shown is one this request left. *)
Theorem no_refusal_unseen {H : Type} {HM : HeaderMap H} {SJ : Json.SerdeJson} {UC : Shield.UnicodeCase} {SH : ClientIp.StrHash}
    {JT : Jwks.JwksText} {JX : Jwt.JwtText} {JC : Jwt.JwtCrypto} {MJ : Window.MapOrder Z Z}
    {FT : Behavioral.F32Text} {MB : Window.MapOrder Behavioral.BehaviorKey Behavioral.IpProfile}
    {MR : Window.MapOrder RateLimit.RateKey (list Instant)} {RX : Waf.Regexes} {INF : Waf.Inflate}
    {JN : Schema.JsonNumbers} {ET : WafEngine.EngineText} {AT : Authz.AuthzText} {S256 : Graphql.Sha256}
    {NH : Abuse.NameHash} {D : Grpc.Descriptors} {DB : Abuse.Mmdb}
    (px : FerroadaProxy) (w : World) (ss : Session H) (s s' : Live) (l : list Mark) (r : Reply) (now : Z)
    (earlier : list (Z * Metrics.Call)) :
  request_filter px w ss s = (s', l, Answer r) ->
  exists site e, (site, e) ∈ Metrics.history (calls_of now l)
    /\ head (Metrics.recent (Metrics.history (earlier ++ calls_of now l))) = Some e.
Proof.
  intros Hr. pose proof (tells_request_filter now px w ss s s' l r Hr) as Hs. unfold seen in Hs.
  destruct (Metrics.history (calls_of now l)) as [|[site e] h _] eqn:E using rev_ind; [done|].
  exists site, e. split; [apply elem_of_app; right; by left|].
  unfold Metrics.history in *. rewrite omap_app, E, app_assoc. apply recent_newest.
Qed.

(** ** Evaluations *)

Section evaluations.
Let HM := assoc_headers.
Let SJ := Json.no_json.
Let UC := Shield.ascii_case.
Let SH := Jwt.demo_hash.
Let JT := Jwks.plain_text.
Let JX := Jwt.demo_text.
Let JC := Jwt.demo_crypto.
Let MJ := Window.canonical_order Z Z.
Let FT := Behavioral.no_f32_text.
Let MB := Window.canonical_order Behavioral.BehaviorKey Behavioral.IpProfile.
Let MR := Window.canonical_order RateLimit.RateKey (list Instant).
Let RX := Waf.literal_regexes.
Let INF := Mediation.no_inflate.
Let JN := Schema.plain_numbers.
Let ET := WafEngine.deny_text.
Let AT := Authz.allow_text.
Let S256 := Mediation.shout.
Let NH := Mediation.count_names.
Let D := Grpc.demo_descriptors.
Let DB := Abuse.no_mmdb.
#[local] Existing Instances HM SJ UC SH JT JX JC MJ FT MB MR RX INF JN ET AT S256 NH D DB.

(** A request for a file that is never served. *)
Definition hunted := Mediation.run (Mediation.post "/.env" ["x"]).
Definition earlier : list (Z * Metrics.Call) := [(0, Metrics.CBlock (lit "app.example") (lit "xss") (lit "192.0.2.1") (lit "/") (lit "old"))].

Lemma answered {S A} (r : S * list Mark * Flow A) : (if r.2 is Answer _ then true else false) = true ->
  exists a, r = (r.1.1, r.1.2, Answer a).
Proof. destruct r as [[s l] [a|reply| |]]; try done. by eexists. Qed.

Lemma no_refusal_unseen_witness : exists e,
  head (Metrics.recent (Metrics.history (earlier ++ calls_of 60 hunted.1.2))) = Some e /\ Metrics.event_type e <> lit "xss".
Proof.
  destruct (answered hunted ltac:(vm_compute; reflexivity)) as [a E].
  destruct (no_refusal_unseen Mediation.demo_proxy Mediation.calm (Mediation.post "/.env" ["x"]) Mediation.fresh _ _ a 60 earlier E)
    as (site & e & Hin & Hh).
  exists e. split; [exact Hh|]. intros He. revert Hh. vm_compute. intros [= <-]. vm_compute in He. discriminate.
Defined.

Example evaluate_marks : Metrics.history (calls_of 60 hunted.1.2) <> []
  /\ map (fun e => (Metrics.event_type e, Metrics.client_ip e))
       (Metrics.recent (Metrics.history (earlier ++ calls_of 60 hunted.1.2)))
     = [(lit "sensitive_path", lit "192.0.2.7"); (lit "xss", lit "192.0.2.1")].
Proof. vm_compute. split; [discriminate|reflexivity]. Qed.
End evaluations.
