(* ===== verification/Boot.v ===== *)
(** * The start of the process ([src/main.rs], [src/tls_fingerprint.rs])

    What [main] makes of its arguments, and the server it assembles: the proxy over the policy, the filter of connections, the listeners
    and their TLS, the operators' interface.  The environment is the one there is once [.env] was read.  Pingora, OpenSSL and the threads
    that wait for signals and probe origins are not modelled: what OpenSSL makes of files, and the outside that the components meet, are
    fields of [Machine]. *)

From S2P Require Import Prelude Text Net IpText Window Shield Json Jwks AdminText Oidc Admin Dashboard Operators.
From S2P Require ClientIp RateLimit ProxyProtocol Http Upstream Budget Connection Inspection Grpc Spool Dlp Graphql Origin Waf.
From S2P Require Abuse Jwt Authz OpenApi WafEngine Config Policy Stage Pipeline Metrics Otel Commands.

(** ** The fingerprint of a TLS client *)

(** What is fed to the hasher of the standard library. *)
Inductive HashWrite : Type := HashStr (s : bytes) | HashSlice (s : bytes).

(** What OpenSSL shows of a ClientHello: the [Debug] text of the version, the cipher suites and the compression methods. *)
Record ClientHello : Type := { legacy_version : option bytes; hello_ciphers : option bytes; hello_compression : option bytes }.

(** [src/tls_fingerprint.rs: fn hash_client_hello] What is hashed, in order. *)
Definition hash_client_hello (h : ClientHello) : list HashWrite :=
  option_list (HashStr <$> legacy_version h) ++ option_list (HashSlice <$> hello_ciphers h)
  ++ option_list (HashSlice <$> hello_compression h).

(** A TLS end: its files, whether the callback that hashes the ClientHello is installed, the callbacks of the completed handshake (a
    listener has its own; an acceptor is given them by who shakes hands), the authority whose certificates are asked of clients, and
    whether clients must present one. *)
Record TlsEnd : Type := {
  te_cert : bytes; te_key : bytes; te_hello : bool; te_callbacks : option Connection.Callbacks; te_client_ca : option bytes;
  te_must_present : bool }.

(** A handshake of a client: at which end, with which callbacks, and its ClientHello. *)
Record Handshake : Type := { hs_end : TlsEnd; hs_callbacks : option Connection.Callbacks; hs_hello : ClientHello }.

(** [src/tls_fingerprint.rs: fn from_ssl] [finish] is the hasher. *)
Definition from_ssl (finish : list HashWrite -> Z) (h : Handshake) : option Z :=
  if te_hello (hs_end h) then Some (finish (hash_client_hello (hs_hello h))) else None.

(** [src/tls_fingerprint.rs: HelloFingerprint::handshake_complete_callback] The fingerprint that the callbacks leave with the session. *)
Definition handshake_complete_callback (finish : list HashWrite -> Z) (h : Handshake) : option Z :=
  match hs_callbacks h with Some Connection.HelloFingerprint => from_ssl finish h | _ => None end.

(** [src/tls_fingerprint.rs: fn from_session_digest] What the session of a client knows of its ClientHello, over TLS or not. *)
Definition from_session_digest (finish : list HashWrite -> Z) (tls : option Handshake) : option Z :=
  tls ≫= handshake_complete_callback finish.

(** ** What the start meets *)

(** The host of the commands, the policy's files, the network of the identity provider, the files there are, what the rule engine answers
    to each probe and the clock between probes, whether the probes of a site's origins can be built, the lines of a log that can be
    opened, whether the exporter's thread and runtime start, whether OpenSSL makes an acceptor and loads a chain (over the key loaded
    before), a key (over the chain loaded before) and an authority, the processors there are, and whether Pingora takes the arguments. *)
Record Machine : Type := {
  mc_host : Commands.Host; mc_occasion : Policy.Occasion; mc_toml : bool; mc_net : Net; mc_is_file : bytes -> bool;
  mc_engine : nat -> bytes -> Authz.Exchange; mc_clock : nat -> Instant; mc_probe : Origin.Site -> bool;
  mc_audit : bytes -> option (list bytes); mc_threads : bool * bool; mc_tls : bool; mc_chain : option bytes -> bytes -> bool;
  mc_private : option bytes -> bytes -> bool; mc_ca : bytes -> bool; mc_cpus : option Z; mc_options : bool }.

Definition mc_env (m : Machine) : Env := Config.w_env (Commands.around (mc_host m)).

(** Why the process ends before it serves. *)
Inductive BootError : Type :=
| BadWafProfile | BadDlpAction (e : Dlp.DlpError) | BadEngine | EngineSilent | PolicyFailed (e : Policy.PolicyError)
| SpoolFailed (e : Spool.PrepareError) | BadTrusted (e : ClientIp.NetworkError) | BadClientIp (e : ClientIp.ConfigError) | BadOptions
| BadSecret | ProbeFailed | BadListen (e : Commands.ToolError) | NoTls | BadChain (path : bytes) | BadKey (path : bytes)
| BadAuthority (path : bytes) | BadDashboardBind (text : bytes) | BadDashboardPort (text : bytes) | AuditClosed (path : bytes)
| BadAdmin (e : AdminError) | Exposed (e : ExposureError).

(** ** TLS *)

Section Tls.
Context (m : Machine).

(** [src/tls_fingerprint.rs: fn proxy_tls_settings + fn install_client_hello] *)
Definition proxy_tls_settings (cert key : bytes) : result BootError TlsEnd :=
  if negb (mc_tls m) then Err NoTls
  else if negb (mc_chain m None cert) then Err (BadChain cert)
  else if negb (mc_private m (Some cert) key) then Err (BadKey key)
  else Ok {| te_cert := cert; te_key := key; te_hello := true; te_callbacks := Some Connection.HelloFingerprint; te_client_ca := None;
           te_must_present := false |}.

(** [src/main.rs: fn tls_acceptor] *)
Definition tls_acceptor (cert key : bytes) : result BootError TlsEnd :=
  if negb (mc_tls m) then Err NoTls
  else if negb (mc_private m None key) then Err (BadKey key)
  else if negb (mc_chain m (Some key) cert) then Err (BadChain cert)
  else Ok {| te_cert := cert; te_key := key; te_hello := true; te_callbacks := None; te_client_ca := None; te_must_present := false |}.

(** [src/dashboard_auth.rs: DashboardTls::into_settings] *)
Definition into_settings (t : DashboardTls) : result BootError TlsEnd :=
  if negb (mc_tls m) then Err NoTls
  else if negb (mc_chain m None (cert_path t)) then Err (BadChain (cert_path t))
  else if negb (mc_private m (Some (cert_path t)) (key_path t)) then Err (BadKey (key_path t))
  else match client_ca t with
       | None => Ok {| te_cert := cert_path t; te_key := key_path t; te_hello := false;
                      te_callbacks := Some Connection.DashboardClientAuth; te_client_ca := None; te_must_present := false |}
       | Some ca =>
           if negb (mc_ca m ca) then Err (BadAuthority ca)
           else Ok {| te_cert := cert_path t; te_key := key_path t; te_hello := false;
                      te_callbacks := Some Connection.DashboardClientAuth; te_client_ca := Some ca; te_must_present := require_client_cert t |}
       end.
End Tls.

(** ** The rule engine *)

(** [src/waf_engine.rs: const BOOT_WAIT] *)
Definition BOOT_WAIT : Duration := from_secs 15.

(** The probes of [WafEngine::boot], from the [i]th on. *)
Fixpoint wait_ready (exchange : nat -> bytes -> Authz.Exchange) (clock : nat -> Instant) (deadline : Instant) (fuel i : nat)
    : fueled BootError unit :=
  match fuel with
  | O => NoFuel
  | S fuel =>
      if WafEngine.probe_ready (exchange i) then Done tt
      else if deadline <=? clock (S i) then Failed EngineSilent
      else wait_ready exchange clock deadline fuel (S i)
  end.

(** Seventy-six probes two hundred milliseconds apart take fifteen seconds. *)
Definition BOOT_PROBES : nat := 76.

(** [src/waf_engine.rs: WafEngine::boot] The first reading of the clock sets the deadline. *)
Definition engine_boot (e : WafEngine.WafEngine) (exchange : nat -> bytes -> Authz.Exchange) (clock : nat -> Instant)
    : fueled BootError unit :=
  if negb (WafEngine.is_coraza e) then Done tt
  else wait_ready exchange clock (clock O + BOOT_WAIT) BOOT_PROBES O.

(** ** The proxy *)

Section Serving.
Context {OT : OidcText} {SJ : SerdeJson} {JT : JwksText} {JC : Jwt.JwtCrypto} {S256 : Graphql.Sha256}.
Context {UC : UnicodeCase} {YT : OpenApi.YamlText} {D : Grpc.Descriptors} {DB : Abuse.Mmdb} {PT : Config.PemText} {TT : Config.TomlText}
  {PC : Policy.PolicyCrypto}.

(** [src/origin.rs: OriginPools::from_policy] *)
Definition origin_pools (probe_ok : Origin.Site -> bool) (p : Policy.PolicyStore) : option Origin.OriginPools :=
  pools ← Origin.rebuild probe_ok (map Pipeline.site_of (Config.backends (Policy.lp_config (Policy.live p))))
            {| Origin.version := []; Origin.sites := ∅ |};
  Some {| Origin.version := Policy.policy_version (Policy.lp_snapshot (Policy.live p)); Origin.sites := Origin.sites pools |}.

(** The proxy with the state its requests share at first. *)
Record Built : Type := {
  bt_proxy : Pipeline.FerroadaProxy; bt_limiter : RateLimit.RateLimiter; bt_concurrency : Budget.ConcurrencyState;
  bt_dlp_budget : Budget.ByteBudget; bt_request_budget : Budget.ByteBudget; bt_origins : Origin.OriginPools;
  bt_abuse : Abuse.AbuseEngine }.

(** [src/proxy.rs: FerroadaProxy::from_policy + FerroadaProxy::with_waf_engine] *)
Definition from_policy (m : Machine) (p : Policy.PolicyStore) (limiter : RateLimit.RateLimiter) (trusted : ClientIp.TrustedProxies)
    (client_ip : ClientIp.ClientIpConfig) (proxy_protocol : bool) (engine : WafEngine.WafEngine) : result BootError Built :=
  let env := mc_env m in
  secret ← ok_or BadSecret (Upstream.origin_secret_from_env env);
  action ← match Dlp.parse_action (env "DLP_ACTION") with Ok a => Ok a | Err e => Err (BadDlpAction e) end;
  pools ← ok_or ProbeFailed (origin_pools (mc_probe m) p);
  Ok {| bt_proxy := {|
          Pipeline.px_config := Policy.lp_config (Policy.live p);
          Pipeline.px_version := Policy.policy_version (Policy.lp_snapshot (Policy.live p));
          Pipeline.px_trusted := trusted; Pipeline.px_client_ip := client_ip; Pipeline.px_proxy_protocol := proxy_protocol;
          Pipeline.px_dlp_action := action; Pipeline.px_origin_secret := secret; Pipeline.px_engine := engine;
          Pipeline.px_extra_retries := Origin.configured_extra_retries env; Pipeline.px_env := env |};
        bt_limiter := limiter; bt_concurrency := Budget.concurrency_from_env env;
        bt_dlp_budget := Budget.budget_from_env env "DLP_MAX_IN_FLIGHT_BYTES" (64 * 1024 * 1024);
        bt_request_budget := Budget.budget_from_env env "WAF_MAX_IN_FLIGHT_BYTES" (64 * 1024 * 1024);
        bt_origins := pools; bt_abuse := Abuse.engine_new |}.

(** ** Services *)

(** [src/connection.rs: struct BoundedHttpApp] The application and the count of connections are the server's. *)
Record BoundedHttpApp : Type := { ap_proxy_protocol : bool; ap_acceptor : option TlsEnd }.

(** [src/connection.rs: ConnectionRateFilter::wrap] *)
Definition wrap (proxy_protocol : bool) (acceptor : option TlsEnd) : BoundedHttpApp :=
  {| ap_proxy_protocol := proxy_protocol; ap_acceptor := acceptor |}.

Inductive App : Type := ProxyApp (a : BoundedHttpApp) | DashboardApp.

(** A service: its application, the addresses it listens at, each with its TLS if the listener has one, and whether the server's filter
    of connections is set on it. *)
Record Service : Type := { sv_app : App; sv_listeners : list (bytes * option TlsEnd); sv_filtered : bool }.

Definition new_service (app : App) : Service := {| sv_app := app; sv_listeners := []; sv_filtered := false |}.
Definition add_listener (at_addr : bytes) (tls : option TlsEnd) (s : Service) : Service :=
  {| sv_app := sv_app s; sv_listeners := sv_listeners s ++ [(at_addr, tls)]; sv_filtered := sv_filtered s |}.
Definition set_connection_filter (s : Service) : Service :=
  {| sv_app := sv_app s; sv_listeners := sv_listeners s; sv_filtered := true |}.

(** [src/main.rs: fn main @151-199] The services of the proxy. *)
Definition proxy_services (m : Machine) (proxy_protocol : bool) : result BootError (list Service) :=
  let env := mc_env m in
  let listen name dflt := match Commands.listen_from_env env name dflt with Ok a => Ok a | Err e => Err (BadListen e) end in
  proxy_listen ← listen "PROXY_LISTEN" Commands.DEFAULT_PROXY;
  let svc := add_listener proxy_listen None (new_service (ProxyApp (wrap proxy_protocol None))) in
  match env "TLS_CERT_PATH", env "TLS_KEY_PATH" with
  | Some cert, Some key =>
      tls_listen ← listen "TLS_LISTEN" Commands.DEFAULT_TLS;
      if proxy_protocol then
        acceptor ← tls_acceptor m cert key;
        let tls_svc := new_service (ProxyApp (wrap proxy_protocol (Some acceptor))) in
        Ok [add_listener tls_listen None (set_connection_filter tls_svc); set_connection_filter svc]
      else
        settings ← proxy_tls_settings m cert key;
        Ok [add_listener tls_listen (Some settings) (set_connection_filter svc)]
  | _, _ => Ok [set_connection_filter svc]
  end.

(** [src/dashboard_audit.rs: AdminAudit::from_env + AdminAudit::open + AdminAudit::disabled] *)
Definition audit_from_env (m : Machine) : result BootError (option (list bytes)) :=
  match mc_env m "DASHBOARD_AUDIT_LOG" with
  | Some path => if is_empty (trim path) then Ok None
                 else match mc_audit m (trim path) with Some lines => Ok (Some lines) | None => Err (AuditClosed (trim path)) end
  | None => Ok None
  end.

(** [SocketAddr::to_string] *)
Definition show_socket (ip : IpAddr) (port : Z) : bytes :=
  match ip with V4 _ => show_ip ip | V6 _ => lit "[" ++ show_ip ip ++ lit "]" end ++ lit ":" ++ show_dec port.

(** [src/main.rs: fn main @201-245] The operators' interface and its service. *)
Definition dashboard_service (m : Machine) (p : Policy.PolicyStore) : result BootError (DashboardService * Service) :=
  let env := mc_env m in
  let port := default (lit "9000") (env "DASHBOARD_PORT") in
  let bind := default (lit "127.0.0.1") (env "DASHBOARD_BIND") in
  ip ← ok_or (BadDashboardBind bind) (parse_ip bind);
  let token := match env "DASHBOARD_TOKEN" with Some t => if is_empty (trim t) then None else Some t | None => None end in
  audit ← audit_from_env m;
  setup ← match admin_from_env env (mc_net m) (mc_is_file m) token with Ok s => Ok s | Err e => Err (BadAdmin e) end;
  _ ← match validate_exposure ip token (production_enabled env) (strong setup.1) with Ok _ => Ok tt | Err e => Err (Exposed e) end;
  port ← ok_or (BadDashboardPort port) (parse_uint u16_max port);
  let dashboard := service_with_admin setup.1 audit (bool_decide (is_Some setup.2)) (service_with_policy p) in
  settings ← match setup.2 with Some t => t ← into_settings m t; Ok (Some t) | None => Ok None end;
  Ok (dashboard, add_listener (show_socket ip port) settings (new_service DashboardApp)).

(** ** The server *)

Record ServerConf : Type := { max_retries : Z; grace_period_seconds : Z; graceful_shutdown_timeout_seconds : Z; threads : Z }.

(** [src/main.rs: fn main @120-136] *)
Definition server_conf (m : Machine) : ServerConf :=
  let env := mc_env m in
  {| max_retries := Z.max (Commands.total_upstream_attempts (env "MAX_UPSTREAM_RETRIES")) 4;
     grace_period_seconds := Commands.main_env_u64 env "GRACE_PERIOD_SECS" 5;
     graceful_shutdown_timeout_seconds := Commands.main_env_u64 env "GRACEFUL_SHUTDOWN_TIMEOUT_SECS" 30;
     threads := Z.min 64 (match filter_positive (value ← env "PROXY_THREADS"; parse_uint usize_max value) with
                          | Some n => n
                          | None => default 1 (mc_cpus m)
                          end) |}.

(** The server of a process: the policy and the proxy over it, the filter of connections and their count, the operators' interface, the
    services in the order they start, the exporter of telemetry. *)
Record Server : Type := {
  srv_conf : ServerConf; srv_policy : Policy.PolicyStore; srv_proxy : Built;
  srv_filter : Connection.RateFilter * Connection.ActiveConnectionState; srv_dashboard : DashboardService; srv_services : list Service;
  srv_exporter : Otel.Exporter }.

(** The start writes the file with the process number. *)
Definition Boot (A : Type) : Type := Commands.Shell -> Commands.Shell * fueled BootError A.
#[local] Instance boot_ret : MRet Boot := fun _ a s => (s, Done a).
#[local] Instance boot_bind : MBind Boot := fun _ _ f b s =>
  match b s with (s, Done a) => f a s | (s, Failed e) => (s, Failed e) | (s, NoFuel) => (s, NoFuel) end.

Definition boots {A} (r : fueled BootError A) : Boot A := fun s => (s, r).
Definition attempt {A} (r : result BootError A) : Boot A := boots (OpenApi.of_result r).

(** [src/spool.rs: fn boot] over the directory that the load of the policy left. *)
Definition spool_again (o : Policy.Occasion) (p : Policy.PolicyStore) : result BootError unit :=
  match Config.has_spool_routes (Policy.lp_config (Policy.live p)) with
  | Some routes =>
      match (Spool.boot routes (Spool.boot routes (Policy.spool_dir o)).1).2 with Ok _ => Ok tt | Err e => Err (SpoolFailed e) end
  | None => Err (PolicyFailed Policy.PolicyPanic)
  end.

(** [src/main.rs: fn main @92-149] *)
Definition serve_policy (m : Machine) : Boot (Policy.PolicyStore * Built * bool) :=
  let env := mc_env m in
  _ ← attempt (ok_or BadWafProfile (Waf.WAF_PROFILE env));
  _ ← attempt (match Dlp.parse_action (env "DLP_ACTION") with Ok a => Ok a | Err e => Err (BadDlpAction e) end);
  engine ← attempt (ok_or BadEngine (WafEngine.engine_from_env env));
  _ ← boots (engine_boot engine (mc_engine m) (mc_clock m));
  policy ← boots (match Policy.store_boot (mc_occasion m) (mc_toml m) with
                  | Done p => Done p | Failed e => Failed (PolicyFailed e) | NoFuel => NoFuel end);
  _ ← attempt (spool_again (mc_occasion m) policy);
  _ ← (fun s => ((Commands.write_pid_file (mc_host m) s).1, Done tt));
  let limiter := RateLimit.from_env env in
  trusted ← attempt (match ClientIp.trusted_from_env env with Ok t => Ok t | Err e => Err (BadTrusted e) end);
  client_ip ← attempt (match ClientIp.config_from_env env with Ok c => Ok c | Err e => Err (BadClientIp e) end);
  let proxy_protocol := ProxyProtocol.enabled env in
  _ ← attempt (if mc_options m then Ok tt else Err BadOptions);
  proxy ← attempt (from_policy m policy limiter trusted client_ip proxy_protocol engine);
  mret (policy, proxy, proxy_protocol).

(** [src/main.rs: fn main @90-91] The whole start; the exporter is as it was when it started. *)
Definition main_serve (m : Machine) : Boot Server :=
  let exporter := Otel.boot (mc_env m) (mc_threads m).1 (mc_threads m).2 Metrics.metrics_new in
  '(policy, proxy, proxy_protocol) ← serve_policy m;
  services ← attempt (proxy_services m proxy_protocol);
  '(dashboard, service) ← attempt (dashboard_service m policy);
  mret {| srv_conf := server_conf m; srv_policy := policy; srv_proxy := proxy; srv_filter := Connection.from_env (mc_env m);
          srv_dashboard := dashboard; srv_services := services ++ [service]; srv_exporter := exporter |}.
End Serving.

(** ** Arguments *)

(** What a process does: a command with its arguments, the help or the refusal of the probe, or serving. *)
Inductive Entry : Type :=
| RunInit (args : list bytes) | RunCidrs (args : list bytes) | RunReload (args : list bytes) | RunPolicy (args : list bytes)
| HealthHelp | HealthRefused | RunHealth | Serve.

(** [src/main.rs: fn main @22-77] [args] are the arguments after the name of the program. *)
Definition entry (args : list bytes) : Entry :=
  match args with
  | [] => Serve
  | name :: rest =>
      if name =s "init" then RunInit rest
      else if name =s "cidrs" then RunCidrs rest
      else if name =s "reload" then RunReload rest
      else if name =s "policy" then RunPolicy rest
      else if name =s "healthcheck" then
        if existsb Commands.is_help rest then HealthHelp
        else if negb (is_empty rest) then HealthRefused
        else RunHealth
      else Serve
  end.

(** ** What a start establishes *)

Lemma boot_bind_done {A B} (b : Boot A) (f : A -> Boot B) s s' x : boot_bind _ _ f b s = (s', Done x) ->
  exists s1 a, b s = (s1, Done a) /\ f a s1 = (s', Done x).
Proof. unfold boot_bind. destruct (b s) as [s1 [a| |]]; intros Hb; [by exists s1, a|done|done]. Qed.

Lemma attempt_done {A} (r : result BootError A) s s' a : attempt r s = (s', Done a) -> s' = s /\ r = Ok a.
Proof. unfold attempt, boots. destruct r; cbn; by intros [= <- <-]. Qed.

(** Enough time for seventy-six probes is enough fuel: the wait ends, and within its deadline if the engine answers. *)
Lemma wait_ready_total exchange clock fuel i : (forall j, clock (S j) + from_millis 200 <= clock (S (S j))) ->
  clock O + from_millis (200 * Z.of_nat i) <= clock (S i) -> BOOT_WAIT <= from_millis (200 * (Z.of_nat (i + fuel) - 1)) -> (0 < fuel)%nat ->
  wait_ready exchange clock (clock O + BOOT_WAIT) fuel i <> NoFuel.
Proof.
  intros Hstep. revert i. induction fuel as [|fuel IH]; intros i Hi Hw Hf; [lia|]. cbn [wait_ready].
  destruct (WafEngine.probe_ready _); [done|]. destruct (Z.leb_spec (clock O + BOOT_WAIT) (clock (S i))); [done|].
  specialize (Hstep i). unfold BOOT_WAIT, from_secs, from_millis in *. apply IH; lia.
Qed.

Lemma engine_boot_total e exchange clock : clock O <= clock 1%nat -> (forall j, clock (S j) + from_millis 200 <= clock (S (S j))) ->
  engine_boot e exchange clock <> NoFuel.
Proof.
  intros H0 Hstep. unfold engine_boot. destruct (negb _); [done|]. apply wait_ready_total; [done| | |unfold BOOT_PROBES; lia].
  - unfold from_millis. cbn. lia.
  - unfold BOOT_WAIT, BOOT_PROBES, from_secs, from_millis. cbn. lia.
Qed.

Section Started.
Context {OT : OidcText} {SJ : SerdeJson} {JT : JwksText} {JC : Jwt.JwtCrypto} {S256 : Graphql.Sha256} {PJ : PrettyJson}.
Context {UC : UnicodeCase} {YT : OpenApi.YamlText} {D : Grpc.Descriptors} {DB : Abuse.Mmdb} {PT : Config.PemText} {TT : Config.TomlText}
  {PC : Policy.PolicyCrypto}.
Context {H : Type} {HM : Http.HeaderMap H}.

Lemma serve_policy_done m s s' p b pp : serve_policy m s = (s', Done (p, b, pp)) -> pp = ProxyProtocol.enabled (mc_env m).
Proof.
  unfold serve_policy. cbv zeta. intros Hs. repeat (apply boot_bind_done in Hs as (? & ? & _ & Hs)). by injection Hs as _ _ _ <-.
Qed.

Lemma main_serve_done m s s' srv : main_serve m s = (s', Done srv) ->
  exists services service, proxy_services m (ProxyProtocol.enabled (mc_env m)) = Ok services
  /\ dashboard_service m (srv_policy srv) = Ok (srv_dashboard srv, service) /\ srv_services srv = services ++ [service].
Proof.
  unfold main_serve. cbv zeta. intros Hs. apply boot_bind_done in Hs as (s1 & [[p b] pp] & Hp & Hs). apply serve_policy_done in Hp as ->.
  apply boot_bind_done in Hs as (s2 & services & [-> Hsv]%attempt_done & Hs).
  apply boot_bind_done in Hs as (s3 & [d service] & [-> Hd]%attempt_done & Hs). injection Hs as _ <-. by exists services, service.
Qed.

Lemma settings_hello m cert key t : proxy_tls_settings m cert key = Ok t -> te_hello t = true /\ te_callbacks t = Some Connection.HelloFingerprint.
Proof. unfold proxy_tls_settings. repeat case_match; try done. by intros [= <-]. Qed.
Lemma acceptor_hello m cert key t : tls_acceptor m cert key = Ok t -> te_hello t = true.
Proof. unfold tls_acceptor. repeat case_match; try done. by intros [= <-]. Qed.

(** A service of the proxy: behind the filter, with the PROXY header where it is asked for, and with the header read before TLS. *)
Definition entrance (proxy_protocol : bool) (sv : Service) : Prop :=
  exists a, sv_app sv = ProxyApp a /\ sv_filtered sv = true /\ ap_proxy_protocol a = proxy_protocol
  /\ (forall at_addr t, (at_addr, Some t) ∈ sv_listeners sv -> proxy_protocol = false /\ te_hello t = true
        /\ te_callbacks t = Some Connection.HelloFingerprint)
  /\ (forall t, ap_acceptor a = Some t -> te_hello t = true).

Lemma proxy_entrances m pp services : proxy_services m pp = Ok services -> Forall (entrance pp) services.
Proof.
  unfold proxy_services. cbv zeta. intros [addr [_ Hs]]%bind_ok.
  assert (entrance pp (set_connection_filter (add_listener addr None (new_service (ProxyApp (wrap pp None)))))) as Hplain.
  { exists (wrap pp None). cbn. split_and!; try done. by intros ? ? [=]%list_elem_of_singleton. }
  destruct (mc_env m "TLS_CERT_PATH") as [cert|]; [|injection Hs as <-; by constructor].
  destruct (mc_env m "TLS_KEY_PATH") as [key|]; [|injection Hs as <-; by constructor].
  apply bind_ok in Hs as (tls_addr & _ & Hs). destruct pp.
  - apply bind_ok in Hs as (t & Ht%acceptor_hello & [= <-]). repeat constructor; [|done].
    exists (wrap true (Some t)). cbn. split_and!; try done; [by intros ? ? [=]%list_elem_of_singleton|by intros ? [= <-]].
  - apply bind_ok in Hs as (t & Ht%settings_hello & [= <-]). repeat constructor.
    exists (wrap false None). cbn. split_and!; try done. intros ? ?.
    rewrite elem_of_cons, list_elem_of_singleton. by intros [[=]|[= _ ->]].
Qed.

(** The handshake behind a connection that took these steps: the one the application made with its acceptor, or the listener's own. *)
Definition handshake_of (listener acceptor : option TlsEnd) (steps : list Connection.StreamStep) (hello : ClientHello) : option Handshake :=
  match acceptor, omap (fun x => match x with Connection.ShakesHands callbacks => Some callbacks | _ => None end) steps with
  | Some t, callbacks :: _ => Some {| hs_end := t; hs_callbacks := callbacks; hs_hello := hello |}
  | _, _ => (fun t => {| hs_end := t; hs_callbacks := te_callbacks t; hs_hello := hello |}) <$> listener
  end.

(** C13. Every way into the proxy is guarded as configured: each service that runs the proxy is behind the filter of connections; where the
    PROXY header is required no listener shakes hands on its own, and the header is the first thing the application reads of a connection,
    once, and the only thing if it is refused: no handshake and no serving before it; and a connection that is served over TLS, whichever
    end shook hands, has a fingerprint: the hash of what its ClientHello offers. *)
Theorem entrances_guarded (m : Machine) (s s' : Commands.Shell) (srv : Server) (sv : Service) (a : BoundedHttpApp) :
  main_serve m s = (s', Done srv) -> sv ∈ srv_services srv -> sv_app sv = ProxyApp a ->
  sv_filtered sv = true
  /\ (ProxyProtocol.enabled (mc_env m) = true -> forall at_addr listener, (at_addr, listener) ∈ sv_listeners sv -> listener = None)
  /\ forall now peer label header outcome st st' steps ev,
      Connection.process_new now peer label (ap_proxy_protocol a) header ((fun _ => outcome) <$> ap_acceptor a) st
        = (st', Connection.Holding steps, ev) ->
      (ProxyProtocol.enabled (mc_env m) = true -> exists rest, steps = Connection.ReadsHeader :: rest /\ (Connection.ReadsHeader ∉ rest)
         /\ (header <> None -> rest = []))
      /\ (Connection.Serves ∈ steps -> forall at_addr listener, (at_addr, listener) ∈ sv_listeners sv ->
          (is_Some (ap_acceptor a) \/ is_Some listener) -> forall finish hello,
          from_session_digest finish (handshake_of listener (ap_acceptor a) steps hello) = Some (finish (hash_client_hello hello))).
Proof.
  intros Hm Hin Ha. destruct (main_serve_done m s s' srv Hm) as (services & service & Hp & Hd & Hs).
  rewrite Hs in Hin. apply elem_of_app in Hin as [Hin| ->%list_elem_of_singleton].
  2:{ unfold dashboard_service in Hd. cbv zeta in Hd. repeat (apply bind_ok in Hd as (? & _ & Hd)). injection Hd as _ <-. done. }
  apply proxy_entrances in Hp. rewrite Forall_forall in Hp. destruct (Hp sv Hin) as (a' & Ha' & Hf & Hpp & Hl & Hhello).
  rewrite Ha in Ha'. injection Ha' as <-. split; [done|]. split.
  { intros Hen at_addr [t|] Hat; [|done]. destruct (Hl at_addr t Hat) as [? _]. congruence. }
  intros now peer label header outcome st st' steps ev E. split.
  - intros Hen. rewrite Hpp, Hen in E. unfold Connection.process_new in E. destruct (Connection.activate _ _ _) as [st1 []]; [|done].
    cbn [negb] in E. destruct header as [error|]; [injection E as _ <- _; by exists []; split_and!; [|apply not_elem_of_nil|]|].
    destruct (ap_acceptor a) as [t|]; [destruct outcome|]; injection E as _ <- _; (eexists; split; [reflexivity|]);
      (split; [|done]); rewrite ?elem_of_cons, ?elem_of_nil; intuition discriminate.
  - intros Hserves at_addr listener Hat Htls finish hello. unfold Connection.process_new in E.
    destruct (Connection.activate _ _ _) as [st1 []]; [|done]. cbn [negb] in E.
    destruct (ap_acceptor a) as [t|] eqn:Et; cbn [fmap option_fmap option_map] in E.
    + assert (exists pre, steps = pre ++ [Connection.ShakesHands (Some Connection.TLS_FINGERPRINT_CB); Connection.Serves]
                /\ (pre = [] \/ pre = [Connection.ReadsHeader])) as (pre & -> & Hpre).
      { destruct (ap_proxy_protocol a); [destruct header|]; (try destruct outcome); injection E as _ <- _;
          try (by rewrite ?elem_of_cons, ?elem_of_nil in Hserves; intuition discriminate);
          [exists [Connection.ReadsHeader]|exists []]; auto. }
      destruct Hpre as [-> | ->]; cbn; unfold from_session_digest, handshake_complete_callback, from_ssl; cbn;
        by rewrite (Hhello t eq_refl).
    + destruct Htls as [[? [=]]|[t ->]]. destruct (Hl at_addr t Hat) as (_ & Hh & Hc). cbn.
      unfold from_session_digest, handshake_complete_callback, from_ssl. cbn. by rewrite Hc, Hh.
Qed.

(** What the operators' interface starts with. *)
Record interface (m : Machine) (d : DashboardService) (sv : Service) : Prop := {
  if_fresh : fresh d;
  if_token : aa_token (ds_admin d) = trimmed_nonempty (mc_env m "DASHBOARD_TOKEN");
  if_open : allow_token_off_loopback (ds_admin d) = negb (strong (ds_admin d));
  if_address : exists ip port, parse_ip (default (lit "127.0.0.1") (mc_env m "DASHBOARD_BIND")) = Some ip
    /\ validate_exposure ip (mc_env m "DASHBOARD_TOKEN") (production_enabled (mc_env m)) (strong (ds_admin d)) = Ok tt
    /\ map fst (sv_listeners sv) = [show_socket ip port];
  if_authority : is_Some (aa_mtls (ds_admin d)) -> exists ca, mc_env m "DASHBOARD_MTLS_CA" <> None
    /\ Forall (fun l => exists t, l.2 = Some t /\ te_client_ca t = Some ca) (sv_listeners sv) }.

Lemma filled_token o : trimmed_nonempty (match o with Some t => if is_empty (trim t) then None else Some t | None => None end)
  = trimmed_nonempty o.
Proof. destruct o as [t|]; [|done]. cbn. destruct (is_empty (trim t)) eqn:E; cbn; by rewrite ?E. Qed.

Lemma admin_ok env net is_file token a tls : admin_from_env env net is_file token = Ok (a, tls) ->
  aa_sessions a = ∅ /\ aa_pending a = ∅ /\ aa_token a = trimmed_nonempty token /\ allow_token_off_loopback a = negb (strong a)
  /\ (is_Some (aa_mtls a) -> exists t ca, tls = Some t /\ client_ca t = Some ca /\ env_nonempty env "DASHBOARD_MTLS_CA" = Some ca).
Proof.
  unfold admin_from_env. intros (oidc & _ & Ha)%bind_ok. cbv zeta in Ha. apply bind_ok in Ha as (? & _ & Ha).
  apply bind_ok in Ha as (tls' & Ht & [= <- <-]). cbn. split_and!; try done.
  destruct (env_nonempty env "DASHBOARD_MTLS_CA") as [ca|]; [|by intros []]. intros _.
  destruct (env_nonempty env "DASHBOARD_TLS_CERT_PATH"), (env_nonempty env "DASHBOARD_TLS_KEY_PATH"); try done.
  injection Ht as <-. by eexists _, ca.
Qed.

Lemma into_settings_ca m t e : into_settings m t = Ok e -> te_client_ca e = client_ca t.
Proof. unfold into_settings. destruct (client_ca t); repeat case_match; try done; by intros [= <-]. Qed.

Lemma dashboard_interface m p d sv : dashboard_service m p = Ok (d, sv) -> interface m d sv.
Proof.
  unfold dashboard_service. cbv zeta. intros (ip & Hip & Hd)%bind_ok. apply bind_ok in Hd as (audit & _ & Hd).
  apply bind_ok in Hd as ([a tls] & Ha & Hd). apply bind_ok in Hd as (u & He & Hd). apply bind_ok in Hd as (port & _ & Hd).
  apply bind_ok in Hd as (settings & Hs & Hd). injection Hd as <- <-. cbn [fst snd] in *.
  destruct (admin_from_env _ _ _ _) as [[a' tls']|] eqn:Ea; [injection Ha as <- <-|done].
  apply admin_ok in Ea as (H1 & H2 & H3 & H4 & H5). rewrite filled_token in H3. constructor; cbn; try done.
  - exists ip, port. split; [by destruct (parse_ip _); [injection Hip as <-|]|]. split; [|done].
    unfold validate_exposure in *. rewrite filled_token in He. by repeat case_match.
  - intros (t & ca & -> & Hca & Henv)%H5. exists ca. split; [by intros E; unfold env_nonempty in Henv; rewrite E in Henv|].
    apply bind_ok in Hs as (e & He' & [= <-]). repeat constructor. exists e. split; [done|]. by rewrite (into_settings_ca m t e He').
Qed.

(** Where the start lets no one in without a credential, no token role comes of nothing. *)
Lemma token_needed m d sv s auth lb role : interface m d sv ->
  production_enabled (mc_env m) = true \/ (exists ip, parse_ip (default (lit "127.0.0.1") (mc_env m "DASHBOARD_BIND")) = Some ip
    /\ is_loopback ip = false) ->
  settings s = settings d -> token_role auth lb (ds_admin s) = Some role ->
  exists t, trimmed_nonempty (mc_env m "DASHBOARD_TOKEN") = Some t /\ bearer auth = Some t.
Proof.
  intros [_ Ht Ho (ip & port & Hip & He & _) _] Hc Hs. unfold settings in Hs. injection Hs as E1 _ _ _ E2. unfold token_role.
  rewrite E1, E2, Ht. destruct (trimmed_nonempty _) as [t|] eqn:Et.
  - case_match; [done|]. destruct (bearer auth) as [x|]; [|done]. cbn. destruct (constant_time_eq x t) eqn:Ex; [|done].
    apply constant_time_eq_spec in Ex as ->. intros _. by exists t.
  - rewrite Ho. destruct (exposure_ok _ _ _ _ He) as [[? Hx]|[Hp Hx]]; [congruence|].
    destruct Hc as [Hc|(ip' & Hip' & Hl)]; [congruence|]. rewrite Hip in Hip'. injection Hip' as <-. destruct Hx as [Hx|Hx]; [congruence|].
    by rewrite Hx.
Qed.

(** C12. In production, or where the operators' interface does not listen on the loopback address, nobody is anonymous: over every
    sequence of requests of the process, who is identified bears the configured token, or presents a certificate that has a role, which
    every listener of the interface checks against the configured authority, or bears in its cookie the identifier of a session, drawn by
    an earlier request that showed a credential for its role, and within the lifetime that runs from that request. *)
Theorem nobody_anonymous (m : Machine) (s s' : Commands.Shell) (srv : Server) (l : list (Moment * AdminRequest (H := H)))
    (now : Instant) (cookie auth cn : option bytes) (lb : bool) (n : Authn) :
  main_serve m s = (s', Done srv) ->
  production_enabled (mc_env m) = true \/ (exists ip, parse_ip (default (lit "127.0.0.1") (mc_env m "DASHBOARD_BIND")) = Some ip
    /\ is_loopback ip = false) ->
  (authenticate now cookie auth cn lb (ds_admin (serve_all l (srv_dashboard srv)))).2 = Some n ->
  (exists t, trimmed_nonempty (mc_env m "DASHBOARD_TOKEN") = Some t /\ bearer auth = Some t)
  \/ (exists name mt, cn = Some name /\ aa_mtls (ds_admin (srv_dashboard srv)) = Some mt /\ mtls_role mt name = Some (an_role n)
      /\ exists sv ca, last (srv_services srv) = Some sv /\ sv_app sv = DashboardApp
           /\ Forall (fun p => exists t, p.2 = Some t /\ te_client_ca t = Some ca) (sv_listeners sv))
  \/ (exists m' q' raw, (m', q') ∈ l /\ shows (srv_dashboard srv) (begun_in l (srv_dashboard srv)) m' q' (an_role n)
      /\ m_rand m' 3 = Some raw /\ cookie_value cookie COOKIE_NAME = Some (hex_encode raw)
      /\ now < m_clock m' 6 + aa_ttl (ds_admin (srv_dashboard srv))).
Proof.
  intros Hm Hc Hn%authenticate_identified. destruct (main_serve_done m s s' srv Hm) as (services & sv & _ & Hd & Hs).
  pose proof (dashboard_interface _ _ _ _ Hd) as Hi. destruct (trace_traced l _ (if_fresh _ _ _ Hi)) as [Hset Hses _].
  destruct Hn as [id r Hck Hr Hlt -> |name mt -> Hmt Hrole _ _ _|Hrole _ _].
  - right. right. destruct (Hses id r Hr) as (m' & q' & Hin & Hw & Hx & (raw & Hraw & ->) & _). exists m', q', raw. cbn. by rewrite <- Hx.
  - right. left. assert (aa_mtls (ds_admin (srv_dashboard srv)) = Some mt) as Hmt' by (unfold settings in Hset; congruence).
    exists name, mt. do 3 (split; [done|]). destruct (if_authority _ _ _ Hi) as (ca & _ & Hca); [by rewrite Hmt'|].
    exists sv, ca. rewrite Hs, last_snoc. split; [done|]. split; [|done].
    unfold dashboard_service in Hd. cbv zeta in Hd. repeat (apply bind_ok in Hd as (? & _ & Hd)). by injection Hd as _ <-.
  - left. by eapply token_needed.
Qed.
End Started.

(** ** Evaluations *)

Section Evaluations.
#[local] Existing Instances demo_oidc_text op_json demo_jwks_text demo_oidc_crypto Policy.text_hash op_pretty.
#[local] Existing Instances Shield.ascii_case OpenApi.no_yaml Grpc.demo_descriptors Abuse.no_mmdb Policy.text_pem Policy.mtls_toml Policy.trusting.
#[local] Existing Instance Http.assoc_headers.

(** Behind a balancer that speaks the PROXY protocol, over TLS, with the dashboard on every address and a token. *)
Definition edge_env (name : bytes) : option bytes :=
  if name =s "PROXY_PROTOCOL" then Some (lit "true")
  else if name =s "TLS_CERT_PATH" then Some (lit "c.pem")
  else if name =s "TLS_KEY_PATH" then Some (lit "k.pem")
  else if name =s "DASHBOARD_BIND" then Some (lit "0.0.0.0")
  else if name =s "DASHBOARD_TOKEN" then Some (lit " secret ")
  else None.
Definition machine (env : bytes -> option bytes) : Machine := {|
  mc_host := {| Commands.around := {| Config.w_var := env; Config.w_read _ := None; Config.w_mmdb _ := Abuse.NotAFile;
                                      Config.w_addrs _ _ := []; Config.w_fetch _ := Err Jwks.JwksRead; Config.w_now := 0 |};
                Commands.readable _ := true; Commands.writable _ := true; Commands.torn _ := None; Commands.stdin := None;
                Commands.stdout_ok := true; Commands.may_signal _ := true; Commands.own_pid := 42 |};
  mc_occasion := Policy.quiet "A"; mc_toml := true; mc_net := demo_net; mc_is_file _ := true; mc_engine _ _ := WafEngine.silent;
  mc_clock i := from_millis (200 * Z.of_nat i); mc_probe _ := true; mc_audit _ := Some []; mc_threads := (true, true); mc_tls := true;
  mc_chain _ _ := true; mc_private _ _ := true; mc_ca _ := true; mc_cpus := Some 8; mc_options := true |}.
Definition no_shell : Commands.Shell := {| Commands.files := ∅; Commands.printed := []; Commands.signalled := [] |}.
Definition services_of (r : fueled BootError Server) : list Service := match r with Done srv => srv_services srv | _ => [] end.

Definition edge_end : TlsEnd := {|
  te_cert := lit "c.pem"; te_key := lit "k.pem"; te_hello := true; te_callbacks := None; te_client_ca := None; te_must_present := false |}.
Definition edge_tls : Service := {|
  sv_app := ProxyApp {| ap_proxy_protocol := true; ap_acceptor := Some edge_end |}; sv_listeners := [(lit "0.0.0.0:3443", None)];
  sv_filtered := true |}.
Definition edge_services : list Service :=
  [edge_tls;
   {| sv_app := ProxyApp {| ap_proxy_protocol := true; ap_acceptor := None |}; sv_listeners := [(lit "0.0.0.0:3000", None)];
      sv_filtered := true |};
   {| sv_app := DashboardApp; sv_listeners := [(lit "0.0.0.0:9000", None)]; sv_filtered := false |}].

Lemma edge_starts : services_of (main_serve (machine edge_env) no_shell).2 = edge_services.
Proof. vm_compute. reflexivity. Qed.

(** A connection whose header is read and whose handshake succeeds. *)
Definition comes_in (a : BoundedHttpApp) := Connection.process_new 1 (Some (SocketV4 1 4000)) (lit "peer") (ap_proxy_protocol a) None
  ((fun _ => Connection.TlsDone) <$> ap_acceptor a) (Connection.new_active 10).
Definition some_hello : ClientHello := Build_ClientHello None (Some [1]) None.

Lemma entrances_guarded_witness : exists sv a, sv_app sv = ProxyApp a /\ ap_acceptor a = Some edge_end /\ sv_filtered sv = true
  /\ (comes_in a).1.2 = Connection.Holding [Connection.ReadsHeader; Connection.ShakesHands (Some Connection.HelloFingerprint); Connection.Serves]
  /\ from_session_digest (fun _ => 7) (Some {| hs_end := edge_end; hs_callbacks := Some Connection.HelloFingerprint; hs_hello := some_hello |})
     = Some 7.
Proof.
  pose proof edge_starts as Hs. destruct (main_serve (machine edge_env) no_shell) as [s' [srv| |]] eqn:E; [|discriminate Hs..].
  exists edge_tls, {| ap_proxy_protocol := true; ap_acceptor := Some edge_end |}.
  assert (edge_tls ∈ srv_services srv) as Hin by (cbn in Hs; rewrite Hs; by left).
  destruct (entrances_guarded _ _ _ _ edge_tls {| ap_proxy_protocol := true; ap_acceptor := Some edge_end |} E Hin eq_refl)
    as (Hf & _ & Ht).
  split_and!; [reflexivity|reflexivity|exact Hf|vm_compute; reflexivity|].
  refine (proj2 (Ht 1 (Some (SocketV4 1 4000)) (lit "peer") None Connection.TlsDone (Connection.new_active 10) _ _ _ eq_refl) _
    (lit "0.0.0.0:3443") None _ (or_introl (ex_intro _ edge_end eq_refl)) (fun _ => 7) some_hello).
  - apply elem_of_cons. right. apply elem_of_cons. right. by left.
  - by left.
Defined.

(** Someone with the token, after a refused attempt to sign in. *)
Definition bearer_header : option bytes := Some (lit "Bearer secret").
Definition guesses : Moment * AdminRequest (H := list (bytes * bytes)) := (at_second 10, a_post "/api/login" [] "token=guess").
Definition edge_identity (r : fueled BootError Server) : option Authn :=
  match r with
  | Done srv => (authenticate (from_secs 20) None bearer_header None false (ds_admin (serve_all [guesses] (srv_dashboard srv)))).2
  | _ => None
  end.

Lemma edge_operator : edge_identity (main_serve (machine edge_env) no_shell).2
  = Some {| an_role := Operator; an_method := MToken; an_csrf := None; an_subject := None |}.
Proof. vm_compute. reflexivity. Qed.

Lemma nobody_anonymous_witness :
  (exists t, trimmed_nonempty (mc_env (machine edge_env) "DASHBOARD_TOKEN") = Some t /\ bearer bearer_header = Some t)
  \/ exists (m : Moment) (q : AdminRequest (H := list (bytes * bytes))), (m, q) ∈ [guesses].
Proof.
  pose proof edge_operator as Ho. destruct (main_serve (machine edge_env) no_shell) as [s' [srv| |]] eqn:E; [|discriminate Ho..].
  destruct (nobody_anonymous _ _ _ _ [guesses] (from_secs 20) None bearer_header None false _ E
    (or_intror (ex_intro _ (V4 0) (conj eq_refl eq_refl))) Ho) as [Ht|[(name & mt & Hcn & _)|(m & q & raw & Hin & _)]].
  - left. exact Ht.
  - discriminate Hcn.
  - right. exists m, q. exact Hin.
Defined.

(** Without a token the same start is refused, but it has taken the file of the process number by then. *)
Definition open_env (name : bytes) : option bytes := if name =s "DASHBOARD_BIND" then Some (lit "0.0.0.0") else None.
Definition running : Commands.Shell := {|
  Commands.files := {[ lit "ferroada.pid" := lit "7" ++ [10] ]}; Commands.printed := []; Commands.signalled := [] |}.

Example failed_start_takes_pid :
  (main_serve (machine open_env) running).2 = Failed (Exposed TokenOffLoopbackBind)
  /\ Commands.files (main_serve (machine open_env) running).1 !! lit "ferroada.pid" = Some (lit "42" ++ [10]).
Proof. vm_compute. split; reflexivity. Qed.

Example evaluate_entry :
  entry [lit "reload"; lit "--pid"; lit "7"] = RunReload [lit "--pid"; lit "7"] /\ entry [lit "healthcheck"; lit "x"] = HealthRefused
  /\ entry [lit "serve"] = Serve.
Proof. vm_compute. repeat split; reflexivity. Qed.
End Evaluations.
